(* ===== verification/_CoqProject ===== *)
-Q . S2P
Prelude.v
Float.v
FloatInt.v
Wire.v
Buffer.v
Weights.v
Averaging.v
Filters.v
Krum.v
Spectral.v
Statistics.v
Trusted.v
Temporal.v
Optimization.v
Contracts.v
Drift.v
Linear.v
Elimination.v
Flanders.v
RootModel.v
Catalog.v
Registry.v
Reputation.v
Privacy.v
Store.v
Config.v
State.v
Round.v
RoundLoop.v
Submission.v
Dispatcher.v
Admin.v
Node.v
Client.v
Transport.v
Validate.v
Profile.v
Environment.v
Experiment.v
Startup.v
Serve.v
SidecarService.v
Redis.v
S3.v
Postgres.v
Attacks.v
Federation.v
Process.v
Text.v
Unselected.v
ConfigCommand.v
StartCommand.v
Doctor.v
DemoClients.v
FedCommand.v
CheckpointCommand.v
ConfigLog.v
InitCommand.v
CatalogCommand.v
BaselineRun.v
BaselineSweep.v
Baselines.v
Demo.v
DoctorDemo.v
NetworkDemo.v
ServeDemo.v
StartDemo.v
