(* ===== verification/Prelude.v ===== *)
(** * Conflux FL: a verification library

    Conflux is a federated-learning server in Rust (a workspace under
    [src/crates/]).  Clients train locally and submit weight updates; the server
    collects a round's updates in a buffer, cleans and privatises them, aggregates
    them with a configurable (often Byzantine-robust) method, checkpoints the
    result and starts the next round.  This library translates that program (the
    server, the node, the client, the backends, the command line and the harnesses
    around them) into executable Rocq definitions and proves what makes it correct.

    ** The program and the files that model it

    A submission's way through the system, with the crate each part lives in:

    - [Wire] (conflux-proto; the byte ceiling of conflux-net [service.rs]): the
      messages as records, the little-endian f32 codec, [collect_chunks].
    - [Submission] (conflux-client [build_chunks], conflux-node
      [apply_local_privacy], the reassembly in conflux-server [dispatcher.rs]);
      [Client] (conflux-client [lib.rs]: [run] as a machine whose steps are the
      turns of its two loops); [Node] (conflux-node [bridge.rs], [run.rs],
      [startup_guard.rs]: retries, relay, noise, start-up).
    - [Dispatcher] (conflux-server [dispatcher.rs], [auth_enforcement.rs],
      conflux-net [jwt.rs]): the gRPC handlers as computations over the server
      state, the admission gates of [register].
    - [Transport] (conflux-net [dispatcher.rs], [service.rs], [client.rs],
      [peer_identity.rs]): the gRPC service over any dispatcher and the calls of its
      clients, with a network between them that loses calls, answers and the rest of a
      stream.  The server's dispatcher and a node's bridge are the two instances;
      [local_link] and [upstream_link] stack them as a client finds them.
    - [Admin] (conflux-server [http.rs], [admin_auth.rs]): every route and the
      middleware in front of them.
    - [Buffer] (conflux-buffer): one round's buffer.  The atomic sections of
      [push] and [await_flush] are functions; their interleavings with the clock
      are the step relation [step], over configurations [conf].
    - [Round] (conflux-server [round.rs], [error.rs]): [run_round] as
      [open_round], the wait, then [close_round] = [prepare_batch], [inject],
      [commit], each the code of [run_round] between two line ranges.
    - [RoundLoop] (conflux-server [serve.rs], the task that runs the rounds),
      [Startup] ([serve.rs], [env.rs] before it: from the environment to a server
      about to serve, every check in order) and [Serve] (the three tasks of a server
      that serves, the calls its listeners have open, and the latch that stops them, as a
      step relation).
    - [State] (conflux-server [app_state.rs], [round_health.rs],
      [round_history.rs], [backend_selection.rs], and the [any_*.rs] files of
      conflux-registry and conflux-store): the record [AppState] every component
      above reads and writes, and the interfaces of the pluggable backends.

    The methods a round calls:

    - [Weights] (conflux-core [lib.rs], [weights.rs]): batch validation, the trait
      [Aggregator] and its contract, the class [AggregatorLaws].
    - [Averaging], [Filters], [Krum], [Spectral], [Statistics], [Trusted],
      [Temporal], [Optimization] (conflux-core [averaging.rs], [robust.rs],
      [trusted.rs], [temporal.rs], [optimization.rs]); [Drift] (FedNova and SCAFFOLD,
      at the end of [optimization.rs]); [Linear], [Elimination], [Flanders]
      (matrices, the solver and the autoregression of [flanders.rs]); [Contracts]
      collects the methods that meet the contract, and [Catalog] is
      [build_aggregator] with the registry of strategies (conflux-core [lib.rs],
      conflux-config [registry.rs]).
    - [Registry] (conflux-registry, conflux-selector), [Reputation]
      (conflux-reputation), [Privacy] (conflux-privacy), [Store] (conflux-store, in
      memory and in files).
    - [Redis], [S3], [Postgres] (the durable backends of conflux-registry and
      conflux-store): the commands they send, over classes of the three servers,
      and that they keep what the in-memory ones promise.
    - [RootModel], [SidecarService] (conflux-trusted-reference, and its transport in
      conflux-net): the trusted-reference service from data set to answer.

    What decides which of them run:

    - [Config] (conflux-config [lib.rs], [types.rs], [source.rs],
      [preconditions.rs]), [Validate] ([validate.rs]), [Profile] ([profile.rs]),
      [Environment] ([env.rs]), [Experiment] ([file.rs]), [Unselected]
      ([unselected.rs]), [ConfigLog] (the start-up log of [lib.rs] and [source.rs]).

    What is built around the server:

    - [Attacks] (conflux-attacks): what Byzantine clients submit.
    - [Federation], [Process], [DemoClients] (conflux-federation [lib.rs],
      [process.rs], [demo.rs]): a whole federation as tasks of one program, as child
      processes under a supervisor, and the clients both start.
    - [ConfigCommand], [StartCommand], [Doctor], [FedCommand], [CheckpointCommand],
      [InitCommand], [CatalogCommand] (cflux): a file per subcommand; [StartCommand] is
      [server start] and [node start] with the address file the supervisor reads.
    - [BaselineRun], [BaselineSweep], [Baselines] (conflux-baselines
      [federation.rs], [sweep.rs], [main.rs]): a federation for a paper's number, a
      grid of them, and the commands that judge and tabulate them.

    [Float] and [FloatInt] are the arithmetic all of it computes with, [Text] the lemmas
    on finding, slicing and lines that the readers of printed texts share; [Demo],
    [DoctorDemo], [NetworkDemo], [ServeDemo] and [StartDemo] a small concrete server and
    machine, on which theorems about whole rounds, start-ups and stops are applied; and
    this file the shared vocabulary.

    ** How the code is modelled

    - A Rust function that returns [Result] and may panic is a function into
      [outcome] (below): [Ok], [Err] or [Panic].  Panics are results: an [expect],
      an index out of range, an overflow that a checked build traps, an [Instant] or an
      allocation that cannot be had or an [unreachable!] gives [Panic], and the theorems
      say when it cannot happen.
    - Code that works on shared state is in the monad [stM] (below): an error or a
      panic keeps the state changes made before it, as in the code.  A command of
      the baselines runner is such a computation whose error is its exit code.
    - [f32] and [f64] are IEEE 754 numbers of the Standard Library's
      [SpecFloat] (round to nearest, ties to even), with NaN payloads kept for
      [f32] where the codec shows them; every operation rounds where the code's
      does, and sums start from -0 as Rust's do.  Casts between widths and to
      integers follow Rust's saturating [as].  Code that is generic in its scalar
      is generic over a class ([Numeric], [Scalar]).
    - [u64] and [u32] values are [Z] with [u64_saturating_add] and the like where
      the code wraps or saturates, and [u64_add] where it does neither; lengths and
      indices are [nat]; a deadline is [instant_add], which panics past [INSTANT_MAX]; a [HashMap] is a
      [gmap], and where the code depends on its iteration order that order is a
      parameter constrained only to be a permutation.
    - Mutable method state behind a mutex is passed and returned.
    - A crash of the file store is not written down by hand: [Store.file_save] runs the
      list [Store.save_calls] of system calls, and [Store.killed_during] is every state in
      which a process that makes such calls can be killed.
    - Calls that may never return are so in the model: a loop of [Process] that reads or
      drains without a deadline is [blocked] when its fuel ends, [Process.wait] is partial,
      and a listener of [Serve] that is told to stop waits for the calls its clients
      have open.
    - Code that is not in the repository is a parameter with its documented
      behaviour as laws: tokio's [Notify] ([Buffer.NotifyLaws]), the sampler of
      the rand crate ([Registry.SamplerLaws]), the normal distribution
      ([Privacy.GaussianLaws], [Attacks.SeededNormals]), [ln], [exp] and [powf] (no law
      at all), the JWT library ([Dispatcher.JwtLibrary]), TOML and [FromStr]
      ([Profile.Toml], [InitCommand.TomlText], [Environment.FromStrs]), the file system
      ([Store.syscall], [InitCommand.Disk], [StartCommand.ReportDisk],
      [Baselines.BaselineHost]), Redis, S3 and
      Postgres ([Redis.RedisServer], [S3.ObjectStore], [Postgres.Postgres]), the
      operating system's processes ([Process.ProcessOs], [Process.ProcessOsLaws],
      [BaselineRun.BaselineOs]), the transports ([Node.UpstreamTransport], which
      [Transport.transport_link] implements) and what a gRPC message may hold
      ([Transport.MessageLimit]).  Each has an
      instance in its file or in [Demo].

    ** Interfaces

    The components are proved against classes, which other components discharge:
    [Aggregator]/[AggregatorLaws] and [AggregatorLawsOn] (for the round and the server
    optimisers), [UpdateFilter]/[UpdateFilterLaws] and [UpdateFilterTotal] (for the
    filter pipeline), [CoordinateWiseRobustStatistic]/[StatisticTotal],
    [Store]/[StoreLaws] and [StoreLawsBelow] (in memory, files, S3, Postgres, and the
    sum over backends), [PrivacyRoundLog]/[PrivacyRoundLogLaws], [ClientRegistry],
    [NodeAllowlist]/[NodeAllowlistLaws], [RoundDispatcher] (for the service; server and
    node), [ClientApp] (for the client's machine),
    [TrustedReferenceClient] and [TrustedModel] (for both ends of the sidecar),
    [Attack]/[AttackLaws], [ProcessTable] (for what the supervisor leaves behind).

    ** What is proved

    - A round ([Round]): a successful one commits everything (checkpoint, privacy
      cost of exactly the admitted clients, counter, history), a failed one leaves
      model and counter; every delta that reaches the aggregator carries its own
      client's metadata and weights, and over-budget clients never do; the result
      does not depend on arrival order; a round panics only if its noise has no finite
      width, its timeout does not fit the clock or its number a [u64]; a restart rebuilds
      the accountant exactly; the accountant charges every round what the mechanism
      costs, and fails closed ([Privacy]).
    - The loop, start-up and the stop ([RoundLoop], [Startup], [Serve]): under those
      conditions the loop never dies silently; start-up panics on a model too large to
      address and on nothing else, and what it lets serve is guarded and does not die; once
      asked to stop, a server begins no round, finishes the one it is in and has seven
      steps at most to take, which only the calls its clients keep open can hold up.
    - Handlers ([Dispatcher], [Submission], [Admin]): a submission arrives as it was
      made, through any chunking and any arrival order; the size ceiling is exact; two
      gates decide registration; the admin token gates every route.
    - The network ([Transport]): whatever calls, streams and answers are lost between a
      client, its node and the server, an update arrives whole or not at all, at most
      three times, and at least once when the client hears that it was accepted.
    - Client and node ([Client], [Node]): only what was trained is submitted, once
      noised; the client ends, with its rounds done or with the error of a task it could
      not answer.
    - The buffer ([Buffer]): over every interleaving no accepted push is lost, no
      wakeup is lost, and the wait ends at the deadline.
    - Aggregation: validation is exact and its errors are true; FedAvg is the
      weighted mean; Krum, Multi-Krum and Bulyan select what their papers say;
      with a Byzantine minority trimmed mean and median stay in the honest range,
      against the attacks of the attack suite too; FLTrust and Zeno ignore whom they
      should; the server optimisers keep their invariant and commit all or nothing;
      the solver solves; and the contract holds of every method that
      [build_aggregator] can build.
    - Stores and registries: the last checkpoint is the one loaded, failed saves of the
      file store change nothing that can be read, a process killed during a save never
      hides the newest checkpoint, and the durable backends refine the in-memory ones,
      whichever of their commands and statements fail: what failed is reported and took
      effect as a whole or not at all.
    - Configuration: precedence and provenance are exact, validation accepts
      exactly the startable configurations, a satisfied batch requirement makes
      every clamp in the methods inert, profile chains load or fail cleanly.
    - Federations: the summary is complete, and tells what it may have hidden; the
      supervisor returns as long as the answers it reads end and the system lets its
      children be killed; a run that succeeds started exactly the commands of its recipe, on
      the addresses its children reported, and leaves nothing running; both isolation modes
      run the same clients.
    - Commands: [config check] and [doctor] predict the start, an address file is the
      truth or nothing at every instant, [init] scaffolds the builtin itself, the catalog
      tells the truth, the start-up log tells all.
    - Baselines: a run is judged on what its evaluator said last, the server measured
      is the one planned, success means reproduced, a sweep leaves nothing out, a
      table that was written checks.
    - Where the code does not do what it means to, or a comment says otherwise, a lemma
      exhibits it, usually at the end of its file; to name some:
      [Spectral.divide_and_conquer_panics_on_finite_batch],
      [Statistics.median_overflows_on_finite_values],
      [Optimization.fedopt_first_round_can_store_infinity],
      [Trusted.zeno_refuses_second_update_of_scored_client],
      [Privacy.noise_panics_on_overflow], [Demo.huge_timeout_kills_the_loop],
      [Serve.open_stream_blocks_the_stop], [Store.stale_save_is_hidden],
      [Store.padded_name_hides_checkpoints],
      [Dispatcher.submission_ignores_admission],
      [Transport.large_model_is_never_fetched], [Transport.node_hides_refusals],
      [Environment.unread_variables_are_ignored],
      [Config.requirement_not_monotone],
      [FedCommand.fed_run_drops_profile_values],
      [Process.stalled_run_leaves_clients], [Process.dripping_answer_blocks],
      [Process.deadline_in_panics],
      [InitCommand.name_escapes_its_comment], [StartDemo.tmp_file_is_not_atomic],
      [BaselineRun.diverged_round_is_dropped],
      [BaselineSweep.large_seed_ends_the_sweep],
      [Baselines.verify_plan_never_fails].

    ** Fuel

    Functions that take fuel, each with enough of it shown: [Store.decimal] is
    run with twenty digits, as many as a [u64] has ([Store.parse_u64_to_string]);
    [Statistics.chunks] with the length of its list
    ([Statistics.chunks_fuel_concat]); [Profile.load_chain] with two turns more
    than there are profile files ([Profile.load_chain_spec] shows it never runs
    out); Bulyan's loop the batch size
    ([Krum.bulyan_is_iterated_krum] shows that it ends); the polling loops of the
    supervisor as many turns as fit before its deadlines, and its reads as many as the
    answers have ([Process.enough_fuel], [Process.cooperative],
    [Process.supervisor_returns]; without them it blocks for good); the reader of log lines the length of the line
    ([ConfigLog.config_log_tells_all]).  The fixed iteration counts of the power
    method and of Weiszfeld's algorithm are the code's own.

    ** What is not modelled

    TLS, certificates, and the gRPC and HTTP plumbing (libraries the sources call); running
    out of memory, but for the one allocation whose size is configured
    ([Startup.zeroed_weights]); the wrap-around of an addition in an unchecked build
    where a checked one panics (the count of the accountant apart, [Privacy.by_config]); logging set-up, signal handling and the wording of
    most logs and errors; the [main.rs] of server and node;
    the examples, benchmarks and tests; the Python client and harnesses,
    which are not Rust.

    ** Order of the files

    As in [_CoqProject]: [Prelude], [Float], [FloatInt], [Wire], [Buffer], [Weights], the
    methods up to [Catalog], the registries and stores, [Config], [State], [Round],
    [RoundLoop], the handlers, client, node and [Transport], the rest of configuration,
    [Startup], [Serve], [SidecarService], the durable backends, [Attacks], the
    federations, the commands, the baselines, and the files of demonstrations; a file
    requires only files before it. *)

From stdpp Require Export base list list_numbers gmap strings sorting.
From Stdlib Require Export ZArith Lia Sorted.

(** ** Outcomes of fallible code

    A Rust function that returns [Result<A, E>] and may also panic ([expect],
    an out-of-range index, [unreachable!]) is a function into [outcome E A]. *)
Inductive outcome (E A : Type) : Type :=
  | Ok (a : A)
  | Err (e : E)
  | Panic.
Arguments Ok {E A} a.
Arguments Err {E A} e.
Arguments Panic {E A}.

#[export] Instance outcome_ret E : MRet (outcome E) := λ A a, Ok a.
#[export] Instance outcome_bind E : MBind (outcome E) := λ A B k m,
  match m with Ok a => k a | Err e => Err e | Panic => Panic end.
#[export] Instance outcome_fmap E : FMap (outcome E) := λ A B f m,
  match m with Ok a => Ok (f a) | Err e => Err e | Panic => Panic end.

Definition map_err {E E' A} (f : E → E') (m : outcome E A) : outcome E' A :=
  match m with Ok a => Ok a | Err e => Err (f e) | Panic => Panic end.

Definition panics {E A} (m : outcome E A) : bool :=
  match m with Panic => true | _ => false end.

Definition is_ok {E A} (m : outcome E A) : bool :=
  match m with Ok _ => true | _ => false end.

(** [Iterator::collect::<Result<Vec<_>, _>>]: the first error stops it. *)
Fixpoint collect {E A B} (f : A → outcome E B) (l : list A) : outcome E (list B) :=
  match l with
  | [] => Ok []
  | x :: l' => y ← f x; ys ← collect f l'; Ok (y :: ys)
  end.

Section outcome_lemmas.
Context {E : Type}.

Lemma bind_ok_inv {A B} (m : outcome E A) (k : A → outcome E B) b :
  m ≫= k = Ok b → ∃ a, m = Ok a ∧ k a = Ok b.
Proof. destruct m; naive_solver. Qed.

Lemma bind_err_inv {A B} (m : outcome E A) (k : A → outcome E B) e :
  m ≫= k = Err e → m = Err e ∨ ∃ a, m = Ok a ∧ k a = Err e.
Proof. destruct m; naive_solver. Qed.

Lemma bind_panic_inv {A B} (m : outcome E A) (k : A → outcome E B) :
  m ≫= k = Panic → m = Panic ∨ ∃ a, m = Ok a ∧ k a = Panic.
Proof. destruct m; naive_solver. Qed.

Lemma collect_ok {A B} (f : A → outcome E B) l ys :
  collect f l = Ok ys ↔ Forall2 (λ x y, f x = Ok y) l ys.
Proof.
  revert ys. induction l as [|x l IH]; intros ys; simpl.
  - split; [intros [= <-]; constructor | by inversion 1].
  - split.
    + intros (y & Hy & H)%bind_ok_inv.
      apply bind_ok_inv in H as (ys' & Hys & [= <-]).
      constructor; [done | by apply IH].
    + inversion 1 as [|? y ? ys' Hy Hys]; subst.
      rewrite Hy; simpl. apply IH in Hys. by rewrite Hys.
Qed.

Lemma collect_err {A B} (f : A → outcome E B) l e :
  collect f l = Err e ↔
  ∃ l1 x l2 ys, l = l1 ++ x :: l2 ∧ collect f l1 = Ok ys ∧ f x = Err e.
Proof.
  induction l as [|x l IH]; simpl.
  { split; [done | intros ([|] & ? & ? & ? & ? & ?); done]. }
  split.
  - intros [Hx | (y & Hy & H)]%bind_err_inv.
    { by exists [], x, l, []. }
    apply bind_err_inv in H as [H | (? & ? & ?)]; [|done].
    apply IH in H as (l1 & x' & l2 & ys & -> & Hl1 & Hx').
    exists (x :: l1), x', l2, (y :: ys). split; [done|].
    split; [|done]. simpl. by rewrite Hy, Hl1.
  - intros (l1 & x' & l2 & ys & Hl & Hl1 & Hx').
    destruct l1 as [|z l1]; simplify_eq/=; [by rewrite Hx'|].
    apply bind_ok_inv in Hl1 as (y & -> & Hl1).
    apply bind_ok_inv in Hl1 as (ys' & Hl1 & [= <-]).
    destruct IH as [_ IH]. simpl. rewrite IH; [done|].
    by exists l1, x', l2, ys'.
Qed.

Lemma collect_no_panic {A B} (f : A → outcome E B) l :
  Forall (λ x, f x ≠ Panic) l → collect f l ≠ Panic.
Proof.
  induction 1 as [|x l Hx _ IH]; simpl; [done|].
  intros [?|(? & ? & [?|(? & ? & ?)]%bind_panic_inv)]%bind_panic_inv; done.
Qed.

Lemma bind_no_panic {A B} (m : outcome E A) (k : A → outcome E B) :
  m ≠ Panic → (∀ a, m = Ok a → k a ≠ Panic) → m ≫= k ≠ Panic.
Proof. intros Hm Hk [?|(a & Ha & ?)]%bind_panic_inv; [done|by eapply Hk]. Qed.

Lemma fmap_no_panic {A B} (f : A → B) (m : outcome E A) : m ≠ Panic → f <$> m ≠ Panic.
Proof. by destruct m. Qed.

Lemma map_err_no_panic {E' A} (f : E → E') (m : outcome E A) : m ≠ Panic → map_err f m ≠ Panic.
Proof. by destruct m. Qed.

Lemma map_err_ok {E' A} (f : E → E') (m : outcome E A) a : map_err f m = Ok a ↔ m = Ok a.
Proof. destruct m; naive_solver. Qed.
End outcome_lemmas.

(** A chain of steps none of which panics. *)
Ltac no_panic :=
  repeat first
    [ done
    | apply map_err_no_panic | apply fmap_no_panic
    | apply bind_no_panic; [|let a := fresh "a" in let Ha := fresh "Ha" in intros a Ha]
    | progress cbv beta zeta | progress case_match ].

(** Case split on a monadic hypothesis, as deep as it goes. *)
Ltac inv_bind H :=
  lazymatch type of H with
  | _ ≫= _ = Ok _ =>
      let a := fresh "a" in let Ha := fresh "Ha" in
      apply bind_ok_inv in H as (a & Ha & H)
  | _ ≫= _ = Panic => apply bind_panic_inv in H as [H | (? & ? & H)]
  | _ ≫= _ = Err _ => apply bind_err_inv in H as [H | (? & ? & H)]
  end.

(** ** Texts *)

Lemma string_app_cons c (a b : string) : String.String c a +:+ b = String.String c (a +:+ b).
Proof. done. Qed.

Lemma string_app_assoc (a b c : string) : (a +:+ b) +:+ c = a +:+ (b +:+ c).
Proof. induction a as [|x a IH]; [done|]. by rewrite !string_app_cons, IH. Qed.

Lemma string_app_nil_r (a : string) : a +:+ "" = a.
Proof. induction a as [|c a IH]; [done|]. by rewrite string_app_cons, IH. Qed.

Lemma string_length_app (a b : string) : String.length (a +:+ b) = (String.length a + String.length b)%nat.
Proof. induction a as [|c a IH]; [done|]. rewrite string_app_cons. simpl. by rewrite IH. Qed.

(** ** Stateful fallible code

    A method on a shared object: the state after it (whatever the outcome: an
    early return keeps the changes made before it) and its outcome. *)
Definition stM (S E A : Type) : Type := S → S * outcome E A.

#[export] Instance stM_ret S E : MRet (stM S E) := λ A a s, (s, Ok a).
#[export] Instance stM_bind S E : MBind (stM S E) := λ A B k m s,
  match m s with
  | (s', Ok a) => k a s'
  | (s', Err e) => (s', Err e)
  | (s', Panic) => (s', Panic)
  end.

Section state_monad.
Context {S E : Type}.

Definition gets {A} (f : S → A) : stM S E A := λ s, (s, Ok (f s)).
Definition modify (f : S → S) : stM S E () := λ s, (f s, Ok ()).
Definition of_outcome {A} (m : outcome E A) : stM S E A := λ s, (s, m).

(** A call into one field of the state, its errors converted ([?] with [From]). *)
Definition zoom {T E' A} (get : S → T) (set : T → S → S) (conv : E' → E)
    (m : stM T E' A) : stM S E A := λ s,
  let '(t, r) := m (get s) in (set t s, map_err conv r).

(** [for x in l { body(x)?; }] *)
Fixpoint for_each {A} (body : A → stM S E ()) (l : list A) : stM S E () :=
  match l with
  | [] => mret ()
  | x :: l' => body x ≫= λ _, for_each body l'
  end.

(** The same loop, keeping what each turn yields. *)
Fixpoint collectM {A B} (body : A → stM S E B) (l : list A) : stM S E (list B) :=
  match l with
  | [] => mret []
  | x :: l' => body x ≫= λ y, collectM body l' ≫= λ ys, mret (y :: ys)
  end.

Lemma stM_bind_ok {A B} (m : stM S E A) (k : A → stM S E B) s s' b :
  (m ≫= k) s = (s', Ok b) → ∃ a s1, m s = (s1, Ok a) ∧ k a s1 = (s', Ok b).
Proof. unfold mbind, stM_bind. destruct (m s) as [s1 [a|e|]]; naive_solver. Qed.

Lemma stM_bind_err {A B} (m : stM S E A) (k : A → stM S E B) s s' e :
  (m ≫= k) s = (s', Err e) →
  m s = (s', Err e) ∨ ∃ a s1, m s = (s1, Ok a) ∧ k a s1 = (s', Err e).
Proof. unfold mbind, stM_bind. destruct (m s) as [s1 [a|e'|]]; naive_solver. Qed.

Lemma stM_bind_panic {A B} (m : stM S E A) (k : A → stM S E B) s s' :
  (m ≫= k) s = (s', Panic) →
  m s = (s', Panic) ∨ ∃ a s1, m s = (s1, Ok a) ∧ k a s1 = (s', Panic).
Proof. unfold mbind, stM_bind. destruct (m s) as [s1 [a|e'|]]; naive_solver. Qed.

Lemma collectM_length {A B} (body : A → stM S E B) l s s' ys :
  collectM body l s = (s', Ok ys) → length ys = length l.
Proof.
  revert s s' ys. induction l as [|x l IH]; intros s s' ys; [by intros [= _ <-]|].
  intros (y & s1 & _ & (ys1 & s2 & H & [= _ <-])%stM_bind_ok)%stM_bind_ok. simpl. f_equal. by eapply IH.
Qed.

Lemma collectM_lookup {A B} (body : A → stM S E B) l s s' ys i y :
  collectM body l s = (s', Ok ys) → ys !! i = Some y →
  ∃ x s1 s2, l !! i = Some x ∧ body x s1 = (s2, Ok y).
Proof.
  revert s s' ys i. induction l as [|x l IH]; intros s s' ys i; [by intros [= _ <-]|].
  intros (z & s1 & Hz & (ys1 & s2 & H & [= _ <-])%stM_bind_ok)%stM_bind_ok. destruct i as [|i]; simpl.
  - intros [= <-]. by exists x, s, s1.
  - by eapply IH.
Qed.

(** What every exit of a computation preserves, its early returns included. *)
Definition preserves {A} (R : S → S → Prop) (m : stM S E A) : Prop := ∀ s, R s (m s).1.

Lemma preserves_bind {A B} (R : S → S → Prop) `{!Transitive R} (m : stM S E A) (k : A → stM S E B) :
  preserves R m → (∀ a, preserves R (k a)) → preserves R (m ≫= k).
Proof.
  intros Hm Hk s. unfold mbind, stM_bind. specialize (Hm s). destruct (m s) as [s1 [a|e|]]; simpl in *; [|done..].
  etrans; [exact Hm|]. apply Hk.
Qed.

Lemma preserves_pure {A} (R : S → S → Prop) `{!Reflexive R} (m : stM S E A) :
  (∀ s, (m s).1 = s) → preserves R m.
Proof. intros H s. by rewrite H. Qed.

Lemma preserves_for_each {A} (R : S → S → Prop) `{!PreOrder R} (body : A → stM S E ()) l :
  (∀ x, preserves R (body x)) → preserves R (for_each body l).
Proof.
  intros Hb. induction l as [|x l IH]; [intros s; simpl; reflexivity|].
  apply (preserves_bind R); [apply Hb|]. by intros _.
Qed.

(** A computation that, from a state satisfying [P], keeps [P] and does not
    panic. *)
Definition safe {A} (P : S → Prop) (m : stM S E A) : Prop := ∀ s, P s → P (m s).1 ∧ (m s).2 ≠ Panic.

Lemma safe_bind {A B} (P : S → Prop) (m : stM S E A) (k : A → stM S E B) :
  safe P m → (∀ a, safe P (k a)) → safe P (m ≫= k).
Proof.
  intros Hm Hk s Hs. unfold mbind, stM_bind. destruct (Hm s Hs) as [Hs1 Ho].
  destruct (m s) as [s1 [a|e|]]; simpl in *; [by apply Hk|done|done].
Qed.

Lemma safe_for_each {A} (P : S → Prop) (body : A → stM S E ()) l :
  (∀ x, safe P (body x)) → safe P (for_each body l).
Proof. intros Hb. induction l as [|x l IH]; [by intros s|]. by apply safe_bind; [|intros _]. Qed.

Lemma safe_zoom {T E' A} (P : S → Prop) (get : S → T) (set : T → S → S) (conv : E' → E) (m : stM T E' A) :
  (∀ t s, P s → P (set t s)) → (∀ t, (m t).2 ≠ Panic) → safe P (zoom get set conv m).
Proof.
  intros Hset Hm s Hs. unfold zoom. specialize (Hm (get s)).
  destruct (m (get s)) as [t [a|e|]]; split; try apply Hset; done.
Qed.
End state_monad.

(** ** Machine integers *)

Definition u32_max : Z := 2 ^ 32 - 1.
Definition u64_max : Z := 2 ^ 64 - 1.
Definition is_u8 (z : Z) : Prop := (0 ≤ z < 2 ^ 8)%Z.
Definition is_u32 (z : Z) : Prop := (0 ≤ z < 2 ^ 32)%Z.
Definition is_u64 (z : Z) : Prop := (0 ≤ z < 2 ^ 64)%Z.

Definition u64_wrapping_add (a b : Z) : Z := ((a + b) mod 2 ^ 64)%Z.
Definition u64_saturating_sub (a b : Z) : Z := Z.max 0 (a - b).

(** [a + b] on [u64] and [u32] as a checked build computes it. *)
Definition u64_add {E} (a b : Z) : outcome E Z := if (a + b <=? u64_max)%Z then Ok (a + b)%Z else Panic.
Definition u32_add {E} (a b : Z) : outcome E Z := if (a + b <=? u32_max)%Z then Ok (a + b)%Z else Panic.

Lemma u64_add_ok {E} a b c : u64_add (E:=E) a b = Ok c ↔ c = (a + b)%Z ∧ (a + b ≤ u64_max)%Z.
Proof. unfold u64_add. destruct (Z.leb_spec (a + b) u64_max); naive_solver lia. Qed.

Lemma u64_add_total {E} a b : (a + b ≤ u64_max)%Z → u64_add (E:=E) a b ≠ Panic.
Proof. unfold u64_add. destruct (Z.leb_spec (a + b) u64_max); [done|lia]. Qed.

(** ** The clock

    An [Instant] is a number of milliseconds here.  The standard library keeps its seconds
    in an [i64] and panics when the sum of an [Instant] and a [Duration] does not fit;
    [Duration::from_secs] takes any [u64]. *)
Definition INSTANT_MAX : Z := (2 ^ 63 * 1000 - 1)%Z.
Definition duration_from_secs (secs : Z) : Z := (1000 * secs)%Z.
Definition instant_add {E} (now duration : Z) : outcome E Z :=
  if (now + duration <=? INSTANT_MAX)%Z then Ok (now + duration)%Z else Panic.

Lemma instant_add_ok {E} now d t :
  instant_add (E:=E) now d = Ok t ↔ t = (now + d)%Z ∧ (now + d ≤ INSTANT_MAX)%Z.
Proof. unfold instant_add. destruct (Z.leb_spec (now + d) INSTANT_MAX); naive_solver lia. Qed.

Lemma instant_add_total {E} now d : (now + d ≤ INSTANT_MAX)%Z → instant_add (E:=E) now d ≠ Panic.
Proof. unfold instant_add. destruct (Z.leb_spec (now + d) INSTANT_MAX); [done|lia]. Qed.

Lemma instant_add_panics {E} now d : instant_add (E:=E) now d = Panic ↔ (INSTANT_MAX < now + d)%Z.
Proof. unfold instant_add. destruct (Z.leb_spec (now + d) INSTANT_MAX); naive_solver lia. Qed.

Lemma instant_add_no_err {E} now d (e : E) : instant_add now d ≠ Err e.
Proof. unfold instant_add. by case_match. Qed.

(** ** Stable sorting ([slice::sort_by], [sort_unstable] on total orders) *)

Section sort.
Context {A : Type} (le : A → A → bool).

Fixpoint insert_by (x : A) (l : list A) : list A :=
  match l with
  | [] => [x]
  | y :: l' => if le x y then x :: y :: l' else y :: insert_by x l'
  end.

Definition sort_by (l : list A) : list A := foldr insert_by [] l.

Definition Sorted_by : list A → Prop := StronglySorted (λ x y, le x y = true).

Lemma insert_by_perm x l : insert_by x l ≡ₚ x :: l.
Proof.
  induction l as [|y l IH]; simpl; [done|].
  destruct (le x y); [done|]. rewrite IH. apply Permutation_swap.
Qed.

Lemma sort_by_perm l : sort_by l ≡ₚ l.
Proof. induction l as [|x l IH]; simpl; [done|]. by rewrite insert_by_perm, IH. Qed.

Lemma length_sort_by l : length (sort_by l) = length l.
Proof. by rewrite sort_by_perm. Qed.

Section ordered.
(** The comparator needs to be an order only on the elements at hand: a
    float comparator is one on the values that are not NaN. *)
Context (P : A → Prop).
Context (le_total : ∀ x y, P x → P y → le x y = true ∨ le y x = true).
Context (le_trans : ∀ x y z, P x → P y → P z →
                      le x y = true → le y z = true → le x z = true).

Lemma insert_by_sorted x l :
  P x → Forall P l → Sorted_by l → Sorted_by (insert_by x l).
Proof.
  unfold Sorted_by. intros Hx HP. induction 1 as [|y l Hl IH Hy]; simpl.
  { repeat constructor. }
  apply Forall_cons in HP as [HPy HPl].
  destruct (le x y) eqn:Hxy.
  - constructor; [by constructor|]. constructor; [done|].
    rewrite Forall_forall in *. intros z Hz. eapply (le_trans x y z); auto.
  - constructor; [by apply IH|].
    rewrite insert_by_perm. constructor; [|done].
    destruct (le_total x y) as [?|?]; congruence.
Qed.

Lemma sort_by_sorted l : Forall P l → Sorted_by (sort_by l).
Proof.
  induction 1 as [|x l Hx Hl IH]; simpl; [constructor|].
  apply insert_by_sorted; [done| |done]. by rewrite sort_by_perm.
Qed.
End ordered.

Lemma sort_by_already_sorted l : Sorted_by l → sort_by l = l.
Proof.
  unfold Sorted_by. induction 1 as [|x l Hl IH Hx]; simpl; [done|].
  rewrite IH. destruct Hx as [|y l' Hxy _]; simpl; [done|]. by rewrite Hxy.
Qed.

(** Stability: elements that compare equal to [k] keep their order. *)
Lemma insert_by_filter (Q : A → bool) x l :
  (∀ y, Q x = true → Q y = true → le x y = true) →
  base.filter (λ y, Q y = true) (insert_by x l) =
  base.filter (λ y, Q y = true) (x :: l).
Proof.
  intros HQ. induction l as [|y l IH]; simpl; [done|].
  destruct (le x y) eqn:Hxy; [done|].
  rewrite !filter_cons in *. rewrite IH.
  destruct (decide (Q x = true)) as [Hx|Hx], (decide (Q y = true)) as [Hy|Hy]; try done.
  rewrite (HQ y) in Hxy; done.
Qed.

Lemma sort_by_stable (Q : A → bool) l :
  (∀ x y, Q x = true → Q y = true → le x y = true) →
  base.filter (λ y, Q y = true) (sort_by l) = base.filter (λ y, Q y = true) l.
Proof.
  intros HQ. induction l as [|x l IH]; simpl; [done|].
  rewrite insert_by_filter by eauto. rewrite !filter_cons, IH. done.
Qed.
End sort.

(** On a total order whose ties are equal elements, sorting does not depend on
    the order it starts from. *)
Lemma sort_by_unique {A} (le : A → A → bool) l l' :
  (∀ x y, le x y = true ∨ le y x = true) →
  (∀ x y z, le x y = true → le y z = true → le x z = true) →
  (∀ x y, x ∈ l → y ∈ l → le x y = true → le y x = true → x = y) →
  l ≡ₚ l' → sort_by le l = sort_by le l'.
Proof.
  intros Htot Htrans Hanti Hp.
  assert (Hs : ∀ k, Sorted_by le (sort_by le k)).
  { intros k. apply (sort_by_sorted le (λ _, True)); [auto|eauto|by apply Forall_true]. }
  apply (StronglySorted_unique_strong (λ x y, le x y = true)); [|apply Hs..|].
  - intros x y Hx Hy. rewrite sort_by_perm in Hx. rewrite sort_by_perm, <-Hp in Hy. by apply Hanti.
  - by rewrite !sort_by_perm.
Qed.

Lemma StronglySorted_take_drop {A} (R : A → A → Prop) l m x y :
  StronglySorted R l → x ∈ take m l → y ∈ drop m l → R x y.
Proof.
  intros Hs. revert m. induction Hs as [|z l Hl IH Hz]; intros [|m]; simpl;
    try (by intros ?%not_elem_of_nil).
  intros [->|Hx]%elem_of_cons Hy; [|by eapply IH].
  rewrite Forall_forall in Hz. apply Hz. rewrite <-(take_drop m l). set_solver.
Qed.

(** Keeping the first [k] of a ranking by position: the kept positions are
    distinct positions of the batch, and no dropped key is strictly below a kept
    one.  The comparator needs to be an order on the keys at hand only. *)
Lemma take_ranked_spec {K} (le : K → K → bool) (P : K → Prop) (ranked : list (nat * K)) (n k : nat) :
  (∀ x y, P x → P y → le x y = true ∨ le y x = true) →
  (∀ x y z, P x → P y → P z → le x y = true → le y z = true → le x z = true) →
  map fst ranked = seq 0 n → (k ≤ n)%nat → Forall (λ p, P p.2) ranked →
  let kept := map fst (take k (sort_by (λ a b, le a.2 b.2) ranked)) in
  NoDup kept ∧ length kept = k ∧ (∀ i, i ∈ kept → (i < n)%nat) ∧
  ∀ i j s s', i ∈ kept → j ∉ kept → (i, s) ∈ ranked → (j, s') ∈ ranked → le s s' = true.
Proof.
  intros Htot Htrans Hfst Hk HP kept. unfold kept.
  set (le2 := λ a b : nat * K, le a.2 b.2). set (S := sort_by le2 ranked).
  assert (HS : S ≡ₚ ranked) by apply sort_by_perm.
  assert (Hsorted : Sorted_by le2 S).
  { apply (sort_by_sorted le2 (λ p, P p.2)); [| |done].
    - intros x y Hx Hy. by apply Htot.
    - intros x y z Hx Hy Hz ??. by apply (Htrans x.2 y.2 z.2). }
  assert (Hnd : NoDup (map fst S)) by (rewrite HS, Hfst; apply NoDup_seq).
  pose proof (take_drop k S) as Hsplit. split; [|split; [|split]].
  - rewrite <-Hsplit, map_app in Hnd. by apply NoDup_app in Hnd as [? _].
  - rewrite length_map, length_take, HS, <-(length_map fst), Hfst, length_seq. lia.
  - intros i Hi. assert (i ∈ map fst S) as Hin by (rewrite <-Hsplit, map_app; set_solver).
    rewrite HS, Hfst in Hin. apply elem_of_seq in Hin. lia.
  - intros i j s s' Hi Hj Hs Hs'. rewrite <-HS in Hs, Hs'.
    assert (Hone : ∀ t, (i, t) ∈ S → t = s).
    { intros t Ht. apply list_elem_of_lookup in Hs as [a Ha], Ht as [c Hc].
      assert (a = c) as ->; [|congruence].
      eapply NoDup_lookup; [exact Hnd| |]; rewrite list_lookup_fmap; [by rewrite Ha|by rewrite Hc]. }
    assert (Hdrop : (j, s') ∈ drop k S).
    { rewrite <-Hsplit in Hs'. apply elem_of_app in Hs' as [Hin|]; [|done].
      exfalso. apply Hj. by apply (list_elem_of_fmap_2 fst) in Hin. }
    apply list_elem_of_fmap in Hi as ([i' s0] & -> & Hi). simpl in *.
    rewrite <-(Hone s0) by (rewrite <-Hsplit; apply elem_of_app; by left).
    exact (StronglySorted_take_drop (λ x y, le2 x y = true) S k _ _ Hsorted Hi Hdrop).
Qed.

(** [Iterator::min_by]/[max_by] as the standard library folds them: the first
    of several minima, the last of several maxima. *)
Definition min_by_opt {A} (lt : A → A → bool) (l : list A) : option A :=
  match l with
  | [] => None
  | x :: l' => Some (foldl (λ best y, if lt y best then y else best) x l')
  end.

Definition max_by_opt {A} (lt : A → A → bool) (l : list A) : option A :=
  match l with
  | [] => None
  | x :: l' => Some (foldl (λ best y, if lt y best then best else y) x l')
  end.

Lemma min_by_opt_in {A} (lt : A → A → bool) l x :
  min_by_opt lt l = Some x → x ∈ l.
Proof.
  destruct l as [|y l]; [done|]. simpl. intros [= <-]. revert y.
  induction l as [|z l IH]; intros y; simpl; [set_solver|].
  destruct (lt z y); [specialize (IH z) | specialize (IH y)]; set_solver.
Qed.

Lemma min_by_opt_is_Some {A} (lt : A → A → bool) l :
  l ≠ [] → is_Some (min_by_opt lt l).
Proof. destruct l; [done|]. simpl. eauto. Qed.

Lemma max_by_opt_in {A} (lt : A → A → bool) l x :
  max_by_opt lt l = Some x → x ∈ l.
Proof.
  destruct l as [|y l]; [done|]. simpl. intros [= <-]. revert y.
  induction l as [|z l IH]; intros y; simpl; [set_solver|].
  destruct (lt z y); [specialize (IH y) | specialize (IH z)]; set_solver.
Qed.

(** On elements where [le] is a total preorder the chosen element is below all
    the others, and strictly below the earlier ones. *)
Lemma min_by_opt_least {A} (le : A → A → bool) (P : A → Prop) l x :
  (∀ a b, P a → P b → le a b = true ∨ le b a = true) →
  (∀ a b c, P a → P b → P c → le a b = true → le b c = true → le a c = true) →
  Forall P l → min_by_opt (λ a b, negb (le b a)) l = Some x →
  ∃ l1 l2, l = l1 ++ x :: l2 ∧ Forall (λ y, le y x = false) l1 ∧
           Forall (λ y, le x y = true) l2.
Proof.
  intros Htot Htrans. destruct l as [|y l]; [done|]. intros [Hy Hl]%Forall_cons [= <-].
  revert y Hy. induction l as [|z l IH] using rev_ind; intros y Hy; simpl.
  { exists [], []. auto. }
  apply Forall_app in Hl as [Hl [Hz _]%Forall_cons]. rewrite foldl_app. simpl.
  destruct (IH Hl y Hy) as (l1 & l2 & Hsplit & H1 & H2).
  set (b := foldl _ y l) in *. clearbody b. rewrite app_comm_cons, Hsplit.
  assert (HP : Forall P (l1 ++ b :: l2)) by (rewrite <-Hsplit; by constructor).
  apply Forall_app in HP as [HP1 [HPb HP2]%Forall_cons]. rewrite Forall_forall in *.
  destruct (le b z) eqn:Hbz; simpl.
  - exists l1, (l2 ++ [z]). rewrite <-app_assoc. split; [done|]. split; [by rewrite Forall_forall|].
    apply Forall_app. split; [by rewrite Forall_forall|by apply Forall_singleton].
  - exists (l1 ++ b :: l2), []. split; [done|]. split; [|constructor].
    assert (le z b = true) as Hzb by (destruct (Htot z b Hz HPb); [done|congruence]).
    apply Forall_app. split; [|apply Forall_cons; split; [done|]]; rewrite Forall_forall; intros w Hw.
    + destruct (le w z) eqn:Hwz; [|done]. rewrite <-(H1 w Hw). symmetry. eapply (Htrans w z b); auto.
    + destruct (le w z) eqn:Hwz; [|done]. rewrite <-Hbz. symmetry. eapply (Htrans b w z); auto.
Qed.

(** ** Lists keyed by a projection *)

Lemma NoDup_map_inj {X Y} (f : X → Y) (l : list X) x y :
  NoDup (map f l) → x ∈ l → y ∈ l → f x = f y → x = y.
Proof.
  induction l as [|z l IH]; [by intros _ ?%not_elem_of_nil|]. simpl.
  intros [Hz Hnd]%NoDup_cons Hx Hy Hf.
  assert (Hmap : ∀ w, w ∈ l → f w ∈ map f l).
  { intros w Hw. apply list_elem_of_In, in_map, list_elem_of_In, Hw. }
  apply elem_of_cons in Hx as [->|Hx]; apply elem_of_cons in Hy as [->|Hy]; auto.
  - exfalso. apply Hz. rewrite Hf. auto.
  - exfalso. apply Hz. rewrite <-Hf. auto.
Qed.

(** ** Indexing and in-place loops *)

(** [v[i]]: out of range panics. *)
Definition index {E A} (l : list A) (i : nat) : outcome E A :=
  match l !! i with Some x => Ok x | None => Panic end.

Lemma index_lt {E A} (l : list A) i :
  (i < length l)%nat → ∃ x, l !! i = Some x ∧ index (E:=E) l i = Ok x.
Proof. intros [x Hx]%lookup_lt_is_Some. exists x. unfold index. by rewrite Hx. Qed.

(** [for (a, s) in acc.iter_mut().zip(src)]: the longer tail of [acc] stays. *)
Fixpoint zip_update {A B} (f : A → B → A) (acc : list A) (src : list B) : list A :=
  match acc, src with
  | a :: acc', s :: src' => f a s :: zip_update f acc' src'
  | _, _ => acc
  end.

Lemma length_zip_update {A B} (f : A → B → A) acc src :
  length (zip_update f acc src) = length acc.
Proof. revert src. induction acc as [|a acc IH]; intros [|s src]; simpl; auto. Qed.

(** What every step of a loop keeps, the loop keeps. *)
Lemma foldl_invariant {A X} (P : A → Prop) (f : A → X → A) l acc :
  P acc → (∀ acc x, x ∈ l → P acc → P (f acc x)) → P (foldl f acc l).
Proof.
  revert acc. induction l as [|x l IH]; intros acc Hacc Hf; simpl; [done|].
  apply IH; [apply Hf; [set_solver|done]|]. intros ? y Hy. apply Hf. set_solver.
Qed.

Lemma list_filter_all {A} (P : A → Prop) `{∀ x, Decision (P x)} (l : list A) :
  (∀ x, x ∈ l → P x) → base.filter P l = l.
Proof.
  induction l as [|x l IH]; intros HP; [done|]. rewrite filter_cons, decide_True by (apply HP; set_solver).
  f_equal. apply IH. intros y Hy. apply HP. set_solver.
Qed.

(** The first error a loop of checks returns. *)
Fixpoint first_err {E A} (check : A → option E) (l : list A) : option E :=
  match l with
  | [] => None
  | x :: l' => match check x with Some e => Some e | None => first_err check l' end
  end.

Lemma first_err_none {E A} (check : A → option E) l :
  first_err check l = None ↔ Forall (λ x, check x = None) l.
Proof.
  induction l as [|x l IH]; simpl; [split; [constructor|done]|].
  rewrite Forall_cons. destruct (check x); naive_solver.
Qed.

Lemma first_err_some {E A} (check : A → option E) l e :
  first_err check l = Some e → ∃ x, x ∈ l ∧ check x = Some e.
Proof.
  induction l as [|x l IH]; simpl; [done|].
  destruct (check x) eqn:Hx; [intros [= ->]; set_solver|].
  intros (y & ? & ?)%IH. set_solver.
Qed.

(** [Iterator::position]. *)
Fixpoint position {A} (p : A → bool) (l : list A) : option nat :=
  match l with
  | [] => None
  | x :: l' => if p x then Some O else S <$> position p l'
  end.

Lemma position_none {A} (p : A → bool) l :
  position p l = None ↔ Forall (λ x, p x = false) l.
Proof.
  induction l as [|x l IH]; simpl; [split; [constructor|done]|].
  rewrite Forall_cons, <-IH. destruct (p x); [naive_solver|].
  destruct (position p l); simpl; naive_solver.
Qed.

Lemma position_some {A} (p : A → bool) l i :
  position p l = Some i →
  (∃ x, l !! i = Some x ∧ p x = true) ∧ Forall (λ x, p x = false) (take i l).
Proof.
  revert i. induction l as [|x l IH]; intros i; simpl; [done|].
  destruct (p x) eqn:Hx; [intros [= <-]; simpl; eauto|].
  destruct (position p l) as [j|]; simpl; [|done]. intros [= <-].
  destruct (IH j) as [? ?]; [done|]. simpl. auto.
Qed.

(** ** Hints and tactics *)

Create HintDb conflux.
#[export] Hint Resolve sort_by_perm : conflux.


(** Split every [match]/[if] of the goal, simplifying as it goes. *)
Ltac case_all := repeat (case_match; simplify_eq/=; try done).
