(* ===== verification/Float.v ===== *)
(** * IEEE-754 binary32 and binary64 as the Rust sources use them

    Arithmetic is the executable specification of [SpecFloat]: round to
    nearest, ties to even, at the two precisions.  [f32] adds to it the sign and
    payload of a NaN that was read from bytes, so that the byte codec of
    [Wire.v] loses nothing; an arithmetic NaN is the canonical one (Rust leaves
    its payload unspecified).  The file holds the operations, the order on
    values that are not NaN, and when an operation cannot produce a NaN. *)

From S2P Require Import Prelude.
From Stdlib Require Export Floats.SpecFloat.

Open Scope Z_scope.

(** ** Types and operations *)

Inductive f32 : Type :=
  | F (x : spec_float)
  | NaN_bits (sign : bool) (payload : positive).

#[export] Instance f32_inhabited : Inhabited f32 := populate (F (S754_zero false)).

Definition sf (x : f32) : spec_float :=
  match x with F x => x | NaN_bits _ _ => S754_nan end.

Definition f64 : Type := spec_float.

Declare Scope f32_scope.
Delimit Scope f32_scope with f32.
Bind Scope f32_scope with f32.

Definition f32_add (x y : f32) : f32 := F (SFadd 24 128 (sf x) (sf y)).
Definition f32_sub (x y : f32) : f32 := F (SFsub 24 128 (sf x) (sf y)).
Definition f32_mul (x y : f32) : f32 := F (SFmul 24 128 (sf x) (sf y)).
Definition f32_div (x y : f32) : f32 := F (SFdiv 24 128 (sf x) (sf y)).
Definition f32_sqrt (x : f32) : f32 := F (SFsqrt 24 128 (sf x)).
Definition f32_compare (x y : f32) : option comparison := SFcompare (sf x) (sf y).
Definition f32_leb (x y : f32) : bool := SFleb (sf x) (sf y).
Definition f32_ltb (x y : f32) : bool := SFltb (sf x) (sf y).
Definition f32_eqb (x y : f32) : bool := SFeqb (sf x) (sf y).

Infix "+" := f32_add : f32_scope.
Infix "-" := f32_sub : f32_scope.
Infix "*" := f32_mul : f32_scope.
Infix "/" := f32_div : f32_scope.
Infix "<=?" := f32_leb : f32_scope.
Infix "<?" := f32_ltb : f32_scope.
Infix "=?" := f32_eqb : f32_scope.

Definition f64_add : f64 → f64 → f64 := SFadd 53 1024.
Definition f64_sub : f64 → f64 → f64 := SFsub 53 1024.
Definition f64_mul : f64 → f64 → f64 := SFmul 53 1024.
Definition f64_div : f64 → f64 → f64 := SFdiv 53 1024.
Definition f64_sqrt : f64 → f64 := SFsqrt 53 1024.

(** [n as f32], [n as f64] for a non-negative integer. *)
Definition f32_of_Z (n : Z) : f32 := F (binary_normalize 24 128 n 0 false).
Definition f64_of_Z (n : Z) : f64 := binary_normalize 53 1024 n 0 false.

(** The literal [num/den]: both are exact, so one rounded division is the
    correctly rounded decimal. *)
Definition f32_lit (num den : Z) : f32 := (f32_of_Z num / f32_of_Z den)%f32.
Definition f64_lit (num den : Z) : f64 := f64_div (f64_of_Z num) (f64_of_Z den).

(** [x as f64] is exact; [x as f32] rounds. *)
Definition f64_of_f32 (x : f32) : f64 :=
  match sf x with
  | S754_finite s m e => binary_round 53 1024 s m e
  | y => y
  end.
Definition f32_of_f64 (x : f64) : f32 :=
  match x with
  | S754_finite s m e => F (binary_round 24 128 s m e)
  | y => F y
  end.

Definition f64_zero : f64 := S754_zero false.
Definition f32_zero : f32 := F (S754_zero false).
Definition f32_neg_zero : f32 := F (S754_zero true).
Definition f32_one : f32 := f32_of_Z 1.
Definition f32_nan : f32 := F S754_nan.

Definition sf_is_nan (x : spec_float) : bool :=
  match x with S754_nan => true | _ => false end.
Definition sf_is_finite (x : spec_float) : bool :=
  match x with S754_nan | S754_infinity _ => false | _ => true end.
Definition f32_is_nan (x : f32) : bool := sf_is_nan (sf x).
Definition f32_is_finite (x : f32) : bool := sf_is_finite (sf x).

(** [f32::max]: a NaN operand is ignored. *)
Definition f32_max (x y : f32) : f32 :=
  if f32_is_nan x then y else if f32_is_nan y then x else
  if (x <? y)%f32 then y else x.
Definition f64_min (x y : f64) : f64 :=
  if sf_is_nan x then y else if sf_is_nan y then x else
  if SFltb y x then y else x.
Definition f64_max (x y : f64) : f64 :=
  if sf_is_nan x then y else if sf_is_nan y then x else
  if SFltb x y then y else x.

(** [x.floor() as u64] (and [as usize]): the cast saturates and sends NaN to 0. *)
Definition sf_floor_to_u64 (x : spec_float) : Z :=
  match x with
  | S754_finite s m e =>
      let v := if s then Zneg m else Zpos m in
      Z.max 0 (Z.min u64_max (if 0 <=? e then Z.shiftl v e else Z.shiftr v (- e)))
  | S754_infinity false => u64_max
  | _ => 0
  end.
Definition f32_floor_to_u64 (x : f32) : Z := sf_floor_to_u64 (sf x).

(** [(lo..=hi).contains(&x)] on floats. *)
Definition f32_between (lo hi x : f32) : bool := (lo <=? x)%f32 && (x <=? hi)%f32.

(** [iter().sum::<f32>()] folds from the left, starting at [-0.0]. *)
Definition f32_sum (l : list f32) : f32 := foldl f32_add f32_neg_zero l.

(** ** Bit patterns *)

Definition f32_to_bits (x : f32) : Z :=
  let sg (s : bool) := if s then 2 ^ 31 else 0 in
  match x with
  | F (S754_zero s) => sg s
  | F (S754_infinity s) => sg s + 255 * 2 ^ 23
  | F S754_nan => 255 * 2 ^ 23 + 2 ^ 22
  | NaN_bits s p => sg s + 255 * 2 ^ 23 + Zpos p
  | F (S754_finite s m e) =>
      if Zpos m <? 2 ^ 23 then sg s + Zpos m
      else sg s + (e + 150) * 2 ^ 23 + (Zpos m - 2 ^ 23)
  end.

Definition f32_from_bits (z : Z) : f32 :=
  let s := 1 <=? z / 2 ^ 31 in
  let ex := (z / 2 ^ 23) mod 256 in
  match z mod 2 ^ 23 with
  | Zpos m =>
      if ex =? 0 then F (S754_finite s m (-149))
      else if ex =? 255 then NaN_bits s m
      else F (S754_finite s (m + 8388608)%positive (ex - 150))
  | _ =>
      if ex =? 0 then F (S754_zero s)
      else if ex =? 255 then F (S754_infinity s)
      else F (S754_finite s 8388608%positive (ex - 150))
  end.

(** The values binary32 has. *)
Definition f32_wf (x : f32) : Prop :=
  match x with
  | F (S754_finite _ m e) =>
      (Zpos m < 2 ^ 23 ∧ e = -149) ∨
      (2 ^ 23 ≤ Zpos m < 2 ^ 24 ∧ -149 ≤ e ≤ 104)
  | F S754_nan => False
  | F _ => True
  | NaN_bits _ p => Zpos p < 2 ^ 23
  end.

Lemma f32_to_bits_range x : f32_wf x → 0 ≤ f32_to_bits x < 2 ^ 32.
Proof.
  destruct x as [[[]|[]| |[] m e]|[] p]; simpl; try lia.
  all: destruct (Zpos m <? _) eqn:?; lia.
Qed.

Lemma f32_from_bits_split (s : bool) ex fr :
  0 ≤ ex < 256 → 0 ≤ fr < 2 ^ 23 →
  f32_from_bits ((if s then 2 ^ 31 else 0) + ex * 2 ^ 23 + fr) =
  match fr with
  | Zpos m =>
      if ex =? 0 then F (S754_finite s m (-149))
      else if ex =? 255 then NaN_bits s m
      else F (S754_finite s (m + 8388608)%positive (ex - 150))
  | _ =>
      if ex =? 0 then F (S754_zero s)
      else if ex =? 255 then F (S754_infinity s)
      else F (S754_finite s 8388608%positive (ex - 150))
  end.
Proof.
  intros Hex Hfr. unfold f32_from_bits.
  set (z := (if s then 2 ^ 31 else 0) + ex * 2 ^ 23 + fr).
  assert (z mod 2 ^ 23 = fr) as ->.
  { symmetry. apply (Z.mod_unique _ _ ((if s then 2 ^ 8 else 0) + ex)); destruct s; lia. }
  assert (z / 2 ^ 23 = (if s then 2 ^ 8 else 0) + ex) as ->.
  { symmetry. apply (Z.div_unique _ _ _ fr); destruct s; lia. }
  assert (((if s then 2 ^ 8 else 0) + ex) mod 256 = ex) as ->.
  { symmetry. apply (Z.mod_unique _ _ (if s then 1 else 0)); destruct s; lia. }
  assert ((1 <=? z / 2 ^ 31) = s) as ->; [|done].
  assert (z / 2 ^ 31 = (if s then 1 else 0)) as ->; [|by destruct s].
  symmetry. apply (Z.div_unique _ _ _ (ex * 2 ^ 23 + fr)); destruct s; lia.
Qed.

Lemma f32_from_to_bits x : f32_wf x → f32_from_bits (f32_to_bits x) = x.
Proof.
  assert (Hs : ∀ s : bool, (if s then 2 ^ 31 else 0) = (if s then 2 ^ 31 else 0) + 0 * 2 ^ 23 + 0)
    by (intros []; lia).
  destruct x as [[s|s| |s m e]|s p]; unfold f32_to_bits, f32_wf; try done.
  - intros _. rewrite Hs, f32_from_bits_split by lia. done.
  - intros _. rewrite <-(Z.add_0_r (_ + _)), f32_from_bits_split by lia. done.
  - intros Hm. destruct (Zpos m <? 2 ^ 23) eqn:Hlt.
    + assert (e = -149) as -> by lia.
      replace (_ + Zpos m) with ((if s then 2 ^ 31 else 0) + 0 * 2 ^ 23 + Zpos m) by lia.
      rewrite f32_from_bits_split by lia. done.
    + rewrite f32_from_bits_split by lia.
      destruct (e + 150 =? 0) eqn:?, (e + 150 =? 255) eqn:?; try lia.
      replace (e + 150 - 150) with e by lia.
      destruct (Zpos m - 2 ^ 23) as [|q|q] eqn:Hq; try lia; do 2 f_equal; lia.
  - intros Hp. rewrite f32_from_bits_split by lia. done.
Qed.

Lemma f32_bits_decompose z :
  is_u32 z → z = (if 1 <=? z / 2 ^ 31 then 2 ^ 31 else 0) + (z / 2 ^ 23) mod 256 * 2 ^ 23 + z mod 2 ^ 23.
Proof.
  unfold is_u32. intros Hz.
  assert (Hd : z / 2 ^ 31 = z / 2 ^ 23 / 256) by (by rewrite Z.div_div).
  assert (Hb : 0 ≤ z / 2 ^ 31 < 2).
  { split; [apply Z.div_pos | apply Z.div_lt_upper_bound]; lia. }
  rewrite Hd in *. clear Hd. set (q := z / 2 ^ 23) in *.
  pose proof (Z.div_mod z (2 ^ 23) ltac:(done)) as H1. fold q in H1.
  pose proof (Z.div_mod q 256 ltac:(done)) as H2.
  set (r := z mod 2 ^ 23) in *. set (q' := q / 256) in *. set (r' := q mod 256) in *.
  clearbody q r q' r'. destruct (1 <=? q') eqn:?; lia.
Qed.

Lemma f32_to_from_bits z : is_u32 z → f32_to_bits (f32_from_bits z) = z.
Proof.
  intros Hz. rewrite (f32_bits_decompose z) at 1 by done.
  rewrite (f32_bits_decompose z) at 4 by done.
  pose proof (Z.mod_pos_bound z (2 ^ 23)). pose proof (Z.mod_pos_bound (z / 2 ^ 23) 256).
  set (s := 1 <=? z / 2 ^ 31). set (ex := (z / 2 ^ 23) mod 256) in *.
  set (fr := z mod 2 ^ 23) in *.
  rewrite f32_from_bits_split by lia.
  destruct fr as [|m|m] eqn:Hfr; [| |lia];
    destruct (ex =? 0) eqn:?, (ex =? 255) eqn:?; try lia; unfold f32_to_bits; try lia.
  all: case_match; rewrite ?Pos2Z.inj_add in *; lia.
Qed.

Lemma f32_from_bits_wf z : f32_wf (f32_from_bits z).
Proof.
  unfold f32_from_bits.
  pose proof (Z.mod_pos_bound z (2 ^ 23)). pose proof (Z.mod_pos_bound (z / 2 ^ 23) 256).
  destruct (z mod 2 ^ 23) eqn:?;
    destruct ((z / 2 ^ 23) mod 256 =? 0) eqn:?; [done| |simpl; lia| |done| ];
    destruct ((z / 2 ^ 23) mod 256 =? 255) eqn:?; unfold f32_wf; try done; try lia.
Qed.

(** ** The order on values that are not NaN

    [sf_key] embeds the comparison of [SpecFloat] in the lexicographic order of
    integer triples, from which totality and transitivity follow. *)

Definition not_nan (x : f32) : Prop := f32_is_nan x = false.

Definition sf_key (x : spec_float) : Z * Z * Z :=
  match x with
  | S754_zero _ | S754_nan => (0, 0, 0)
  | S754_infinity s => (if s then -2 else 2, 0, 0)
  | S754_finite s m e => if s then (-1, - e, Zneg m) else (1, e, Zpos m)
  end.

Definition lex_compare (a b : Z * Z * Z) : comparison :=
  match a.1.1 ?= b.1.1 with
  | Eq => match a.1.2 ?= b.1.2 with Eq => a.2 ?= b.2 | c => c end
  | c => c
  end.

Lemma SFcompare_key x y :
  sf_is_nan x = false → sf_is_nan y = false →
  SFcompare x y = Some (lex_compare (sf_key x) (sf_key y)).
Proof.
  destruct x as [[]|[]| |[] m e], y as [[]|[]| |[] m' e']; try done; intros _ _;
    unfold lex_compare; simpl.
  destruct (Z.compare_spec e e'), (Z.compare_spec (- e) (- e')); try lia; done.
Qed.

Lemma lex_compare_spec a b :
  match lex_compare a b with
  | Eq => a.1.1 = b.1.1 ∧ a.1.2 = b.1.2 ∧ a.2 = b.2
  | Lt => a.1.1 < b.1.1 ∨ a.1.1 = b.1.1 ∧ (a.1.2 < b.1.2 ∨ a.1.2 = b.1.2 ∧ a.2 < b.2)
  | Gt => b.1.1 < a.1.1 ∨ a.1.1 = b.1.1 ∧ (b.1.2 < a.1.2 ∨ a.1.2 = b.1.2 ∧ b.2 < a.2)
  end.
Proof.
  unfold lex_compare. destruct a as [[a b'] c], b as [[a' b''] c']; simpl.
  destruct (Z.compare_spec a a'), (Z.compare_spec b' b''), (Z.compare_spec c c'); lia.
Qed.

Lemma f32_compare_some x y :
  not_nan x → not_nan y → is_Some (f32_compare x y).
Proof. intros. unfold f32_compare. rewrite SFcompare_key by done. eauto. Qed.

Lemma f32_compare_none x y :
  f32_compare x y = None ↔ f32_is_nan x = true ∨ f32_is_nan y = true.
Proof.
  unfold f32_compare, f32_is_nan.
  destruct (sf_is_nan (sf x)) eqn:Hx, (sf_is_nan (sf y)) eqn:Hy.
  4: rewrite SFcompare_key by done; split; [done | intros []; done].
  all: split; [auto | intros _].
  all: destruct (sf x) as [| | |[]], (sf y); done.
Qed.

Lemma f32_leb_key x y : not_nan x → not_nan y →
  (x <=? y)%f32 = match lex_compare (sf_key (sf x)) (sf_key (sf y)) with Gt => false | _ => true end.
Proof.
  intros. unfold f32_leb, SFleb. rewrite SFcompare_key by done. by case_match.
Qed.

Lemma f32_ltb_key x y : not_nan x → not_nan y →
  (x <? y)%f32 = match lex_compare (sf_key (sf x)) (sf_key (sf y)) with Lt => true | _ => false end.
Proof.
  intros. unfold f32_ltb, SFltb. rewrite SFcompare_key by done. by case_match.
Qed.

Ltac lex_cases :=
  repeat match goal with
  | |- context [lex_compare ?a ?b] =>
      let H := fresh "Hlex" in
      pose proof (lex_compare_spec a b) as H; destruct (lex_compare a b)
  | H : context [lex_compare ?a ?b] |- _ =>
      let H' := fresh "Hlex" in
      pose proof (lex_compare_spec a b) as H'; destruct (lex_compare a b)
  end.

Lemma f32_leb_total x y : not_nan x → not_nan y →
  (x <=? y)%f32 = true ∨ (y <=? x)%f32 = true.
Proof. intros. rewrite !f32_leb_key by done. lex_cases; try tauto; lia. Qed.

Lemma f32_leb_trans x y z : not_nan x → not_nan y → not_nan z →
  (x <=? y)%f32 = true → (y <=? z)%f32 = true → (x <=? z)%f32 = true.
Proof.
  intros ???. rewrite !f32_leb_key by done. intros ??. lex_cases; try done; lia.
Qed.

Lemma f32_leb_refl x : not_nan x → (x <=? x)%f32 = true.
Proof. intros. destruct (f32_leb_total x x); done. Qed.

Lemma f32_ltb_leb x y : not_nan x → not_nan y →
  (x <? y)%f32 = negb (y <=? x)%f32.
Proof.
  intros. rewrite f32_ltb_key, f32_leb_key by done. lex_cases; try done; lia.
Qed.

Lemma f32_leb_not_nan x y : (x <=? y)%f32 = true → not_nan x ∧ not_nan y.
Proof.
  unfold f32_leb, SFleb, not_nan, f32_is_nan.
  destruct (sf x) as [| | |[]], (sf y); try done; simpl; done.
Qed.

Lemma f32_finite_not_nan x : f32_is_finite x = true → not_nan x.
Proof. unfold not_nan, f32_is_nan, f32_is_finite. by destruct (sf x). Qed.

(** ** When an operation cannot produce a NaN *)

(** Zero of either sign, a positive number or +infinity. *)
Definition sf_nonneg (x : spec_float) : Prop :=
  match x with
  | S754_zero _ | S754_infinity false | S754_finite false _ _ => True
  | _ => False
  end.
Definition f32_nonneg (x : f32) : Prop := sf_nonneg (sf x).

Lemma sf_nonneg_not_nan x : sf_nonneg x → sf_is_nan x = false.
Proof. by destruct x as [|[]| |[]]. Qed.

Lemma f32_nonneg_not_nan x : f32_nonneg x → not_nan x.
Proof. apply sf_nonneg_not_nan. Qed.

Section rounding.
Context (prec emax : Z).

Lemma shr_1_nonneg r : 0 ≤ shr_m r → 0 ≤ shr_m (shr_1 r).
Proof. destruct r as [[|[]|[]] b s]; simpl; lia. Qed.

Lemma iter_pos_nonneg p r : 0 ≤ shr_m r → 0 ≤ shr_m (iter_pos shr_1 p r).
Proof. revert r. induction p; simpl; eauto using shr_1_nonneg. Qed.

Lemma shr_fexp_nonneg m e l :
  0 ≤ m → 0 ≤ shr_m (shr_fexp prec emax m e l).1.
Proof.
  intros Hm. unfold shr_fexp, shr.
  assert (0 ≤ shr_m (shr_record_of_loc m l)) by (destruct l as [|[]]; done).
  case_match; simpl; auto using iter_pos_nonneg.
Qed.

Lemma round_nearest_even_nonneg m l : 0 ≤ m → 0 ≤ round_nearest_even m l.
Proof. destruct l as [|[]]; simpl; try lia. case_match; lia. Qed.

(** Rounding a non-negative mantissa keeps the sign and never yields NaN. *)
Lemma binary_round_aux_sign s m e l :
  0 ≤ m →
  let r := binary_round_aux prec emax s m e l in
  r = S754_zero s ∨ r = S754_infinity s ∨ ∃ m' e', r = S754_finite s m' e'.
Proof.
  intros Hm. unfold binary_round_aux.
  destruct (shr_fexp prec emax m e l) as [r1 e1] eqn:H1.
  pose proof (shr_fexp_nonneg m e l Hm) as Hr1. rewrite H1 in Hr1. simpl in Hr1.
  set (m1 := round_nearest_even _ _).
  assert (Hm1 : 0 ≤ m1) by (by apply round_nearest_even_nonneg).
  destruct (shr_fexp prec emax m1 e1 loc_Exact) as [r2 e2] eqn:H2.
  pose proof (shr_fexp_nonneg m1 e1 loc_Exact Hm1) as Hr2. rewrite H2 in Hr2. simpl in *.
  destruct (shr_m r2); [auto| |lia]. case_match; eauto.
Qed.

Lemma binary_round_sign s m e :
  let r := binary_round prec emax s m e in
  r = S754_zero s ∨ r = S754_infinity s ∨ ∃ m' e', r = S754_finite s m' e'.
Proof.
  unfold binary_round. destruct (shl_align _ _ _). by apply binary_round_aux_sign.
Qed.

Lemma binary_round_aux_nonneg m e l :
  0 ≤ m → sf_nonneg (binary_round_aux prec emax false m e l).
Proof.
  intros Hm. destruct (binary_round_aux_sign false m e l Hm) as [->|[->|(?&?&->)]]; done.
Qed.

Lemma binary_round_nonneg m e : sf_nonneg (binary_round prec emax false m e).
Proof. destruct (binary_round_sign false m e) as [->|[->|(?&?&->)]]; done. Qed.

Lemma binary_round_not_nan s m e : sf_is_nan (binary_round prec emax s m e) = false.
Proof. destruct (binary_round_sign s m e) as [->|[->|(?&?&->)]]; done. Qed.

Lemma binary_normalize_not_nan m e z :
  sf_is_nan (binary_normalize prec emax m e z) = false.
Proof. destruct m as [|p|p]; simpl; [done| |]; apply binary_round_not_nan. Qed.

Lemma binary_normalize_nonneg m e :
  0 ≤ m → sf_nonneg (binary_normalize prec emax m e false).
Proof.
  intros Hm. destruct m as [|p|p]; simpl; [done| |lia]. apply binary_round_nonneg.
Qed.

Lemma SFadd_nonneg x y : sf_nonneg x → sf_nonneg y → sf_nonneg (SFadd prec emax x y).
Proof.
  destruct x as [[]|[]| |[] m e], y as [[]|[]| |[] m' e']; simpl; try done; intros _ _.
  apply binary_round_nonneg.
Qed.

Lemma SFmul_self_nonneg x : sf_is_nan x = false → sf_nonneg (SFmul prec emax x x).
Proof.
  destruct x as [[]|[]| |[] m e]; simpl; try done; intros _.
  all: by apply binary_round_aux_nonneg.
Qed.

Lemma SFsub_not_nan x y :
  sf_is_nan x = false → sf_is_nan y = false →
  (sf_is_finite x = true ∨ sf_is_finite y = true) →
  sf_is_nan (SFsub prec emax x y) = false.
Proof.
  destruct x as [[]|[]| |[] m e], y as [[]|[]| |[] m' e']; simpl; try done;
    intros _ _ H; try (destruct H; done).
  all: first [apply binary_normalize_not_nan | apply binary_round_not_nan].
Qed.

Lemma SFdiv_finite_not_nan x m' e' :
  sf_is_nan x = false → sf_is_nan (SFdiv prec emax x (S754_finite false m' e')) = false.
Proof.
  intros Hx. destruct x as [|[]| |s m e]; try done. unfold SFdiv, SFdiv_core_binary.
  set (e1 := Z.min _ _). set (m1 := match _ with Z0 => Zpos m | _ => _ end).
  assert (Hm1 : 0 ≤ m1).
  { subst m1. destruct (_ - _ - e1)%Z; [lia| |lia]. apply Z.shiftl_nonneg. lia. }
  destruct (Z.div_eucl m1 (Zpos m')) as [q r] eqn:Hq.
  assert (0 ≤ q).
  { pose proof (Z.div_pos m1 (Zpos m') Hm1 ltac:(lia)) as Hd. unfold Z.div in Hd. by rewrite Hq in Hd. }
  destruct (binary_round_aux_sign (xorb s false) q e1 (new_location (Zpos m') r)) as [H'|[H'|(?&?&H')]];
    [done|rewrite H'..]; done.
Qed.

Lemma SFsqrt_nonneg x : sf_nonneg x → sf_nonneg (SFsqrt prec emax x).
Proof.
  destruct x as [[]|[]| |[] m e]; simpl; try done; intros _.
  unfold SFsqrt_core_binary.
  set (m' := match _ with Zpos p => _ | Z0 => _ | Zneg _ => _ end).
  pose proof (Z.sqrtrem_sqrt m') as Hq. destruct (Z.sqrtrem m') as [q r]. simpl in Hq.
  apply binary_round_aux_nonneg. rewrite Hq. apply Z.sqrt_nonneg.
Qed.
End rounding.

Lemma f32_add_nonneg x y : f32_nonneg x → f32_nonneg y → f32_nonneg (x + y).
Proof. apply SFadd_nonneg. Qed.

Lemma f32_sum_from_nonneg l a :
  f32_nonneg a → Forall f32_nonneg l → f32_nonneg (foldl f32_add a l).
Proof.
  intros Ha Hl. revert a Ha. induction Hl as [|x l Hx _ IH]; intros a Ha; simpl; [done|].
  apply IH. by apply f32_add_nonneg.
Qed.

Lemma f32_sum_nonneg l : Forall f32_nonneg l → f32_nonneg (f32_sum l).
Proof. by apply f32_sum_from_nonneg. Qed.

Lemma f32_mul_self_nonneg x : not_nan x → f32_nonneg (x * x).
Proof. apply SFmul_self_nonneg. Qed.

Lemma f32_sqrt_nonneg x : f32_nonneg x → f32_nonneg (f32_sqrt x).
Proof. apply SFsqrt_nonneg. Qed.

Lemma f32_sub_not_nan x y :
  not_nan x → not_nan y → f32_is_finite x = true ∨ f32_is_finite y = true →
  not_nan (x - y).
Proof. apply SFsub_not_nan. Qed.

(** ** Rounding a positive number never reaches zero

    Below the smallest exponent [emin] there is nothing to lose: a positive
    mantissa whose exponent is at least [emin] stays positive. *)
Section positive_rounding.
Context (prec emax : Z) (Hprec : 0 < prec).
#[local] Notation emin := (SpecFloat.emin prec emax).

Definition sf_pos (x : spec_float) : Prop :=
  match x with
  | S754_finite false _ e => emin ≤ e
  | S754_infinity false => True
  | _ => False
  end.

Lemma shr_1_div2 r : 0 ≤ shr_m r → shr_m (shr_1 r) = shr_m r / 2.
Proof.
  destruct r as [[|[p|p|]|p] b s]; simpl; try done; intros _.
  - rewrite Pos2Z.inj_xI. apply (Z.div_unique _ _ _ 1); lia.
  - rewrite Pos2Z.inj_xO. apply (Z.div_unique _ _ _ 0); lia.
Qed.

Lemma iter_pos_div p r : 0 ≤ shr_m r → shr_m (iter_pos shr_1 p r) = shr_m r / 2 ^ Zpos p.
Proof.
  assert (Hd : ∀ a b c, 0 ≤ b → 0 ≤ c → a / 2 ^ b / 2 ^ c = a / 2 ^ (b + c)).
  { intros a b c ??. rewrite Z.pow_add_r, Z.div_div by lia. done. }
  revert r. induction p as [p IH|p IH|]; intros r Hr; simpl.
  - rewrite IH by (apply iter_pos_nonneg; by apply shr_1_nonneg).
    rewrite IH by (by apply shr_1_nonneg). rewrite shr_1_div2 by done.
    change 2 with (2 ^ 1) at 1. rewrite !Hd by lia. f_equal. f_equal. lia.
  - rewrite !IH by auto using iter_pos_nonneg. rewrite Hd by lia. f_equal. f_equal. lia.
  - by apply shr_1_div2.
Qed.

Lemma digits2_lower p : 2 ^ (Zpos (digits2_pos p) - 1) ≤ Zpos p.
Proof.
  induction p as [p IH|p IH|]; simpl digits2_pos; [| |done].
  all: rewrite Pos2Z.inj_succ; unfold Z.succ.
  all: replace (Zpos (digits2_pos p) + 1 - 1) with (1 + (Zpos (digits2_pos p) - 1)) by lia.
  all: rewrite Z.pow_add_r by lia; lia.
Qed.

Lemma shr_fexp_pos m e l :
  0 < m → emin ≤ e →
  let r := shr_fexp prec emax m e l in 0 < shr_m r.1 ∧ emin ≤ r.2.
Proof.
  intros Hm He. unfold shr_fexp, shr.
  assert (shr_m (shr_record_of_loc m l) = m) as Hr by (by destruct l as [|[]]).
  destruct (fexp prec emax (Zdigits2 m + e) - e) as [|p|p] eqn:Hn; simpl; rewrite ?Hr; [done| |done].
  split; [|lia]. rewrite iter_pos_div, Hr by lia.
  destruct m as [|m|]; [lia| |lia]. unfold fexp in Hn. simpl in Hn.
  assert (Zpos p = Zpos (digits2_pos m) - prec) by lia.
  pose proof (digits2_lower m) as Hdig.
  apply Z.div_str_pos. split; [lia|]. etransitivity; [|exact Hdig].
  apply Z.pow_le_mono_r; lia.
Qed.

Lemma round_nearest_even_ge m l : m ≤ round_nearest_even m l.
Proof. destruct l as [|[]]; simpl; try lia. case_match; lia. Qed.

Lemma binary_round_aux_pos m e l :
  0 < m → emin ≤ e → sf_pos (binary_round_aux prec emax false m e l).
Proof.
  intros Hm He. unfold binary_round_aux.
  pose proof (shr_fexp_pos m e l Hm He) as H1. simpl in H1.
  destruct (shr_fexp prec emax m e l) as [r1 e1]. simpl in H1.
  pose proof (round_nearest_even_ge (shr_m r1) (loc_of_shr_record r1)).
  set (m1 := round_nearest_even _ _) in *.
  pose proof (shr_fexp_pos m1 e1 loc_Exact ltac:(lia) ltac:(lia)) as H2. simpl in H2.
  destruct (shr_fexp prec emax m1 e1 loc_Exact) as [r2 e2]. simpl in *.
  destruct (shr_m r2); [lia| |lia]. case_match; simpl; [lia|done].
Qed.

Lemma binary_round_pos m e : emin ≤ e → sf_pos (binary_round prec emax false m e).
Proof.
  intros He. unfold binary_round, shl_align.
  destruct (fexp prec emax (Zpos (digits2_pos m) + e) - e) eqn:Hn;
    apply binary_round_aux_pos; try done.
  unfold fexp. lia.
Qed.

Lemma Zdigits2_bound m : 0 ≤ m → m < 2 ^ Zdigits2 m.
Proof.
  destruct m as [|p|]; simpl; [lia| |lia]. intros _.
  induction p as [p IH|p IH|]; simpl digits2_pos; [| |done].
  all: rewrite Pos2Z.inj_succ, Z.pow_succ_r by lia; lia.
Qed.

Lemma Zdigits2_le m k : 0 ≤ m < 2 ^ k → 0 ≤ k → Zdigits2 m ≤ k.
Proof.
  destruct m as [|p|]; simpl; [lia| |lia]. intros [_ Hp] Hk.
  assert (Hd : 2 ^ (Zpos (digits2_pos p) - 1) ≤ Zpos p) by apply digits2_lower.
  destruct (Z.le_gt_cases (Zpos (digits2_pos p)) k); [done|].
  assert (2 ^ k ≤ 2 ^ (Zpos (digits2_pos p) - 1)) by (apply Z.pow_le_mono_r; lia). lia.
Qed.

(** Where rounding puts the mantissa and the exponent. *)
Lemma shr_fexp_bounds m e l :
  0 ≤ m → let r := shr_fexp prec emax m e l in
  0 ≤ shr_m r.1 < 2 ^ prec ∧ r.2 ≤ Z.max e (fexp prec emax (Zdigits2 m + e)).
Proof.
  intros Hm. unfold shr_fexp, shr.
  assert (shr_m (shr_record_of_loc m l) = m) as Hr by (by destruct l as [|[]]).
  pose proof (Zdigits2_bound m Hm) as Hd.
  assert (Hf : Zdigits2 m + e - prec ≤ fexp prec emax (Zdigits2 m + e)) by (unfold fexp; lia).
  destruct (fexp prec emax (Zdigits2 m + e) - e) as [|p|p] eqn:Hn; simpl; rewrite ?Hr.
  1,3: split; [|lia]; split; [done|]; eapply Z.lt_le_trans; [exact Hd|]; apply Z.pow_le_mono_r; lia.
  split; [|lia]. rewrite iter_pos_div, Hr by (by rewrite Hr). split; [apply Z.div_pos; lia|].
  apply Z.div_lt_upper_bound; [lia|]. rewrite <-Z.pow_add_r by lia.
  eapply Z.lt_le_trans; [exact Hd|]. apply Z.pow_le_mono_r; lia.
Qed.

Lemma round_nearest_even_le m l : round_nearest_even m l ≤ m + 1.
Proof. destruct l as [|[]]; simpl; try lia. case_match; lia. Qed.

(** No overflow while the exponent stays one below the largest. *)
Lemma binary_round_aux_finite s m e l :
  0 ≤ m → e < emax - prec → Zdigits2 m + e < emax → emin ≤ emax - prec - 1 →
  sf_is_finite (binary_round_aux prec emax s m e l) = true.
Proof.
  intros Hm He Hdig Hemin. unfold binary_round_aux.
  pose proof (shr_fexp_bounds m e l Hm) as H1. simpl in H1.
  destruct (shr_fexp prec emax m e l) as [r1 e1]. simpl in H1. destruct H1 as [Hr1 He1].
  pose proof (round_nearest_even_ge (shr_m r1) (loc_of_shr_record r1)).
  pose proof (round_nearest_even_le (shr_m r1) (loc_of_shr_record r1)).
  set (m1 := round_nearest_even _ _) in *.
  pose proof (shr_fexp_bounds m1 e1 loc_Exact ltac:(lia)) as H2. simpl in H2.
  destruct (shr_fexp prec emax m1 e1 loc_Exact) as [r2 e2]. simpl in H2. destruct H2 as [Hr2 He2].
  assert (Zdigits2 m1 ≤ prec + 1).
  { apply Zdigits2_le; [|lia]. rewrite Z.pow_add_r by lia. lia. }
  unfold fexp in *. destruct (shr_m r2); [done| |lia].
  assert (e2 <=? emax - prec = true) as -> by lia. done.
Qed.

Lemma SFadd_pos_l x y : sf_pos x → sf_pos y ∨ (∃ s, y = S754_zero s) → sf_pos (SFadd prec emax x y).
Proof.
  destruct x as [|[]| |[] m e]; try done; intros Hx [Hy|[s ->]]; try done;
    destruct y as [|[]| |[] m' e']; try done; simpl in *.
  apply binary_round_pos. lia.
Qed.

Lemma SFadd_pos_r s y : sf_pos y → SFadd prec emax (S754_zero s) y = y.
Proof. by destruct y as [|[]| |[] ? ?]. Qed.
End positive_rounding.

Definition f32_pos (x : f32) : Prop := sf_pos 24 128 (sf x).
Definition f32_is_zero (x : f32) : Prop := ∃ s, x = F (S754_zero s).

Lemma f32_of_Z_zero_or_pos n : 0 ≤ n → if decide (n = 0) then f32_is_zero (f32_of_Z n) else f32_pos (f32_of_Z n).
Proof.
  intros Hn. case_decide as H0.
  - subst. by exists false.
  - destruct n as [|p|]; [done| |lia]. unfold f32_pos, f32_of_Z. simpl.
    by apply binary_round_pos.
Qed.

(** *** Mantissas in range, and the cast of a value within [f32]'s own range *)

(** A mantissa of at most [prec] bits, as every rounding leaves it. *)
Definition sf_bounded (prec : Z) (x : spec_float) : Prop :=
  match x with S754_finite _ m _ => Zpos m < 2 ^ prec | _ => True end.

Section bounded.
Context (prec emax : Z) (Hprec : 0 < prec).

Lemma binary_round_aux_bounded s m e l : 0 ≤ m → sf_bounded prec (binary_round_aux prec emax s m e l).
Proof.
  intros Hm. unfold binary_round_aux.
  pose proof (shr_fexp_bounds prec emax Hprec m e l Hm) as H1. simpl in H1.
  destruct (shr_fexp prec emax m e l) as [r1 e1]. simpl in H1. destruct H1 as [Hr1 _].
  pose proof (round_nearest_even_ge (shr_m r1) (loc_of_shr_record r1)).
  set (m1 := round_nearest_even _ _) in *.
  pose proof (shr_fexp_bounds prec emax Hprec m1 e1 loc_Exact ltac:(lia)) as H2. simpl in H2.
  destruct (shr_fexp prec emax m1 e1 loc_Exact) as [r2 e2]. simpl in H2. destruct H2 as [Hr2 _].
  destruct (shr_m r2); [done| |done]. case_match; simpl; [lia|done].
Qed.

Lemma binary_round_bounded s m e : sf_bounded prec (binary_round prec emax s m e).
Proof.
  unfold binary_round. destruct (shl_align _ _ _) as [m' e']. by apply binary_round_aux_bounded.
Qed.

Lemma SFopp_bounded x : sf_bounded prec x → sf_bounded prec (SFopp x).
Proof. by destruct x. Qed.

Lemma binary_normalize_bounded m e z : sf_bounded prec (binary_normalize prec emax m e z).
Proof. destruct m; [done|apply binary_round_bounded..]. Qed.

Lemma SFsub_bounded x y : sf_bounded prec x → sf_bounded prec y → sf_bounded prec (SFsub prec emax x y).
Proof.
  destruct x as [[]|[]| |[] m e], y as [[]|[]| |[] m' e']; try done; simpl; intros ??; try done.
  all: first [apply binary_normalize_bounded | apply binary_round_bounded].
Qed.

Lemma SFdiv_bounded x y : sf_bounded prec (SFdiv prec emax x y).
Proof.
  destruct x as [[]|[]| |sx m e], y as [[]|[]| |sy m' e']; try done. unfold SFdiv.
  destruct (SFdiv_core_binary _ _ _ _ _ _) as [[mz ez] lz] eqn:Hd. apply binary_round_aux_bounded.
  unfold SFdiv_core_binary in Hd.
  set (n := match _ with Z0 => _ | Zpos _ => _ | Zneg _ => _ end) in Hd.
  assert (Hn : 0 ≤ n).
  { unfold n. destruct (_ - _ - _); [done| |done]. apply Z.shiftl_nonneg. done. }
  clearbody n. pose proof (Z.div_pos n (Zpos m') Hn ltac:(done)) as Hq. unfold Z.div in Hq.
  destruct (Z.div_eucl n (Zpos m')) as [q r]. by injection Hd as <- _ _.
Qed.
Lemma binary_round_finite s m e :
  e < emax - prec → Zpos (digits2_pos m) + e < emax → emin prec emax ≤ emax - prec - 1 →
  sf_is_finite (binary_round prec emax s m e) = true.
Proof.
  intros He Hd Hemin. unfold binary_round, shl_align.
  destruct (fexp prec emax (Zpos (digits2_pos m) + e) - e) as [|q|q] eqn:Hq;
    apply (binary_round_aux_finite prec emax Hprec); try done; try (cbn [Zdigits2]; lia).
  assert (Hsh : Zdigits2 (Zpos (shift_pos q m)) ≤ Zpos (digits2_pos m) + Zpos q).
    { apply Zdigits2_le; [|lia]. rewrite shift_pos_correct, Zpower_pos_nat, Zpower_nat_Z.
    rewrite positive_nat_Z, Z.pow_add_r by lia.
    pose proof (Zdigits2_bound (Zpos m) ltac:(lia)). cbn [Zdigits2] in *. nia. }
  unfold shift_pos in Hsh. unfold fexp in *. cbn [Zdigits2] in *. lia.
Qed.
End bounded.

(** [f32::MAX], as itself and as an [f64]. *)
Definition F32_MAX : f32 := F (S754_finite false 16777215 104).

Lemma F32_MAX_f64 : f64_of_f32 F32_MAX = S754_finite false 9007198717870080 75.
Proof. vm_compute. reflexivity. Qed.

(** Seventy-five is where the exponent of [f32::MAX] is: at it, the mantissa decides. *)
Lemma binary_round_at_max s m : Zpos m ≤ 9007198717870080 → sf_is_finite (binary_round 24 128 s m 75) = true.
Proof.
  intros Hm. assert (Hd : Zpos (digits2_pos m) ≤ 53) by (apply (Zdigits2_le (Zpos m)); lia).
  destruct (Z.le_gt_cases (Zpos (digits2_pos m)) 52) as [Hlt|Hge].
  { apply binary_round_finite; [done|done|lia|done]. }
  destruct (decide (Zpos m = 9007198717870080)) as [[= ->]|Hne]; [by destruct s|].
  assert (Hdig : Zpos (digits2_pos m) = 53) by lia. unfold binary_round, shl_align. rewrite Hdig.
  change (fexp 24 128 (53 + 75) - 75) with 29. cbv iota beta. unfold binary_round_aux.
  unfold shr_fexp at 1. cbn [Zdigits2]. rewrite Hdig. change (fexp 24 128 (53 + 75) - 75) with 29.
  unfold shr. set (r := iter_pos shr_1 29 _).
  assert (Hr : shr_m r ≤ 16777214).
  { unfold r. rewrite iter_pos_div by done. simpl shr_m. apply Z.lt_succ_r, Z.div_lt_upper_bound; lia. }
  assert (Hr0 : 0 ≤ shr_m r) by (unfold r; rewrite iter_pos_div by done; by apply Z.div_pos).
  pose proof (round_nearest_even_le (shr_m r) (loc_of_shr_record r)).
  pose proof (round_nearest_even_ge (shr_m r) (loc_of_shr_record r)).
  set (m1 := round_nearest_even _ _) in *. cbn [fst snd].
  pose proof (shr_fexp_bounds 24 128 ltac:(done) m1 (75 + 29) loc_Exact ltac:(lia)) as H2. cbv zeta in H2.
  assert (Hm1 : Zdigits2 m1 ≤ 24) by (apply Zdigits2_le; lia).
  destruct (shr_fexp 24 128 m1 (75 + 29) loc_Exact) as [r2 e2]. cbn [fst snd] in H2. destruct H2 as [Hr2 He2].
  unfold fexp in He2. change (SpecFloat.emin 24 128) with (-149) in He2.
  destruct (shr_m r2); [done| |lia]. assert (e2 <=? 128 - 24 = true) as -> by lia. done.
Qed.

(** [x as f32] of an [f64] between [-f32::MAX] and [f32::MAX]. *)
Lemma f32_of_f64_finite x :
  sf_bounded 53 x → sf_is_nan x = false →
  SFltb x (SFopp (f64_of_f32 F32_MAX)) = false → SFltb (f64_of_f32 F32_MAX) x = false →
  f32_is_finite (f32_of_f64 x) = true.
Proof.
  rewrite F32_MAX_f64. destruct x as [|[]| |s m e]; try done. intros Hm _ Hlo Hhi.
  unfold f32_of_f64, f32_is_finite. cbn [sf].
  assert (He : e < 75 ∨ e = 75 ∧ Zpos m ≤ 9007198717870080).
  { revert Hlo Hhi. generalize 9007198717870080%positive. intros M. unfold SFltb. cbn [SFopp negb SFcompare]. destruct s.
    - destruct (Z.compare_spec e 75); [|by left|done]. intros Hlo _. right. split; [done|].
      change (Pos.compare_cont Eq) with Pos.compare in Hlo. destruct (Pos.compare_spec m M); [subst; lia|lia|done].
    - destruct (Z.compare_spec 75 e); [|done|left; lia]. intros _ Hhi. right. split; [done|].
      change (Pos.compare_cont Eq) with Pos.compare in Hhi. destruct (Pos.compare_spec M m); [subst; lia|done|lia]. }
  destruct He as [He|[-> Hle]]; [|by apply binary_round_at_max].
  simpl in Hm. assert (Hd : Zpos (digits2_pos m) ≤ 53) by (apply (Zdigits2_le (Zpos m)); lia).
  apply binary_round_finite; [done|lia|lia|done].
Qed.

(** Counts of anything in memory are finite as floats. *)
Lemma f32_of_Z_finite n : 0 ≤ n < 2 ^ 64 → f32_is_finite (f32_of_Z n) = true.
Proof.
  intros Hn. destruct n as [|p|]; [done| |lia]. unfold f32_is_finite, f32_of_Z. simpl sf.
  assert (Hd : Zdigits2 (Zpos p) ≤ 64) by (apply Zdigits2_le; lia). simpl in Hd.
  cbn [binary_normalize]. apply (binary_round_finite 24 128 ltac:(done)); [done|lia|done].
Qed.

(** A sum of zeros is a zero; one positive term makes the sum positive. *)
Lemma f32_sum_zero_or_pos l a :
  (f32_is_zero a ∨ f32_pos a) → Forall (λ x, f32_is_zero x ∨ f32_pos x) l →
  (f32_is_zero (foldl f32_add a l) ∧ f32_is_zero a ∧ Forall f32_is_zero l) ∨
  (f32_pos (foldl f32_add a l) ∧ (f32_pos a ∨ Exists f32_pos l)).
Proof.
  intros Ha Hl. revert a Ha. induction Hl as [|x l Hx Hl IH]; intros a Ha; simpl.
  { destruct Ha; [left|right]; auto. }
  assert (Hs : (f32_is_zero (a + x) ∧ f32_is_zero a ∧ f32_is_zero x) ∨
               (f32_pos (a + x) ∧ (f32_pos a ∨ f32_pos x))).
  { destruct Ha as [[s ->]|Ha], Hx as [[s' ->]|Hx].
    - left. split; [destruct s, s'; eexists; done|]. split; eexists; done.
    - right. split; [|auto]. change (sf_pos 24 128 (SFadd 24 128 (S754_zero s) (sf x))).
      by rewrite SFadd_pos_r.
    - right. split; [|auto]. apply SFadd_pos_l; [done..|]. right. by eexists.
    - right. split; [|auto]. apply SFadd_pos_l; auto. done. }
  destruct Hs as [(Hs & ? & ?)|(Hs & Hp)].
  - destruct (IH (a + x)%f32) as [(?&?&?)|(? & [?|?])]; [by left| | |].
    + left. repeat split; auto.
    + exfalso. destruct Hs as [? Hs]. rewrite Hs in *. done.
    + right. split; [done|]. right. by apply Exists_cons_tl.
  - destruct (IH (a + x)%f32) as [(?&[? Hz]&?)|(? & ?)]; [by right| |].
    + rewrite Hz in Hs. done.
    + right. split; [done|]. destruct Hp; [by left|right; by apply Exists_cons_hd].
Qed.

Lemma f32_eqb_zero x : f32_is_zero x ∨ f32_pos x → (x =? f32_zero)%f32 = true ↔ f32_is_zero x.
Proof.
  intros [[s ->]|Hx]; [split; [by exists s|by destruct s]|].
  unfold f32_pos in Hx. split; [|intros [s ->]; done].
  unfold f32_eqb, SFeqb. destruct (sf x) as [|[]| |[] ? ?] eqn:?; done.
Qed.

#[export] Hint Resolve f32_nonneg_not_nan f32_finite_not_nan f32_leb_refl
  f32_add_nonneg f32_sum_nonneg f32_mul_self_nonneg f32_sqrt_nonneg : conflux.

(** Sorting floats: [sort_by(|a, b| a.partial_cmp(b).expect(..))].  A
    comparison sort looks at every element of a list of two or more, so it
    panics exactly when there is a NaN among them. *)
Definition nan_guard {E} (l : list f32) : outcome E () :=
  if (2 <=? Z.of_nat (length l)) && existsb f32_is_nan l then Panic else Ok ().

Definition f32_sort {E} (l : list f32) : outcome E (list f32) :=
  _ ← nan_guard l; Ok (sort_by f32_leb l).

Lemma nan_guard_ok {E} l : Forall not_nan l → nan_guard (E:=E) l = Ok ().
Proof.
  intros Hl. unfold nan_guard.
  assert (existsb f32_is_nan l = false) as ->; [|by rewrite andb_false_r].
  induction Hl as [|x l Hx _ IH]; simpl; [done|]. by rewrite Hx, IH.
Qed.

Lemma nan_guard_not_err {E} l (e : E) : nan_guard l ≠ Err e.
Proof. unfold nan_guard. by case_match. Qed.

Lemma f32_sort_ok {E} l :
  Forall not_nan l → f32_sort (E:=E) l = Ok (sort_by f32_leb l).
Proof. intros Hl. unfold f32_sort. by rewrite nan_guard_ok. Qed.

Lemma f32_sort_sorted l : Forall not_nan l → Sorted_by f32_leb (sort_by f32_leb l).
Proof.
  apply (sort_by_sorted f32_leb not_nan); eauto using f32_leb_total, f32_leb_trans.
Qed.

(** [iter().enumerate().min_by(..)] and [max_by(..)] over floats. *)
Definition arg_min {E} (l : list f32) : outcome E (option nat) :=
  _ ← nan_guard l; Ok (fst <$> min_by_opt (λ a b, negb (b.2 <=? a.2)%f32) (imap pair l)).
Definition arg_max {E} (l : list f32) : outcome E (option nat) :=
  _ ← nan_guard l; Ok (fst <$> max_by_opt (λ a b, (a.2 <? b.2)%f32) (imap pair l)).

Lemma elem_of_imap_pair {A} (l : list A) i x : (i, x) ∈ imap pair l ↔ l !! i = Some x.
Proof.
  rewrite list_elem_of_lookup. setoid_rewrite list_lookup_imap. split.
  - intros (j & Hj). destruct (l !! j) eqn:?; naive_solver.
  - intros Hl. exists i. by rewrite Hl.
Qed.

(** The least value, and the first of its positions. *)
Lemma arg_min_spec {E} l :
  Forall not_nan l → l ≠ [] →
  ∃ i s, arg_min (E:=E) l = Ok (Some i) ∧ l !! i = Some s ∧
    ∀ j t, l !! j = Some t → (s <=? t)%f32 = true ∧ ((j < i)%nat → (t <=? s)%f32 = false).
Proof.
  intros Hl Hne. unfold arg_min. rewrite nan_guard_ok by done. cbn [mbind outcome_bind].
  destruct (min_by_opt _ _) as [[i s]|] eqn:Hmin.
  2:{ destruct (min_by_opt_is_Some (λ a b : nat * f32, negb (b.2 <=? a.2)%f32) (imap pair l)) as [? Hx];
        [by destruct l|congruence]. }
  exists i, s. split; [done|].
  apply (min_by_opt_least (λ a b, (a.2 <=? b.2)%f32) (λ p, not_nan p.2)) in Hmin
    as (l1 & l2 & Hsplit & H1 & H2).
  - assert (Hi : i = length l1 ∧ l !! i = Some s).
    { assert (Hx : imap pair l !! length l1 = Some (i, s)) by (rewrite Hsplit; by apply list_lookup_middle).
      rewrite list_lookup_imap in Hx. destruct (l !! length l1) eqn:?; naive_solver. }
    destruct Hi as [-> Hs]. split; [done|]. intros j t Ht.
    assert (Hj : imap pair l !! j = Some (j, t)) by (by rewrite list_lookup_imap, Ht).
    rewrite Hsplit in Hj. rewrite Forall_forall in H1, H2. rewrite Forall_forall in Hl.
    destruct (decide (j < length l1)%nat) as [Hlt|Hge].
    + rewrite lookup_app_l in Hj by done. apply list_elem_of_lookup_2, H1 in Hj. simpl in Hj.
      split; [|done]. destruct (f32_leb_total s t); [by eapply Hl, list_elem_of_lookup_2..|done|congruence].
    + split; [|lia]. destruct (decide (j = length l1)) as [->|].
      * rewrite list_lookup_middle in Hj by done. simplify_eq. by eapply f32_leb_refl, Hl, list_elem_of_lookup_2.
      * rewrite lookup_app_r, lookup_cons_ne_0 in Hj by lia. by apply list_elem_of_lookup_2, H2 in Hj.
  - intros [] []. apply f32_leb_total.
  - intros [] [] []. apply f32_leb_trans.
  - rewrite Forall_forall. rewrite Forall_forall in Hl. intros [j t]. rewrite elem_of_imap_pair. simpl.
    intros Ht. by eapply Hl, list_elem_of_lookup_2.
Qed.

Lemma arg_max_in {E} l o : arg_max (E:=E) l = Ok o → ∀ i, o = Some i → (i < length l)%nat.
Proof.
  unfold arg_max. intros (? & _ & [= <-])%bind_ok_inv i.
  destruct (max_by_opt _ _) as [[j t]|] eqn:Hm; [|done]. intros [= <-].
  apply max_by_opt_in, elem_of_imap_pair in Hm. by apply lookup_lt_Some in Hm.
Qed.
