(* ===== verification/FloatInt.v ===== *)
(** * Integers held in an [f64]

    Every integer of at most 53 bits is an [f64] exactly: it has one normalised
    representation, subtraction of two of them is exact, and they compare as the
    integers do.  Clocks in milliseconds are such integers. *)

From S2P Require Import Prelude Float.

Open Scope Z_scope.

Lemma digits_unique z d : 0 < z → 0 < d → 2 ^ (d - 1) ≤ z < 2 ^ d → Zdigits2 z = d.
Proof.
  intros Hz Hd [Hlo Hhi]. apply Z.le_antisymm; [apply Zdigits2_le; lia|].
  pose proof (Zdigits2_bound z ltac:(lia)) as Hb.
  destruct (Z.le_gt_cases d (Zdigits2 z)) as [|Hlt]; [done|].
  assert (2 ^ Zdigits2 z ≤ 2 ^ (d - 1)) by (apply Z.pow_le_mono_r; lia). lia.
Qed.

Lemma digits_bounds z : 0 < z → 0 < Zdigits2 z ∧ 2 ^ (Zdigits2 z - 1) ≤ z < 2 ^ Zdigits2 z.
Proof.
  intros Hz. pose proof (Zdigits2_bound z ltac:(lia)). destruct z as [|p|]; [lia| |lia].
  pose proof (digits2_lower p). simpl in *. lia.
Qed.

Lemma digits_shift z j : 0 < z → 0 ≤ j → Zdigits2 (z * 2 ^ j) = Zdigits2 z + j.
Proof.
  intros Hz Hj. destruct (digits_bounds z Hz) as (Hd & Hlo & Hhi).
  assert (0 < 2 ^ j) by lia. apply digits_unique; [nia|lia|].
  replace (Zdigits2 z + j - 1) with ((Zdigits2 z - 1) + j) by lia.
  rewrite !Z.pow_add_r by lia. nia.
Qed.

(** ** Rounding an integer in any of its representations *)

Lemma shr_1_even c : shr_1 {| shr_m := c * 2; shr_r := false; shr_s := false |} = {| shr_m := c; shr_r := false; shr_s := false |}.
Proof. rewrite Z.mul_comm. by destruct c. Qed.

Lemma iter_shr_exact q c :
  iter_pos shr_1 q {| shr_m := c * 2 ^ Zpos q; shr_r := false; shr_s := false |} =
  {| shr_m := c; shr_r := false; shr_s := false |}.
Proof.
  revert c. induction q as [q IH|q IH|]; intros c; cbn [iter_pos].
  - replace (c * 2 ^ Zpos q~1) with (c * 2 ^ Zpos q * 2 ^ Zpos q * 2).
    + by rewrite shr_1_even, !IH.
    + replace (Zpos q~1) with (Zpos q + Zpos q + 1) by lia. rewrite !Z.pow_add_r by lia. ring.
  - replace (c * 2 ^ Zpos q~0) with (c * 2 ^ Zpos q * 2 ^ Zpos q).
    + by rewrite !IH.
    + replace (Zpos q~0) with (Zpos q + Zpos q) by lia. rewrite Z.pow_add_r by lia. ring.
  - rewrite Z.pow_1_r. apply shr_1_even.
Qed.

Lemma fexp_53 e : -1000 ≤ e → fexp 53 1024 e = e - 53.
Proof. unfold fexp, emin. lia. Qed.

Lemma shr_fexp_exact c q e :
  Zdigits2 c = 53 → 0 < c → 0 ≤ q → -1000 ≤ e + q →
  shr_fexp 53 1024 (c * 2 ^ q) e loc_Exact = ({| shr_m := c; shr_r := false; shr_s := false |}, e + q).
Proof.
  intros Hd Hc Hq He. unfold shr_fexp. rewrite digits_shift, Hd, fexp_53 by lia.
  replace (53 + q + e - 53 - e) with q by lia. destruct q as [|q|]; [| |lia]; simpl shr_record_of_loc; unfold shr.
  - by rewrite Z.pow_0_r, Z.mul_1_r, Z.add_0_r.
  - by rewrite iter_shr_exact.
Qed.

Lemma round_aux_exact s c q e :
  Zdigits2 (Zpos c) = 53 → 0 ≤ q → -1000 ≤ e + q ≤ 971 →
  binary_round_aux 53 1024 s (Zpos c * 2 ^ q) e loc_Exact = S754_finite s c (e + q).
Proof.
  intros Hd Hq He. unfold binary_round_aux. rewrite shr_fexp_exact by lia. cbn [shr_m loc_of_shr_record shr_r shr_s round_nearest_even].
  rewrite <-(Z.mul_1_r (Zpos c)) at 1. change 1 with (2 ^ 0) at 1. rewrite shr_fexp_exact by lia. cbn [shr_m].
  rewrite Z.add_0_r. by rewrite (proj2 (Z.leb_le _ _)) by lia.
Qed.

(** The mantissa an integer is normalised to. *)
Definition mantissa (p : positive) : positive := Z.to_pos (Zpos p * 2 ^ (53 - Zdigits2 (Zpos p))).

Definition small (z : Z) : Prop := - 2 ^ 53 < z < 2 ^ 53.

Lemma mantissa_spec p : small (Zpos p) →
  Zpos (mantissa p) = Zpos p * 2 ^ (53 - Zdigits2 (Zpos p)) ∧ Zdigits2 (Zpos (mantissa p)) = 53 ∧
  0 < Zdigits2 (Zpos p) ≤ 53.
Proof.
  intros [_ Hp]. destruct (digits_bounds (Zpos p)) as (Hd & _); [lia|].
  assert (Hle : Zdigits2 (Zpos p) ≤ 53) by (apply Zdigits2_le; lia).
  assert (Hm : Zpos (mantissa p) = Zpos p * 2 ^ (53 - Zdigits2 (Zpos p))).
  { unfold mantissa. rewrite Z2Pos.id; [done|]. assert (0 < 2 ^ (53 - Zdigits2 (Zpos p))) by lia. nia. }
  split; [done|]. split; [|lia]. rewrite Hm, digits_shift by lia. lia.
Qed.

Lemma shl_align_spec m e e' : e' ≤ e → shl_align m e e' = (Z.to_pos (Zpos m * 2 ^ (e - e')), e').
Proof.
  intros He. unfold shl_align. destruct (e' - e) as [|d|d] eqn:Hd; [|lia|].
  - replace e' with e by lia. by rewrite Z.sub_diag, Z.mul_1_r.
  - replace (e - e') with (Zpos d) by lia. f_equal. change (PosDef.Pos.iter xO m d) with (Pos.iter xO m d).
    clear. apply Pos2Z.inj. rewrite Z2Pos.id by (assert (0 < 2 ^ Zpos d) by lia; nia).
    induction d as [|d IH] using Pos.peano_ind; [rewrite Z.pow_1_r; simpl; lia|].
    rewrite Pos.iter_succ, Pos2Z.inj_succ, Z.pow_succ_r, Pos2Z.inj_xO, IH by lia. ring.
Qed.

(** Any representation [n * 2 ^ k] of an integer, with exponent [-k], rounds to the
    integer's own. *)
Lemma binary_round_int s p k : small (Zpos p) → 0 ≤ k →
  binary_round 53 1024 s (Z.to_pos (Zpos p * 2 ^ k)) (- k) =
  S754_finite s (mantissa p) (Zdigits2 (Zpos p) - 53).
Proof.
  intros Hp Hk. destruct (mantissa_spec p Hp) as (Hm & Hmd & Hd). unfold binary_round.
  assert (H2 : 0 < 2 ^ k) by lia. assert (Hpos : 0 < Zpos p * 2 ^ k) by nia.
  change (Zpos (digits2_pos (Z.to_pos (Zpos p * 2 ^ k)))) with (Zdigits2 (Zpos (Z.to_pos (Zpos p * 2 ^ k)))).
  rewrite Z2Pos.id, digits_shift, fexp_53 by lia.
  replace (Zdigits2 (Zpos p) + k + - k - 53) with (Zdigits2 (Zpos p) - 53) by lia.
  destruct (Z.le_gt_cases (Zdigits2 (Zpos p) - 53) (- k)) as [Hle|Hgt].
  - rewrite shl_align_spec by done. rewrite (Z2Pos.id (Zpos p * 2 ^ k)) by done.
    assert (Hz : Zpos p * 2 ^ k * 2 ^ (- k - (Zdigits2 (Zpos p) - 53)) = Zpos (mantissa p)).
    { rewrite Hm, <-Z.mul_assoc, <-Z.pow_add_r by lia. f_equal. f_equal. lia. }
    rewrite Hz. simpl Z.to_pos. rewrite <-(Z.mul_1_r (Zpos (mantissa p))). change 1 with (2 ^ 0).
    rewrite round_aux_exact by lia. by rewrite Z.add_0_r.
  - unfold shl_align. destruct (_ - - k) as [|q|] eqn:Hq; [lia| |lia].
    rewrite (Z2Pos.id (Zpos p * 2 ^ k)) by done.
    assert (Hz : Zpos p * 2 ^ k = Zpos (mantissa p) * 2 ^ Zpos q).
    { rewrite Hm, <-Z.mul_assoc, <-Z.pow_add_r by lia. f_equal. f_equal. lia. }
    rewrite Hz, round_aux_exact by lia. f_equal. lia.
Qed.

Lemma binary_normalize_int n k : small n → 0 ≤ k →
  binary_normalize 53 1024 (n * 2 ^ k) (- k) false = f64_of_Z n.
Proof.
  intros Hn Hk. assert (H2 : 0 < 2 ^ k) by lia. unfold f64_of_Z.
  assert (Hp : ∀ s p, small (Zpos p) → binary_round 53 1024 s p 0 = S754_finite s (mantissa p) (Zdigits2 (Zpos p) - 53)).
  { intros s p Hp. rewrite <-(binary_round_int s p 0) by done. by rewrite Z.pow_0_r, Z.mul_1_r. }
  destruct n as [|p|p]; [done| |].
  - destruct (Zpos p * 2 ^ k) as [|m|m] eqn:Hm; [nia| |nia]. simpl. rewrite Hp by done.
    rewrite <-(binary_round_int false p k) by done. by rewrite Hm.
  - assert (Hs : small (Zpos p)) by (unfold small in *; lia).
    destruct (Zneg p * 2 ^ k) as [|m|m] eqn:Hm; [nia|nia|]. simpl. rewrite Hp by done.
    rewrite <-(binary_round_int true p k) by done.
    replace (Zpos p * 2 ^ k) with (Zpos m) by lia. done.
Qed.

Lemma f64_of_Z_pos p : small (Zpos p) → f64_of_Z (Zpos p) = S754_finite false (mantissa p) (Zdigits2 (Zpos p) - 53).
Proof.
  intros Hp. rewrite <-(binary_round_int false p 0) by done. by rewrite Z.pow_0_r, Z.mul_1_r.
Qed.

Lemma f64_of_Z_neg p : small (Zpos p) → f64_of_Z (Zneg p) = S754_finite true (mantissa p) (Zdigits2 (Zpos p) - 53).
Proof.
  intros Hp. rewrite <-(binary_round_int true p 0) by done. by rewrite Z.pow_0_r, Z.mul_1_r.
Qed.

(** ** Subtraction and comparison *)

Lemma f64_sub_int a b : 0 ≤ a < 2 ^ 53 → 0 ≤ b < 2 ^ 53 → f64_sub (f64_of_Z a) (f64_of_Z b) = f64_of_Z (a - b).
Proof.
  intros Ha Hb. unfold f64_sub. destruct a as [|a|], b as [|b|]; try lia; [done|..].
  - rewrite f64_of_Z_pos by (unfold small; lia). change (0 - Zpos b) with (Zneg b).
    by rewrite f64_of_Z_neg by (unfold small; lia).
  - rewrite f64_of_Z_pos by (unfold small; lia). rewrite Z.sub_0_r. by rewrite f64_of_Z_pos by (unfold small; lia).
  - assert (Hsa : small (Zpos a)) by (unfold small; lia). assert (Hsb : small (Zpos b)) by (unfold small; lia).
    rewrite !f64_of_Z_pos by done.
    destruct (mantissa_spec a Hsa) as (Hma & _ & Hda), (mantissa_spec b Hsb) as (Hmb & _ & Hdb).
    cbn [SFsub]. set (k := 53 - Z.min (Zdigits2 (Zpos a)) (Zdigits2 (Zpos b))).
    replace (Z.min _ _) with (- k) by lia.
    rewrite !shl_align_spec by lia. cbn [fst cond_Zopp]. rewrite Hma, Hmb, <-!Z.mul_assoc, <-!Z.pow_add_r by lia.
    assert (Hk : ∀ z, 53 - Zdigits2 z + (Zdigits2 z - 53 - - k) = k) by lia. rewrite !Hk.
    assert (0 < 2 ^ k) by lia. rewrite !Z2Pos.id by nia. rewrite <-Z.mul_sub_distr_r.
    apply binary_normalize_int; [unfold small; lia|lia].
Qed.

Lemma f64_leb_int a b : 0 ≤ a < 2 ^ 53 → small b → SFleb (f64_of_Z a) (f64_of_Z b) = (a <=? b).
Proof.
  intros Ha Hb. unfold SFleb. destruct a as [|a|]; [|rewrite f64_of_Z_pos by (unfold small; lia)|lia].
  - destruct b as [|b|b]; [done|by rewrite f64_of_Z_pos|].
    by rewrite f64_of_Z_neg by (unfold small in *; lia).
  - destruct b as [|b|b]; [done| |by rewrite f64_of_Z_neg by (unfold small in *; lia)].
    rewrite f64_of_Z_pos by done. cbn [SFcompare].
    assert (Hsa : small (Zpos a)) by (unfold small in *; lia).
    destruct (mantissa_spec a Hsa) as (Hma & _ & Hda), (mantissa_spec b Hb) as (Hmb & _ & Hdb).
    destruct (digits_bounds (Zpos a) ltac:(lia)) as (_ & Hla & Hha), (digits_bounds (Zpos b) ltac:(lia)) as (_ & Hlb & Hhb).
    destruct (Z.compare_spec (Zdigits2 (Zpos a) - 53) (Zdigits2 (Zpos b) - 53)) as [He|Hlt|Hgt].
    + change (Pos.compare_cont Eq) with Pos.compare.
      assert (He' : Zdigits2 (Zpos a) = Zdigits2 (Zpos b)) by lia. rewrite He' in Hma.
      assert (0 < 2 ^ (53 - Zdigits2 (Zpos b))) by lia.
      destruct (Pos.compare_spec (mantissa a) (mantissa b)) as [H'|H'|H'].
      * rewrite H' in Hma. symmetry. apply Z.leb_le. nia.
      * symmetry. apply Z.leb_le. nia.
      * symmetry. apply Z.leb_gt. nia.
    + assert (2 ^ Zdigits2 (Zpos a) ≤ 2 ^ (Zdigits2 (Zpos b) - 1)) by (apply Z.pow_le_mono_r; lia).
      symmetry. apply Z.leb_le. lia.
    + assert (2 ^ Zdigits2 (Zpos b) ≤ 2 ^ (Zdigits2 (Zpos a) - 1)) by (apply Z.pow_le_mono_r; lia).
      symmetry. apply Z.leb_gt. lia.
Qed.

Lemma f64_of_Z_inj a b : 0 ≤ a < 2 ^ 53 → 0 ≤ b < 2 ^ 53 → f64_of_Z a = f64_of_Z b → a = b.
Proof.
  intros Ha Hb H. assert (Hs : small a ∧ small b) by (unfold small; lia). destruct Hs as [Hsa Hsb].
  pose proof (f64_leb_int a b Ha Hsb) as H1. pose proof (f64_leb_int b a Hb Hsa) as H2.
  rewrite H, (f64_leb_int b b Hb Hsb), Z.leb_refl in H1. rewrite <-H, (f64_leb_int a a Ha Hsa), Z.leb_refl in H2. lia.
Qed.
