(* ===== verification/Wire.v ===== *)
(** * The wire format ([conflux-proto]) and the submission stream ([conflux-net])

    The weight codec of [conflux-proto/src/lib.rs], the protobuf messages the
    other components exchange (the fields of [fl_transport.proto], which
    [build.rs] turns into Rust structs), and the collection of one client's
    chunk stream by [conflux-net/src/service.rs]. *)

From S2P Require Import Prelude Float.
From Stdlib Require Export Strings.Byte.

(** ** Bytes *)

Notation bytes := (list byte).

Definition byte_to_Z (b : byte) : Z := Z.of_N (Byte.to_N b).
Definition byte_of_Z (z : Z) : byte :=
  match Byte.of_N (Z.to_N (z mod 256)) with Some b => b | None => x00 end.

Lemma byte_to_Z_range b : 0 ≤ byte_to_Z b < 256.
Proof. unfold byte_to_Z. pose proof (Byte.to_N_bounded b). lia. Qed.

Lemma byte_of_to_Z b : byte_of_Z (byte_to_Z b) = b.
Proof.
  unfold byte_of_Z. pose proof (byte_to_Z_range b).
  rewrite Z.mod_small by done. unfold byte_to_Z. by rewrite N2Z.id, Byte.of_to_N.
Qed.

Lemma byte_to_of_Z z : byte_to_Z (byte_of_Z z) = z mod 256.
Proof.
  unfold byte_of_Z. pose proof (Z.mod_pos_bound z 256).
  destruct (Byte.of_N _) as [b|] eqn:Hb.
  - apply Byte.to_of_N in Hb. unfold byte_to_Z. rewrite Hb. lia.
  - apply Byte.of_N_None_iff in Hb. lia.
Qed.

(** [u32::to_le_bytes]/[from_le_bytes]. *)
Definition u32_to_le (z : Z) : bytes :=
  [byte_of_Z z; byte_of_Z (z / 2 ^ 8); byte_of_Z (z / 2 ^ 16); byte_of_Z (z / 2 ^ 24)].
Definition u32_from_le (b0 b1 b2 b3 : byte) : Z :=
  byte_to_Z b0 + byte_to_Z b1 * 2 ^ 8 + byte_to_Z b2 * 2 ^ 16 + byte_to_Z b3 * 2 ^ 24.

Lemma u32_from_le_range b0 b1 b2 b3 : is_u32 (u32_from_le b0 b1 b2 b3).
Proof.
  unfold is_u32, u32_from_le. pose proof (byte_to_Z_range b0). pose proof (byte_to_Z_range b1).
  pose proof (byte_to_Z_range b2). pose proof (byte_to_Z_range b3). lia.
Qed.

Lemma u32_to_from_le b0 b1 b2 b3 : u32_to_le (u32_from_le b0 b1 b2 b3) = [b0; b1; b2; b3].
Proof.
  unfold u32_to_le, u32_from_le.
  pose proof (byte_to_Z_range b0). pose proof (byte_to_Z_range b1).
  pose proof (byte_to_Z_range b2). pose proof (byte_to_Z_range b3).
  assert (Hof : ∀ z b, z mod 256 = byte_to_Z b → byte_of_Z z = b).
  { intros z b Hz. rewrite <-(byte_of_to_Z b), <-Hz. unfold byte_of_Z. by rewrite Zmod_mod. }
  repeat f_equal; apply Hof; Z.to_euclidean_division_equations; lia.
Qed.

Lemma u32_from_to_le z :
  is_u32 z →
  ∃ b0 b1 b2 b3, u32_to_le z = [b0; b1; b2; b3] ∧ u32_from_le b0 b1 b2 b3 = z.
Proof.
  intros Hz. eexists _, _, _, _. split; [done|].
  unfold u32_from_le. rewrite !byte_to_of_Z. unfold is_u32 in Hz.
  Z.to_euclidean_division_equations; lia.
Qed.

(** ** The weight codec *)

Definition f32_to_le (w : f32) : bytes := u32_to_le (f32_to_bits w).

Inductive WeightsCodecError : Type :=
  | Malformed (len : nat).

Definition encode_weights (weights : list f32) : bytes :=
  foldl (λ acc w, acc ++ f32_to_le w) [] weights.

(** [as_chunks::<4>().0]: the complete groups of four. *)
Fixpoint as_chunks_4 (b : bytes) : list f32 :=
  match b with
  | b0 :: b1 :: b2 :: b3 :: b' => f32_from_bits (u32_from_le b0 b1 b2 b3) :: as_chunks_4 b'
  | _ => []
  end.

Definition decode_weights (b : bytes) : outcome WeightsCodecError (list f32) :=
  if decide (length b mod 4 = 0)%nat then Ok (as_chunks_4 b)
  else Err (Malformed (length b)).

Lemma encode_weights_concat ws : encode_weights ws = concat (f32_to_le <$> ws).
Proof.
  unfold encode_weights.
  assert (∀ acc, foldl (λ acc w, acc ++ f32_to_le w) acc ws = acc ++ concat (f32_to_le <$> ws)) as H.
  { induction ws as [|w ws IH]; intros acc; simpl; [by rewrite app_nil_r|].
    by rewrite IH, <-app_assoc. }
  apply H.
Qed.

Lemma encode_weights_cons w ws : encode_weights (w :: ws) = f32_to_le w ++ encode_weights ws.
Proof. by rewrite !encode_weights_concat. Qed.

Lemma length_encode_weights ws : length (encode_weights ws) = (length ws * 4)%nat.
Proof.
  induction ws as [|w ws IH]; [done|].
  rewrite encode_weights_cons, length_app, IH. done.
Qed.

(** Induction over the groups of four bytes. *)
Lemma bytes_ind_4 (P : list byte → Prop) :
  (∀ b, (length b < 4)%nat → P b) →
  (∀ b0 b1 b2 b3 b, P b → P (b0 :: b1 :: b2 :: b3 :: b)) →
  ∀ b : list byte, P b.
Proof.
  intros Hs Hc b. remember (length b) as n eqn:Hn. revert b Hn.
  induction (lt_wf n) as [n _ IH]. intros b ->.
  destruct b as [|b0 [|b1 [|b2 [|b3 b]]]]; try (apply Hs; simpl; lia).
  apply Hc. eapply IH; [|done]. simpl. lia.
Qed.

Lemma as_chunks_4_encode ws : Forall f32_wf ws → as_chunks_4 (encode_weights ws) = ws.
Proof.
  induction 1 as [|w ws Hw _ IH]; [done|].
  rewrite encode_weights_cons. unfold f32_to_le.
  destruct (u32_from_to_le (f32_to_bits w)) as (b0&b1&b2&b3&->&Hb);
    [by apply f32_to_bits_range|].
  simpl. by rewrite IH, Hb, f32_from_to_bits.
Qed.

Lemma mod_add_4 n : ((4 + n) mod 4 = n mod 4)%nat.
Proof. replace (4 + n)%nat with (n + 1 * 4)%nat by lia. apply Nat.Div0.mod_add. Qed.

Lemma encode_as_chunks_4 (b : list byte) :
  (length b mod 4 = 0)%nat → encode_weights (as_chunks_4 b) = b.
Proof.
  induction b as [b Hb|b0 b1 b2 b3 b IH] using bytes_ind_4.
  - rewrite Nat.mod_small by done. by destruct b.
  - intros Hl. simpl as_chunks_4. rewrite encode_weights_cons. unfold f32_to_le.
    rewrite f32_to_from_bits by apply u32_from_le_range.
    rewrite u32_to_from_le, IH; [done|].
    etransitivity; [symmetry; apply mod_add_4 | exact Hl].
Qed.

Lemma as_chunks_4_wf (b : list byte) : Forall f32_wf (as_chunks_4 b).
Proof.
  induction b as [b Hb|b0 b1 b2 b3 b IH] using bytes_ind_4.
  - destruct b as [|? [|? [|? [|]]]]; simpl in *; try constructor; lia.
  - constructor; [apply f32_from_bits_wf | done].
Qed.

Lemma decode_encoded ws : Forall f32_wf ws → decode_weights (encode_weights ws) = Ok ws.
Proof.
  intros Hws. unfold decode_weights. rewrite length_encode_weights, Nat.Div0.mod_mul. simpl.
  by rewrite as_chunks_4_encode.
Qed.

(** ** Messages *)

Record TaskResponse := {
  task_id : string;
  task_round : Z;
  model_weights : bytes;
  task_control_variate : option bytes;
}.

Record DeltaChunk := {
  chunk_client_id : string;
  chunk_round : Z;
  chunk_index : Z;
  total_chunks : Z;
  chunk_data : bytes;
  chunk_num_samples : Z;
  chunk_local_steps : option Z;
  chunk_control_variate : option bytes;
  chunk_local_loss : option f32;
}.

Record ClientDelta := {
  client_id : string;
  delta_round : Z;
  weights : bytes;
  num_samples : Z;
  local_steps : option Z;
  control_variate : option bytes;
  local_loss : option f32;
}.

Record RegisterResponse := { reg_accepted : bool; reg_message : string }.
Record HeartbeatResponse := { acknowledged : bool }.
Record SubmitAck := { ack_accepted : bool; ack_message : string }.

(** ** Collecting a submission stream ([FlTransportService::submit_delta]) *)

Inductive DispatchError : Type :=
  | UnknownClient (id : string)
  | NotAllowed (id : string)
  | Unauthenticated (msg : string)
  | RoundClosed
  | UpdateTooLarge (client_id : string) (limit_bytes received_bytes : Z)
  | OtherError (msg : string).

Definition DEFAULT_MAX_UPDATE_BYTES : Z := 256 * 1024 * 1024.

Definition chunk_bytes (c : DeltaChunk) : Z :=
  Z.of_nat (length (chunk_data c)) +
  match chunk_control_variate c with Some cv => Z.of_nat (length cv) | None => 0 end.

Definition u64_saturating_add (a b : Z) : Z := Z.min u64_max (a + b).

(** The loop over the stream's messages: the running byte count and the
    chunks kept so far. *)
Fixpoint collect_chunks (max_update_bytes received_bytes : Z) (chunks stream : list DeltaChunk)
    : outcome DispatchError (list DeltaChunk) :=
  match stream with
  | [] => Ok chunks
  | chunk :: rest =>
      let received_bytes := u64_saturating_add received_bytes (chunk_bytes chunk) in
      if max_update_bytes <? received_bytes
      then Err (UpdateTooLarge (chunk_client_id chunk) max_update_bytes received_bytes)
      else collect_chunks max_update_bytes received_bytes (chunks ++ [chunk]) rest
  end.

(** The payload bytes of a list of chunks. *)
Definition total_bytes (cs : list DeltaChunk) : Z :=
  foldr (λ c n, chunk_bytes c + n) 0 cs.

Lemma chunk_bytes_nonneg c : 0 ≤ chunk_bytes c.
Proof. unfold chunk_bytes. case_match; lia. Qed.

Lemma total_bytes_nonneg cs : 0 ≤ total_bytes cs.
Proof. induction cs as [|c cs IH]; simpl; [lia|]. pose proof (chunk_bytes_nonneg c). lia. Qed.

Lemma total_bytes_app cs cs' : total_bytes (cs ++ cs') = total_bytes cs + total_bytes cs'.
Proof. induction cs as [|c cs IH]; simpl; [done|]. rewrite IH. lia. Qed.

Lemma total_bytes_perm cs cs' : cs ≡ₚ cs' → total_bytes cs = total_bytes cs'.
Proof. induction 1; simpl; lia. Qed.

Lemma collect_chunks_spec max r acc stream :
  0 ≤ r ≤ max → max < u64_max →
  match collect_chunks max r acc stream with
  | Ok cs => cs = acc ++ stream ∧ r + total_bytes stream ≤ max
  | Err e => ∃ pre c post, stream = pre ++ c :: post ∧
      r + total_bytes pre ≤ max < r + total_bytes (pre ++ [c]) ∧
      ∃ n, e = UpdateTooLarge (chunk_client_id c) max n
  | Panic => False
  end.
Proof.
  intros Hr Hmax. revert r acc Hr. induction stream as [|c stream IH]; intros r acc Hr; simpl.
  { rewrite app_nil_r. split; [done|lia]. }
  pose proof (chunk_bytes_nonneg c).
  destruct (max <? _) eqn:Hlt; unfold u64_saturating_add in *.
  - exists [], c, stream. simpl. split; [done|]. split; [lia|eauto].
  - replace (Z.min u64_max (r + chunk_bytes c)) with (r + chunk_bytes c) in * by lia.
    specialize (IH (r + chunk_bytes c) (acc ++ [c]) ltac:(lia)).
    destruct (collect_chunks _ _ _ _) as [cs|e|]; [| |done].
    + destruct IH as [-> ?]. rewrite <-app_assoc. split; [done|lia].
    + destruct IH as (pre & c' & post & -> & ? & n & ->).
      exists (c :: pre), c', post. simpl. split; [done|]. split; [lia|eauto].
Qed.

(** A chunk's own fields do not count: any number of chunks without payload, each
    with a client id of any length, is kept under every limit. *)
Lemma payloadless_chunks_are_uncounted (chunk : DeltaChunk) (max : Z) (n : nat) :
  chunk_bytes chunk = 0 → 0 ≤ max < u64_max →
  collect_chunks max 0 [] (replicate n chunk) = Ok (replicate n chunk).
Proof.
  intros Hc Hmax. pose proof (collect_chunks_spec max 0 [] (replicate n chunk) ltac:(lia) ltac:(lia)) as H.
  assert (Ht : ∀ cs, Forall (λ c, chunk_bytes c = 0) cs → total_bytes cs = 0).
  { induction 1 as [|c cs Hz _ IH]; simpl; [done|]. by rewrite Hz, IH. }
  assert (Hall : Forall (λ c, chunk_bytes c = 0) (replicate n chunk)) by by apply Forall_replicate.
  destruct (collect_chunks _ _ _ _) as [cs|e|]; [by destruct H as [-> _]| |done].
  destruct H as (pre & c & post & Heq & [_ Hlt] & _). rewrite Heq in Hall.
  replace (pre ++ c :: post) with ((pre ++ [c]) ++ post) in Hall by (by rewrite <-app_assoc).
  apply Forall_app in Hall as [Hall _]. rewrite (Ht _ Hall) in Hlt. lia.
Qed.

(** ** Properties *)

(** The weight codec loses nothing in either direction: well-formed weights decode back, any accepted buffer re-encodes to itself (NaN payloads included), and decoding never panics. *)
Theorem decode_encode_weights (ws : list f32) (b : bytes) :
  (Forall f32_wf ws → decode_weights (encode_weights ws) = Ok ws) ∧
  (∀ ws', decode_weights b = Ok ws' → encode_weights ws' = b) ∧
  decode_weights b ≠ Panic.
Proof.
  split; [apply decode_encoded|]. unfold decode_weights. split.
  - intros ws'. case_decide; [|done]. intros [= <-]. by apply encode_as_chunks_4.
  - by case_decide.
Qed.
