(* ===== verification/Buffer.v ===== *)
(** * The round buffer ([conflux-buffer/src/lib.rs])

    [RoundBuffer] collects one round's deltas behind a mutex and wakes the one
    flusher through a [tokio::sync::Notify].  The sequential operations are
    functions on the mutex's contents; their interleavings are the step
    relation [step], one step per critical section, notification or clock
    read.  [Notify] is code outside the repository, so it is an interface. *)

From S2P Require Import Prelude Float Wire.

(** ** The notification primitive

    [poll_notified n] is [Some n'] when a waiting [notified()] completes,
    leaving [n'].  What the buffer relies on is that a [notify_one] is
    remembered until a waiter takes it. *)
Class Notify := {
  notify_state : Type;
  notify_new : notify_state;
  notify_one : notify_state → notify_state;
  poll_notified : notify_state → option notify_state;
}.

Class NotifyLaws (N : Notify) := {
  notify_one_stores : ∀ n, is_Some (poll_notified (notify_one n));
}.

(** ** Data *)

Inductive BufferError : Type :=
  | WrongRound (expected got : Z)
  | BufClosed.

Inductive FlushReason : Type := Quorum | Timeout.

#[export] Instance FlushReason_eq_dec : EqDecision FlushReason.
Proof. solve_decision. Defined.

Record FlushResult := {
  flush_round : Z;
  flush_reason : FlushReason;
  flush_deltas : list ClientDelta;
}.

Inductive BufferState : Type :=
  | Open (deltas : list ClientDelta)
  | Closed.

Section buffer.
Context {N : Notify} {NL : NotifyLaws N}.

Record RoundBuffer := {
  buf_round : Z;
  buf_quorum : nat;
  buf_state : BufferState;
  buf_notify : notify_state;
}.

Definition with_state (s : BufferState) (b : RoundBuffer) : RoundBuffer :=
  {| buf_round := buf_round b; buf_quorum := buf_quorum b;
     buf_state := s; buf_notify := buf_notify b |}.
Definition with_notify (n : notify_state) (b : RoundBuffer) : RoundBuffer :=
  {| buf_round := buf_round b; buf_quorum := buf_quorum b;
     buf_state := buf_state b; buf_notify := n |}.

Definition buffer_new (round : Z) (quorum : nat) : RoundBuffer :=
  {| buf_round := round; buf_quorum := quorum;
     buf_state := Open []; buf_notify := notify_new |}.

(** ** Operations *)

(** [push] up to the end of its critical section. *)
Definition push_locked (delta : ClientDelta) (b : RoundBuffer) : outcome BufferError RoundBuffer :=
  if decide (delta_round delta = buf_round b) then
    match buf_state b with
    | Open deltas => Ok (with_state (Open (deltas ++ [delta])) b)
    | Closed => Err BufClosed
    end
  else Err (WrongRound (buf_round b) (delta_round delta)).

(** ... and the notification that follows it. *)
Definition push_notify (b : RoundBuffer) : RoundBuffer :=
  with_notify (notify_one (buf_notify b)) b.

Definition push (delta : ClientDelta) (b : RoundBuffer) : outcome BufferError RoundBuffer :=
  push_notify <$> push_locked delta b.

Definition close_if_quorum_met {E} (b : RoundBuffer) : outcome E (option (list ClientDelta) * RoundBuffer) :=
  let quorum_met := match buf_state b with
                    | Open deltas => buf_quorum b <=? length deltas
                    | Closed => false
                    end%nat in
  if negb quorum_met then Ok (None, b)
  else match buf_state b with
       | Open deltas => Ok (Some deltas, with_state Closed b)
       | Closed => Panic
       end.

Definition close_and_take (b : RoundBuffer) : list ClientDelta * RoundBuffer :=
  (match buf_state b with Open deltas => deltas | Closed => [] end, with_state Closed b).

(** ** Interleavings *)

(** Where the one [await_flush] call is: at the top of its loop, past a failed
    quorum check, waiting in [timeout(remaining, notified())], or returned. *)
Inductive flusher : Type :=
  | FCheck
  | FDeadline
  | FWait
  | FDone (r : FlushResult)
  | FPanic.

(** Where one client's [push] is. *)
Inductive pusher : Type :=
  | PReady (d : ClientDelta)
  | PNotify (d : ClientDelta)
  | POk (d : ClientDelta)
  | PErr (d : ClientDelta) (e : BufferError).

Record conf := {
  c_buf : RoundBuffer;
  c_now : Z;
  c_deadline : Z;
  c_flusher : flusher;
  c_pushers : list pusher;
}.

(** The flusher's own steps; [remaining] is [deadline] less [now], saturating. *)
Definition flush_check (b : RoundBuffer) : flusher * RoundBuffer :=
  match close_if_quorum_met (E:=Empty_set) b with
  | Ok (Some batch, b') =>
      (FDone {| flush_round := buf_round b; flush_reason := Quorum; flush_deltas := batch |}, b')
  | Ok (None, b') => (FDeadline, b')
  | Err _ | Panic => (FPanic, b)
  end.

Definition flush_deadline (now deadline : Z) (b : RoundBuffer) : flusher * RoundBuffer :=
  let remaining := u64_saturating_sub deadline now in
  if remaining =? 0 then
    let '(batch, b') := close_and_take b in
    (FDone {| flush_round := buf_round b; flush_reason := Timeout; flush_deltas := batch |}, b')
  else (FWait, b).

Inductive step : conf → conf → Prop :=
  | step_push_locked b now dl f ps i d :
      ps !! i = Some (PReady d) →
      step (Build_conf b now dl f ps)
        match push_locked d b with
        | Ok b' => Build_conf b' now dl f (<[i := PNotify d]> ps)
        | Err e => Build_conf b now dl f (<[i := PErr d e]> ps)
        | Panic => Build_conf b now dl f ps
        end
  | step_push_notify b now dl f ps i d :
      ps !! i = Some (PNotify d) →
      step (Build_conf b now dl f ps)
           (Build_conf (push_notify b) now dl f (<[i := POk d]> ps))
  | step_flush_check b now dl ps :
      step (Build_conf b now dl FCheck ps)
           (Build_conf (flush_check b).2 now dl (flush_check b).1 ps)
  | step_flush_deadline b now dl ps :
      step (Build_conf b now dl FDeadline ps)
           (Build_conf (flush_deadline now dl b).2 now dl (flush_deadline now dl b).1 ps)
  | step_flush_notified b now dl ps n' :
      poll_notified (buf_notify b) = Some n' →
      step (Build_conf b now dl FWait ps) (Build_conf (with_notify n' b) now dl FCheck ps)
  | step_flush_elapsed b now dl ps :
      dl ≤ now →
      step (Build_conf b now dl FWait ps) (Build_conf b now dl FCheck ps)
  | step_tick b now now' dl f ps :
      now ≤ now' →
      step (Build_conf b now dl f ps) (Build_conf b now' dl f ps).

(** [await_flush] first computes its deadline, which panics when the sum does not fit an
    [Instant]. *)
Definition await_deadline {E} (now timeout : Z) : outcome E Z := instant_add now timeout.

(** With a deadline, it waits: a round opens with an empty buffer, the flusher at the top
    of its loop and any number of clients about to push. *)
Definition initial (round : Z) (quorum : nat) (now deadline : Z) (ds : list ClientDelta) : conf :=
  {| c_buf := buffer_new round quorum; c_now := now; c_deadline := deadline;
     c_flusher := FCheck; c_pushers := PReady <$> ds |}.

(** The deltas whose push went through its critical section successfully. *)
Definition accepted_of (p : pusher) : option ClientDelta :=
  match p with PNotify d | POk d => Some d | _ => None end.
Definition accepted (ps : list pusher) : list ClientDelta := omap accepted_of ps.

(** ** Invariant *)

Definition held (c : conf) : list ClientDelta :=
  match buf_state (c_buf c) with
  | Open ds => ds
  | Closed => match c_flusher c with FDone r => flush_deltas r | _ => [] end
  end.

Definition quorum_reached (b : RoundBuffer) : Prop :=
  match buf_state b with Open ds => (buf_quorum b ≤ length ds)%nat | Closed => False end.

Record inv (round : Z) (quorum : nat) (c : conf) : Prop := {
  inv_round : buf_round (c_buf c) = round;
  inv_quorum : buf_quorum (c_buf c) = quorum;
  inv_closed : buf_state (c_buf c) = Closed ↔ ∃ r, c_flusher c = FDone r;
  inv_held : held c ≡ₚ accepted (c_pushers c);
  inv_rounds : Forall (λ d, delta_round d = round) (held c);
  inv_result : ∀ r, c_flusher c = FDone r →
    flush_round r = round ∧
    (flush_reason r = Quorum → (quorum ≤ length (flush_deltas r))%nat) ∧
    (flush_reason r = Timeout → c_deadline c ≤ c_now c);
  inv_no_panic : c_flusher c ≠ FPanic;
  inv_awake : c_flusher c = FDeadline ∨ c_flusher c = FWait → quorum_reached (c_buf c) →
    is_Some (poll_notified (buf_notify (c_buf c))) ∨ ∃ i d, c_pushers c !! i = Some (PNotify d);
}.

Lemma accepted_insert_same ps i p p' :
  ps !! i = Some p → accepted_of p = accepted_of p' →
  accepted (<[i := p']> ps) = accepted ps.
Proof.
  revert i. induction ps as [|q ps IH]; intros [|i] Hi Hp; simplify_eq/=.
  - unfold accepted. simpl. by rewrite Hp.
  - unfold accepted in *. simpl. rewrite (IH i); done.
Qed.

Lemma accepted_insert_new ps i d :
  ps !! i = Some (PReady d) → accepted (<[i := PNotify d]> ps) ≡ₚ accepted ps ++ [d].
Proof.
  revert i. induction ps as [|q ps IH]; intros [|i] Hi; simplify_eq/=; unfold accepted in *; simpl.
  - by rewrite Permutation_app_comm.
  - case_match; simpl; rewrite (IH i); done.
Qed.

Lemma accepted_ready ds : accepted (PReady <$> ds) = [].
Proof. induction ds as [|d ds IH]; [done|]. apply IH. Qed.

Lemma inv_initial round quorum now deadline ds :
  inv round quorum (initial round quorum now deadline ds).
Proof.
  split; simpl; try done.
  - split; [done | by intros [? ?]].
  - unfold held. simpl. by rewrite accepted_ready.
  - by intros [|].
Qed.

Lemma held_open b now dl f ps ds :
  buf_state b = Open ds → held (Build_conf b now dl f ps) = ds.
Proof. unfold held. simpl. by intros ->. Qed.

Lemma inv_push_locked round quorum b now dl f ps i d :
  ps !! i = Some (PReady d) → inv round quorum (Build_conf b now dl f ps) →
  inv round quorum match push_locked d b with
        | Ok b' => Build_conf b' now dl f (<[i := PNotify d]> ps)
        | Err e => Build_conf b now dl f (<[i := PErr d e]> ps)
        | Panic => Build_conf b now dl f ps
        end.
Proof.
  intros Hi [Hr Hq Hc Hh Hrs Hres Hp Ha]. simpl in *.
  assert (Herr : ∀ e, inv round quorum (Build_conf b now dl f (<[i := PErr d e]> ps))).
  { intros e. split; simpl; try done.
    - by rewrite (accepted_insert_same _ _ (PReady d)).
    - intros Hf Hqr. destruct (Ha Hf Hqr) as [?|(j & d' & Hj)]; [by left|right].
      exists j, d'. rewrite list_lookup_insert_ne; [done|congruence]. }
  unfold push_locked. case_decide as Hd; [|apply Herr].
  destruct (buf_state b) as [ds|] eqn:Hs; [|apply Herr].
  rewrite (held_open _ _ _ _ _ _ Hs) in *.
  assert (Hlt : (i < length ps)%nat) by by eapply lookup_lt_Some.
  split; simpl; try done.
  - split; [done|]. by intros Hf%Hc.
  - rewrite accepted_insert_new, <-Hh by done. done.
  - unfold held; simpl. apply Forall_app. split; [done|]. repeat constructor. congruence.
  - intros _ _. right. exists i, d. by apply list_lookup_insert_eq.
Qed.

(** While the flusher has not returned, the buffer is open and holds what was
    accepted. *)
Ltac open_buffer b Hc Hh Hrs :=
  destruct (buf_state b) as [ds|] eqn:Hs; [|exfalso; by destruct Hc as [[? ?] _]];
  unfold held in Hh, Hrs; simpl in Hh, Hrs; rewrite Hs in Hh, Hrs.

Lemma inv_step round quorum c c' : inv round quorum c → step c c' → inv round quorum c'.
Proof.
  intros Hinv Hstep. destruct Hstep as
    [b now dl f ps i d Hi|b now dl f ps i d Hi|b now dl ps|b now dl ps|b now dl ps n' Hn
    |b now dl ps Hdl|b now now' dl f ps Hle].
  1: by apply inv_push_locked.
  all: destruct Hinv as [Hr Hq Hc Hh Hrs Hres Hp Ha]; simpl in *.
  - split; simpl; try done.
    + by rewrite (accepted_insert_same _ _ (PNotify d)).
    + intros _ _. left. apply notify_one_stores.
  - unfold flush_check, close_if_quorum_met.
    open_buffer b Hc Hh Hrs.
    destruct (buf_quorum b <=? length ds)%nat eqn:Hle; simpl.
    + split; simpl; try done; [by split; eauto|].
      intros r [= <-]. simpl. split; [done|]. split; [|done].
      intros _. rewrite <-Hq. by apply Nat.leb_le.
    + split; simpl; try done.
      * rewrite Hs. split; [done|by intros [? ?]].
      * unfold held. simpl. by rewrite Hs.
      * unfold held. simpl. by rewrite Hs.
      * unfold quorum_reached. rewrite Hs. apply Nat.leb_gt in Hle. lia.
  - unfold flush_deadline, close_and_take.
    open_buffer b Hc Hh Hrs.
    destruct (u64_saturating_sub dl now =? 0) eqn:Hz; simpl.
    + split; simpl; try done; [by split; eauto|].
      intros r [= <-]. simpl. split; [done|]. split; [done|].
      unfold u64_saturating_sub in Hz. lia.
    + split; simpl; try done.
      * rewrite Hs. split; [done|by intros [? ?]].
      * unfold held. simpl. by rewrite Hs.
      * unfold held. simpl. by rewrite Hs.
      * auto.
  - open_buffer b Hc Hh Hrs.
    split; simpl; unfold held; simpl; rewrite ?Hs; try done.
    + split; [done|by intros [? ?]].
    + by intros [|].
  - open_buffer b Hc Hh Hrs.
    split; simpl; unfold held; simpl; rewrite ?Hs; try done.
    + split; [done|by intros [? ?]].
    + by intros [|].
  - split; simpl; try done.
    intros r Hf. destruct (Hres r Hf) as (?&?&Ht). split; [done|]. split; [done|].
    intros Hrt. specialize (Ht Hrt). lia.
Qed.

Lemma inv_reachable round quorum now deadline ds c :
  rtc step (initial round quorum now deadline ds) c → inv round quorum c.
Proof.
  intros Hrtc. cut (inv round quorum (initial round quorum now deadline ds)).
  { induction Hrtc as [|c1 c2 c3 Hstep _ IH]; [done|]. eauto using inv_step. }
  apply inv_initial.
Qed.

(** Every step of the flusher at or after its deadline leads to its return. *)
Lemma flusher_returns round quorum c :
  inv round quorum c → c_deadline c ≤ c_now c →
  ∃ c' r, rtc step c c' ∧ c_flusher c' = FDone r ∧ c_now c' = c_now c.
Proof.
  destruct c as [b now dl f ps]. simpl. intros Hinv Hdl.
  assert (Hdead : ∃ c' r, rtc step (Build_conf b now dl FDeadline ps) c' ∧
                          c_flusher c' = FDone r ∧ c_now c' = now).
  { eexists _, _. split; [apply rtc_once, step_flush_deadline|]. simpl.
    unfold flush_deadline, u64_saturating_sub.
    assert ((0 `max` (dl - now) =? 0) = true) as -> by lia. done. }
  assert (Hchk : ∃ c' r, rtc step (Build_conf b now dl FCheck ps) c' ∧
                          c_flusher c' = FDone r ∧ c_now c' = now).
  { assert (Hs : step (Build_conf b now dl FCheck ps) _) by apply step_flush_check.
    unfold flush_check, close_if_quorum_met in Hs.
    destruct (buf_state b) as [ds|] eqn:Hbs; simpl in Hs.
    - destruct (buf_quorum b <=? length ds)%nat; simpl in Hs.
      + eexists _, _. split; [by apply rtc_once|]. done.
      + destruct Hdead as (c' & r & Hr & ? & ?). exists c', r. eauto using rtc_l.
    - destruct Hdead as (c' & r & Hr & ? & ?). exists c', r. eauto using rtc_l. }
  destruct f as [| | |r|]; [done|done| |by eauto using rtc_refl|].
  - destruct Hchk as (c' & r & Hr & ? & ?). exists c', r.
    split; [|done]. eapply rtc_l; [|exact Hr]. by apply step_flush_elapsed.
  - by destruct (inv_no_panic _ _ _ Hinv).
Qed.

(** ** Properties *)

(** C18: in every interleaving of pushes, notifications and clock ticks, the
    batch [await_flush] returns is exactly the deltas whose push succeeded (none
    lost, none added), all of them for this buffer's round; a quorum flush holds
    at least the quorum and a timeout flush happens at or after the deadline;
    the [unreachable!] branch is never taken. *)
Theorem flush_is_exactly_accepted round quorum now deadline ds c :
  rtc step (initial round quorum now deadline ds) c →
  c_flusher c ≠ FPanic ∧
  ∀ r, c_flusher c = FDone r →
    flush_deltas r ≡ₚ accepted (c_pushers c) ∧
    Forall (λ d, delta_round d = round) (flush_deltas r) ∧
    flush_round r = round ∧
    (flush_reason r = Quorum → (quorum ≤ length (flush_deltas r))%nat) ∧
    (flush_reason r = Timeout → c_deadline c ≤ c_now c).
Proof.
  intros Hinv%inv_reachable. split; [by eapply inv_no_panic|]. intros r Hr.
  assert (Hc : buf_state (c_buf c) = Closed) by (apply (inv_closed _ _ _ Hinv); eauto).
  pose proof (inv_held _ _ _ Hinv) as Hh. pose proof (inv_rounds _ _ _ Hinv) as Hrs.
  unfold held in Hh, Hrs. rewrite Hc, Hr in Hh, Hrs.
  destruct (inv_result _ _ _ Hinv r Hr) as (?&?&?). done.
Qed.

(** C19: no lost wakeup.  Whenever the flusher waits while the quorum is met and
    every successful push has issued its notification, the flusher can wake
    and return a quorum flush without the clock advancing. *)
Theorem quorum_wakes_flusher round quorum now deadline ds c :
  rtc step (initial round quorum now deadline ds) c →
  c_flusher c = FWait → quorum_reached (c_buf c) →
  (∀ i d, c_pushers c !! i ≠ Some (PNotify d)) →
  ∃ c1 c2 r, step c c1 ∧ step c1 c2 ∧ c_now c2 = c_now c ∧
    c_flusher c2 = FDone r ∧ flush_reason r = Quorum ∧
    flush_deltas r ≡ₚ accepted (c_pushers c).
Proof.
  intros Hinv%inv_reachable Hw Hq Hp.
  destruct (inv_awake _ _ _ Hinv) as [[n' Hn]|(i & d & Hi)]; [by right|done| |by destruct (Hp i d)].
  pose proof (inv_held _ _ _ Hinv) as Hh.
  destruct c as [b cnow dl f ps]. simpl in *. subst f.
  unfold quorum_reached in Hq. unfold held in Hh. simpl in Hh.
  destruct (buf_state b) as [ds'|] eqn:Hs; [|done].
  eexists _, _, _. split; [by apply step_flush_notified|].
  split; [apply step_flush_check|].
  unfold flush_check, close_if_quorum_met. simpl. rewrite Hs.
  apply Nat.leb_le in Hq. rewrite Hq. done.
Qed.

Lemma step_deadline c c' : rtc step c c' → c_deadline c' = c_deadline c.
Proof. induction 1 as [|c1 c2 c3 Hs _ IH]; [done|]. rewrite IH. destruct Hs; try done. by case_match. Qed.

(** C20: [await_flush] returns.  When its deadline fits an [Instant] the wait ends by it:
    from every reachable state in which the timeout has passed since the call, the flusher
    reaches its result by its own steps, whatever the clients do. *)
Theorem await_flush_returns_by_deadline round quorum now timeout deadline ds c :
  await_deadline (E:=Empty_set) now timeout = Ok deadline →
  rtc step (initial round quorum now deadline ds) c → now + timeout ≤ c_now c →
  ∃ c' r, rtc step c c' ∧ c_flusher c' = FDone r ∧ c_now c' = c_now c.
Proof.
  intros [-> _]%instant_add_ok Hr Hle. pose proof (step_deadline _ _ Hr) as Hd. simpl in Hd.
  apply inv_reachable in Hr. apply (flusher_returns round quorum); [done|lia].
Qed.

(** A push is refused for the wrong round before the buffer is looked at,
    refused once the buffer is closed, and otherwise appended last; a buffer
    that handed out its batch is closed, so every later push for its round
    fails with [Closed]. *)
Theorem push_branches (d : ClientDelta) (b : RoundBuffer) :
  (delta_round d ≠ buf_round b → push d b = Err (WrongRound (buf_round b) (delta_round d))) ∧
  (delta_round d = buf_round b → buf_state b = Closed → push d b = Err BufClosed) ∧
  (∀ ds, delta_round d = buf_round b → buf_state b = Open ds →
     ∃ b', push d b = Ok b' ∧ buf_state b' = Open (ds ++ [d]) ∧
           buf_round b' = buf_round b ∧ buf_quorum b' = buf_quorum b) ∧
  (∀ E batch b', close_if_quorum_met (E:=E) b = Ok (Some batch, b') →
     delta_round d = buf_round b → push d b' = Err BufClosed) ∧
  (delta_round d = buf_round b → push d (close_and_take b).2 = Err BufClosed).
Proof.
  unfold push, push_locked, close_if_quorum_met, close_and_take.
  split; [intros; by rewrite decide_False|].
  split; [intros ? Hs; by rewrite decide_True, Hs|].
  split; [intros ds ? Hs; rewrite decide_True, Hs by done; simpl; eauto|].
  split; [|intros; simpl; by rewrite decide_True].
  intros E batch b'. destruct (buf_state b) as [ds|] eqn:Hs; simpl; [|done].
  case_match; simpl; [done|]. intros [= <- <-] ?. simpl. by rewrite decide_True.
Qed.

End buffer.
Arguments RoundBuffer N : clear implicits.
Arguments conf N : clear implicits.

(** ** A concrete notification primitive and the witnesses *)

(** One stored permit, as the documentation of [Notify] describes it. *)
Definition permit_notify : Notify := {|
  notify_state := bool;
  notify_new := false;
  notify_one := λ _, true;
  poll_notified := λ n, if n then Some false else None;
|}.

Lemma permit_notify_laws : NotifyLaws permit_notify.
Proof. split. intros n. simpl. eauto. Qed.

Definition sample_delta (id : string) (round : Z) : ClientDelta :=
  {| client_id := id; delta_round := round; weights := []; num_samples := 10;
     local_steps := None; control_variate := None; local_loss := None |}.

Section witnesses.
#[local] Existing Instance permit_notify.
#[local] Existing Instance permit_notify_laws.

(** The flusher waits, two clients push and notify: quorum reached, not yet
    awake. *)
Definition waiting_conf : conf permit_notify := {|
  c_buf := {| buf_round := 1; buf_quorum := 2;
              buf_state := Open [sample_delta "a" 1; sample_delta "b" 1]; buf_notify := true |};
  c_now := 0; c_deadline := 60; c_flusher := FWait;
  c_pushers := [POk (sample_delta "a" 1); POk (sample_delta "b" 1)] |}.

Lemma waiting_conf_reachable :
  rtc step (initial 1 2 0 60 [sample_delta "a" 1; sample_delta "b" 1]) waiting_conf.
Proof.
  eapply rtc_l; [apply step_flush_check|]. eapply rtc_l; [apply step_flush_deadline|].
  eapply rtc_l; [by apply (step_push_locked _ _ _ _ _ 0)|].
  eapply rtc_l; [by apply (step_push_locked _ _ _ _ _ 1)|].
  eapply rtc_l; [by apply (step_push_notify _ _ _ _ _ 0)|].
  eapply rtc_l; [by apply (step_push_notify _ _ _ _ _ 1)|].
  apply rtc_refl.
Defined.

Definition flushed_conf : conf permit_notify := {|
  c_buf := {| buf_round := 1; buf_quorum := 2; buf_state := Closed; buf_notify := false |};
  c_now := 0; c_deadline := 60;
  c_flusher := FDone {| flush_round := 1; flush_reason := Quorum;
                        flush_deltas := [sample_delta "a" 1; sample_delta "b" 1] |};
  c_pushers := [POk (sample_delta "a" 1); POk (sample_delta "b" 1)] |}.

Lemma flush_is_exactly_accepted_witness :
  rtc step (initial 1 2 0 60 [sample_delta "a" 1; sample_delta "b" 1]) flushed_conf ∧
  c_flusher flushed_conf ≠ FPanic.
Proof.
  assert (Hr : rtc step (initial 1 2 0 60 [sample_delta "a" 1; sample_delta "b" 1]) flushed_conf).
  { etrans; [apply waiting_conf_reachable|].
    eapply rtc_l; [by apply step_flush_notified|].
    eapply rtc_l; [apply step_flush_check|]. apply rtc_refl. }
  split; [exact Hr|]. exact (proj1 (flush_is_exactly_accepted _ _ _ _ _ _ Hr)).
Defined.

Lemma quorum_wakes_flusher_witness :
  ∃ c1 c2 r, step waiting_conf c1 ∧ step c1 c2 ∧ c_now c2 = 0 ∧
    c_flusher c2 = FDone r ∧ flush_reason r = Quorum ∧
    flush_deltas r ≡ₚ accepted (c_pushers waiting_conf).
Proof.
  apply (quorum_wakes_flusher 1 2 0 60 [sample_delta "a" 1; sample_delta "b" 1]).
  - apply waiting_conf_reachable.
  - reflexivity.
  - unfold quorum_reached. simpl. lia.
  - intros [|[|]] d; simpl; rewrite ?lookup_nil; discriminate.
Defined.

Lemma await_flush_returns_by_deadline_witness :
  ∃ c' r, rtc step (Build_conf (buffer_new 7 3) 100 90 FWait []) c' ∧
          c_flusher c' = FDone r ∧ c_now c' = 100.
Proof.
  apply (await_flush_returns_by_deadline 7 3 30 60 90 []); [reflexivity| |simpl; lia].
  eapply rtc_l; [apply step_flush_check|]. eapply rtc_l; [apply step_flush_deadline|].
  eapply rtc_l; [apply (step_tick _ 30 100); lia|]. apply rtc_refl.
Defined.
End witnesses.
