(* ===== verification/Weights.v ===== *)
(** * Batch validation and shared accumulation ([conflux-core/src/weights.rs])

    Decoding one round's batch and the checks every aggregation method runs
    before it touches a weight, the errors an aggregator returns
    ([conflux-core/src/lib.rs]), the two accumulation loops the methods share,
    and the [Aggregator] trait as a type class with the laws its clients use. *)

From S2P Require Import Prelude Float Wire.

(** ** Errors *)

Inductive AggregatorError : Type :=
  | EmptyBatch
  | NonFiniteWeights (client_id : string) (index : nat)
  | ImplausibleSampleCount (client_id : string) (got max : Z)
  | MismatchedLength (client_id : string) (expected got : nat)
  | MalformedWeights (client_id : string) (len : nat)
  | MissingTrustedReference
  | MissingCandidateScores
  | UnscoredClient (client_id : string)
  | CandidateScoresDimension (expected got : nat)
  | TrustedReferenceDimension (expected global reference : nat)
  | ZeroWeightSum.

(** ** Decoding and validating a batch *)

Definition core_decode_weights (client_id : string) (b : bytes) : outcome AggregatorError (list f32) :=
  map_err (λ _, MalformedWeights client_id (length b)) (decode_weights b).

Definition MAX_PLAUSIBLE_SAMPLE_COUNT : Z := Z.shiftl 1 40.

Definition check_length (dim : nat) (p : ClientDelta * list f32) : option AggregatorError :=
  if decide (length p.2 = dim) then None
  else Some (MismatchedLength (client_id p.1) dim (length p.2)).

Definition check_values (p : ClientDelta * list f32) : option AggregatorError :=
  match position (λ w, negb (f32_is_finite w)) p.2 with
  | Some index => Some (NonFiniteWeights (client_id p.1) index)
  | None =>
      if MAX_PLAUSIBLE_SAMPLE_COUNT <? num_samples p.1
      then Some (ImplausibleSampleCount (client_id p.1) (num_samples p.1) MAX_PLAUSIBLE_SAMPLE_COUNT)
      else None
  end.

Definition decode_and_validate (updates : list ClientDelta) : outcome AggregatorError (list (list f32)) :=
  decoded ← collect (λ u, core_decode_weights (client_id u) (weights u)) updates;
  let dim_error :=
    match decoded with
    | first :: _ => first_err (check_length (length first)) (zip updates decoded)
    | [] => None
    end in
  match dim_error with
  | Some e => Err e
  | None =>
      match first_err check_values (zip updates decoded) with
      | Some e => Err e
      | None => Ok decoded
      end
  end.

(** A batch fit to aggregate, with its decoded weights of dimension [dim]. *)
Definition plausible (u : ClientDelta) (dim : nat) (w : list f32) : Prop :=
  decode_weights (weights u) = Ok w ∧ length w = dim ∧
  Forall (λ x, f32_is_finite x = true) w ∧ num_samples u ≤ MAX_PLAUSIBLE_SAMPLE_COUNT.

Lemma check_length_none dim p : check_length dim p = None ↔ length p.2 = dim.
Proof. unfold check_length. case_decide; naive_solver. Qed.

Lemma check_values_none p :
  check_values p = None ↔
  Forall (λ x, f32_is_finite x = true) p.2 ∧ num_samples p.1 ≤ MAX_PLAUSIBLE_SAMPLE_COUNT.
Proof.
  unfold check_values.
  assert (Hp : position (λ w, negb (f32_is_finite w)) p.2 = None ↔
               Forall (λ x, f32_is_finite x = true) p.2).
  { rewrite position_none. split; intros H; (eapply Forall_impl; [exact H|]); intros x;
    by rewrite negb_false_iff. }
  destruct (position _ _) as [i|].
  - split; [done|]. intros [H _]. apply Hp in H. done.
  - rewrite <-Hp. destruct (Z.ltb_spec MAX_PLAUSIBLE_SAMPLE_COUNT (num_samples p.1)).
    + split; [done|]. intros []. lia.
    + split; [done|]. done.
Qed.

Lemma core_decode_ok id b w : core_decode_weights id b = Ok w ↔ decode_weights b = Ok w.
Proof. unfold core_decode_weights. destruct (decode_weights b); naive_solver. Qed.

Lemma core_decode_no_panic id b : core_decode_weights id b ≠ Panic.
Proof. unfold core_decode_weights, decode_weights. by case_decide. Qed.

Lemma Forall_zip_Forall2 {A B} (P : A * B → Prop) (l : list A) (k : list B) :
  length l = length k → Forall P (zip l k) ↔ Forall2 (λ x y, P (x, y)) l k.
Proof.
  revert k. induction l as [|x l IH]; intros [|y k]; simpl; intros Hl; try lia.
  - split; constructor.
  - rewrite Forall_cons, IH by lia. split; [intros []; by constructor|by inversion 1].
Qed.

Lemma decode_and_validate_ok us ds :
  decode_and_validate us = Ok ds ↔
  ∃ dim, Forall2 (λ u w, plausible u dim w) us ds.
Proof.
  unfold decode_and_validate. split.
  - intros (ds' & Hds%collect_ok & H)%bind_ok_inv.
    assert (Hdec : Forall2 (λ u w, decode_weights (weights u) = Ok w) us ds').
    { eapply Forall2_impl; [exact Hds|]. intros u w. apply core_decode_ok. }
    pose proof (Forall2_length _ _ _ Hds) as Hlen.
    destruct (match ds' with [] => None | _ => _ end) as [e|] eqn:Hdim; [done|].
    destruct (first_err check_values _) as [e|] eqn:Hval; [done|]. injection H as <-.
    apply first_err_none, Forall_zip_Forall2 in Hval; [|done].
    exists (match ds' with w :: _ => length w | [] => 0%nat end).
    assert (Hl : Forall2 (λ (u : ClientDelta) w,
              length w = match ds' with w :: _ => length w | [] => 0%nat end) us ds').
    { destruct ds' as [|w ds']; [by apply Forall2_nil_inv_r in Hds as ->|].
      apply first_err_none, Forall_zip_Forall2 in Hdim; [|done].
      eapply Forall2_impl; [exact Hdim|]. intros u w' Hw. by apply check_length_none in Hw. }
    clear Hds Hdim Hlen. revert Hl. generalize (match ds' with w :: _ => length w | [] => 0%nat end).
    intros dim Hl. induction Hdec as [|u w us ws Hw _ IH]; [constructor|].
    apply Forall2_cons in Hl as [? ?]. apply Forall2_cons in Hval as [Hv ?].
    apply check_values_none in Hv. constructor; [|by apply IH]. split; naive_solver.
  - intros [dim H].
    assert (collect (λ u, core_decode_weights (client_id u) (weights u)) us = Ok ds) as ->.
    { apply collect_ok. eapply Forall2_impl; [exact H|]. intros u w [? _]. by apply core_decode_ok. }
    simpl. pose proof (Forall2_length _ _ _ H) as Hlen.
    assert (first_err check_values (zip us ds) = None) as ->.
    { apply first_err_none, Forall_zip_Forall2; [done|]. eapply Forall2_impl; [exact H|].
      intros u w (_ & _ & ?). by apply check_values_none. }
    destruct ds as [|w ds]; [done|].
    assert (length w = dim) as -> by (inversion H as [|????(_ & ? & _)]; done).
    assert (first_err (check_length dim) (zip us (w :: ds)) = None) as ->; [|done].
    apply first_err_none, Forall_zip_Forall2; [done|]. eapply Forall2_impl; [exact H|].
    intros u w' (_ & ? & _). by apply check_length_none.
Qed.

Lemma decode_and_validate_no_panic us : decode_and_validate us ≠ Panic.
Proof.
  unfold decode_and_validate. intros [H|(? & ? & H)]%bind_panic_inv.
  - revert H. apply collect_no_panic. apply Forall_true. intros. apply core_decode_no_panic.
  - repeat case_match; done.
Qed.

Lemma decode_and_validate_length us ds :
  decode_and_validate us = Ok ds → length ds = length us.
Proof. intros [dim H]%decode_and_validate_ok. by apply Forall2_length in H. Qed.

(** Every decoded row is finite, and all rows have the first one's length. *)
Lemma decode_and_validate_rows us ds :
  decode_and_validate us = Ok ds →
  ∃ dim, Forall (λ w, length w = dim ∧ Forall (λ x, f32_is_finite x = true) w) ds.
Proof.
  intros [dim H]%decode_and_validate_ok. exists dim.
  induction H as [|u w us ds (?&?&?&?)]; constructor; auto.
Qed.

(** What an error claims about the client it names. *)
Definition error_justified (us : list ClientDelta) (e : AggregatorError) : Prop :=
  match e with
  | MalformedWeights id len =>
      ∃ u, u ∈ us ∧ client_id u = id ∧ len = length (weights u) ∧ (len mod 4 ≠ 0)%nat
  | MismatchedLength id expected got =>
      ∃ u w u0 w0, u ∈ us ∧ client_id u = id ∧ decode_weights (weights u) = Ok w ∧
        got = length w ∧ head us = Some u0 ∧ decode_weights (weights u0) = Ok w0 ∧
        expected = length w0 ∧ got ≠ expected
  | NonFiniteWeights id i =>
      ∃ u w x, u ∈ us ∧ client_id u = id ∧ decode_weights (weights u) = Ok w ∧
        w !! i = Some x ∧ f32_is_finite x = false ∧
        Forall (λ y, f32_is_finite y = true) (take i w)
  | ImplausibleSampleCount id got max =>
      ∃ u, u ∈ us ∧ client_id u = id ∧ num_samples u = got ∧ max = 2 ^ 40 ∧ max < got
  | _ => False
  end.

Definition is_validation_error (e : AggregatorError) : bool :=
  match e with
  | MalformedWeights _ _ | MismatchedLength _ _ _ | NonFiniteWeights _ _
  | ImplausibleSampleCount _ _ _ => true
  | _ => false
  end.

Lemma decode_and_validate_error_kind us e :
  decode_and_validate us = Err e → is_validation_error e = true.
Proof.
  unfold decode_and_validate. intros [H|(ds & _ & H)]%bind_err_inv.
  - apply collect_err in H as (?&u&?&?&_&_&H). revert H.
    unfold core_decode_weights, decode_weights. case_decide; simpl; naive_solver.
  - destruct (match ds with [] => None | _ => _ end) as [e'|] eqn:Hdim.
    + injection H as ->. destruct ds; [done|]. apply first_err_some in Hdim as (p&_&Hp).
      unfold check_length in Hp. case_decide; naive_solver.
    + destruct (first_err check_values _) as [e'|] eqn:Hv; [|done]. injection H as ->.
      apply first_err_some in Hv as (p&_&Hp). unfold check_values in Hp.
      repeat case_match; naive_solver.
Qed.

(** ** Accumulation *)

Definition accumulate_weighted (acc src : list f32) (weight : f32) : list f32 :=
  zip_update (λ a s, a + s * weight)%f32 acc src.

Definition accumulate_scaled_difference (acc : list f64) (src reference : list f32) (scale : f64)
    : list f64 :=
  zip_update (λ a '(s, r), f64_add a (f64_mul (f64_sub (f64_of_f32 s) (f64_of_f32 r)) scale))
    acc (zip src reference).

Lemma length_accumulate_weighted acc src w :
  length (accumulate_weighted acc src w) = length acc.
Proof. apply length_zip_update. Qed.

Lemma length_accumulate_scaled_difference acc src r k :
  length (accumulate_scaled_difference acc src r k) = length acc.
Proof. apply length_zip_update. Qed.

(** A left fold of accumulations keeps the accumulator's dimension. *)
Lemma length_foldl_acc {A X} (g : list X → A → list X) (l : list A) acc :
  (∀ acc x, length (g acc x) = length acc) → length (foldl g acc l) = length acc.
Proof.
  intros Hg. revert acc. induction l as [|x l IH]; intros acc; simpl; [done|].
  by rewrite IH, Hg.
Qed.

(** ** The [Aggregator] trait *)

Record TrustedReference := {
  ref_global_weights : list f32;
  reference_weights : list f32;
}.

Record CandidateScores := {
  scores_global_weights : list f32;
  candidate_scores : list (string * f32);
}.

(** A method with state of type [St] behind its mutex; [&self] methods that
    change the state return the new one. *)
Class Aggregator (St : Type) := {
  aggregate : St → list ClientDelta → St * outcome AggregatorError (list f32);
  requires_trusted_reference : St → bool;
  set_trusted_reference : TrustedReference → St → St;
  agg_control_variate : St → option (list f32);
  requires_candidate_scores : St → bool;
  set_candidate_scores : CandidateScores → St → St;
}.

(** A method that reads the batch only takes every default of the trait. *)
Definition stateless_aggregator {St}
    (f : St → list ClientDelta → outcome AggregatorError (list f32)) : Aggregator St := {|
  aggregate st updates := (st, f st updates);
  requires_trusted_reference _ := false;
  set_trusted_reference _ st := st;
  agg_control_variate _ := None;
  requires_candidate_scores _ := false;
  set_candidate_scores _ st := st;
|}.

(** What the round pipeline relies on: an empty batch is [EmptyBatch], a batch
    that does not validate is refused with the validation's own error, a result
    has the batch's dimension, and nothing panics. *)
Class AggregatorLaws (St : Type) (A : Aggregator St) := {
  aggregate_empty st : (aggregate st []).2 = Err EmptyBatch;
  aggregate_invalid st us e :
    us ≠ [] → decode_and_validate us = Err e → (aggregate st us).2 = Err e;
  aggregate_dim st us out :
    (aggregate st us).2 = Ok out →
    ∃ ds, decode_and_validate us = Ok ds ∧ ds ≠ [] ∧ Forall (λ w, length w = length out) ds;
  aggregate_no_panic st us : (aggregate st us).2 ≠ Panic;
}.

(** ** Properties *)

(** C22: validation accepts a batch exactly when every update decodes, has the
    first update's dimension, is finite and reports a plausible sample count,
    and then returns the decoded rows; it never panics. *)
Theorem decode_and_validate_exact (us : list ClientDelta) :
  (∀ ds, decode_and_validate us = Ok ds ↔ ∃ dim, Forall2 (λ u w, plausible u dim w) us ds) ∧
  decode_and_validate us ≠ Panic.
Proof. split; [apply decode_and_validate_ok | apply decode_and_validate_no_panic]. Qed.

Lemma elem_of_zip_decoded us ds u w :
  Forall2 (λ u w, core_decode_weights (client_id u) (weights u) = Ok w) us ds →
  (u, w) ∈ zip us ds → u ∈ us ∧ decode_weights (weights u) = Ok w.
Proof.
  induction 1 as [|u' w' us ds Hw _ IH]; simpl; [by intros ?%not_elem_of_nil|].
  apply core_decode_ok in Hw. rewrite !elem_of_cons. naive_solver.
Qed.

(** Every error of the validation is true of the client it names: the
    buffer it calls malformed is, the index it reports is the first non-finite
    coordinate, the expected dimension is the first update's. *)
Theorem decode_and_validate_errors_justified (us : list ClientDelta) (e : AggregatorError) :
  decode_and_validate us = Err e → error_justified us e.
Proof.
  unfold decode_and_validate. intros [H|(ds & Hds%collect_ok & H)]%bind_err_inv.
  - apply collect_err in H as (l1 & u & l2 & ys & -> & _ & Hu).
    unfold core_decode_weights, decode_weights in Hu. case_decide as Hm; [done|].
    injection Hu as <-. exists u. split; [set_solver|]. done.
  - destruct (match ds with [] => None | _ => _ end) as [e'|] eqn:Hdim.
    + injection H as ->. destruct ds as [|w0 ds]; [done|].
      inversion Hds as [|u0 ? us' ? Hu0 Hds' Heq]; subst us.
      apply first_err_some in Hdim as ([u w] & Hin & Hc).
      unfold check_length in Hc. simpl in Hc. case_decide; [done|]. injection Hc as <-.
      destruct (elem_of_zip_decoded _ _ _ _ Hds Hin). apply core_decode_ok in Hu0.
      by exists u, w, u0, w0.
    + destruct (first_err check_values _) as [e'|] eqn:Hval; [|done]. injection H as ->.
      apply first_err_some in Hval as ([u w] & Hin & Hc).
      destruct (elem_of_zip_decoded _ _ _ _ Hds Hin).
      unfold check_values in Hc. simpl in Hc.
      destruct (position _ w) as [i|] eqn:Hp.
      * injection Hc as <-. apply position_some in Hp as [(x & ? & Hx) Ht].
        exists u, w, x. repeat (split; [done|]). split; [by apply negb_true_iff|].
        eapply Forall_impl; [exact Ht|]. intros y. by rewrite negb_false_iff.
      * destruct (Z.ltb_spec MAX_PLAUSIBLE_SAMPLE_COUNT (num_samples u)); [|done].
        injection Hc as <-. by exists u.
Qed.

Definition nan_delta : ClientDelta :=
  {| client_id := "hostile"; delta_round := 1;
     weights := encode_weights [f32_one; NaN_bits false 4194304]; num_samples := 10;
     local_steps := None; control_variate := None; local_loss := None |}.

Lemma decode_and_validate_errors_justified_witness :
  decode_and_validate [nan_delta] = Err (NonFiniteWeights "hostile" 1) ∧
  error_justified [nan_delta] (NonFiniteWeights "hostile" 1).
Proof.
  assert (H : decode_and_validate [nan_delta] = Err (NonFiniteWeights "hostile" 1))
    by (vm_compute; reflexivity).
  split; [exact H|]. exact (decode_and_validate_errors_justified _ _ H).
Defined.
