(* ===== verification/Averaging.v ===== *)
(** * Weighted averaging ([conflux-core/src/averaging.rs])

    The shared accumulation of the [averaging] family over a weighting rule,
    and FedAvg, the rule that counts samples. *)

From S2P Require Import Prelude Float Wire Weights.

(** What a member of the family varies. *)
Class AveragingWeighting (W : Type) := {
  weight_for : W → ClientDelta → list ClientDelta → f32;
}.

Section weighted_average.
Context {W : Type} `{!AveragingWeighting W}.

Definition weighted_average (weighting : W) (updates : list ClientDelta)
    : outcome AggregatorError (list f32) :=
  match updates with
  | [] => Err EmptyBatch
  | _ =>
      decoded ← decode_and_validate updates;
      first ← index decoded 0;
      let dim := length first in
      let raw_weights := map (λ u, weight_for weighting u updates) updates in
      let total := f32_sum raw_weights in
      if (total =? f32_zero)%f32 then Err ZeroWeightSum
      else
        Ok (foldl (λ accumulator '(raw_weight, weights),
                     accumulate_weighted accumulator weights (raw_weight / total)%f32)
              (replicate dim f32_zero) (zip raw_weights decoded))
  end.

#[export] Instance weighted_average_aggregator : Aggregator W :=
  stateless_aggregator weighted_average.

Lemma weighted_average_ok w us out :
  weighted_average w us = Ok out ↔
  ∃ ds d0, decode_and_validate us = Ok ds ∧ us ≠ [] ∧ head ds = Some d0 ∧
    let raw := map (λ u, weight_for w u us) us in
    (f32_sum raw =? f32_zero)%f32 = false ∧
    out = foldl (λ acc '(rw, ws), accumulate_weighted acc ws (rw / f32_sum raw)%f32)
            (replicate (length d0) f32_zero) (zip raw ds).
Proof.
  unfold weighted_average. destruct us as [|u us]; [naive_solver|]. split.
  - intros (ds & Hds & (d0 & Hd0 & H)%bind_ok_inv)%bind_ok_inv.
    unfold index in Hd0. destruct (ds !! 0%nat) eqn:Hl; [|done]. injection Hd0 as ->.
    exists ds, d0. destruct ds; [done|]. simplify_eq/=.
    case_match; [done|]. by simplify_eq.
  - intros (ds & d0 & -> & _ & Hd0 & Ht & ->). destruct ds; [done|]. simplify_eq/=.
    by rewrite Ht.
Qed.

Lemma length_weighted_fold (l : list (f32 * list f32)) t acc :
  length (foldl (λ acc '(rw, ws), accumulate_weighted acc ws (rw / t)%f32) acc l) = length acc.
Proof. apply length_foldl_acc. intros ? []. apply length_accumulate_weighted. Qed.

Lemma head_decoded us ds :
  decode_and_validate us = Ok ds → us ≠ [] → ∃ d0, head ds = Some d0 ∧ ds !! 0%nat = Some d0.
Proof.
  intros Hl%decode_and_validate_length Hus. destruct ds as [|d ds]; [|by exists d].
  by destruct us.
Qed.

Lemma weighted_average_no_panic w us : weighted_average w us ≠ Panic.
Proof.
  unfold weighted_average. destruct us as [|u us]; [done|].
  intros [H|(ds & Hds & H)]%bind_panic_inv; [by apply decode_and_validate_no_panic in H|].
  destruct (head_decoded _ _ Hds) as (d0 & _ & Hd0); [done|].
  unfold index in H. rewrite Hd0 in H. simpl in H. by case_match.
Qed.

#[export] Instance weighted_average_laws : AggregatorLaws W weighted_average_aggregator.
Proof.
  split; simpl.
  - done.
  - intros w [|u us] e ? He; [done|]. unfold weighted_average. by rewrite He.
  - intros w us out (ds & d0 & Hds & Hus & Hd0 & _ & ->)%weighted_average_ok. exists ds.
    split; [done|]. destruct ds as [|d ds]; [done|]. split; [done|]. injection Hd0 as ->.
    rewrite length_weighted_fold, length_replicate.
    destruct (decode_and_validate_rows _ _ Hds) as [dim Hd].
    assert (length d0 = dim) as -> by (apply Forall_cons in Hd; naive_solver).
    eapply Forall_impl; [exact Hd|]. naive_solver.
  - apply weighted_average_no_panic.
Qed.

(** The row-by-row accumulation, read one coordinate at a time. *)
Lemma accumulate_weighted_lookup acc src w k a :
  length src = length acc → acc !! k = Some a →
  ∃ s, src !! k = Some s ∧ accumulate_weighted acc src w !! k = Some (a + s * w)%f32.
Proof.
  revert src k. unfold accumulate_weighted.
  induction acc as [|a' acc IH]; intros [|s src] k Hl Hk; try done; simpl in *.
  destruct k as [|k]; [injection Hk as ->; eauto|].
  apply (IH src k); [lia|done].
Qed.

Lemma weighted_fold_lookup (l : list (f32 * list f32)) t acc k a :
  Forall (λ p, length p.2 = length acc) l → acc !! k = Some a →
  foldl (λ acc '(rw, ws), accumulate_weighted acc ws (rw / t)%f32) acc l !! k =
  Some (foldl (λ a p, match p.2 !! k with Some x => a + x * (p.1 / t) | None => a end)%f32 a l).
Proof.
  revert acc a. induction l as [|[rw ws] l IH]; intros acc a Hl Hk; simpl; [done|].
  apply Forall_cons in Hl as [Hws Hl]. simpl in Hws.
  destruct (accumulate_weighted_lookup acc ws (rw / t)%f32 k a) as (x & Hx & Hacc); [done..|].
  rewrite Hx. apply IH; [|done].
  eapply Forall_impl; [exact Hl|]. intros p. by rewrite length_accumulate_weighted.
Qed.
End weighted_average.

(** ** FedAvg *)

Inductive SampleCountWeighting : Type := sample_count_weighting.

#[export] Instance SampleCountWeighting_weight : AveragingWeighting SampleCountWeighting := {|
  weight_for _ update _ := f32_of_Z (num_samples update);
|}.

Definition FedAvg : list ClientDelta → outcome AggregatorError (list f32) :=
  weighted_average sample_count_weighting.

(** The textbook definition, one coordinate at a time: the sum over the clients
    of [x_i[k] * (n_i / Σ n)], in batch order. *)
Definition fedavg_coordinate (us : list ClientDelta) (ds : list (list f32)) (k : nat) : f32 :=
  let total := f32_sum (map (λ u, f32_of_Z (num_samples u)) us) in
  foldl (λ a p, match p.2 !! k with
                | Some x => a + x * (f32_of_Z (num_samples p.1) / total)
                | None => a
                end)%f32 f32_zero (zip us ds).

(** ** Properties *)

(** FedAvg computes, at every coordinate, the sample-weighted mean of that
    coordinate over the batch, and its result has the model's dimension. *)
Theorem fedavg_is_coordinate_mean (us : list ClientDelta) (out : list f32) :
  FedAvg us = Ok out →
  ∃ ds d0, decode_and_validate us = Ok ds ∧ head ds = Some d0 ∧ length out = length d0 ∧
    ∀ k, (k < length d0)%nat → out !! k = Some (fedavg_coordinate us ds k).
Proof.
  intros (ds & d0 & Hds & _ & Hd0 & _ & ->)%weighted_average_ok. exists ds, d0.
  split; [done|]. split; [done|]. split.
  { by rewrite length_weighted_fold, length_replicate. }
  intros k Hk. erewrite weighted_fold_lookup; [| |by apply lookup_replicate_2].
  - f_equal. unfold fedavg_coordinate. cbn [weight_for SampleCountWeighting_weight].
    set (t := f32_sum _). clearbody t. generalize f32_zero. clear Hds Hd0 Hk.
    revert ds. induction us as [|u us IH]; intros [|d ds] z; simpl; try done.
  - destruct (decode_and_validate_rows _ _ Hds) as [dim Hd]. rewrite length_replicate.
    destruct ds as [|d ds]; [done|]. injection Hd0 as ->.
    assert (length d0 = dim) as -> by (apply Forall_cons in Hd; naive_solver).
    apply Forall_forall. intros [rw ws] Hin%elem_of_zip_r. simpl in *.
    rewrite Forall_forall in Hd. by apply Hd.
Qed.

Definition one_delta (id : string) (ws : list f32) (n : Z) : ClientDelta :=
  {| client_id := id; delta_round := 1; weights := encode_weights ws; num_samples := n;
     local_steps := None; control_variate := None; local_loss := None |}.

Definition two_deltas : list ClientDelta :=
  [one_delta "a" [f32_of_Z 1; f32_of_Z 2] 10; one_delta "b" [f32_of_Z 3; f32_of_Z 4] 10].

Lemma fedavg_is_coordinate_mean_witness :
  FedAvg two_deltas = Ok [f32_of_Z 2; f32_of_Z 3] ∧
  ∃ ds d0, decode_and_validate two_deltas = Ok ds ∧ head ds = Some d0 ∧ 2%nat = length d0 ∧
    ∀ k, (k < length d0)%nat →
      [f32_of_Z 2; f32_of_Z 3] !! k = Some (fedavg_coordinate two_deltas ds k).
Proof.
  assert (H : FedAvg two_deltas = Ok [f32_of_Z 2; f32_of_Z 3]) by (vm_compute; reflexivity).
  split; [exact H|]. exact (fedavg_is_coordinate_mean _ _ H).
Defined.

(** FedAvg refuses a batch with [ZeroWeightSum] exactly when the batch is
    otherwise valid and no client trained on a single sample: a positive count
    is never rounded away. *)
Theorem fedavg_zero_weight_exact (us : list ClientDelta) :
  Forall (λ u, 0 ≤ num_samples u) us →
  FedAvg us = Err ZeroWeightSum ↔
  us ≠ [] ∧ (∃ ds, decode_and_validate us = Ok ds) ∧ Forall (λ u, num_samples u = 0) us.
Proof.
  intros Hn.
  set (raw := map (λ u, f32_of_Z (num_samples u)) us).
  assert (Hzp : Forall (λ x, f32_is_zero x ∨ f32_pos x) raw).
  { apply Forall_map. eapply Forall_impl; [exact Hn|]. intros u Hu.
    pose proof (f32_of_Z_zero_or_pos _ Hu). simpl. case_decide; auto. }
  assert (Hz : f32_is_zero (f32_sum raw) ↔ Forall (λ u, num_samples u = 0) us).
  { destruct (f32_sum_zero_or_pos raw f32_neg_zero) as [(? & _ & Hr)|(Hp & Hr)];
      [left; by eexists|done| |].
    - split; [intros _|done]. unfold raw in Hr. rewrite Forall_map in Hr.
      rewrite Forall_forall in *. intros u Hin. destruct (Hr u Hin) as [s Hu].
      pose proof (Hn u Hin) as Hu0. simpl in Hu0. pose proof (f32_of_Z_zero_or_pos _ Hu0).
      case_decide; [done|]. rewrite Hu in *. done.
    - split; [intros [s Hs]; unfold f32_sum in Hs; by rewrite Hs in Hp|].
      intros Hall. destruct Hr as [?|Hr]; [done|]. apply Exists_exists in Hr as (x & Hx & Hpx).
      apply list_elem_of_In, in_map_iff in Hx as (u & <- & Hu%list_elem_of_In).
      rewrite Forall_forall in Hall. rewrite Hall in Hpx; done. }
  assert (Hzp' : f32_is_zero (f32_sum raw) ∨ f32_pos (f32_sum raw)).
  { destruct (f32_sum_zero_or_pos raw f32_neg_zero) as [(?&_)|(?&_)]; auto.
    left. by eexists. }
  rewrite <-Hz, <-(f32_eqb_zero _ Hzp').
  unfold FedAvg, weighted_average. destruct us as [|u us]; [naive_solver|]. split.
  - intros [H|(ds & Hds & H)]%bind_err_inv.
    { apply decode_and_validate_error_kind in H. done. }
    destruct (head_decoded _ _ Hds) as (d0 & _ & Hd0); [done|].
    unfold index in H. rewrite Hd0 in H. simpl in H. case_match; [|done]. eauto.
  - intros (_ & (ds & Hds) & Ht). destruct (head_decoded _ _ Hds) as (d0 & _ & Hd0); [done|].
    rewrite Hds. simpl. unfold index. rewrite Hd0. simpl. unfold raw in Ht. simpl in Ht.
    by rewrite Ht.
Qed.

Lemma fedavg_zero_weight_exact_witness :
  FedAvg [one_delta "idle" [f32_one] 0] = Err ZeroWeightSum.
Proof.
  apply (fedavg_zero_weight_exact [one_delta "idle" [f32_one] 0]).
  - repeat constructor. simpl. lia.
  - split; [done|]. split; [|repeat constructor]. exists [[f32_one]]. vm_compute. reflexivity.
Defined.
