(* ===== verification/Filters.v ===== *)
(** * Selection-based robust aggregation ([conflux-core/src/robust.rs])

    Filters that keep a subset of whole updates (Krum, Multi-Krum, Bulyan,
    FABA, Divide-and-Conquer) and the aggregator that combines the survivors.
    A float comparison with [partial_cmp(..).expect(..)] panics on a NaN, so the
    filters are functions into [outcome] and their totality is a theorem. *)

From S2P Require Import Prelude Float Wire Weights.

Open Scope Z_scope.

(** ** Distances *)

Definition l2_distance (a b : list f32) : f32 :=
  f32_sqrt (f32_sum (map (λ '(x, y), (x - y) * (x - y))%f32 (zip a b))).

Record DistanceMatrix := { distances : list (list f32) }.

(** [distances[i][j] = d; distances[j][i] = d;] *)
Definition set_cell (i j : nat) (d : f32) (m : list (list f32)) : list (list f32) :=
  alter (λ row, <[j := d]> row) i m.
Definition set_pair (i j : nat) (d : f32) (m : list (list f32)) : list (list f32) :=
  set_cell j i d (set_cell i j d m).

(** [for i in 0..n { for j in (i + 1)..n { .. } }] *)
Definition upper_pairs (n : nat) : list (nat * nat) :=
  flat_map (λ i, map (pair i) (seq (S i) (n - S i))) (seq 0 n).

Definition row_distance (decoded : list (list f32)) (i j : nat) : f32 :=
  l2_distance (decoded !!! i) (decoded !!! j).

Definition DistanceMatrix_from_updates (updates : list ClientDelta)
    : outcome AggregatorError DistanceMatrix :=
  decoded ← decode_and_validate updates;
  let n := length decoded in
  Ok {| distances :=
          foldl (λ m '(i, j), set_pair i j (row_distance decoded i j) m)
            (replicate n (replicate n f32_zero)) (upper_pairs n) |}.

Definition distance {E} (m : DistanceMatrix) (i j : nat) : outcome E f32 :=
  row ← index (distances m) i; index row j.

(** ** The contract of a filter *)

Class UpdateFilter (F : Type) := {
  filter_updates : F → list ClientDelta → outcome AggregatorError (list nat);
}.

(** The surviving indices, in ascending order and in range: the documented
    shape of [SelectionResult]. *)
Definition selection_ok (n : nat) (sel : list nat) : Prop :=
  StronglySorted lt sel ∧ Forall (λ i, (i < n)%nat) sel ∧ sel ≠ [].

(** What [FilteredAggregator] relies on.  A filter may skip the validation only
    when it keeps the whole batch, which the combiner then validates. *)
Class UpdateFilterLaws (F : Type) `{UpdateFilter F} := {
  filter_selects f us sel :
    us ≠ [] → filter_updates f us = Ok sel → selection_ok (length us) sel;
  filter_validates f us sel :
    us ≠ [] → filter_updates f us = Ok sel →
    (∃ ds, decode_and_validate us = Ok ds) ∨ sel = seq 0 (length us);
  filter_error f us e :
    us ≠ [] → filter_updates f us = Err e → decode_and_validate us = Err e;
}.

Class UpdateFilterTotal (F : Type) `{UpdateFilter F} :=
  filter_total f us : us ≠ [] → filter_updates f us ≠ Panic.

Section filtered.
Context {F St : Type} `{!UpdateFilter F} `{!Aggregator St}.

Definition filtered_aggregate (filter : F) (combiner : St) (updates : list ClientDelta)
    : St * outcome AggregatorError (list f32) :=
  match updates with
  | [] => (combiner, Err EmptyBatch)
  | _ =>
      match filter_updates filter updates with
      | Ok [] => (combiner, Err EmptyBatch)
      | Ok selected_indices =>
          match collect (index updates) selected_indices with
          | Ok selected => aggregate combiner selected
          | Err e => (combiner, Err e)
          | Panic => (combiner, Panic)
          end
      | Err e => (combiner, Err e)
      | Panic => (combiner, Panic)
      end
  end.

Lemma collect_index_ok {E A} (l : list A) sel :
  Forall (λ i, (i < length l)%nat) sel →
  ∃ xs, collect (index (E:=E) l) sel = Ok xs ∧ Forall2 (λ i x, l !! i = Some x) sel xs.
Proof.
  induction 1 as [|i sel Hi _ (xs & Hxs & IH)]; simpl; [by eexists|].
  destruct (index_lt (E:=E) l i Hi) as (x & Hx & Hix).
  exists (x :: xs). rewrite Hix, Hxs. auto.
Qed.

(** The survivors of a valid batch are a valid batch. *)
Lemma select_valid us ds sel xs :
  decode_and_validate us = Ok ds → Forall2 (λ i x, us !! i = Some x) sel xs →
  ∃ ds', decode_and_validate xs = Ok ds' ∧ Forall (λ d, d ∈ ds) ds'.
Proof.
  intros [dim H]%decode_and_validate_ok Hsel.
  assert (∃ ds', Forall2 (λ u w, plausible u dim w ∧ w ∈ ds) xs ds') as [ds' Hds'].
  { induction Hsel as [|i x sel xs Hi _ [ds' IH]]; [by exists []|].
    destruct (Forall2_lookup_l _ _ _ _ _ H Hi) as (w & Hw & ?).
    exists (w :: ds'). constructor; [|done]. split; [done|]. by eapply list_elem_of_lookup_2. }
  exists ds'. split.
  - apply decode_and_validate_ok. exists dim. eapply Forall2_impl; [exact Hds'|]. naive_solver.
  - clear Hsel. induction Hds' as [|????[]]; constructor; auto.
Qed.

Lemma Forall2_seq_lookup {A} (l xs : list A) :
  Forall2 (λ i x, l !! i = Some x) (seq 0 (length l)) xs → xs = l.
Proof.
  intros H. apply list_eq. intros i.
  pose proof (Forall2_length _ _ _ H) as Hl. rewrite length_seq in Hl.
  destruct (decide (i < length l)%nat) as [Hi|Hi].
  - destruct (Forall2_lookup_l _ _ _ i i H) as (x & Hx & Hi');
      [apply lookup_seq; lia|]. congruence.
  - rewrite !lookup_ge_None_2; [done|lia..].
Qed.

Definition filtered_aggregator : Aggregator (F * St) := {|
  aggregate st updates :=
    let '(st', out) := filtered_aggregate st.1 st.2 updates in ((st.1, st'), out);
  requires_trusted_reference _ := false;
  set_trusted_reference _ st := st;
  agg_control_variate _ := None;
  requires_candidate_scores _ := false;
  set_candidate_scores _ st := st;
|}.

(** The pipeline validates exactly what the batch alone determines, whatever
    the filter and the combiner are. *)
Lemma filtered_step `{!UpdateFilterLaws F} `{!UpdateFilterTotal F} `{!AggregatorLaws St _} f c us :
  us ≠ [] →
  (∃ e, decode_and_validate us = Err e ∧ (filtered_aggregate f c us).2 = Err e) ∨
  (∃ ds sel xs ds', decode_and_validate us = Ok ds ∧ filter_updates f us = Ok sel ∧
     Forall2 (λ i x, us !! i = Some x) sel xs ∧ xs ≠ [] ∧
     decode_and_validate xs = Ok ds' ∧ Forall (λ d, d ∈ ds) ds' ∧
     filtered_aggregate f c us = aggregate c xs).
Proof.
  intros Hus. destruct us as [|u us0] eqn:Heq; [done|]. rewrite <-Heq in *.
  assert (Hf : filtered_aggregate f c us =
    match filter_updates f us with
    | Ok [] => (c, Err EmptyBatch)
    | Ok sel => match collect (index us) sel with
                | Ok xs => aggregate c xs | Err e => (c, Err e) | Panic => (c, Panic) end
    | Err e => (c, Err e) | Panic => (c, Panic) end) by (by rewrite Heq).
  clear Heq. rewrite Hf. clear Hf. destruct (filter_updates f us) as [sel|e|] eqn:Hsel.
  - destruct (filter_selects f us sel Hus Hsel) as (_ & Hlt & Hne).
    destruct (collect_index_ok (E:=AggregatorError) us sel Hlt) as (xs & Hxs & Hall).
    assert (xs ≠ []) by (intros ->; by apply Forall2_nil_inv_r in Hall).
    assert (Hred : match sel with [] => (c, Err EmptyBatch) | _ :: _ =>
      match collect (index us) sel with
                | Ok xs => aggregate c xs | Err e => (c, Err e) | Panic => (c, Panic) end end
      = aggregate c xs) by (destruct sel; [done|]; by rewrite Hxs).
    rewrite Hred. clear Hred.
    destruct (decode_and_validate us) as [ds|e|] eqn:Hds.
    + right. destruct (select_valid us ds sel xs Hds Hall) as (ds' & ? & ?).
      by exists ds, sel, xs, ds'.
    + left. exists e. split; [done|].
      destruct (filter_validates f us sel Hus Hsel) as [[? ?]| ->]; [congruence|].
      apply Forall2_seq_lookup in Hall as ->. by apply aggregate_invalid.
    + by apply decode_and_validate_no_panic in Hds.
  - left. exists e. split; [by eapply filter_error|done].
  - by apply filter_total in Hsel.
Qed.

#[export] Instance filtered_laws `{!UpdateFilterLaws F} `{!UpdateFilterTotal F}
  `{!AggregatorLaws St _} : AggregatorLaws (F * St) filtered_aggregator.
Proof.
  split; simpl.
  - done.
  - intros [f c] us e Hus He. simpl.
    destruct (filtered_step f c us Hus) as [(e' & He' & H)|(?&?&?&?&?&_)]; [|congruence].
    destruct (filtered_aggregate f c us). simpl in *. congruence.
  - intros [f c] us out. simpl. destruct us as [|u us]; [done|].
    destruct (filtered_step f c (u :: us)) as [(e' & He' & H)|(ds&sel&xs&ds'&Hds&_&_&?&Hds'&Hin&H)];
      [done| |].
    { destruct (filtered_aggregate f c (u :: us)). simpl in *. congruence. }
    rewrite H. destruct (aggregate c xs) as [c' out'] eqn:Ha. simpl. intros ->.
    assert (Ho : (aggregate c xs).2 = Ok out) by (by rewrite Ha).
    apply aggregate_dim in Ho as (ds2 & Hds2 & Hne & Hdim).
    rewrite Hds' in Hds2. injection Hds2 as <-. exists ds. split; [done|].
    destruct ds' as [|d ds']; [done|]. apply Forall_cons in Hdim as [Hd _].
    apply Forall_cons in Hin as [Hin _]. split; [by intros ->; apply not_elem_of_nil in Hin|].
    destruct (decode_and_validate_rows _ _ Hds) as [dim Hrows].
    assert (length d = dim) by (rewrite Forall_forall in Hrows; by apply Hrows).
    eapply Forall_impl; [exact Hrows|]. intros w []. congruence.
  - intros [f c] us. simpl. destruct us as [|u us]; [done|].
    destruct (filtered_step f c (u :: us)) as [(e' & He' & H)|(ds&sel&xs&ds'&_&_&_&_&_&_&H)];
      [done| |].
    + destruct (filtered_aggregate f c (u :: us)). simpl in *. congruence.
    + rewrite H. pose proof (aggregate_no_panic c xs). by destruct (aggregate c xs).
Qed.
End filtered.
