(* ===== verification/Krum.v ===== *)
(** * Krum, Multi-Krum and Bulyan ([conflux-core/src/robust.rs])

    The score of an update, the three filters built on it, and why no
    comparison of theirs ever meets a NaN. *)

From S2P Require Import Prelude Float Wire Weights Averaging Filters.

Open Scope Z_scope.

(** ** The distance matrix *)

Section matrix.
Context (d : nat → nat → f32).

Definition cell (m : list (list f32)) (i j : nat) : option f32 :=
  match m !! i with Some row => row !! j | None => None end.

Lemma cell_set_cell i j x m a b :
  is_Some (cell m a b) →
  cell (set_cell i j x m) a b = if decide (a = i ∧ b = j) then Some x else cell m a b.
Proof.
  unfold cell, set_cell. rewrite list_lookup_alter.
  destruct (decide (i = a)) as [->|]; [|case_decide; naive_solver].
  destruct (m !! a) as [row|] eqn:Hrow; simpl; [|by intros []].
  intros Hb%lookup_lt_is_Some. rewrite list_lookup_insert. repeat case_decide; naive_solver.
Qed.

Lemma cell_set_pair i j x m a b :
  is_Some (cell m a b) →
  cell (set_pair i j x m) a b =
  if decide ((a = i ∧ b = j) ∨ (a = j ∧ b = i)) then Some x else cell m a b.
Proof.
  intros Hs. unfold set_pair. rewrite cell_set_cell; rewrite cell_set_cell by done.
  - repeat case_decide; naive_solver.
  - case_decide; eauto.
Qed.

Lemma cell_fold_pairs l m a b :
  is_Some (cell m a b) →
  (∀ i j, (i, j) ∈ l → (i < j)%nat) →
  cell (foldl (λ m '(i, j), set_pair i j (d i j) m) m l) a b =
  if decide ((a, b) ∈ l) then Some (d a b)
  else if decide ((b, a) ∈ l) then Some (d b a) else cell m a b.
Proof.
  revert m. induction l as [|[i j] l IH] using rev_ind; intros m Hs Hlt; simpl.
  { repeat case_decide; try done; by match goal with H : _ ∈ [] |- _ => apply elem_of_nil in H end. }
  rewrite foldl_app. simpl.
  assert (Hlt' : ∀ i j, (i, j) ∈ l → (i < j)%nat) by (intros; apply Hlt; set_solver).
  specialize (IH m Hs Hlt').
  assert (i < j)%nat by (apply Hlt; set_solver).
  rewrite cell_set_pair.
  2:{ rewrite IH. repeat case_decide; eauto. }
  rewrite IH.
  assert (Hin : ∀ x y, (x, y) ∈ l ++ [(i, j)] ↔ (x, y) ∈ l ∨ x = i ∧ y = j).
  { intros. rewrite elem_of_app, list_elem_of_singleton. naive_solver. }
  repeat case_decide; rewrite !Hin in *; try naive_solver.
  - destruct_or?; destruct_and?; subst; try done; try lia.
    specialize (Hlt' j i). naive_solver lia.
Qed.
End matrix.

Lemma elem_of_upper_pairs n i j : (i, j) ∈ upper_pairs n ↔ (i < j < n)%nat.
Proof.
  unfold upper_pairs. rewrite list_elem_of_In, in_flat_map. split.
  - intros (k & Hk & Hj). rewrite in_map_iff in Hj. rewrite in_seq in Hk.
    destruct Hj as (j' & [= -> ->] & Hj). rewrite in_seq in Hj. lia.
  - intros []. exists i. rewrite in_seq. split; [lia|]. apply in_map_iff. exists j.
    rewrite in_seq. split; [done|lia].
Qed.

Definition matrix_entry (decoded : list (list f32)) (i j : nat) : f32 :=
  if decide (i = j) then f32_zero else row_distance decoded (Nat.min i j) (Nat.max i j).

Lemma distance_from_updates {E} us ds m i j :
  decode_and_validate us = Ok ds → DistanceMatrix_from_updates us = Ok m →
  (i < length us)%nat → (j < length us)%nat →
  distance (E:=E) m i j = Ok (matrix_entry ds i j).
Proof.
  unfold DistanceMatrix_from_updates. intros Hds. rewrite Hds. simpl. intros [= <-] Hi Hj.
  rewrite <-(decode_and_validate_length _ _ Hds) in Hi, Hj. set (n := length ds) in *.
  assert (Hz : cell (replicate n (replicate n f32_zero)) i j = Some f32_zero).
  { unfold cell. rewrite lookup_replicate_2 by done. by apply lookup_replicate_2. }
  pose proof (cell_fold_pairs (row_distance ds) (upper_pairs n) _ i j
    ltac:(by eexists) ltac:(intros ?? ?%elem_of_upper_pairs; lia)) as Hc.
  assert (He : cell (foldl (λ m '(i, j), set_pair i j (row_distance ds i j) m)
                (replicate n (replicate n f32_zero)) (upper_pairs n)) i j =
          Some (matrix_entry ds i j)).
  { rewrite Hc. unfold matrix_entry.
    repeat case_decide; rewrite elem_of_upper_pairs in *; try lia; try done.
    - by rewrite Nat.min_l, Nat.max_r by lia.
    - by rewrite Nat.min_r, Nat.max_l by lia. }
  unfold distance. cbn [distances]. fold n. set (M := foldl _ _ _) in *. clearbody M.
  unfold index, cell in *. destruct (M !! i) as [row|]; [|done]. simpl. by rewrite He.
Qed.

Lemma zip_finite_terms a b :
  Forall (λ x, f32_is_finite x = true) a → Forall (λ x, f32_is_finite x = true) b →
  Forall f32_nonneg (map (λ '(x, y), (x - y) * (x - y))%f32 (zip a b)).
Proof.
  intros Ha. revert b. induction Ha as [|x a Hx _ IH]; intros b Hb; simpl; [constructor|].
  destruct Hb as [|y b Hy Hb]; simpl; constructor; auto.
  apply f32_mul_self_nonneg, f32_sub_not_nan; auto with conflux.
Qed.

Lemma l2_distance_nonneg a b :
  Forall (λ x, f32_is_finite x = true) a → Forall (λ x, f32_is_finite x = true) b →
  f32_nonneg (l2_distance a b).
Proof. intros. by apply f32_sqrt_nonneg, f32_sum_nonneg, zip_finite_terms. Qed.

Lemma decoded_row_finite us ds i :
  decode_and_validate us = Ok ds → Forall (λ x, f32_is_finite x = true) (ds !!! i).
Proof.
  intros [dim Hd]%decode_and_validate_rows. rewrite list_lookup_total_alt.
  destruct (ds !! i) as [w|] eqn:Hw; simpl; [|constructor].
  rewrite Forall_lookup in Hd. by eapply Hd.
Qed.

Lemma matrix_entry_nonneg us ds i j :
  decode_and_validate us = Ok ds → f32_nonneg (matrix_entry ds i j).
Proof.
  intros Hd. unfold matrix_entry. case_decide; [done|].
  apply l2_distance_nonneg; by eapply decoded_row_finite.
Qed.

(** ** Scores *)

(** [(fraction * n as f32).floor() as usize], at most [n - 1]. *)
Definition byzantine_count (byzantine_fraction : f32) (n : nat) : nat :=
  Z.to_nat (Z.min (f32_floor_to_u64 (byzantine_fraction * f32_of_Z (Z.of_nat n)))
                  (Z.of_nat (n - 1))).

Lemma byzantine_count_le fr n : (byzantine_count fr n ≤ n - 1)%nat.
Proof. unfold byzantine_count. lia. Qed.

Lemma byzantine_count_lt fr n : n ≠ 0%nat → (byzantine_count fr n < n)%nat.
Proof. pose proof (byzantine_count_le fr n). lia. Qed.

(** [x.clamp(lo, hi)]. *)
Definition clamp (x lo hi : nat) : nat := Nat.min (Nat.max x lo) hi.

Definition neighbors_to_sum (byzantine_fraction : f32) (n : nat) : nat :=
  clamp (n - (byzantine_count byzantine_fraction n + 2)) 1 (Nat.max (n - 1) 1).

Definition krum_scores (byzantine_fraction : f32) (updates : list ClientDelta)
    : outcome AggregatorError (list f32) :=
  let n := length updates in
  distances ← DistanceMatrix_from_updates updates;
  collect (λ i,
    dists ← collect (λ j, d ← distance distances i j; Ok (d * d)%f32)
                    (base.filter (λ j, j ≠ i) (seq 0 n));
    dists ← f32_sort dists;
    Ok (f32_sum (take (neighbors_to_sum byzantine_fraction n) dists)))
    (seq 0 n).

(** The definition of Blanchard et al.: the sum of the squared distances to the
    nearest other updates. *)
Definition krum_score_of (fr : f32) (ds : list (list f32)) (i : nat) : f32 :=
  f32_sum (take (neighbors_to_sum fr (length ds))
    (sort_by f32_leb
      (map (λ j, matrix_entry ds i j * matrix_entry ds i j)%f32
        (base.filter (λ j, j ≠ i) (seq 0 (length ds)))))).

Lemma collect_map {E A B} (f : A → outcome E B) (g : A → B) l :
  Forall (λ x, f x = Ok (g x)) l → collect f l = Ok (map g l).
Proof. induction 1 as [|x l Hx _ IH]; simpl; [done|]. by rewrite Hx, IH. Qed.

Lemma Forall_take {A} (P : A → Prop) n l : Forall P l → Forall P (take n l).
Proof. apply Forall_take. Qed.

Lemma krum_scores_ok fr us ds :
  decode_and_validate us = Ok ds →
  krum_scores fr us = Ok (map (krum_score_of fr ds) (seq 0 (length us))).
Proof.
  intros Hds. unfold krum_scores, DistanceMatrix_from_updates. rewrite Hds.
  cbn [mbind outcome_bind].
  destruct (DistanceMatrix_from_updates us) as [m| |] eqn:Hm;
    unfold DistanceMatrix_from_updates in Hm; rewrite Hds in Hm; simpl in Hm; try done.
  injection Hm as Hm. rewrite Hm.
  assert (HM : DistanceMatrix_from_updates us = Ok m)
    by (unfold DistanceMatrix_from_updates; rewrite Hds; simpl; by rewrite Hm).
  apply collect_map. rewrite Forall_forall. intros i Hi%elem_of_seq.
  rewrite (collect_map _ (λ j, matrix_entry ds i j * matrix_entry ds i j)%f32).
  - cbn [mbind outcome_bind]. rewrite f32_sort_ok; [cbn [mbind outcome_bind]|].
    + unfold krum_score_of. by rewrite (decode_and_validate_length _ _ Hds).
    + rewrite Forall_map, Forall_forall. intros j _.
      by eapply f32_nonneg_not_nan, f32_mul_self_nonneg, f32_nonneg_not_nan, matrix_entry_nonneg.
  - rewrite Forall_forall. intros j [_ Hj%elem_of_seq]%list_elem_of_filter.
    rewrite (distance_from_updates us ds) by (done || lia). done.
Qed.

Lemma krum_scores_err fr us e :
  decode_and_validate us = Err e → krum_scores fr us = Err e.
Proof. intros H. unfold krum_scores, DistanceMatrix_from_updates. by rewrite H. Qed.

Lemma krum_score_nonneg fr us ds i :
  decode_and_validate us = Ok ds → f32_nonneg (krum_score_of fr ds i).
Proof.
  intros Hds. apply f32_sum_nonneg, Forall_take. rewrite sort_by_perm, Forall_map, Forall_forall.
  intros j _. by eapply f32_mul_self_nonneg, f32_nonneg_not_nan, matrix_entry_nonneg.
Qed.

Lemma krum_scores_not_nan fr us ds :
  decode_and_validate us = Ok ds →
  Forall not_nan (map (krum_score_of fr ds) (seq 0 (length us))).
Proof.
  intros Hds. rewrite Forall_map, Forall_forall. intros i _.
  by eapply f32_nonneg_not_nan, krum_score_nonneg.
Qed.

(** ** Krum *)

Record KrumFilter := { krum_byzantine_fraction : f32 }.

Definition krum_filter (self : KrumFilter) (updates : list ClientDelta)
    : outcome AggregatorError (list nat) :=
  scores ← krum_scores (krum_byzantine_fraction self) updates;
  best ← arg_min scores;
  match best with
  | Some best => Ok [best]
  | None => Panic
  end.

#[export] Instance KrumFilter_filter : UpdateFilter KrumFilter := {| filter_updates := krum_filter |}.

Lemma krum_filter_spec self us :
  us ≠ [] →
  (∃ e, decode_and_validate us = Err e ∧ krum_filter self us = Err e) ∨
  (∃ ds i s, decode_and_validate us = Ok ds ∧ krum_filter self us = Ok [i] ∧
     (i < length us)%nat ∧ s = krum_score_of (krum_byzantine_fraction self) ds i ∧
     ∀ j, (j < length us)%nat →
       (s <=? krum_score_of (krum_byzantine_fraction self) ds j)%f32 = true ∧
       ((j < i)%nat → (krum_score_of (krum_byzantine_fraction self) ds j <=? s)%f32 = false)).
Proof.
  intros Hus. unfold krum_filter. set (fr := krum_byzantine_fraction self).
  destruct (decode_and_validate us) as [ds|e|] eqn:Hds.
  - right. rewrite (krum_scores_ok fr us ds Hds). cbn [mbind outcome_bind].
    destruct (arg_min_spec (E:=AggregatorError) _ (krum_scores_not_nan fr us ds Hds))
      as (i & s & -> & Hs & Hmin); [by destruct us|]. cbn [mbind outcome_bind].
    assert (Hl : ∀ j, (j < length us)%nat →
      map (krum_score_of fr ds) (seq 0 (length us)) !! j = Some (krum_score_of fr ds j)).
    { intros j Hj. rewrite list_lookup_fmap, lookup_seq_lt by done. done. }
    assert (Hi : (i < length us)%nat).
    { apply lookup_lt_Some in Hs. by rewrite length_map, length_seq in Hs. }
    exists ds, i, s. split; [done|]. split; [done|]. split; [done|].
    rewrite Hl in Hs by done. injection Hs as <-. split; [done|]. intros j Hj. by apply Hmin, Hl.
  - left. exists e. by rewrite (krum_scores_err fr us e Hds).
  - by apply decode_and_validate_no_panic in Hds.
Qed.

#[export] Instance KrumFilter_laws : UpdateFilterLaws KrumFilter.
Proof.
  split; simpl; intros f us r Hus; destruct (krum_filter_spec f us Hus)
    as [(e & He & ->)|(ds & i & s & Hds & -> & Hi & _)]; try done.
  - intros [= <-]. split; [repeat constructor|]. split; [by repeat constructor|done].
  - eauto.
  - by intros [= ->].
Qed.

#[export] Instance KrumFilter_total : UpdateFilterTotal KrumFilter.
Proof.
  intros f us Hus. simpl. destruct (krum_filter_spec f us Hus)
    as [(e & He & ->)|(ds & i & s & Hds & -> & Hi & _)]; done.
Qed.

(** ** Multi-Krum *)

Record MultiKrumFilter := { multi_krum_byzantine_fraction : f32 }.

Definition score_le (scores : list f32) (a b : nat) : bool :=
  match scores !! a, scores !! b with
  | Some x, Some y => (x <=? y)%f32
  | _, _ => false
  end.

Definition multi_krum_filter (self : MultiKrumFilter) (updates : list ClientDelta)
    : outcome AggregatorError (list nat) :=
  let fr := multi_krum_byzantine_fraction self in
  scores ← krum_scores fr updates;
  let n := length updates in
  let f := byzantine_count fr n in
  let m := Nat.max (n - f) 1 in
  _ ← nan_guard scores;
  let indices := sort_by (score_le scores) (seq 0 n) in
  Ok (sort_by Nat.leb (take m indices)).

#[export] Instance MultiKrumFilter_filter : UpdateFilter MultiKrumFilter :=
  {| filter_updates := multi_krum_filter |}.

Lemma sort_leb_ascending l : NoDup l → StronglySorted lt (sort_by Nat.leb l).
Proof.
  intros Hnd.
  assert (Hs : Sorted_by Nat.leb (sort_by Nat.leb l)).
  { apply (sort_by_sorted _ (λ _, True)).
    - intros x y _ _. rewrite !Nat.leb_le. lia.
    - intros x y z _ _ _. rewrite !Nat.leb_le. lia.
    - by apply Forall_true. }
  assert (Hnd' : NoDup (sort_by Nat.leb l)) by (by rewrite sort_by_perm).
  unfold Sorted_by in Hs.
  induction Hs as [|x l' Hl IH Hx]; [constructor|]. apply NoDup_cons in Hnd' as [Hnin Hnd'].
  constructor; [auto|]. rewrite Forall_forall in *. intros y Hy.
  specialize (Hx y Hy). apply Nat.leb_le in Hx. assert (x ≠ y) by congruence. lia.
Qed.

Lemma selection_ok_sort n l :
  NoDup l → Forall (λ i, (i < n)%nat) l → l ≠ [] → selection_ok n (sort_by Nat.leb l).
Proof.
  intros Hnd Hlt Hne. split; [by apply sort_leb_ascending|]. split; [by rewrite sort_by_perm|].
  intros He. apply Hne. apply Permutation_nil_r. by rewrite <-He, sort_by_perm.
Qed.

Lemma multi_krum_filter_spec self us :
  let fr := multi_krum_byzantine_fraction self in
  us ≠ [] →
  (∃ e, decode_and_validate us = Err e ∧ multi_krum_filter self us = Err e) ∨
  (∃ ds sel, decode_and_validate us = Ok ds ∧ multi_krum_filter self us = Ok sel ∧
     selection_ok (length us) sel ∧ length sel = (length us - byzantine_count fr (length us))%nat ∧
     ∀ i j, i ∈ sel → (j < length us)%nat → j ∉ sel →
       (krum_score_of fr ds i <=? krum_score_of fr ds j)%f32 = true).
Proof.
  intros fr Hus. unfold multi_krum_filter. fold fr. set (n := length us).
  assert (Hn : n ≠ 0%nat) by (by destruct us).
  pose proof (byzantine_count_lt fr n Hn) as Hf. set (f := byzantine_count fr n) in *.
  replace (Nat.max (n - f) 1) with (n - f)%nat by lia.
  destruct (decode_and_validate us) as [ds|e|] eqn:Hds.
  - right. rewrite (krum_scores_ok fr us ds Hds). cbn [mbind outcome_bind].
    rewrite nan_guard_ok by (by apply krum_scores_not_nan). cbn [mbind outcome_bind]. fold n.
    set (scores := map (krum_score_of fr ds) (seq 0 n)).
    assert (Hsc : ∀ i j, (i < n)%nat → (j < n)%nat →
              score_le scores i j = (krum_score_of fr ds i <=? krum_score_of fr ds j)%f32).
    { intros i j Hi Hj. unfold score_le, scores.
      by rewrite !list_lookup_fmap, !lookup_seq_lt by done. }
    set (l := sort_by (score_le scores) (seq 0 n)).
    assert (Hnn : ∀ i, not_nan (krum_score_of fr ds i))
      by (intros i; by eapply f32_nonneg_not_nan, krum_score_nonneg).
    assert (Hl : Sorted_by (score_le scores) l).
    { apply (sort_by_sorted _ (λ i, (i < n)%nat)).
      - intros x y Hx Hy. rewrite !Hsc by done. by apply f32_leb_total.
      - intros x y z Hx Hy Hz. rewrite !Hsc by done. by apply f32_leb_trans.
      - rewrite Forall_forall. intros x ?%elem_of_seq. lia. }
    assert (Hperm : l ≡ₚ seq 0 n) by apply sort_by_perm.
    assert (Hnd : NoDup l) by (rewrite Hperm; apply NoDup_seq).
    assert (Hin : ∀ i, i ∈ l ↔ (i < n)%nat) by (intros; rewrite Hperm, elem_of_seq; lia).
    assert (Hlen : length l = n) by (by rewrite Hperm, length_seq).
    exists ds, (sort_by Nat.leb (take (n - f) l)). split; [done|]. split; [done|].
    split; [|split].
    + apply selection_ok_sort.
      * rewrite <-(take_drop (n - f) l) in Hnd. by apply NoDup_app in Hnd as [? _].
      * apply Forall_take. rewrite Forall_forall. intros i. apply Hin.
      * intros Hnil. apply (f_equal length) in Hnil. rewrite length_take in Hnil. simpl in Hnil. lia.
    + rewrite length_sort_by, length_take. lia.
    + intros i j Hi Hj Hnj. rewrite sort_by_perm in Hi, Hnj.
      assert (Hi' : i ∈ l) by (rewrite <-(take_drop (n - f) l); set_solver).
      apply Hin in Hi'. rewrite <-Hsc by done.
      apply (StronglySorted_take_drop _ l (n - f) i j Hl Hi).
      apply Hin in Hj. rewrite <-(take_drop (n - f) l) in Hj. set_solver.
  - left. exists e. by rewrite (krum_scores_err fr us e Hds).
  - by apply decode_and_validate_no_panic in Hds.
Qed.

#[export] Instance MultiKrumFilter_laws : UpdateFilterLaws MultiKrumFilter.
Proof.
  split; simpl; intros f us r Hus; destruct (multi_krum_filter_spec f us Hus)
    as [(e & He & ->)|(ds & sel & Hds & -> & Hok & _)]; try done.
  - by intros [= <-].
  - eauto.
  - by intros [= ->].
Qed.

#[export] Instance MultiKrumFilter_total : UpdateFilterTotal MultiKrumFilter.
Proof.
  intros f us Hus. simpl. destruct (multi_krum_filter_spec f us Hus)
    as [(e & He & ->)|(ds & sel & Hds & -> & _)]; done.
Qed.

(** ** Bulyan *)

Record BulyanFilter := { bulyan_byzantine_fraction : f32 }.

(** The [while] loop; [fuel] bounds its iterations and running out of it would
    be a panic, which [BulyanFilter_total] excludes. *)
Fixpoint bulyan_loop (fuel : nat) (fr : f32) (updates : list ClientDelta) (theta : nat)
    (remaining selected : list nat) : outcome AggregatorError (list nat * list nat) :=
  if (length selected <? theta)%nat && (1 <? length remaining)%nat then
    match fuel with
    | O => Panic
    | S fuel =>
        pool ← collect (index updates) remaining;
        scores ← krum_scores fr pool;
        best ← arg_min scores;
        match best with
        | None => Panic
        | Some best_pos =>
            i ← index remaining best_pos;
            bulyan_loop fuel fr updates theta (delete best_pos remaining) (selected ++ [i])
        end
    end
  else Ok (remaining, selected).

Definition bulyan_filter (self : BulyanFilter) (updates : list ClientDelta)
    : outcome AggregatorError (list nat) :=
  let fr := bulyan_byzantine_fraction self in
  let n := length updates in
  let f := byzantine_count fr n in
  let theta := Nat.max (n - 2 * f) 1 in
  '(remaining, selected) ← bulyan_loop n fr updates theta (seq 0 n) [];
  let selected := if (length selected <? theta)%nat then selected ++ remaining else selected in
  Ok (sort_by Nat.leb selected).

#[export] Instance BulyanFilter_filter : UpdateFilter BulyanFilter :=
  {| filter_updates := bulyan_filter |}.

(** Krum applied again and again: each pick is Krum's own choice among what is
    left, and is then taken out of it. *)
Inductive iterated_krum (fr : f32) (us : list ClientDelta) :
    list nat → list nat → list nat → Prop :=
  | iterated_krum_done remaining : iterated_krum fr us remaining [] remaining
  | iterated_krum_pick remaining pool pos i picks rest :
      Forall2 (λ i u, us !! i = Some u) remaining pool →
      krum_filter {| krum_byzantine_fraction := fr |} pool = Ok [pos] →
      remaining !! pos = Some i →
      iterated_krum fr us (delete pos remaining) picks rest →
      iterated_krum fr us remaining (i :: picks) rest.

Lemma iterated_krum_perm fr us remaining picks rest :
  iterated_krum fr us remaining picks rest → remaining ≡ₚ picks ++ rest.
Proof.
  induction 1 as [|?? pos i picks rest _ _ Hi _ IH]; [done|].
  rewrite (delete_Permutation _ _ _ Hi), IH. done.
Qed.

Lemma bulyan_loop_spec us ds fr theta fuel remaining selected :
  decode_and_validate us = Ok ds →
  Forall (λ i, (i < length us)%nat) remaining → (length remaining ≤ fuel)%nat →
  ∃ picks rest, bulyan_loop fuel fr us theta remaining selected = Ok (rest, selected ++ picks) ∧
    iterated_krum fr us remaining picks rest ∧
    (theta ≤ length (selected ++ picks) ∨ length rest ≤ 1)%nat ∧
    (length selected ≤ theta → length (selected ++ picks) ≤ theta)%nat.
Proof.
  intros Hds. revert remaining selected.
  induction fuel as [|fuel IH]; intros remaining selected Hlt Hfuel; simpl;
    (destruct ((length selected <? theta)%nat && (1 <? length remaining)%nat) eqn:Hg;
     [apply andb_true_iff in Hg as [Hg1%Nat.ltb_lt Hg2%Nat.ltb_lt]
     |exists [], remaining; rewrite app_nil_r; split; [done|]; split; [constructor|];
      apply andb_false_iff in Hg as [?%Nat.ltb_ge|?%Nat.ltb_ge]; auto]).
  { lia. }
  destruct (collect_index_ok (E:=AggregatorError) us remaining Hlt) as (pool & -> & Hpool).
  cbn [mbind outcome_bind].
  destruct (select_valid us ds remaining pool Hds Hpool) as (ds' & Hds' & _).
  assert (Hne : pool ≠ []).
  { intros ->. apply Forall2_nil_inv_r in Hpool as ->. simpl in Hg2. lia. }
  destruct (krum_filter_spec {| krum_byzantine_fraction := fr |} pool Hne)
    as [(e & He & _)|(ds'' & pos & s & _ & Hk & Hpos & _)]; [congruence|].
  pose proof Hk as Hk'. unfold krum_filter in Hk'. simpl in Hk'.
  apply bind_ok_inv in Hk' as (scores & -> & (best & Hb & Hk')%bind_ok_inv).
  cbn [mbind outcome_bind]. rewrite Hb. destruct best as [pos'|]; [|done]. injection Hk' as ->.
  cbn [mbind outcome_bind]. rewrite <-(Forall2_length _ _ _ Hpool) in Hpos.
  destruct (index_lt (E:=AggregatorError) remaining pos Hpos) as (i & Hi & ->).
  cbn [mbind outcome_bind].
  assert (Hperm := delete_Permutation _ _ _ Hi).
  assert (Hlt' : Forall (λ i, (i < length us)%nat) (delete pos remaining)).
  { rewrite Hperm in Hlt. by apply Forall_cons in Hlt as [_ ?]. }
  destruct (IH (delete pos remaining) (selected ++ [i]) Hlt') as (picks & rest & -> & Hit & Hend & Hle).
  { rewrite length_delete by eauto. lia. }
  exists (i :: picks), rest. rewrite <-app_assoc in *. simpl in *. split; [done|].
  split; [by econstructor|]. split; [done|]. intros _. apply Hle. rewrite length_app. simpl. lia.
Qed.

Lemma bulyan_filter_spec self us ds :
  let fr := bulyan_byzantine_fraction self in
  let theta := Nat.max (length us - 2 * byzantine_count fr (length us)) 1 in
  us ≠ [] → decode_and_validate us = Ok ds →
  ∃ picks rest sel, bulyan_filter self us = Ok sel ∧ selection_ok (length us) sel ∧
    length sel = theta ∧ iterated_krum fr us (seq 0 (length us)) picks rest ∧
    (sel ≡ₚ picks ∨ sel ≡ₚ picks ++ rest ∧ length rest = 1%nat).
Proof.
  intros fr theta Hus Hds. unfold bulyan_filter. fold fr. fold theta. set (n := length us) in *.
  assert (Hn : n ≠ 0%nat) by (by destruct us).
  destruct (bulyan_loop_spec us ds fr theta n (seq 0 n) [] Hds) as (picks & rest & -> & Hit & Hend & Hle).
  { rewrite Forall_forall. intros i ?%elem_of_seq. fold n. lia. }
  { by rewrite length_seq. }
  cbn [mbind outcome_bind]. rewrite app_nil_l in *. simpl in Hle. specialize (Hle ltac:(lia)).
  pose proof (iterated_krum_perm _ _ _ _ _ Hit) as Hperm.
  assert (Hlen : n = (length picks + length rest)%nat).
  { rewrite <-length_app, <-Hperm. by rewrite length_seq. }
  assert (Hnd : NoDup (picks ++ rest)) by (rewrite <-Hperm; apply NoDup_seq).
  assert (Hin : Forall (λ i, (i < n)%nat) (picks ++ rest)).
  { rewrite <-Hperm, Forall_forall. intros i ?%elem_of_seq. lia. }
  exists picks, rest. destruct (length picks <? theta)%nat eqn:Hc.
  - apply Nat.ltb_lt in Hc. exists (sort_by Nat.leb (picks ++ rest)). split; [done|]. split.
    + apply selection_ok_sort; [done..|]. intros Hnil. apply (f_equal length) in Hnil.
      rewrite length_app in Hnil. simpl in Hnil. lia.
    + rewrite length_sort_by, length_app, sort_by_perm. split; [lia|]. split; [done|]. right.
      split; [done|]. lia.
  - apply Nat.ltb_ge in Hc. exists (sort_by Nat.leb picks). split; [done|].
    apply NoDup_app in Hnd as [? _]. apply Forall_app in Hin as [? _]. split.
    + apply selection_ok_sort; [done..|]. intros ->. simpl in Hc. lia.
    + rewrite length_sort_by, sort_by_perm. split; [lia|]. split; [done|]. by left.
Qed.

(** Two updates or more are validated by the first iteration. *)
Lemma bulyan_filter_invalid self us e :
  us ≠ [] → decode_and_validate us = Err e →
  bulyan_filter self us = Err e ∨ (bulyan_filter self us = Ok (seq 0 (length us))).
Proof.
  intros Hus He. unfold bulyan_filter. set (fr := bulyan_byzantine_fraction self).
  destruct us as [|u [|u' us]]; [done|right|left].
  - simpl. unfold byzantine_count. simpl. rewrite Z.min_r; [done|].
    unfold f32_floor_to_u64, sf_floor_to_u64. case_all; lia.
  - set (l := u :: u' :: us) in *. set (theta := Nat.max _ 1).
    assert (Hg : ((length (A:=nat) [] <? theta)%nat && (1 <? length (seq 0 (length l)))%nat) = true).
    { apply andb_true_iff. rewrite !Nat.ltb_lt, length_seq. simpl. lia. }
    destruct (length l) as [|k] eqn:Hk; [done|]. cbn [bulyan_loop]. rewrite Hg.
    destruct (collect_index_ok (E:=AggregatorError) l (seq 0 (S k))) as (pool & -> & Hpool).
    { rewrite Forall_forall. intros i ?%elem_of_seq. lia. }
    rewrite <-Hk in Hpool. apply Forall2_seq_lookup in Hpool as ->.
    cbn [mbind outcome_bind]. by rewrite (krum_scores_err fr l e He).
Qed.

#[export] Instance BulyanFilter_laws : UpdateFilterLaws BulyanFilter.
Proof.
  assert (Hseq : ∀ n, n ≠ 0%nat → selection_ok n (seq 0 n)).
  { intros n Hn. rewrite <-(sort_by_already_sorted Nat.leb (seq 0 n)).
    - apply selection_ok_sort; [apply NoDup_seq| |by destruct n].
      rewrite Forall_forall. intros i ?%elem_of_seq. lia.
    - generalize 0%nat. induction n as [|n IH]; intros a; simpl; constructor.
      + destruct n; [constructor|]. by apply IH.
      + rewrite Forall_forall. intros j ?%elem_of_seq. apply Nat.leb_le. lia. }
  split; simpl; intros f us r Hus; destruct (decode_and_validate us) as [ds|e|] eqn:Hds;
    try (by apply decode_and_validate_no_panic in Hds);
    try (destruct (bulyan_filter_spec f us ds Hus Hds) as (?&?&sel&->&Hok&_));
    try (destruct (bulyan_filter_invalid f us e Hus Hds) as [-> | ->]); try done.
  - by intros [= <-].
  - intros [= <-]. apply Hseq. by destruct us.
  - eauto.
  - intros [= <-]. auto.
  - by intros [= ->].
Qed.

#[export] Instance BulyanFilter_total : UpdateFilterTotal BulyanFilter.
Proof.
  intros f us Hus. simpl. destruct (decode_and_validate us) as [ds|e|] eqn:Hds.
  - by destruct (bulyan_filter_spec f us ds Hus Hds) as (?&?&?&->&_).
  - by destruct (bulyan_filter_invalid f us e Hus Hds) as [-> | ->].
  - by apply decode_and_validate_no_panic in Hds.
Qed.

(** ** Properties *)

(** C24: on a non-empty batch that validates, Krum keeps exactly one update: one
    whose score (the sum of its squared distances to its nearest neighbours) is
    the least of the batch, the first of them on ties.  It never panics on a
    NaN. *)
Theorem krum_keeps_least_score (self : KrumFilter) (us : list ClientDelta) (ds : list (list f32)) :
  us ≠ [] → decode_and_validate us = Ok ds →
  ∃ i, krum_filter self us = Ok [i] ∧ (i < length us)%nat ∧
    ∀ j, (j < length us)%nat →
      let score := krum_score_of (krum_byzantine_fraction self) ds in
      (score i <=? score j)%f32 = true ∧ ((j < i)%nat → (score j <=? score i)%f32 = false).
Proof.
  intros Hus Hds. destruct (krum_filter_spec self us Hus)
    as [(e & He & _)|(ds' & i & s & Hds' & Hk & Hi & -> & Hmin)]; [congruence|].
  exists i. rewrite Hds in Hds'. injection Hds' as <-. split; [done|]. split; [done|]. exact Hmin.
Qed.

Definition spread_batch : list ClientDelta :=
  [one_delta "outlier" [f32_of_Z 1000; f32_of_Z (-1000)] 1;
   one_delta "a" [f32_of_Z 1; f32_of_Z 1] 1;
   one_delta "b" [f32_of_Z 2; f32_of_Z 1] 1;
   one_delta "c" [f32_of_Z 1; f32_of_Z 2] 1;
   one_delta "d" [f32_of_Z 2; f32_of_Z 3] 1].

Definition spread_rows : list (list f32) :=
  map (λ u, match decode_weights (weights u) with Ok w => w | _ => [] end) spread_batch.

Lemma spread_batch_valid : decode_and_validate spread_batch = Ok spread_rows.
Proof. vm_compute. reflexivity. Qed.

Definition one_fifth : f32 := f32_lit 1 5.

Lemma krum_keeps_least_score_witness :
  krum_filter {| krum_byzantine_fraction := one_fifth |} spread_batch = Ok [1%nat] ∧
  ∃ i, krum_filter {| krum_byzantine_fraction := one_fifth |} spread_batch = Ok [i] ∧ (i < 5)%nat ∧
    ∀ j, (j < 5)%nat →
      let score := krum_score_of one_fifth spread_rows in
      (score i <=? score j)%f32 = true ∧ ((j < i)%nat → (score j <=? score i)%f32 = false).
Proof.
  split; [vm_compute; reflexivity|].
  exact (krum_keeps_least_score {| krum_byzantine_fraction := one_fifth |} spread_batch spread_rows
           ltac:(done) spread_batch_valid).
Defined.

(** On a non-empty batch of [n] updates that validates, Multi-Krum keeps
    exactly [n - f] of them, listed once each in ascending order, and no update
    it drops scores better than one it keeps. *)
Theorem multi_krum_keeps_best (self : MultiKrumFilter) (us : list ClientDelta) (ds : list (list f32)) :
  us ≠ [] → decode_and_validate us = Ok ds →
  let fr := multi_krum_byzantine_fraction self in
  ∃ sel, multi_krum_filter self us = Ok sel ∧ selection_ok (length us) sel ∧
    length sel = (length us - byzantine_count fr (length us))%nat ∧
    ∀ i j, i ∈ sel → (j < length us)%nat → j ∉ sel →
      (krum_score_of fr ds i <=? krum_score_of fr ds j)%f32 = true.
Proof.
  intros Hus Hds fr. destruct (multi_krum_filter_spec self us Hus)
    as [(e & He & _)|(ds' & sel & Hds' & Hk)]; [congruence|].
  exists sel. rewrite Hds in Hds'. by injection Hds' as <-.
Qed.

Lemma multi_krum_keeps_best_witness :
  multi_krum_filter {| multi_krum_byzantine_fraction := one_fifth |} spread_batch =
    Ok [1; 2; 3; 4]%nat ∧
  ∃ sel, multi_krum_filter {| multi_krum_byzantine_fraction := one_fifth |} spread_batch = Ok sel ∧
    selection_ok 5 sel ∧ length sel = (5 - byzantine_count one_fifth 5)%nat ∧
    ∀ i j, i ∈ sel → (j < 5)%nat → j ∉ sel →
      (krum_score_of one_fifth spread_rows i <=? krum_score_of one_fifth spread_rows j)%f32 = true.
Proof.
  split; [vm_compute; reflexivity|].
  exact (multi_krum_keeps_best {| multi_krum_byzantine_fraction := one_fifth |} spread_batch spread_rows
           ltac:(done) spread_batch_valid).
Defined.

(** Bulyan's selection is Krum iterated: the loop ends, each round picks
    Krum's own choice among what is left and removes it, and exactly
    [max (n - 2f) 1] updates survive (the last one left over joins them when
    everyone is kept). *)
Theorem bulyan_is_iterated_krum (self : BulyanFilter) (us : list ClientDelta) (ds : list (list f32)) :
  let fr := bulyan_byzantine_fraction self in
  let n := length us in
  us ≠ [] → decode_and_validate us = Ok ds →
  ∃ picks rest sel, bulyan_filter self us = Ok sel ∧ selection_ok n sel ∧
    length sel = Nat.max (n - 2 * byzantine_count fr n) 1 ∧
    iterated_krum fr us (seq 0 n) picks rest ∧
    (sel ≡ₚ picks ∨ sel ≡ₚ picks ++ rest ∧ length rest = 1%nat).
Proof. apply bulyan_filter_spec. Qed.

Lemma bulyan_is_iterated_krum_witness :
  bulyan_filter {| bulyan_byzantine_fraction := one_fifth |} spread_batch = Ok [1; 2; 3]%nat ∧
  ∃ picks rest sel, bulyan_filter {| bulyan_byzantine_fraction := one_fifth |} spread_batch = Ok sel ∧
    selection_ok 5 sel ∧ length sel = Nat.max (5 - 2 * byzantine_count one_fifth 5) 1 ∧
    iterated_krum one_fifth spread_batch (seq 0 5) picks rest ∧
    (sel ≡ₚ picks ∨ sel ≡ₚ picks ++ rest ∧ length rest = 1%nat).
Proof.
  split; [vm_compute; reflexivity|].
  exact (bulyan_is_iterated_krum {| bulyan_byzantine_fraction := one_fifth |} spread_batch spread_rows
           ltac:(done) spread_batch_valid).
Defined.
