(* ===== verification/Spectral.v ===== *)
(** * FABA and Divide-and-Conquer ([conflux-core/src/robust.rs])

    The two filters that measure an update against the batch's own mean: the
    farthest from it (FABA), or the largest projection on the direction of
    greatest variance (Divide-and-Conquer). *)

From S2P Require Import Prelude Float Wire Weights Averaging Filters Krum.

Open Scope Z_scope.

(** ** FABA *)

Record FabaFilter := { faba_byzantine_fraction : f32 }.

(** [share = 1.0 / remaining.len()], accumulated one row at a time. *)
Definition mean_of (decoded : list (list f32)) (indices : list nat) (dim : nat) : list f32 :=
  let share := (f32_one / f32_of_Z (Z.of_nat (length indices)))%f32 in
  foldl (λ mean i, accumulate_weighted mean (decoded !!! i) share) (replicate dim f32_zero) indices.

(** [for _ in 0..f] with its [break]. *)
Fixpoint faba_loop (f : nat) (decoded : list (list f32)) (remaining : list nat)
    : outcome AggregatorError (list nat) :=
  match f with
  | O => Ok remaining
  | S f =>
      if (length remaining <=? 1)%nat then Ok remaining
      else
        first ← index remaining 0;
        let dim := length (decoded !!! first) in
        let mean := mean_of decoded remaining dim in
        worst ← arg_max (map (λ i, l2_distance (decoded !!! i) mean) remaining);
        match worst with
        | None => Panic
        | Some worst_pos => faba_loop f decoded (delete worst_pos remaining)
        end
  end.

Definition faba_filter (self : FabaFilter) (updates : list ClientDelta)
    : outcome AggregatorError (list nat) :=
  decoded ← decode_and_validate updates;
  let n := length decoded in
  let f := byzantine_count (faba_byzantine_fraction self) n in
  remaining ← faba_loop f decoded (seq 0 n);
  Ok (sort_by Nat.leb remaining).

#[export] Instance FabaFilter_filter : UpdateFilter FabaFilter := {| filter_updates := faba_filter |}.

Lemma faba_loop_ok f ds remaining out :
  faba_loop f ds remaining = Ok out → (f < length remaining)%nat →
  length out = (length remaining - f)%nat ∧ ∃ gone, remaining ≡ₚ out ++ gone.
Proof.
  revert remaining. induction f as [|f IH]; intros remaining; simpl.
  - intros [= <-] _. split; [lia|]. exists []. by rewrite app_nil_r.
  - destruct (length remaining <=? 1)%nat eqn:Hl; [apply Nat.leb_le in Hl; lia|].
    intros (first & _ & (worst & Hw & H)%bind_ok_inv)%bind_ok_inv Hf.
    destruct worst as [pos|]; [|done].
    pose proof (arg_max_in _ _ Hw pos eq_refl) as Hpos. rewrite length_map in Hpos.
    apply lookup_lt_is_Some in Hpos as [i Hi].
    assert (Hlen := length_delete remaining pos ltac:(by eexists)).
    destruct (IH _ H) as [Hout [gone Hp]]; [lia|]. split; [lia|]. exists (i :: gone).
    rewrite (delete_Permutation _ _ _ Hi), Hp. apply Permutation_middle.
Qed.

Lemma faba_loop_not_err f ds remaining e : faba_loop f ds remaining ≠ Err e.
Proof.
  revert remaining. induction f as [|f IH]; intros remaining; simpl; [done|].
  destruct (length remaining <=? 1)%nat; [done|].
  intros [H|(first & _ & [H|(worst & _ & H)]%bind_err_inv)]%bind_err_inv.
  - unfold index in H. by case_match.
  - unfold arg_max in H. apply bind_err_inv in H as [H|(?&_&?)]; [by apply nan_guard_not_err in H|done].
  - destruct worst; [|done]. by apply IH in H.
Qed.

(** What FABA keeps when it returns: exactly [n - f] distinct indices. *)
Lemma faba_filter_ok self us sel :
  us ≠ [] → faba_filter self us = Ok sel →
  selection_ok (length us) sel ∧
  length sel = (length us - byzantine_count (faba_byzantine_fraction self) (length us))%nat ∧
  ∃ ds, decode_and_validate us = Ok ds.
Proof.
  intros Hus (ds & Hds & (rem & Hrem & [= <-])%bind_ok_inv)%bind_ok_inv.
  pose proof (decode_and_validate_length _ _ Hds) as Hl. rewrite Hl in Hrem.
  set (n := length us) in *. assert (Hn : n ≠ 0%nat) by (by destruct us).
  pose proof (byzantine_count_lt (faba_byzantine_fraction self) n Hn).
  apply faba_loop_ok in Hrem as [Hlen [gone Hp]]; rewrite length_seq in *; [|done].
  assert (Hnd : NoDup (rem ++ gone)) by (rewrite <-Hp; apply NoDup_seq).
  assert (Hin : Forall (λ i, (i < n)%nat) (rem ++ gone)).
  { rewrite <-Hp, Forall_forall. intros i ?%elem_of_seq. lia. }
  apply NoDup_app in Hnd as [? _]. apply Forall_app in Hin as [? _].
  split; [|split; [by rewrite length_sort_by|by exists ds]].
  apply selection_ok_sort; [done..|]. intros ->. simpl in Hlen. lia.
Qed.

#[export] Instance FabaFilter_laws : UpdateFilterLaws FabaFilter.
Proof.
  split; simpl; intros f us r Hus H.
  - by apply faba_filter_ok in H as [? _].
  - apply faba_filter_ok in H as (_ & _ & ?); auto.
  - apply bind_err_inv in H as [H|(ds & _ & [H|(?&_&?)]%bind_err_inv)]; [done| |done].
    by apply faba_loop_not_err in H.
Qed.

(** ** Divide-and-Conquer *)

Record DivideAndConquerFilter := { dnc_byzantine_fraction : f32; power_iterations : nat }.

Definition dot (a b : list f32) : f32 := f32_sum (map (λ '(x, y), x * y)%f32 (zip a b)).

(** [1e-12] *)
Definition degenerate_norm : f32 := f32_lit 1 (10 ^ 12).

Definition next_direction (centered : list (list f32)) (v : list f32) (dim : nat) : list f32 :=
  foldl (λ next '(row, p), zip_update (λ n r, n + p * r)%f32 next row)
    (replicate dim f32_zero) (zip centered (map (λ row, dot row v) centered)).

Fixpoint power_loop (iterations : nat) (centered : list (list f32)) (dim : nat) (v : list f32)
    : list f32 :=
  match iterations with
  | O => v
  | S iterations =>
      let next := next_direction centered v dim in
      let norm := f32_sqrt (f32_sum (map (λ x, x * x)%f32 next)) in
      if (degenerate_norm <? norm)%f32
      then power_loop iterations centered dim (map (λ n, n / norm)%f32 next)
      else v
  end.

Definition top_singular_vector (centered : list (list f32)) (iterations : nat) : list f32 :=
  let dim := length (centered !!! 0%nat) in
  power_loop iterations centered dim
    (replicate dim (f32_one / f32_sqrt (f32_of_Z (Z.of_nat dim)))%f32).

Definition dnc_centered (decoded : list (list f32)) : list (list f32) :=
  let n := length decoded in
  let mean := mean_of decoded (seq 0 n) (length (decoded !!! 0%nat)) in
  map (λ row, map (λ '(x, m), x - m)%f32 (zip row mean)) decoded.

Definition divide_and_conquer_filter (self : DivideAndConquerFilter) (updates : list ClientDelta)
    : outcome AggregatorError (list nat) :=
  decoded ← decode_and_validate updates;
  let n := length decoded in
  let f := byzantine_count (dnc_byzantine_fraction self) n in
  if (f =? 0)%nat then Ok (seq 0 n)
  else
    let centered := dnc_centered decoded in
    let v := top_singular_vector centered (power_iterations self) in
    let scores := imap (λ i row, let projection := dot row v in (i, projection * projection)%f32) centered in
    _ ← nan_guard (map snd scores);
    let scores := sort_by (λ a b, (b.2 <=? a.2)%f32) scores in
    let excluded := map fst (take f scores) in
    Ok (base.filter (λ i, i ∉ excluded) (seq 0 n)).

#[export] Instance DivideAndConquerFilter_filter : UpdateFilter DivideAndConquerFilter :=
  {| filter_updates := divide_and_conquer_filter |}.

Definition DivideAndConquerFilter_default : DivideAndConquerFilter :=
  {| dnc_byzantine_fraction := f32_lit 1 5; power_iterations := 30 |}.

(** ** Properties *)

(** Five clients, one of which reports a finite weight of [2^67]. *)
Definition large_batch : list ClientDelta :=
  [one_delta "a" [f32_of_Z 1; f32_of_Z 1] 1;
   one_delta "b" [f32_of_Z 1; f32_of_Z 2] 1;
   one_delta "c" [f32_of_Z 2; f32_of_Z 1] 1;
   one_delta "d" [f32_of_Z 2; f32_of_Z 2] 1;
   one_delta "large" [f32_of_Z (2 ^ 67); f32_of_Z (2 ^ 67)] 1].

(** Validation does not protect Divide-and-Conquer from its own
    [expect("scores are never NaN")]: on a batch of finite weights that
    validates, one large weight overflows the power iteration's norm to
    infinity, the direction becomes NaN, and the filter panics. *)
Theorem divide_and_conquer_panics_on_finite_batch :
  ∃ us ds, decode_and_validate us = Ok ds ∧ (2 ≤ length us)%nat ∧
    divide_and_conquer_filter DivideAndConquerFilter_default us = Panic.
Proof.
  exists large_batch. eexists. split; [vm_compute; reflexivity|].
  split; [simpl; lia|]. vm_compute. reflexivity.
Qed.
