(* ===== verification/Statistics.v ===== *)
(** * Coordinate-wise and whole-vector statistics ([conflux-core/src/robust.rs])

    Trimmed mean, median and median-of-means over one coordinate of every
    update, and the geometric median by Weiszfeld's iteration. *)

From S2P Require Import Prelude Float Wire Weights Averaging Filters Krum.

Open Scope Z_scope.

(** ** One coordinate at a time *)

Class CoordinateWiseRobustStatistic (S : Type) := {
  combine : S → list f32 → outcome AggregatorError f32;
}.

(** A statistic answers on every non-empty column of finite values. *)
Definition answers {S} `{CoordinateWiseRobustStatistic S} (s : S) : Prop :=
  ∀ vs, vs ≠ [] → Forall (λ x, f32_is_finite x = true) vs → ∃ y, combine s vs = Ok y.

Class StatisticTotal (S : Type) `{CoordinateWiseRobustStatistic S} :=
  combine_total s : answers s.

Section coordinate_wise.
Context {S : Type} `{!CoordinateWiseRobustStatistic S}.

Definition coordinate_wise (statistic : S) (updates : list ClientDelta)
    : outcome AggregatorError (list f32) :=
  match updates with
  | [] => Err EmptyBatch
  | _ =>
      decoded ← decode_and_validate updates;
      first ← index decoded 0;
      let dim := length first in
      collect (λ k, column ← collect (λ w, index w k) decoded; combine statistic column) (seq 0 dim)
  end.

#[export] Instance coordinate_wise_aggregator : Aggregator S := stateless_aggregator coordinate_wise.

Definition column (ds : list (list f32)) (k : nat) : list f32 := map (λ w, w !!! k) ds.

Lemma collect_column {E} ds dim k :
  Forall (λ w, length w = dim) ds → (k < dim)%nat →
  collect (λ w, index (E:=E) w k) ds = Ok (column ds k).
Proof.
  intros Hd Hk. apply collect_map. eapply Forall_impl; [exact Hd|]. intros w Hw.
  rewrite <-Hw in Hk. apply lookup_lt_is_Some in Hk as [x Hx].
  unfold index. rewrite Hx. by rewrite (list_lookup_total_correct _ _ _ Hx).
Qed.

Lemma column_finite us ds k :
  decode_and_validate us = Ok ds → ∀ d0, head ds = Some d0 → (k < length d0)%nat →
  Forall (λ x, f32_is_finite x = true) (column ds k).
Proof.
  intros Hds d0 Hd0 Hk. destruct (decode_and_validate_rows _ _ Hds) as [dim Hd].
  assert (dim = length d0) as ->.
  { destruct ds as [|d ds]; [done|]. injection Hd0 as ->. apply Forall_cons in Hd. naive_solver. }
  apply Forall_map. eapply Forall_impl; [exact Hd|]. intros w [Hw Hf].
  rewrite Forall_lookup in Hf. rewrite <-Hw in Hk. apply lookup_lt_is_Some in Hk as [x Hx].
  rewrite (list_lookup_total_correct _ _ _ Hx). by eapply Hf.
Qed.

(** The aggregate is the statistic of each column of the decoded batch. *)
Lemma coordinate_wise_spec s us ds :
  answers s → us ≠ [] → decode_and_validate us = Ok ds →
  ∃ d0 out, head ds = Some d0 ∧ coordinate_wise s us = Ok out ∧ length out = length d0 ∧
    ∀ k, (k < length d0)%nat → ∃ y, combine s (column ds k) = Ok y ∧ out !! k = Some y.
Proof.
  intros Htot Hus Hds. destruct (head_decoded _ _ Hds Hus) as (d0 & Hd0 & Hd0').
  assert (Hrows : Forall (λ w, length w = length d0) ds).
  { destruct (decode_and_validate_rows _ _ Hds) as [dim Hd].
    destruct ds as [|d ds]; [done|]. injection Hd0 as ->.
    pose proof Hd as Hd'. apply Forall_cons in Hd' as [[Hdim _] _].
    eapply Forall_impl; [exact Hd|]. intros w []. congruence. }
  assert (Hall : ∀ k, (k < length d0)%nat → ∃ y, combine s (column ds k) = Ok y).
  { intros k Hk. apply Htot; [|by eapply column_finite].
    unfold column. by destruct ds. }
  assert (∃ out, collect (λ k, col ← collect (λ w, index w k) ds; combine s col)
                   (seq 0 (length d0)) = Ok out) as [out Hout].
  { assert (Hf : Forall (λ k, (k < length d0)%nat) (seq 0 (length d0))).
    { rewrite Forall_forall. intros k ?%elem_of_seq. lia. }
    induction Hf as [|k ks Hk _ [out IH]]; simpl; [by eexists|].
    rewrite (collect_column ds (length d0)) by done. cbn [mbind outcome_bind].
    destruct (Hall k Hk) as [y ->]. simpl. rewrite IH. by eexists. }
  exists d0, out. split; [done|]. split.
  { unfold coordinate_wise. rewrite Hds. destruct us; [done|]. cbn [mbind outcome_bind].
    assert (index (E:=AggregatorError) ds 0 = Ok d0) as -> by (unfold index; by rewrite Hd0').
    exact Hout. }
  apply collect_ok in Hout. split; [by rewrite <-(Forall2_length _ _ _ Hout), length_seq|].
  intros k Hk. destruct (Hall k Hk) as [y Hy]. exists y. split; [done|].
  destruct (Forall2_lookup_l _ _ _ k k Hout) as (y' & Hy' & Hk'); [by apply lookup_seq; lia|].
  rewrite (collect_column ds (length d0)) in Hk' by done. simpl in Hk'. congruence.
Qed.

#[export] Instance coordinate_wise_laws `{!StatisticTotal S} :
  AggregatorLaws S coordinate_wise_aggregator.
Proof.
  split; simpl.
  - done.
  - intros s [|u us] e ? He; [done|]. unfold coordinate_wise. by rewrite He.
  - intros s us out H. assert (Hus : us ≠ []) by (by intros ->).
    destruct (decode_and_validate us) as [ds|e|] eqn:Hds.
    + destruct (coordinate_wise_spec s us ds (combine_total s) Hus Hds) as (d0 & out' & Hd0 & Hout & Hlen & _).
      exists ds. split; [done|]. rewrite H in Hout. injection Hout as <-.
      destruct (decode_and_validate_rows _ _ Hds) as [dim Hd]. destruct ds as [|d ds]; [done|].
      injection Hd0 as ->. split; [done|]. pose proof Hd as Hd'.
      apply Forall_cons in Hd' as [[Hdim _] _].
      eapply Forall_impl; [exact Hd|]. intros w []. congruence.
    + unfold coordinate_wise in H. rewrite Hds in H. by destruct us.
    + by apply decode_and_validate_no_panic in Hds.
  - intros s us. destruct us as [|u us]; [done|].
    destruct (decode_and_validate (u :: us)) as [ds|e|] eqn:Hds.
    + by destruct (coordinate_wise_spec s (u :: us) ds (combine_total s) ltac:(done) Hds) as (?&?&_&->&_).
    + unfold coordinate_wise. by rewrite Hds.
    + by apply decode_and_validate_no_panic in Hds.
Qed.
End coordinate_wise.

(** ** The three statistics *)

Record TrimmedMeanStatistic := { trimmed_byzantine_fraction : f32 }.

Definition trim_count (self : TrimmedMeanStatistic) (n : nat) : nat :=
  Nat.min (byzantine_count (trimmed_byzantine_fraction self) n) ((n - 1) / 2).

(** [&values[trim..n - trim]] *)
Definition slice {A} (lo hi : nat) (l : list A) : outcome AggregatorError (list A) :=
  if (lo <=? hi)%nat && (hi <=? length l)%nat then Ok (take (hi - lo) (drop lo l)) else Panic.

Definition mean_of_values (kept : list f32) : f32 :=
  (f32_sum kept / f32_of_Z (Z.of_nat (length kept)))%f32.

Definition trimmed_mean_combine (self : TrimmedMeanStatistic) (values : list f32)
    : outcome AggregatorError f32 :=
  values ← f32_sort values;
  let n := length values in
  let trim := trim_count self n in
  kept ← slice trim (n - trim) values;
  Ok (mean_of_values kept).

#[export] Instance TrimmedMeanStatistic_combine : CoordinateWiseRobustStatistic TrimmedMeanStatistic :=
  {| combine := trimmed_mean_combine |}.

Inductive MedianStatistic : Type := median_statistic.

Definition middle_of_sorted (values : list f32) : outcome AggregatorError f32 :=
  let n := length values in
  if (n mod 2 =? 1)%nat then index values (n / 2)
  else
    lo ← (if (n / 2 =? 0)%nat then Panic else index values (n / 2 - 1));
    hi ← index values (n / 2);
    Ok ((lo + hi) / f32_of_Z 2)%f32.

Definition median_combine (values : list f32) : outcome AggregatorError f32 :=
  values ← f32_sort values;
  middle_of_sorted values.

#[export] Instance MedianStatistic_combine : CoordinateWiseRobustStatistic MedianStatistic :=
  {| combine _ := median_combine |}.

Record MedianOfMeansStatistic := { group_size : nat }.

(** [slice::chunks]; [size] is at least 1, so [fuel = length l] suffices. *)
Fixpoint chunks_fuel {A} (fuel size : nat) (l : list A) : list (list A) :=
  match fuel, l with
  | S fuel, _ :: _ => take size l :: chunks_fuel fuel size (drop size l)
  | _, _ => []
  end.
Definition chunks {A} (size : nat) (l : list A) : list (list A) := chunks_fuel (length l) size l.

Definition median_of_means_combine (self : MedianOfMeansStatistic) (values : list f32)
    : outcome AggregatorError f32 :=
  let group_size := Nat.max (group_size self) 1 in
  let group_means := map mean_of_values (chunks group_size values) in
  group_means ← f32_sort group_means;
  middle_of_sorted group_means.

#[export] Instance MedianOfMeansStatistic_combine : CoordinateWiseRobustStatistic MedianOfMeansStatistic :=
  {| combine := median_of_means_combine |}.

(** ** Totality *)

Lemma chunks_fuel_concat {A} fuel size (l : list A) :
  (1 ≤ size)%nat → (length l ≤ fuel)%nat → concat (chunks_fuel fuel size l) = l.
Proof.
  intros Hs. revert l. induction fuel as [|fuel IH]; intros [|x l] Hl; simpl in *; try done; try lia.
  rewrite IH; [by rewrite take_drop|]. rewrite length_drop. simpl. lia.
Qed.

(** Each group but the last has [size] members, and no group is empty. *)
Lemma chunks_fuel_sizes {A} fuel size (l : list A) :
  (1 ≤ size)%nat → (length l ≤ fuel)%nat →
  Forall (λ c, (1 ≤ length c ≤ size)%nat) (chunks_fuel fuel size l).
Proof.
  intros Hs. revert l. induction fuel as [|fuel IH]; intros [|x l] Hl; simpl in *; try done; try lia.
  constructor.
  - rewrite length_take. simpl. lia.
  - apply IH. rewrite length_drop. simpl. lia.
Qed.

Lemma f32_add_not_nan_finite x y :
  not_nan x → f32_is_finite y = true → not_nan (x + y).
Proof.
  unfold not_nan, f32_is_nan, f32_is_finite, f32_add, f32_sub. simpl.
  destruct (sf x) as [[]|[]| |[] m e], (sf y) as [[]|[]| |[] m' e']; simpl; try done; intros _ _.
  all: first [apply binary_normalize_not_nan | apply binary_round_not_nan].
Qed.

Lemma f32_sum_not_nan vs : Forall (λ x, f32_is_finite x = true) vs → not_nan (f32_sum vs).
Proof.
  intros Hvs. unfold f32_sum. assert (H0 : not_nan f32_neg_zero) by done. revert H0.
  generalize f32_neg_zero. induction Hvs as [|x vs Hx _ IH]; intros a Ha; simpl; [done|].
  apply IH. by apply f32_add_not_nan_finite.
Qed.

Lemma f32_div_pos_not_nan x y :
  not_nan x → f32_pos y → f32_is_finite y = true → not_nan (x / y).
Proof.
  unfold not_nan, f32_is_nan, f32_pos, f32_is_finite, f32_div. simpl.
  destruct (sf y) as [|[]| |[] m' e']; try done. intros Hx _ _. by apply SFdiv_finite_not_nan.
Qed.


Lemma finite_not_nan vs : Forall (λ x, f32_is_finite x = true) vs → Forall not_nan vs.
Proof. intros H. eapply Forall_impl; [exact H|]. intros x. apply f32_finite_not_nan. Qed.

Lemma trim_count_le self n : (2 * trim_count self n ≤ n - 1)%nat.
Proof. unfold trim_count. pose proof (Nat.div_mod_eq (n - 1) 2). lia. Qed.

(** The trimmed mean, with the slice spelled out. *)
Lemma trimmed_mean_spec self vs :
  Forall not_nan vs →
  let trim := trim_count self (length vs) in
  trimmed_mean_combine self vs =
  Ok (mean_of_values (take (length vs - 2 * trim) (drop trim (sort_by f32_leb vs)))).
Proof.
  intros Hvs trim. unfold trimmed_mean_combine. rewrite f32_sort_ok by done.
  cbn [mbind outcome_bind]. rewrite length_sort_by. fold trim. unfold slice.
  pose proof (trim_count_le self (length vs)) as Ht. fold trim in Ht.
  assert ((trim <=? length vs - trim)%nat = true) as -> by (apply Nat.leb_le; lia).
  assert ((length vs - trim <=? length (sort_by f32_leb vs))%nat = true) as ->
    by (rewrite length_sort_by; apply Nat.leb_le; lia).
  simpl. by replace (length vs - trim - trim)%nat with (length vs - 2 * trim)%nat by lia.
Qed.

#[export] Instance TrimmedMeanStatistic_total : StatisticTotal TrimmedMeanStatistic.
Proof.
  intros s vs _ Hvs. simpl. rewrite trimmed_mean_spec by (by apply finite_not_nan). by eexists.
Qed.

Lemma middle_of_sorted_ok l :
  l ≠ [] →
  ∃ lo hi, l !! ((length l - 1) / 2)%nat = Some lo ∧ l !! (length l / 2)%nat = Some hi ∧
    middle_of_sorted l = Ok (if (length l mod 2 =? 1)%nat then hi else (lo + hi) / f32_of_Z 2)%f32.
Proof.
  intros Hl. assert (Hn : length l ≠ 0%nat) by (by destruct l). set (n := length l) in *.
  pose proof (Nat.div_mod_eq n 2). pose proof (Nat.mod_upper_bound n 2 ltac:(done)).
  pose proof (Nat.div_mod_eq (n - 1) 2). pose proof (Nat.mod_upper_bound (n - 1) 2 ltac:(done)).
  destruct (index_lt (E:=AggregatorError) l ((n - 1) / 2)) as (lo & Hlo & Hlo'); [fold n; lia|].
  destruct (index_lt (E:=AggregatorError) l (n / 2)) as (hi & Hhi & Hhi'); [fold n; lia|].
  exists lo, hi. split; [done|]. split; [done|]. unfold middle_of_sorted. fold n.
  destruct (n mod 2 =? 1)%nat eqn:Hodd; [by rewrite Hhi'|]. apply Nat.eqb_neq in Hodd.
  destruct (n / 2 =? 0)%nat eqn:Hz; [apply Nat.eqb_eq in Hz; lia|].
  replace (n / 2 - 1)%nat with ((n - 1) / 2)%nat by lia.
  rewrite Hlo'. cbn [mbind outcome_bind]. by rewrite Hhi'.
Qed.

Lemma median_combine_ok vs :
  vs ≠ [] → Forall not_nan vs →
  ∃ lo hi, sort_by f32_leb vs !! ((length vs - 1) / 2)%nat = Some lo ∧
    sort_by f32_leb vs !! (length vs / 2)%nat = Some hi ∧
    median_combine vs = Ok (if (length vs mod 2 =? 1)%nat then hi else (lo + hi) / f32_of_Z 2)%f32.
Proof.
  intros Hne Hvs. unfold median_combine. rewrite f32_sort_ok by done. cbn [mbind outcome_bind].
  rewrite <-(length_sort_by f32_leb vs). apply middle_of_sorted_ok.
  intros Hnil. apply Hne. apply Permutation_nil_r. by rewrite <-Hnil, sort_by_perm.
Qed.

#[export] Instance MedianStatistic_total : StatisticTotal MedianStatistic.
Proof.
  intros s vs Hne Hvs. simpl. destruct (median_combine_ok vs Hne) as (lo & hi & _ & _ & ->);
    [by apply finite_not_nan|]. by eexists.
Qed.

Lemma mean_of_values_not_nan vs :
  vs ≠ [] → Z.of_nat (length vs) < 2 ^ 64 → Forall (λ x, f32_is_finite x = true) vs →
  not_nan (mean_of_values vs).
Proof.
  intros Hne Hlen Hvs. apply f32_div_pos_not_nan; [by apply f32_sum_not_nan| |].
  - pose proof (f32_of_Z_zero_or_pos (Z.of_nat (length vs)) ltac:(lia)) as H.
    case_decide as Hz; [|done]. destruct vs; [done|]. simpl in Hz. lia.
  - apply f32_of_Z_finite. lia.
Qed.

(** The group size is a [usize]: a group's mean is then never a NaN. *)
Lemma median_of_means_total self :
  Z.of_nat (Nat.max (group_size self) 1) < 2 ^ 64 → answers self.
Proof.
  intros Hlen vs Hne Hvs. simpl. unfold median_of_means_combine. set (g := Nat.max (group_size self) 1).
  assert (Hg : (1 ≤ g)%nat) by lia.
  pose proof (chunks_fuel_concat (length vs) g vs Hg ltac:(done)) as Hc.
  pose proof (chunks_fuel_sizes (length vs) g vs Hg ltac:(done)) as Hs. fold (chunks g vs) in *.
  assert (Hfin : Forall (λ c, Forall (λ x, f32_is_finite x = true) c) (chunks g vs)).
  { rewrite Forall_forall. intros c (l1 & l2 & Hl)%list_elem_of_split.
    rewrite Hl, concat_app in Hc. simpl in Hc. rewrite <-Hc in Hvs.
    apply Forall_app in Hvs as [_ Hvs]. by apply Forall_app in Hvs as [Hvs _]. }
  rewrite f32_sort_ok; [cbn [mbind outcome_bind]|].
  - destruct (middle_of_sorted_ok (sort_by f32_leb (map mean_of_values (chunks g vs))))
      as (lo & hi & _ & _ & ->); [|by eexists].
    intros Hnil. apply (f_equal length) in Hnil. rewrite length_sort_by, length_map in Hnil.
    destruct (chunks g vs); [simpl in Hc; congruence|done].
  - rewrite Forall_map. rewrite Forall_forall in *. intros c Hin.
    specialize (Hfin c Hin). destruct (Hs c Hin).
    apply mean_of_values_not_nan; [by destruct c; simpl in *; [lia|]|lia|done].
Qed.

(** ** A minority cannot move an order statistic past the honest values *)

Definition between_honest (honest : list f32) (x : f32) : Prop :=
  ∃ a b, a ∈ honest ∧ b ∈ honest ∧ (a <=? x)%f32 = true ∧ (x <=? b)%f32 = true.

Lemma honest_in_longer {A} (l1 l2 h b : list A) :
  l1 ++ l2 ≡ₚ h ++ b → (length b < length l1)%nat → ∃ x, x ∈ l1 ∧ x ∈ h.
Proof.
  intros Hp Hlen.
  assert (Hsub : l1 ⊆+ h ++ b) by (rewrite <-Hp; by apply submseteq_inserts_r).
  apply submseteq_app_r in Hsub as (k1 & k2 & Hk & Hk1 & Hk2).
  apply submseteq_length in Hk2. apply Permutation_length in Hk as Hl. rewrite length_app in Hl.
  destruct k1 as [|x k1]; [simpl in Hl; lia|]. exists x. split.
  - rewrite Hk. set_solver.
  - eapply elem_of_submseteq; [|exact Hk1]. set_solver.
Qed.

Lemma Sorted_by_le {A} (le : A → A → bool) l i j x y :
  Sorted_by le l → (∀ z, z ∈ l → le z z = true) →
  (i ≤ j)%nat → l !! i = Some x → l !! j = Some y → le x y = true.
Proof.
  intros Hs Hrefl Hij Hi Hj. destruct (decide (i = j)) as [->|Hne].
  { simplify_eq. by eapply Hrefl, list_elem_of_lookup_2. }
  rewrite <-(take_drop (S i) l) in Hs, Hj.
  assert (Hx : x ∈ take (S i) l).
  { apply (list_elem_of_lookup_2 _ i). rewrite lookup_take_lt by lia. done. }
  assert (Hy : y ∈ drop (S i) l).
  { rewrite take_drop in Hj. apply (list_elem_of_lookup_2 _ (j - S i)%nat).
    rewrite lookup_drop. by replace (S i + (j - S i))%nat with j by lia. }
  rewrite take_drop in Hs.
  exact (StronglySorted_take_drop (λ x y, le x y = true) l (S i) x y Hs Hx Hy).
Qed.

Lemma order_statistic_between vs honest byz i x :
  Forall not_nan vs → vs ≡ₚ honest ++ byz →
  (length byz ≤ i)%nat → (i + length byz < length vs)%nat →
  sort_by f32_leb vs !! i = Some x → between_honest honest x.
Proof.
  intros Hnn Hp Hi1 Hi2 Hx. set (s := sort_by f32_leb vs) in *.
  assert (Hps : s ≡ₚ honest ++ byz) by (unfold s; by rewrite sort_by_perm).
  assert (Hlen : length s = length vs) by apply length_sort_by.
  assert (Hsort : Sorted_by f32_leb s) by (by apply f32_sort_sorted).
  assert (Hrefl : ∀ z, z ∈ s → (z <=? z)%f32 = true).
  { intros z Hz. apply f32_leb_refl. unfold s in Hz. rewrite sort_by_perm in Hz.
    rewrite Forall_forall in Hnn. auto. }
  destruct (honest_in_longer (take (S i) s) (drop (S i) s) honest byz) as (a & Ha & Hah).
  { by rewrite take_drop. } { rewrite length_take. lia. }
  destruct (honest_in_longer (drop i s) (take i s) honest byz) as (b & Hb & Hbh).
  { by rewrite Permutation_app_comm, take_drop. } { rewrite length_drop. lia. }
  exists a, b. split; [done|]. split; [done|]. split.
  - apply list_elem_of_lookup in Ha as [k Hk]. apply lookup_take_Some in Hk as [Hk Hki].
    eapply (Sorted_by_le _ s k i); eauto. lia.
  - apply list_elem_of_lookup in Hb as [k Hk]. rewrite lookup_drop in Hk.
    eapply (Sorted_by_le _ s i (i + k)); eauto. lia.
Qed.

(** ** Properties *)

(** With at most [trim] Byzantine clients, every value the trimmed mean
    keeps at a coordinate lies between two honest values, and the result is the
    mean of those kept values: it always exists, and at least one value is
    kept. *)
Theorem trimmed_mean_keeps_honest_range
    (self : TrimmedMeanStatistic) (vs honest byz : list f32) :
  vs ≠ [] → Forall not_nan vs → vs ≡ₚ honest ++ byz →
  (length byz ≤ trim_count self (length vs))%nat →
  ∃ kept, combine self vs = Ok (mean_of_values kept) ∧ kept ≠ [] ∧
    length kept = (length vs - 2 * trim_count self (length vs))%nat ∧
    Forall (between_honest honest) kept.
Proof.
  intros Hne Hvs Hp Hb. set (trim := trim_count self (length vs)) in *.
  pose proof (trim_count_le self (length vs)) as Ht. fold trim in Ht.
  assert (Hn : length vs ≠ 0%nat) by (by destruct vs).
  exists (take (length vs - 2 * trim) (drop trim (sort_by f32_leb vs))).
  assert (Hlen : length (take (length vs - 2 * trim) (drop trim (sort_by f32_leb vs))) =
          (length vs - 2 * trim)%nat).
  { rewrite length_take, length_drop, length_sort_by. lia. }
  split; [by apply trimmed_mean_spec|]. split; [|split; [done|]].
  { intros Hnil. rewrite Hnil in Hlen. simpl in Hlen. lia. }
  rewrite Forall_lookup. intros i x [Hi Hlt]%lookup_take_Some. rewrite lookup_drop in Hi.
  eapply order_statistic_between; [done|exact Hp| | |exact Hi]; lia.
Qed.

Definition attacked_column : list f32 :=
  [f32_of_Z 3; f32_of_Z (10 ^ 9); f32_of_Z 1; f32_of_Z 2; f32_of_Z 4].

Lemma trimmed_mean_keeps_honest_range_witness :
  ∃ kept, combine {| trimmed_byzantine_fraction := one_fifth |} attacked_column =
      Ok (mean_of_values kept) ∧ kept ≠ [] ∧
    length kept = (5 - 2 * trim_count {| trimmed_byzantine_fraction := one_fifth |} 5)%nat ∧
    Forall (between_honest [f32_of_Z 1; f32_of_Z 2; f32_of_Z 3; f32_of_Z 4]) kept.
Proof.
  apply (trimmed_mean_keeps_honest_range {| trimmed_byzantine_fraction := one_fifth |}
    attacked_column [f32_of_Z 1; f32_of_Z 2; f32_of_Z 3; f32_of_Z 4] [f32_of_Z (10 ^ 9)]).
  - done.
  - repeat constructor.
  - unfold attacked_column. solve_Permutation.
  - vm_compute. lia.
Defined.

(** With a Byzantine minority, the two middle values the median is made of
    (one and the same for an odd batch) lie between honest values. *)
Theorem median_keeps_honest_range (vs honest byz : list f32) :
  vs ≠ [] → Forall not_nan vs → vs ≡ₚ honest ++ byz → (2 * length byz < length vs)%nat →
  ∃ lo hi, combine median_statistic vs =
      Ok (if (length vs mod 2 =? 1)%nat then hi else (lo + hi) / f32_of_Z 2)%f32 ∧
    between_honest honest lo ∧ between_honest honest hi.
Proof.
  intros Hne Hvs Hp Hb. destruct (median_combine_ok vs Hne Hvs) as (lo & hi & Hlo & Hhi & Hm).
  exists lo, hi. split; [done|].
  pose proof (Nat.div_mod_eq (length vs) 2). pose proof (Nat.mod_upper_bound (length vs) 2 ltac:(done)).
  pose proof (Nat.div_mod_eq (length vs - 1) 2).
  pose proof (Nat.mod_upper_bound (length vs - 1) 2 ltac:(done)).
  split; (eapply order_statistic_between; [done|exact Hp| | |eassumption]; lia).
Qed.

Lemma median_keeps_honest_range_witness :
  ∃ lo hi, combine median_statistic attacked_column =
      Ok (if (5 mod 2 =? 1)%nat then hi else (lo + hi) / f32_of_Z 2)%f32 ∧
    between_honest [f32_of_Z 1; f32_of_Z 2; f32_of_Z 3; f32_of_Z 4] lo ∧
    between_honest [f32_of_Z 1; f32_of_Z 2; f32_of_Z 3; f32_of_Z 4] hi.
Proof.
  apply (median_keeps_honest_range
    attacked_column [f32_of_Z 1; f32_of_Z 2; f32_of_Z 3; f32_of_Z 4] [f32_of_Z (10 ^ 9)]).
  - done.
  - repeat constructor.
  - unfold attacked_column. solve_Permutation.
  - vm_compute. lia.
Defined.

(** ** Whole vectors *)

Record GeometricMedianStatistic := { weiszfeld_iterations : nat }.

(** [1e-6] *)
Definition EPS : f32 := f32_lit 1 (10 ^ 6).

(** [acc[k] += normalized * x[k]] over the batch; [weights] sum to [total]. *)
Definition weighted_step (weights : list f32) (rows : list (list f32)) (total : f32) (dim : nat)
    : list f32 :=
  foldl (λ acc '(w, v), let normalized := (w / total)%f32 in
                        zip_update (λ e x, e + normalized * x)%f32 acc v)
    (replicate dim f32_zero) (zip weights rows).

Fixpoint weiszfeld (iterations : nat) (weights : list f32) (rows : list (list f32)) (dim : nat)
    (estimate : list f32) : list f32 :=
  match iterations with
  | O => estimate
  | S iterations =>
      let inverse_distance_weights :=
        map (λ '(w, v), w / f32_max (l2_distance v estimate) EPS)%f32 (zip weights rows) in
      let weight_sum := f32_sum inverse_distance_weights in
      if (weight_sum <=? f32_zero)%f32 || negb (f32_is_finite weight_sum) then estimate
      else weiszfeld iterations weights rows dim
             (weighted_step inverse_distance_weights rows weight_sum dim)
  end.

Definition geometric_median (self : GeometricMedianStatistic) (weights : list f32)
    (rows : list (list f32)) (dim : nat) : list f32 :=
  let total_weight := f32_sum weights in
  let estimate :=
    if (f32_zero <? total_weight)%f32 then weighted_step weights rows total_weight dim
    else replicate dim f32_zero in
  weiszfeld (weiszfeld_iterations self) weights rows dim estimate.

Definition vector_robust (self : GeometricMedianStatistic) (updates : list ClientDelta)
    : outcome AggregatorError (list f32) :=
  match updates with
  | [] => Err EmptyBatch
  | _ =>
      decoded ← decode_and_validate updates;
      first ← index decoded 0;
      Ok (geometric_median self (map (λ u, f32_of_Z (num_samples u)) updates) decoded (length first))
  end.

#[export] Instance vector_robust_aggregator : Aggregator GeometricMedianStatistic :=
  stateless_aggregator vector_robust.

Lemma length_weighted_step ws rows t dim : length (weighted_step ws rows t dim) = dim.
Proof.
  unfold weighted_step. rewrite length_foldl_acc; [by rewrite length_replicate|].
  intros acc []. apply length_zip_update.
Qed.

Lemma length_weiszfeld iterations ws rows dim e :
  length e = dim → length (weiszfeld iterations ws rows dim e) = dim.
Proof.
  revert e. induction iterations as [|k IH]; intros e He; simpl; [done|].
  case_match; [done|]. apply IH, length_weighted_step.
Qed.

Lemma length_geometric_median self ws rows dim :
  length (geometric_median self ws rows dim) = dim.
Proof.
  apply length_weiszfeld. case_match; [apply length_weighted_step|apply length_replicate].
Qed.

#[export] Instance vector_robust_laws :
  AggregatorLaws GeometricMedianStatistic vector_robust_aggregator.
Proof.
  assert (Hok : ∀ st us ds, us ≠ [] → decode_and_validate us = Ok ds →
    ∃ d0, head ds = Some d0 ∧ vector_robust st us =
      Ok (geometric_median st (map (λ u, f32_of_Z (num_samples u)) us) ds (length d0))).
  { intros st us ds Hus Hds. destruct (head_decoded _ _ Hds Hus) as (d0 & Hd0 & Hd0').
    exists d0. split; [done|]. unfold vector_robust. rewrite Hds. cbn [mbind outcome_bind].
    unfold index. rewrite Hd0'. by destruct us. }
  assert (Herr : ∀ st us e, us ≠ [] → decode_and_validate us = Err e → vector_robust st us = Err e).
  { intros st us e Hus He. unfold vector_robust. rewrite He. by destruct us. }
  split; simpl.
  - done.
  - auto.
  - intros st us out H. assert (Hus : us ≠ []) by (by intros ->).
    destruct (decode_and_validate us) as [ds|e|] eqn:Hds.
    + destruct (Hok st us ds Hus Hds) as (d0 & Hd0 & Hr). rewrite H in Hr. injection Hr as ->.
      exists ds. rewrite length_geometric_median.
      destruct (decode_and_validate_rows _ _ Hds) as [dim Hd]. destruct ds as [|d ds]; [done|].
      injection Hd0 as ->. split; [done|]. split; [done|]. pose proof Hd as Hd'.
      apply Forall_cons in Hd' as [[Hdim _] _].
      eapply Forall_impl; [exact Hd|]. intros w []. congruence.
    + rewrite (Herr st us e) in H by done. done.
    + by apply decode_and_validate_no_panic in Hds.
  - intros st us. destruct us as [|u us]; [done|].
    destruct (decode_and_validate (u :: us)) as [ds|e|] eqn:Hds.
    + destruct (Hok st (u :: us) ds ltac:(done) Hds) as (d0 & _ & ->). done.
    + by rewrite (Herr st (u :: us) e).
    + by apply decode_and_validate_no_panic in Hds.
Qed.

(** The trimmed mean and the median can return an infinite aggregate from
    finite updates: the kept values are summed before they are divided. *)
Theorem median_overflows_on_finite_values :
  ∃ vs, Forall (λ x, f32_is_finite x = true) vs ∧
    (∃ y, combine median_statistic vs = Ok y ∧ f32_is_finite y = false) ∧
    (∃ y, combine {| trimmed_byzantine_fraction := f32_zero |} vs = Ok y ∧ f32_is_finite y = false).
Proof.
  exists [f32_of_Z (2 ^ 127); f32_of_Z (2 ^ 127)].
  split; [by repeat constructor|]. split; eexists; (split; [vm_compute; reflexivity|done]).
Qed.
