(* ===== verification/Trusted.v ===== *)
(** * Methods anchored to server-side data ([conflux-core/src/trusted.rs])

    FLTrust scales every update to the server's own reference update and weighs
    it by its cosine with it; Zeno ranks candidates by scores computed on held
    out data.  Both keep what was injected for the round behind a mutex: the
    state of the model. *)

From S2P Require Import Prelude Float Wire Weights Averaging Filters Krum.

Open Scope Z_scope.

(** ** Norms in double precision *)

Definition f64_sum (l : list f64) : f64 := foldl f64_add (S754_zero true) l.

Definition l2_norm_f64 (v : list f32) : f64 :=
  f64_sqrt (f64_sum (map (λ x, f64_mul (f64_of_f32 x) (f64_of_f32 x)) v)).

Definition cosine_similarity_f64 (a b : list f32) : f64 :=
  let dot := f64_sum (map (λ '(x, y), f64_mul (f64_of_f32 x) (f64_of_f32 y)) (zip a b)) in
  let norm_a := l2_norm_f64 a in
  let norm_b := l2_norm_f64 b in
  if SFeqb norm_a f64_zero || SFeqb norm_b f64_zero then f64_zero
  else f64_div dot (f64_mul norm_a norm_b).

(** ** FLTrust *)

Record FlTrustAggregator := { fltrust_reference : option TrustedReference }.

Definition fltrust_new : FlTrustAggregator := {| fltrust_reference := None |}.

Definition vec_sub (a b : list f32) : list f32 := map (λ '(x, y), x - y)%f32 (zip a b).

(** [TSᵢ = ReLU(cos(gᵢ, g₀))] *)
Definition trust_score (g0 global update : list f32) : f64 :=
  f64_max (cosine_similarity_f64 (vec_sub update global) g0) f64_zero.

Definition trusted (g0 global update : list f32) : bool :=
  negb (SFleb (trust_score g0 global update) f64_zero) &&
  negb (SFeqb (l2_norm_f64 (vec_sub update global)) f64_zero).

(** One turn of the loop over the batch; both [continue]s leave the state. *)
Definition fltrust_step (g0 global : list f32) (st : f64 * list f64) (update : list f32)
    : f64 * list f64 :=
  let '(trust_sum, combined) := st in
  let gi := vec_sub update global in
  let trust := trust_score g0 global update in
  if SFleb trust f64_zero then st
  else
    let gi_norm := l2_norm_f64 gi in
    if SFeqb gi_norm f64_zero then st
    else
      let scale := f64_div (l2_norm_f64 g0) gi_norm in
      (f64_add trust_sum trust,
       zip_update (λ acc g, f64_add acc (f64_mul (f64_mul trust scale) (f64_of_f32 g))) combined gi).

Definition fltrust_aggregate (self : FlTrustAggregator) (updates : list ClientDelta)
    : outcome AggregatorError (list f32) :=
  match updates with
  | [] => Err EmptyBatch
  | _ =>
      decoded ← decode_and_validate updates;
      first ← index decoded 0;
      let dim := length first in
      match fltrust_reference self with
      | None => Err MissingTrustedReference
      | Some reference =>
          let global := ref_global_weights reference in
          if negb (length global =? dim)%nat || negb (length (reference_weights reference) =? dim)%nat
          then Err (TrustedReferenceDimension dim (length global) (length (reference_weights reference)))
          else
            let g0 := vec_sub (reference_weights reference) global in
            let '(trust_sum, combined) :=
              foldl (fltrust_step g0 global) (f64_zero, replicate dim f64_zero) decoded in
            if SFleb trust_sum f64_zero then Ok global
            else Ok (map (λ '(w, acc), f32_of_f64 (f64_add (f64_of_f32 w) (f64_div acc trust_sum)))
                       (zip global combined))
      end
  end.

#[export] Instance FlTrust_aggregator : Aggregator FlTrustAggregator := {|
  aggregate st updates := (st, fltrust_aggregate st updates);
  requires_trusted_reference _ := true;
  set_trusted_reference reference _ := {| fltrust_reference := Some reference |};
  agg_control_variate _ := None;
  requires_candidate_scores _ := false;
  set_candidate_scores _ st := st;
|}.

Lemma fltrust_step_skips g0 global st update :
  trusted g0 global update = false → fltrust_step g0 global st update = st.
Proof.
  unfold trusted, fltrust_step. destruct st as [s c].
  destruct (SFleb _ _); [done|]. destruct (SFeqb _ _); done.
Qed.

Lemma fltrust_fold_filter g0 global ds st :
  foldl (fltrust_step g0 global) st ds =
  foldl (fltrust_step g0 global) st (base.filter (λ d, trusted g0 global d = true) ds).
Proof.
  revert st. induction ds as [|d ds IH]; intros st; simpl; [done|].
  rewrite filter_cons. case_decide as Hd; simpl; [apply IH|].
  rewrite fltrust_step_skips by (by destruct (trusted g0 global d)). apply IH.
Qed.

Lemma length_fltrust_fold g0 global ds s c :
  length (foldl (fltrust_step g0 global) (s, c) ds).2 = length c.
Proof.
  revert s c. induction ds as [|d ds IH]; intros s c; simpl; [done|].
  destruct (SFleb _ _); [apply IH|]. destruct (SFeqb _ _); [apply IH|].
  by rewrite IH, length_zip_update.
Qed.

(** What the aggregation returns on a batch that validates. *)
Definition fltrust_result (reference : TrustedReference) (ds : list (list f32)) (dim : nat) : list f32 :=
  let global := ref_global_weights reference in
  let g0 := vec_sub (reference_weights reference) global in
  let r := foldl (fltrust_step g0 global) (f64_zero, replicate dim f64_zero) ds in
  if SFleb r.1 f64_zero then global
  else map (λ '(w, acc), f32_of_f64 (f64_add (f64_of_f32 w) (f64_div acc r.1))) (zip global r.2).

Lemma fltrust_aggregate_valid self us ds d0 :
  decode_and_validate us = Ok ds → head ds = Some d0 →
  fltrust_aggregate self us =
  match fltrust_reference self with
  | None => Err MissingTrustedReference
  | Some reference =>
      if decide (length (ref_global_weights reference) = length d0 ∧
                 length (reference_weights reference) = length d0)
      then Ok (fltrust_result reference ds (length d0))
      else Err (TrustedReferenceDimension (length d0) (length (ref_global_weights reference))
                  (length (reference_weights reference)))
  end.
Proof.
  intros Hds Hd0. pose proof (decode_and_validate_length _ _ Hds) as Hl.
  destruct us as [|u us]; [by destruct ds|]. unfold fltrust_aggregate. rewrite Hds.
  destruct ds as [|d ds]; [done|]. injection Hd0 as ->. cbn [mbind outcome_bind index lookup list_lookup].
  destruct (fltrust_reference self) as [r|]; [|done].
  destruct (length (ref_global_weights r) =? length d0)%nat eqn:H1,
    (length (reference_weights r) =? length d0)%nat eqn:H2; cbn [negb orb];
    rewrite ?Nat.eqb_eq, ?Nat.eqb_neq in *; case_decide; try naive_solver.
  unfold fltrust_result. destruct (foldl _ _ _) as [ts c]. simpl. by destruct (SFleb ts _).
Qed.

#[export] Instance FlTrust_laws : AggregatorLaws FlTrustAggregator FlTrust_aggregator.
Proof.
  split; simpl.
  - done.
  - intros st [|u us] e ? He; [done|]. unfold fltrust_aggregate. by rewrite He.
  - intros st us out H. assert (Hus : us ≠ []) by (by intros ->).
    destruct (decode_and_validate us) as [ds|e|] eqn:Hds.
    + destruct (head_decoded _ _ Hds Hus) as (d0 & Hd0 & _). exists ds. split; [done|].
      rewrite (fltrust_aggregate_valid st us ds d0 Hds Hd0) in H.
      destruct (fltrust_reference st) as [r|]; [|done]. case_decide as Hd; [|done]. injection H as <-.
      assert (length (fltrust_result r ds (length d0)) = length d0) as ->.
      { destruct Hd as [Hd1 Hd2]. unfold fltrust_result. cbv zeta.
        destruct (SFleb _ _); [exact Hd1|].
        rewrite length_map, length_zip_with, length_fltrust_fold, length_replicate. lia. }
      destruct (decode_and_validate_rows _ _ Hds) as [dim Hrows]. destruct ds as [|d ds]; [done|].
      injection Hd0 as ->. split; [done|]. pose proof Hrows as Hr. apply Forall_cons in Hr as [[? _] _].
      eapply Forall_impl; [exact Hrows|]. intros w []. congruence.
    + unfold fltrust_aggregate in H. rewrite Hds in H. by destruct us.
    + by apply decode_and_validate_no_panic in Hds.
  - intros st us. destruct us as [|u us]; [done|].
    destruct (decode_and_validate (u :: us)) as [ds|e|] eqn:Hds.
    + destruct (head_decoded _ _ Hds ltac:(done)) as (d0 & Hd0 & _).
      rewrite (fltrust_aggregate_valid st _ ds d0 Hds Hd0). by repeat case_match.
    + unfold fltrust_aggregate. by rewrite Hds.
    + by apply decode_and_validate_no_panic in Hds.
Qed.

(** ** Zeno *)

Record ZenoAggregator := {
  zeno_byzantine_fraction : f32;
  rho : f32;
  scores : option CandidateScores;
}.

(** [into_iter().collect::<HashMap<_, _>>()]: a later entry replaces an earlier. *)
Definition scores_by_client (l : list (string * f32)) : gmap string f32 :=
  foldl (λ m '(k, v), <[k := v]> m) ∅ l.

Definition suspicion (rho : f32) (global : list f32) (score : f32) (w : list f32) : f64 :=
  let norm_sq := f64_sum (map (λ '(y, x), let d := f64_sub (f64_of_f32 y) (f64_of_f32 x) in f64_mul d d)
                              (zip w global)) in
  let sds := f64_sub (f64_of_f32 score) (f64_mul (f64_of_f32 rho) norm_sq) in
  if sf_is_finite sds then sds else S754_infinity true.

Fixpoint zeno_rank (rho : f32) (global : list f32) (by_client : gmap string f32) (i : nat)
    (batch : list (ClientDelta * list f32)) : outcome AggregatorError (list (nat * f64)) :=
  match batch with
  | [] => Ok []
  | (update, weights) :: batch =>
      match by_client !! client_id update with
      | None => Err (UnscoredClient (client_id update))
      | Some score =>
          rest ← zeno_rank rho global (delete (client_id update) by_client) (S i) batch;
          Ok ((i, suspicion rho global score weights) :: rest)
      end
  end.

(** [f64::total_cmp] on values that are not NaN: [-0.0] is below [0.0]. *)
Definition f64_total_leb (x y : f64) : bool :=
  match SFcompare x y with
  | Some Lt => true
  | Some Eq => match x, y with S754_zero false, S754_zero true => false | _, _ => true end
  | _ => false
  end.

Definition zeno_kept (ranked : list (nat * f64)) (keep : nat) : list (nat * f64) :=
  take keep (sort_by (λ a b, f64_total_leb b.2 a.2) ranked).

Definition zeno_mean (decoded : list (list f32)) (kept : list nat) (dim : nat) : list f32 :=
  let share := (f32_one / f32_of_Z (Z.of_nat (length kept)))%f32 in
  foldl (λ out i, zip_update (λ acc w, acc + w * share)%f32 out (decoded !!! i))
    (replicate dim f32_zero) kept.

Definition zeno_take (self : ZenoAggregator) : ZenoAggregator :=
  {| zeno_byzantine_fraction := zeno_byzantine_fraction self; rho := rho self; scores := None |}.

Definition zeno_aggregate (self : ZenoAggregator) (updates : list ClientDelta)
    : ZenoAggregator * outcome AggregatorError (list f32) :=
  match updates with
  | [] => (self, Err EmptyBatch)
  | _ =>
      match decode_and_validate updates with
      | Err e => (self, Err e)
      | Panic => (self, Panic)
      | Ok decoded =>
          let dim := length (decoded !!! 0%nat) in
          (zeno_take self,
           match scores self with
           | None => Err MissingCandidateScores
           | Some injected =>
               let global := scores_global_weights injected in
               if negb (length global =? dim)%nat
               then Err (CandidateScoresDimension dim (length global))
               else
                 ranked ← zeno_rank (rho self) global (scores_by_client (candidate_scores injected)) 0
                            (zip updates decoded);
                 let drop := byzantine_count (zeno_byzantine_fraction self) (length updates) in
                 let kept := zeno_kept ranked (length updates - drop) in
                 Ok (zeno_mean decoded (map fst kept) dim)
           end)
      end
  end.

#[export] Instance Zeno_aggregator : Aggregator ZenoAggregator := {|
  aggregate := zeno_aggregate;
  requires_trusted_reference _ := false;
  set_trusted_reference _ st := st;
  agg_control_variate _ := None;
  requires_candidate_scores _ := true;
  set_candidate_scores injected st :=
    {| zeno_byzantine_fraction := zeno_byzantine_fraction st; rho := rho st; scores := Some injected |};
|}.

Lemma f64_total_leb_total x y :
  sf_is_nan x = false → sf_is_nan y = false →
  f64_total_leb x y = true ∨ f64_total_leb y x = true.
Proof.
  intros Hx Hy. unfold f64_total_leb. rewrite !SFcompare_key by done.
  lex_cases; try (by left); try (by right); try lia; destruct x as [[]| | |], y as [[]| | |]; auto.
Qed.

Lemma f64_total_leb_trans x y z :
  sf_is_nan x = false → sf_is_nan y = false → sf_is_nan z = false →
  f64_total_leb x y = true → f64_total_leb y z = true → f64_total_leb x z = true.
Proof.
  intros Hx Hy Hz. unfold f64_total_leb. rewrite !SFcompare_key by done.
  destruct x as [[]|[]| |[] m e], y as [[]|[]| |[] m' e'], z as [[]|[]| |[] m'' e'']; try done; intros ??;
    simpl in *; lex_cases; simpl in *; try done; lia.
Qed.

Lemma suspicion_not_nan rho g s w : sf_is_nan (suspicion rho g s w) = false.
Proof. unfold suspicion. case_match eqn:H; [|done]. revert H. by destruct (f64_sub _ _). Qed.

(** The score a client holds, as the map built from the injected list has it. *)
Definition sds_of (self : ZenoAggregator) (injected : CandidateScores) (u : ClientDelta) (w : list f32)
    : option f64 :=
  (λ s, suspicion (rho self) (scores_global_weights injected) s w) <$>
    scores_by_client (candidate_scores injected) !! client_id u.

Lemma zeno_rank_ok rho g m i batch :
  NoDup (map (client_id ∘ fst) batch) →
  Forall (λ p, is_Some (m !! client_id p.1)) batch →
  zeno_rank rho g m i batch =
  Ok (imap (λ k p, ((i + k)%nat, suspicion rho g (m !!! client_id p.1) p.2)) batch).
Proof.
  revert m i. induction batch as [|[u w] batch IH]; intros m i Hnd Hs; simpl; [done|].
  apply NoDup_cons in Hnd as [Hnin Hnd]. apply Forall_cons in Hs as [[s Hu] Hs]. simpl in *.
  rewrite Hu. rewrite IH; [|done|].
  - simpl. rewrite Nat.add_0_r. rewrite (lookup_total_correct _ _ _ Hu). do 2 f_equal.
    apply imap_ext. intros k [u' w'] Hk. simpl. f_equal; [lia|]. f_equal.
    rewrite lookup_total_delete_ne; [done|]. intros Heq. apply Hnin. rewrite Heq.
    apply list_elem_of_In, in_map_iff. exists (u', w'). split; [done|].
    apply list_elem_of_In. by eapply list_elem_of_lookup_2.
  - rewrite Forall_forall in *. intros p Hp. rewrite lookup_delete_ne; [by apply Hs|].
    intros Heq. apply Hnin. rewrite Heq. apply list_elem_of_In, in_map_iff. exists p.
    split; [done|]. by apply list_elem_of_In.
Qed.

Lemma zeno_aggregate_valid self us ds d0 :
  us ≠ [] → decode_and_validate us = Ok ds → ds !! 0%nat = Some d0 →
  zeno_aggregate self us =
  (zeno_take self,
   match scores self with
   | None => Err MissingCandidateScores
   | Some injected =>
       if decide (length (scores_global_weights injected) = length d0) then
         ranked ← zeno_rank (rho self) (scores_global_weights injected)
                    (scores_by_client (candidate_scores injected)) 0 (zip us ds);
         let drop := byzantine_count (zeno_byzantine_fraction self) (length us) in
         Ok (zeno_mean ds (map fst (zeno_kept ranked (length us - drop))) (length d0))
       else Err (CandidateScoresDimension (length d0) (length (scores_global_weights injected)))
   end).
Proof.
  intros Hus Hds Hd0. destruct us as [|u us]; [done|]. unfold zeno_aggregate. rewrite Hds.
  rewrite (list_lookup_total_correct _ _ _ Hd0). f_equal.
  destruct (scores self) as [inj|]; [|done].
  destruct (length (scores_global_weights inj) =? length d0)%nat eqn:Hl; simpl;
    rewrite ?Nat.eqb_eq, ?Nat.eqb_neq in *; by case_decide.
Qed.

(** Keeping the first of a ranking: the kept positions are distinct positions of
    the batch, and no dropped score beats a kept one. *)
Lemma zeno_kept_spec (ranked : list (nat * f64)) (n k : nat) :
  map fst ranked = seq 0 n → (k ≤ n)%nat → Forall (λ p, sf_is_nan p.2 = false) ranked →
  let kept := map fst (zeno_kept ranked k) in
  NoDup kept ∧ length kept = k ∧ (∀ i, i ∈ kept → (i < n)%nat) ∧
  ∀ i j s s', i ∈ kept → j ∉ kept → (i, s) ∈ ranked → (j, s') ∈ ranked → f64_total_leb s' s = true.
Proof.
  apply (take_ranked_spec (λ x y, f64_total_leb y x) (λ x, sf_is_nan x = false)).
  - intros x y Hx Hy. by apply f64_total_leb_total.
  - intros x y z Hx Hy Hz ??. by apply (f64_total_leb_trans z y x).
Qed.

(** The ranking of a batch, by position. *)
Lemma ranked_elem rho g (m : gmap string f32) us ds i s :
  (i, s) ∈ imap (λ k (p : ClientDelta * list f32), ((0 + k)%nat, suspicion rho g (m !!! client_id p.1) p.2)) (zip us ds) ↔
  ∃ u w, us !! i = Some u ∧ ds !! i = Some w ∧ s = suspicion rho g (m !!! client_id u) w.
Proof.
  rewrite list_elem_of_lookup. setoid_rewrite list_lookup_imap. setoid_rewrite lookup_zip_with. split.
  - intros (k & Hk). destruct (us !! k) as [u|] eqn:Hu; [|done].
    destruct (ds !! k) as [w|] eqn:Hw; [|done]. simpl in Hk. injection Hk as <- <-. by exists u, w.
  - intros (u & w & Hu & Hw & ->). exists i. by rewrite Hu, Hw.
Qed.

Lemma ranked_positions rho g (m : gmap string f32) us ds :
  length ds = length us →
  map fst (imap (λ k (p : ClientDelta * list f32), ((0 + k)%nat, suspicion rho g (m !!! client_id p.1) p.2)) (zip us ds)) =
  seq 0 (length us).
Proof.
  intros Hlen. apply list_eq. intros i. rewrite list_lookup_fmap, list_lookup_imap, lookup_zip_with.
  destruct (decide (i < length us)%nat) as [Hi|Hi].
  - rewrite lookup_seq_lt by done. destruct (lookup_lt_is_Some_2 us i Hi) as [u Hu].
    rewrite <-Hlen in Hi. destruct (lookup_lt_is_Some_2 ds i Hi) as [w Hw]. by rewrite Hu, Hw.
  - rewrite (lookup_ge_None_2 us) by lia.
    by rewrite (lookup_ge_None_2 (seq 0 (length us))) by (rewrite length_seq; lia).
Qed.

Lemma sds_of_suspicion self injected u w s :
  sds_of self injected u w = Some s →
  s = suspicion (rho self) (scores_global_weights injected)
        (scores_by_client (candidate_scores injected) !!! client_id u) w.
Proof.
  unfold sds_of. destruct (_ !! client_id u) eqn:Hm; [|done]. intros [= <-].
  by rewrite (lookup_total_correct _ _ _ Hm).
Qed.

Lemma client_ids_zip (us : list ClientDelta) (ds : list (list f32)) :
  length ds = length us → map (client_id ∘ fst) (zip us ds) = map client_id us.
Proof. revert ds. induction us as [|u us IH]; intros [|d ds]; simpl; try done. intros [= Hl]. by rewrite IH. Qed.

(** ** Properties *)

(** FLTrust gives a distrusted client no influence at all: on a valid batch
    the result is the one it would compute from the trusted rows alone, and
    when no row is trusted it is the global model, unchanged. *)
Theorem fltrust_ignores_distrusted
    (reference : TrustedReference) (us : list ClientDelta) (ds : list (list f32)) (d0 : list f32) :
  decode_and_validate us = Ok ds → head ds = Some d0 →
  length (ref_global_weights reference) = length d0 →
  length (reference_weights reference) = length d0 →
  let g0 := vec_sub (reference_weights reference) (ref_global_weights reference) in
  let kept := base.filter (λ d, trusted g0 (ref_global_weights reference) d = true) ds in
  fltrust_aggregate {| fltrust_reference := Some reference |} us =
    Ok (fltrust_result reference kept (length d0)) ∧
  (kept = [] → fltrust_aggregate {| fltrust_reference := Some reference |} us =
     Ok (ref_global_weights reference)).
Proof.
  intros Hds Hd0 Hg Hr g0 kept. rewrite (fltrust_aggregate_valid _ us ds d0 Hds Hd0). simpl.
  rewrite decide_True by done. unfold fltrust_result. fold g0. rewrite fltrust_fold_filter. fold kept.
  split; [done|]. by intros ->.
Qed.

Definition small_reference : TrustedReference :=
  {| ref_global_weights := [f32_of_Z 0; f32_of_Z 0]; reference_weights := [f32_of_Z 1; f32_of_Z 1] |}.

Definition hostile_pair : list ClientDelta :=
  [one_delta "hostile" [f32_of_Z (-100); f32_of_Z (-100)] 1; one_delta "idle" [f32_of_Z 0; f32_of_Z 0] 1].

Lemma fltrust_ignores_distrusted_witness :
  fltrust_aggregate {| fltrust_reference := Some small_reference |} hostile_pair =
    Ok [f32_of_Z 0; f32_of_Z 0].
Proof.
  assert (Hds : decode_and_validate hostile_pair =
            Ok [[f32_of_Z (-100); f32_of_Z (-100)]; [f32_of_Z 0; f32_of_Z 0]])
    by (vm_compute; reflexivity).
  destruct (fltrust_ignores_distrusted small_reference hostile_pair _ _ Hds eq_refl eq_refl eq_refl)
    as [_ H]. apply H. vm_compute. reflexivity.
Defined.

(** Zeno's scores describe one batch: any aggregation that gets past
    validation consumes them, whatever it returns, so the next round without an
    injection is refused with [MissingCandidateScores] rather than ranked by
    stale numbers. *)
Theorem zeno_scores_are_consumed (self : ZenoAggregator) (us us' : list ClientDelta) ds ds' :
  us ≠ [] → decode_and_validate us = Ok ds → us' ≠ [] → decode_and_validate us' = Ok ds' →
  scores (zeno_aggregate self us).1 = None ∧
  (zeno_aggregate (zeno_aggregate self us).1 us').2 = Err MissingCandidateScores.
Proof.
  intros Hus Hds Hus' Hds'. destruct (head_decoded _ _ Hds Hus) as (d0 & _ & Hd0).
  destruct (head_decoded _ _ Hds' Hus') as (d0' & _ & Hd0').
  rewrite (zeno_aggregate_valid self us ds d0) by done. simpl. split; [done|].
  by rewrite (zeno_aggregate_valid _ us' ds' d0').
Qed.

Definition scored_zeno : ZenoAggregator :=
  {| zeno_byzantine_fraction := one_fifth; rho := f32_lit 1 2000;
     scores := Some {| scores_global_weights := [f32_of_Z 0; f32_of_Z 0];
                       candidate_scores := [("outlier"%string, f32_of_Z 1); ("a"%string, f32_of_Z 2);
                         ("b"%string, f32_of_Z 3); ("c"%string, f32_of_Z 4); ("d"%string, f32_of_Z 5)] |} |}.

Lemma zeno_scores_are_consumed_witness :
  scores (zeno_aggregate scored_zeno spread_batch).1 = None ∧
  (zeno_aggregate (zeno_aggregate scored_zeno spread_batch).1 spread_batch).2 =
    Err MissingCandidateScores.
Proof.
  exact (zeno_scores_are_consumed scored_zeno spread_batch spread_batch spread_rows spread_rows
    ltac:(done) spread_batch_valid ltac:(done) spread_batch_valid).
Defined.

(** When every client of a valid batch is scored and appears once, Zeno
    averages exactly [n - b] candidates, and no candidate it drops has a higher
    suspicion-adjusted score than one it keeps (a score that is not finite ranks
    last). *)
Theorem zeno_keeps_highest_scores
    (self : ZenoAggregator) (injected : CandidateScores) (us : list ClientDelta)
    (ds : list (list f32)) (d0 : list f32) :
  us ≠ [] → decode_and_validate us = Ok ds → ds !! 0%nat = Some d0 →
  scores self = Some injected → length (scores_global_weights injected) = length d0 →
  NoDup (map client_id us) →
  Forall (λ u, is_Some (scores_by_client (candidate_scores injected) !! client_id u)) us →
  ∃ kept, (zeno_aggregate self us).2 = Ok (zeno_mean ds kept (length d0)) ∧
    NoDup kept ∧
    length kept = (length us - byzantine_count (zeno_byzantine_fraction self) (length us))%nat ∧
    (∀ i, i ∈ kept → (i < length us)%nat) ∧
    ∀ i j u u' w w' s s', i ∈ kept → j ∉ kept →
      us !! i = Some u → us !! j = Some u' → ds !! i = Some w → ds !! j = Some w' →
      sds_of self injected u w = Some s → sds_of self injected u' w' = Some s' →
      f64_total_leb s' s = true.
Proof.
  intros Hus Hds Hd0 Hsc Hdim Hnd Hall.
  rewrite (zeno_aggregate_valid self us ds d0) by done. rewrite Hsc, decide_True by done.
  pose proof (decode_and_validate_length _ _ Hds) as Hlen.
  rewrite zeno_rank_ok; [cbn [mbind outcome_bind]|by rewrite client_ids_zip|].
  2:{ rewrite Forall_forall in Hall. rewrite Forall_forall. intros [u w] Hin%elem_of_zip_l. by apply (Hall u). }
  assert (Hb : (byzantine_count (zeno_byzantine_fraction self) (length us) < length us)%nat)
    by (apply byzantine_count_lt; by destruct us).
  set (b := byzantine_count _ _) in *. set (R := imap _ (zip us ds)).
  destruct (zeno_kept_spec R (length us) (length us - b)) as (Hk1 & Hk2 & Hk3 & Hk4).
  { by apply ranked_positions. }
  { lia. }
  { rewrite Forall_forall. intros [i s] (u & w & _ & _ & ->)%ranked_elem. apply suspicion_not_nan. }
  eexists. split; [done|]. split; [exact Hk1|]. split; [exact Hk2|]. split; [exact Hk3|].
  intros i j u u' w w' s s' Hi Hj Hu Hu' Hw Hw' ->%sds_of_suspicion ->%sds_of_suspicion.
  apply (Hk4 i j); [done|done|apply ranked_elem; eauto..].
Qed.

Lemma zeno_keeps_highest_scores_witness :
  (zeno_aggregate scored_zeno spread_batch).2 = Ok (zeno_mean spread_rows [4; 3; 2; 1]%nat 2) ∧
  ∃ kept, (zeno_aggregate scored_zeno spread_batch).2 = Ok (zeno_mean spread_rows kept 2) ∧
    NoDup kept ∧ length kept = (5 - byzantine_count one_fifth 5)%nat ∧
    (∀ i, i ∈ kept → (i < 5)%nat) ∧
    ∀ i j u u' w w' s s', i ∈ kept → j ∉ kept →
      spread_batch !! i = Some u → spread_batch !! j = Some u' →
      spread_rows !! i = Some w → spread_rows !! j = Some w' →
      sds_of scored_zeno (default {| scores_global_weights := []; candidate_scores := [] |}
        (scores scored_zeno)) u w = Some s →
      sds_of scored_zeno (default {| scores_global_weights := []; candidate_scores := [] |}
        (scores scored_zeno)) u' w' = Some s' →
      f64_total_leb s' s = true.
Proof.
  split; [vm_compute; reflexivity|].
  apply (zeno_keeps_highest_scores scored_zeno _ spread_batch spread_rows
           [f32_of_Z 1000; f32_of_Z (-1000)]).
  - done.
  - exact spread_batch_valid.
  - vm_compute. reflexivity.
  - reflexivity.
  - reflexivity.
  - vm_compute. repeat (constructor; [set_solver|]). constructor.
  - repeat constructor; vm_compute; eexists; reflexivity.
Defined.

(** Scoring every client is not enough: the second update of one client in
    a batch is refused as [UnscoredClient] although its client was scored, since
    the score is removed as it is read. *)
Theorem zeno_refuses_second_update_of_scored_client :
  ∃ self injected us, scores self = Some injected ∧
    (∃ ds, decode_and_validate us = Ok ds) ∧
    Forall (λ u, is_Some (scores_by_client (candidate_scores injected) !! client_id u)) us ∧
    ∃ id, (zeno_aggregate self us).2 = Err (UnscoredClient id) ∧ id ∈ map client_id us.
Proof.
  exists {| zeno_byzantine_fraction := one_fifth; rho := f32_lit 1 2000;
            scores := Some {| scores_global_weights := [f32_of_Z 0];
                              candidate_scores := [("a"%string, f32_of_Z 1)] |} |}.
  eexists. exists [one_delta "a" [f32_of_Z 1] 1; one_delta "a" [f32_of_Z 2] 1].
  split; [reflexivity|]. split; [eexists; vm_compute; reflexivity|].
  split; [repeat constructor; vm_compute; eexists; reflexivity|].
  exists "a"%string. split; [vm_compute; reflexivity|]. simpl. set_solver.
Qed.
