(* ===== verification/Temporal.v ===== *)
(** * Methods with memory across rounds ([conflux-core/src/temporal.rs])

    FoolsGold keeps the running sum of every client's updates; centered clipping
    keeps the previous aggregate.  The natural logarithm of FoolsGold's last
    step is the standard library's and stays a parameter. *)

From S2P Require Import Prelude Float Wire Weights Averaging Filters Krum Trusted.

Open Scope Z_scope.

(** ** FoolsGold *)

Definition cosine_similarity (a b : list f32) : f32 :=
  let dot := f32_sum (map (λ '(x, y), x * y)%f32 (zip a b)) in
  let norm_a := f32_sqrt (f32_sum (map (λ x, x * x)%f32 a)) in
  let norm_b := f32_sqrt (f32_sum (map (λ x, x * x)%f32 b)) in
  if (norm_a =? f32_zero)%f32 || (norm_b =? f32_zero)%f32 then f32_zero
  else (dot / (norm_a * norm_b))%f32.

(** [f32::clamp]: a NaN stays. *)
Definition f32_clamp (x lo hi : f32) : f32 :=
  let x := if (x <? lo)%f32 then lo else x in
  if (hi <? x)%f32 then hi else x.

Definition row_max (row : list f32) : f32 := foldl f32_max f32_zero row.

(** [cs[i][j]] off the diagonal, zero on it. *)
Definition similarity_matrix (histories : list (list f32)) : list (list f32) :=
  imap (λ i h, imap (λ j h', if (i =? j)%nat then f32_zero else cosine_similarity h h') histories)
    histories.

Definition pardon (maxcs : list f32) (cs : list (list f32)) : list (list f32) :=
  imap (λ i row, imap (λ j c,
    if negb (i =? j)%nat && (maxcs !!! i <? maxcs !!! j)%f32
    then (c * (maxcs !!! i / maxcs !!! j))%f32 else c) row) cs.

Section foolsgold.
Context (ln : f32 → f32).

Definition foolsgold_weights (histories : list (list f32)) : list f32 :=
  let n := length histories in
  let cs := similarity_matrix histories in
  let maxcs := map row_max cs in
  let cs := pardon maxcs cs in
  let maxcs := map row_max cs in
  let wv := map (λ m, f32_clamp (f32_one - m)%f32 f32_zero f32_one) maxcs in
  let max_wv := row_max wv in
  if (max_wv <=? f32_zero)%f32 then replicate n f32_zero
  else
    let wv := map (λ w, w / max_wv)%f32 wv in
    let wv := map (λ w, if (f32_one <=? w)%f32 then f32_lit 99 100 else w) wv in
    map (λ w, f32_clamp (ln (w / (f32_one - w)) + f32_lit 1 2)%f32 f32_zero f32_one) wv.

Record FoolsGoldAggregator := { history : gmap string (list f32) }.

(** [history.entry(id).or_insert_with(zeros)], then [*h += x]. *)
Definition history_add (h : gmap string (list f32)) (id : string) (w : list f32) : list f32 :=
  zip_update f32_add (default (replicate (length w) f32_zero) (h !! id)) w.

Fixpoint accumulate_histories (h : gmap string (list f32)) (batch : list (ClientDelta * list f32))
    : gmap string (list f32) * list (list f32) :=
  match batch with
  | [] => (h, [])
  | (u, w) :: batch =>
      let entry := history_add h (client_id u) w in
      let '(h', histories) := accumulate_histories (<[client_id u := entry]> h) batch in
      (h', entry :: histories)
  end.

Definition foolsgold_combine (histories decoded : list (list f32)) (dim : nat) : list f32 :=
  let n := length decoded in
  let weights := foolsgold_weights histories in
  let share := (f32_one / f32_of_Z (Z.of_nat n))%f32 in
  if forallb (λ w, w =? f32_zero)%f32 weights
  then foldl (λ combined w, accumulate_weighted combined w share) (replicate dim f32_zero) decoded
  else foldl (λ combined '(i, w), accumulate_weighted combined (decoded !!! i) (w * share)%f32)
         (replicate dim f32_zero) (imap pair weights).

Definition foolsgold_aggregate (self : FoolsGoldAggregator) (updates : list ClientDelta)
    : FoolsGoldAggregator * outcome AggregatorError (list f32) :=
  match updates with
  | [] => (self, Err EmptyBatch)
  | _ =>
      match decode_and_validate updates with
      | Err e => (self, Err e)
      | Panic => (self, Panic)
      | Ok decoded =>
          let '(h, histories) := accumulate_histories (history self) (zip updates decoded) in
          ({| history := h |},
           if (length updates =? 1)%nat then Ok (decoded !!! 0%nat)
           else Ok (foolsgold_combine histories decoded (length (decoded !!! 0%nat))))
      end
  end.

#[export] Instance FoolsGold_aggregator : Aggregator FoolsGoldAggregator := {|
  aggregate := foolsgold_aggregate;
  requires_trusted_reference _ := false;
  set_trusted_reference _ st := st;
  agg_control_variate _ := None;
  requires_candidate_scores _ := false;
  set_candidate_scores _ st := st;
|}.

Lemma length_foolsgold_combine hs ds dim : length (foolsgold_combine hs ds dim) = dim.
Proof.
  unfold foolsgold_combine. case_match; rewrite length_foldl_acc; try apply length_replicate.
  - intros. apply length_accumulate_weighted.
  - intros ? []. apply length_accumulate_weighted.
Qed.

Lemma foolsgold_aggregate_valid self us ds d0 :
  us ≠ [] → decode_and_validate us = Ok ds → ds !! 0%nat = Some d0 →
  foolsgold_aggregate self us =
  ({| history := (accumulate_histories (history self) (zip us ds)).1 |},
   if decide (length us = 1%nat) then Ok d0
   else Ok (foolsgold_combine (accumulate_histories (history self) (zip us ds)).2 ds (length d0))).
Proof.
  intros Hus Hds Hd0. destruct us as [|u us]; [done|]. unfold foolsgold_aggregate. rewrite Hds.
  rewrite (list_lookup_total_correct _ _ _ Hd0).
  destruct (accumulate_histories _ _) as [h hs]. f_equal.
  case_decide as Hl; [by rewrite Hl|]. apply Nat.eqb_neq in Hl. by rewrite Hl.
Qed.

(** What the method remembers of one client after a batch: the running sum. *)
Fixpoint history_of (start : option (list f32)) (id : string) (batch : list (ClientDelta * list f32))
    : option (list f32) :=
  match batch with
  | [] => start
  | (u, w) :: batch =>
      if decide (client_id u = id)
      then history_of (Some (zip_update f32_add (default (replicate (length w) f32_zero) start) w)) id batch
      else history_of start id batch
  end.

Lemma accumulate_histories_lookup h batch id :
  (accumulate_histories h batch).1 !! id = history_of (h !! id) id batch.
Proof.
  revert h. induction batch as [|[u w] batch IH]; intros h; simpl; [done|].
  specialize (IH (<[client_id u := history_add h (client_id u) w]> h)).
  destruct (accumulate_histories _ _) as [h' hs]. simpl in *. rewrite IH.
  case_decide as Hid; [|by rewrite lookup_insert_ne].
  subst id. by rewrite lookup_insert_eq.
Qed.
End foolsgold.

(** ** Centered clipping *)

Record CenteredClippingAggregator := { clip_radius : f32; cc_reference : option (list f32) }.

Definition l2_distance_f64 (a b : list f32) : f64 :=
  f64_sqrt (f64_sum (map (λ '(x, y), let d := f64_sub (f64_of_f32 x) (f64_of_f32 y) in f64_mul d d)
                         (zip a b))).

(** The centre of this round: the previous aggregate when it still has the
    model's dimension, the batch mean otherwise. *)
Definition clipping_centre (self : CenteredClippingAggregator) (decoded : list (list f32)) (dim : nat)
    : list f32 :=
  let mean :=
    let share := (f32_one / f32_of_Z (Z.of_nat (length decoded)))%f32 in
    foldl (λ mean w, accumulate_weighted mean w share) (replicate dim f32_zero) decoded in
  match cc_reference self with
  | Some prev => if (length prev =? dim)%nat then prev else mean
  | None => mean
  end.

Definition clip_scale (radius : f32) (distance : f64) : f64 :=
  if SFltb f64_zero distance then f64_min (f64_div (f64_of_f32 radius) distance) (f64_of_Z 1)
  else f64_of_Z 1.

Definition clipped_next (self : CenteredClippingAggregator) (decoded : list (list f32)) (dim : nat)
    : list f32 :=
  let v := clipping_centre self decoded dim in
  let clipped_sum :=
    foldl (λ acc w, accumulate_scaled_difference acc w v
                      (clip_scale (clip_radius self) (l2_distance_f64 w v)))
      (replicate dim f64_zero) decoded in
  map (λ '(vi, acc), f32_of_f64 (f64_add (f64_of_f32 vi)
                       (f64_div acc (f64_of_Z (Z.of_nat (length decoded)))))) (zip v clipped_sum).

Definition centered_clipping_aggregate (self : CenteredClippingAggregator) (updates : list ClientDelta)
    : CenteredClippingAggregator * outcome AggregatorError (list f32) :=
  match updates with
  | [] => (self, Err EmptyBatch)
  | _ =>
      match decode_and_validate updates with
      | Err e => (self, Err e)
      | Panic => (self, Panic)
      | Ok decoded =>
          let next := clipped_next self decoded (length (decoded !!! 0%nat)) in
          ({| clip_radius := clip_radius self; cc_reference := Some next |}, Ok next)
      end
  end.

#[export] Instance CenteredClipping_aggregator : Aggregator CenteredClippingAggregator := {|
  aggregate := centered_clipping_aggregate;
  requires_trusted_reference _ := false;
  set_trusted_reference _ st := st;
  agg_control_variate _ := None;
  requires_candidate_scores _ := false;
  set_candidate_scores _ st := st;
|}.

Lemma length_clipping_centre self ds dim : length (clipping_centre self ds dim) = dim.
Proof.
  assert (Hm : length (foldl (λ mean w, accumulate_weighted mean w
            (f32_one / f32_of_Z (Z.of_nat (length ds)))%f32) (replicate dim f32_zero) ds) = dim).
  { rewrite length_foldl_acc; [apply length_replicate|]. intros. apply length_accumulate_weighted. }
  unfold clipping_centre. destruct (cc_reference self) as [prev|]; [|exact Hm].
  destruct (length prev =? dim)%nat eqn:Hl; [by apply Nat.eqb_eq|exact Hm].
Qed.

Lemma length_clipped_next self ds dim : length (clipped_next self ds dim) = dim.
Proof.
  unfold clipped_next. rewrite length_map, length_zip_with, length_clipping_centre.
  rewrite length_foldl_acc; [rewrite length_replicate; lia|].
  intros. apply length_accumulate_scaled_difference.
Qed.

(** ** The contract, for a method that updates its state *)

Section stateful_laws.
Context {St : Type} `{!Aggregator St}.

(** Enough to meet the contract: the three shapes a stateful method has. *)
Lemma stateful_laws :
  (∀ st, (aggregate st []).2 = Err EmptyBatch) →
  (∀ st us e, us ≠ [] → decode_and_validate us = Err e → (aggregate st us).2 = Err e) →
  (∀ st us ds d0, us ≠ [] → decode_and_validate us = Ok ds → ds !! 0%nat = Some d0 →
     ∃ out, (aggregate st us).2 = Ok out ∧ length out = length d0) →
  AggregatorLaws St _.
Proof.
  intros Hnil Herr Hok. split; [done|done| |].
  - intros st us out H. assert (Hus : us ≠ []) by (intros ->; by rewrite Hnil in H).
    destruct (decode_and_validate us) as [ds|e|] eqn:Hds.
    + destruct (head_decoded _ _ Hds Hus) as (d0 & Hd0' & Hd0).
      destruct (Hok st us ds d0 Hus Hds Hd0) as (out' & Ho & Hl). rewrite H in Ho. injection Ho as <-.
      exists ds. split; [done|]. destruct (decode_and_validate_rows _ _ Hds) as [dim Hrows].
      destruct ds as [|d ds]; [done|]. injection Hd0' as ->. split; [done|].
      pose proof Hrows as Hr. apply Forall_cons in Hr as [[? _] _].
      eapply Forall_impl; [exact Hrows|]. intros w []. congruence.
    + rewrite (Herr st us e) in H by done. done.
    + by apply decode_and_validate_no_panic in Hds.
  - intros st us. destruct (decide (us = [])) as [->|Hus]; [by rewrite Hnil|].
    destruct (decode_and_validate us) as [ds|e|] eqn:Hds.
    + destruct (head_decoded _ _ Hds Hus) as (d0 & _ & Hd0).
      by destruct (Hok st us ds d0 Hus Hds Hd0) as (out & -> & _).
    + by rewrite (Herr st us e).
    + by apply decode_and_validate_no_panic in Hds.
Qed.
End stateful_laws.

#[export] Instance FoolsGold_laws ln : AggregatorLaws FoolsGoldAggregator (FoolsGold_aggregator ln).
Proof.
  apply stateful_laws; simpl; [done| |].
  - intros st [|u us] e ? He; [done|]. unfold foolsgold_aggregate. by rewrite He.
  - intros st us ds d0 Hus Hds Hd0. rewrite (foolsgold_aggregate_valid ln st us ds d0) by done. simpl.
    case_decide; eexists; (split; [done|]); [done|apply length_foolsgold_combine].
Qed.

#[export] Instance CenteredClipping_laws :
  AggregatorLaws CenteredClippingAggregator CenteredClipping_aggregator.
Proof.
  apply stateful_laws; simpl; [done| |].
  - intros st [|u us] e ? He; [done|]. unfold centered_clipping_aggregate. by rewrite He.
  - intros st us ds d0 Hus Hds Hd0. destruct us as [|u us]; [done|].
    unfold centered_clipping_aggregate. rewrite Hds, (list_lookup_total_correct _ _ _ Hd0). simpl.
    eexists. split; [done|]. apply length_clipped_next.
Qed.

(** ** Properties *)

(** Whatever the logarithm, FoolsGold remembers of each client exactly the
    running sum of the updates it sent in the batches that validated, in order,
    and a batch that is refused leaves the memory as it was. *)
Theorem foolsgold_history_is_running_sum (ln : f32 → f32) (self : FoolsGoldAggregator) (us : list ClientDelta) :
  (∀ ds id, us ≠ [] → decode_and_validate us = Ok ds →
     history (foolsgold_aggregate ln self us).1 !! id = history_of (history self !! id) id (zip us ds)) ∧
  (is_ok (foolsgold_aggregate ln self us).2 = false → (foolsgold_aggregate ln self us).1 = self).
Proof.
  split.
  - intros ds id Hus Hds. destruct (head_decoded _ _ Hds Hus) as (d0 & _ & Hd0).
    rewrite (foolsgold_aggregate_valid ln self us ds d0) by done. apply accumulate_histories_lookup.
  - destruct us as [|u us]; [done|].
    destruct (decode_and_validate (u :: us)) as [ds|e|] eqn:Hds.
    + destruct (head_decoded _ _ Hds ltac:(done)) as (d0 & _ & Hd0).
      rewrite (foolsgold_aggregate_valid ln self _ ds d0) by done. simpl. by case_decide.
    + unfold foolsgold_aggregate. by rewrite Hds.
    + unfold foolsgold_aggregate. by rewrite Hds.
Qed.

(** Centered clipping's reference is the last aggregate it returned: a batch
    that is accepted stores exactly what it returns, clipped around the previous
    reference when the dimension is unchanged and around the batch mean
    otherwise; a refused batch leaves the reference. *)
Theorem centered_clipping_reference (self : CenteredClippingAggregator) (us : list ClientDelta) :
  let '(st', r) := centered_clipping_aggregate self us in
  clip_radius st' = clip_radius self ∧
  match r with
  | Ok out =>
      cc_reference st' = Some out ∧
      ∃ ds, decode_and_validate us = Ok ds ∧ out = clipped_next self ds (length out) ∧
        (∀ prev, cc_reference self = Some prev → length prev = length out →
           clipping_centre self ds (length out) = prev)
  | _ => st' = self
  end.
Proof.
  destruct us as [|u us]; [done|]. unfold centered_clipping_aggregate.
  destruct (decode_and_validate (u :: us)) as [ds|e|] eqn:Hds; [|done..].
  split; [done|]. split; [done|]. exists ds. rewrite length_clipped_next. split; [done|].
  split; [done|]. intros prev Hprev Hl. unfold clipping_centre. rewrite Hprev.
  by rewrite (proj2 (Nat.eqb_eq _ _) Hl).
Qed.
