(* ===== verification/Optimization.v ===== *)
(** * Server-side optimisers ([conflux-core/src/optimization.rs])

    FedOpt (FedAdagrad, FedAdam, FedYogi) and FedAvgM take the batch's
    aggregate, from the base method they wrap or a plain mean, as a
    pseudo-gradient; q-FedAvg reweights clients by their loss.  Each keeps the
    global model and its moments behind a mutex; the base method keeps its own
    state. [f64::powf] is the standard library's and stays a parameter. *)

From S2P Require Import Prelude Float Wire Weights Averaging Filters Krum Statistics Trusted Temporal.

Open Scope Z_scope.

Inductive FedOptVariant : Type := Adagrad | Adam | Yogi.

Definition paper_defaults (self : FedOptVariant) : f32 * f32 :=
  match self with
  | Adagrad => (f32_zero, f32_zero)
  | Adam | Yogi => (f32_lit 9 10, f32_lit 99 100)
  end.

Definition variant_name (self : FedOptVariant) : string :=
  match self with Adagrad => "fedadagrad" | Adam => "fedadam" | Yogi => "fedyogi" end.

Record FedOptParams := { server_learning_rate : f32; beta1 : f32; beta2 : f32; tau : f32 }.

Definition FedOptParams_default : FedOptParams :=
  {| server_learning_rate := f32_one; beta1 := f32_lit 9 10; beta2 := f32_lit 99 100;
     tau := f32_lit 1 1000 |}.

Definition for_variant (variant : FedOptVariant) : FedOptParams :=
  let '(beta1, beta2) := paper_defaults variant in
  {| server_learning_rate := server_learning_rate FedOptParams_default; beta1 := beta1;
     beta2 := beta2; tau := tau FedOptParams_default |}.

Record OptimizerState := { opt_global : list f32; opt_m : list f64; opt_v : list f64 }.

Definition f64_one : f64 := f64_of_Z 1.

(** [(tau * tau) as f64]: the square is taken in single precision. *)
Definition v_floor (params : FedOptParams) : f64 := f64_of_f32 (tau params * tau params)%f32.

Definition second_moment (variant : FedOptVariant) (params : FedOptParams) (v_prev d2 : f64) : f64 :=
  let b2 := f64_of_f32 (beta2 params) in
  match variant with
  | Adagrad => f64_add v_prev d2
  | Adam => f64_add (f64_mul b2 v_prev) (f64_mul (f64_sub f64_one b2) d2)
  | Yogi =>
      let diff := f64_sub v_prev d2 in
      let sign := if SFltb f64_zero diff then f64_one
                  else if SFltb diff f64_zero then f64_of_Z (-1) else f64_zero in
      f64_sub v_prev (f64_mul (f64_mul (f64_sub f64_one b2) d2) sign)
  end.

(** One coordinate of the step: the new [(m, v)] and the new weight. *)
Definition fedopt_coordinate (variant : FedOptVariant) (params : FedOptParams)
    (target previous : f32) (m_prev v_prev : f64) : f64 * f64 * f32 :=
  let delta := f64_sub (f64_of_f32 target) (f64_of_f32 previous) in
  let b1 := f64_of_f32 (beta1 params) in
  let m := f64_add (f64_mul b1 m_prev) (f64_mul (f64_sub f64_one b1) delta) in
  let v := f64_max (second_moment variant params v_prev (f64_mul delta delta)) (v_floor params) in
  let step := f64_div (f64_mul (f64_of_f32 (server_learning_rate params)) m)
                      (f64_add (f64_sqrt v) (f64_of_f32 (tau params))) in
  (m, v, f32_of_f64 (f64_add (f64_of_f32 previous) step)).

Definition seed_state (params : FedOptParams) (aggregate : list f32) (dim : nat) : OptimizerState :=
  {| opt_global := aggregate; opt_m := replicate dim f64_zero; opt_v := replicate dim (v_floor params) |}.

Definition plain_mean (decoded : list (list f32)) (dim : nat) : list f32 :=
  let share := (f32_one / f32_of_Z (Z.of_nat (length decoded)))%f32 in
  foldl (λ mean w, zip_update (λ m x, m + x * share)%f32 mean w) (replicate dim f32_zero) decoded.

(** Refuses the first coordinate that is not finite. *)
Definition check_finite (id : string) (next : list f32) : option AggregatorError :=
  NonFiniteWeights id <$> position (λ w, negb (f32_is_finite w)) next.

Section based.
Context {B : Type} `{!Aggregator B}.

Record FedOptAggregator := {
  variant : FedOptVariant;
  params : FedOptParams;
  base : option B;
  opt_state : option OptimizerState;
}.

(** The loop over the coordinates, indexing the moments as the code does. *)
Definition fedopt_steps (self : FedOptAggregator) (aggregate : list f32) (state : OptimizerState)
    : outcome AggregatorError (list (f64 * f64 * f32)) :=
  collect (λ '(i, (target, previous)),
      m ← index (opt_m state) i;
      v ← index (opt_v state) i;
      Ok (fedopt_coordinate (variant self) (params self) target previous m v))
    (imap pair (zip aggregate (opt_global state))).

Definition fedopt_server_step (self : FedOptAggregator) (aggregate : list f32) (dim : nat)
    : outcome AggregatorError (option OptimizerState * list f32) :=
  match opt_state self with
  | None => Ok (Some (seed_state (params self) aggregate dim), aggregate)
  | Some state =>
      if negb (length (opt_global state) =? dim)%nat
      then Ok (Some (seed_state (params self) aggregate dim), aggregate)
      else
        steps ← fedopt_steps self aggregate state;
        let next := map snd steps in
        match check_finite (("<" +:+ variant_name (variant self)) +:+ " server optimizer>")%string next with
        | Some e => Err e
        | None =>
            Ok (Some {| opt_global := next; opt_m := map (fst ∘ fst) steps;
                        opt_v := map (snd ∘ fst) steps |}, next)
        end
  end.

(** The base method runs first, and its own state moves even when the server
    step refuses the round. *)
Definition base_aggregate (fallback : list ClientDelta → list (list f32) → outcome AggregatorError (list f32))
    (b : option B) (updates : list ClientDelta) (decoded : list (list f32))
    : option B * outcome AggregatorError (list f32) :=
  match b with
  | Some b => let '(b', r) := aggregate b updates in (Some b', r)
  | None => (None, fallback updates decoded)
  end.

Definition fedopt_aggregate (self : FedOptAggregator) (updates : list ClientDelta)
    : FedOptAggregator * outcome AggregatorError (list f32) :=
  match updates with
  | [] => (self, Err EmptyBatch)
  | _ =>
      match decode_and_validate updates with
      | Err e => (self, Err e)
      | Panic => (self, Panic)
      | Ok decoded =>
          let dim := length (decoded !!! 0%nat) in
          let '(b', r) := base_aggregate (λ _ decoded, Ok (plain_mean decoded dim)) (base self) updates decoded in
          let self' := {| variant := variant self; params := params self; base := b';
                          opt_state := opt_state self |} in
          match r with
          | Err e => (self', Err e)
          | Panic => (self', Panic)
          | Ok aggregate =>
              match fedopt_server_step self aggregate dim with
              | Ok (st, next) =>
                  ({| variant := variant self; params := params self; base := b'; opt_state := st |}, Ok next)
              | Err e => (self', Err e)
              | Panic => (self', Panic)
              end
          end
      end
  end.

(** ** FedAvgM *)

Record FedAvgMAggregator := {
  beta : f32;
  m_server_learning_rate : f32;
  m_base : option B;
  m_state : option (list f32 * list f64);
}.

Definition fedavgm_server_step (self : FedAvgMAggregator) (aggregate : list f32) (dim : nat)
    : outcome AggregatorError (option (list f32 * list f64) * list f32) :=
  let reseed := Ok (Some (aggregate, replicate dim f64_zero), aggregate) in
  match m_state self with
  | None => reseed
  | Some (global, velocity) =>
      if negb (length global =? dim)%nat then reseed
      else
        let steps :=
          map (λ '((target, previous), v),
                 let delta := f64_sub (f64_of_f32 target) (f64_of_f32 previous) in
                 let updated := f64_add (f64_mul (f64_of_f32 (beta self)) v) delta in
                 (updated, f32_of_f64 (f64_add (f64_of_f32 previous)
                            (f64_mul (f64_of_f32 (m_server_learning_rate self)) updated))))
            (zip (zip aggregate global) velocity) in
        let next := map snd steps in
        match check_finite "<fedavgm server optimizer>" next with
        | Some e => Err e
        | None => Ok (Some (next, map fst steps), next)
        end
  end.

Definition fedavgm_aggregate (self : FedAvgMAggregator) (updates : list ClientDelta)
    : FedAvgMAggregator * outcome AggregatorError (list f32) :=
  match updates with
  | [] => (self, Err EmptyBatch)
  | _ =>
      match decode_and_validate updates with
      | Err e => (self, Err e)
      | Panic => (self, Panic)
      | Ok decoded =>
          let dim := length (decoded !!! 0%nat) in
          let '(b', r) := base_aggregate (λ updates _, FedAvg updates) (m_base self) updates decoded in
          let with_state st := {| beta := beta self; m_server_learning_rate := m_server_learning_rate self;
                                  m_base := b'; m_state := st |} in
          match r with
          | Err e => (with_state (m_state self), Err e)
          | Panic => (with_state (m_state self), Panic)
          | Ok aggregate =>
              match fedavgm_server_step self aggregate dim with
              | Ok (st, next) => (with_state st, Ok next)
              | Err e => (with_state (m_state self), Err e)
              | Panic => (with_state (m_state self), Panic)
              end
          end
      end
  end.
End based.
Arguments FedOptAggregator : clear implicits.
Arguments FedAvgMAggregator : clear implicits.

(** ** q-FedAvg *)

Section qfedavg.
Context (powf : f64 → f64 → f64).

Record QFedAvgAggregator := { q : f32; lipschitz : f32; q_global : option (list f32) }.

Definition q_ascent (l : f64) (w global : list f32) : list f64 :=
  map (λ '(x, prev), f64_sub (f64_of_f32 x) (f64_of_f32 prev)) (zip w global).

(** One client: its [h_k] and its weight [F^q], or nothing when [h_k] is not finite. *)
Definition q_step (q l : f64) (global : list f32) (st : list f64 * f64) (p : ClientDelta * list f32)
    : list f64 * f64 :=
  let '(numerator, h_sum) := st in
  let '(u, w) := p in
  let loss := f64_max (match local_loss u with Some f => f64_of_f32 f | None => f64_one end) f64_zero in
  let sq := foldl (λ sq d, let d := f64_mul l d in f64_add sq (f64_mul d d)) f64_zero (q_ascent l w global) in
  let f_q := powf loss q in
  let f_q_minus_1 := if SFeqb q f64_zero then f64_zero else powf loss (f64_sub q f64_one) in
  let h := f64_add (f64_mul (f64_mul q f_q_minus_1) sq) (f64_mul l f_q) in
  if negb (sf_is_finite h) then st
  else
    (zip_update (λ acc d, f64_add acc (f64_mul (f64_mul f_q l) d)) numerator (q_ascent l w global),
     f64_add h_sum h).

Definition with_q_global (self : QFedAvgAggregator) (w : list f32) : QFedAvgAggregator :=
  {| q := q self; lipschitz := lipschitz self; q_global := Some w |}.

(** [FedAvg::default().aggregate(updates)?] stored and returned. *)
Definition q_fallback (self : QFedAvgAggregator) (updates : list ClientDelta)
    : QFedAvgAggregator * outcome AggregatorError (list f32) :=
  match FedAvg updates with
  | Ok out => (with_q_global self out, Ok out)
  | Err e => (self, Err e)
  | Panic => (self, Panic)
  end.

Definition qfedavg_aggregate (self : QFedAvgAggregator) (updates : list ClientDelta)
    : QFedAvgAggregator * outcome AggregatorError (list f32) :=
  match updates with
  | [] => (self, Err EmptyBatch)
  | _ =>
      match decode_and_validate updates with
      | Err e => (self, Err e)
      | Panic => (self, Panic)
      | Ok decoded =>
          let dim := length (decoded !!! 0%nat) in
          match q_global self with
          | None => q_fallback self updates
          | Some global =>
              if negb (length global =? dim)%nat then q_fallback self updates
              else if negb (existsb (λ u, bool_decide (is_Some (local_loss u))) updates)
              then q_fallback self updates
              else
                let '(numerator, h_sum) :=
                  foldl (q_step (f64_of_f32 (q self)) (f64_of_f32 (lipschitz self)) global)
                    (replicate dim f64_zero, f64_zero) (zip updates decoded) in
                if SFleb h_sum f64_zero || negb (sf_is_finite h_sum) then q_fallback self updates
                else
                  let next := map (λ '(w, acc), f32_of_f64 (f64_add (f64_of_f32 w) (f64_div acc h_sum)))
                                  (zip global numerator) in
                  match check_finite "<qfedavg server optimizer>" next with
                  | Some e => (self, Err e)
                  | None => (with_q_global self next, Ok next)
                  end
          end
      end
  end.
End qfedavg.

(** ** Invariants *)

Lemma f64_max_ge_r x y : sf_is_nan y = false → SFleb y (f64_max x y) = true.
Proof.
  intros Hy. assert (Hyy : SFleb y y = true).
  { exact (f32_leb_refl (F y) Hy). }
  unfold f64_max. destruct (sf_is_nan x) eqn:Hx; [done|]. rewrite Hy.
  destruct (SFltb x y) eqn:Hlt; [done|].
  pose proof (f32_ltb_leb (F x) (F y) Hx Hy) as H. unfold f32_ltb, f32_leb in H. simpl in H.
  rewrite Hlt in H. by destruct (SFleb y x).
Qed.

Lemma check_finite_none id next :
  check_finite id next = None ↔ Forall (λ x, f32_is_finite x = true) next.
Proof.
  unfold check_finite. rewrite fmap_None, position_none.
  split; intros H; (eapply Forall_impl; [exact H|]); intros x; by rewrite negb_false_iff.
Qed.

Section fedopt_invariant.
Context {B : Type} `{!Aggregator B}.

(** The moments match the model coordinate by coordinate, and the second moment
    never falls below its initial floor, so its square root is never taken of
    a negative number. *)
Definition fedopt_inv (self : FedOptAggregator B) : Prop :=
  match opt_state self with
  | None => True
  | Some st =>
      length (opt_m st) = length (opt_global st) ∧ length (opt_v st) = length (opt_global st) ∧
      Forall (λ v, SFleb (v_floor (params self)) v = true) (opt_v st)
  end.

Lemma fedopt_steps_ok (self : FedOptAggregator B) aggregate st :
  length aggregate = length (opt_global st) →
  length (opt_m st) = length (opt_global st) → length (opt_v st) = length (opt_global st) →
  sf_is_nan (v_floor (params self)) = false →
  ∃ steps, fedopt_steps self aggregate st = Ok steps ∧
    length steps = length aggregate ∧
    Forall (λ s, SFleb (v_floor (params self)) s.1.2 = true) steps.
Proof.
  intros Ha Hm Hv Hfl. unfold fedopt_steps. set (f := λ '(i, (target, previous)), _).
  assert (Hall : Forall (λ p, ∃ s, f p = Ok s ∧ SFleb (v_floor (params self)) s.1.2 = true)
            (imap pair (zip aggregate (opt_global st)))).
  { rewrite Forall_forall. intros [i [t p]] Hin%elem_of_imap_pair.
    apply lookup_lt_Some in Hin. rewrite length_zip_with in Hin.
    destruct (index_lt (E:=AggregatorError) (opt_m st) i) as (m & _ & Hm'); [lia|].
    destruct (index_lt (E:=AggregatorError) (opt_v st) i) as (v & _ & Hv'); [lia|].
    simpl. rewrite Hm'. simpl. rewrite Hv'. simpl. eexists. split; [done|]. by apply f64_max_ge_r. }
  assert (Hlen : length (imap pair (zip aggregate (opt_global st))) = length aggregate)
    by (rewrite length_imap, length_zip_with; lia).
  rewrite <-Hlen. clear Hlen. induction Hall as [|p l (s & Hs & Hge) _ (ss & Hss & Hl & Hf)]; simpl.
  - by exists [].
  - exists (s :: ss). rewrite Hs. cbn [mbind outcome_bind]. rewrite Hss. simpl. auto.
Qed.

(** What one server step does to the optimiser's state. *)
Lemma fedopt_server_step_spec (self : FedOptAggregator B) aggregate dim :
  fedopt_inv self → length aggregate = dim → sf_is_nan (v_floor (params self)) = false →
  (∃ st next, fedopt_server_step self aggregate dim = Ok (Some st, next) ∧
     opt_global st = next ∧ length next = dim ∧
     fedopt_inv {| variant := variant self; params := params self; base := base self; opt_state := Some st |} ∧
     (∀ st0, opt_state self = Some st0 → length (opt_global st0) = dim →
        Forall (λ x, f32_is_finite x = true) next)) ∨
  (∃ id i, fedopt_server_step self aggregate dim = Err (NonFiniteWeights id i)).
Proof.
  intros Hinv Ha Hfl. unfold fedopt_server_step, fedopt_inv in *.
  assert (Hseed : length (opt_m (seed_state (params self) aggregate dim)) = length aggregate ∧
                  length (opt_v (seed_state (params self) aggregate dim)) = length aggregate ∧
                  Forall (λ v, SFleb (v_floor (params self)) v = true)
                    (opt_v (seed_state (params self) aggregate dim))).
  { simpl. rewrite !length_replicate. split; [done|]. split; [done|]. apply Forall_replicate.
    exact (f32_leb_refl (F (v_floor (params self))) Hfl). }
  destruct (opt_state self) as [st|] eqn:Hst.
  2:{ left. eexists _, _. split; [done|]. split; [done|]. by split. }
  destruct (length (opt_global st) =? dim)%nat eqn:Hd; cbn [negb].
  2:{ left. eexists _, _. split; [done|]. split; [done|]. split; [done|]. split; [exact Hseed|].
      intros st0 [= <-] Hd'. apply Nat.eqb_neq in Hd. done. }
  apply Nat.eqb_eq in Hd. destruct Hinv as (Hm & Hv & _).
  destruct (fedopt_steps_ok self aggregate st) as (steps & -> & Hl & Hf); [congruence|done..|].
  cbn [mbind outcome_bind]. destruct (check_finite _ _) as [e|] eqn:Hc.
  - right. unfold check_finite in Hc. destruct (position _ _) as [i|]; [|done]. injection Hc as <-. eauto.
  - left. eexists _, _. split; [done|]. simpl. split; [done|]. rewrite !length_map.
    split; [congruence|]. split; [split; [done|]; split; [done|]; by apply Forall_map|].
    intros _ _ _. by apply check_finite_none in Hc.
Qed.

Lemma length_plain_mean ds dim : length (plain_mean ds dim) = dim.
Proof.
  unfold plain_mean. rewrite length_foldl_acc; [apply length_replicate|].
  intros. apply length_zip_update.
Qed.

(** An accepted aggregate has the batch's dimension, from the base or not. *)
Lemma base_aggregate_fits `{!AggregatorLaws B _} b us ds d0 b' r :
  us ≠ [] → decode_and_validate us = Ok ds → ds !! 0%nat = Some d0 →
  base_aggregate (λ _ decoded, Ok (plain_mean decoded (length d0))) b us ds = (b', r) →
  r ≠ Panic ∧ ∀ out, r = Ok out → length out = length d0.
Proof.
  intros Hus Hds Hd0. unfold base_aggregate. destruct b as [b|].
  - destruct (aggregate b us) as [b1 r1] eqn:Ha. intros [= _ <-].
    assert (Hr : r1 = (aggregate b us).2) by (by rewrite Ha). split.
    + rewrite Hr. apply aggregate_no_panic.
    + intros out Ho. rewrite Hr in Ho. apply aggregate_dim in Ho as (ds' & Hds' & _ & Hall).
      rewrite Hds in Hds'. injection Hds' as <-. rewrite Forall_lookup in Hall.
      symmetry. by eapply Hall.
  - intros [= _ <-]. split; [done|]. intros out [= <-]. apply length_plain_mean.
Qed.

Lemma fedopt_aggregate_spec `{!AggregatorLaws B _} (self : FedOptAggregator B) us :
  fedopt_inv self → sf_is_nan (v_floor (params self)) = false →
  let '(self', r) := fedopt_aggregate self us in
  r ≠ Panic ∧ fedopt_inv self' ∧ params self' = params self ∧ variant self' = variant self ∧
  match r with
  | Ok next => ∃ st, opt_state self' = Some st ∧ opt_global st = next ∧
      (∀ st0, opt_state self = Some st0 → length (opt_global st0) = length next →
         Forall (λ x, f32_is_finite x = true) next)
  | _ => opt_state self' = opt_state self
  end.
Proof.
  intros Hinv Hfl. destruct us as [|u us]; [done|]. unfold fedopt_aggregate.
  destruct (decode_and_validate (u :: us)) as [ds|e|] eqn:Hds;
    [|done|by apply decode_and_validate_no_panic in Hds].
  destruct (head_decoded _ _ Hds ltac:(done)) as (d0 & _ & Hd0).
  rewrite (list_lookup_total_correct _ _ _ Hd0). cbv zeta.
  destruct (base_aggregate _ _ _ _) as [b' r] eqn:Hb.
  destruct (base_aggregate_fits _ (u :: us) ds d0 b' r ltac:(done) Hds Hd0 Hb) as [Hnp Hlen].
  destruct r as [agg|e|]; [|done|done].
  destruct (fedopt_server_step_spec self agg (length d0) Hinv (Hlen agg eq_refl) Hfl)
    as [(st & next & -> & Hg & Hln & Hinv' & Hfin)|(id & i & ->)]; [|done].
  split; [done|]. split; [exact Hinv'|]. split; [done|]. split; [done|].
  exists st. split; [done|]. split; [done|]. intros st0 H0 Hl. apply (Hfin st0 H0). congruence.
Qed.

(** A run of rounds, from the first to the last batch. *)
Definition fedopt_run (self : FedOptAggregator B) (batches : list (list ClientDelta))
    : FedOptAggregator B * list (outcome AggregatorError (list f32)) :=
  foldl (λ '(self, rs) us, let '(self', r) := fedopt_aggregate self us in (self', rs ++ [r]))
    (self, []) batches.
End fedopt_invariant.

Definition fedopt_new {B} (v : FedOptVariant) (p : FedOptParams) (b : option B) : FedOptAggregator B :=
  {| variant := v; params := p; base := b; opt_state := None |}.

(** ** Properties *)

(** Over any sequence of batches from a fresh server optimiser, for every
    variant and over any base method that meets the aggregator's contract, no
    round panics, the moments keep the model's dimension, and the second
    moment never falls below its floor [tau^2]. *)
Theorem fedopt_invariant_over_rounds {B} `{!Aggregator B} `{!AggregatorLaws B _}
    (v : FedOptVariant) (p : FedOptParams) (b : option B) (batches : list (list ClientDelta)) :
  sf_is_nan (v_floor p) = false →
  let '(self, rs) := fedopt_run (fedopt_new v p b) batches in
  fedopt_inv self ∧ params self = p ∧ Forall (λ r, r ≠ Panic) rs.
Proof.
  intros Hfl. induction batches as [|us batches IH] using rev_ind; [done|].
  unfold fedopt_run in *. rewrite foldl_app. simpl.
  destruct (foldl _ _ batches) as [self rs]. destruct IH as (Hinv & Hp & Hrs).
  pose proof (fedopt_aggregate_spec self us Hinv ltac:(by rewrite Hp)) as H.
  destruct (fedopt_aggregate self us) as [self' r]. destruct H as (Hnp & Hinv' & Hp' & _).
  split; [done|]. split; [congruence|]. apply Forall_app. by split; [|constructor].
Qed.

Definition no_base : option SampleCountWeighting := None.

Lemma fedopt_invariant_over_rounds_witness :
  let '(self, rs) := fedopt_run (fedopt_new Yogi (for_variant Yogi) no_base) [two_deltas; spread_batch; spread_batch] in
  fedopt_inv self ∧ params self = for_variant Yogi ∧ Forall (λ r, r ≠ Panic) rs.
Proof.
  apply (fedopt_invariant_over_rounds Yogi (for_variant Yogi) no_base). vm_compute. reflexivity.
Defined.

(** A server step that is refused commits nothing: the stored model and
    moments are what they were, and an accepted one stores exactly the model it
    returns, finite whenever it was computed from a previous one. *)
Theorem fedopt_commits_all_or_nothing {B} `{!Aggregator B} `{!AggregatorLaws B _}
    (self : FedOptAggregator B) (us : list ClientDelta) :
  fedopt_inv self → sf_is_nan (v_floor (params self)) = false →
  let '(self', r) := fedopt_aggregate self us in
  match r with
  | Ok next => ∃ st, opt_state self' = Some st ∧ opt_global st = next ∧
      (∀ st0, opt_state self = Some st0 → length (opt_global st0) = length next →
         Forall (λ x, f32_is_finite x = true) next)
  | _ => opt_state self' = opt_state self
  end.
Proof.
  intros Hinv Hfl. pose proof (fedopt_aggregate_spec self us Hinv Hfl) as H.
  destruct (fedopt_aggregate self us) as [self' r]. apply H.
Qed.

Definition seeded_adam : FedOptAggregator SampleCountWeighting :=
  (fedopt_aggregate (fedopt_new Adam (for_variant Adam) no_base) two_deltas).1.

Lemma fedopt_commits_all_or_nothing_witness :
  fedopt_inv seeded_adam ∧
  let '(self', r) := fedopt_aggregate seeded_adam [one_delta "a" [f32_of_Z 5; f32_of_Z 6] 1] in
  match r with
  | Ok next => ∃ st, opt_state self' = Some st ∧ opt_global st = next ∧
      (∀ st0, opt_state seeded_adam = Some st0 → length (opt_global st0) = length next →
         Forall (λ x, f32_is_finite x = true) next)
  | _ => opt_state self' = opt_state seeded_adam
  end.
Proof.
  assert (Hi : fedopt_inv seeded_adam).
  { unfold fedopt_inv. vm_compute. repeat split; repeat constructor. }
  split; [exact Hi|].
  apply (fedopt_commits_all_or_nothing seeded_adam [one_delta "a" [f32_of_Z 5; f32_of_Z 6] 1] Hi).
  vm_compute. reflexivity.
Defined.

(** The first round is not checked: over a base whose aggregate overflows
    (the median of two large finite values), the optimiser stores an infinite
    model, and from then on an honest batch is refused, leaving the infinite
    model in place. *)
Theorem fedopt_first_round_can_store_infinity :
  ∃ (us honest : list ClientDelta) self,
    (∃ ds, decode_and_validate us = Ok ds) ∧ (∃ ds, decode_and_validate honest = Ok ds) ∧
    self = (fedopt_aggregate (fedopt_new Adam (for_variant Adam) (Some median_statistic)) us).1 ∧
    is_ok (fedopt_aggregate (fedopt_new Adam (for_variant Adam) (Some median_statistic)) us).2 = true ∧
    is_ok (fedopt_aggregate self honest).2 = false ∧
    opt_state (fedopt_aggregate self honest).1 = opt_state self.
Proof.
  exists [one_delta "a" [f32_of_Z (2 ^ 127)] 1; one_delta "b" [f32_of_Z (2 ^ 127)] 1].
  exists [one_delta "a" [f32_of_Z 1] 1; one_delta "b" [f32_of_Z 1] 1]. eexists.
  split; [eexists; vm_compute; reflexivity|]. split; [eexists; vm_compute; reflexivity|].
  split; [reflexivity|]. split; [vm_compute; reflexivity|]. split; vm_compute; reflexivity.
Qed.

(** Whatever the power function, when no client reports a loss q-FedAvg is
    FedAvg: it returns FedAvg's result or error, and stores the result. *)
Theorem qfedavg_without_losses_is_fedavg (powf : f64 → f64 → f64) (self : QFedAvgAggregator) (us : list ClientDelta) :
  Forall (λ u, local_loss u = None) us →
  (qfedavg_aggregate powf self us).2 = FedAvg us ∧
  (∀ out, FedAvg us = Ok out → q_global (qfedavg_aggregate powf self us).1 = Some out).
Proof.
  intros Hno. destruct us as [|u us]; [done|].
  assert (Hf : ∀ s : QFedAvgAggregator, (q_fallback s (u :: us)).2 = FedAvg (u :: us) ∧
            ∀ out, FedAvg (u :: us) = Ok out → q_global (q_fallback s (u :: us)).1 = Some out).
  { intros s. unfold q_fallback. destruct (FedAvg (u :: us)); naive_solver. }
  assert (Hex : existsb (λ u, bool_decide (is_Some (local_loss u))) (u :: us) = false).
  { clear Hf. induction Hno as [|u' us' Hu _ IH]; [done|]. simpl. by rewrite Hu, IH. }
  unfold qfedavg_aggregate. destruct (decode_and_validate (u :: us)) as [ds|e|] eqn:Hds.
  - destruct (q_global self) as [g|]; [|apply Hf]. destruct (negb _); [apply Hf|].
    rewrite Hex. apply Hf.
  - unfold FedAvg, weighted_average. by rewrite Hds.
  - by apply decode_and_validate_no_panic in Hds.
Qed.

Lemma qfedavg_without_losses_is_fedavg_witness :
  let self := {| q := f32_one; lipschitz := f32_one; q_global := None |} in
  (qfedavg_aggregate (λ x _, x) self two_deltas).2 = FedAvg two_deltas ∧
  (∀ out, FedAvg two_deltas = Ok out → q_global (qfedavg_aggregate (λ x _, x) self two_deltas).1 = Some out).
Proof.
  apply (qfedavg_without_losses_is_fedavg (λ x _, x)). repeat constructor.
Defined.
