(* ===== verification/Contracts.v ===== *)
(** * Every method against the aggregator's contract

    [AggregatorLaws] (file [Weights]) is what the round pipeline is proved
    against.  This file discharges it for q-FedAvg, whose state is the last
    global model, and collects the methods that meet it in every state.  The
    server optimisers meet it from a fresh state on ([Optimization]); the
    divide-and-conquer filter does not ([Spectral]); Zeno refuses valid batches
    on purpose ([Trusted]). *)

From S2P Require Import Prelude Float Wire Weights Averaging Filters Krum Statistics Trusted Temporal Optimization.

(** ** The contract relative to an invariant

    A method whose state must be well formed meets the contract from every state
    of an invariant that its operations preserve. *)

Class AggregatorLawsOn (St : Type) (A : Aggregator St) (I : St → Prop) := {
  on_preserved st us : I st → I (aggregate st us).1;
  on_reference st r : I st → I (set_trusted_reference r st);
  on_scores st c : I st → I (set_candidate_scores c st);
  on_empty st : I st → (aggregate st []).2 = Err EmptyBatch;
  on_invalid st us e :
    I st → us ≠ [] → decode_and_validate us = Err e → (aggregate st us).2 = Err e;
  on_dim st us out :
    I st → (aggregate st us).2 = Ok out →
    ∃ ds, decode_and_validate us = Ok ds ∧ ds ≠ [] ∧ Forall (λ w, length w = length out) ds;
  on_no_panic st us : I st → (aggregate st us).2 ≠ Panic;
}.

(** A result fit for a batch whose first row is [d0]. *)
Definition fits (d0 : list f32) (r : outcome AggregatorError (list f32)) : Prop :=
  match r with Ok out => length out = length d0 | Err _ => True | Panic => False end.

Section laws_on.
Context {St : Type} {A : Aggregator St} (I : St → Prop).

Lemma laws_everywhere : AggregatorLaws St A → AggregatorLawsOn St A (λ _, True).
Proof.
  intros L. split; intros; try done; [apply aggregate_empty|by apply aggregate_invalid|
    by apply aggregate_dim with st|apply aggregate_no_panic].
Qed.

Lemma laws_of_on : AggregatorLawsOn St A (λ _, True) → AggregatorLaws St A.
Proof.
  intros L. split; intros; [by apply on_empty|by apply on_invalid|
    by apply on_dim with st|by apply on_no_panic].
Qed.

(** Enough to meet it: an empty or an invalid batch is refused and changes
    nothing, and a valid one keeps the invariant and gets a fitting answer. *)
Lemma laws_on_intro :
  (∀ st r, I st → I (set_trusted_reference r st)) →
  (∀ st c, I st → I (set_candidate_scores c st)) →
  (∀ st, aggregate st [] = (st, Err EmptyBatch)) →
  (∀ st us e, us ≠ [] → decode_and_validate us = Err e → aggregate st us = (st, Err e)) →
  (∀ st us ds d0, I st → us ≠ [] → decode_and_validate us = Ok ds → ds !! 0%nat = Some d0 →
     I (aggregate st us).1 ∧ fits d0 (aggregate st us).2) →
  AggregatorLawsOn St A I.
Proof.
  intros Hr Hc Hnil Herr Hok.
  assert (Hcase : ∀ st us, I st → us ≠ [] →
    (∃ ds d0, decode_and_validate us = Ok ds ∧ ds !! 0%nat = Some d0 ∧
       I (aggregate st us).1 ∧ fits d0 (aggregate st us).2) ∨
    (∃ e, decode_and_validate us = Err e ∧ aggregate st us = (st, Err e))).
  { intros st us HI Hus. destruct (decode_and_validate us) as [ds|e|] eqn:Hds.
    - left. destruct (head_decoded _ _ Hds Hus) as (d0 & _ & Hd0). exists ds, d0. eauto.
    - right. exists e. split; [done|]. by apply Herr.
    - by apply decode_and_validate_no_panic in Hds. }
  split; [|done|done|..].
  - intros st us HI. destruct (decide (us = [])) as [->|Hus]; [by rewrite Hnil|].
    destruct (Hcase st us HI Hus) as [(?&?&_&_&?&_)|(e&_&->)]; done.
  - intros st _. by rewrite Hnil.
  - intros st us e _ Hus He. by rewrite (Herr st us e).
  - intros st us out HI Ho. destruct (decide (us = [])) as [->|Hus]; [by rewrite Hnil in Ho|].
    destruct (Hcase st us HI Hus) as [(ds&d0&Hds&Hd0&_&Hf)|(e&_&He)]; [|by rewrite He in Ho].
    rewrite Ho in Hf. exists ds. split; [done|]. split; [by intros ->|].
    destruct (decode_and_validate_rows _ _ Hds) as [dim Hrows].
    assert (length d0 = dim) by (rewrite Forall_lookup in Hrows; by eapply Hrows).
    eapply Forall_impl; [exact Hrows|]. intros w []. simpl in Hf. congruence.
  - intros st us HI. destruct (decide (us = [])) as [->|Hus]; [by rewrite Hnil|].
    destruct (Hcase st us HI Hus) as [(?&?&_&_&_&Hf)|(e&_&->)]; [|done]. by intros Hp; rewrite Hp in Hf.
Qed.
End laws_on.

Section qfedavg_contract.
Context (powf : f64 → f64 → f64).

Definition QFedAvg_aggregator : Aggregator QFedAvgAggregator := {|
  aggregate := qfedavg_aggregate powf;
  requires_trusted_reference _ := false;
  set_trusted_reference _ st := st;
  agg_control_variate _ := None;
  requires_candidate_scores _ := false;
  set_candidate_scores _ st := st;
|}.

Lemma FedAvg_dim us out ds d0 :
  decode_and_validate us = Ok ds → ds !! 0%nat = Some d0 → FedAvg us = Ok out → length out = length d0.
Proof.
  intros Hds Hd0 (ds' & d0' & Hds' & _ & Hd0' & _ & ->)%weighted_average_ok. rewrite Hds in Hds'. injection Hds' as <-.
  destruct ds; [done|]. simplify_eq/=. by rewrite length_weighted_fold, length_replicate.
Qed.

Lemma FedAvg_fits us ds d0 :
  decode_and_validate us = Ok ds → ds !! 0%nat = Some d0 → fits d0 (FedAvg us).
Proof.
  intros Hds Hd0. destruct (FedAvg us) as [out|e|] eqn:Hf; simpl; [|done|].
  - by eapply FedAvg_dim.
  - by apply weighted_average_no_panic in Hf.
Qed.

Lemma length_q_step_numerator qq l g st ps :
  length (foldl (q_step powf qq l g) st ps).1 = length st.1.
Proof.
  revert st. induction ps as [|[u w] ps IH]; intros [numerator h_sum]; simpl; [done|].
  rewrite IH. cbv zeta. case_match; [done|]. apply length_zip_update.
Qed.

(** The three ways a validated batch ends: FedAvg's answer, a refusal, or the
    q-weighted step of the model's dimension. *)
Lemma qfedavg_valid self us ds d0 :
  us ≠ [] → decode_and_validate us = Ok ds → ds !! 0%nat = Some d0 →
  (qfedavg_aggregate powf self us).2 = FedAvg us ∨
  (∃ e, (qfedavg_aggregate powf self us).2 = Err e) ∨
  ∃ next, (qfedavg_aggregate powf self us).2 = Ok next ∧ length next = length d0.
Proof.
  intros Hus Hds Hd0. destruct us as [|u us]; [done|]. unfold qfedavg_aggregate. rewrite Hds.
  rewrite (list_lookup_total_correct _ _ _ Hd0).
  assert (Hfall : (q_fallback self (u :: us)).2 = FedAvg (u :: us)).
  { unfold q_fallback. by destruct (FedAvg (u :: us)). }
  destruct (q_global self) as [g|]; [|by left].
  destruct (length g =? length d0)%nat eqn:Hg; [apply Nat.eqb_eq in Hg; cbn [negb]|by left].
  destruct (negb (existsb _ _)); [by left|].
  destruct (foldl _ _ _) as [numerator h_sum] eqn:Hn.
  apply (f_equal (length ∘ fst)) in Hn. simpl in Hn.
  rewrite length_q_step_numerator in Hn. simpl in Hn. rewrite length_replicate in Hn.
  destruct (_ || _); [by left|]. right. destruct (check_finite _ _) as [e|]; [left; by exists e|].
  right. eexists. split; [done|]. rewrite length_map, length_zip_with. lia.
Qed.

Lemma QFedAvg_laws : AggregatorLaws QFedAvgAggregator QFedAvg_aggregator.
Proof.
  apply laws_of_on, laws_on_intro; simpl; try done.
  - intros st [|u us] e ? He; [done|]. unfold qfedavg_aggregate. by rewrite He.
  - intros st us ds d0 _ Hus Hds Hd0. split; [done|].
    destruct (qfedavg_valid st us ds d0) as [->|[[e ->]|(next & -> & Hn)]]; try done.
    by eapply FedAvg_fits.
Qed.
End qfedavg_contract.

(** ** Coordinate-wise statistics that answer for some parameters only *)

Lemma coordinate_wise_laws_on {S} `{!CoordinateWiseRobustStatistic S} (I : S → Prop) :
  (∀ s, I s → answers s) → AggregatorLawsOn S coordinate_wise_aggregator I.
Proof.
  intros HI. apply laws_on_intro; simpl; try done.
  - intros s [|u us] e ? He; [done|]. unfold coordinate_wise. by rewrite He.
  - intros s us ds d0 Hs Hus Hds Hd0. split; [done|].
    destruct (coordinate_wise_spec s us ds (HI s Hs) Hus Hds) as (d0' & out & Hd0' & -> & Hl & _).
    simpl. destruct ds; simplify_eq/=. done.
Qed.

(** ** Zeno *)

Lemma zeno_rank_no_panic rho g m i batch : zeno_rank rho g m i batch ≠ Panic.
Proof.
  revert m i. induction batch as [|[u w] batch IH]; intros m i; simpl; [done|].
  destruct (m !! client_id u); [|done]. intros [H|(? & _ & H)]%bind_panic_inv; [by apply IH in H|done].
Qed.

Lemma length_zeno_mean ds kept dim : length (zeno_mean ds kept dim) = dim.
Proof.
  unfold zeno_mean. rewrite length_foldl_acc; [apply length_replicate|]. intros. apply length_zip_update.
Qed.

Lemma Zeno_laws : AggregatorLaws ZenoAggregator Zeno_aggregator.
Proof.
  apply laws_of_on, laws_on_intro; simpl; try done.
  - intros st [|u us] e ? He; [done|]. unfold zeno_aggregate. by rewrite He.
  - intros st us ds d0 _ Hus Hds Hd0. split; [done|].
    rewrite (zeno_aggregate_valid st us ds d0) by done. simpl. destruct (scores st) as [inj|]; [|done].
    case_decide; [|done]. destruct (zeno_rank _ _ _ _ _) as [ranked|e|] eqn:Hr; simpl; [apply length_zeno_mean|done|].
    by apply zeno_rank_no_panic in Hr.
Qed.

(** ** The server optimisers, over a base that meets the contract *)

Section optimiser_contract.
Context {B : Type} `{!Aggregator B} `{!AggregatorLaws B _}.

Definition FedOpt_aggregator : Aggregator (FedOptAggregator B) := {|
  aggregate := fedopt_aggregate;
  requires_trusted_reference _ := false;
  set_trusted_reference _ st := st;
  agg_control_variate _ := None;
  requires_candidate_scores _ := false;
  set_candidate_scores _ st := st;
|}.

(** The moments fit the model and the floor is a number. *)
Definition fedopt_ready (self : FedOptAggregator B) : Prop :=
  fedopt_inv self ∧ sf_is_nan (v_floor (params self)) = false.

Lemma fedopt_server_step_length (self : FedOptAggregator B) agg dim st next :
  length agg = dim → fedopt_server_step self agg dim = Ok (st, next) →
  fedopt_inv self → sf_is_nan (v_floor (params self)) = false → length next = dim.
Proof.
  intros Ha Hs Hinv Hfl. destruct (fedopt_server_step_spec self agg dim Hinv Ha Hfl)
    as [(st' & next' & Hs' & _ & Hl & _)|(id & i & He)]; congruence.
Qed.

Lemma FedOpt_laws : AggregatorLawsOn (FedOptAggregator B) FedOpt_aggregator fedopt_ready.
Proof.
  apply laws_on_intro; simpl; try done.
  - intros st [|u us] e ? He; [done|]. unfold fedopt_aggregate. by rewrite He.
  - intros st us ds d0 [Hinv Hfl] Hus Hds Hd0.
    pose proof (fedopt_aggregate_spec st us Hinv Hfl) as Hspec.
    destruct (fedopt_aggregate st us) as [st' r] eqn:Hagg. destruct Hspec as (Hnp & Hinv' & Hp & _).
    cbn [fst snd]. split; [split; [done|by rewrite Hp]|]. destruct us as [|u us]; [done|].
    unfold fedopt_aggregate in Hagg. rewrite Hds, (list_lookup_total_correct _ _ _ Hd0) in Hagg.
    cbv zeta in Hagg. destruct (base_aggregate _ _ _ _) as [b' rb] eqn:Hb.
    destruct (base_aggregate_fits _ (u :: us) ds d0 b' rb ltac:(done) Hds Hd0 Hb) as [_ Hlen].
    destruct rb as [agg|e|]; [|by simplify_eq..].
    destruct (fedopt_server_step st agg (length d0)) as [[st1 next]|e|] eqn:Hs; injection Hagg as <- <-; [|done..].
    simpl. eapply fedopt_server_step_length; [|done..]. by apply Hlen.
Qed.

Definition FedAvgM_aggregator : Aggregator (FedAvgMAggregator B) := {|
  aggregate := fedavgm_aggregate;
  requires_trusted_reference _ := false;
  set_trusted_reference _ st := st;
  agg_control_variate _ := None;
  requires_candidate_scores _ := false;
  set_candidate_scores _ st := st;
|}.

(** The velocity fits the model. *)
Definition fedavgm_inv (self : FedAvgMAggregator B) : Prop :=
  match m_state self with
  | None => True
  | Some (global, velocity) => length velocity = length global
  end.

Lemma fedavgm_server_step_spec (self : FedAvgMAggregator B) agg dim :
  fedavgm_inv self → length agg = dim →
  match fedavgm_server_step self agg dim with
  | Ok (Some (g, v), next) => g = next ∧ length v = length g ∧ length next = dim
  | Err _ => True
  | _ => False
  end.
Proof.
  intros Hinv Ha. unfold fedavgm_server_step, fedavgm_inv in *.
  destruct (m_state self) as [[g v]|]; [|by rewrite length_replicate].
  destruct (length g =? dim)%nat eqn:Hg; cbn [negb]; [|by rewrite length_replicate]. apply Nat.eqb_eq in Hg.
  cbv zeta. destruct (check_finite _ _); [done|]. split; [done|]. rewrite !length_map, !length_zip_with. lia.
Qed.

Lemma FedAvgM_laws : AggregatorLawsOn (FedAvgMAggregator B) FedAvgM_aggregator fedavgm_inv.
Proof.
  apply laws_on_intro; simpl; try done.
  - intros st [|u us] e ? He; [done|]. unfold fedavgm_aggregate. by rewrite He.
  - intros st us ds d0 Hinv Hus Hds Hd0. destruct us as [|u us]; [done|].
    unfold fedavgm_aggregate. rewrite Hds, (list_lookup_total_correct _ _ _ Hd0). cbv zeta.
    assert (Hfit : fits d0 (base_aggregate (λ us _, FedAvg us) (m_base st) (u :: us) ds).2).
    { unfold base_aggregate. destruct (m_base st) as [b|]; [|by eapply FedAvg_fits].
      pose proof (base_aggregate_fits (Some b) (u :: us) ds d0 _ _ ltac:(done) Hds Hd0 (surjective_pairing _)) as [Hnp Hl].
      simpl in *. destruct (aggregate b (u :: us)) as [b' [out|e|]]; simpl in *; [by apply Hl|done|done]. }
    destruct (base_aggregate _ _ _ _) as [b' [agg|e|]]; [|done|done]. simpl in Hfit.
    pose proof (fedavgm_server_step_spec st agg (length d0) Hinv Hfit) as Hs.
    destruct (fedavgm_server_step _ _ _) as [[[[g v]|] next]|e|]; [|done|done|done].
    destruct Hs as (-> & Hv & Hn). split; [exact Hv|exact Hn].
Qed.
End optimiser_contract.

(** ** Property *)

(** The averaging, selection-based, coordinate-wise, iterative, trusted and
    history-keeping methods all meet the aggregator's contract, in every state
    they can be in: an empty or invalid batch gets the validation's own error, a
    result has the batch's dimension, and no batch makes them panic. *)
Theorem methods_meet_contract (ln : f32 → f32) (powf : f64 → f64 → f64) :
  AggregatorLaws SampleCountWeighting weighted_average_aggregator ∧
  AggregatorLaws (KrumFilter * SampleCountWeighting) filtered_aggregator ∧
  AggregatorLaws (MultiKrumFilter * SampleCountWeighting) filtered_aggregator ∧
  AggregatorLaws (BulyanFilter * TrimmedMeanStatistic) filtered_aggregator ∧
  AggregatorLaws TrimmedMeanStatistic coordinate_wise_aggregator ∧
  AggregatorLaws MedianStatistic coordinate_wise_aggregator ∧
  AggregatorLaws GeometricMedianStatistic vector_robust_aggregator ∧
  AggregatorLaws FlTrustAggregator FlTrust_aggregator ∧
  AggregatorLaws FoolsGoldAggregator (FoolsGold_aggregator ln) ∧
  AggregatorLaws CenteredClippingAggregator CenteredClipping_aggregator ∧
  AggregatorLaws QFedAvgAggregator (QFedAvg_aggregator powf).
Proof.
  do 3 (split; [exact _|]). split; [apply filtered_laws|]. do 2 (split; [apply coordinate_wise_laws|]).
  split; [apply vector_robust_laws|]. do 3 (split; [exact _|]). apply QFedAvg_laws.
Qed.
