(* ===== verification/Drift.v ===== *)
(** * Client-drift corrections ([conflux-core/src/optimization.rs])

    FedNova normalises each client's progress by the number of local steps it
    reports; SCAFFOLD keeps a control variate next to the model and hands it to
    the clients of the next round.  Both keep the model they last returned and
    difference against it. *)

From S2P Require Import Prelude Float Wire Weights Averaging Filters Krum Statistics Trusted Temporal Optimization Contracts.

Open Scope Z_scope.

(** [guard.copy_from_slice(&out)]: panics when the lengths differ. *)
Definition copy_from_slice {E X} (dst src : list X) : outcome E (list X) :=
  if (length dst =? length src)%nat then Ok src else Panic.

(** ** FedNova *)

Definition MAX_PLAUSIBLE_LOCAL_STEPS : Z := Z.shiftl 1 20.

Record FedNovaAggregator := { nova_state : option (list f32) }.

Definition fednova_new : FedNovaAggregator := {| nova_state := None |}.

Record NovaTerm := { nova_p : f64; nova_tau : f64 }.

(** [u.local_steps.filter(|t| *t > 0)] *)
Definition reported_steps (u : ClientDelta) : option Z :=
  match local_steps u with
  | Some t => if 0 <? t then Some t else None
  | None => None
  end.

Definition default_tau (reported : list (option Z)) : f64 :=
  let flat := omap id reported in
  f64_max (f64_div (f64_sum (map f64_of_Z flat)) (f64_of_Z (Z.of_nat (length flat)))) f64_one.

Definition nova_terms (updates : list ClientDelta) (reported : list (option Z)) : list NovaTerm :=
  let total_samples := f64_sum (map (λ u, f64_of_Z (num_samples u)) updates) in
  let equal_share := f64_div f64_one (f64_of_Z (Z.of_nat (length updates))) in
  map (λ '(u, tau),
    {| nova_p := if SFltb f64_zero total_samples then f64_div (f64_of_Z (num_samples u)) total_samples
            else equal_share;
       nova_tau := match tau with
                   | Some t => f64_of_Z (Z.min t MAX_PLAUSIBLE_LOCAL_STEPS)
                   | None => default_tau reported
                   end |})
    (zip updates reported).

Definition tau_eff (terms : list NovaTerm) : f64 :=
  f64_sum (map (λ t, f64_mul (nova_p t) (nova_tau t)) terms).

(** One client's normalised progress, skipped when its scale is not finite. *)
Definition nova_step (eff : f64) (global : list f32) (delta : list f64) (tw : NovaTerm * list f32)
    : list f64 :=
  let '(term, w) := tw in
  let scale := f64_div (f64_mul eff (nova_p term)) (nova_tau term) in
  if negb (sf_is_finite scale) then delta
  else zip_update (λ acc '(x, prev), f64_add acc (f64_mul scale (f64_sub (f64_of_f32 x) (f64_of_f32 prev))))
         delta (zip w global).

Definition nova_next (eff : f64) (terms : list NovaTerm) (decoded : list (list f32)) (global : list f32)
    (dim : nat) : list f32 :=
  let delta := foldl (nova_step eff global) (replicate dim f64_zero) (zip terms decoded) in
  map (λ '(x, d), f32_of_f64 (f64_add (f64_of_f32 x) d)) (zip global delta).

(** The reseed and the fallback both store and return FedAvg; the fallback
    copies into the model already there. *)
Definition fednova_seed (self : FedNovaAggregator) (updates : list ClientDelta)
    : FedNovaAggregator * outcome AggregatorError (list f32) :=
  match FedAvg updates with
  | Ok seed => ({| nova_state := Some seed |}, Ok seed)
  | Err e => (self, Err e)
  | Panic => (self, Panic)
  end.

Definition fednova_fallback (self : FedNovaAggregator) (global : list f32) (updates : list ClientDelta)
    : FedNovaAggregator * outcome AggregatorError (list f32) :=
  match (out ← FedAvg updates; copy_from_slice global out) with
  | Ok out => ({| nova_state := Some out |}, Ok out)
  | Err e => (self, Err e)
  | Panic => (self, Panic)
  end.

Definition fednova_aggregate (self : FedNovaAggregator) (updates : list ClientDelta)
    : FedNovaAggregator * outcome AggregatorError (list f32) :=
  match updates with
  | [] => (self, Err EmptyBatch)
  | _ =>
      match decode_and_validate updates with
      | Err e => (self, Err e)
      | Panic => (self, Panic)
      | Ok decoded =>
          let dim := length (decoded !!! 0%nat) in
          match nova_state self with
          | None => fednova_seed self updates
          | Some global =>
              if negb (length global =? dim)%nat then fednova_seed self updates
              else
                let reported := map reported_steps updates in
                if forallb (λ r, bool_decide (r = None)) reported then fednova_fallback self global updates
                else
                  let terms := nova_terms updates reported in
                  let eff := tau_eff terms in
                  if negb (sf_is_finite eff) || SFleb eff f64_zero
                  then fednova_fallback self global updates
                  else
                    let next := nova_next eff terms decoded global dim in
                    match check_finite "<fednova server optimizer>" next with
                    | Some e => (self, Err e)
                    | None =>
                        match copy_from_slice global next with
                        | Ok next => ({| nova_state := Some next |}, Ok next)
                        | Err e => (self, Err e)
                        | Panic => (self, Panic)
                        end
                    end
          end
      end
  end.

#[export] Instance FedNova_aggregator : Aggregator FedNovaAggregator := {|
  aggregate := fednova_aggregate;
  requires_trusted_reference _ := false;
  set_trusted_reference _ st := st;
  agg_control_variate _ := None;
  requires_candidate_scores _ := false;
  set_candidate_scores _ st := st;
|}.

(** ** SCAFFOLD *)

Record ScaffoldAggregator := {
  scaffold_learning_rate : f32;
  num_clients : Z;
  scaffold_state : option (list f32 * list f32);
}.

Definition scaffold_new (server_learning_rate : f32) (num_clients : Z) : ScaffoldAggregator :=
  {| scaffold_learning_rate := server_learning_rate; num_clients := Z.max num_clients 1;
     scaffold_state := None |}.

Definition with_scaffold_state (self : ScaffoldAggregator) (global control : list f32) : ScaffoldAggregator :=
  {| scaffold_learning_rate := scaffold_learning_rate self; num_clients := num_clients self;
     scaffold_state := Some (global, control) |}.

(** The variate an update carries, when it can be read against the model. *)
Definition usable_variate (dim : nat) (update : ClientDelta) : option (list f32) :=
  match control_variate update with
  | None => None
  | Some raw =>
      match decode_weights raw with
      | Ok dc =>
          if negb (length dc =? dim)%nat || existsb (λ v, negb (f32_is_finite v)) dc then None
          else Some dc
      | _ => None
      end
  end.

Definition variate_add (damping : f64) (dim : nat) (step : list f64) (update : ClientDelta) : list f64 :=
  match usable_variate dim update with
  | None => step
  | Some dc => zip_update (λ acc v, f64_add acc (f64_mul damping (f64_of_f32 v))) step dc
  end.

Definition variate_step (self : ScaffoldAggregator) (updates : list ClientDelta) (dim : nat) : list f64 :=
  foldl (variate_add (f64_div f64_one (f64_of_Z (num_clients self))) dim) (replicate dim f64_zero) updates.

Definition model_step (decoded : list (list f32)) (global : list f32) (dim : nat) : list f64 :=
  let share := f64_div f64_one (f64_of_Z (Z.of_nat (length decoded))) in
  foldl (λ step w,
           zip_update (λ acc '(y, x), f64_add acc (f64_mul share (f64_sub (f64_of_f32 y) (f64_of_f32 x))))
             step (zip w global))
    (replicate dim f64_zero) decoded.

Definition all_finite32 (l : list f32) : bool := forallb f32_is_finite l.

Definition scaffold_seed (self : ScaffoldAggregator) (updates : list ClientDelta) (dim : nat)
    : ScaffoldAggregator * outcome AggregatorError (list f32) :=
  match FedAvg updates with
  | Ok seed =>
      let c := map f32_of_f64 (variate_step self updates dim) in
      let c := if all_finite32 c then c else replicate dim f32_zero in
      (with_scaffold_state self seed c, Ok seed)
  | Err e => (self, Err e)
  | Panic => (self, Panic)
  end.

(** The new control variate: moved when some client sent a step that is not
    zero and the result is finite, kept otherwise. *)
Definition next_control {E} (control : list f32) (step : list f64) : outcome E (list f32) :=
  if existsb (λ d, negb (SFeqb d f64_zero)) step then
    let next := map (λ '(c, d), f32_of_f64 (f64_add (f64_of_f32 c) d)) (zip control step) in
    if all_finite32 next then copy_from_slice control next else Ok control
  else Ok control.

Definition scaffold_aggregate (self : ScaffoldAggregator) (updates : list ClientDelta)
    : ScaffoldAggregator * outcome AggregatorError (list f32) :=
  match updates with
  | [] => (self, Err EmptyBatch)
  | _ =>
      match decode_and_validate updates with
      | Err e => (self, Err e)
      | Panic => (self, Panic)
      | Ok decoded =>
          let dim := length (decoded !!! 0%nat) in
          match scaffold_state self with
          | None => scaffold_seed self updates dim
          | Some (global, control) =>
              if negb (length global =? dim)%nat then scaffold_seed self updates dim
              else
                let lr := f64_of_f32 (scaffold_learning_rate self) in
                let next := map (λ '(x, d), f32_of_f64 (f64_add (f64_of_f32 x) (f64_mul lr d)))
                              (zip global (model_step decoded global dim)) in
                match check_finite "<scaffold server optimizer>" next with
                | Some e => (self, Err e)
                | None =>
                    match (c ← next_control control (variate_step self updates dim);
                           x ← copy_from_slice global next; Ok (x, c)) with
                    | Ok (x, c) => (with_scaffold_state self x c, Ok next)
                    | Err e => (self, Err e)
                    | Panic => (self, Panic)
                    end
                end
          end
      end
  end.

#[export] Instance Scaffold_aggregator : Aggregator ScaffoldAggregator := {|
  aggregate := scaffold_aggregate;
  requires_trusted_reference _ := false;
  set_trusted_reference _ st := st;
  agg_control_variate st := snd <$> scaffold_state st;
  requires_candidate_scores _ := false;
  set_candidate_scores _ st := st;
|}.

(** ** Shapes *)

Lemma copy_from_slice_ok {E X} (dst src : list X) :
  length dst = length src → copy_from_slice (E:=E) dst src = Ok src.
Proof. intros H. unfold copy_from_slice. by rewrite H, Nat.eqb_refl. Qed.

Lemma length_nova_next eff terms ds global dim :
  length global = dim → length (nova_next eff terms ds global dim) = dim.
Proof.
  intros Hg. unfold nova_next. rewrite length_map, length_zip_with, length_foldl_acc, length_replicate; [lia|].
  intros acc [t w]. unfold nova_step. case_match; [done|]. apply length_zip_update.
Qed.

Lemma length_model_step ds global dim : length (model_step ds global dim) = dim.
Proof.
  unfold model_step. rewrite length_foldl_acc; [apply length_replicate|]. intros. apply length_zip_update.
Qed.

Lemma length_variate_step self us dim : length (variate_step self us dim) = dim.
Proof.
  unfold variate_step. rewrite length_foldl_acc; [apply length_replicate|].
  intros acc u. unfold variate_add. case_match; [apply length_zip_update|done].
Qed.

(** ** FedNova *)

(** The fallback never panics where it is reached, and commits what it returns. *)
Lemma fednova_fallback_eq self g us ds d0 :
  decode_and_validate us = Ok ds → ds !! 0%nat = Some d0 → length g = length d0 →
  fednova_fallback self g us = fednova_seed self us.
Proof.
  intros Hds Hd0 Hg. unfold fednova_fallback, fednova_seed.
  destruct (FedAvg us) as [out|e|] eqn:Hf; [|done|done]. cbn [mbind outcome_bind].
  rewrite copy_from_slice_ok; [done|]. rewrite Hg. symmetry. by eapply FedAvg_dim.
Qed.

(** A validated batch is answered by FedAvg or by the normalised step. *)
Lemma fednova_valid self us ds d0 :
  us ≠ [] → decode_and_validate us = Ok ds → ds !! 0%nat = Some d0 →
  fednova_aggregate self us = fednova_seed self us ∨
  ∃ global, nova_state self = Some global ∧ length global = length d0 ∧
    ¬ Forall (λ u, reported_steps u = None) us ∧
    let terms := nova_terms us (map reported_steps us) in
    let next := nova_next (tau_eff terms) terms ds global (length d0) in
    fednova_aggregate self us =
      match check_finite "<fednova server optimizer>" next with
      | Some e => (self, Err e)
      | None => ({| nova_state := Some next |}, Ok next)
      end.
Proof.
  intros Hus Hds Hd0. destruct us as [|u us]; [done|]. unfold fednova_aggregate. rewrite Hds.
  rewrite (list_lookup_total_correct _ _ _ Hd0). cbv zeta.
  destruct (nova_state self) as [g|]; [|by left].
  destruct (length g =? length d0)%nat eqn:Hg; cbn [negb]; [|by left]. apply Nat.eqb_eq in Hg.
  destruct (forallb _ _) eqn:Hall; [left; by eapply fednova_fallback_eq|].
  destruct (_ || _); [left; by eapply fednova_fallback_eq|].
  right. exists g. split; [done|]. split; [done|]. split.
  - intros Hnone. apply not_true_iff_false in Hall. apply Hall, forallb_forall. intros r Hr.
    apply in_map_iff in Hr as (u' & <- & Hu'). apply bool_decide_eq_true.
    rewrite Forall_forall in Hnone. apply Hnone. by apply list_elem_of_In.
  - destruct (check_finite _ _) as [e|]; [done|]. rewrite copy_from_slice_ok; [done|].
    by rewrite length_nova_next.
Qed.

Lemma FedNova_laws : AggregatorLaws FedNovaAggregator FedNova_aggregator.
Proof.
  apply laws_of_on, laws_on_intro; simpl; try done.
  - intros st [|u us] e ? He; [done|]. unfold fednova_aggregate. by rewrite He.
  - intros st us ds d0 _ Hus Hds Hd0. split; [done|].
    destruct (fednova_valid st us ds d0 Hus Hds Hd0) as [->|(g & _ & Hg & _ & ->)].
    + pose proof (FedAvg_fits us ds d0 Hds Hd0) as Hf. unfold fednova_seed. by destruct (FedAvg us).
    + destruct (check_finite _ _); [done|]. simpl. by apply length_nova_next.
Qed.

(** ** SCAFFOLD *)

(** The control variate matches the model and can always be sent. *)
Definition scaffold_inv (self : ScaffoldAggregator) : Prop :=
  1 ≤ num_clients self ∧
  match scaffold_state self with
  | None => True
  | Some (global, control) =>
      length control = length global ∧ Forall (λ x, f32_is_finite x = true) control
  end.

Lemma all_finite32_iff l : all_finite32 l = true ↔ Forall (λ x, f32_is_finite x = true) l.
Proof.
  unfold all_finite32. rewrite forallb_forall, Forall_forall.
  split; intros H x Hx; apply H; by apply list_elem_of_In.
Qed.

Lemma next_control_ok {E} control step :
  length control = length step → Forall (λ x, f32_is_finite x = true) control →
  ∃ c, next_control (E:=E) control step = Ok c ∧ length c = length control ∧
    Forall (λ x, f32_is_finite x = true) c.
Proof.
  intros Hl Hc. unfold next_control. case_match; [|by exists control].
  case_match; [|by exists control]. rewrite copy_from_slice_ok.
  - eexists. split; [done|]. rewrite length_map, length_zip_with. split; [lia|]. by apply all_finite32_iff.
  - rewrite length_map, length_zip_with. lia.
Qed.

Lemma scaffold_seed_spec self us ds d0 :
  decode_and_validate us = Ok ds → ds !! 0%nat = Some d0 →
  (∃ e, scaffold_seed self us (length d0) = (self, Err e)) ∨
  ∃ out c, scaffold_seed self us (length d0) = (with_scaffold_state self out c, Ok out) ∧
    length out = length d0 ∧ length c = length d0 ∧ Forall (λ x, f32_is_finite x = true) c.
Proof.
  intros Hds Hd0. pose proof (FedAvg_fits us ds d0 Hds Hd0) as Hf. unfold scaffold_seed.
  destruct (FedAvg us) as [out|e|]; [|left; by exists e|done]. right.
  eexists _, _. split; [done|]. split; [done|]. case_match eqn:Hfin.
  - rewrite length_map, length_variate_step. split; [done|]. by apply all_finite32_iff.
  - rewrite length_replicate. split; [done|]. by apply Forall_replicate.
Qed.

(** What a validated batch does: a refusal leaves the state, an answer is stored
    with a control variate of its dimension. *)
Lemma scaffold_valid self us ds d0 :
  scaffold_inv self → us ≠ [] → decode_and_validate us = Ok ds → ds !! 0%nat = Some d0 →
  (∃ e, scaffold_aggregate self us = (self, Err e)) ∨
  ∃ out c, scaffold_aggregate self us = (with_scaffold_state self out c, Ok out) ∧
    length out = length d0 ∧ length c = length d0 ∧ Forall (λ x, f32_is_finite x = true) c.
Proof.
  intros [Hn Hst] Hus Hds Hd0. destruct us as [|u us]; [done|]. unfold scaffold_aggregate. rewrite Hds.
  rewrite (list_lookup_total_correct _ _ _ Hd0). cbv zeta.
  destruct (scaffold_state self) as [[g c]|] eqn:Hs; [|by eapply scaffold_seed_spec].
  destruct (length g =? length d0)%nat eqn:Hg; cbn [negb]; [|by eapply scaffold_seed_spec].
  apply Nat.eqb_eq in Hg. destruct Hst as [Hlc Hfc]. set (next := map _ (zip g _)).
  assert (Hln : length next = length d0).
  { subst next. rewrite length_map, length_zip_with, length_model_step. lia. }
  destruct (check_finite _ next) as [e|]; [left; by exists e|]. right.
  destruct (next_control_ok (E:=AggregatorError) c (variate_step self (u :: us) (length d0)))
    as (c' & -> & Hlc' & Hfc'); [rewrite length_variate_step; lia|done|]. cbn [mbind outcome_bind].
  rewrite copy_from_slice_ok by congruence. cbn [mbind outcome_bind].
  eexists _, _. split; [done|]. split; [done|]. split; [congruence|done].
Qed.

Lemma Scaffold_laws : AggregatorLawsOn ScaffoldAggregator Scaffold_aggregator scaffold_inv.
Proof.
  apply laws_on_intro; simpl; try done.
  - intros st [|u us] e ? He; [done|]. unfold scaffold_aggregate. by rewrite He.
  - intros st us ds d0 Hinv Hus Hds Hd0.
    destruct (scaffold_valid st us ds d0 Hinv Hus Hds Hd0) as [[e ->]|(out & c & -> & ? & ? & ?)]; [done|].
    split; [|done]. split; [apply Hinv|]. simpl. split; [congruence|done].
Qed.

Lemma scaffold_new_inv lr n : scaffold_inv (scaffold_new lr n).
Proof. split; [simpl; lia|done]. Qed.

(** ** Erasing what cannot be read *)

(** Two updates that differ at most in what no averaging method reads. *)
Definition same_training (u v : ClientDelta) : Prop :=
  client_id u = client_id v ∧ weights u = weights v ∧ num_samples u = num_samples v.

Lemma decode_and_validate_same us vs :
  Forall2 same_training us vs → decode_and_validate us = decode_and_validate vs.
Proof.
  intros H. unfold decode_and_validate.
  assert (Hc : collect (λ u, core_decode_weights (client_id u) (weights u)) us =
               collect (λ u, core_decode_weights (client_id u) (weights u)) vs).
  { induction H as [|u v us vs (Hi & Hw & _) _ IH]; [done|]. simpl. by rewrite Hi, Hw, IH. }
  rewrite Hc. destruct (collect _ vs) as [ds|e|]; [|done|done]. cbn [mbind outcome_bind].
  assert (Hf : ∀ check : ClientDelta * list f32 → _, (∀ u v w, same_training u v → check (u, w) = check (v, w)) →
            ∀ ds, first_err (E:=AggregatorError) check (zip us ds) = first_err check (zip vs ds)).
  { intros check Hck. clear Hc. induction H as [|u v us vs Huv _ IH]; intros [|w ws]; try done.
    simpl. by rewrite (Hck u v w Huv), IH. }
  assert (Hv : ∀ u v w, same_training u v → check_values (u, w) = check_values (v, w)).
  { intros u v w (Hi & _ & Hn). unfold check_values. simpl. by rewrite Hi, Hn. }
  assert (Hd : match ds with [] => None | d :: _ => first_err (check_length (length d)) (zip us ds) end =
               match ds with [] => None | d :: _ => first_err (check_length (length d)) (zip vs ds) end).
  { destruct ds as [|d ds]; [done|]. apply Hf. intros u v w (Hi & _). unfold check_length. simpl. by rewrite Hi. }
  by rewrite Hd, (Hf _ Hv).
Qed.

Lemma FedAvg_same us vs : Forall2 same_training us vs → FedAvg us = FedAvg vs.
Proof.
  intros H. unfold FedAvg, weighted_average. pose proof (decode_and_validate_same _ _ H) as Hd.
  assert (Hw : map (λ u, weight_for sample_count_weighting u us) us = map (λ u, weight_for sample_count_weighting u vs) vs).
  { clear Hd. simpl. induction H as [|u v us vs (_ & _ & Hn) _ IH]; [done|]. simpl in *. by rewrite Hn, IH. }
  rewrite Hd, Hw. by inversion H.
Qed.

(** An update without the control variate the server cannot read. *)
Definition strip_unusable (dim : nat) (u : ClientDelta) : ClientDelta :=
  match usable_variate dim u with
  | Some _ => u
  | None =>
      {| client_id := client_id u; delta_round := delta_round u; weights := weights u;
         num_samples := num_samples u; local_steps := local_steps u; control_variate := None;
         local_loss := local_loss u |}
  end.

Lemma strip_same dim us : Forall2 same_training (map (strip_unusable dim) us) us.
Proof.
  induction us as [|u us IH]; simpl; constructor; [|done].
  unfold strip_unusable, same_training. by destruct (usable_variate dim u).
Qed.

Lemma variate_step_strip self us dim :
  variate_step self (map (strip_unusable dim) us) dim = variate_step self us dim.
Proof.
  unfold variate_step. generalize (replicate dim f64_zero) as acc.
  induction us as [|u us IH]; intros acc; [done|]. simpl. rewrite IH. f_equal.
  unfold variate_add, strip_unusable. destruct (usable_variate dim u) eqn:Hu; [by rewrite Hu|done].
Qed.

(** ** Properties *)

Definition scaffold_run (self : ScaffoldAggregator) (batches : list (list ClientDelta)) : ScaffoldAggregator :=
  foldl (λ self us, (aggregate self us).1) self batches.

(** Over any sequence of batches, whatever clients send as control
    variates, the variate SCAFFOLD hands to the next round's clients is finite and
    has the model's dimension, the population it is damped by stays at least
    one, no round panics, and a refused round leaves model and variate alone. *)
Theorem scaffold_control_is_sound (lr : f32) (n : Z) (batches : list (list ClientDelta)) (us : list ClientDelta) :
  let self := scaffold_run (scaffold_new lr n) batches in
  let '(self', r) := scaffold_aggregate self us in
  r ≠ Panic ∧ 1 ≤ num_clients self' ∧
  match r with
  | Ok out => ∃ c, scaffold_state self' = Some (out, c) ∧ length c = length out ∧
                   agg_control_variate self' = Some c ∧ Forall (λ x, f32_is_finite x = true) c
  | _ => self' = self
  end.
Proof.
  assert (Hinv : scaffold_inv (scaffold_run (scaffold_new lr n) batches)).
  { induction batches as [|b batches IH] using rev_ind; [apply scaffold_new_inv|].
    unfold scaffold_run in *. rewrite foldl_app. by apply (on_preserved (AggregatorLawsOn:=Scaffold_laws)). }
  cbv zeta. revert Hinv. generalize (scaffold_run (scaffold_new lr n) batches) as self. intros self Hinv.
  destruct us as [|u us]; [split; [done|split; [apply Hinv|done]]|].
  destruct (decode_and_validate (u :: us)) as [ds|e|] eqn:Hds.
  - destruct (head_decoded _ _ Hds ltac:(done)) as (d0 & _ & Hd0).
    destruct (scaffold_valid self (u :: us) ds d0 Hinv ltac:(done) Hds Hd0)
      as [[e ->]|(out & c & -> & Ho & Hc & Hf)]; (split; [done|]; split; [apply Hinv|]); [done|].
    exists c. split; [done|]. split; [congruence|done].
  - unfold scaffold_aggregate. rewrite Hds. split; [done|]. split; [apply Hinv|done].
  - by apply decode_and_validate_no_panic in Hds.
Qed.

(** A control variate that is absent, undecodable, of another length or not
    finite is no evidence: erasing it from its update changes neither SCAFFOLD's
    answer nor its state, and the client's weights still count. *)
Theorem scaffold_ignores_unusable_variates (self : ScaffoldAggregator) (us : list ClientDelta)
    (ds : list (list f32)) (d0 : list f32) :
  decode_and_validate us = Ok ds → ds !! 0%nat = Some d0 →
  scaffold_aggregate self (map (strip_unusable (length d0)) us) = scaffold_aggregate self us.
Proof.
  intros Hds Hd0. set (vs := map _ us). pose proof (strip_same (length d0) us) as Hs. fold vs in Hs.
  assert (Hseed : scaffold_seed self vs (length d0) = scaffold_seed self us (length d0)).
  { unfold scaffold_seed. rewrite (FedAvg_same _ _ Hs). subst vs. by rewrite variate_step_strip. }
  assert (Hstep : variate_step self vs (length d0) = variate_step self us (length d0)) by apply variate_step_strip.
  assert (Hne : us ≠ [] ∧ vs ≠ []).
  { assert (us ≠ []) as Hus by (intros ->; injection Hds as <-; done). split; [done|].
    subst vs. by destruct us. }
  destruct Hne as [Hus Hvs]. unfold scaffold_aggregate. rewrite (decode_and_validate_same _ _ Hs), Hds.
  rewrite (list_lookup_total_correct _ _ _ Hd0). cbv zeta. rewrite Hseed, Hstep.
  destruct us; [done|]. destruct vs; [done|]. done.
Qed.

Definition with_variate (u : ClientDelta) (raw : bytes) : ClientDelta :=
  {| client_id := client_id u; delta_round := delta_round u; weights := weights u;
     num_samples := num_samples u; local_steps := local_steps u; control_variate := Some raw;
     local_loss := local_loss u |}.

(** A readable variate, a NaN and a short one. *)
Definition variate_batch : list ClientDelta :=
  [with_variate (one_delta "a" [f32_of_Z 1; f32_of_Z 2] 1) (encode_weights [f32_of_Z 3; f32_of_Z 4]);
   with_variate (one_delta "b" [f32_of_Z 3; f32_of_Z 4] 1) (encode_weights [NaN_bits false 4194304; f32_one]);
   with_variate (one_delta "c" [f32_of_Z 5; f32_of_Z 6] 2) (encode_weights [f32_one])].

Definition seeded_scaffold : ScaffoldAggregator := (scaffold_aggregate (scaffold_new f32_one 4) variate_batch).1.

Lemma scaffold_ignores_unusable_variates_witness :
  scaffold_aggregate seeded_scaffold (map (strip_unusable 2) variate_batch) =
    scaffold_aggregate seeded_scaffold variate_batch ∧
  agg_control_variate seeded_scaffold = Some [f32_lit 3 4; f32_one] ∧
  agg_control_variate (scaffold_aggregate seeded_scaffold variate_batch).1 = Some [f32_lit 3 2; f32_of_Z 2].
Proof.
  split; [|split; vm_compute; reflexivity].
  apply (scaffold_ignores_unusable_variates seeded_scaffold variate_batch
           [[f32_of_Z 1; f32_of_Z 2]; [f32_of_Z 3; f32_of_Z 4]; [f32_of_Z 5; f32_of_Z 6]]
           [f32_of_Z 1; f32_of_Z 2]); vm_compute; reflexivity.
Defined.

(** FedNova either answers as FedAvg or by its normalised step: an accepted
    round stores exactly the model it returns, a refused one leaves the model as
    it was, no round panics, and a batch in which nobody reports a step count
    (a count of zero is none) gets FedAvg's own answer or error. *)
Theorem fednova_commits_what_it_returns (self : FedNovaAggregator) (us : list ClientDelta) :
  let '(self', r) := fednova_aggregate self us in
  r ≠ Panic ∧
  match r with Ok out => nova_state self' = Some out | _ => self' = self end ∧
  (Forall (λ u, reported_steps u = None) us → r = FedAvg us).
Proof.
  destruct us as [|u us]; [done|].
  assert (Hseed : let '(self', r) := fednova_seed self (u :: us) in
    r ≠ Panic ∧ match r with Ok out => nova_state self' = Some out | _ => self' = self end ∧
    (Forall (λ u, reported_steps u = None) (u :: us) → r = FedAvg (u :: us))).
  { unfold fednova_seed. destruct (FedAvg (u :: us)) eqn:Hf; [done|done|].
    by apply weighted_average_no_panic in Hf. }
  destruct (decode_and_validate (u :: us)) as [ds|e|] eqn:Hds.
  - destruct (head_decoded _ _ Hds ltac:(done)) as (d0 & _ & Hd0).
    destruct (fednova_valid self (u :: us) ds d0 ltac:(done) Hds Hd0) as [->|(g & _ & _ & Hrep & ->)]; [done|].
    destruct (check_finite _ _); (split; [done|]; split; [done|]); by intros ?%Hrep.
  - unfold fednova_aggregate. rewrite Hds. split; [done|]. split; [done|]. intros _.
    unfold FedAvg, weighted_average. by rewrite Hds.
  - by apply decode_and_validate_no_panic in Hds.
Qed.

Definition with_steps (u : ClientDelta) (t : option Z) : ClientDelta :=
  {| client_id := client_id u; delta_round := delta_round u; weights := weights u;
     num_samples := num_samples u; local_steps := t; control_variate := control_variate u;
     local_loss := local_loss u |}.

(** The ceiling bounds what a client reports, not the mean given to the clients
    that report nothing: one claim of [u32::MAX] puts every silent client's count,
    and the batch's effective count, far above [MAX_PLAUSIBLE_LOCAL_STEPS]. *)
Theorem silent_clients_exceed_the_ceiling :
  ∃ us : list ClientDelta,
    (∃ ds, decode_and_validate us = Ok ds) ∧
    let terms := nova_terms us (map reported_steps us) in
    existsb (λ t, SFltb (f64_of_Z MAX_PLAUSIBLE_LOCAL_STEPS) (nova_tau t)) terms = true ∧
    SFltb (f64_of_Z (2000 * MAX_PLAUSIBLE_LOCAL_STEPS)) (tau_eff terms) = true.
Proof.
  exists [with_steps (one_delta "hostile" [f32_one] 1) (Some u32_max); one_delta "silent" [f32_one] 1].
  split; [eexists; vm_compute; reflexivity|]. split; vm_compute; reflexivity.
Qed.
