(* ===== verification/Linear.v ===== *)
(** * Dense matrices and the linear solve of FLANDERS ([conflux-core/src/flanders.rs])

    The matrix helpers and the Gauss-Jordan elimination are written over a class
    of scalars, so that one text of the code has two readings: IEEE binary64,
    which is what runs ([f64_scalar]), and exact rationals, over which the
    elimination is proved to solve its system (file [Elimination]).  A matrix is a list of
    rows, as the code has it; every index the code takes is in range on the
    rectangular matrices it builds, which the shape lemmas state. *)

From S2P Require Import Prelude Float.
Open Scope nat_scope.

Class Scalar (T : Type) := {
  s_zero : T;
  s_one : T;
  s_add : T → T → T;
  s_sub : T → T → T;
  s_mul : T → T → T;
  s_div : T → T → T;
  (** [x == 0.0] *)
  s_is_zero : T → bool;
  (** [a.abs().partial_cmp(&b.abs()).unwrap_or(Ordering::Equal)] *)
  s_abs_cmp : T → T → comparison;
  (** [x.abs() < 1e-12] *)
  s_tiny : T → bool;
  s_is_finite : T → bool;
}.

#[export] Instance scalar_inhabited {T} `{!Scalar T} : Inhabited T := populate s_zero.

#[export] Instance f64_scalar : Scalar f64 := {|
  s_zero := f64_zero;
  s_one := f64_of_Z 1;
  s_add := f64_add;
  s_sub := f64_sub;
  s_mul := f64_mul;
  s_div := f64_div;
  s_is_zero x := SFeqb x f64_zero;
  s_abs_cmp a b := default Eq (SFcompare (SFabs a) (SFabs b));
  s_tiny x := SFltb (SFabs x) (f64_lit 1 1000000000000);
  s_is_finite := sf_is_finite;
|}.

(** ** Matrices *)

(** [type Matrix = Vec<Vec<f64>>] *)
Notation Matrix T := (list (list T)).

Section matrix.
Context {T : Type} `{!Scalar T}.

Definition zeros (rows cols : nat) : Matrix T := replicate rows (replicate cols s_zero).

Definition identity (n : nat) : Matrix T :=
  imap (λ i row, <[i := s_one]> row) (zeros n n).

(** [a.first().map_or(0, |r| r.len())] *)
Definition width (a : Matrix T) : nat := default 0 (length <$> head a).

(** One row of the product: the loops over [p] and [j], skipping a zero [a[i][p]]. *)
Definition mul_row (arow : list T) (b : Matrix T) (k m : nat) : list T :=
  foldl (λ out p,
      let aip := arow !!! p in
      if s_is_zero aip then out
      else zip_update (λ o bpj, s_add o (s_mul aip bpj)) out (b !!! p))
    (replicate m s_zero) (seq 0 k).

Definition matmul (a b : Matrix T) : Matrix T :=
  map (λ arow, mul_row arow b (length b) (width b)) a.

Definition transpose (a : Matrix T) : Matrix T :=
  map (λ j, map (λ arow, arow !!! j) a) (seq 0 (width a)).

(** ** Gaussian elimination with partial pivoting *)

(** [m.swap(i, j)] *)
Definition swap_rows (i j : nat) (m : Matrix T) : Matrix T := <[i := m !!! j]> (<[j := m !!! i]> m).

(** The largest entry of the column, at or below the diagonal; the last of several. *)
Definition find_pivot (m : Matrix T) (col n : nat) : option nat :=
  max_by_opt (λ b a, match s_abs_cmp (m !!! a !!! col) (m !!! b !!! col) with Gt => true | _ => false end)
    (seq col (n - col)).

(** [for value in m[col][col..n].iter_mut() { *value /= d; }] *)
Definition divide_from (col n : nat) (d : T) (row : list T) : list T :=
  imap (λ j v, if (col <=? j) && (j <? n) then s_div v d else v) row.

(** [for (t, p) in target[col..n].iter_mut().zip(&pivot[col..n]) { *t -= factor * p; }] *)
Definition subtract_from (col n : nat) (factor : T) (pivot target : list T) : list T :=
  imap (λ j t, if (col <=? j) && (j <? n) then s_sub t (s_mul factor (pivot !!! j)) else t) target.

Definition normalise_row (col n : nat) (st : Matrix T * Matrix T) : Matrix T * Matrix T :=
  let '(m, rhs) := st in
  let d := m !!! col !!! col in
  (<[col := divide_from col n d (m !!! col)]> m,
   <[col := map (λ v, s_div v d) (rhs !!! col)]> rhs).

Definition eliminate_row (col n : nat) (st : Matrix T * Matrix T) (row : nat) : Matrix T * Matrix T :=
  let '(m, rhs) := st in
  if row =? col then st
  else
    let factor := m !!! row !!! col in
    if s_is_zero factor then st
    else
      (<[row := subtract_from col n factor (m !!! col) (m !!! row)]> m,
       <[row := zip_update (λ t p, s_sub t (s_mul factor p)) (rhs !!! row) (rhs !!! col)]> rhs).

Definition solve_column (n : nat) (st : Matrix T * Matrix T) (col : nat) : option (Matrix T * Matrix T) :=
  let '(m, rhs) := st in
  pivot ← find_pivot m col n;
  if s_tiny (m !!! pivot !!! col) then None
  else
    Some (foldl (eliminate_row col n)
            (normalise_row col n (swap_rows col pivot m, swap_rows col pivot rhs)) (seq 0 n)).

Fixpoint solve_columns (n : nat) (st : Matrix T * Matrix T) (cols : list nat) : option (Matrix T * Matrix T) :=
  match cols with
  | [] => Some st
  | col :: cols => st' ← solve_column n st col; solve_columns n st' cols
  end.

Definition all_finite_matrix (m : Matrix T) : bool := forallb (forallb s_is_finite) m.

Definition solve (m rhs : Matrix T) : option (Matrix T) :=
  let n := length m in
  if (n =? 0) || negb (length (m !!! 0) =? n) || negb (length rhs =? n) then None
  else
    '(_, x) ← solve_columns n (m, rhs) (seq 0 n);
    if all_finite_matrix x then Some x else None.

(** ** The alternating least-squares fit of MAR(1) *)

Definition add_matrix (a b : Matrix T) : Matrix T := zip_update (zip_update s_add) a b.

(** [for (i, row) in m.iter_mut().enumerate() { row[i] += ridge; }] *)
Definition add_ridge (ridge : T) (m : Matrix T) : Matrix T :=
  imap (λ i row, alter (λ v, s_add v ridge) i row) m.

(** The two normal-equation sums of the A-step, with [Z = X B]. *)
Definition a_sums (b : Matrix T) (pairs : list (Matrix T * Matrix T)) (d : nat) : Matrix T * Matrix T :=
  foldl (λ '(zzt, yzt) '(x, y),
      let z := matmul x b in
      let zt := transpose z in
      (add_matrix zzt (matmul z zt), add_matrix yzt (matmul y zt)))
    (zeros d d, zeros d d) pairs.

(** The two of the B-step, with [W = A X]. *)
Definition b_sums (a : Matrix T) (pairs : list (Matrix T * Matrix T)) (h : nat) : Matrix T * Matrix T :=
  foldl (λ '(wtw, wty) '(x, y),
      let w := matmul a x in
      let wt := transpose w in
      (add_matrix wtw (matmul wt w), add_matrix wty (matmul wt y)))
    (zeros h h, zeros h h) pairs.

(** One sweep: the two solves, [None] when either system is singular. *)
Definition als_sweep (ridge : T) (pairs : list (Matrix T * Matrix T)) (d h : nat) (ab : Matrix T * Matrix T)
    : option (Matrix T * Matrix T) :=
  let '(_, b) := ab in
  let '(zzt, yzt) := a_sums b pairs d in
  at_ ← solve (add_ridge ridge zzt) (transpose yzt);
  let a := transpose at_ in
  let '(wtw, wty) := b_sums a pairs h in
  b ← solve (add_ridge ridge wtw) wty;
  Some (a, b).

Fixpoint als (iterations : nat) (ridge : T) (pairs : list (Matrix T * Matrix T)) (d h : nat)
    (ab : Matrix T * Matrix T) : option (Matrix T * Matrix T) :=
  match iterations with
  | O => Some ab
  | S n => ab' ← als_sweep ridge pairs d h ab; als n ridge pairs d h ab'
  end.

(** [pairs[0].0[0].len()]: an observation without a row panics. *)
Definition fit_mar {E} (als_iterations : nat) (ridge : T) (pairs : list (Matrix T * Matrix T))
    : outcome E (option (Matrix T * Matrix T)) :=
  first ← index pairs 0;
  row ← index first.1 0;
  let d := length first.1 in
  let h := length row in
  Ok (match als als_iterations ridge pairs d h (identity d, identity h) with
      | Some (a, b) => if all_finite_matrix a && all_finite_matrix b then Some (a, b) else None
      | None => None
      end).
End matrix.

(** ** Shapes *)

Section shape.
Context {T : Type} `{!Scalar T}.
Implicit Types m a b rhs : Matrix T.

Definition shape (r c : nat) (m : Matrix T) : Prop :=
  length m = r ∧ Forall (λ row, length row = c) m.

Lemma shape_row r c m i : shape r c m → i < r → length (m !!! i) = c.
Proof.
  intros [<- Hc] Hi. rewrite Forall_lookup in Hc. destruct (lookup_lt_is_Some_2 m i Hi) as [row Hrow].
  rewrite (list_lookup_total_correct _ _ _ Hrow). by eapply Hc.
Qed.

Lemma shape_insert r c m i row : shape r c m → length row = c → shape r c (<[i := row]> m).
Proof. intros [Hl Hc] Hr. split; [by rewrite length_insert|]. by apply Forall_insert. Qed.

Lemma width_shape r c m : shape r c m → 0 < r → width m = c.
Proof. intros [Hl Hc] Hr. unfold width. destruct Hc; simpl in *; [lia|done]. Qed.

Lemma zeros_shape r c : shape r c (zeros r c).
Proof. split; [apply length_replicate|]. apply Forall_replicate, length_replicate. Qed.

Lemma shape_imap r c m (f : nat → list T → list T) :
  (∀ i row, length (f i row) = length row) → shape r c m → shape r c (imap f m).
Proof.
  intros Hf [Hl Hc]. split; [by rewrite length_imap|]. apply Forall_lookup. intros i row.
  rewrite list_lookup_imap. intros (row' & Hrow & ->)%fmap_Some. rewrite Hf.
  rewrite Forall_lookup in Hc. by eapply Hc.
Qed.

Lemma identity_shape n : shape n n (identity n).
Proof. apply shape_imap; [|apply zeros_shape]. intros. apply length_insert. Qed.

Lemma add_ridge_shape r c ridge m : shape r c m → shape r c (add_ridge ridge m).
Proof. apply shape_imap. intros. apply length_alter. Qed.

Lemma add_matrix_shape r c a b : shape r c a → shape r c (add_matrix a b).
Proof.
  unfold add_matrix. intros [Hl Hc]. split; [by rewrite length_zip_update|].
  clear Hl. revert b. induction Hc as [|row a Hr Ha IH]; intros [|row' b]; simpl; constructor; try done.
  by rewrite length_zip_update.
Qed.

Lemma length_mul_row arow b (k m : nat) : length (mul_row arow b k m) = m.
Proof.
  apply (foldl_invariant (λ out, length out = m)); [apply length_replicate|].
  intros acc p _ Hl. cbv zeta. case_match; [done|]. by rewrite length_zip_update.
Qed.

Lemma matmul_shape n k (m : nat) a b : shape n k a → shape k m b → 0 < k → shape n m (matmul a b).
Proof.
  intros [Ha _] Hb Hk. unfold matmul. split; [by rewrite length_map|].
  apply Forall_map, Forall_true. intros row. simpl. rewrite length_mul_row. by eapply width_shape.
Qed.

Lemma transpose_shape r c a : shape r c a → 0 < r → shape c r (transpose a).
Proof.
  intros Ha Hr. unfold transpose. rewrite (width_shape r c) by done.
  split; [by rewrite length_map, length_seq|]. apply Forall_map, Forall_true. intros j. simpl.
  rewrite length_map. apply Ha.
Qed.

(** The state of the elimination keeps its shape. *)
Definition system_shape (n w : nat) (st : Matrix T * Matrix T) : Prop := shape n n st.1 ∧ shape n w st.2.

Lemma swap_rows_shape r c m i j : shape r c m → i < r → j < r → shape r c (swap_rows i j m).
Proof. intros Hm Hi Hj. unfold swap_rows. by do 2 (apply shape_insert; [|by eapply shape_row]). Qed.

Lemma normalise_row_shape n w col st : system_shape n w st → col < n → system_shape n w (normalise_row col n st).
Proof.
  destruct st as [m rhs]. intros [Hm Hr] Hc. split; apply shape_insert; try done.
  - unfold divide_from. rewrite length_imap. by eapply shape_row.
  - rewrite length_map. by eapply shape_row.
Qed.

Lemma eliminate_row_shape n w col st row : system_shape n w st → row < n → system_shape n w (eliminate_row col n st row).
Proof.
  destruct st as [m rhs]. intros [Hm Hr] Hrow. unfold eliminate_row. case_match; [done|].
  case_match; [done|]. split; apply shape_insert; try done.
  - unfold subtract_from. rewrite length_imap. by eapply shape_row.
  - rewrite length_zip_update. by eapply shape_row.
Qed.

Lemma find_pivot_range m col n piv : find_pivot m col n = Some piv → col ≤ piv < n.
Proof. intros Hp%max_by_opt_in. apply elem_of_seq in Hp. lia. Qed.

Lemma solve_column_shape n w st col st' :
  system_shape n w st → col < n → solve_column n st col = Some st' → system_shape n w st'.
Proof.
  destruct st as [m rhs]. intros [Hm Hr] Hc. unfold solve_column.
  intros (piv & Hp%find_pivot_range & H)%bind_Some. case_match; [done|]. injection H as <-.
  apply (foldl_invariant (system_shape n w)).
  - apply (normalise_row_shape n w col (swap_rows col piv m, swap_rows col piv rhs)); [|done].
    split; apply swap_rows_shape; (done || lia).
  - intros st row Hrow%elem_of_seq Hst. apply eliminate_row_shape; [done|lia].
Qed.

Lemma solve_columns_shape n w cols st st' :
  system_shape n w st → Forall (λ c, c < n) cols → solve_columns n st cols = Some st' → system_shape n w st'.
Proof.
  intros Hst Hc. revert st Hst. induction Hc as [|c cols Hc _ IH]; intros st Hst; simpl; [by intros [= <-]|].
  intros (st1 & H1 & H)%bind_Some. eapply IH; [|done]. by eapply solve_column_shape.
Qed.

Lemma solve_some m rhs x :
  solve m rhs = Some x →
  let n := length m in n ≠ 0 ∧ length (m !!! 0) = n ∧ length rhs = n ∧ all_finite_matrix x = true ∧
  ∃ m', solve_columns n (m, rhs) (seq 0 n) = Some (m', x).
Proof.
  unfold solve. destruct (_ || _) eqn:Hg; [done|]. intros ([m' x'] & Hs & H)%bind_Some.
  apply orb_false_iff in Hg as [[Hn Hm]%orb_false_iff Hr]. apply Nat.eqb_neq in Hn.
  apply negb_false_iff, Nat.eqb_eq in Hm, Hr. simpl in H. case_match; [|done]. injection H as ->.
  repeat (split; [done|]). by exists m'.
Qed.

(** A solution has the right-hand side's shape and is finite everywhere. *)
Lemma solve_shape n w m rhs x :
  shape n n m → shape n w rhs → solve m rhs = Some x → shape n w x ∧ all_finite_matrix x = true.
Proof.
  intros Hm Hr (_ & _ & _ & Hfin & m' & Hs)%solve_some. destruct Hm as [Hl Hm]. rewrite Hl in Hs.
  split; [|done]. apply (solve_columns_shape n w) in Hs; [apply Hs|done|].
  apply Forall_forall. intros c Hc%elem_of_seq. lia.
Qed.

(** The pairs of observations the fit is given. *)
Definition pairs_shape (d h : nat) (pairs : list (Matrix T * Matrix T)) : Prop :=
  Forall (λ '(x, y), shape d h x ∧ shape d h y) pairs.

Lemma a_sums_shape b pairs d :
  shape d d (a_sums b pairs d).1 ∧ shape d d (a_sums b pairs d).2.
Proof.
  unfold a_sums. apply (foldl_invariant (λ s : Matrix T * Matrix T, shape d d s.1 ∧ shape d d s.2)).
  - split; apply zeros_shape.
  - intros [zzt yzt] [x y] _ []. split; by apply add_matrix_shape.
Qed.

Lemma b_sums_shape a pairs h :
  shape h h (b_sums a pairs h).1 ∧ shape h h (b_sums a pairs h).2.
Proof.
  unfold b_sums. apply (foldl_invariant (λ s : Matrix T * Matrix T, shape h h s.1 ∧ shape h h s.2)).
  - split; apply zeros_shape.
  - intros [wtw wty] [x y] _ []. split; by apply add_matrix_shape.
Qed.

Lemma als_sweep_shape ridge pairs d h ab a b :
  0 < d → als_sweep ridge pairs d h ab = Some (a, b) → shape d d a ∧ shape h h b.
Proof.
  intros Hd. destruct ab as [a0 b0]. unfold als_sweep.
  pose proof (a_sums_shape b0 pairs d) as [Hz Hy]. destruct (a_sums b0 pairs d) as [zzt yzt].
  intros (at_ & Hat & H)%bind_Some.
  apply (solve_shape d d) in Hat as [Hat _]; [|by apply add_ridge_shape|by apply transpose_shape].
  pose proof (b_sums_shape (transpose at_) pairs h) as [Hw Hwy]. destruct (b_sums _ pairs h) as [wtw wty].
  apply bind_Some in H as (b' & Hb & [= <- <-]).
  apply (solve_shape h h) in Hb as [Hb _]; [|by apply add_ridge_shape|done].
  split; [by apply transpose_shape|done].
Qed.

Lemma als_shape n ridge pairs d h ab a b :
  0 < d → shape d d ab.1 → shape h h ab.2 → als n ridge pairs d h ab = Some (a, b) → shape d d a ∧ shape h h b.
Proof.
  intros Hd. revert ab. induction n as [|n IH]; intros ab Ha Hb; simpl; [by intros [= ->]|].
  intros ([a' b'] & Hs & H)%bind_Some. apply als_sweep_shape in Hs as [? ?]; [|done]. by apply (IH (a', b')).
Qed.

(** The fit panics exactly when it has no observation or an observation without
    rows; what it returns has the model's shapes and is finite. *)
Lemma fit_mar_shape {E} n ridge pairs d h :
  0 < d → pairs ≠ [] → pairs_shape d h pairs →
  ∃ r, fit_mar (E:=E) n ridge pairs = Ok r ∧
    match r with
    | Some (a, b) => shape d d a ∧ shape h h b ∧ all_finite_matrix a = true ∧ all_finite_matrix b = true
    | None => True
    end.
Proof.
  intros Hd Hne Hp. destruct pairs as [|[x y] pairs]; [done|]. apply Forall_cons in Hp as [[Hx _] _].
  unfold fit_mar. simpl. destruct x as [|row x]; [destruct Hx; simpl in *; lia|].
  destruct Hx as [Hxl [Hrow _]%Forall_cons]. simpl in Hxl, Hrow.
  simpl. rewrite Hxl, Hrow. eexists. split; [done|].
  destruct (als _ _ _ _ _ _) as [[a b]|] eqn:Ha; [|done]. apply als_shape in Ha; [|done|apply identity_shape..].
  destruct (all_finite_matrix a) eqn:Hfa; [|done]. destruct (all_finite_matrix b) eqn:Hfb; simpl; [|done]. naive_solver.
Qed.
End shape.
