(* ===== verification/Elimination.v ===== *)
(** * The linear solve over exact rationals

    [Linear.solve] read over the rationals: when it answers, the answer solves the
    system it was given.  Elimination divides and subtracts only from the pivot
    column on; that this loses nothing is part of the proof. *)

From S2P Require Import Prelude Float Linear.
From Stdlib Require Import QArith Qcanon.

Close Scope Q_scope.
Open Scope Qc_scope.
Open Scope nat_scope.

Definition qc_abs (x : Qc) : Qc := if Qclt_le_dec x 0%Qc then (- x)%Qc else x.

#[export] Instance Qc_scalar : Scalar Qc := {|
  s_zero := 0%Qc;
  s_one := 1%Qc;
  s_add := Qcplus;
  s_sub := Qcminus;
  s_mul := Qcmult;
  s_div := Qcdiv;
  s_is_zero x := if Qc_eq_dec x 0%Qc then true else false;
  s_abs_cmp a b := Qccompare (qc_abs a) (qc_abs b);
  s_tiny x := if Qclt_le_dec (qc_abs x) (Q2Qc (1 # 1000000000000)) then true else false;
  s_is_finite _ := true;
|}.

Lemma tiny_zero : s_tiny (0%Qc : Qc) = true.
Proof. vm_compute. reflexivity. Qed.

(** ** Cells and sums *)

Definition cell (m : Matrix Qc) (i j : nat) : Qc := m !!! i !!! j.

Fixpoint qsum (n : nat) (f : nat → Qc) : Qc :=
  match n with O => 0%Qc | S n => (qsum n f + f n)%Qc end.

Lemma qsum_ext n f g : (∀ k, k < n → f k = g k) → qsum n f = qsum n g.
Proof.
  induction n as [|n IH]; intros H; simpl; [done|]. rewrite IH by (intros; apply H; lia).
  by rewrite (H n) by lia.
Qed.

Lemma qsum_scale n f d : qsum n (λ k, f k * d)%Qc = (qsum n f * d)%Qc.
Proof. induction n as [|n IH]; simpl; [ring|]. rewrite IH. ring. Qed.

Lemma qsum_sub n f g d : qsum n (λ k, f k - d * g k)%Qc = (qsum n f - d * qsum n g)%Qc.
Proof. induction n as [|n IH]; simpl; [ring|]. rewrite IH. ring. Qed.

Lemma qsum_delta n f i :
  qsum n (λ k, (if decide (i = k) then 1 else 0) * f k)%Qc = if decide (i < n) then f i else 0%Qc.
Proof.
  induction n as [|n IH]; simpl; [done|]. rewrite IH.
  repeat case_decide; try lia; subst; ring.
Qed.

Lemma matrix_ext n w (a b : Matrix Qc) :
  shape n w a → shape n w b → (∀ i j, i < n → j < w → cell a i j = cell b i j) → a = b.
Proof.
  intros Ha Hb H. pose proof Ha as [Hla _]. pose proof Hb as [Hlb _].
  apply list_eq_same_length with n; [done..|]. intros i ra rb Hi Hra Hrb.
  assert (length ra = w ∧ length rb = w) as [Hwa Hwb].
  { rewrite <-(list_lookup_total_correct _ _ _ Hra), <-(list_lookup_total_correct _ _ _ Hrb).
    split; by eapply shape_row. }
  apply list_eq_same_length with w; [done..|]. intros j x y Hj Hx Hy.
  pose proof (H i j Hi Hj) as Hc. unfold cell in Hc.
  rewrite (list_lookup_total_correct _ _ _ Hra), (list_lookup_total_correct _ _ _ Hrb) in Hc.
  by rewrite (list_lookup_total_correct _ _ _ Hx), (list_lookup_total_correct _ _ _ Hy) in Hc.
Qed.

(** The code's product is the sum of products: skipping a zero factor adds nothing. *)
Lemma cell_matmul n k w (a b : Matrix Qc) i j :
  shape n k a → shape k w b → 0 < k → i < n → j < w →
  cell (matmul a b) i j = qsum k (λ p, cell a i p * cell b p j)%Qc.
Proof.
  intros Ha Hb Hk Hi Hj. unfold cell at 1, matmul. pose proof Ha as [Hla _].
  rewrite (@list_lookup_total_fmap (list Qc) (list Qc) _ list_inhabited list_inhabited) by lia. rewrite (width_shape k w) by done.
  pose proof Hb as [-> _]. unfold mul_row, cell at 1. generalize (a !!! i) as arow. intros arow.
  assert (Hfold : ∀ q, q ≤ k →
    let out := foldl (λ out p, let aip := arow !!! p in
                 if s_is_zero aip then out
                 else zip_update (λ o bpj, s_add o (s_mul aip bpj)) out (b !!! p))
               (replicate w s_zero) (seq 0 q) in
    length out = w ∧ out !!! j = qsum q (λ p, arow !!! p * cell b p j)%Qc); [|by apply Hfold].
  induction q as [|q IH]; intros Hq; cbn zeta.
  { cbn [seq foldl qsum]. rewrite length_replicate. split; [done|]. by apply lookup_total_replicate_2. }
  destruct IH as [Hl Hv]; [lia|]. rewrite seq_S, foldl_app. cbn [foldl]. cbn [Nat.add].
  set (out := foldl _ _ _) in *. clearbody out. cbn zeta. simpl qsum. simpl s_is_zero.
  destruct (Qc_eq_dec (arow !!! q) 0) as [Hz|Hz].
  - split; [done|]. rewrite Hv, Hz. ring.
  - rewrite length_zip_update. split; [done|]. rewrite <-Hv. unfold cell.
    assert (Hlb : length (b !!! q) = w) by (eapply shape_row; [done|lia]).
    revert Hl Hlb Hj. generalize (b !!! q) as brow. generalize (arow !!! q). clear. intros c brow.
    revert out brow w. induction j as [|j IH]; intros [|o out] [|bv brow] w Hl Hlb Hj; simpl in *; try lia; [done|].
    apply (IH out brow (pred w)); lia.
Qed.

(** ** Row operations *)

(** [X] solves the system: a function, so that no shape is asked of it. *)
Definition solves (n w : nat) (st : Matrix Qc * Matrix Qc) (X : nat → nat → Qc) : Prop :=
  ∀ i j, i < n → j < w → qsum n (λ k, cell st.1 i k * X k j)%Qc = cell st.2 i j.

(** The first [col] columns are those of the identity. *)
Definition reduced (n col : nat) (m : Matrix Qc) : Prop :=
  ∀ r c, r < n → c < col → cell m r c = if decide (r = c) then 1%Qc else 0%Qc.

Lemma cell_insert (m : Matrix Qc) i row r j :
  i < length m → cell (<[i := row]> m) r j = if decide (r = i) then row !!! j else cell m r j.
Proof.
  intros Hi. unfold cell. case_decide; subst.
  - by rewrite list_lookup_total_insert_eq.
  - by rewrite list_lookup_total_insert_ne.
Qed.

Lemma cell_swap n w (m : Matrix Qc) a b r j :
  shape n w m → a < n → b < n →
  cell (swap_rows a b m) r j = cell m (if decide (r = a) then b else if decide (r = b) then a else r) j.
Proof.
  intros [Hl _] Ha Hb. unfold swap_rows. rewrite cell_insert by (rewrite length_insert; lia).
  case_decide; [done|]. rewrite cell_insert by lia. by case_decide.
Qed.

Lemma solves_swap n w m rhs a b X :
  shape n n m → shape n w rhs → a < n → b < n →
  solves n w (swap_rows a b m, swap_rows a b rhs) X → solves n w (m, rhs) X.
Proof.
  intros Hm Hr Ha Hb H i j Hi Hj. simpl.
  set (i' := if decide (i = a) then b else if decide (i = b) then a else i).
  assert (Hi' : i' < n) by (subst i'; repeat case_decide; lia).
  pose proof (H i' j Hi' Hj) as H'. simpl in H'. rewrite (cell_swap n w) in H' by done.
  assert (Hinv : (if decide (i' = a) then b else if decide (i' = b) then a else i') = i).
  { subst i'. repeat case_decide; congruence. }
  rewrite Hinv in H'. rewrite <-H'. apply qsum_ext. intros k Hk. by rewrite (cell_swap n n), Hinv by done.
Qed.

Lemma reduced_swap n col piv m :
  shape n n m → col < n → col ≤ piv < n → reduced n col m → reduced n col (swap_rows col piv m).
Proof.
  intros Hm Hc Hp Hred r c Hr Hcc. rewrite (cell_swap n n) by (done || lia).
  rewrite Hred by (repeat case_decide; lia). repeat case_decide; (done || lia).
Qed.

(** The pivot row is zero to the left, so dividing from the pivot on divides it all. *)
Lemma cell_normalise n w col m rhs :
  shape n n m → shape n w rhs → col < n → reduced n col m →
  let d := cell m col col in
  let st := normalise_row col n (m, rhs) in
  (∀ r k, r < n → k < n → cell st.1 r k = if decide (r = col) then (cell m r k / d)%Qc else cell m r k) ∧
  (∀ r j, r < n → j < w → cell st.2 r j = if decide (r = col) then (cell rhs r j / d)%Qc else cell rhs r j).
Proof.
  intros Hm Hr Hc Hred d st. pose proof Hm as [Hlm _]. pose proof Hr as [Hlr _].
  split; intros r k Hrn Hk; subst st; simpl; rewrite cell_insert by lia; case_decide; try done; subst r.
  - unfold divide_from. rewrite (@list_lookup_total_imap Qc Qc _ scalar_inhabited scalar_inhabited) by (rewrite (shape_row n n m col); done).
    destruct (Nat.leb_spec col k) as [?|?]; simpl.
    + destruct (Nat.ltb_spec k n); [done|lia].
    + fold (cell m col k). rewrite Hred by lia. rewrite decide_False by lia.
      unfold Qcdiv. by rewrite Qcmult_0_l.
  - by rewrite (@list_lookup_total_fmap Qc Qc _ scalar_inhabited scalar_inhabited) by (rewrite (shape_row n w rhs col); done).
Qed.

Lemma solves_normalise n w col m rhs X :
  shape n n m → shape n w rhs → col < n → reduced n col m → cell m col col ≠ 0%Qc →
  solves n w (normalise_row col n (m, rhs)) X → solves n w (m, rhs) X.
Proof.
  intros Hm Hr Hc Hred Hd H i j Hi Hj. destruct (cell_normalise n w col m rhs Hm Hr Hc Hred) as [Hcm Hcr].
  pose proof (H i j Hi Hj) as H'. rewrite Hcr in H' by done. simpl. case_decide as Hic.
  - subst i. rewrite (qsum_ext _ _ (λ k, cell m col k * X k j * / cell m col col)%Qc) in H'.
    2:{ intros k Hk. rewrite Hcm, decide_True by done. unfold Qcdiv. ring. }
    rewrite qsum_scale in H'. unfold Qcdiv in H'.
    apply (f_equal (λ x, x * cell m col col)%Qc) in H'.
    rewrite <-!Qcmult_assoc, (Qcmult_comm (/ _)), Qcmult_inv_r, !Qcmult_1_r in H' by done. done.
  - rewrite <-H'. apply qsum_ext. intros k Hk. by rewrite Hcm, decide_False.
Qed.

(** The state a pivot column's elimination works on. *)
Definition pivoted (n w col : nat) (st : Matrix Qc * Matrix Qc) : Prop :=
  system_shape n w st ∧ reduced n col st.1 ∧ cell st.1 col col = 1%Qc.

Lemma zip_update_lookup_total (f : Qc → Qc → Qc) acc src j :
  j < length acc → j < length src → zip_update f acc src !!! j = f (acc !!! j) (src !!! j).
Proof.
  revert acc src. induction j as [|j IH]; intros [|a acc] [|s src] Ha Hs; simpl in *; try lia; [done|].
  apply IH; lia.
Qed.

(** One elimination subtracts a multiple of the whole pivot row. *)
Lemma cell_eliminate n w col st row :
  pivoted n w col st → col < n → row < n → row ≠ col →
  let f := cell st.1 row col in
  (∀ r k, r < n → k < n → cell (eliminate_row col n st row).1 r k =
     if decide (r = row) then (cell st.1 r k - f * cell st.1 col k)%Qc else cell st.1 r k) ∧
  (∀ r j, r < n → j < w → cell (eliminate_row col n st row).2 r j =
     if decide (r = row) then (cell st.2 r j - f * cell st.2 col j)%Qc else cell st.2 r j).
Proof.
  destruct st as [m rhs]. intros ((Hm & Hr) & Hred & _) Hc Hrow Hne. simpl in *.
  pose proof Hm as [Hlm _]. pose proof Hr as [Hlr _].
  destruct (Nat.eqb_spec row col) as [?|_]; [done|]. change (m !!! row !!! col) with (cell m row col).
  destruct (Qc_eq_dec (cell m row col) 0) as [Hz|Hz]; simpl.
  { split; intros; case_decide; subst; [rewrite Hz; ring|done|rewrite Hz; ring|done]. }
  split; intros r k Hrn Hk; rewrite cell_insert by lia; case_decide; try done; subst r.
  - unfold subtract_from. rewrite (@list_lookup_total_imap Qc Qc _ scalar_inhabited scalar_inhabited) by (rewrite (shape_row n n m row); done).
    destruct (Nat.leb_spec col k) as [?|?]; simpl.
    + destruct (Nat.ltb_spec k n); [done|lia].
    + fold (cell m row k). rewrite (Hred col k), decide_False by lia. ring.
  - by rewrite zip_update_lookup_total by (erewrite shape_row; done).
Qed.

Lemma eliminate_row_step n w col st row :
  pivoted n w col st → col < n → row < n →
  let st' := eliminate_row col n st row in
  pivoted n w col st' ∧
  (∀ r, r < n → r ≠ col → cell st'.1 r col = if decide (r = row) then 0%Qc else cell st.1 r col) ∧
  (∀ X, solves n w st' X → solves n w st X).
Proof.
  intros Hp Hc Hrow st'. destruct (decide (row = col)) as [->|Hne].
  { assert (st' = st) as -> by (subst st'; destruct st; simpl; by rewrite Nat.eqb_refl).
    split; [done|]. split; [|done]. intros r Hr Hne. by rewrite decide_False. }
  destruct (cell_eliminate n w col st row Hp Hc Hrow Hne) as [Hcm Hcr]. fold st' in Hcm, Hcr.
  destruct Hp as (Hs & Hred & H1). split; [split; [|split]|split].
  - by apply eliminate_row_shape.
  - intros r c Hr Hcc. rewrite Hcm by lia. case_decide; [|by apply Hred].
    rewrite (Hred col c), (decide_False (P:=col = c)), Hred by lia. ring.
  - by rewrite Hcm, decide_False by (done || lia).
  - intros r Hr Hrc. rewrite Hcm by lia. case_decide; [|done]. subst r. rewrite H1. ring.
  - intros X H i j Hi Hj. pose proof (H i j Hi Hj) as H'. rewrite Hcr in H' by done. case_decide as Hir.
    + subst i. rewrite (qsum_ext _ _ (λ k, cell st.1 row k * X k j - cell st.1 row col * (cell st.1 col k * X k j))%Qc) in H'.
      2:{ intros k Hk. rewrite Hcm, decide_True by done. ring. }
      rewrite qsum_sub in H'. pose proof (H col j Hc Hj) as Hcol. rewrite Hcr, decide_False in Hcol by done.
      rewrite (qsum_ext _ _ (λ k, cell st.1 col k * X k j)%Qc) in Hcol.
      2:{ intros k Hk. by rewrite Hcm, decide_False by done. }
      rewrite Hcol in H'. apply (f_equal (λ x, x + cell st.1 row col * cell st.2 col j)%Qc) in H'.
      ring_simplify in H'. done.
    + rewrite <-H'. apply qsum_ext. intros k Hk. by rewrite Hcm, decide_False.
Qed.

(** ** The whole elimination *)

Lemma foldl_seq_invariant {A} (P : nat → A → Prop) (f : A → nat → A) (a : A) n :
  P 0 a → (∀ k a, k < n → P k a → P (S k) (f a k)) → P n (foldl f a (seq 0 n)).
Proof.
  intros H0 HS. assert (H : ∀ k, k ≤ n → P k (foldl f a (seq 0 k))); [|by apply H].
  induction k as [|k IH]; intros Hk; [done|]. rewrite seq_S, foldl_app. apply HS; [lia|]. apply IH. lia.
Qed.

Lemma solve_column_exact n w m rhs col st' :
  shape n n m → shape n w rhs → col < n → reduced n col m →
  solve_column n (m, rhs) col = Some st' →
  system_shape n w st' ∧ reduced n (S col) st'.1 ∧ (∀ X, solves n w st' X → solves n w (m, rhs) X).
Proof.
  intros Hm Hr Hc Hred. unfold solve_column. intros (piv & Hp%find_pivot_range & H)%bind_Some.
  case_match eqn:Ht; [done|]. injection H as <-.
  assert (Hd : cell (swap_rows col piv m) col col ≠ 0%Qc).
  { rewrite (cell_swap n n), decide_True by (done || lia). intros Hz. unfold cell in Hz.
    rewrite Hz in Ht. by rewrite tiny_zero in Ht. }
  assert (Hsw : shape n n (swap_rows col piv m)) by (apply swap_rows_shape; (done || lia)).
  assert (Hswr : shape n w (swap_rows col piv rhs)) by (apply swap_rows_shape; (done || lia)).
  pose proof (reduced_swap n col piv m Hm Hc Hp Hred) as Hred1.
  set (st1 := normalise_row col n (swap_rows col piv m, swap_rows col piv rhs)).
  destruct (cell_normalise n w col _ _ Hsw Hswr Hc Hred1) as [Hcm _]. fold st1 in Hcm.
  assert (H1 : pivoted n w col st1).
  { split; [by apply (normalise_row_shape n w)|]. split.
    - intros r c Hr' Hcc. rewrite Hcm by lia. case_decide; [|by apply Hred1]. subst r.
      rewrite Hred1, decide_False by lia. unfold Qcdiv. by rewrite Qcmult_0_l.
    - rewrite Hcm, decide_True by done. unfold Qcdiv. by apply Qcmult_inv_r. }
  assert (Hback : ∀ X, solves n w st1 X → solves n w (m, rhs) X).
  { intros X HX. apply (solves_swap n w m rhs col piv X); try (done || lia).
    by apply (solves_normalise n w col _ _ X). }
  destruct (foldl_seq_invariant (λ k st, pivoted n w col st ∧
      (∀ r, r < k → r ≠ col → cell st.1 r col = 0%Qc) ∧ (∀ X, solves n w st X → solves n w (m, rhs) X))
    (eliminate_row col n) st1 n) as ((Hs & Hred2 & H11) & Hzero & HX).
  - split; [done|]. split; [lia|done].
  - intros k st Hk (Hst & Hz & HX). destruct (eliminate_row_step n w col st k Hst Hc Hk) as (Hst' & Hz' & HX').
    split; [done|]. split; [|by auto]. intros r Hrk Hne. rewrite Hz' by (done || lia).
    case_decide; [done|]. apply Hz; lia.
  - split; [done|]. split; [|done]. intros r c Hrn Hcc. destruct (decide (c = col)) as [->|].
    + case_decide as Hrc; [by subst r|]. by apply Hzero.
    + apply Hred2; lia.
Qed.

Lemma solve_columns_exact n w k c m rhs st' :
  shape n n m → shape n w rhs → c + k ≤ n → reduced n c m →
  solve_columns n (m, rhs) (seq c k) = Some st' →
  system_shape n w st' ∧ reduced n (c + k) st'.1 ∧ (∀ X, solves n w st' X → solves n w (m, rhs) X).
Proof.
  revert c m rhs. induction k as [|k IH]; intros c m rhs Hm Hr Hck Hred; simpl.
  { intros [= <-]. rewrite Nat.add_0_r. done. }
  intros ([m1 rhs1] & H1 & H)%bind_Some.
  destruct (solve_column_exact n w m rhs c _ Hm Hr ltac:(lia) Hred H1) as ([Hm1 Hr1] & Hred1 & HX1).
  destruct (IH (S c) m1 rhs1 Hm1 Hr1 ltac:(lia) Hred1 H) as (Hs & Hred2 & HX2).
  split; [done|]. rewrite Nat.add_succ_r. split; [done|]. auto.
Qed.

(** Over the rationals, what [solve] returns solves its system. *)
Lemma solve_exact n w (m rhs x : Matrix Qc) :
  shape n n m → shape n w rhs → solve m rhs = Some x → matmul m x = rhs.
Proof.
  intros Hm Hr Hsolve. destruct (solve_shape n w m rhs x Hm Hr Hsolve) as [Hx _].
  apply solve_some in Hsolve as (Hn & _ & _ & _ & m' & Hs).
  pose proof Hm as [Hl _]. rewrite Hl in Hn, Hs.
  destruct (solve_columns_exact n w n 0 m rhs (m', x) Hm Hr) as (_ & Hred & HX); [lia|intros ?; lia|done|].
  simpl in Hred. apply (matrix_ext n w); [by apply matmul_shape with n; [..|lia]|done|].
  intros i j Hi Hj. rewrite (cell_matmul n n w) by (done || lia).
  apply (HX (cell x)); [|done..]. clear -Hred. intros i j Hi Hj. simpl.
  rewrite (qsum_ext _ _ (λ k, (if decide (i = k) then 1 else 0) * cell x k j)%Qc).
  2:{ intros k Hk. by rewrite Hred. }
  rewrite (qsum_delta n (λ k, cell x k j) i). by rewrite decide_True.
Qed.

(** ** Properties *)

(** C26: the Gauss-Jordan elimination with partial pivoting is correct: over exact
    rationals, whatever square system it is given, an answer [x] satisfies
    [m * x = rhs] with the code's own product; and in binary64 an answer has the
    right-hand side's shape and not one entry that is not finite. *)
Theorem solve_solves (n w : nat) :
  (∀ m rhs x : Matrix Qc, shape n n m → shape n w rhs → solve m rhs = Some x → matmul m x = rhs) ∧
  (∀ m rhs x : Matrix f64, shape n n m → shape n w rhs → solve m rhs = Some x →
     shape n w x ∧ Forall (Forall (λ v, sf_is_finite v = true)) x).
Proof.
  split; [intros m rhs x; apply solve_exact|]. intros m rhs x Hm Hr Hs.
  destruct (solve_shape n w m rhs x Hm Hr Hs) as [Hx Hfin]. split; [done|].
  unfold all_finite_matrix in Hfin. rewrite forallb_forall in Hfin. apply Forall_forall. intros row Hrow.
  apply list_elem_of_In, Hfin in Hrow. rewrite forallb_forall in Hrow. apply Forall_forall.
  intros v Hv. by apply Hrow, list_elem_of_In.
Qed.

Definition qz (n : Z) : Qc := Q2Qc (inject_Z n).

Lemma solve_solves_witness :
  let m := [[qz 0; qz 2]; [qz 1; qz 1]] in let rhs := [[qz 4]; [qz 3]] in
  ∃ x, solve m rhs = Some x ∧ map (map this) x = [[1]; [2]]%Q ∧ matmul m x = rhs.
Proof.
  assert (Hx : map (map this) <$> solve [[qz 0; qz 2]; [qz 1; qz 1]] [[qz 4]; [qz 3]] = Some [[1]; [2]]%Q)
    by (vm_compute; reflexivity).
  destruct (solve [[qz 0; qz 2]; [qz 1; qz 1]] [[qz 4]; [qz 3]]) as [x|] eqn:H; [|discriminate Hx].
  exists x. split; [exact H|]. split; [by injection Hx|].
  apply (solve_solves 2 1); [by repeat constructor..|exact H].
Defined.

(** Each sweep of the alternating least squares solves its two systems
    of normal equations exactly, over exact rationals: with [Z = X B],
    [A (sum Z Z^T + ridge I) = sum Y Z^T] read through the transposes, then with
    [W = A X], [(sum W^T W + ridge I) B' = sum W^T Y]. *)
Theorem als_sweep_solves_normal_equations (ridge : Qc) (pairs : list (Matrix Qc * Matrix Qc)) (d h : nat)
    (ab : Matrix Qc * Matrix Qc) (a b : Matrix Qc) :
  0 < d → als_sweep ridge pairs d h ab = Some (a, b) →
  (∃ at_, a = transpose at_ ∧
     matmul (add_ridge ridge (a_sums ab.2 pairs d).1) at_ = transpose (a_sums ab.2 pairs d).2) ∧
  matmul (add_ridge ridge (b_sums a pairs h).1) b = (b_sums a pairs h).2.
Proof.
  intros Hd. destruct ab as [a0 b0]. unfold als_sweep. simpl.
  pose proof (a_sums_shape b0 pairs d) as [Hz Hy]. destruct (a_sums b0 pairs d) as [zzt yzt].
  intros (at_ & Hat & H)%bind_Some. pose proof (b_sums_shape (transpose at_) pairs h) as [Hw Hwy].
  destruct (b_sums (transpose at_) pairs h) as [wtw wty] eqn:Hbs. apply bind_Some in H as (b' & Hb & [= <- <-]).
  split.
  - exists at_. split; [done|]. apply (solve_exact d d); [by apply add_ridge_shape|by apply transpose_shape|done].
  - rewrite Hbs. apply (solve_exact h h); [by apply add_ridge_shape|done|done].
Qed.

Lemma als_sweep_solves_normal_equations_witness :
  let pairs := [([[qz 1; qz 2]], [[qz 2; qz 4]])] in
  ∃ a b, als_sweep (Q2Qc (1 # 2)) pairs 1 2 (identity 1, identity 2) = Some (a, b) ∧
    (∃ at_, a = transpose at_ ∧
       matmul (add_ridge (Q2Qc (1 # 2)) (a_sums (identity 2) pairs 1).1) at_ = transpose (a_sums (identity 2) pairs 1).2) ∧
    matmul (add_ridge (Q2Qc (1 # 2)) (b_sums a pairs 2).1) b = (b_sums a pairs 2).2.
Proof.
  destruct (als_sweep (Q2Qc (1 # 2)) [([[qz 1; qz 2]], [[qz 2; qz 4]])] 1 2 (identity 1, identity 2))
    as [[a b]|] eqn:H; [|vm_compute in H; discriminate H].
  exists a, b. split; [exact H|].
  apply (als_sweep_solves_normal_equations (Q2Qc (1 # 2)) [([[qz 1; qz 2]], [[qz 2; qz 4]])] 1 2
           (identity 1, identity 2) a b); [lia|exact H].
Defined.
