(* ===== verification/Flanders.v ===== *)
(** * FLANDERS ([conflux-core/src/flanders.rs])

    A filter in front of any base aggregator: it forecasts each client's update
    from the last accepted rounds with a matrix autoregression ([Linear]), keeps
    the clients that land closest to their forecast and hands those to the base.
    The history, the model and the base's own state are kept between rounds.

    [slice::sort_by] is only specified for a total order, and the code compares
    scores with [partial_cmp(..).unwrap_or(Equal)], which is one exactly when no
    score is NaN.  What the sort does with a NaN among the scores (some order, or a
    panic) is the parameter [sort_unordered]. *)

From S2P Require Import Prelude Float Wire Weights Averaging Filters Krum Statistics Trusted Temporal Optimization Contracts Linear.

Open Scope Z_scope.

(** [x.ceil() as usize]: the cast saturates and sends NaN to 0. *)
Definition f64_ceil_to_usize (x : f64) : nat :=
  Z.to_nat match x with
  | S754_finite s m e =>
      let v := if s then Zneg m else Zpos m in
      Z.max 0 (Z.min u64_max (if 0 <=? e then Z.shiftl v e else - Z.shiftr (- v) (- e)))
  | S754_infinity false => u64_max
  | _ => 0
  end.

Definition Snapshot : Type := gmap string (list f32).

Record ClientFlandersDiagnostic := {
  diag_client_id : string;
  anomaly_score : f64;
  forecast_available : bool;
  kept : bool;
}.

Definition forecast_coordinates (dim limit : nat) : list nat :=
  if (dim <=? limit)%nat || (limit =? 0)%nat then seq 0 dim
  else map (λ i, i * dim / limit)%nat (seq 0 limit).

(** The observation matrix of one round: a row per coordinate, a column per
    client of [order]; nothing when a client is missing or has another dimension. *)
Definition observation (snapshot : Snapshot) (order : list string) (dim : nat) (coords : list nat)
    : option (Matrix f64) :=
  columns ← mapM (λ id,
      w ← snapshot !! id;
      if negb (length w =? dim)%nat then None else Some w) order;
  Some (map (λ c, map (λ w, f64_of_f32 (w !!! c)) columns) coords).

(** [updates.iter().zip(&decoded).map(..).collect::<HashMap<_, _>>()] *)
Definition current_of (batch : list (ClientDelta * list f32)) : Snapshot :=
  foldl (λ m '(u, w), <[client_id u := w]> m) ∅ batch.

Definition string_leb (a b : string) : bool := bool_decide (String.le a b).

(** The clients present now and in every remembered round, in byte order. *)
Definition column_order (current : Snapshot) (history : list Snapshot) : list string :=
  sort_by string_leb
    (filter (λ id, Forall (λ h, is_Some (h !! id)) history) (elements (dom current))).

(** [snapshots.windows(2)] whose two observations both exist. *)
Definition observation_pairs (history : list Snapshot) (order : list string) (dim : nat)
    (coords : list nat) : list (Matrix f64 * Matrix f64) :=
  omap (λ '(w0, w1),
      match observation w0 order dim coords, observation w1 order dim coords with
      | Some x, Some y => Some (x, y)
      | _, _ => None
      end)
    (zip history (tail history)).

Section flanders.
Context {B : Type} `{!Aggregator B}.
Context (sort_unordered : list (nat * f64) → outcome AggregatorError (list (nat * f64))).

Record FlandersAggregator := {
  fl_base : B;
  history_window : nat;
  fl_byzantine_fraction : f32;
  ridge : f64;
  als_iterations : nat;
  max_forecast_dim : nat;
  fl_history : list Snapshot;
  fl_global : option (list f32);
  last_diagnostics : list ClientFlandersDiagnostic;
}.

Definition flanders_new (base : B) : FlandersAggregator :=
  {| fl_base := base; history_window := 5; fl_byzantine_fraction := f32_lit 2 10;
     ridge := f64_lit 1 1000000; als_iterations := 5; max_forecast_dim := 500;
     fl_history := []; fl_global := None; last_diagnostics := [] |}.

(** The forecast: each client's predicted coordinates, when there is enough
    history, the fit has an answer and the last round can be observed. *)
Definition predict (order : list string) (coords : list nat) (a b prev : Matrix f64) : gmap string (list f64) :=
  let predicted := matmul (matmul a prev) b in
  foldl (λ m '(col, id), <[id := map (λ row, predicted !!! row !!! col) (seq 0 (length coords))]> m)
    ∅ (imap pair order).

Definition forecast (self : FlandersAggregator) (order : list string) (dim : nat) (coords : list nat)
    : outcome AggregatorError (option (gmap string (list f64))) :=
  let history := fl_history self in
  if (2 <=? length order)%nat && (2 <=? length history)%nat then
    let pairs := observation_pairs history order dim coords in
    if (length pairs =? 0)%nat then Ok None
    else
      fit ← fit_mar (als_iterations self) (ridge self) pairs;
      Ok ('(a, b) ← fit;
          newest ← last history;
          prev ← observation newest order dim coords;
          Some (predict order coords a b prev))
  else Ok None.

(** Equation (4): against the forecast where there is one, else against the model. *)
Definition forecast_score (w : list f32) (coords : list nat) (prediction : list f64) : f64 :=
  f64_sum (map (λ '(c, p), let d := f64_sub (f64_of_f32 (w !!! c)) p in f64_mul d d)
             (zip coords prediction)).

Definition cold_start_score (w : list f32) (reference : option (list f32)) : f64 :=
  match reference with
  | None => f64_zero
  | Some g =>
      f64_sum (map (λ '(a, b), let d := f64_sub (f64_of_f32 a) (f64_of_f32 b) in f64_mul d d) (zip w g))
  end.

Definition score_client (fc : option (gmap string (list f64))) (global : option (list f32)) (coords : list nat)
    (uw : ClientDelta * list f32) : string * f64 * bool :=
  let '(u, w) := uw in
  match f ← fc; f !! client_id u with
  | Some prediction => (client_id u, forecast_score w coords prediction, true)
  | None => (client_id u, cold_start_score w global, false)
  end.

(** [k = m - ceil(f * m)], at least one, and everybody before there is a signal. *)
Definition keep_count (self : FlandersAggregator) (m : nat) (has_signal : bool) : nat :=
  if has_signal then
    Nat.max (m - f64_ceil_to_usize
                   (f64_mul (f64_of_f32 (fl_byzantine_fraction self)) (f64_of_Z (Z.of_nat m)))) 1
  else m.

Definition f64_leb (x y : f64) : bool := SFleb x y.

Definition rank (scored : list (string * f64 * bool)) : outcome AggregatorError (list (nat * f64)) :=
  let keyed := imap (λ i s, (i, s.1.2)) scored in
  if forallb (λ p, negb (sf_is_nan p.2)) keyed then Ok (sort_by (λ a b, f64_leb a.2 b.2) keyed)
  else sort_unordered keyed.

Definition diagnostics_of (scored : list (string * f64 * bool)) (kept : list nat)
    : list ClientFlandersDiagnostic :=
  imap (λ i '(id, score, fa),
    {| diag_client_id := id; anomaly_score := score; forecast_available := fa;
       kept := bool_decide (i ∈ kept) |}) scored.

Definition kept_updates (updates : list ClientDelta) (kept : list nat) : list ClientDelta :=
  omap (λ '(i, u), if bool_decide (i ∈ kept) then Some u else None) (imap pair updates).

(** [history.push_back(current)], then popping from the front down to the window. *)
Definition remember (window : nat) (history : list Snapshot) (current : Snapshot) : list Snapshot :=
  let h := history ++ [current] in drop (length h - window) h.

Definition with_round (self : FlandersAggregator) (base : B) (history : list Snapshot)
    (global : option (list f32)) (diagnostics : list ClientFlandersDiagnostic) : FlandersAggregator :=
  {| fl_base := base; history_window := history_window self;
     fl_byzantine_fraction := fl_byzantine_fraction self; ridge := ridge self;
     als_iterations := als_iterations self; max_forecast_dim := max_forecast_dim self;
     fl_history := history; fl_global := global; last_diagnostics := diagnostics |}.

(** Every client's score, and whether there was anything to score against. *)
Definition score_batch (self : FlandersAggregator) (updates : list ClientDelta) (decoded : list (list f32))
    : outcome AggregatorError (list (string * f64 * bool) * bool) :=
  let dim := length (decoded !!! 0%nat) in
  let batch := zip updates decoded in
  let order := column_order (current_of batch) (fl_history self) in
  let coords := forecast_coordinates dim (max_forecast_dim self) in
  fc ← forecast self order dim coords;
  Ok (map (score_client fc (fl_global self) coords) batch,
      bool_decide (is_Some fc) || bool_decide (is_Some (fl_global self))).

(** The judgement of one batch: the scores and the positions kept. *)
Definition judge (self : FlandersAggregator) (updates : list ClientDelta) (decoded : list (list f32))
    : outcome AggregatorError (list (string * f64 * bool) * list nat) :=
  '(scored, has_signal) ← score_batch self updates decoded;
  ranked ← rank scored;
  Ok (scored, take (keep_count self (length scored) has_signal) (map fst ranked)).

Definition flanders_aggregate (self : FlandersAggregator) (updates : list ClientDelta)
    : FlandersAggregator * outcome AggregatorError (list f32) :=
  match updates with
  | [] => (self, Err EmptyBatch)
  | _ =>
      match decode_and_validate updates with
      | Err e => (self, Err e)
      | Panic => (self, Panic)
      | Ok decoded =>
          match judge self updates decoded with
          | Err e => (self, Err e)
          | Panic => (self, Panic)
          | Ok (scored, kept) =>
              let diagnostics := diagnostics_of scored kept in
              match aggregate (fl_base self) (kept_updates updates kept) with
              | (base, Ok result) =>
                  (with_round self base
                     (remember (history_window self) (fl_history self) (current_of (zip updates decoded)))
                     (Some result) diagnostics, Ok result)
              | (base, Err e) => (with_round self base (fl_history self) (fl_global self) diagnostics, Err e)
              | (base, Panic) => (with_round self base (fl_history self) (fl_global self) diagnostics, Panic)
              end
          end
      end
  end.

Definition Flanders_aggregator : Aggregator FlandersAggregator := {|
  aggregate := flanders_aggregate;
  requires_trusted_reference _ := false;
  set_trusted_reference _ st := st;
  agg_control_variate _ := None;
  requires_candidate_scores _ := false;
  set_candidate_scores _ st := st;
|}.
End flanders.
Arguments FlandersAggregator : clear implicits.

(** ** Observations *)

Lemma length_forecast_coordinates dim limit :
  (0 < dim)%nat → (0 < length (forecast_coordinates dim limit))%nat.
Proof.
  intros Hd. unfold forecast_coordinates. destruct (_ || _) eqn:Hl; [by rewrite length_seq|].
  apply orb_false_iff in Hl as [_ Hl%Nat.eqb_neq]. rewrite length_map, length_seq. lia.
Qed.

Lemma forecast_coordinates_in_range dim limit :
  Forall (λ c, (c < dim)%nat) (forecast_coordinates dim limit).
Proof.
  unfold forecast_coordinates. destruct (_ || _) eqn:Hl.
  - apply Forall_forall. intros c Hc%elem_of_seq. lia.
  - apply orb_false_iff in Hl as [Hd%Nat.leb_gt Hl%Nat.eqb_neq]. apply Forall_map, Forall_forall.
    intros i Hi%elem_of_seq. apply Nat.Div0.div_lt_upper_bound. nia.
Qed.

Lemma observation_shape snap order dim coords m :
  observation snap order dim coords = Some m → shape (length coords) (length order) m.
Proof.
  unfold observation. intros (cols & Hc & [= <-])%bind_Some. apply length_mapM in Hc.
  split; [apply length_map|]. apply Forall_map, Forall_true. intros c. simpl. by rewrite length_map.
Qed.

Lemma observation_pairs_shape history order dim coords :
  pairs_shape (length coords) (length order) (observation_pairs history order dim coords).
Proof.
  unfold pairs_shape, observation_pairs. apply Forall_forall. intros [x y] Hxy.
  apply list_elem_of_omap in Hxy as ([w0 w1] & _ & H).
  destruct (observation w0 _ _ _) as [x'|] eqn:Hx; [|done].
  destruct (observation w1 _ _ _) as [y'|] eqn:Hy; [|done]. injection H as <- <-.
  split; by eapply observation_shape.
Qed.

(** ** The updates kept *)

Lemma kept_updates_spec us kept :
  Forall2 (λ i x, us !! i = Some x) (filter (λ i, i ∈ kept) (seq 0 (length us))) (kept_updates us kept).
Proof.
  unfold kept_updates.
  assert (H : ∀ l k, (∀ i x, l !! i = Some x → us !! (k + i)%nat = Some x) →
    Forall2 (λ i x, us !! i = Some x) (filter (λ i, i ∈ kept) (seq k (length l)))
      (omap (λ '(i, u), if bool_decide (i ∈ kept) then Some u else None) (imap (λ i u, ((k + i)%nat, u)) l))).
  { induction l as [|u l IH]; intros k Hl; [by constructor|].
    simpl length. cbn [seq]. rewrite filter_cons. cbn [imap omap list_omap]. rewrite Nat.add_0_r.
    assert (Hu : us !! k = Some u) by (rewrite <-(Nat.add_0_r k); by apply Hl).
    assert (Ht : Forall2 (λ i x, us !! i = Some x) (filter (λ i, i ∈ kept) (seq (S k) (length l)))
      (omap (λ '(i, u), if bool_decide (i ∈ kept) then Some u else None) (imap (λ i u, ((S k + i)%nat, u)) l))).
    { apply IH. intros i x Hi. rewrite Nat.add_succ_comm. by apply (Hl (S i)). }
    rewrite (imap_ext ((λ i u, ((k + i)%nat, u)) ∘ S) (λ i u, ((S k + i)%nat, u)))
      by (intros; simpl; f_equal; lia).
    case_decide as Hk; [rewrite bool_decide_true by done; by constructor|by rewrite bool_decide_false]. }
  rewrite (imap_ext pair (λ i u, ((0 + i)%nat, u))) by done. by apply H.
Qed.

(** Keeping everybody is the batch itself. *)
Lemma kept_updates_all us kept :
  (∀ i, (i < length us)%nat → i ∈ kept) → kept_updates us kept = us.
Proof.
  intros Hall. apply Forall2_seq_lookup. pose proof (kept_updates_spec us kept) as H.
  rewrite list_filter_all in H; [done|]. intros i Hi%elem_of_seq. apply Hall. lia.
Qed.

(** ** Scores and ranking *)

Section judge.
Context {B : Type} `{!Aggregator B}.
Context (sort_unordered : list (nat * f64) → outcome AggregatorError (list (nat * f64))).
Implicit Types self : FlandersAggregator B.

Lemma forecast_ok self order dim :
  (0 < dim)%nat →
  ∃ fc, forecast self order dim (forecast_coordinates dim (max_forecast_dim self)) = Ok fc.
Proof.
  intros Hd. unfold forecast. destruct (_ && _); [|by exists None].
  set (coords := forecast_coordinates dim _). set (pairs := observation_pairs _ _ _ _).
  destruct (length pairs =? 0)%nat eqn:Hp; [by exists None|]. apply Nat.eqb_neq in Hp.
  destruct (fit_mar_shape (E:=AggregatorError) (als_iterations self) (ridge self) pairs (length coords) (length order))
    as (fit & -> & _).
  - by apply length_forecast_coordinates.
  - by intros ->.
  - apply observation_pairs_shape.
  - by eexists.
Qed.

(** A forecast's columns are in range: the prediction has a row per coordinate. *)
Lemma forecast_fit_shape self order dim coords fit :
  (0 < length coords)%nat →
  fit_mar (E:=AggregatorError) (als_iterations self) (ridge self)
    (observation_pairs (fl_history self) order dim coords) = Ok (Some fit) →
  ∀ prev newest, observation newest order dim coords = Some prev →
  (0 < length order)%nat →
  shape (length coords) (length order) (matmul (matmul fit.1 prev) fit.2).
Proof.
  intros Hc Hfit prev newest Hprev Hord.
  set (pairs := observation_pairs (fl_history self) order dim coords) in *.
  assert (Hne : pairs ≠ []) by (intros Hn; rewrite Hn in Hfit; done).
  destruct (fit_mar_shape (E:=AggregatorError) (als_iterations self) (ridge self) pairs (length coords) (length order) Hc Hne)
    as (r & Hr & Hs); [apply observation_pairs_shape|].
  rewrite Hfit in Hr. injection Hr as <-. destruct fit as [a b]. destruct Hs as (Ha & Hb & _).
  apply observation_shape in Hprev. simpl. apply matmul_shape with (length order); [|done|done].
  by apply matmul_shape with (length coords).
Qed.

Lemma score_batch_ok self us ds d0 :
  ds !! 0%nat = Some d0 → (0 < length d0)%nat → length ds = length us →
  ∃ scored signal, score_batch self us ds = Ok (scored, signal) ∧ map (fst ∘ fst) scored = map client_id us ∧
    (fl_history self = [] → fl_global self = None → signal = false).
Proof.
  intros Hd0 Hd Hl. unfold score_batch. rewrite (list_lookup_total_correct _ _ _ Hd0). cbv zeta.
  set (order := column_order _ _). destruct (forecast_ok self order (length d0) Hd) as (fc & Hfc).
  rewrite Hfc. eexists _, _. split; [done|]. split.
  - clear Hfc Hd0. clearbody order. rewrite map_map. revert ds Hl.
    induction us as [|u us IH]; intros [|w ds] Hl; try done. simpl. f_equal; [|apply IH; by injection Hl].
    destruct (f ← fc; _); done.
  - intros Hh Hg. unfold forecast in Hfc. rewrite Hh, andb_false_r in Hfc. injection Hfc as <-. by rewrite Hg.
Qed.

Lemma score_batch_length self us ds scored signal :
  length ds = length us → score_batch self us ds = Ok (scored, signal) → length scored = length us.
Proof.
  intros Hl. unfold score_batch. intros (fc & _ & [= <- _])%bind_ok_inv.
  rewrite length_map, length_zip_with. lia.
Qed.

Lemma keep_count_pos self m signal : (0 < m)%nat → (1 ≤ keep_count self m signal ≤ m)%nat.
Proof. intros Hm. unfold keep_count. destruct signal; lia. Qed.

(** What the documentation of [slice::sort_by] grants when the order is not total and
    the sort returns: some permutation. *)
Class SortTotal := sort_total keyed : ∃ ranked, sort_unordered keyed = Ok ranked ∧ ranked ≡ₚ keyed.

Lemma rank_ok `{ST : !SortTotal} scored :
  ∃ ranked, rank sort_unordered scored = Ok ranked ∧ ranked ≡ₚ imap (λ i s, (i, s.1.2)) scored.
Proof.
  unfold rank. destruct (forallb _ _); [|apply sort_total].
  eexists. split; [done|]. apply sort_by_perm.
Qed.

Lemma map_fst_keyed (scored : list (string * f64 * bool)) :
  map fst (imap (λ i s, (i, s.1.2)) scored) = seq 0 (length scored).
Proof.
  etrans; [exact (fmap_imap (λ i (s : string * f64 * bool), (i, s.1.2)) fst scored)|].
  etrans; [exact (imap_seq_0 scored id)|apply list_fmap_id].
Qed.

(** The smallest scores, when they can be compared. *)
Definition lowest (scored : list (string * f64 * bool)) (kept : list nat) : Prop :=
  ∀ i j s s', i ∈ kept → j ∉ kept → scored !! i = Some s → scored !! j = Some s' →
    f64_leb s.1.2 s'.1.2 = true.

Lemma keyed_elem (scored : list (string * f64 * bool)) i s :
  scored !! i = Some s → (i, s.1.2) ∈ imap (λ i s, (i, s.1.2)) scored.
Proof. intros Hi. apply list_elem_of_lookup. exists i. by rewrite list_lookup_imap, Hi. Qed.

Lemma f64_leb_total x y : sf_is_nan x = false → sf_is_nan y = false → f64_leb x y = true ∨ f64_leb y x = true.
Proof. intros Hx Hy. exact (f32_leb_total (F x) (F y) Hx Hy). Qed.

Lemma f64_leb_trans x y z : sf_is_nan x = false → sf_is_nan y = false → sf_is_nan z = false →
  f64_leb x y = true → f64_leb y z = true → f64_leb x z = true.
Proof. intros Hx Hy Hz. exact (f32_leb_trans (F x) (F y) (F z) Hx Hy Hz). Qed.

Lemma rank_lowest scored k :
  Forall (λ s : string * f64 * bool, sf_is_nan s.1.2 = false) scored → (k ≤ length scored)%nat →
  ∃ ranked, rank sort_unordered scored = Ok ranked ∧
    let kept := take k (map fst ranked) in
    NoDup kept ∧ length kept = k ∧ (∀ i, i ∈ kept → (i < length scored)%nat) ∧ lowest scored kept.
Proof.
  intros Hn Hk. unfold rank. cbv zeta.
  assert (HP : Forall (λ p : nat * f64, sf_is_nan p.2 = false) (imap (λ i s, (i, s.1.2)) scored)).
  { apply Forall_lookup. intros i p. rewrite list_lookup_imap. intros (s & Hs & ->)%fmap_Some.
    rewrite Forall_lookup in Hn. by apply Hn in Hs. }
  match goal with |- context [forallb ?f ?l] => assert (forallb f l = true) as -> end.
  { apply forallb_forall. intros p Hp%list_elem_of_In. rewrite Forall_forall in HP.
    apply negb_true_iff. exact (HP p Hp). }
  eexists. split; [done|]. rewrite firstn_map.
  destruct (take_ranked_spec f64_leb (λ x, sf_is_nan x = false) (imap (λ i s, (i, s.1.2)) scored)
              (length scored) k) as (Hnd & Hl & Hin & Hlow);
    [apply f64_leb_total|apply f64_leb_trans|apply map_fst_keyed|done|exact HP|].
  repeat (split; [done|]). intros i j s s' Hi Hj Hs Hs'. eapply Hlow; [done|done|by apply keyed_elem..].
Qed.

(** Whoever is judged, somebody is kept, and everybody kept is in the batch. *)
Lemma judge_inv `{ST : !SortTotal} self us ds scored kept :
  us ≠ [] → length ds = length us → judge sort_unordered self us ds = Ok (scored, kept) →
  kept ≠ [] ∧ Forall (λ i, (i < length us)%nat) kept ∧ length scored = length us.
Proof.
  intros Hus Hl. unfold judge. intros ([scored' signal] & Hs & H)%bind_ok_inv.
  apply score_batch_length in Hs; [|done]. destruct (rank_ok scored') as (ranked & Hr & Hp).
  rewrite Hr in H. injection H as -> <-.
  assert (Hfst : map fst ranked ≡ₚ seq 0 (length us)).
  { rewrite Hp. rewrite map_fst_keyed. by rewrite Hs. }
  assert (Hpos : (0 < length us)%nat) by (destruct us; [done|simpl; lia]).
  split; [|split; [|done]].
  - intros Hnil. apply (f_equal length) in Hnil.
    rewrite length_take, Hfst, length_seq, Hs in Hnil.
    pose proof (keep_count_pos self (length us) signal Hpos). simpl in Hnil. lia.
  - apply Forall_take, Forall_forall. intros i Hi. rewrite Hfst in Hi. apply elem_of_seq in Hi. lia.
Qed.

Lemma judge_ok `{ST : !SortTotal} self us ds d0 :
  ds !! 0%nat = Some d0 → (0 < length d0)%nat → length ds = length us →
  ∃ scored kept, judge sort_unordered self us ds = Ok (scored, kept).
Proof.
  intros Hd0 Hd Hl. unfold judge. destruct (score_batch_ok self us ds d0 Hd0 Hd Hl) as (scored & signal & -> & _).
  cbn [mbind outcome_bind]. destruct (rank_ok scored) as (ranked & -> & _). by eexists _, _.
Qed.

(** The base is handed a valid, non-empty part of the batch, in batch order. *)
Lemma kept_updates_valid us ds kept :
  decode_and_validate us = Ok ds → kept ≠ [] → Forall (λ i, (i < length us)%nat) kept →
  kept_updates us kept ≠ [] ∧
  ∃ ds', decode_and_validate (kept_updates us kept) = Ok ds' ∧ Forall (λ d, d ∈ ds) ds'.
Proof.
  intros Hds Hne Hin. split; [|by eapply select_valid; [done|apply kept_updates_spec]].
  intros Hnil. pose proof (kept_updates_spec us kept) as H. rewrite Hnil in H.
  apply Forall2_nil_inv_r in H. destruct kept as [|i kept]; [done|]. apply Forall_cons in Hin as [Hi _].
  assert (Hf : i ∈ filter (λ j, j ∈ i :: kept) (seq 0 (length us))).
  { apply list_elem_of_filter. split; [set_solver|]. apply elem_of_seq. lia. }
  rewrite H in Hf. by apply not_elem_of_nil in Hf.
Qed.

Lemma flanders_aggregate_eq self us ds :
  us ≠ [] → decode_and_validate us = Ok ds →
  flanders_aggregate sort_unordered self us =
    match judge sort_unordered self us ds with
    | Err e => (self, Err e)
    | Panic => (self, Panic)
    | Ok (scored, kept) =>
        let '(base, r) := aggregate (fl_base self) (kept_updates us kept) in
        (match r with
         | Ok result =>
             with_round self base (remember (history_window self) (fl_history self) (current_of (zip us ds)))
               (Some result) (diagnostics_of scored kept)
         | _ => with_round self base (fl_history self) (fl_global self) (diagnostics_of scored kept)
         end, r)
    end.
Proof.
  intros Hus Hds. destruct us as [|u us]; [done|]. unfold flanders_aggregate. rewrite Hds.
  destruct (judge _ _ _ _) as [[scored kept]|e|]; [|done|done].
  by destruct (aggregate _ _) as [base [out|e|]].
Qed.
End judge.

(** ** Properties *)

(** Over any base that meets the aggregator's contract, and whatever the sort
    does with scores that cannot be compared short of a panic, FLANDERS meets it
    too, in every state, up to one case: an empty or invalid batch gets the
    validation's own error, a result has the batch's dimension, and the only
    batch it can panic on is one whose updates hold no weights at all. *)
Theorem flanders_contract_up_to_no_weights {B} `{!Aggregator B} `{!AggregatorLaws B _}
    (sort_unordered : list (nat * f64) → outcome AggregatorError (list (nat * f64)))
    (self : FlandersAggregator B) (us : list ClientDelta) :
  SortTotal sort_unordered →
  let r := (flanders_aggregate sort_unordered self us).2 in
  (us = [] → r = Err EmptyBatch) ∧
  (∀ e, us ≠ [] → decode_and_validate us = Err e → r = Err e) ∧
  (∀ out, r = Ok out → ∃ ds, decode_and_validate us = Ok ds ∧ ds ≠ [] ∧ Forall (λ w, length w = length out) ds) ∧
  (r = Panic → ∃ ds, decode_and_validate us = Ok ds ∧ Forall (λ w, w = []) ds).
Proof.
  intros Hsort r. split; [by intros ->|]. split.
  { intros e Hus He. subst r. destruct us; [done|]. unfold flanders_aggregate. by rewrite He. }
  destruct (decide (us = [])) as [->|Hus]; [done|]. subst r.
  destruct (decode_and_validate us) as [ds|e|] eqn:Hds; [|destruct us; [done|]; unfold flanders_aggregate; by rewrite Hds|
    by apply decode_and_validate_no_panic in Hds].
  pose proof (decode_and_validate_length _ _ Hds) as Hl.
  destruct (decode_and_validate_rows _ _ Hds) as [dim Hrows].
  destruct (head_decoded _ _ Hds Hus) as (d0 & _ & Hd0).
  assert (Hdim : length d0 = dim) by (rewrite Forall_lookup in Hrows; by eapply Hrows).
  rewrite (flanders_aggregate_eq sort_unordered self us ds Hus Hds).
  assert (Hzero : judge sort_unordered self us ds = Panic → Forall (λ w, w = []) ds).
  { intros Hp. destruct (decide (0 < length d0)%nat) as [Hd|Hd].
    - destruct (judge_ok sort_unordered self us ds d0 Hd0 Hd Hl) as (scored & kept & Hj). congruence.
    - eapply Forall_impl; [exact Hrows|]. intros w [Hw _]. apply nil_length_inv. lia. }
  destruct (judge sort_unordered self us ds) as [[scored kept]|e|] eqn:Hj; [|done|].
  2:{ split; [done|]. intros _. exists ds. auto. }
  destruct (judge_inv sort_unordered self us ds scored kept Hus Hl Hj) as (Hne & Hin & _).
  destruct (kept_updates_valid us ds kept Hds Hne Hin) as (Hkne & ds' & Hds' & Hsub).
  pose proof (aggregate_no_panic (fl_base self) (kept_updates us kept)) as Hnp.
  pose proof (aggregate_dim (fl_base self) (kept_updates us kept)) as Hdim'.
  destruct (aggregate (fl_base self) (kept_updates us kept)) as [base r]. simpl in *. split; [|done].
  intros out Ho. destruct (Hdim' out Ho) as (ds2 & Hds2 & Hne2 & Hall). rewrite Hds' in Hds2. injection Hds2 as <-.
  exists ds. split; [done|]. split; [by intros ->|].
  destruct ds' as [|d ds']; [done|]. apply Forall_cons in Hall as [Hd _]. apply Forall_cons in Hsub as [Hd' _].
  assert (length d = dim) by (rewrite Forall_forall in Hrows; by apply Hrows).
  eapply Forall_impl; [exact Hrows|]. intros w [Hw _]. congruence.
Qed.

(** On a valid batch whose scores can be compared, FLANDERS hands its base
    exactly [k] of the updates, in batch order, where [k] is all of them before
    there is a signal and [max (m - ceil(f m)) 1] after; nobody it drops scored
    strictly lower than somebody it keeps, its answer is the base's answer, and
    its diagnostics say for every client what was done. *)
Theorem flanders_keeps_lowest_scores {B} `{!Aggregator B}
    (sort_unordered : list (nat * f64) → outcome AggregatorError (list (nat * f64)))
    (self : FlandersAggregator B) (us : list ClientDelta) (ds : list (list f32))
    (scored : list (string * f64 * bool)) (signal : bool) :
  us ≠ [] → decode_and_validate us = Ok ds → score_batch self us ds = Ok (scored, signal) →
  Forall (λ s, sf_is_nan s.1.2 = false) scored →
  ∃ kept, NoDup kept ∧ length kept = keep_count self (length us) signal ∧
    lowest scored kept ∧
    Forall2 (λ i u, us !! i = Some u) (filter (λ i, i ∈ kept) (seq 0 (length us))) (kept_updates us kept) ∧
    let '(self', r) := flanders_aggregate sort_unordered self us in
    r = (aggregate (fl_base self) (kept_updates us kept)).2 ∧
    last_diagnostics self' = diagnostics_of scored kept.
Proof.
  intros Hus Hds Hs Hnan. pose proof (decode_and_validate_length _ _ Hds) as Hl.
  pose proof (score_batch_length self us ds scored signal Hl Hs) as Hsl.
  assert (Hpos : (0 < length us)%nat) by (destruct us; [done|simpl; lia]).
  pose proof (keep_count_pos self (length us) signal Hpos).
  destruct (rank_lowest sort_unordered scored (keep_count self (length us) signal) Hnan) as (ranked & Hr & Hk);
    [lia|]. destruct Hk as (Hnd & Hlen & _ & Hlow).
  exists (take (keep_count self (length us) signal) (map fst ranked)).
  split; [done|]. split; [done|]. split; [done|]. split; [apply kept_updates_spec|].
  rewrite (flanders_aggregate_eq sort_unordered self us ds Hus Hds). unfold judge. rewrite Hs. cbn [mbind outcome_bind].
  rewrite Hr, Hsl. cbn [mbind outcome_bind].
  by destruct (aggregate (fl_base self) _) as [base [out|e|]].
Qed.

(** A run of rounds, with what each answered. *)
Definition flanders_run {B} `{!Aggregator B} (sort_unordered : list (nat * f64) → outcome AggregatorError (list (nat * f64)))
    (self : FlandersAggregator B) (batches : list (list ClientDelta))
    : FlandersAggregator B * list (list ClientDelta * outcome AggregatorError (list f32)) :=
  foldl (λ '(self, rs) us, let '(self', r) := flanders_aggregate sort_unordered self us in (self', rs ++ [(us, r)]))
    (self, []) batches.

(** The rounds that were accepted: what each client sent, and the model answered. *)
Definition accepted (rs : list (list ClientDelta * outcome AggregatorError (list f32)))
    : list (Snapshot * list f32) :=
  omap (λ '(us, r), match r, decode_and_validate us with
                    | Ok out, Ok ds => Some (current_of (zip us ds), out)
                    | _, _ => None
                    end) rs.

Definition last_n {A} (n : nat) (l : list A) : list A := drop (length l - n) l.

Lemma remember_last_n window (l : list Snapshot) c : remember window (last_n window l) c = last_n window (l ++ [c]).
Proof.
  unfold remember, last_n. rewrite !length_app, length_drop. simpl.
  destruct (decide (length l ≤ window)%nat) as [Hw|Hw].
  - replace (length l - window)%nat with 0%nat by lia. rewrite drop_0. f_equal. lia.
  - rewrite <-(drop_app_le l [c]) by lia. rewrite drop_drop. f_equal. lia.
Qed.

(** Over any sequence of batches from a fresh filter, and over any base, the
    history is exactly the last [history_window] accepted rounds, oldest first,
    and the model is the last accepted answer: a refused or a crashed round
    leaves no trace in what later rounds are judged by. *)
Theorem flanders_remembers_accepted_rounds {B} `{!Aggregator B}
    (sort_unordered : list (nat * f64) → outcome AggregatorError (list (nat * f64)))
    (b : B) (batches : list (list ClientDelta)) :
  let '(self, rs) := flanders_run sort_unordered (flanders_new b) batches in
  fl_history self = last_n (history_window self) (map fst (accepted rs)) ∧
  fl_global self = last (map snd (accepted rs)) ∧
  history_window self = 5%nat ∧ map fst rs = batches.
Proof.
  induction batches as [|us batches IH] using rev_ind; [done|].
  unfold flanders_run in *. rewrite foldl_app. cbn [foldl]. destruct (foldl _ _ batches) as [self rs].
  destruct IH as (Hh & Hg & Hw & Hb).
  assert (Hkeep : ∀ (self' : FlandersAggregator B) r, (∀ out, r ≠ Ok out) → fl_history self' = fl_history self →
    fl_global self' = fl_global self → history_window self' = history_window self →
    fl_history self' = last_n (history_window self') (map fst (accepted (rs ++ [(us, r)]))) ∧
    fl_global self' = last (map snd (accepted (rs ++ [(us, r)]))) ∧ history_window self' = 5%nat ∧
    map fst (rs ++ [(us, r)]) = batches ++ [us]).
  { intros self' r Hr -> -> ->. assert (accepted (rs ++ [(us, r)]) = accepted rs) as ->.
    { unfold accepted. rewrite omap_app. destruct r; [by specialize (Hr a)|..]; by rewrite app_nil_r. }
    rewrite map_app, Hb. done. }
  destruct (decide (us = [])) as [->|Hus]; [by apply Hkeep|].
  destruct (decode_and_validate us) as [ds|e|] eqn:Hds.
  2,3: assert (Hbad : ∃ r, flanders_aggregate sort_unordered self us = (self, r) ∧ ∀ out, r ≠ Ok out)
      by (destruct us; [done|]; unfold flanders_aggregate; rewrite Hds; by eexists);
    destruct Hbad as (r & -> & Hr); by apply Hkeep.
  rewrite (flanders_aggregate_eq sort_unordered self us ds Hus Hds).
  destruct (judge _ _ _ _) as [[scored kept]|e|]; [|by apply Hkeep..].
  destruct (aggregate _ _) as [base [out|e|]]; [|by apply Hkeep..].
  simpl. assert (accepted (rs ++ [(us, Ok out)]) = accepted rs ++ [(current_of (zip us ds), out)]) as ->.
  { unfold accepted. rewrite omap_app. simpl. by rewrite Hds. }
  rewrite !map_app. cbn [map fst snd]. rewrite last_snoc, Hh, remember_last_n, Hb. done.
Qed.

(** The first round is filtered by nobody: it is the base's own round. *)
Theorem flanders_first_round_is_base {B} `{!Aggregator B}
    (sort_unordered : list (nat * f64) → outcome AggregatorError (list (nat * f64))) (b : B)
    (us : list ClientDelta) (ds : list (list f32)) :
  us ≠ [] → decode_and_validate us = Ok ds →
  (flanders_aggregate sort_unordered (flanders_new b) us).2 = (aggregate b us).2.
Proof.
  intros Hus Hds. rewrite (flanders_aggregate_eq sort_unordered _ us ds Hus Hds). unfold judge, score_batch.
  assert (Hnone : ∀ order dim coords, forecast (flanders_new b) order dim coords = Ok None)
    by (intros; unfold forecast; simpl; by rewrite andb_false_r).
  rewrite Hnone. cbn [mbind outcome_bind]. set (scored := map _ _). pose proof (decode_and_validate_length _ _ Hds) as Hl.
  assert (Hsl : length scored = length us).
  { subst scored. rewrite length_map, length_zip_with. lia. }
  destruct (rank_lowest sort_unordered scored (length scored)) as (ranked & Hr & Hnd & Hlen & Hin & _); [|done|].
  { subst scored. apply Forall_map, Forall_true. by intros []. }
  rewrite Hr. cbn [mbind outcome_bind]. rewrite Hsl in *.
  match goal with |- context [keep_count ?a ?m ?c] => change (keep_count a m c) with (length us) end.
  change (fl_base (flanders_new b)) with b.
  rewrite kept_updates_all; [by destruct (aggregate b us) as [base [out|e|]]|].
  intros i Hi. set (kept := take _ _) in *.
  assert (Hp : kept ≡ₚ seq 0 (length us)).
  { apply submseteq_length_Permutation; [|rewrite length_seq, Hlen; lia].
    apply NoDup_submseteq; [done|]. intros j Hj%Hin. apply elem_of_seq. lia. }
  rewrite Hp. apply elem_of_seq. lia.
Qed.

(** ** Concrete rounds *)

Definition leave_unordered (l : list (nat * f64)) : outcome AggregatorError (list (nat * f64)) := Ok l.

Lemma leave_unordered_total : SortTotal leave_unordered.
Proof. intros keyed. by exists keyed. Defined.

Definition steady_batch (k : Z) : list ClientDelta :=
  [one_delta "a" [f32_of_Z k; f32_of_Z (2 * k)] 1;
   one_delta "b" [f32_of_Z (k + 1); f32_of_Z (2 * k)] 1;
   one_delta "c" [f32_of_Z (k + 2); f32_of_Z k] 1].

(** The third client leaves its own course; the other two keep theirs. *)
Definition breakout_batch : list ClientDelta :=
  [one_delta "a" [f32_of_Z 3; f32_of_Z 6] 1; one_delta "b" [f32_of_Z 4; f32_of_Z 6] 1;
   one_delta "c" [f32_of_Z 1000; f32_of_Z 9] 1].

Definition steady_filter : FlandersAggregator SampleCountWeighting :=
  (flanders_run leave_unordered (flanders_new sample_count_weighting) [steady_batch 1; steady_batch 2]).1.

(** With two rounds of history every client has a forecast, and the one that
    breaks with its own past is dropped. *)
Example breakout_is_dropped :
  map (λ d, (diag_client_id d, kept d, forecast_available d))
    (last_diagnostics (flanders_aggregate leave_unordered steady_filter breakout_batch).1) =
  [("a", true, true); ("b", true, true); ("c", false, true)]%string.
Proof. vm_compute. reflexivity. Qed.

Lemma flanders_contract_up_to_no_weights_witness :
  let r := (flanders_aggregate leave_unordered steady_filter breakout_batch).2 in
  (breakout_batch = [] → r = Err EmptyBatch) ∧
  (∀ e, breakout_batch ≠ [] → decode_and_validate breakout_batch = Err e → r = Err e) ∧
  (∀ out, r = Ok out → ∃ ds, decode_and_validate breakout_batch = Ok ds ∧ ds ≠ [] ∧
     Forall (λ w, length w = length out) ds) ∧
  (r = Panic → ∃ ds, decode_and_validate breakout_batch = Ok ds ∧ Forall (λ w, w = []) ds).
Proof.
  exact (flanders_contract_up_to_no_weights leave_unordered steady_filter breakout_batch leave_unordered_total).
Defined.

Definition breakout_rows : list (list f32) :=
  [[f32_of_Z 3; f32_of_Z 6]; [f32_of_Z 4; f32_of_Z 6]; [f32_of_Z 1000; f32_of_Z 9]].

Lemma flanders_keeps_lowest_scores_witness :
  ∃ scored, score_batch steady_filter breakout_batch breakout_rows = Ok (scored, true) ∧
  ∃ kept, NoDup kept ∧ length kept = keep_count steady_filter 3 true ∧ lowest scored kept ∧
    Forall2 (λ i u, breakout_batch !! i = Some u) (filter (λ i, i ∈ kept) (seq 0 3)) (kept_updates breakout_batch kept) ∧
    let '(self', r) := flanders_aggregate leave_unordered steady_filter breakout_batch in
    r = (aggregate (fl_base steady_filter) (kept_updates breakout_batch kept)).2 ∧
    last_diagnostics self' = diagnostics_of scored kept.
Proof.
  assert (Hc : match score_batch steady_filter breakout_batch breakout_rows with
               | Ok (scored, true) => forallb (λ s : string * f64 * bool, negb (sf_is_nan s.1.2)) scored
               | _ => false end = true) by (vm_compute; reflexivity).
  destruct (score_batch steady_filter breakout_batch breakout_rows) as [[scored [|]]|e|] eqn:Hs; try discriminate Hc.
  exists scored. split; [reflexivity|].
  apply (flanders_keeps_lowest_scores leave_unordered steady_filter breakout_batch breakout_rows scored true);
    [discriminate|vm_compute; reflexivity|exact Hs|].
  apply Forall_forall. intros s Hin. rewrite forallb_forall in Hc. apply negb_true_iff, Hc.
  by apply list_elem_of_In.
Defined.

Lemma flanders_first_round_is_base_witness :
  (flanders_aggregate leave_unordered (flanders_new sample_count_weighting) breakout_batch).2 =
  (aggregate sample_count_weighting breakout_batch).2.
Proof.
  apply (flanders_first_round_is_base leave_unordered sample_count_weighting breakout_batch breakout_rows);
    [discriminate|vm_compute; reflexivity].
Defined.

(** ** What modelling showed *)

(** Three rounds of clients that send no weights: the batches validate and the
    first two are accepted, and the third indexes the first row of an observation
    that has none. *)
Theorem flanders_panics_on_empty_weights :
  let batch := [one_delta "a" [] 1; one_delta "b" [] 1] in
  map snd (flanders_run leave_unordered (flanders_new sample_count_weighting) [batch; batch; batch]).2
    = [Ok []; Ok []; Panic].
Proof. vm_compute. reflexivity. Qed.

(** The default fraction, 0.2 in single precision, is above one fifth once it
    is widened, so [ceil(f m)] of five clients is two: the filter drops two where
    the documented [m - ceil(f m)] and the [byzantine_count] of the other robust
    methods drop one. *)
Theorem flanders_default_drops_two_of_five {B} (b : B) :
  keep_count (flanders_new b) 5 true = 3%nat ∧ byzantine_count (fl_byzantine_fraction (flanders_new b)) 5 = 1%nat.
Proof. split; vm_compute; reflexivity. Qed.

(** The filter takes any base but passes nothing on to it: over FLTrust, no round
    succeeds although the reference was injected. *)
Theorem flanders_hides_the_reference
    (sort_unordered : list (nat * f64) → outcome AggregatorError (list (nat * f64)))
    (r : TrustedReference) (us : list ClientDelta) (out : list f32) :
  let A := Flanders_aggregator (B:=FlTrustAggregator) sort_unordered in
  (@aggregate _ A (@set_trusted_reference _ A r (flanders_new fltrust_new)) us).2 ≠ Ok out.
Proof.
  simpl. destruct us as [|u us]; [done|].
  destruct (decode_and_validate (u :: us)) as [ds|e|] eqn:Hds; [|unfold flanders_aggregate; by rewrite Hds..].
  rewrite (flanders_aggregate_eq sort_unordered _ (u :: us) ds) by done.
  destruct (judge _ _ _ _) as [[scored kept]|e|]; [|done|done].
  simpl. unfold fltrust_aggregate. destruct (kept_updates (u :: us) kept) as [|v l]; [done|].
  by destruct (decode_and_validate (v :: l)) as [[|d0 ds']|e|].
Qed.
