(* ===== verification/RootModel.v ===== *)
(** * The trusted model of the sidecar ([conflux-trusted-reference/src/linear.rs])

    Linear least squares by full-batch gradient descent: what the sidecar trains as
    FLTrust's reference and what it scores Zeno's candidates by.  As in [Linear] the
    arithmetic is a parameter: binary64 in the code, exact rationals in the theorem that
    the descent descends. *)

From Stdlib Require Import QArith Qcanon Lqa.
From S2P Require Import Prelude Float Wire Linear Elimination.
Close Scope Q_scope.
Open Scope Qc_scope.
Open Scope nat_scope.

(** [n as f64], and what [Iterator::sum] starts from. *)
Class Numeric (T : Type) `{!Scalar T} := {
  s_of_nat : nat → T;
  s_sum_start : T;
}.

#[export] Instance f64_numeric : Numeric f64 := {|
  s_of_nat n := f64_of_Z (Z.of_nat n);
  s_sum_start := S754_zero true;
|}.

#[export] Instance Qc_numeric : Numeric Qc := {|
  s_of_nat n := Q2Qc (inject_Z (Z.of_nat n));
  s_sum_start := 0%Qc;
|}.

Section least_squares.
Context {T : Type} `{!Scalar T, !Numeric T}.

Definition predict_linear (features weights : list T) : T :=
  foldl s_add s_sum_start (zip_with s_mul features weights).

Definition residual (weights : list T) (example : list T * T) : T :=
  s_sub (predict_linear example.1 weights) example.2.

Definition mean_squared_error (dataset : list (list T * T)) (weights : list T) : T :=
  match dataset with
  | [] => s_zero
  | _ =>
      s_div (foldl (λ total example, let r := residual weights example in s_add total (s_mul r r)) s_zero dataset)
        (s_of_nat (length dataset))
  end.

(** [*g += 2.0 * residual * x / n] *)
Definition gradient_add (n : T) (weights gradient : list T) (example : list T * T) : list T :=
  let r := residual weights example in
  zip_update (λ g x, s_add g (s_div (s_mul (s_mul (s_of_nat 2) r) x) n)) gradient example.1.

Definition gradient (dataset : list (list T * T)) (weights : list T) : list T :=
  foldl (gradient_add (s_of_nat (length dataset)) weights) (replicate (length weights) s_zero) dataset.

Definition gradient_step (lr : T) (dataset : list (list T * T)) (weights : list T) : list T :=
  zip_update (λ w g, s_sub w (s_mul lr g)) weights (gradient dataset weights).

(** [for _ in 0..steps { .. }]: [None] once an iterate is not finite. *)
Fixpoint descend (steps : nat) (lr : T) (dataset : list (list T * T)) (weights : list T) : option (list T) :=
  match steps with
  | O => Some weights
  | S steps =>
      let weights := gradient_step lr dataset weights in
      if forallb s_is_finite weights then descend steps lr dataset weights else None
  end.
End least_squares.

(** ** The model *)

Record LinearLeastSquares := {
  dataset : list (list f32 * f32);
  lls_learning_rate : f32;
  lls_steps : nat;
}.

Definition lls_fits (self : LinearLeastSquares) (dim : nat) : bool :=
  forallb (λ example, (length example.1 =? dim)) (dataset self).

Definition widened (self : LinearLeastSquares) : list (list f64 * f64) :=
  map (λ example, (map f64_of_f32 example.1, f64_of_f32 example.2)) (dataset self).

Definition loss (self : LinearLeastSquares) (weights : list f32) : f64 :=
  mean_squared_error (widened self) (map f64_of_f32 weights).

Definition lls_train_reference (self : LinearLeastSquares) (global_weights : list f32) : list f32 :=
  if (length (dataset self) =? 0) || negb (lls_fits self (length global_weights)) then global_weights
  else
    match descend (lls_steps self) (f64_of_f32 (lls_learning_rate self)) (widened self)
            (map f64_of_f32 global_weights) with
    | Some weights => map f32_of_f64 weights
    | None => global_weights
    end.

(** [f64::clamp]: NaN stays NaN. *)
Definition f64_clamp (lo hi x : f64) : f64 := if SFltb x lo then lo else if SFltb hi x then hi else x.

Definition lls_score (self : LinearLeastSquares) (global_weights candidate : list f32) : f32 :=
  if negb (length candidate =? length global_weights) || negb (lls_fits self (length global_weights)) then f32_nan
  else
    let improvement := f64_sub (loss self global_weights) (loss self candidate) in
    f32_of_f64 (f64_clamp (SFopp (f64_of_f32 F32_MAX)) (f64_of_f32 F32_MAX) improvement).

Definition lls_model_dim (self : LinearLeastSquares) : option Z :=
  (λ example, Z.of_nat (length example.1)) <$> head (dataset self).

(** ** The descent descends

    Over exact rationals, on a dataset of the model's width. *)

Definition qdot (x y : list Qc) : Qc := foldr Qcplus 0%Qc (zip_with Qcmult x y).

Lemma predict_qdot x w : predict_linear x w = qdot x w.
Proof.
  unfold predict_linear, qdot. simpl.
  assert (∀ l a, foldl Qcplus a l = (a + foldr Qcplus 0 l)%Qc) as H.
  { induction l as [|v l IH]; intros a; simpl; [ring|]. rewrite IH. ring. }
  rewrite H. ring.
Qed.

Lemma qdot_sym x y : qdot x y = qdot y x.
Proof.
  revert y. induction x as [|a x IH]; intros [|b y]; try done. unfold qdot in *. simpl. by rewrite IH, (Qcmult_comm a b).
Qed.

Lemma qdot_step x w g (lr : Qc) :
  length w = length x → length g = length x →
  qdot x (zip_update (λ w g, s_sub w (s_mul lr g)) w g) = (qdot x w - lr * qdot x g)%Qc.
Proof.
  revert w g. induction x as [|a x IH]; intros [|b w] [|c g]; try done; unfold qdot in *; simpl.
  - intros _ _. ring.
  - intros [=] [=]. rewrite IH by done. ring.
Qed.

Lemma qdot_gradient_add (n : Qc) w g ex v :
  length ex.1 = length g → length v = length g →
  qdot (gradient_add n w g ex) v = (qdot g v + s_of_nat 2 * residual w ex * qdot ex.1 v / n)%Qc.
Proof.
  unfold gradient_add. generalize (residual w ex) (s_of_nat (T:=Qc) 2). destruct ex as [x y]. cbn [fst]. intros r two.
  revert g v. induction x as [|a x IH]; intros [|b g] [|c v]; try done; unfold qdot in *; simpl.
  - intros _ _. unfold Qcdiv. ring.
  - intros [=] [=]. rewrite IH by done. unfold Qcdiv. ring.
Qed.

(** The gradient's own square, and the squared residuals after a step. *)
Definition along (ds : list (list Qc * Qc)) (w v : list Qc) : Qc :=
  foldr (λ ex acc, residual w ex * qdot ex.1 v + acc)%Qc 0%Qc ds.
Definition squares (ds : list (list Qc * Qc)) (w : list Qc) : Qc :=
  foldr (λ ex acc, residual w ex * residual w ex + acc)%Qc 0%Qc ds.
Definition along_squared (ds : list (list Qc * Qc)) (v : list Qc) : Qc :=
  foldr (λ ex acc, qdot ex.1 v * qdot ex.1 v + acc)%Qc 0%Qc ds.
Definition norms (ds : list (list Qc * Qc)) : Qc := foldr (λ ex acc, qdot ex.1 ex.1 + acc)%Qc 0%Qc ds.

Definition of_width (d : nat) (ds : list (list Qc * Qc)) : Prop := Forall (λ ex, length ex.1 = d) ds.

Lemma length_gradient (ds : list (list Qc * Qc)) w : length (gradient ds w) = length w.
Proof.
  unfold gradient. apply (foldl_invariant (λ g, length g = length w)).
  - by rewrite length_replicate.
  - intros g ex _ Hg. unfold gradient_add. by rewrite length_zip_update.
Qed.

Lemma qdot_zeros d v : qdot (replicate d 0%Qc) v = 0%Qc.
Proof.
  revert v. induction d as [|d IH]; intros [|a v]; try done. unfold qdot in *. simpl. rewrite IH. ring.
Qed.

Lemma qdot_gradient (ds : list (list Qc * Qc)) w v :
  of_width (length w) ds → length v = length w →
  qdot (gradient ds w) v = (s_of_nat 2 * along ds w v / s_of_nat (length ds))%Qc.
Proof.
  unfold gradient. generalize (s_of_nat (T:=Qc) (length ds)). intros n Hds Hv.
  assert (∀ g, length g = length w →
    qdot (foldl (gradient_add n w) g ds) v = (qdot g v + s_of_nat 2 * along ds w v / n)%Qc) as H.
  { induction Hds as [|ex ds Hex Hds IH]; intros g Hg; cbn [foldl along foldr].
    - unfold Qcdiv. ring.
    - rewrite IH by (unfold gradient_add; by rewrite length_zip_update).
      rewrite qdot_gradient_add by congruence. unfold along, Qcdiv. ring. }
  rewrite H by by rewrite length_replicate. change (s_zero (T:=Qc)) with 0%Qc. rewrite qdot_zeros. ring.
Qed.

Lemma residual_step (ds : list (list Qc * Qc)) w lr ex :
  length ex.1 = length w →
  residual (gradient_step lr ds w) ex = (residual w ex - lr * qdot ex.1 (gradient ds w))%Qc.
Proof.
  intros Hex. unfold residual, gradient_step. rewrite !predict_qdot, qdot_step;
    [|congruence|by rewrite length_gradient]. simpl. ring.
Qed.

Lemma squares_step ds' (ds : list (list Qc * Qc)) w lr :
  of_width (length w) ds →
  let g := gradient ds' w in
  squares ds (gradient_step lr ds' w) =
  (squares ds w - lr * (1 + 1) * along ds w g + lr * lr * along_squared ds g)%Qc.
Proof.
  intros Hds. induction Hds as [|ex ds Hex Hds IH]; cbn [squares along along_squared foldr] in *; [ring|].
  unfold squares, along, along_squared in IH. rewrite IH, residual_step by done. ring.
Qed.

(** *** Order *)

Lemma qc_le_alt (x y : Qc) : (x <= y)%Qc ↔ (this x <= this y)%Q.
Proof. done. Qed.
Lemma this_plus (x y : Qc) : (this (x + y)%Qc == this x + this y)%Q.
Proof. apply Qred_correct. Qed.
Lemma this_mult (x y : Qc) : (this (x * y)%Qc == this x * this y)%Q.
Proof. apply Qred_correct. Qed.
Lemma this_opp (x : Qc) : (this (- x)%Qc == - this x)%Q.
Proof. apply Qred_correct. Qed.
Lemma this_minus (x y : Qc) : (this (x - y)%Qc == this x - this y)%Q.
Proof. unfold Qcminus. rewrite this_plus, this_opp. reflexivity. Qed.

(** Moves inequalities to [Q], where [nra] works. *)
Ltac qc_nra :=
  rewrite ?qc_le_alt in *;
  repeat match goal with
    | H : (_ <= _)%Q |- _ => progress repeat first [rewrite this_minus in H | rewrite this_plus in H
                                                   | rewrite this_mult in H | rewrite this_opp in H]
    end;
  repeat first [rewrite this_minus | rewrite this_plus | rewrite this_mult | rewrite this_opp];
  change (this 0%Qc) with 0%Q in *; change (this 1%Qc) with 1%Q in *;
  repeat match goal with |- context [this ?x] => let q := fresh "q" in set (q := this x) in *; clearbody q end;
  repeat match goal with H : context [this ?x] |- _ => let q := fresh "q" in set (q := this x) in *; clearbody q end;
  nra.

Lemma qc_square_nonneg (z : Qc) : (0 <= z * z)%Qc.
Proof. qc_nra. Qed.

Lemma qc_mult_nonneg (x y : Qc) : (0 <= x)%Qc → (0 <= y)%Qc → (0 <= x * y)%Qc.
Proof. intros. qc_nra. Qed.

Lemma qdot_form x y :
  length x = length y →
  (∀ s t, 0 <= s * s * qdot x x + (s * t + s * t) * qdot x y + t * t * qdot y y)%Qc ∧
  (qdot x y * qdot x y <= qdot x x * qdot y y)%Qc.
Proof.
  revert y. induction x as [|a x IH]; intros [|b y]; try done; intros Hl.
  - unfold qdot. simpl. split; [intros s t|]; qc_nra.
  - injection Hl as Hl. destruct (IH y Hl) as [Hform Hcs]. unfold qdot in *. simpl.
    set (X := foldr Qcplus _ (zip_with Qcmult x x)) in *. set (Y := foldr Qcplus _ (zip_with Qcmult y y)) in *.
    set (S := foldr Qcplus _ (zip_with Qcmult x y)) in *. split.
    + intros s t. pose proof (Hform s t). pose proof (qc_square_nonneg (s * a + t * b)%Qc). qc_nra.
    + pose proof (Hform b (- a)%Qc). qc_nra.
Qed.

Lemma qdot_nonneg x : (0 <= qdot x x)%Qc.
Proof.
  destruct (qdot_form x x eq_refl) as [H _]. specialize (H 1%Qc 0%Qc). revert H. qc_nra.
Qed.

Lemma along_squared_le (ds : list (list Qc * Qc)) v :
  of_width (length v) ds → (along_squared ds v <= norms ds * qdot v v)%Qc.
Proof.
  induction 1 as [|ex ds Hex _ IH]; unfold along_squared, norms in *; cbn [foldr]; [qc_nra|].
  destruct (qdot_form ex.1 v Hex) as [_ Hcs]. revert IH Hcs. qc_nra.
Qed.

Lemma of_nat_pos n : n ≠ 0 → (0 < this (s_of_nat (T:=Qc) n))%Q.
Proof.
  intros Hn. simpl. rewrite Qred_correct. change 0%Q with (inject_Z 0). rewrite <-Zlt_Qlt. lia.
Qed.

Lemma of_nat_2 : s_of_nat (T:=Qc) 2 = (1 + 1)%Qc.
Proof. by apply Qc_is_canon. Qed.

Lemma error_squares (ds : list (list Qc * Qc)) w :
  ds ≠ [] → mean_squared_error ds w = (squares ds w / s_of_nat (length ds))%Qc.
Proof.
  intros Hds. unfold mean_squared_error. destruct ds as [|ex ds]; [done|]. generalize (s_of_nat (T:=Qc) (length (ex :: ds))). intros n.
  assert (∀ l a, foldl (λ total example, let r := residual w example in s_add total (s_mul r r)) a l
                 = (a + squares l w)%Qc) as H.
  { induction l as [|e l IH]; intros a; cbn [foldl squares foldr]; [ring|]. rewrite IH. cbn [s_add s_mul Qc_scalar]. unfold squares. ring. }
  rewrite H. change (s_zero (T:=Qc)) with 0%Qc. by rewrite Qcplus_0_l.
Qed.

(** One step, with room to spare: what the error loses is a multiple of the gradient. *)
Lemma squares_descend (ds : list (list Qc * Qc)) w lr :
  ds ≠ [] → of_width (length w) ds → (0 <= lr)%Qc → (lr * norms ds <= s_of_nat (length ds))%Qc →
  (squares ds (gradient_step lr ds w) <= squares ds w)%Qc.
Proof.
  intros Hne Hds Hlr Hroom. rewrite squares_step by done. set (g := gradient ds w).
  pose proof (along_squared_le ds g ltac:(unfold g; by rewrite length_gradient)) as Hsq.
  pose proof (qdot_gradient ds w g Hds ltac:(apply length_gradient)) as Hg. fold g in Hg. rewrite of_nat_2 in Hg.
  pose proof (qdot_nonneg g) as Hpos.
  pose proof (of_nat_pos (length ds) ltac:(by destruct ds)) as Hn. set (n := s_of_nat (T:=Qc) (length ds)) in *.
  assert (Hgn : (qdot g g * n = (1 + 1) * along ds w g)%Qc).
  { rewrite Hg. field. intros Heq. rewrite Heq in Hn. by apply Qlt_irrefl in Hn. }
  clear Hg. set (G := qdot g g) in *. set (Nm := norms ds) in *. set (A := along ds w g) in *.
  assert (H1 : (lr * lr * along_squared ds g <= lr * (lr * Nm) * G)%Qc).
  { pose proof (qc_square_nonneg lr) as Hll. clear - Hsq Hll. revert Hsq Hll. generalize (along_squared ds g). intros Q Hsq Hll.
    assert (H0 : (0 <= Nm * G - Q)%Qc) by (clear - Hsq; qc_nra).
    pose proof (qc_mult_nonneg _ _ Hll H0) as H1. clear - H1. qc_nra. }
  assert (H2 : (lr * (lr * Nm) * G <= lr * n * G)%Qc).
  { revert Hroom Hlr Hpos. generalize (lr * Nm)%Qc. intros k Hroom Hlr Hpos.
    assert (H3 : (0 <= n - k)%Qc) by (clear - Hroom; qc_nra).
    pose proof (qc_mult_nonneg _ _ (qc_mult_nonneg _ _ H3 Hlr) Hpos) as H4. clear - H4. qc_nra. }
  assert (H5 : (lr * n * G = lr * (1 + 1) * A)%Qc) by (rewrite <-!Qcmult_assoc; f_equal; rewrite <-Hgn; ring).
  rewrite H5 in H2. clear - H1 H2. revert H1 H2. generalize (lr * lr * along_squared ds g)%Qc (lr * (lr * Nm) * G)%Qc (lr * (1 + 1) * A)%Qc.
  intros a b c. qc_nra.
Qed.

Lemma length_gradient_step (lr : Qc) ds w : length (gradient_step lr ds w) = length w.
Proof. unfold gradient_step. by rewrite length_zip_update. Qed.

Lemma qc_div_le (x y n : Qc) : (0 < this n)%Q → (x <= y)%Qc → (x / n <= y / n)%Qc.
Proof.
  intros Hn Hxy. unfold Qcdiv. apply Qcmult_le_compat_r; [done|].
  destruct (Qclt_le_dec (/ n) 0) as [Hlt|]; [|done]. exfalso.
  assert (Hinv : (n * / n = 1)%Qc).
  { apply Qcmult_inv_r. intros ->. by apply Qlt_irrefl in Hn. }
  assert (Hp : (this n * this (/ n)%Qc == 1)%Q) by (rewrite <-this_mult, Hinv; reflexivity).
  unfold Qclt in Hlt. change (this 0%Qc) with 0%Q in Hlt. revert Hp Hlt Hn.
  generalize (this n) (this (/ n)%Qc). intros a b Hp Hlt Hn. nra.
Qed.

(** The trusted model learns from its data.  Over exact rationals, on a root
    dataset of the model's width and with a learning rate of at most one over the mean
    squared length of its examples, the descent never stops early, keeps the model's
    dimension, and after any number of steps the reference's mean squared error is no
    greater than the error of the global model it started from. *)
Theorem training_never_worsens (steps : nat) (lr : Qc) (ds : list (list Qc * Qc)) (w : list Qc) :
  ds ≠ [] → of_width (length w) ds → (0 <= lr)%Qc → (lr * norms ds <= s_of_nat (length ds))%Qc →
  ∃ w', descend steps lr ds w = Some w' ∧ length w' = length w ∧
    (mean_squared_error ds w' <= mean_squared_error ds w)%Qc.
Proof.
  intros Hne Hds Hlr Hroom. revert w Hds. induction steps as [|steps IH]; intros w Hds.
  { exists w. split; [done|]. split; [done|]. apply Qcle_refl. }
  destruct (IH (gradient_step lr ds w)) as (w' & Hw' & Hlen & Hle).
  { unfold of_width in *. by rewrite length_gradient_step. }
  rewrite length_gradient_step in Hlen. exists w'. split; [|split; [done|]].
  - cbn [descend]. replace (forallb s_is_finite (gradient_step lr ds w)) with true; [done|].
    symmetry. apply forallb_forall. by intros.
  - etransitivity; [exact Hle|]. rewrite !error_squares by done.
    apply qc_div_le; [apply of_nat_pos; by destruct ds|]. by apply squares_descend.
Qed.

(** *** Witness: [y = 2 x0 + 3 x1], from zero *)

Definition qz2 (n : Z) : Qc := Q2Qc (inject_Z n).
Definition demo_root : list (list Qc * Qc) :=
  [([qz2 1; qz2 0], qz2 2); ([qz2 0; qz2 1], qz2 3); ([qz2 1; qz2 1], qz2 5)].

Lemma training_never_worsens_witness :
  ∃ w', descend 3 (Q2Qc (1 # 2)) demo_root [qz2 0; qz2 0] = Some w' ∧
    (mean_squared_error demo_root w' <= mean_squared_error demo_root [qz2 0; qz2 0])%Qc ∧
    (Qccompare (mean_squared_error demo_root w') (Q2Qc 1)) = Lt ∧
    (Qccompare (mean_squared_error demo_root [qz2 0; qz2 0]) (qz2 12)) = Gt.
Proof.
  destruct (training_never_worsens 3 (Q2Qc (1 # 2)) demo_root [qz2 0; qz2 0]) as (w' & Hw & _ & Hle).
  - discriminate.
  - repeat constructor.
  - vm_compute. discriminate.
  - vm_compute. discriminate.
  - exists w'. split; [exact Hw|]. split; [exact Hle|]. split.
    + vm_compute in Hw. injection Hw as <-. vm_compute. reflexivity.
    + vm_compute. reflexivity.
Defined.

(** ** The model in the code's own arithmetic *)

Lemma length_descend {T} `{!Scalar T, !Numeric T} steps (lr : T) ds w w' :
  descend steps lr ds w = Some w' → length w' = length w.
Proof.
  revert w. induction steps as [|steps IH]; intros w; cbn [descend]; [by intros [= <-]|].
  destruct (forallb _ _); [|done]. intros H%IH. rewrite H. unfold gradient_step. by rewrite length_zip_update.
Qed.

Lemma length_train_reference self global : length (lls_train_reference self global) = length global.
Proof.
  unfold lls_train_reference. destruct (_ || _); [done|]. destruct (descend _ _ _ _) as [w|] eqn:Hd; [|done].
  apply length_descend in Hd. by rewrite length_map, Hd, length_map.
Qed.

Lemma loss_bounded self w : sf_bounded 53 (loss self w).
Proof. unfold loss, mean_squared_error. destruct (widened self); [done|]. by apply SFdiv_bounded. Qed.

Lemma f64_clamp_in lo hi x :
  sf_bounded 53 lo → sf_bounded 53 hi → sf_bounded 53 x → sf_is_nan x = false →
  sf_is_nan lo = false → sf_is_nan hi = false → SFltb lo lo = false → SFltb hi hi = false → SFltb hi lo = false →
  let y := f64_clamp lo hi x in sf_bounded 53 y ∧ sf_is_nan y = false ∧ SFltb y lo = false ∧ SFltb hi y = false.
Proof.
  intros Hlo Hhi Hx Hnx Hnl Hnh Hll Hhh Hhl. unfold f64_clamp.
  destruct (SFltb x lo) eqn:H1; [done|]. destruct (SFltb hi x) eqn:H2; [|done].
  split; [done|]. split; [done|]. split; [done|done].
Qed.

(** A score is finite or it is no score at all. *)
Lemma score_finite_or_nan self global candidate :
  f32_is_nan (lls_score self global candidate) = true ∨ f32_is_finite (lls_score self global candidate) = true.
Proof.
  unfold lls_score. destruct (_ || _); [by left|]. set (d := f64_sub _ _).
  assert (Hd : sf_bounded 53 d) by (apply SFsub_bounded; [done|apply loss_bounded..]). clearbody d.
  destruct (sf_is_nan d) eqn:Hn; [left; by destruct d|right].
  destruct (f64_clamp_in (SFopp (f64_of_f32 F32_MAX)) (f64_of_f32 F32_MAX) d) as (Hb & Hnan & Hlo & Hhi);
    try done; by apply f32_of_f64_finite.
Qed.

Lemma wrong_width_unscored self global candidate :
  length candidate ≠ length global ∨ lls_fits self (length global) = false →
  f32_is_nan (lls_score self global candidate) = true.
Proof.
  intros H. unfold lls_score. destruct (Nat.eqb_spec (length candidate) (length global)); [|done].
  destruct H as [|Hf]; [done|]. by rewrite Hf.
Qed.

(** The descent watches its [f64] iterates, and the cast comes after: with a learning
    rate too large, it answers with an infinity where it means to give its input back. *)
Lemma diverged_reference_is_infinite :
  let self := {| dataset := [([f32_one], f32_zero)]; lls_learning_rate := f32_of_Z (10 ^ 30); lls_steps := 2 |} in
  lls_fits self 1 = true ∧ lls_train_reference self [f32_one] = [F (S754_infinity false)].
Proof. vm_compute. done. Qed.
