(* ===== verification/Catalog.v ===== *)
(** * The catalog of methods ([conflux-core/src/lib.rs], [conflux-config/src/registry.rs])

    [build_aggregator] turns a configured name into a method behind [Box<dyn
    Aggregator>]; next to each of its arms the source submits a registry entry that
    configuration checks and tools read.  The two are compared here, and every
    method the catalog builds is held against the aggregator's contract. *)

From S2P Require Import Prelude Float Wire Weights Averaging Filters Krum Spectral Statistics Trusted Temporal Optimization Contracts Drift Linear Flanders.

Open Scope Z_scope.

(** ** [Box<dyn Aggregator>] *)

Record BoxedAggregator := Box { box_type : Type; box_impl : Aggregator box_type; box_state : box_type }.
Arguments Box {_} _ _.

#[export] Instance Boxed_aggregator : Aggregator BoxedAggregator := {|
  aggregate b us :=
    let '(st, r) := @aggregate _ (box_impl b) (box_state b) us in (Box (box_impl b) st, r);
  requires_trusted_reference b := @requires_trusted_reference _ (box_impl b) (box_state b);
  set_trusted_reference r b := Box (box_impl b) (@set_trusted_reference _ (box_impl b) r (box_state b));
  agg_control_variate b := @agg_control_variate _ (box_impl b) (box_state b);
  requires_candidate_scores b := @requires_candidate_scores _ (box_impl b) (box_state b);
  set_candidate_scores c b := Box (box_impl b) (@set_candidate_scores _ (box_impl b) c (box_state b));
|}.

(** The method inside meets the contract from the states of some invariant, and
    is in one of them. *)
Definition meets_contract (b : BoxedAggregator) : Prop :=
  ∃ I : box_type b → Prop, AggregatorLawsOn (box_type b) (box_impl b) I ∧ I (box_state b).

Lemma Boxed_laws : AggregatorLawsOn BoxedAggregator Boxed_aggregator meets_contract.
Proof.
  split; simpl.
  - intros b us (I & L & HI). pose proof (@on_preserved _ _ _ L (box_state b) us HI) as H.
    destruct (@aggregate _ _ _ us) as [st r]. by exists I.
  - intros b r (I & L & HI). exists I. split; [done|]. by apply (@on_reference _ _ _ L).
  - intros b c (I & L & HI). exists I. split; [done|]. by apply (@on_scores _ _ _ L).
  - intros b (I & L & HI). pose proof (@on_empty _ _ _ L (box_state b) HI) as H.
    by destruct (@aggregate _ _ _ []) as [st r].
  - intros b us e (I & L & HI) Hus He. pose proof (@on_invalid _ _ _ L (box_state b) us e HI Hus He) as H.
    by destruct (@aggregate _ _ _ us) as [st r].
  - intros b us out (I & L & HI). pose proof (@on_dim _ _ _ L (box_state b) us out HI) as H.
    by destruct (@aggregate _ _ _ us) as [st r].
  - intros b us (I & L & HI). pose proof (@on_no_panic _ _ _ L (box_state b) us HI) as H.
    by destruct (@aggregate _ _ _ us) as [st r].
Qed.

Lemma box_everywhere {St} (A : Aggregator St) (st : St) : AggregatorLaws St A → meets_contract (Box A st).
Proof. intros L. exists (λ _, True). split; [by apply laws_everywhere|done]. Qed.

(** The states a method goes through: rounds, and what the server injects. *)
Inductive reached (m : BoxedAggregator) : BoxedAggregator → Prop :=
  | reached_start : reached m m
  | reached_round m' us : reached m m' → reached m (aggregate m' us).1
  | reached_reference m' r : reached m m' → reached m (set_trusted_reference r m')
  | reached_scores m' c : reached m m' → reached m (set_candidate_scores c m').

Lemma reached_contract m m' : reached m m' → meets_contract m → meets_contract m'.
Proof.
  pose proof Boxed_laws as L.
  induction 1 as [|m' us _ IH|m' r _ IH|m' c _ IH]; intros Hm; [done| | |].
  - by apply (@on_preserved _ _ _ L), IH.
  - by apply (@on_reference _ _ _ L), IH.
  - by apply (@on_scores _ _ _ L), IH.
Qed.

(** ** Building by name *)

Inductive AggregatorBuildError : Type :=
  | UnknownAggregator (name : string)
  | ClientSideOnly (name : string).

Record AggregatorParams := {
  ap_byzantine_fraction : f32;
  ap_clip_radius : f32;
  ap_server_learning_rate : option f32;
  ap_server_tau : option f32;
  ap_server_momentum : option f32;
  ap_fairness_q : option f32;
  ap_server_lipschitz : option f32;
  ap_scaffold_num_clients : option Z;
  ap_zeno_rho : option f32;
}.

Definition AggregatorParams_default : AggregatorParams :=
  {| ap_byzantine_fraction := f32_lit 2 10; ap_clip_radius := f32_one; ap_server_learning_rate := None;
     ap_server_tau := None; ap_server_momentum := None; ap_fairness_q := None; ap_server_lipschitz := None;
     ap_scaffold_num_clients := None; ap_zeno_rho := None |}.

Definition fedopt_params (variant : FedOptVariant) (params : AggregatorParams) : FedOptParams :=
  let p := for_variant variant in
  {| server_learning_rate := default (server_learning_rate p) (ap_server_learning_rate params);
     beta1 := beta1 p; beta2 := beta2 p; tau := default (tau p) (ap_server_tau params) |}.

(** The constructors the arms call. *)
Definition fedavgm_new : FedAvgMAggregator SampleCountWeighting :=
  {| beta := f32_lit 9 10; m_server_learning_rate := f32_one; m_base := None; m_state := None |}.
Definition qfedavg_with_params (q lipschitz : f32) : QFedAvgAggregator :=
  {| q := q; lipschitz := lipschitz; q_global := None |}.
Definition zeno_new (byzantine_fraction rho : f32) : ZenoAggregator :=
  {| zeno_byzantine_fraction := byzantine_fraction; rho := rho; scores := None |}.
Definition foolsgold_new : FoolsGoldAggregator := {| history := ∅ |}.
Definition centered_clipping_new (clip_radius : f32) : CenteredClippingAggregator :=
  {| clip_radius := clip_radius; cc_reference := None |}.
Definition MedianOfMeansStatistic_default : MedianOfMeansStatistic := {| group_size := 2 |}.
Definition GeometricMedianStatistic_default : GeometricMedianStatistic := {| weiszfeld_iterations := 8 |}.

#[local] Existing Instance filtered_aggregator.

Section catalog.
Context (ln : f32 → f32) (powf : f64 → f64 → f64).
Context (sort_unordered : list (nat * f64) → outcome AggregatorError (list (nat * f64))).

(** What the three FedOpt arms build. *)
Definition fedopt_box (variant : FedOptVariant) (params : AggregatorParams) : BoxedAggregator :=
  Box FedOpt_aggregator (fedopt_new (B:=SampleCountWeighting) variant (fedopt_params variant params) None).

Definition fedavgm_box (params : AggregatorParams) : BoxedAggregator :=
  Box FedAvgM_aggregator
    {| beta := default (beta fedavgm_new) (ap_server_momentum params);
       m_server_learning_rate := default (m_server_learning_rate fedavgm_new) (ap_server_learning_rate params);
       m_base := m_base fedavgm_new; m_state := m_state fedavgm_new |}.

Definition krum_of (byzantine_fraction : f32) : KrumFilter * SampleCountWeighting :=
  ({| krum_byzantine_fraction := byzantine_fraction |}, sample_count_weighting).

(** The arms of [build_aggregator]'s match, in order.  [flanders] filters for the
    [krum] it builds by name; its type is then known, and it is not boxed twice. *)
Definition arms (params : AggregatorParams) : list (string * outcome AggregatorBuildError BoxedAggregator) :=
  let f := ap_byzantine_fraction params in
  [ ("fedavg", Ok (Box weighted_average_aggregator sample_count_weighting));
    ("krum", Ok (Box filtered_aggregator (krum_of f)));
    ("multi_krum", Ok (Box filtered_aggregator ({| multi_krum_byzantine_fraction := f |}, sample_count_weighting)));
    ("trimmed_mean", Ok (Box coordinate_wise_aggregator {| trimmed_byzantine_fraction := f |}));
    ("median", Ok (Box coordinate_wise_aggregator median_statistic));
    ("faba", Ok (Box filtered_aggregator ({| faba_byzantine_fraction := f |}, sample_count_weighting)));
    ("bulyan", Ok (Box filtered_aggregator
                     ({| bulyan_byzantine_fraction := f |}, {| trimmed_byzantine_fraction := f |})));
    ("geometric_median", Ok (Box vector_robust_aggregator GeometricMedianStatistic_default));
    ("median_of_means", Ok (Box coordinate_wise_aggregator MedianOfMeansStatistic_default));
    ("divide_and_conquer", Ok (Box filtered_aggregator
       ({| dnc_byzantine_fraction := f; power_iterations := power_iterations DivideAndConquerFilter_default |},
        sample_count_weighting)));
    ("foolsgold", Ok (Box (FoolsGold_aggregator ln) foolsgold_new));
    ("centered_clipping", Ok (Box CenteredClipping_aggregator (centered_clipping_new (ap_clip_radius params))));
    ("fltrust", Ok (Box FlTrust_aggregator fltrust_new));
    ("flanders", Ok (Box (Flanders_aggregator sort_unordered) (flanders_new (krum_of f))));
    ("qfedavg", Ok (Box (QFedAvg_aggregator powf)
       (qfedavg_with_params (default f32_zero (ap_fairness_q params)) (default f32_one (ap_server_lipschitz params)))));
    ("fednova", Ok (Box FedNova_aggregator fednova_new));
    ("scaffold", Ok (Box Scaffold_aggregator
       (scaffold_new (default f32_one (ap_server_learning_rate params)) (default 1 (ap_scaffold_num_clients params)))));
    ("zeno", Ok (Box Zeno_aggregator (zeno_new f (default (f32_lit 5 10000) (ap_zeno_rho params)))));
    ("fedavgm", Ok (fedavgm_box params));
    ("fedadagrad", Ok (fedopt_box Adagrad params));
    ("fedadam", Ok (fedopt_box Adam params));
    ("fedyogi", Ok (fedopt_box Yogi params));
    ("fedprox", Err (ClientSideOnly "fedprox")) ]%string.

Definition build_aggregator (name : string) (params : AggregatorParams)
    : outcome AggregatorBuildError BoxedAggregator :=
  match find (λ arm, String.eqb name arm.1) (arms params) with
  | Some arm => arm.2
  | None => Err (UnknownAggregator name)
  end.
End catalog.

(** ** The strategy registry *)

Inductive StrategyKind : Type := Kind_Aggregator | Kind_PrivacyMechanism | Kind_Selector.

#[export] Instance StrategyKind_eq_dec : EqDecision StrategyKind.
Proof. solve_decision. Defined.

(** The citation, which only documents, is left out. *)
Record StrategyEntry := {
  entry_kind : StrategyKind;
  entry_name : string;
  entry_family : string;
  entry_params : list string;
}.

Definition aggregator_entry (name family : string) (params : list string) : StrategyEntry :=
  {| entry_kind := Kind_Aggregator; entry_name := name; entry_family := family; entry_params := params |}.

(** The [inventory::submit!] blocks of the three crates that ship strategies. *)
Definition shipped_entries : list StrategyEntry :=
  [ aggregator_entry "fedavg" "averaging" [];
    aggregator_entry "fltrust" "trusted" [];
    aggregator_entry "flanders" "temporal" ["robust_byzantine_fraction"];
    aggregator_entry "fedyogi" "optimization" ["server_learning_rate"; "server_tau"];
    aggregator_entry "fedadam" "optimization" ["server_learning_rate"; "server_tau"];
    aggregator_entry "fedavgm" "optimization" ["server_learning_rate"; "server_momentum"];
    aggregator_entry "qfedavg" "optimization" ["fairness_q"; "server_lipschitz"];
    aggregator_entry "fednova" "optimization" [];
    aggregator_entry "scaffold" "optimization" ["server_learning_rate"; "scaffold_num_clients"];
    aggregator_entry "zeno" "trusted" ["robust_byzantine_fraction"; "zeno_rho"];
    aggregator_entry "fedadagrad" "optimization" ["server_learning_rate"; "server_tau"];
    aggregator_entry "krum" "robust" ["robust_byzantine_fraction"];
    aggregator_entry "multi_krum" "robust" ["robust_byzantine_fraction"];
    aggregator_entry "trimmed_mean" "robust" ["robust_byzantine_fraction"];
    aggregator_entry "median" "robust" [];
    aggregator_entry "faba" "robust" ["robust_byzantine_fraction"];
    aggregator_entry "bulyan" "robust" ["robust_byzantine_fraction"];
    aggregator_entry "geometric_median" "robust" [];
    aggregator_entry "median_of_means" "robust" ["robust_byzantine_fraction"];
    aggregator_entry "divide_and_conquer" "robust" ["robust_byzantine_fraction"];
    aggregator_entry "foolsgold" "temporal" [];
    aggregator_entry "centered_clipping" "temporal" ["clip_radius"];
    {| entry_kind := Kind_Selector; entry_name := "uniform_random"; entry_family := "selector"; entry_params := [] |};
    {| entry_kind := Kind_PrivacyMechanism; entry_name := "gaussian_clipping"; entry_family := "dp";
       entry_params := ["clip_norm"; "noise_multiplier"] |} ]%string.

(** The entries the linker collected, in the order it put them. *)
Section registry.
Context (registry : list StrategyEntry).

Definition lookup_strategy (kind : StrategyKind) (name : string) : option StrategyEntry :=
  find (λ entry, bool_decide (entry_kind entry = kind) && String.eqb (entry_name entry) name) registry.

Definition entries (kind : StrategyKind) : list StrategyEntry :=
  filter (λ entry, entry_kind entry = kind) registry.

Definition registered_names (kind : StrategyKind) : list string :=
  sort_by string_leb (map entry_name (entries kind)).
End registry.

Lemma lookup_strategy_is_Some registry kind name :
  is_Some (lookup_strategy registry kind name) ↔ name ∈ registered_names registry kind.
Proof.
  unfold registered_names. rewrite sort_by_perm. unfold lookup_strategy, entries. split.
  - intros [e [Hin He]%find_some]. apply andb_true_iff in He as [Hk%bool_decide_eq_true Hn%String.eqb_eq].
    rewrite <-Hn. apply list_elem_of_fmap_2, list_elem_of_filter. split; [done|]. by apply list_elem_of_In.
  - intros (e & -> & [Hk He]%list_elem_of_filter)%list_elem_of_fmap.
    destruct (find _ registry) as [e'|] eqn:Hf; [by eexists|]. exfalso.
    apply list_elem_of_In in He. eapply find_none in He; [|exact Hf]. cbv beta in He.
    rewrite bool_decide_true, String.eqb_refl in He by done. done.
Qed.

(** What is registered does not depend on the order the linker chose. *)
Lemma registered_names_perm registry registry' kind :
  registry ≡ₚ registry' → registered_names registry kind = registered_names registry' kind.
Proof.
  intros Hp. unfold registered_names, entries. apply sort_by_unique; unfold string_leb.
  - intros x y. rewrite !bool_decide_eq_true. apply (total String.le).
  - intros x y z. rewrite !bool_decide_eq_true. by etrans.
  - intros x y _ _. rewrite !bool_decide_eq_true. apply (anti_symm String.le).
  - by rewrite Hp.
Qed.

(** The names [build_aggregator] has an arm for, other than the client-side one. *)
Definition built_names : list string := removelast (map fst (arms (λ x, x) (λ x _, x) leave_unordered AggregatorParams_default)).

Section properties.
Context (ln : f32 → f32) (powf : f64 → f64 → f64).
Context (sort_unordered : list (nat * f64) → outcome AggregatorError (list (nat * f64))).
#[local] Notation build := (build_aggregator ln powf sort_unordered).

Lemma arms_names params : map fst (arms ln powf sort_unordered params) = built_names ++ ["fedprox"%string].
Proof. reflexivity. Qed.

Lemma build_ok_arm name params m : build name params = Ok m → In (name, Ok m) (arms ln powf sort_unordered params).
Proof.
  unfold build_aggregator. destruct (find _ _) as [[n o]|] eqn:Hf; [|done]. intros Ho. simpl in Ho. subst o.
  apply find_some in Hf as [Hin ->%String.eqb_eq]. done.
Qed.

(** Every way a name can be answered. *)
Lemma build_cases name params :
  (name ∈ built_names ∧ ∃ m, build name params = Ok m) ∨
  (name ∉ built_names ∧ build name params =
     Err (if decide (name = "fedprox"%string) then ClientSideOnly "fedprox" else UnknownAggregator name)).
Proof.
  unfold build_aggregator.
  assert (Hok : ∀ n o, In (n, o) (arms ln powf sort_unordered params) →
    (n ∈ built_names ∧ ∃ m, o = Ok m) ∨ (n = "fedprox"%string ∧ o = Err (ClientSideOnly "fedprox"))).
  { intros n o Hin. simpl in Hin. repeat destruct Hin as [Hin|Hin]; [..|done]; injection Hin as <- <-.
    all: first [right; split; reflexivity |
      left; split; [apply (bool_decide_unpack _); vm_compute; reflexivity|eexists; reflexivity]]. }
  assert (Hfp : "fedprox"%string ∉ built_names) by (apply (bool_decide_unpack _); vm_compute; reflexivity).
  destruct (find _ _) as [[n o]|] eqn:Hf.
  - apply find_some in Hf as [Hin ->%String.eqb_eq]. simpl. destruct (Hok _ _ Hin) as [?|[-> ->]]; [by left|right].
    split; [done|]. by rewrite decide_True.
  - right. assert (Hn : name ∉ built_names ++ ["fedprox"%string]).
    { rewrite <-(arms_names params). intros (p & -> & Hp)%list_elem_of_fmap. apply list_elem_of_In in Hp.
      eapply find_none in Hp; [|exact Hf]. cbv beta in Hp. by rewrite String.eqb_refl in Hp. }
    rewrite elem_of_app, list_elem_of_singleton in Hn. split; [tauto|]. rewrite decide_False by tauto. done.
Qed.

(** In whatever order the linker collected the entries. *)
Lemma registered_iff_built registry name :
  registry ≡ₚ shipped_entries →
  is_Some (lookup_strategy registry Kind_Aggregator name) ↔ name ∈ built_names.
Proof.
  intros Hp. rewrite lookup_strategy_is_Some, (registered_names_perm _ _ _ Hp).
  assert (Hb : registered_names shipped_entries Kind_Aggregator ≡ₚ built_names); [|by rewrite Hb].
  apply (bool_decide_unpack _). vm_compute. reflexivity.
Qed.

(** The catalog and the registry are one list: whatever order the linker
    collected the entries in, a name is buildable exactly when it is registered as
    an aggregator; the one client-side method is refused as that, every other name as
    unknown, and building never panics. *)
Theorem catalog_matches_registry (registry : list StrategyEntry) (name : string) (params : AggregatorParams) :
  registry ≡ₚ shipped_entries →
  (is_ok (build name params) = true ↔ is_Some (lookup_strategy registry Kind_Aggregator name)) ∧
  build name params ≠ Panic ∧
  (∀ e, build name params = Err e →
     e = if decide (name = "fedprox"%string) then ClientSideOnly "fedprox" else UnknownAggregator name).
Proof.
  intros Hp. rewrite (registered_iff_built _ _ Hp). destruct (build_cases name params) as [(Hin & m & ->)|(Hnin & ->)].
  - done.
  - split; [done|]. split; [done|]. by intros e [= <-].
Qed.

(** The two configurations agree on a parameter, by its configuration name. *)
Definition same_param (p p' : AggregatorParams) (name : string) : Prop :=
  if String.eqb name "robust_byzantine_fraction" then ap_byzantine_fraction p = ap_byzantine_fraction p'
  else if String.eqb name "clip_radius" then ap_clip_radius p = ap_clip_radius p'
  else if String.eqb name "server_learning_rate" then ap_server_learning_rate p = ap_server_learning_rate p'
  else if String.eqb name "server_tau" then ap_server_tau p = ap_server_tau p'
  else if String.eqb name "server_momentum" then ap_server_momentum p = ap_server_momentum p'
  else if String.eqb name "fairness_q" then ap_fairness_q p = ap_fairness_q p'
  else if String.eqb name "server_lipschitz" then ap_server_lipschitz p = ap_server_lipschitz p'
  else if String.eqb name "scaffold_num_clients" then ap_scaffold_num_clients p = ap_scaffold_num_clients p'
  else if String.eqb name "zeno_rho" then ap_zeno_rho p = ap_zeno_rho p'
  else True.

(** The parameters an entry lists are all its method reads: two
    configurations that agree on those build the same method. *)
Theorem listed_parameters_suffice (entry : StrategyEntry) (p p' : AggregatorParams) :
  entry ∈ entries shipped_entries Kind_Aggregator → Forall (same_param p p') (entry_params entry) →
  build (entry_name entry) p = build (entry_name entry) p'.
Proof.
  intros [_ Hin]%list_elem_of_filter Hsame. apply list_elem_of_In in Hin. cbn [shipped_entries In] in Hin.
  destruct p, p'.
  repeat destruct Hin as [Hin|Hin]; [..|destruct Hin]; subst entry;
    repeat (apply Forall_cons in Hsame as [Hp Hsame]; cbn in Hp; subst); reflexivity.
Qed.

(** The methods that divide by [tau]. *)
Definition adaptive_names : list string := ["fedadagrad"; "fedadam"; "fedyogi"]%string.

Definition tau_is_number (params : AggregatorParams) : Prop :=
  match ap_server_tau params with Some t => not_nan t | None => True end.

Lemma f64_of_f32_not_nan x : not_nan x → sf_is_nan (f64_of_f32 x) = false.
Proof.
  unfold not_nan, f32_is_nan, f64_of_f32. destruct (sf x); try done. intros _. apply binary_round_not_nan.
Qed.

Lemma fedopt_box_contract variant params : tau_is_number params → meets_contract (fedopt_box variant params).
Proof.
  intros Ht. exists fedopt_ready. split; [apply FedOpt_laws|]. split; [done|].
  unfold v_floor. apply f64_of_f32_not_nan, f32_nonneg_not_nan, f32_mul_self_nonneg.
  unfold tau_is_number in Ht. simpl. destruct (ap_server_tau params); simpl; [done|].
  destruct variant; vm_compute; reflexivity.
Qed.

(** Three names are not covered: [divide_and_conquer] and [flanders] do panic on
    some batches, and for [faba] it is not shown. *)
Lemma build_meets_contract (name : string) (params : AggregatorParams) (m : BoxedAggregator) :
  build name params = Ok m → (name ∈ adaptive_names → tau_is_number params) →
  name ∉ ["faba"; "divide_and_conquer"; "flanders"]%string → meets_contract m.
Proof.
  intros Hb%build_ok_arm Ht Hn. cbn [arms In] in Hb.
  repeat destruct Hb as [Hb|Hb]; [..|destruct Hb]; first [injection Hb as <- <- | discriminate Hb].
  - apply box_everywhere, weighted_average_laws.
  - apply box_everywhere. apply (filtered_laws (F:=KrumFilter) (St:=SampleCountWeighting)).
  - apply box_everywhere. apply (filtered_laws (F:=MultiKrumFilter) (St:=SampleCountWeighting)).
  - apply box_everywhere, coordinate_wise_laws.
  - apply box_everywhere, coordinate_wise_laws.
  - exfalso. apply Hn. set_solver.
  - apply box_everywhere. apply (filtered_laws (F:=BulyanFilter) (St:=TrimmedMeanStatistic)).
  - apply box_everywhere, vector_robust_laws.
  - exists (λ s, group_size s = 2%nat). split; [|done].
    apply coordinate_wise_laws_on. intros s Hs. apply median_of_means_total. rewrite Hs. reflexivity.
  - exfalso. apply Hn. set_solver.
  - apply box_everywhere, FoolsGold_laws.
  - apply box_everywhere, CenteredClipping_laws.
  - apply box_everywhere, FlTrust_laws.
  - exfalso. apply Hn. set_solver.
  - apply box_everywhere, QFedAvg_laws.
  - apply box_everywhere, FedNova_laws.
  - exists scaffold_inv. split; [apply Scaffold_laws|apply scaffold_new_inv].
  - apply box_everywhere, Zeno_laws.
  - exists fedavgm_inv. split; [apply FedAvgM_laws|done].
  - apply fedopt_box_contract, Ht. left.
  - apply fedopt_box_contract, Ht. right; left.
  - apply fedopt_box_contract, Ht. right; right; left.
Qed.

(** C21: every method the catalog builds, [divide_and_conquer], [flanders] and [faba]
    apart, keeps the aggregator's contract for life: whatever rounds it has run,
    accepted or refused, and whatever was injected in between, an empty or invalid
    batch gets the validation's own error, a result has the batch's dimension and no
    batch makes it panic. *)
Theorem built_methods_keep_contract (name : string) (params : AggregatorParams) (m m' : BoxedAggregator)
    (us : list ClientDelta) :
  build name params = Ok m → (name ∈ adaptive_names → tau_is_number params) →
  name ∉ ["faba"; "divide_and_conquer"; "flanders"]%string → reached m m' →
  let r := (aggregate m' us).2 in
  r ≠ Panic ∧
  (us = [] → r = Err EmptyBatch) ∧
  (∀ e, us ≠ [] → decode_and_validate us = Err e → r = Err e) ∧
  (∀ out, r = Ok out →
     ∃ ds, decode_and_validate us = Ok ds ∧ ds ≠ [] ∧ Forall (λ w, length w = length out) ds).
Proof.
  intros Hb Ht Hn Hr. assert (Hm : meets_contract m') by (eapply reached_contract; [done|by eapply build_meets_contract]).
  cbv zeta. pose proof Boxed_laws as L. split; [by apply (@on_no_panic _ _ _ L)|]. split; [|split].
  - intros ->. by apply (@on_empty _ _ _ L).
  - intros e. by apply (@on_invalid _ _ _ L).
  - intros out. by apply (@on_dim _ _ _ L).
Qed.

(** The sidecar is asked exactly by the methods that need it: of everything the
    catalog builds, and whatever has happened to it since, [fltrust] alone asks for
    a reference, [zeno] alone for scores, and only [scaffold] ever hands a control
    variate to the clients. *)
Theorem sidecar_needs_exact (name : string) (params : AggregatorParams) (m m' : BoxedAggregator) :
  build name params = Ok m → reached m m' →
  requires_trusted_reference m' = String.eqb name "fltrust" ∧
  requires_candidate_scores m' = String.eqb name "zeno" ∧
  (name ≠ "scaffold"%string → agg_control_variate m' = None).
Proof.
  intros Hb%build_ok_arm Hr. cbn [arms In] in Hb.
  set (P := λ n (x : BoxedAggregator), ∀ st,
    @requires_trusted_reference _ (box_impl x) st = String.eqb n "fltrust" ∧
    @requires_candidate_scores _ (box_impl x) st = String.eqb n "zeno" ∧
    (n ≠ "scaffold"%string → @agg_control_variate _ (box_impl x) st = None)).
  assert (Hkeep : P name m → P name m').
  { intros Hm. induction Hr as [|x us _ IH|x r _ IH|x c _ IH]; [done| |exact IH|exact IH].
    revert IH. unfold P. simpl. by destruct (@aggregate _ _ _ us) as [st' r]. }
  apply Hkeep. clear Hkeep Hr. unfold P.
  repeat destruct Hb as [Hb|Hb]; [..|destruct Hb]; first [injection Hb as <- <- | discriminate Hb];
    intros st; (split; [reflexivity|]; split; [reflexivity|]);
    first [intros Hns; exfalso; by apply Hns | intros _; reflexivity].
Qed.

(** ** What modelling showed *)

(** The configured fraction reaches the Krum behind the filter and not the filter
    itself, which keeps its own default whatever is configured. *)
Theorem flanders_ignores_configured_fraction (params : AggregatorParams) :
  ∃ self : FlandersAggregator (KrumFilter * SampleCountWeighting),
    build "flanders" params = Ok (Box (Flanders_aggregator sort_unordered) self) ∧
    fl_byzantine_fraction self = f32_lit 2 10 ∧
    krum_byzantine_fraction (fl_base self).1 = ap_byzantine_fraction params.
Proof. eexists. split; [reflexivity|]. done. Qed.

(** The registry lists [robust_byzantine_fraction] among what Median-of-Means
    reads, and building it reads nothing. *)
Theorem median_of_means_reads_no_parameter :
  (∃ entry, entry ∈ shipped_entries ∧ entry_name entry = "median_of_means"%string ∧
     entry_params entry = ["robust_byzantine_fraction"%string]) ∧
  ∀ p p', build "median_of_means" p = build "median_of_means" p'.
Proof.
  split; [|reflexivity].
  exists (aggregator_entry "median_of_means" "robust" ["robust_byzantine_fraction"%string]).
  split; [|done]. apply list_elem_of_In. simpl. tauto.
Qed.
End properties.

(** ** Concrete names *)

Lemma catalog_matches_registry_witness :
  let build := build_aggregator (λ x, x) (λ x _, x) leave_unordered in
  (is_ok (build "krum"%string AggregatorParams_default) = true ↔
     is_Some (lookup_strategy (reverse shipped_entries) Kind_Aggregator "krum")) ∧
  build "krum"%string AggregatorParams_default ≠ Panic ∧
  (∀ e, build "krum"%string AggregatorParams_default = Err e →
     e = if decide ("krum" = "fedprox")%string then ClientSideOnly "fedprox" else UnknownAggregator "krum").
Proof.
  apply (catalog_matches_registry (λ x, x) (λ x _, x) leave_unordered (reverse shipped_entries) "krum"
           AggregatorParams_default). apply reverse_Permutation.
Defined.

Lemma listed_parameters_suffice_witness :
  let p := AggregatorParams_default in
  let p' := {| ap_byzantine_fraction := f32_zero; ap_clip_radius := ap_clip_radius p;
               ap_server_learning_rate := Some f32_one; ap_server_tau := None; ap_server_momentum := None;
               ap_fairness_q := None; ap_server_lipschitz := None; ap_scaffold_num_clients := Some 5;
               ap_zeno_rho := None |} in
  build_aggregator (λ x, x) (λ x _, x) leave_unordered "centered_clipping" p =
  build_aggregator (λ x, x) (λ x _, x) leave_unordered "centered_clipping" p'.
Proof.
  apply (listed_parameters_suffice (λ x, x) (λ x _, x) leave_unordered
    (aggregator_entry "centered_clipping" "temporal" ["clip_radius"%string])).
  - apply list_elem_of_filter. split; [reflexivity|].
    repeat first [apply list_elem_of_here | apply list_elem_of_further].
  - apply Forall_cons. split; [reflexivity|apply Forall_nil_2].
Defined.

(** A FedAdam server after one round. *)
Definition default_adam : BoxedAggregator := fedopt_box Adam AggregatorParams_default.

Lemma built_methods_keep_contract_witness :
  let m' := (aggregate default_adam two_deltas).1 in
  let r := (aggregate m' spread_batch).2 in
  r ≠ Panic ∧ (spread_batch = [] → r = Err EmptyBatch) ∧
  (∀ e, spread_batch ≠ [] → decode_and_validate spread_batch = Err e → r = Err e) ∧
  (∀ out, r = Ok out →
     ∃ ds, decode_and_validate spread_batch = Ok ds ∧ ds ≠ [] ∧ Forall (λ w, length w = length out) ds).
Proof.
  apply (built_methods_keep_contract (λ x, x) (λ x _, x) leave_unordered "fedadam" AggregatorParams_default
    default_adam (aggregate default_adam two_deltas).1 spread_batch).
  - reflexivity.
  - intros _. exact Logic.I.
  - apply (bool_decide_unpack _). vm_compute. reflexivity.
  - apply reached_round, reached_start.
Defined.

Lemma sidecar_needs_exact_witness :
  requires_trusted_reference (aggregate default_adam two_deltas).1 = String.eqb "fedadam" "fltrust" ∧
  requires_candidate_scores (aggregate default_adam two_deltas).1 = String.eqb "fedadam" "zeno" ∧
  ("fedadam"%string ≠ "scaffold"%string → agg_control_variate (aggregate default_adam two_deltas).1 = None).
Proof.
  apply (sidecar_needs_exact (λ x, x) (λ x _, x) leave_unordered "fedadam" AggregatorParams_default default_adam).
  - reflexivity.
  - apply reached_round, reached_start.
Defined.
