(* ===== verification/Registry.v ===== *)
(** * Client registry, node allow-list and client selection
      ([conflux-registry/src/lib.rs], [conflux-registry/src/node_allowlist.rs],
      [conflux-selector/src/lib.rs])

    The in-memory registry is a map from a client's id to the instants of its
    registration and last heartbeat; the allow-list a map to the identity it
    must present; the selector a seeded sampler over the active clients.  The
    order in which a hash map lists its keys and the sampler of the [rand]
    crate are parameters. *)

From S2P Require Import Prelude Float Wire.

Open Scope Z_scope.

(** ** Registry *)

Inductive RegistryError : Type :=
  | AlreadyRegistered (id : string)
  | NotRegistered (id : string)
  | RegistryBackend (message : string).

(** Instants and durations are in nanoseconds. *)
Record ClientInfo := { registered_at : Z; last_heartbeat : Z }.

Notation InMemoryRegistry := (gmap string ClientInfo).

Definition register (now : Z) (id : string) (clients : InMemoryRegistry)
    : InMemoryRegistry * outcome RegistryError () :=
  match clients !! id with
  | Some _ => (clients, Err (AlreadyRegistered id))
  | None => (<[id := {| registered_at := now; last_heartbeat := now |}]> clients, Ok ())
  end.

Definition heartbeat (now : Z) (id : string) (clients : InMemoryRegistry)
    : InMemoryRegistry * outcome RegistryError () :=
  match clients !! id with
  | Some info => (<[id := {| registered_at := registered_at info; last_heartbeat := now |}]> clients, Ok ())
  | None => (clients, Err (NotRegistered id))
  end.

(** [Instant::duration_since] saturates at zero. *)
Definition duration_since (now earlier : Z) : Z := Z.max 0 (now - earlier).

Definition evict_expired (now ttl : Z) (clients : InMemoryRegistry) : InMemoryRegistry :=
  base.filter (λ p, duration_since now (last_heartbeat p.2) < ttl) clients.

(** The iteration order of a [HashMap]: some permutation of its keys. *)
Class HashOrder := hash_order : list string → list string.
Class HashOrderLaws (H : HashOrder) := hash_order_perm l : hash_order l ≡ₚ l.

Section ordered.
Context `{H : HashOrder}.

Definition active_clients (clients : InMemoryRegistry) : list string :=
  hash_order (map fst (map_to_list clients)).

Context `{!HashOrderLaws H}.

Lemma elem_of_active_clients clients id : id ∈ active_clients clients ↔ is_Some (clients !! id).
Proof.
  unfold active_clients. rewrite (hash_order_perm (H:=H)), list_elem_of_In, in_map_iff. split.
  - intros ([k i] & <- & Hin%list_elem_of_In). exists i. by apply elem_of_map_to_list.
  - intros [i Hi]. exists (id, i). split; [done|]. apply list_elem_of_In. by apply elem_of_map_to_list.
Qed.

Lemma NoDup_active_clients clients : NoDup (active_clients clients).
Proof. unfold active_clients. rewrite (hash_order_perm (H:=H)). apply NoDup_fst_map_to_list. Qed.
End ordered.

(** ** The life of a registry as a sequence of timed operations *)

Inductive registry_op : Type :=
  | op_register (id : string)
  | op_heartbeat (id : string)
  | op_evict (ttl : Z).

Definition registry_step (now : Z) (op : registry_op) (clients : InMemoryRegistry) : InMemoryRegistry :=
  match op with
  | op_register id => (register now id clients).1
  | op_heartbeat id => (heartbeat now id clients).1
  | op_evict ttl => evict_expired now ttl clients
  end.

Definition registry_run (ops : list (Z * registry_op)) (clients : InMemoryRegistry) : InMemoryRegistry :=
  foldl (λ clients '(now, op), registry_step now op clients) clients ops.

(** The time of the last operation that proves a client alive. *)
Definition touches (id : string) (op : registry_op) : bool :=
  match op with op_register i | op_heartbeat i => bool_decide (i = id) | op_evict _ => false end.

Lemma evict_expired_lookup now ttl clients id i :
  evict_expired now ttl clients !! id = Some i ↔
  clients !! id = Some i ∧ duration_since now (last_heartbeat i) < ttl.
Proof. unfold evict_expired. apply map_lookup_filter_Some. Qed.

(** Each entry was registered no later than its last sign of life, which is no
    later than the present. *)
Definition registry_inv (now : Z) (clients : InMemoryRegistry) : Prop :=
  map_Forall (λ _ i, registered_at i ≤ last_heartbeat i ∧ last_heartbeat i ≤ now) clients.

Lemma registry_step_inv now now' op clients :
  registry_inv now clients → now ≤ now' → registry_inv now' (registry_step now' op clients).
Proof.
  unfold registry_inv. intros Hinv Hle. assert (Hinv' : registry_inv now' clients).
  { intros id i Hi. specialize (Hinv id i Hi). simpl in *. lia. }
  destruct op as [id|id|ttl]; simpl.
  - unfold register. destruct (clients !! id); [done|]. simpl.
    apply map_Forall_insert_2; [simpl; lia|done].
  - unfold heartbeat. destruct (clients !! id) as [i|] eqn:Hi; [|done]. simpl.
    apply map_Forall_insert_2; [|done]. specialize (Hinv id i Hi). simpl in *. lia.
  - intros id i [Hi _]%evict_expired_lookup. by apply (Hinv' id).
Qed.

(** ** Node allow-list *)

Inductive NodeIdentity : Type :=
  | CertFingerprint (digest : string)
  | SharedToken (token : string).

#[export] Instance NodeIdentity_eq_dec : EqDecision NodeIdentity.
Proof. solve_decision. Defined.

(** A [u8]; [a ^ b] and [diff |= x] on it. *)
Definition as_bytes (s : string) : list Z :=
  map (λ a, Z.of_N (Ascii.N_of_ascii a)) (String.list_ascii_of_string s).

Definition constant_time_eq (a b : list Z) : bool :=
  if negb (length a =? length b)%nat then false
  else foldl (λ diff '(x, y), Z.lor diff (Z.lxor x y)) 0 (zip a b) =? 0.

Definition matches (self presented : NodeIdentity) : bool :=
  match self, presented with
  | CertFingerprint a, CertFingerprint b | SharedToken a, SharedToken b =>
      constant_time_eq (as_bytes a) (as_bytes b)
  | _, _ => false
  end.

Notation InMemoryNodeAllowlist := (gmap string NodeIdentity).

Definition allow (id : string) (identity : NodeIdentity) (entries : InMemoryNodeAllowlist)
  : InMemoryNodeAllowlist := <[id := identity]> entries.
Definition revoke (id : string) (entries : InMemoryNodeAllowlist) : InMemoryNodeAllowlist :=
  delete id entries.
Definition check (id : string) (presented : NodeIdentity) (entries : InMemoryNodeAllowlist) : bool :=
  match entries !! id with Some stored => matches stored presented | None => false end.
Definition list_allowed `{HashOrder} (entries : InMemoryNodeAllowlist) : list string :=
  hash_order (map fst (map_to_list entries)).

Lemma fold_lor_zero l d :
  (foldl (λ diff '(x, y), Z.lor diff (Z.lxor x y)) d l =? 0) = true ↔
  d = 0 ∧ Forall (λ p : Z * Z, p.1 = p.2) l.
Proof.
  revert d. induction l as [|[x y] l IH]; intros d; simpl.
  - rewrite Z.eqb_eq. split; [by split; [|constructor]|by intros []].
  - rewrite IH, Z.lor_eq_0_iff, Z.lxor_eq_0_iff, Forall_cons. simpl. naive_solver.
Qed.

Lemma constant_time_eq_spec a b : constant_time_eq a b = true ↔ a = b.
Proof.
  unfold constant_time_eq. destruct (length a =? length b)%nat eqn:Hl; simpl.
  - apply Nat.eqb_eq in Hl. rewrite fold_lor_zero. split; [|intros ->; split; [done|]].
    + intros [_ H]. revert b Hl H. induction a as [|x a IH]; intros [|y b]; simpl; try done.
      intros [= Hl] [Hxy H]%Forall_cons. simpl in Hxy. subst. f_equal. by apply IH.
    + induction b; simpl; constructor; auto.
  - apply Nat.eqb_neq in Hl. split; [done|congruence].
Qed.

Lemma as_bytes_inj a b : as_bytes a = as_bytes b → a = b.
Proof.
  unfold as_bytes. intros H.
  assert (Hl : String.list_ascii_of_string a = String.list_ascii_of_string b).
  { revert H. generalize (String.list_ascii_of_string a), (String.list_ascii_of_string b).
    intros l. induction l as [|x l IH]; intros [|y k]; simpl; try done.
    intros Hc. injection Hc as Hxy H. f_equal; [|by apply IH].
    rewrite <-(Ascii.ascii_N_embedding x), <-(Ascii.ascii_N_embedding y). f_equal.
    by apply N2Z.inj. }
  rewrite <-(String.string_of_list_ascii_of_string a), Hl.
  apply String.string_of_list_ascii_of_string.
Qed.

Lemma matches_spec a b : matches a b = true ↔ a = b.
Proof.
  destruct a as [a|a], b as [b|b]; simpl; try done.
  all: rewrite constant_time_eq_spec; split; [by intros ->%as_bytes_inj|by intros [= ->]].
Qed.

(** ** Client selection *)

Inductive SelectionSeed : Type := Fixed (seed : Z) | OsRandom.

(** [StdRng] and the thread's generator, and [IndexedRandom::sample] with
    them: the [rand] crate's, named by what the code uses of it. *)
Class Sampler := {
  rng : Type;
  seed_from_u64 : Z → rng;
  sample : rng → list string → nat → list string;
}.

(** Its documentation: [n] distinct positions of the slice, or all of them. *)
Class SamplerLaws (S : Sampler) := {
  sample_submseteq r l n : sample r l n ⊆+ l;
  sample_length r l n : length (sample r l n) = Nat.min n (length l);
}.

Record UniformRandomSelector := { selection_seed : SelectionSeed }.

(** [os_rng] is the state of the thread's own generator at the call. *)
Definition select `{Sampler} (self : UniformRandomSelector) (os_rng : rng)
    (candidates : list string) (n : nat) (round : Z) : list string :=
  match selection_seed self with
  | Fixed seed => sample (seed_from_u64 (u64_wrapping_add seed round)) candidates n
  | OsRandom => sample os_rng candidates n
  end.

Inductive SelectorBuildError : Type := UnknownSelector (name : string).

Definition build_selector (name : string) (seed : SelectionSeed)
    : outcome SelectorBuildError UniformRandomSelector :=
  if decide (name = "uniform_random"%string) then Ok {| selection_seed := seed |}
  else Err (UnknownSelector name).

(** ** Properties *)

(** The registry's verdicts are exact.  A client is listed, once, iff it is
    registered; registering twice and beating for an unknown client are refused
    and change nothing; eviction drops exactly the clients whose last sign of
    life is [ttl] old or older, and an evicted client may register again. *)
Theorem registry_operations_exact `{H : HashOrder} `{!HashOrderLaws H}
    (now ttl : Z) (id : string) (clients : InMemoryRegistry) :
  NoDup (active_clients clients) ∧
  (id ∈ active_clients clients ↔ is_Some (clients !! id)) ∧
  (id ∈ active_clients clients →
     register now id clients = (clients, Err (AlreadyRegistered id)) ∧
     is_ok (heartbeat now id clients).2 = true) ∧
  (id ∉ active_clients clients →
     heartbeat now id clients = (clients, Err (NotRegistered id)) ∧
     id ∈ active_clients (register now id clients).1) ∧
  (id ∈ active_clients (evict_expired now ttl clients) ↔
     ∃ i, clients !! id = Some i ∧ duration_since now (last_heartbeat i) < ttl) ∧
  (id ∉ active_clients (evict_expired now ttl clients) →
     (register now id (evict_expired now ttl clients)).2 = Ok ()).
Proof.
  split; [apply (NoDup_active_clients (H:=H))|].
  setoid_rewrite (elem_of_active_clients (H:=H)).
  split; [done|]. split; [|split; [|split]].
  - intros [i Hi]. unfold register, heartbeat. by rewrite Hi.
  - intros Hn. assert (clients !! id = None) as Hi by (by apply eq_None_not_Some).
    unfold register, heartbeat. rewrite Hi. split; [done|]. simpl. by rewrite lookup_insert_eq.
  - split; [intros [i Hi%evict_expired_lookup]; eauto|].
    intros (i & Hi). exists i. by apply evict_expired_lookup.
  - intros Hn. unfold register. destruct (evict_expired now ttl clients !! id) eqn:He; [|done].
    exfalso. apply Hn. eauto.
Qed.

#[local] Instance id_order : HashOrder := λ l, l.
#[local] Instance id_order_laws : HashOrderLaws id_order.
Proof. intros l. apply Permutation_refl. Qed.

Lemma registry_operations_exact_witness :
  "c1"%string ∈ active_clients (evict_expired 5 10 (register 0 "c1" ∅).1).
Proof.
  destruct (registry_operations_exact 5 10 "c1" (register 0 "c1" ∅).1) as (_ & _ & _ & _ & H & _).
  apply H. exists {| registered_at := 0; last_heartbeat := 0 |}. split; [reflexivity|].
  vm_compute. reflexivity.
Defined.

(** Over any run of timed operations on an empty registry, entries stay
    consistent with the clock, and a client that registers or beats survives
    every eviction whose [ttl] exceeds the time since. *)
Theorem registry_keeps_live_clients (ops : list (Z * registry_op)) (t0 : Z) :
  StronglySorted (λ p q, p.1 ≤ q.1) ops → Forall (λ p, t0 ≤ p.1) ops →
  let now := match last ops with Some p => p.1 | None => t0 end in
  registry_inv now (registry_run ops ∅) ∧
  ∀ id ttl i, registry_run ops ∅ !! id = Some i →
    (evict_expired now ttl (registry_run ops ∅) !! id = Some i ↔ now - last_heartbeat i < ttl ∧ 0 < ttl).
Proof.
  intros Hs Hall now. assert (Hinv : registry_inv now (registry_run ops ∅)).
  { subst now. induction ops as [|[t op] ops IH] using rev_ind; [by apply map_Forall_empty|].
    unfold registry_run in *. rewrite foldl_app, last_snoc. simpl.
    apply Forall_app in Hall as [Hall [Ht _]%Forall_cons].
    assert (Hss : StronglySorted (λ p q : Z * registry_op, p.1 ≤ q.1) ops ∧
                  Forall (λ p, p.1 ≤ t) ops).
    { clear -Hs. induction ops as [|p ops IH]; simpl in *; [by split; constructor|].
      inversion Hs as [|?? Hs' Hp]; subst. destruct (IH Hs') as [? ?].
      apply Forall_app in Hp as [Hp [Hpt _]%Forall_cons]. split; constructor; auto. }
    destruct Hss as [Hss Hle]. eapply registry_step_inv; [by apply IH|].
    destruct (last ops) as [[t' op']|] eqn:Hlast; [|done].
    rewrite Forall_forall in Hle. apply (Hle (t', op')).
    by apply last_Some in Hlast as [l ->]; set_solver. }
  split; [done|]. intros id ttl i Hi. rewrite evict_expired_lookup.
  specialize (Hinv id i Hi). simpl in Hinv. unfold duration_since. naive_solver lia.
Qed.

Lemma registry_keeps_live_clients_witness :
  let ops := [(1, op_register "a"); (5, op_heartbeat "a"); (7, op_register "b")] in
  registry_inv 7 (registry_run ops ∅) ∧
  ∀ id ttl i, registry_run ops ∅ !! id = Some i →
    (evict_expired 7 ttl (registry_run ops ∅) !! id = Some i ↔ 7 - last_heartbeat i < ttl ∧ 0 < ttl).
Proof.
  apply (registry_keeps_live_clients
    [(1, op_register "a"); (5, op_heartbeat "a"); (7, op_register "b")] 0).
  - repeat (constructor; simpl; try lia).
  - repeat (constructor; simpl; try lia).
Defined.

(** The allow-list admits a client exactly when it was allowed, was not
    revoked since, and presents the identity it was last allowed with: the
    constant-time comparison, an OR of XORs over every byte, is equality, and a
    token never passes for a certificate. *)
Theorem allowlist_check_exact (id id' : string) (identity presented : NodeIdentity)
    (entries : InMemoryNodeAllowlist) :
  (check id presented entries = true ↔ entries !! id = Some presented) ∧
  (check id presented (allow id identity entries) = true ↔ presented = identity) ∧
  check id presented (revoke id entries) = false ∧
  (id ≠ id' → check id presented (allow id' identity entries) = check id presented entries ∧
              check id presented (revoke id' entries) = check id presented entries).
Proof.
  unfold check, allow, revoke. split; [|split; [|split]].
  - destruct (entries !! id) as [s|]; [|done]. rewrite matches_spec. split; congruence.
  - rewrite lookup_insert_eq, matches_spec. done.
  - by rewrite lookup_delete_eq.
  - intros Hne. by rewrite lookup_insert_ne, lookup_delete_ne.
Qed.

Lemma allowlist_check_exact_witness :
  check "n" (SharedToken "s") (revoke "m" (allow "n" (SharedToken "s") ∅)) = true.
Proof.
  destruct (allowlist_check_exact "n" "m" (SharedToken "s") (SharedToken "s")
              (allow "n" (SharedToken "s") ∅)) as (_ & _ & _ & H).
  destruct (H ltac:(done)) as [_ ->]. vm_compute. reflexivity.
Defined.

(** A selection never invents or repeats a client: it is drawn from the
    candidates, distinct when they are, and has [min n (number of candidates)]
    members; with a fixed seed it depends on nothing but the candidate list, [n]
    and the sum of seed and round modulo [2^64]. *)
Theorem selection_within_candidates `{S : Sampler} `{!SamplerLaws S}
    (self : UniformRandomSelector) (os_rng os_rng' : rng) (candidates : list string) (n : nat) (round : Z) :
  NoDup candidates →
  let chosen := select self os_rng candidates n round in
  NoDup chosen ∧ (∀ id, id ∈ chosen → id ∈ candidates) ∧
  length chosen = Nat.min n (length candidates) ∧
  (∀ seed seed' round', selection_seed self = Fixed seed →
     (seed + round) mod 2 ^ 64 = (seed' + round') mod 2 ^ 64 →
     chosen = select {| selection_seed := Fixed seed' |} os_rng' candidates n round').
Proof.
  intros Hnd chosen.
  assert (Hsub : chosen ⊆+ candidates) by (unfold chosen, select; case_match; apply sample_submseteq).
  split; [|split; [|split]].
  - apply submseteq_Permutation in Hsub as [rest Hperm]. rewrite Hperm in Hnd.
    by apply NoDup_app in Hnd as [? _].
  - intros id Hid. by eapply elem_of_submseteq.
  - unfold chosen, select. case_match; apply sample_length.
  - intros seed seed' round' Hseed Heq. unfold chosen, select, u64_wrapping_add.
    rewrite Hseed. simpl. by rewrite Heq.
Qed.

(** A sampler that takes the first [n]. *)
Definition prefix_sampler : Sampler :=
  {| rng := Z; seed_from_u64 := λ s, s; sample := λ _ l n, take n l |}.

Lemma prefix_sampler_laws : SamplerLaws prefix_sampler.
Proof.
  split; simpl.
  - intros _ l n. rewrite <-(take_drop n l) at 2. by apply submseteq_inserts_r.
  - intros. apply length_take.
Qed.

Lemma selection_within_candidates_witness :
  let chosen := select (H:=prefix_sampler) {| selection_seed := Fixed 7 |} 0
                  ["a"%string; "b"%string; "c"%string] 2 3 in
  length chosen = 2%nat ∧ NoDup chosen.
Proof.
  destruct (selection_within_candidates (S:=prefix_sampler) (SamplerLaws0:=prefix_sampler_laws)
    {| selection_seed := Fixed 7 |} 0 0 ["a"%string; "b"%string; "c"%string] 2 3)
    as (Hnd & _ & Hlen & _).
  - repeat (constructor; [set_solver|]). constructor.
  - split; [exact Hlen|exact Hnd].
Defined.
