(* ===== verification/Reputation.v ===== *)
(** * Contribution scoring ([conflux-reputation/src/lib.rs]) *)

From S2P Require Import Prelude Float Wire Temporal.

Open Scope Z_scope.

Class ContributionScorer (C : Type) := { score : C → list f32 → list f32 → f32 }.

Definition l2_norm (v : list f32) : f32 := f32_sqrt (f32_sum (map (λ x, x * x)%f32 v)).

Inductive CosineScorer : Type := cosine_scorer.

Definition cosine_score (update reference : list f32) : f32 :=
  if negb (length update =? length reference)%nat then f32_nan
  else
    let dot := f32_sum (map (λ '(a, b), a * b)%f32 (zip update reference)) in
    let norm_update := l2_norm update in
    let norm_reference := l2_norm reference in
    if (norm_update =? f32_zero)%f32 || (norm_reference =? f32_zero)%f32 then f32_zero
    else (dot / (norm_update * norm_reference))%f32.

#[export] Instance CosineScorer_score : ContributionScorer CosineScorer := {| score _ := cosine_score |}.

Definition filter_by_threshold `{ContributionScorer C} (updates : list (string * list f32))
    (reference : list f32) (scorer : C) (min_score : f32) : list string :=
  omap (λ '(id, weights),
    if (min_score <=? score scorer weights reference)%f32 then Some id else None) updates.

Lemma elem_of_filter_by_threshold `{ContributionScorer C} updates reference (scorer : C) t id :
  id ∈ filter_by_threshold updates reference scorer t ↔
  ∃ w, (id, w) ∈ updates ∧ (t <=? score scorer w reference)%f32 = true.
Proof.
  unfold filter_by_threshold. rewrite list_elem_of_omap. split.
  - intros ([i w] & Hin & Hi). case_match eqn:Hs; [|done]. injection Hi as ->. eauto.
  - intros (w & Hin & Hs). exists (id, w). split; [done|]. by rewrite Hs.
Qed.

(** A score that is not a number never passes, whatever the threshold. *)
Lemma nan_never_passes t x : f32_is_nan x = true → (t <=? x)%f32 = false.
Proof.
  unfold f32_is_nan, f32_leb, SFleb. destruct (sf x); try done. intros _. by destruct (sf t) as [| | |[]].
Qed.

(** ** Properties *)

(** The reputation filter keeps exactly the updates whose score reaches the
    threshold, in their order, and an update of the wrong dimension, whose
    cosine is not a number, never passes whatever the threshold. *)
Theorem reputation_filter_exact (updates : list (string * list f32)) (reference : list f32) (t : f32) :
  filter_by_threshold updates reference cosine_scorer t =
    map fst (base.filter (λ p, (t <=? cosine_score p.2 reference)%f32 = true) updates) ∧
  (∀ id, id ∈ filter_by_threshold updates reference cosine_scorer t →
     ∃ w, (id, w) ∈ updates ∧ length w = length reference).
Proof.
  split.
  - induction updates as [|[id w] updates IH]; [done|]. rewrite filter_cons. simpl.
    unfold filter_by_threshold in *. simpl in *. rewrite IH.
    destruct (t <=? cosine_score w reference)%f32; [by rewrite decide_True|by rewrite decide_False].
  - intros id (w & Hin & Hs)%elem_of_filter_by_threshold. exists w. split; [done|].
    simpl in Hs. unfold cosine_score in Hs.
    destruct (length w =? length reference)%nat eqn:Hl; [by apply Nat.eqb_eq|].
    simpl in Hs. by rewrite nan_never_passes in Hs.
Qed.
