(* ===== verification/Privacy.v ===== *)
(** * Differential privacy ([conflux-privacy/src/lib.rs])

    Clipping and Gaussian noise on one update, and the Renyi accountant: the
    history of (noise multiplier, sampling rate) pairs, for the whole run and
    per client, and the epsilon it amounts to.  The natural logarithm and the
    exponential are the standard library's, the Gaussian sampler the
    [rand_distr] crate's, and the order in which a hash map lists its values is
    its own; all four are parameters. *)

From S2P Require Import Prelude Float Wire Trusted Temporal Reputation.

Open Scope Z_scope.

(** ** The mechanism *)

Record GaussianClippingPrivacy := { clip_norm : f32; noise_multiplier : f32 }.

Definition GaussianClippingPrivacy_default : GaussianClippingPrivacy :=
  {| clip_norm := f32_one; noise_multiplier := f32_one |}.

Definition clip (self : GaussianClippingPrivacy) (weights : list f32) : list f32 :=
  let norm := l2_norm weights in
  if (clip_norm self <? norm)%f32 && (f32_zero <? norm)%f32
  then let scale := (clip_norm self / norm)%f32 in map (λ w, w * scale)%f32 weights
  else weights.

(** [rand_distr]: whether [Normal::new(0.0, std_dev)] succeeds, and a sample. *)
Class Gaussian := {
  gen : Type;
  normal_new : f64 → bool;
  normal : f64 → gen → f64 * gen;
}.

(** Its documentation: a finite standard deviation is accepted. *)
Class GaussianLaws (G : Gaussian) := normal_new_finite d : sf_is_finite d = true → normal_new d = true.

Fixpoint noisy `{Gaussian} (std_dev : f64) (weights : list f32) (rng : gen) : list f32 * gen :=
  match weights with
  | [] => ([], rng)
  | w :: weights =>
      let '(x, rng) := normal std_dev rng in
      let '(ws, rng) := noisy std_dev weights rng in
      ((w + f32_of_f64 x)%f32 :: ws, rng)
  end.

Definition std_dev (self : GaussianClippingPrivacy) : f64 :=
  f64_of_f32 (noise_multiplier self * clip_norm self)%f32.

(** The [expect] on [Normal::new] panics when the distribution is refused. *)
Definition add_noise `{Gaussian} {E} (self : GaussianClippingPrivacy) (weights : list f32) (rng : gen)
    : outcome E (list f32 * gen) :=
  if SFleb (std_dev self) f64_zero || sf_is_nan (std_dev self) then Ok (weights, rng)
  else if normal_new (std_dev self) then Ok (noisy (std_dev self) weights rng)
  else Panic.

Definition transform `{Gaussian} {E} (self : GaussianClippingPrivacy) (weights : list f32) (rng : gen)
    : outcome E (list f32 * gen) :=
  add_noise self (clip self weights) rng.

(** The mechanism can run: there is no noise to draw, or it can be drawn. *)
Definition noise_ok `{Gaussian} (self : GaussianClippingPrivacy) : Prop :=
  SFleb (std_dev self) f64_zero || sf_is_nan (std_dev self) || normal_new (std_dev self) = true.

Lemma length_clip self weights : length (clip self weights) = length weights.
Proof. unfold clip. case_match; [apply length_map|done]. Qed.

Lemma length_noisy `{Gaussian} d ws r : length (noisy d ws r).1 = length ws.
Proof.
  revert r. induction ws as [|w ws IH]; intros r; simpl; [done|].
  destruct (normal d r) as [x r1]. specialize (IH r1). destruct (noisy d ws r1). simpl in *. lia.
Qed.

Lemma length_transform `{Gaussian} {E} self weights rng ws rng' :
  transform (E:=E) self weights rng = Ok (ws, rng') → length ws = length weights.
Proof.
  unfold transform, add_noise. case_match; [intros [= <- _]; apply length_clip|].
  case_match; [|done]. intros [= Hn]. rewrite <-(length_clip self weights).
  pose proof (length_noisy (std_dev self) (clip self weights) rng) as Hl. by rewrite Hn in Hl.
Qed.

Lemma transform_total `{Gaussian} {E} self weights rng :
  noise_ok self → ∃ ws rng', transform (E:=E) self weights rng = Ok (ws, rng').
Proof.
  unfold noise_ok, transform, add_noise. destruct (_ || sf_is_nan _); [intros _; by eexists _, _|].
  simpl. intros ->. destruct (noisy _ _ _) as [ws rng']. by eexists _, _.
Qed.

Lemma transform_no_err `{Gaussian} {E} self weights rng (e : E) : transform self weights rng ≠ Err e.
Proof. unfold transform, add_noise. by repeat case_match. Qed.

Inductive PrivacyMechanismBuildError : Type := UnknownMechanism (name : string).

Definition build_privacy_mechanism (name : string) (clip_norm noise_multiplier : f32)
    : outcome PrivacyMechanismBuildError GaussianClippingPrivacy :=
  if decide (name = "gaussian_clipping"%string)
  then Ok {| clip_norm := clip_norm; noise_multiplier := noise_multiplier |}
  else Err (UnknownMechanism name).

(** ** The accountant *)

(** [RDP_ORDERS], each a quarter multiple. *)
Definition RDP_ORDERS : list f64 :=
  map (λ n, f64_lit n 4)
    [5; 6; 7; 8; 10; 12; 16; 20; 24; 32; 40; 48; 64; 80; 96; 128; 192; 256; 384; 512; 768; 1024].

Definition f64_infinity : f64 := S754_infinity false.
Definition f64_neg_infinity : f64 := S754_infinity true.

(** [x.fract() == 0.0] and [x as u32] of a finite number at least 2. *)
Definition f64_is_integer (x : f64) : bool :=
  match x with
  | S754_zero _ => true
  | S754_finite _ m e => (0 <=? e) || (Zpos m mod 2 ^ (- e) =? 0)
  | _ => false
  end.
Definition f64_as_u32 (x : f64) : Z := Z.min u32_max (sf_floor_to_u64 x).

Record RdpAccountant := {
  rounds : list (f32 * f32);
  client_rounds : gmap string (list (f32 * f32));
}.

Definition RdpAccountant_new : RdpAccountant := {| rounds := []; client_rounds := ∅ |}.

Definition record_round (noise_multiplier sample_rate : f32) (self : RdpAccountant) : RdpAccountant :=
  {| rounds := rounds self ++ [(noise_multiplier, sample_rate)]; client_rounds := client_rounds self |}.

Definition record_round_for_client (client_id : string) (noise_multiplier sample_rate : f32)
    (self : RdpAccountant) : RdpAccountant :=
  {| rounds := rounds self;
     client_rounds :=
       <[client_id := default [] (client_rounds self !! client_id) ++ [(noise_multiplier, sample_rate)]]>
         (client_rounds self) |}.

(** The entry of a configuration in [by_config]: its (sigma, q) and its count, a [u32]
    that wraps in the build that ships (and would stop a checked one). *)
Definition config_key (p : f32 * f32) : Z * Z := (f32_to_bits p.1, f32_to_bits p.2).

Definition by_config (rounds : list (f32 * f32)) : gmap (Z * Z) (f64 * f64 * Z) :=
  foldl (λ m p,
    match m !! config_key p with
    | Some (sigma, q, count) => <[config_key p := (sigma, q, (count + 1) mod 2 ^ 32)]> m
    | None => <[config_key p := (f64_of_f32 p.1, f64_of_f32 p.2, 1)]> m
    end) ∅ rounds.

Section accountant.
Context (ln exp : f64 → f64).
Context (value_order : list (f64 * f64 * Z) → list (f64 * f64 * Z)).

(** The terms of [ln A(alpha)], with the binomial built up multiplicatively. *)
Fixpoint ln_terms (n k : nat) (order : Z) (alpha ln_binomial ln_q ln_1mq two_sigma_sq : f64) : list f64 :=
  match n with
  | O => []
  | S n =>
      let kz := Z.of_nat k in
      let ln_binomial :=
        if (0 <? k)%nat
        then f64_add ln_binomial (f64_sub (ln (f64_of_Z (order - kz + 1))) (ln (f64_of_Z kz)))
        else ln_binomial in
      let kf := f64_of_Z kz in
      f64_add (f64_add (f64_add ln_binomial (f64_mul (f64_sub alpha kf) ln_1mq)) (f64_mul kf ln_q))
              (f64_div (f64_mul kf (f64_sub kf (f64_of_Z 1))) two_sigma_sq)
      :: ln_terms n (S k) order alpha ln_binomial ln_q ln_1mq two_sigma_sq
  end.

Definition sampled_gaussian_rdp (alpha sigma q : f64) : option f64 :=
  let integer_order := f64_is_integer alpha && SFleb (f64_of_Z 2) alpha in
  let rate_in_unit_interval := SFltb f64_zero q && SFltb q (f64_of_Z 1) in
  let positive_noise := SFltb f64_zero sigma in
  if negb (integer_order && rate_in_unit_interval && positive_noise) then None
  else
    let order := f64_as_u32 alpha in
    let ln_q := ln q in
    let ln_1mq := ln (f64_sub (f64_of_Z 1) q) in
    let two_sigma_sq := f64_mul (f64_mul (f64_of_Z 2) sigma) sigma in
    let terms := ln_terms (Z.to_nat order + 1) 0 order alpha f64_zero ln_q ln_1mq two_sigma_sq in
    let max := foldl f64_max f64_neg_infinity terms in
    if negb (sf_is_finite max) then None
    else
      let sum := f64_sum (map (λ t, exp (f64_sub t max)) terms) in
      let rdp := f64_div (f64_add max (ln sum)) (f64_sub alpha (f64_of_Z 1)) in
      if sf_is_finite rdp then Some (f64_max rdp f64_zero) else None.

Definition rdp_per_round (alpha sigma q : f64) : f64 :=
  let full := f64_div alpha (f64_mul (f64_mul (f64_of_Z 2) sigma) sigma) in
  match sampled_gaussian_rdp alpha sigma q with
  | Some tight => if SFltb tight full then tight else full
  | None => full
  end.

Definition epsilon_at (rounds : list (f32 * f32)) (delta alpha : f64) : f64 :=
  let rdp_total :=
    f64_sum (map (λ '(sigma, q, count), f64_mul (rdp_per_round alpha sigma q) (f64_of_Z count))
               (value_order (map snd (map_to_list (by_config rounds))))) in
  f64_add rdp_total (f64_div (ln (f64_div (f64_of_Z 1) delta)) (f64_sub alpha (f64_of_Z 1))).

Definition epsilon_from_rounds (rounds : list (f32 * f32)) (delta : f64) : f64 :=
  match rounds with
  | [] => f64_zero
  | _ => foldl f64_min f64_infinity (map (epsilon_at rounds delta) RDP_ORDERS)
  end.

Definition current_epsilon (delta : f64) (self : RdpAccountant) : f64 :=
  epsilon_from_rounds (rounds self) delta.

Definition budget_exhausted (target_epsilon delta : f64) (self : RdpAccountant) : bool :=
  SFleb target_epsilon (current_epsilon delta self).

Definition current_epsilon_for_client (client_id : string) (delta : f64) (self : RdpAccountant) : f64 :=
  match client_rounds self !! client_id with
  | Some rounds => epsilon_from_rounds rounds delta
  | None => f64_zero
  end.

Definition budget_exhausted_for_client (client_id : string) (target_epsilon delta : f64)
    (self : RdpAccountant) : bool :=
  SFleb target_epsilon (current_epsilon_for_client client_id delta self).

Lemma f64_min_not_nan x y : sf_is_nan x = false → sf_is_nan (f64_min x y) = false.
Proof. intros Hx. unfold f64_min. rewrite Hx. destruct (sf_is_nan y) eqn:Hy; [done|]. by case_match. Qed.

Lemma foldl_min_not_nan l x : sf_is_nan x = false → sf_is_nan (foldl f64_min x l) = false.
Proof. revert x. induction l as [|y l IH]; intros x Hx; simpl; [done|]. by apply IH, f64_min_not_nan. Qed.

Lemma epsilon_not_nan rounds delta : sf_is_nan (epsilon_from_rounds rounds delta) = false.
Proof. destruct rounds as [|p rounds]; [done|]. by apply foldl_min_not_nan. Qed.

(** The fold keeps the least of the numbers it meets. *)
Lemma f64_min_le_l x y : sf_is_nan x = false → SFleb (f64_min x y) x = true.
Proof.
  intros Hx. unfold f64_min. rewrite Hx. destruct (sf_is_nan y) eqn:Hy; [exact (f32_leb_refl (F x) Hx)|].
  destruct (SFltb y x) eqn:Hlt; [|exact (f32_leb_refl (F x) Hx)].
  destruct (f32_leb_total (F y) (F x) Hy Hx) as [H|H]; [exact H|].
  pose proof (f32_ltb_leb (F y) (F x) Hy Hx) as Hn. rewrite H in Hn.
  unfold f32_ltb in Hn. simpl in Hn. congruence.
Qed.

(** A tighter bound is only ever used when it is smaller. *)
Lemma rdp_per_round_le_full alpha sigma q :
  let full := f64_div alpha (f64_mul (f64_mul (f64_of_Z 2) sigma) sigma) in
  sf_is_nan full = false → SFleb (rdp_per_round alpha sigma q) full = true.
Proof.
  intros full Hfull. unfold rdp_per_round. fold full.
  assert (Hrefl : SFleb full full = true) by exact (f32_leb_refl (F full) Hfull).
  destruct (sampled_gaussian_rdp alpha sigma q) as [tight|]; [|done].
  destruct (SFltb tight full) eqn:Hlt; [|done].
  unfold SFltb in Hlt. unfold SFleb. by destruct (SFcompare tight full) as [[]|].
Qed.

(** Without noise, or with a noise that is not a number, there is no tighter
    bound to take. *)
Lemma sampled_needs_noise alpha sigma q :
  SFltb f64_zero sigma = false → sampled_gaussian_rdp alpha sigma q = None.
Proof. intros H. unfold sampled_gaussian_rdp. rewrite H. by rewrite !andb_false_r. Qed.
End accountant.

(** ** Properties *)

(** *** What [by_config] counts *)

Definition runs_of (k : Z * Z) (rounds : list (f32 * f32)) : list (f32 * f32) :=
  base.filter (λ p, config_key p = k) rounds.

(** Every configuration is counted as often as it ran, under its own (sigma, q). *)
Lemma by_config_lookup rounds k :
  by_config rounds !! k =
  match runs_of k rounds with
  | [] => None
  | p :: _ => Some (f64_of_f32 p.1, f64_of_f32 p.2, Z.of_nat (length (runs_of k rounds)) mod 2 ^ 32)
  end.
Proof.
  unfold by_config. induction rounds as [|p rounds IH] using rev_ind; [done|].
  rewrite foldl_app. simpl. unfold runs_of in *. rewrite filter_app.
  destruct (decide (config_key p = k)) as [Heq|Hne].
  - rewrite filter_cons_True, filter_nil by done. rewrite Heq, IH.
    destruct (base.filter _ rounds) as [|p0 l]; simpl; rewrite lookup_insert_eq; [done|].
    rewrite length_app. simpl. do 2 f_equal. rewrite Zplus_mod_idemp_l. f_equal. lia.
  - rewrite filter_cons_False, filter_nil, app_nil_r by done.
    rewrite <-IH. destruct (foldl _ ∅ rounds !! config_key p) as [[[]]|]; by rewrite lookup_insert_ne.
Qed.

Lemma runs_of_replicate n p : runs_of (config_key p) (replicate n p) = replicate n p.
Proof. unfold runs_of. induction n as [|n IH]; [done|]. simpl. by rewrite filter_cons_True, IH. Qed.

Lemma by_config_uniform n p :
  by_config (replicate (S n) p) =
  {[config_key p := (f64_of_f32 p.1, f64_of_f32 p.2, Z.of_nat (S n) mod 2 ^ 32)]}.
Proof.
  apply map_eq. intros k. rewrite by_config_lookup. destruct (decide (config_key p = k)) as [<-|Hne].
  - rewrite runs_of_replicate, lookup_singleton_eq, length_replicate. done.
  - rewrite lookup_singleton_ne by done.
    assert (runs_of k (replicate (S n) p) = []) as ->; [|done].
    unfold runs_of. generalize (S n). intros m. induction m as [|m IH]; [done|]. simpl. by rewrite filter_cons_False.
Qed.

Lemma by_config_charged rounds p :
  p ∈ rounds → ∃ p0 c, config_key p0 = config_key p ∧ p0 ∈ rounds ∧ 0 ≤ c ∧
    (f64_of_f32 p0.1, f64_of_f32 p0.2, c) ∈ map snd (map_to_list (by_config rounds)).
Proof.
  intros Hp. assert (Hin : p ∈ runs_of (config_key p) rounds) by (by apply list_elem_of_filter).
  pose proof (by_config_lookup rounds (config_key p)) as Hl.
  destruct (runs_of (config_key p) rounds) as [|p0 l] eqn:Hr; [by apply not_elem_of_nil in Hin|].
  assert (Hp0 : p0 ∈ runs_of (config_key p) rounds) by (rewrite Hr; apply list_elem_of_here).
  apply list_elem_of_filter in Hp0 as [Hk Hp0].
  exists p0, (Z.of_nat (length (p0 :: l)) mod 2 ^ 32). split_and!; try done; [by apply Z.mod_pos_bound|].
  apply list_elem_of_In, in_map_iff. eexists (_, _). split; [|apply list_elem_of_In, elem_of_map_to_list, Hl]. done.
Qed.

(** *** A charge that cannot be bounded *)

(** What a sum with an infinite charge comes to: infinity, or a NaN, which the minimum
    over the orders skips. *)
Definition unbounded (x : f64) : Prop := x = f64_infinity ∨ sf_is_nan x = true.

Lemma unbounded_add_l x y : unbounded x → unbounded (f64_add x y).
Proof. intros [->|Hx]; [destruct y as [[]|[]| |[]]|destruct x]; try done; first [by left|by right]. Qed.
Lemma unbounded_add_r x y : unbounded y → unbounded (f64_add x y).
Proof. intros [->|Hy]; [destruct x as [[]|[]| |[]]|destruct y; try done; destruct x]; first [by left|by right]. Qed.

Lemma unbounded_sum l x : x ∈ l → unbounded x → unbounded (f64_sum l).
Proof.
  intros Hin Hx. unfold f64_sum. generalize (S754_zero true). induction l as [|y l IH]; intros z;
    [by apply not_elem_of_nil in Hin|]. simpl. apply elem_of_cons in Hin as [<-|Hin]; [|by apply IH].
  assert (Hz : unbounded (f64_add z x)) by (by apply unbounded_add_r).
  revert Hz. generalize (f64_add z x). clear. induction l as [|y l IH]; intros z Hz; [done|].
  simpl. by apply IH, unbounded_add_l.
Qed.

Lemma unbounded_count c : 0 ≤ c → unbounded (f64_mul f64_infinity (f64_of_Z c)).
Proof.
  intros Hc. unfold f64_of_Z. pose proof (binary_normalize_nonneg 53 1024 c 0 Hc) as Hn.
  destruct (binary_normalize 53 1024 c 0 false) as [[]|[]| |[]]; try done; first [by left|by right].
Qed.

Lemma unbounded_minimum l : Forall unbounded l → foldl f64_min f64_infinity l = f64_infinity.
Proof.
  induction 1 as [|x l Hx _ IH]; [done|]. simpl.
  assert (f64_min f64_infinity x = f64_infinity) as ->; [|done].
  destruct Hx as [->|Hx]; [done|]. by destruct x.
Qed.

Lemma f64_max_zero_nonneg r : sf_is_finite r = true → SFleb f64_zero (f64_max r f64_zero) = true.
Proof. destruct r as [[]|[]| |[] m e]; intros Hr; first [discriminate Hr|vm_compute; reflexivity]. Qed.

Lemma sampled_applies (ln exp : f64 → f64) alpha sigma q tight :
  sampled_gaussian_rdp ln exp alpha sigma q = Some tight →
  f64_is_integer alpha && SFleb (f64_of_Z 2) alpha &&
    (SFltb f64_zero q && SFltb q (f64_of_Z 1)) && SFltb f64_zero sigma = true ∧
  SFleb f64_zero tight = true.
Proof.
  unfold sampled_gaussian_rdp. destruct (_ && SFltb f64_zero sigma); [|done]. cbn [negb]. cbv zeta.
  case_match; [done|]. destruct (sf_is_finite (f64_div _ _)) eqn:Hf; [|done]. intros [= <-]. split; [done|].
  by apply f64_max_zero_nonneg.
Qed.

Lemma zero_key x : f32_wf x → f32_to_bits x = f32_to_bits f32_zero → f64_of_f32 x = f64_zero.
Proof.
  intros Hx Hb. assert (x = f32_zero) as ->; [|done].
  rewrite <-(f32_from_to_bits x Hx), Hb. reflexivity.
Qed.

(** *** Epsilon in closed form *)

Section epsilon.
Context (ln exp : f64 → f64) (value_order : list (f64 * f64 * Z) → list (f64 * f64 * Z)).
Context (order_perm : ∀ l, value_order l ≡ₚ l).

Lemma f64_sum_singleton x : f64_sum [x] = x.
Proof. by destruct x as [[]|[]| |[]]. Qed.

Lemma epsilon_uniform n p delta : Z.of_nat (S n) < 2 ^ 32 →
  epsilon_from_rounds ln exp value_order (replicate (S n) p) delta =
  foldl f64_min f64_infinity
    (map (λ alpha, f64_add
            (f64_mul (rdp_per_round ln exp alpha (f64_of_f32 p.1) (f64_of_f32 p.2)) (f64_of_Z (Z.of_nat (S n))))
            (f64_div (ln (f64_div (f64_of_Z 1) delta)) (f64_sub alpha (f64_of_Z 1))))
       RDP_ORDERS).
Proof.
  intros Hn. change (epsilon_from_rounds ln exp value_order (replicate (S n) p) delta) with
    (foldl f64_min f64_infinity (map (epsilon_at ln exp value_order (replicate (S n) p) delta) RDP_ORDERS)).
  f_equal. apply map_ext. intros alpha. unfold epsilon_at.
  rewrite by_config_uniform, map_to_list_singleton, Z.mod_small by lia. simpl map.
  rewrite (proj1 (Permutation_singleton_r _ _) (order_perm _)). cbn [map]. by rewrite f64_sum_singleton.
Qed.

Lemma rdp_without_noise alpha q : alpha ∈ RDP_ORDERS → rdp_per_round ln exp alpha f64_zero q = f64_infinity.
Proof.
  intros Hin. unfold rdp_per_round. rewrite sampled_needs_noise by done.
  revert alpha Hin. apply Forall_forall. vm_compute. repeat constructor.
Qed.

Lemma epsilon_without_noise rounds delta p :
  Forall (λ p, f32_wf p.1) rounds → p ∈ rounds → p.1 = f32_zero → epsilon_from_rounds ln exp value_order rounds delta = f64_infinity.
Proof.
  intros Hwf Hp Hz. destruct (by_config_charged rounds p Hp) as (p0 & c & Hk & Hp0 & Hc & Hin).
  assert (H0 : f64_of_f32 p0.1 = f64_zero) by 
    (apply zero_key; [by eapply Forall_forall in Hwf|]; unfold config_key in Hk; rewrite Hz in Hk; congruence).
  destruct rounds as [|r rounds]; [by apply not_elem_of_nil in Hp|].
  change (epsilon_from_rounds ln exp value_order (r :: rounds) delta) with
    (foldl f64_min f64_infinity (map (epsilon_at ln exp value_order (r :: rounds) delta) RDP_ORDERS)).
  apply unbounded_minimum, Forall_forall. intros x Hx. apply list_elem_of_In, in_map_iff in Hx as (alpha & <- & Ha).
  unfold epsilon_at. apply unbounded_add_l. rewrite H0 in Hin.
  apply (unbounded_sum _ (f64_mul f64_infinity (f64_of_Z c))); [|by apply unbounded_count].
  apply list_elem_of_In, in_map_iff. exists (f64_zero, f64_of_f32 p0.2, c). split.
  - by rewrite rdp_without_noise by (by apply list_elem_of_In).
  - apply list_elem_of_In. by rewrite order_perm.
Qed.
End epsilon.

(** C40: the accountant charges every round, and fails closed.  In its history every
    configuration counts as often as it ran (up to [u32]).  At an order at which the
    subsampled bound does not apply (the rate is not strictly between 0 and 1, the order
    not an integer from 2, the noise not positive) a round costs exactly
    alpha/(2 sigma^2), and elsewhere that or the subsampled bound, and the latter only when
    it is smaller and not negative.  A
    history of n equal rounds amounts to the least, over the orders, of n such charges
    and the conversion term.  Epsilon is never a NaN, so a budget check always decides; and
    one round on record without noise makes it infinite: every target is then
    exhausted. *)
Theorem accountant_fails_closed (ln exp : f64 → f64) (value_order : list (f64 * f64 * Z) → list (f64 * f64 * Z))
    (rounds : list (f32 * f32)) (delta alpha sigma q : f64) :
  (∀ l, value_order l ≡ₚ l) →
  let full := f64_div alpha (f64_mul (f64_mul (f64_of_Z 2) sigma) sigma) in
  let amplified := f64_is_integer alpha && SFleb (f64_of_Z 2) alpha &&
                   (SFltb f64_zero q && SFltb q (f64_of_Z 1)) && SFltb f64_zero sigma in
  (∀ p, p ∈ rounds → Z.of_nat (length rounds) < 2 ^ 32 → ∃ p0, config_key p0 = config_key p ∧ p0 ∈ rounds ∧
     by_config rounds !! config_key p =
       Some (f64_of_f32 p0.1, f64_of_f32 p0.2, Z.of_nat (length (runs_of (config_key p) rounds)))) ∧
  (amplified = false → rdp_per_round ln exp alpha sigma q = full) ∧
  (let charge := rdp_per_round ln exp alpha sigma q in
   charge = full ∨ (amplified = true ∧ sampled_gaussian_rdp ln exp alpha sigma q = Some charge ∧
     SFltb charge full = true ∧ SFleb f64_zero charge = true)) ∧
  (∀ n p, Z.of_nat (S n) < 2 ^ 32 →
     epsilon_from_rounds ln exp value_order (replicate (S n) p) delta =
     foldl f64_min f64_infinity
       (map (λ alpha, f64_add
               (f64_mul (rdp_per_round ln exp alpha (f64_of_f32 p.1) (f64_of_f32 p.2)) (f64_of_Z (Z.of_nat (S n))))
               (f64_div (ln (f64_div (f64_of_Z 1) delta)) (f64_sub alpha (f64_of_Z 1))))
          RDP_ORDERS)) ∧
  sf_is_nan (epsilon_from_rounds ln exp value_order rounds delta) = false ∧
  (∀ p, Forall (λ p, f32_wf p.1) rounds → p ∈ rounds → p.1 = f32_zero →
     epsilon_from_rounds ln exp value_order rounds delta = f64_infinity ∧
     ∀ target, sf_is_nan target = false → SFleb target (epsilon_from_rounds ln exp value_order rounds delta) = true).
Proof.
  intros Ho full amplified. split_and!.
  - intros p Hp Hlt. pose proof (by_config_lookup rounds (config_key p)) as Hl.
    assert (Hin : p ∈ runs_of (config_key p) rounds) by (by apply list_elem_of_filter).
    destruct (runs_of (config_key p) rounds) as [|p0 l] eqn:Hr; [by apply not_elem_of_nil in Hin|].
    assert (Hp0 : p0 ∈ runs_of (config_key p) rounds) by (rewrite Hr; apply list_elem_of_here).
    apply list_elem_of_filter in Hp0 as [Hk Hp0]. exists p0. split_and!; [done..|].
    rewrite Hl, Z.mod_small; [done|]. rewrite <-Hr.
    pose proof (length_filter (λ p0, config_key p0 = config_key p) rounds). unfold runs_of. lia.
  - intros Ha. unfold rdp_per_round, sampled_gaussian_rdp. unfold amplified in Ha. by rewrite Ha.
  - cbv zeta. unfold rdp_per_round. fold full.
    destruct (sampled_gaussian_rdp ln exp alpha sigma q) as [tight|] eqn:Ht; [|by left].
    destruct (SFltb tight full) eqn:Hlt; [|by left]. right.
    destruct (sampled_applies _ _ _ _ _ _ Ht). by split_and!.
  - intros n p Hn. by apply epsilon_uniform.
  - apply epsilon_not_nan.
  - intros p Hwf Hp Hz. rewrite (epsilon_without_noise _ _ _ Ho _ _ p) by done. split; [done|].
    intros target Ht. by destruct target as [|[]| |[]].
Qed.

Lemma accountant_fails_closed_witness :
  epsilon_from_rounds (λ x, x) (λ x, x) (λ l, l) [(f32_one, f32_one); (f32_zero, f32_one)] (f64_of_Z 1) = f64_infinity.
Proof.
  destruct (accountant_fails_closed (λ x, x) (λ x, x) (λ l, l) [(f32_one, f32_one); (f32_zero, f32_one)] (f64_of_Z 1)
    (f64_of_Z 2) f64_zero f64_zero (λ l, Permutation_refl l)) as (_ & _ & _ & _ & _ & H).
  apply (H (f32_zero, f32_one)); [|right; left|reflexivity].
  constructor; [right; vm_compute; repeat split; congruence|]. repeat constructor.
Defined.

(** Recording is bookkeeping only.  The global history and every client's
    history are appended to in order; a round recorded for one client changes
    neither the global epsilon nor another client's, and a client without
    history has spent nothing. *)
Theorem accountant_histories_independent (ln exp : f64 → f64)
    (value_order : list (f64 * f64 * Z) → list (f64 * f64 * Z))
    (self : RdpAccountant) (id id' : string) (sigma q : f32) (delta : f64) :
  let self' := record_round_for_client id sigma q self in
  rounds (record_round sigma q self) = rounds self ++ [(sigma, q)] ∧
  client_rounds (record_round sigma q self) = client_rounds self ∧
  client_rounds self' !! id = Some (default [] (client_rounds self !! id) ++ [(sigma, q)]) ∧
  current_epsilon ln exp value_order delta self' = current_epsilon ln exp value_order delta self ∧
  (id ≠ id' → current_epsilon_for_client ln exp value_order id' delta self' =
              current_epsilon_for_client ln exp value_order id' delta self) ∧
  current_epsilon_for_client ln exp value_order id delta RdpAccountant_new = f64_zero.
Proof.
  simpl. split; [done|]. split; [done|]. split; [by rewrite lookup_insert_eq|].
  split; [done|]. split; [|done]. intros Hne. unfold current_epsilon_for_client. simpl.
  by rewrite lookup_insert_ne.
Qed.

(** The mechanism keeps the shape of the update and, whenever its noise has
    a finite width, returns; within the clip norm and with a noise of no width it
    is the identity, and a norm that is not a number is left for validation to
    reject. *)
Theorem transform_shape_and_identity `{G : Gaussian} {GL : GaussianLaws G} {E}
    (self : GaussianClippingPrivacy) (weights : list f32) (rng : gen) :
  (∀ ws rng', transform (E:=E) self weights rng = Ok (ws, rng') → length ws = length weights) ∧
  (sf_is_finite (std_dev self) = true → ∃ r, transform (E:=E) self weights rng = Ok r) ∧
  ((clip_norm self <? l2_norm weights)%f32 = false → clip self weights = weights) ∧
  (SFltb f64_zero (std_dev self) = false → transform (E:=E) self weights rng = Ok (clip self weights, rng)).
Proof.
  split; [intros ws rng'; apply length_transform|]. split; [|split].
  - intros Hf. destruct (transform_total (E:=E) self weights rng) as (ws & rng' & ->); [|by eexists].
    unfold noise_ok. rewrite (normal_new_finite _ Hf). by rewrite orb_true_r.
  - intros H. unfold clip. by rewrite H.
  - intros H. unfold transform, add_noise.
    destruct (sf_is_nan (std_dev self)) eqn:Hnan; [by rewrite orb_true_r|].
    pose proof (f32_ltb_leb (F f64_zero) (F (std_dev self)) eq_refl Hnan) as Hl.
    unfold f32_ltb, f32_leb in Hl. simpl sf in Hl. rewrite H in Hl.
    destruct (SFleb (std_dev self) f64_zero); [done|]. done.
Qed.

(** A sampler that always returns one. *)
Definition unit_gaussian : Gaussian :=
  {| gen := nat; normal_new := sf_is_finite; normal := λ _ n, (f64_of_Z 1, S n) |}.

Lemma unit_gaussian_laws : GaussianLaws unit_gaussian.
Proof. by intros d. Qed.

Lemma transform_shape_and_identity_witness :
  transform (H:=unit_gaussian) (E:=Empty_set) {| clip_norm := f32_of_Z 10; noise_multiplier := f32_zero |}
    [f32_of_Z 3; f32_of_Z 4] 0%nat = Ok ([f32_of_Z 3; f32_of_Z 4], 0%nat).
Proof.
  destruct (transform_shape_and_identity (GL:=unit_gaussian_laws) (E:=Empty_set)
    {| clip_norm := f32_of_Z 10; noise_multiplier := f32_zero |} [f32_of_Z 3; f32_of_Z 4] 0%nat)
    as (_ & _ & H1 & H2).
  rewrite H2 by (vm_compute; reflexivity). rewrite H1 by (vm_compute; reflexivity). reflexivity.
Defined.

(** Two finite settings whose product overflows: the noise has infinite width,
    the distribution is refused and the [expect] panics. *)
Lemma noise_panics_on_overflow `{G : Gaussian} :
  normal_new f64_infinity = false →
  let m := {| clip_norm := f32_of_Z (10 ^ 20); noise_multiplier := f32_of_Z (10 ^ 20) |} in
  f32_is_finite (clip_norm m) = true ∧ f32_is_finite (noise_multiplier m) = true ∧
  ∀ E weights rng, transform (E:=E) m weights rng = Panic.
Proof.
  intros Hinf m. split; [vm_compute; reflexivity|]. split; [vm_compute; reflexivity|].
  intros E weights rng. unfold transform, add_noise.
  assert (std_dev m = f64_infinity) as -> by (vm_compute; reflexivity). by rewrite Hinf.
Qed.
