(* ===== verification/Store.v ===== *)
(** * Checkpoint stores ([conflux-store/src/lib.rs])

    The [Store] trait as a class with the law the round pipeline relies on, the
    in-memory store (one checkpoint), and the file store: a directory of
    [checkpoint-<round>.bin] files, written to a temporary name and renamed.
    Which system calls fail, and what a failed or interrupted write leaves in
    the temporary file, are parameters. *)

From S2P Require Import Prelude Float Wire.
From Stdlib Require Import Ascii.

Open Scope Z_scope.

Inductive StoreError : Type :=
  | NoCheckpoint
  | Io (path : list ascii)
  | MalformedCheckpoint (path : list ascii) (len : nat)
  | StoreBackend (message : string).

(** ** The trait *)

Class Store (S : Type) := {
  load_latest_weights : S → outcome StoreError (list f32);
  save_checkpoint : Z → list f32 → S → S * outcome StoreError ();
  list_checkpoints : S → outcome StoreError (list Z);
  load_checkpoint : Z → S → outcome StoreError (list f32);
}.

(** The checkpoint of round [r] is the newest one kept, and readable. *)
Definition newest_is {S} `{Store S} (r : Z) (ws : list f32) (s : S) : Prop :=
  (Forall f32_wf ws → load_latest_weights s = Ok ws ∧ load_checkpoint r s = Ok ws) ∧
  ∃ rs, list_checkpoints s = Ok rs ∧ r ∈ rs ∧ Forall (λ r', r' ≤ r) rs.

(** The promise, for rounds below [bound]: a save that succeeds, of a round no older
    than the ones kept, is what the next load returns; a save that reports an error
    changes no load, unless it took effect nonetheless (a connection can be lost
    between the two). *)
Class StoreLawsBelow (bound : Z) (S : Type) `{Store S} := {
  store_save_latest r ws s s' rs :
    0 ≤ r < bound → list_checkpoints s = Ok rs → Forall (λ r', r' ≤ r) rs →
    save_checkpoint r ws s = (s', Ok ()) → newest_is r ws s';
  store_save_error r ws s s' rs e :
    0 ≤ r < bound → list_checkpoints s = Ok rs → Forall (λ r', r' ≤ r) rs →
    save_checkpoint r ws s = (s', Err e) →
    (load_latest_weights s' = load_latest_weights s ∧ list_checkpoints s' = list_checkpoints s) ∨
    newest_is r ws s';
  store_no_panic r ws s : (save_checkpoint r ws s).2 ≠ Panic ∧ load_latest_weights s ≠ Panic;
}.

(** The promise for every round a [u64] counts. *)
Notation StoreLaws := (StoreLawsBelow (2 ^ 64)).

Lemma store_laws_weaken {S} `{Store S} (b b' : Z) : b' ≤ b → StoreLawsBelow b S → StoreLawsBelow b' S.
Proof.
  intros Hle [Hs He Hp]. split; [intros; eapply Hs; eauto; lia| |done].
  intros; eapply He; eauto; lia.
Qed.

(** ** In memory *)

Record InMemoryStore := { latest : Z * list f32 }.

Definition InMemoryStore_new (initial_weights : list f32) : InMemoryStore :=
  {| latest := (0, initial_weights) |}.

#[export] Instance InMemoryStore_store : Store InMemoryStore := {|
  load_latest_weights s := Ok (latest s).2;
  save_checkpoint round weights s :=
    (if (latest s).1 <=? round then {| latest := (round, weights) |} else s, Ok ());
  list_checkpoints s := Ok [(latest s).1];
  load_checkpoint round s :=
    if (latest s).1 =? round then Ok (latest s).2 else Err NoCheckpoint;
|}.

#[export] Instance InMemoryStore_laws bound : StoreLawsBelow bound InMemoryStore.
Proof.
  split; simpl.
  - intros r ws s s' rs _ [= <-] Hall [= <-]. apply Forall_cons in Hall as [Hle _].
    rewrite (proj2 (Z.leb_le _ _) Hle). split; simpl; [by rewrite Z.eqb_refl|].
    exists [r]. split; [done|]. split; [set_solver|]. by repeat constructor.
  - done.
  - done.
Qed.

(** ** Names of checkpoint files *)

Definition digit (d : Z) : ascii := ascii_of_N (Z.to_N (48 + d)).
Definition digit_value (a : ascii) : option Z :=
  let n := Z.of_N (N_of_ascii a) in
  if (48 <=? n) && (n <=? 57) then Some (n - 48) else None.

(** [format!] of a [u64]: at most twenty digits. *)
Fixpoint decimal (fuel : nat) (n : Z) : list ascii :=
  match fuel with
  | O => []
  | S fuel => if n <? 10 then [digit n] else decimal fuel (n / 10) ++ [digit (n mod 10)]
  end.
Definition u64_to_string (n : Z) : list ascii := decimal 20 n.
Definition show_u64 (n : Z) : string := String.string_of_list_ascii (u64_to_string n).

(** [{:x}] of a digit. *)
Definition hex_digit (n : nat) : ascii := ascii_of_nat (if (n <? 10)%nat then 48 + n else 87 + n).

Fixpoint parse_digits (acc : Z) (l : list ascii) : option Z :=
  match l with
  | [] => Some acc
  | a :: l =>
      match digit_value a with
      | Some d => let acc := acc * 10 + d in if acc <=? u64_max then parse_digits acc l else None
      | None => None
      end
  end.

(** [str::parse::<u64>]: an optional plus sign, then at least one digit. *)
Definition parse_u64 (l : list ascii) : option Z :=
  let l := match l with a :: l' => if ascii_dec a "+" then l' else l | [] => l end in
  match l with [] => None | _ => parse_digits 0 l end.

Definition strip_prefix (p l : list ascii) : option (list ascii) :=
  if decide (take (length p) l = p) then Some (drop (length p) l) else None.
Definition strip_suffix (s l : list ascii) : option (list ascii) :=
  if decide (drop (length l - length s) l = s ∧ (length s ≤ length l)%nat)
  then Some (take (length l - length s) l) else None.

Definition checkpoint_prefix : list ascii := String.list_ascii_of_string "checkpoint-".
Definition bin_suffix : list ascii := String.list_ascii_of_string ".bin".
Definition tmp_suffix : list ascii := String.list_ascii_of_string ".tmp".

Definition checkpoint_path (round : Z) : list ascii :=
  checkpoint_prefix ++ u64_to_string round ++ bin_suffix.
(** [path.with_extension("bin.tmp")] *)
Definition tmp_path (round : Z) : list ascii := checkpoint_path round ++ tmp_suffix.

Definition round_of_name (name : list ascii) : option Z :=
  match strip_prefix checkpoint_prefix name with
  | Some s => match strip_suffix bin_suffix s with Some s => parse_u64 s | None => None end
  | None => None
  end.

Lemma digit_value_digit d : 0 ≤ d < 10 → digit_value (digit d) = Some d.
Proof.
  intros Hd. unfold digit_value, digit. rewrite N_ascii_embedding by lia. rewrite Z2N.id by lia.
  destruct (Z.leb_spec 48 (48 + d)), (Z.leb_spec (48 + d) 57); try lia.
  simpl. f_equal. lia.
Qed.

(** What [decimal] prints. *)
Lemma decimal_digits fuel n : 0 ≤ n → Forall (λ c, ∃ d, 0 ≤ d < 10 ∧ c = digit d) (decimal fuel n).
Proof.
  revert n. induction fuel as [|fuel IH]; intros n Hn; simpl; [constructor|].
  destruct (n <? 10) eqn:H; [apply Z.ltb_lt in H; constructor; [by exists n|constructor]|].
  apply Forall_app. split; [apply IH, Z.div_pos; lia|].
  constructor; [exists (n mod 10); split; [apply Z.mod_pos_bound; lia|done]|constructor].
Qed.

Lemma parse_digits_app acc l k :
  parse_digits acc (l ++ k) = match parse_digits acc l with Some a => parse_digits a k | None => None end.
Proof.
  revert acc. induction l as [|a l IH]; intros acc; simpl; [done|].
  destruct (digit_value a); [|done]. destruct (_ <=? _); [apply IH|done].
Qed.

Lemma parse_digits_decimal fuel n :
  0 ≤ n < 10 ^ Z.of_nat fuel → n ≤ u64_max → parse_digits 0 (decimal fuel n) = Some n.
Proof.
  revert n. induction fuel as [|fuel IH]; intros n Hn Hmax; [simpl in *; f_equal; lia|]. cbn [decimal].
  assert (Hle : (n <=? u64_max) = true) by (by apply Z.leb_le).
  destruct (n <? 10) eqn:Hlt.
  - cbn [parse_digits]. rewrite digit_value_digit by lia. cbv zeta. by rewrite Z.mul_0_l, Z.add_0_l, Hle.
  - rewrite Nat2Z.inj_succ, Z.pow_succ_r in Hn by lia.
    pose proof (Z.div_mod n 10 ltac:(lia)). pose proof (Z.mod_pos_bound n 10 ltac:(lia)).
    rewrite parse_digits_app, IH; [|split; [apply Z.div_pos; lia|apply Z.div_lt_upper_bound; lia]|lia].
    cbn [parse_digits]. rewrite digit_value_digit by lia.
    cbv zeta. replace (n / 10 * 10 + n mod 10) with n by lia. by rewrite Hle.
Qed.

Lemma decimal_head fuel n :
  0 ≤ n → (1 ≤ fuel)%nat → ∃ d l, decimal fuel n = digit d :: l ∧ 0 ≤ d < 10.
Proof.
  revert n. induction fuel as [|fuel IH]; intros n Hn Hf; [lia|]. cbn [decimal].
  destruct (n <? 10) eqn:Hlt; [exists n, []; split; [done|lia]|].
  destruct fuel as [|fuel].
  - exists (n mod 10), []. split; [done|]. apply Z.mod_pos_bound. lia.
  - destruct (IH (n / 10)) as (d & l & -> & Hd); [apply Z.div_pos; lia|lia|]. by eexists d, _.
Qed.

Lemma parse_u64_to_string n : is_u64 n → parse_u64 (u64_to_string n) = Some n.
Proof.
  intros Hn. unfold is_u64 in Hn. unfold u64_to_string.
  assert (Hp : parse_digits 0 (decimal 20 n) = Some n)
    by (apply parse_digits_decimal; unfold u64_max; lia).
  destruct (decimal_head 20 n ltac:(lia) ltac:(lia)) as (d & l & Hd & Hr). rewrite Hd in *.
  unfold parse_u64. destruct (ascii_dec (digit d) "+") as [He|]; [|done].
  exfalso. apply (f_equal digit_value) in He. rewrite digit_value_digit in He by done. done.
Qed.

Lemma strip_prefix_app p l : strip_prefix p (p ++ l) = Some l.
Proof. unfold strip_prefix. rewrite take_app_length, drop_app_length. by rewrite decide_True. Qed.

Lemma strip_suffix_app s l : strip_suffix s (l ++ s) = Some l.
Proof.
  unfold strip_suffix. rewrite length_app. replace (length l + length s - length s)%nat with (length l) by lia.
  rewrite take_app_length, drop_app_length. rewrite decide_True; [done|]. split; [done|lia].
Qed.

Lemma strip_suffix_last s s' l a b :
  last s = Some a → last s' = Some b → a ≠ b → strip_suffix s (l ++ s') = None.
Proof.
  intros Hs Hs' Hab. unfold strip_suffix. case_decide as Hd; [|done]. destruct Hd as [Hd Hl].
  exfalso. apply Hab. apply (f_equal last) in Hd. rewrite Hs in Hd.
  assert (Hlast : last (l ++ s') = Some b) by (rewrite last_app, Hs'; done).
  rewrite <-(take_drop (length (l ++ s') - length s) (l ++ s')), last_app, Hd in Hlast. congruence.
Qed.

Lemma round_of_checkpoint_path r : is_u64 r → round_of_name (checkpoint_path r) = Some r.
Proof.
  intros Hr. unfold round_of_name, checkpoint_path. rewrite strip_prefix_app, strip_suffix_app.
  by apply parse_u64_to_string.
Qed.

Lemma round_of_tmp_path r : round_of_name (tmp_path r) = None.
Proof.
  unfold round_of_name, tmp_path, checkpoint_path. rewrite <-app_assoc, strip_prefix_app.
  by rewrite (strip_suffix_last bin_suffix tmp_suffix _ "n"%char "p"%char).
Qed.

Lemma checkpoint_path_inj r r' : is_u64 r → is_u64 r' → checkpoint_path r = checkpoint_path r' → r = r'.
Proof.
  intros Hr Hr' H. apply (f_equal round_of_name) in H.
  rewrite !round_of_checkpoint_path in H by done. congruence.
Qed.

Lemma tmp_path_not_checkpoint r r' : tmp_path r ≠ checkpoint_path r'.
Proof.
  intros H. apply (f_equal last) in H. unfold tmp_path, checkpoint_path in H.
  rewrite !last_app in H. done.
Qed.

(** ** The file store *)

(** A directory: file names to contents. *)
Notation directory := (gmap (list ascii) bytes).

Definition rounds_of_dir (dir : directory) : list Z := omap (round_of_name ∘ fst) (map_to_list dir).

Lemma elem_of_rounds_of_dir dir r :
  r ∈ rounds_of_dir dir ↔ ∃ name b, dir !! name = Some b ∧ round_of_name name = Some r.
Proof.
  unfold rounds_of_dir. rewrite list_elem_of_omap. split.
  - intros ([name b] & Hin & Hr). apply elem_of_map_to_list in Hin. eauto.
  - intros (name & b & Hin & Hr). exists (name, b). by rewrite elem_of_map_to_list.
Qed.

Definition max_round (l : list Z) : option Z :=
  foldl (λ latest round, Some match latest with Some current => Z.max current round | None => round end)
    None l.

Lemma max_round_spec l :
  match max_round l with Some m => m ∈ l ∧ Forall (λ r, r ≤ m) l | None => l = [] end.
Proof.
  induction l as [|r l IH] using rev_ind; [done|]. unfold max_round in *. rewrite foldl_app. simpl.
  destruct (foldl _ None l) as [m|].
  - destruct IH as [Hm Hall]. split.
    + destruct (Z.max_spec m r) as [[_ ->]|[_ ->]]; set_solver.
    + apply Forall_app. split; [|repeat constructor; lia].
      eapply Forall_impl; [exact Hall|]. simpl. lia.
  - subst l. simpl. split; [set_solver|]. repeat constructor; lia.
Qed.

Lemma max_round_unique l m : m ∈ l → Forall (λ r, r ≤ m) l → max_round l = Some m.
Proof.
  intros Hm Hall. pose proof (max_round_spec l) as H. destruct (max_round l) as [m'|].
  - destruct H as [Hm' Hall']. rewrite Forall_forall in Hall, Hall'.
    f_equal. apply Z.le_antisymm; auto.
  - subst l. by apply not_elem_of_nil in Hm.
Qed.

(** The last of the sorted rounds is the newest. *)
Lemma last_sort_max l m : m ∈ l → Forall (λ r, r ≤ m) l → last (sort_by Z.leb l) = Some m.
Proof.
  intros Hm Hall. destruct (last (sort_by Z.leb l)) as [m'|] eqn:Hl.
  - f_equal. apply last_Some in Hl as (l' & Hl). apply Z.le_antisymm.
    + rewrite Forall_forall in Hall. apply Hall. rewrite <-(sort_by_perm Z.leb l), Hl. set_solver.
    + assert (Hin : m ∈ l' ++ [m']) by (rewrite <-Hl; by rewrite sort_by_perm).
      apply elem_of_app in Hin as [Hin|Hin]; [|apply list_elem_of_singleton in Hin; lia].
      assert (Hs : StronglySorted (λ x y, Z.leb x y = true) (l' ++ [m'])).
      { rewrite <-Hl. apply (sort_by_sorted _ (λ _, True)); [| |by apply Forall_true].
        - intros x y _ _. rewrite !Z.leb_le. lia.
        - intros x y z _ _ _. rewrite !Z.leb_le. lia. }
      clear -Hs Hin. induction l' as [|x l' IH]; simpl in *; [by apply elem_of_nil in Hin|].
      inversion Hs as [|?? Hs' Hx]; subst. apply elem_of_cons in Hin as [->|Hin]; [|by apply IH].
      apply Forall_app in Hx as [_ [Hx _]%Forall_cons]. by apply Z.leb_le.
  - apply last_None in Hl. pose proof (sort_by_perm Z.leb l) as Hp. rewrite Hl in Hp.
    apply Permutation_length in Hp. destruct l; [by apply elem_of_nil in Hm|done].
Qed.

(** The system calls the store makes. *)
Inductive syscall : Type :=
  | ReadDir
  | Read (path : list ascii)
  | Write (path : list ascii)
  | Rename (from to : list ascii).

Section file_store.
Context (fault : syscall → bool).
(** What a failed [fs::write] leaves behind of the bytes it was given, if it got as far
    as opening the file. *)
Context (partial : bytes → option bytes).

Definition latest_round_in (dir : directory) : outcome StoreError (option Z) :=
  if fault ReadDir then Err (Io []) else Ok (max_round (rounds_of_dir dir)).

Definition rounds_in (dir : directory) : outcome StoreError (list Z) :=
  if fault ReadDir then Err (Io []) else Ok (sort_by Z.leb (rounds_of_dir dir)).

Definition read_weights (path : list ascii) (dir : directory) : outcome StoreError (list f32) :=
  if fault (Read path) then Err (Io path)
  else
    match dir !! path with
    | None => Err (Io path)
    | Some b =>
        if negb (length b mod 4 =? 0)%nat then Err (MalformedCheckpoint path (length b))
        else Ok (as_chunks_4 b)
    end.

Definition file_load_latest (dir : directory) : outcome StoreError (list f32) :=
  latest ← latest_round_in dir;
  match latest with
  | None => Err NoCheckpoint
  | Some round => read_weights (checkpoint_path round) dir
  end.

Definition file_load_checkpoint (round : Z) (dir : directory) : outcome StoreError (list f32) :=
  let path := checkpoint_path round in
  match dir !! path with
  | None => Err NoCheckpoint
  | Some _ => read_weights path dir
  end.

(** [fs::rename]: the source's contents under the target's name. *)
Definition rename (from to : list ascii) (dir : directory) : directory :=
  match dir !! from with
  | Some b => <[to := b]> (delete from dir)
  | None => dir
  end.

(** The calls that change the directory, in the order a save makes them: [fs::write] to
    the temporary file beside the checkpoint's, [fs::rename] into place. *)
Inductive fs_call : Type :=
  | FsWrite (path : list ascii) (contents : bytes)
  | FsRename (from to : list ascii).

Definition save_calls (round : Z) (weights : list f32) : list fs_call :=
  let path := checkpoint_path round in
  let bytes := encode_weights weights in
  let tmp := tmp_path round in
  [FsWrite tmp bytes; FsRename tmp path].

Definition fs_call_run (call : fs_call) (dir : directory) : directory * bool :=
  match call with
  | FsWrite path contents =>
      if fault (Write path)
      then (match partial contents with Some b => <[path := b]> dir | None => dir end, false)
      else (<[path := contents]> dir, true)
  | FsRename from to => if fault (Rename from to) then (dir, false) else (rename from to dir, true)
  end.

(** One call after the other, [?] after each. *)
Fixpoint fs_run (error : StoreError) (calls : list fs_call) (dir : directory) : directory * outcome StoreError () :=
  match calls with
  | [] => (dir, Ok ())
  | call :: calls =>
      match fs_call_run call dir with
      | (dir, true) => fs_run error calls dir
      | (dir, false) => (dir, Err error)
      end
  end.

Definition file_save (round : Z) (weights : list f32) (dir : directory)
    : directory * outcome StoreError () :=
  fs_run (Io (checkpoint_path round)) (save_calls round weights) dir.

(** The states a process that makes these calls can be killed in: between two calls, after
    one that failed, and inside a write at any prefix of what it was given.  A rename is
    atomic. *)
Inductive killed_during : list fs_call → directory → directory → Prop :=
  | killed_here calls dir : killed_during calls dir dir
  | killed_writing path contents k calls dir :
      killed_during (FsWrite path contents :: calls) dir (<[path := take k contents]> dir)
  | killed_later call calls dir dir' dir'' :
      fs_call_run call dir = (dir', true) → killed_during calls dir' dir'' →
      killed_during (call :: calls) dir dir''
  | killed_after_error call calls dir dir' :
      fs_call_run call dir = (dir', false) → killed_during (call :: calls) dir dir'.

(** The end of a run is one of them. *)
Lemma fs_run_killed error calls dir dir' o : fs_run error calls dir = (dir', o) → killed_during calls dir dir'.
Proof.
  revert dir. induction calls as [|call calls IH]; intros dir; simpl; [intros [= <- _]; constructor|].
  destruct (fs_call_run call dir) as [d []] eqn:Hc; [|intros [= <- _]; by apply killed_after_error].
  intros H. eapply killed_later; [exact Hc|by apply IH].
Qed.

(** How a save ends. *)
Lemma file_save_cases r ws dir dir' o :
  file_save r ws dir = (dir', o) →
  (o = Ok () ∧ dir' = rename (tmp_path r) (checkpoint_path r) (<[tmp_path r := encode_weights ws]> dir)) ∨
  (o = Err (Io (checkpoint_path r)) ∧ (dir' = dir ∨ ∃ b, dir' = <[tmp_path r := b]> dir)).
Proof.
  unfold file_save, save_calls. cbn [fs_run fs_call_run]. destruct (fault (Write _)).
  { destruct (partial _) as [b|]; intros [= <- <-]; right; split; try done; [by right; exists b|by left]. }
  destruct (fault (Rename _ _)); intros [= <- <-]; [right; split; [done|]; right; by eexists|by left].
Qed.

Instance FileStore_store : Store directory := {|
  load_latest_weights := file_load_latest;
  save_checkpoint := file_save;
  list_checkpoints := rounds_in;
  load_checkpoint := file_load_checkpoint;
|}.

(** A file that is no checkpoint does not show in any listing. *)
Lemma rounds_of_dir_insert_other name b dir :
  round_of_name name = None → rounds_of_dir (<[name := b]> dir) ≡ₚ rounds_of_dir dir.
Proof.
  intros Hn. unfold rounds_of_dir. destruct (dir !! name) as [b'|] eqn:Hb.
  - rewrite <-(insert_delete_id dir name b' Hb) at 2. rewrite <-(insert_delete_eq dir name b).
    rewrite !map_to_list_insert by apply lookup_delete_eq. simpl. by rewrite Hn.
  - rewrite map_to_list_insert by done. simpl. by rewrite Hn.
Qed.

Lemma save_lookup r (b : bytes) dir name :
  rename (tmp_path r) (checkpoint_path r) (<[tmp_path r := b]> dir) !! name =
  if decide (name = checkpoint_path r) then Some b
  else if decide (name = tmp_path r) then None else dir !! name.
Proof.
  unfold rename. rewrite lookup_insert_eq.
  pose proof (tmp_path_not_checkpoint r r). repeat case_decide; subst.
  - by rewrite lookup_insert_eq.
  - rewrite lookup_insert_ne by done. by rewrite lookup_delete_eq.
  - rewrite lookup_insert_ne, lookup_delete_ne, lookup_insert_ne by congruence. done.
Qed.

Lemma save_rounds r b dir r' :
  is_u64 r →
  r' ∈ rounds_of_dir (rename (tmp_path r) (checkpoint_path r) (<[tmp_path r := b]> dir)) →
  r' = r ∨ r' ∈ rounds_of_dir dir.
Proof.
  intros Hr (name & b' & Hb & Hn)%elem_of_rounds_of_dir. rewrite save_lookup in Hb.
  case_decide; [subst name; rewrite round_of_checkpoint_path in Hn by done; left; congruence|].
  case_decide; [done|]. right. apply elem_of_rounds_of_dir. eauto.
Qed.

Lemma rounds_of_dir_tmp_same dir r b :
  max_round (rounds_of_dir (<[tmp_path r := b]> dir)) = max_round (rounds_of_dir dir).
Proof.
  pose proof (rounds_of_dir_insert_other (tmp_path r) b dir (round_of_tmp_path r)) as Hp.
  pose proof (max_round_spec (rounds_of_dir dir)) as H. destruct (max_round (rounds_of_dir dir)) as [m|].
  - destruct H as [Hm Hall]. apply max_round_unique; by rewrite Hp.
  - rewrite H in Hp. by apply Permutation_nil_r in Hp as ->.
Qed.

Lemma sort_leb_perm l k : l ≡ₚ k → sort_by Z.leb l = sort_by Z.leb k.
Proof.
  intros Hp.
  assert (Hs : ∀ l, StronglySorted Z.le (sort_by Z.leb l)).
  { intros l'. assert (Sorted_by Z.leb (sort_by Z.leb l')) as H.
    { apply (sort_by_sorted _ (λ _, True)); [| |by apply Forall_true].
      - intros x y _ _. rewrite !Z.leb_le. lia.
      - intros x y z _ _ _. rewrite !Z.leb_le. lia. }
    unfold Sorted_by in H. induction H as [|x l'' _ IH Hx]; constructor; [done|].
    eapply Forall_impl; [exact Hx|]. intros y. by rewrite Z.leb_le. }
  apply (StronglySorted_unique Z.le); [done|done|]. by rewrite !sort_by_perm.
Qed.

Context (no_read_fault : ∀ path, fault (Read path) = false).
Context (no_dir_fault : fault ReadDir = false).

Lemma read_weights_saved (path : list ascii) (dir : directory) ws :
  Forall f32_wf ws → dir !! path = Some (encode_weights ws) → read_weights path dir = Ok ws.
Proof.
  intros Hws Hd. unfold read_weights. rewrite no_read_fault, Hd, length_encode_weights, Nat.Div0.mod_mul.
  simpl. by rewrite as_chunks_4_encode.
Qed.

Lemma read_weights_same (path : list ascii) (dir dir' : directory) :
  dir !! path = dir' !! path → read_weights path dir = read_weights path dir'.
Proof. intros H. unfold read_weights. by rewrite H. Qed.

Lemma file_load_latest_tmp r b dir :
  file_load_latest (<[tmp_path r := b]> dir) = file_load_latest dir.
Proof.
  unfold file_load_latest, latest_round_in. rewrite no_dir_fault, rounds_of_dir_tmp_same. simpl.
  destruct (max_round _) as [m|]; [|done]. apply read_weights_same.
  rewrite lookup_insert_ne; [done|]. apply tmp_path_not_checkpoint.
Qed.

Lemma rounds_in_tmp r b dir : rounds_in (<[tmp_path r := b]> dir) = rounds_in dir.
Proof.
  unfold rounds_in. rewrite no_dir_fault. f_equal. apply sort_leb_perm.
  apply rounds_of_dir_insert_other, round_of_tmp_path.
Qed.

Lemma file_load_checkpoint_tmp r b r' dir :
  file_load_checkpoint r' (<[tmp_path r := b]> dir) = file_load_checkpoint r' dir.
Proof.
  unfold file_load_checkpoint, read_weights. rewrite lookup_insert_ne; [done|]. apply tmp_path_not_checkpoint.
Qed.

(** Nothing that is read of a store shows a save that failed. *)
Lemma failed_file_save r ws dir dir' e :
  file_save r ws dir = (dir', Err e) →
  file_load_latest dir' = file_load_latest dir ∧ rounds_in dir' = rounds_in dir ∧
  ∀ r', file_load_checkpoint r' dir' = file_load_checkpoint r' dir.
Proof.
  intros [[? _]|[_ [->|[b ->]]]]%file_save_cases; [done|done|].
  split; [apply file_load_latest_tmp|]. split; [apply rounds_in_tmp|]. intros r'. apply file_load_checkpoint_tmp.
Qed.

Instance FileStore_laws : StoreLaws directory.
Proof.
  split; simpl.
  - intros r ws dir dir' rs Hr Hlist Hall [[_ ->]|[? _]]%file_save_cases; [|done].
    unfold rounds_in in *. rewrite no_dir_fault in *. injection Hlist as <-.
    rewrite sort_by_perm in Hall.
    set (b := encode_weights ws). set (dir' := rename _ _ _).
    assert (Hpath : dir' !! checkpoint_path r = Some b) by (unfold dir'; by rewrite save_lookup, decide_True).
    assert (Hin : r ∈ rounds_of_dir dir').
    { apply elem_of_rounds_of_dir. exists (checkpoint_path r), b. by rewrite round_of_checkpoint_path. }
    assert (Hmax : Forall (λ r', r' ≤ r) (rounds_of_dir dir')).
    { rewrite Forall_forall in Hall |- *. intros r' [->|Hr']%save_rounds; [lia|by apply Hall|done]. }
    unfold newest_is. simpl. split; [intros Hws; split|].
    + unfold file_load_latest, latest_round_in. rewrite no_dir_fault. simpl.
      rewrite (max_round_unique _ r) by done. by apply read_weights_saved.
    + unfold file_load_checkpoint. rewrite Hpath. by apply read_weights_saved.
    + exists (sort_by Z.leb (rounds_of_dir dir')). unfold rounds_in. rewrite no_dir_fault. split; [done|].
      by rewrite sort_by_perm.
  - intros r ws dir dir' rs e _ _ _ (Hl & Hr & _)%failed_file_save. by left.
  - intros r ws dir. split.
    + destruct (file_save r ws dir) as [dir' o] eqn:Hs. by apply file_save_cases in Hs as [[-> _]|[-> _]].
    + unfold file_load_latest, latest_round_in, read_weights. rewrite no_dir_fault. simpl.
      repeat case_match; try done.
Qed.

Lemma saved_file_loads r ws dir :
  is_u64 r → Forall f32_wf ws →
  let dir' := rename (tmp_path r) (checkpoint_path r) (<[tmp_path r := encode_weights ws]> dir) in
  file_load_checkpoint r dir' = Ok ws ∧
  (Forall (λ r', r' ≤ r) (rounds_of_dir dir) → file_load_latest dir' = Ok ws).
Proof.
  intros Hr Hws.
  assert (Hpath : rename (tmp_path r) (checkpoint_path r) (<[tmp_path r := encode_weights ws]> dir) !!
            checkpoint_path r = Some (encode_weights ws)) by (by rewrite save_lookup, decide_True).
  split.
  - unfold file_load_checkpoint. rewrite Hpath. by apply read_weights_saved.
  - intros Hall. unfold file_load_latest, latest_round_in. rewrite no_dir_fault. simpl.
    rewrite (max_round_unique _ r); [by apply read_weights_saved| |].
    + apply elem_of_rounds_of_dir. exists (checkpoint_path r), (encode_weights ws).
      by rewrite round_of_checkpoint_path.
    + rewrite Forall_forall in *. intros r' [->|Hr']%save_rounds; [lia|by apply Hall|done].
Qed.

(** A save's calls leave the checkpoints alone until the last of them has taken place. *)
Lemma killed_save r ws dir dir' :
  killed_during (save_calls r ws) dir dir' →
  dir' = dir ∨ (∃ b, dir' = <[tmp_path r := b]> dir) ∨
  dir' = rename (tmp_path r) (checkpoint_path r) (<[tmp_path r := encode_weights ws]> dir).
Proof.
  unfold save_calls. inversion 1 as [|? ? k ? ?|? ? ? d1 ? Hw Hrest|? ? ? ? Hw]; subst.
  - by left.
  - right; left. by eexists.
  - simpl in Hw. destruct (fault (Write _)); [done|]. injection Hw as <-.
    inversion Hrest as [| |? ? ? d2 ? Hn Hend|? ? ? ? Hn]; subst; simpl in *.
    + right; left. by eexists.
    + destruct (fault (Rename _ _)); [done|]. injection Hn as <-.
      inversion Hend; subst. by right; right.
    + destruct (fault (Rename _ _)); [|done]. injection Hn as <-. right; left. by eexists.
  - simpl in Hw. destruct (fault (Write _)); [|done]. injection Hw as <-.
    destruct (partial _); [right; left; by eexists|by left].
Qed.

(** A checkpoint older than one the directory holds does not become the latest. *)
Lemma stale_save_is_hidden r m ws dir dir' :
  is_u64 r → r < m → max_round (rounds_of_dir dir) = Some m → is_u64 m →
  dir !! checkpoint_path m ≠ None →
  file_save r ws dir = (dir', Ok ()) → file_load_latest dir' = file_load_latest dir.
Proof.
  intros Hr Hlt Hm Hum Hex [[_ ->]|[? _]]%file_save_cases; [|done]. unfold file_load_latest, latest_round_in. rewrite no_dir_fault. simpl. rewrite Hm.
  set (dir' := rename _ _ _).
  assert (Hne : checkpoint_path m ≠ checkpoint_path r) by (intros H%checkpoint_path_inj; [lia|done|done]).
  assert (Hnt : checkpoint_path m ≠ tmp_path r) by (intros H; by eapply tmp_path_not_checkpoint).
  assert (Hsame : dir' !! checkpoint_path m = dir !! checkpoint_path m) by (unfold dir'; by rewrite save_lookup, !decide_False).
  pose proof (max_round_spec (rounds_of_dir dir)) as Hs. rewrite Hm in Hs. destruct Hs as [_ Hall].
  rewrite (max_round_unique (rounds_of_dir dir') m).
  - by apply read_weights_same.
  - destruct (dir !! checkpoint_path m) as [b|] eqn:Hb; [|done]. apply elem_of_rounds_of_dir.
    exists (checkpoint_path m), b. split; [by rewrite Hsame|by apply round_of_checkpoint_path].
  - rewrite Forall_forall in Hall |- *. intros r' [->|Hr']%save_rounds; [lia|by apply Hall|done].
Qed.
End file_store.

(** ** Properties *)

(** C31: both stores keep the trait's promise (for the file store, whatever writes and
    renames fail and whatever a failed write leaves, as long as reads work).  A save of
    the newest round that succeeds is what the next load returns, and is listed; one that
    fails changes nothing that can be read: not the latest weights, not the listing, not
    the checkpoint of any round; the store in memory cannot fail; and no operation of
    either panics. *)
Theorem stores_keep_last_checkpoint (fault : syscall → bool) (partial : bytes → option bytes) :
  (∀ path, fault (Read path) = false) → fault ReadDir = false →
  let File := FileStore_store fault partial in
  (∀ r ws dir dir' rs,
     0 ≤ r < 2 ^ 64 → rounds_in fault dir = Ok rs → Forall (λ r', r' ≤ r) rs →
     file_save fault partial r ws dir = (dir', Ok ()) → @newest_is directory File r ws dir') ∧
  (∀ r ws dir dir' e,
     file_save fault partial r ws dir = (dir', Err e) →
     file_load_latest fault dir' = file_load_latest fault dir ∧ rounds_in fault dir' = rounds_in fault dir ∧
     ∀ r', file_load_checkpoint fault r' dir' = file_load_checkpoint fault r' dir) ∧
  (∀ r ws dir, (file_save fault partial r ws dir).2 ≠ Panic ∧ file_load_latest fault dir ≠ Panic ∧
     rounds_in fault dir ≠ Panic ∧ file_load_checkpoint fault r dir ≠ Panic) ∧
  (∀ r ws (s s' : InMemoryStore) o,
     save_checkpoint r ws s = (s', o) →
     o = Ok () ∧ (0 ≤ (latest s).1 ≤ r → newest_is r ws s') ∧
     load_latest_weights s ≠ Panic ∧ list_checkpoints s ≠ Panic ∧ load_checkpoint r s ≠ Panic).
Proof.
  intros Hr Hd File. pose proof (FileStore_laws fault partial Hr Hd) as HL. split; [|split; [|split]].
  - intros r ws dir dir' rs. exact (store_save_latest r ws dir dir' rs).
  - intros r ws dir dir' e. by apply failed_file_save.
  - intros r ws dir. destruct (store_no_panic r ws dir) as [H1 H2]. split; [exact H1|]. split; [exact H2|].
    unfold rounds_in, file_load_checkpoint, read_weights. rewrite Hd, Hr. by split; repeat case_match.
  - intros r ws s s' o [= <- <-]. split; [done|]. split; [|simpl; by repeat case_match].
    intros Hle. apply (store_save_latest (bound:=r + 1) r ws s _ [(latest s).1]); [lia|done| |done]. repeat constructor. lia.
Qed.

(** A full disk, over a directory that holds round 1. *)
Definition no_writes (c : syscall) : bool := match c with Write _ => true | _ => false end.
Definition short_write (b : bytes) : option bytes := Some (take 3 b).
Definition one_checkpoint : directory := {[ checkpoint_path 1 := encode_weights [f32_one] ]}.

Lemma full_disk_save :
  file_save no_writes short_write 2 [f32_zero] one_checkpoint =
  ((file_save no_writes short_write 2 [f32_zero] one_checkpoint).1, Err (Io (checkpoint_path 2))).
Proof. vm_compute. reflexivity. Qed.

Lemma one_checkpoint_loads : file_load_latest no_writes one_checkpoint = Ok [f32_one].
Proof. vm_compute. reflexivity. Qed.

Lemma stores_keep_last_checkpoint_witness :
  file_load_latest no_writes (file_save no_writes short_write 2 [f32_zero] one_checkpoint).1 = Ok [f32_one].
Proof.
  destruct (stores_keep_last_checkpoint no_writes short_write (λ _, eq_refl) eq_refl) as (_ & Herr & _).
  destruct (Herr _ _ _ _ _ full_disk_save) as [Hl _]. rewrite Hl. apply one_checkpoint_loads.
Defined.

(** C32: a process that is killed during a save never makes the newest checkpoint
    unreadable.  Wherever in the calls of [file_save] it stops (before the first, at any
    prefix of what a write was given, between two calls, after one that failed, or after
    the last), the next load of the latest weights and of any round finds what it found
    before the save, or the save has taken place as a whole: its round loads, and if no
    newer one is stored it is the latest.  Where [file_save] itself ends is one of these
    places. *)
Theorem file_store_crash_safe (fault : syscall → bool) (partial : bytes → option bytes) (r : Z) (ws : list f32)
    (dir dir' : directory) :
  (∀ path, fault (Read path) = false) → fault ReadDir = false →
  is_u64 r → Forall f32_wf ws →
  killed_during fault partial (save_calls r ws) dir dir' ∨ (file_save fault partial r ws dir).1 = dir' →
  (file_load_latest fault dir' = file_load_latest fault dir ∧
   ∀ r', file_load_checkpoint fault r' dir' = file_load_checkpoint fault r' dir) ∨
  (file_load_checkpoint fault r dir' = Ok ws ∧
   (Forall (λ r', r' ≤ r) (rounds_of_dir dir) → file_load_latest fault dir' = Ok ws)).
Proof.
  intros Hread Hd Hr Hws Hk.
  assert (Hk' : killed_during fault partial (save_calls r ws) dir dir').
  { destruct Hk as [?|Hs]; [done|]. destruct (file_save _ _ _ _ _) as [d o] eqn:Hsave. cbn [fst] in Hs. subst d.
    by eapply fs_run_killed. }
  apply killed_save in Hk' as [->|[[b ->]| ->]]; [by left| |right; by apply saved_file_loads].
  left. split; [by apply file_load_latest_tmp|]. intros r'. apply file_load_checkpoint_tmp.
Qed.

Lemma file_store_crash_safe_witness :
  let dir := (file_save (λ _, false) Some 1 [f32_one] ∅).1 in
  let dir' := <[tmp_path 2 := take 1 (encode_weights [f32_of_Z 2])]> dir in
  (file_load_latest (λ _, false) dir' = file_load_latest (λ _, false) dir ∧
   ∀ r', file_load_checkpoint (λ _, false) r' dir' = file_load_checkpoint (λ _, false) r' dir) ∨
  (file_load_checkpoint (λ _, false) 2 dir' = Ok [f32_of_Z 2] ∧
   (Forall (λ r', r' ≤ 2) (rounds_of_dir dir) → file_load_latest (λ _, false) dir' = Ok [f32_of_Z 2])).
Proof.
  apply (file_store_crash_safe (λ _, false) Some 2 [f32_of_Z 2]).
  - done.
  - done.
  - unfold is_u64. lia.
  - constructor; [|constructor]. change (f32_wf (F (S754_finite false 8388608 (-22)))). simpl. lia.
  - left. apply killed_writing.
Defined.

(** A file a person could leave in the directory: [checkpoint-007.bin] counts
    as round 7, whose own file does not exist. *)
Lemma padded_name_hides_checkpoints :
  let dir := <[String.list_ascii_of_string "checkpoint-007.bin" := encode_weights [f32_one]]>
               (file_save (λ _, false) Some 1 [f32_one] ∅).1 in
  file_load_latest (λ _, false) dir = Err (Io (checkpoint_path 7)).
Proof. vm_compute. reflexivity. Qed.

(** The in-memory store lists and loads round 0 before anything was saved. *)
Lemma in_memory_lists_unsaved_round ws :
  list_checkpoints (InMemoryStore_new ws) = Ok [0] ∧
  load_checkpoint 0 (InMemoryStore_new ws) = Ok ws.
Proof. done. Qed.
