(* ===== verification/Config.v ===== *)
(** * Configuration: parameters, tiers and resolution
      ([conflux-config/src/types.rs], [source.rs], [lib.rs], [preconditions.rs])

    A parameter's value comes from the highest of six tiers that sets it.  The
    struct of overrides is a function from the parameter (one constructor per
    field) to the field's optional value, so that one definition resolves every
    field and one theorem speaks of all of them. *)

From S2P Require Import Prelude Float Wire Averaging Filters Krum Statistics.

Open Scope Z_scope.

(** ** Types *)

Inductive ConnectionMode : Type := Push | Pull.
Inductive AuthMode : Type := Mtls | Jwt.
Inductive SeedMode : Type := FixedSeed | OsRandomSeed.
Inductive BudgetExhaustedAction : Type := Halt | ContinueWithoutGuarantee.
Inductive AccountingScope : Type := Global | PerClient.
Inductive LogFormat : Type := Json | Text.
Inductive RoundLogDetail : Type := Quiet | Changes | Every.
Inductive Topology : Type := CrossSilo | CrossDevice | Crowdsource | Edge.
Inductive Mode : Type := Research | Production.

#[export] Instance AuthMode_eq_dec : EqDecision AuthMode.
Proof. solve_decision. Defined.
#[export] Instance AccountingScope_eq_dec : EqDecision AccountingScope.
Proof. solve_decision. Defined.
#[export] Instance BudgetExhaustedAction_eq_dec : EqDecision BudgetExhaustedAction.
Proof. solve_decision. Defined.
#[export] Instance Mode_eq_dec : EqDecision Mode.
Proof. solve_decision. Defined.
#[export] Instance Topology_eq_dec : EqDecision Topology.
Proof. solve_decision. Defined.

Record TopologyDefaults := {
  td_connection_mode : ConnectionMode;
  td_auth : AuthMode;
  td_round_timeout_secs : Z;
  td_min_reputation_score : f32;
  td_client_registry_ttl : Z;
}.

Definition Topology_ALL : list Topology := [CrossSilo; CrossDevice; Crowdsource; Edge].

Definition Topology_label (self : Topology) : string :=
  match self with
  | CrossSilo => "cross_silo"
  | CrossDevice => "cross_device"
  | Crowdsource => "crowdsource"
  | Edge => "edge"
  end.

Definition Topology_defaults (self : Topology) : TopologyDefaults :=
  match self with
  | CrossSilo => {| td_connection_mode := Push; td_auth := Mtls; td_round_timeout_secs := 600;
                    td_min_reputation_score := f32_zero; td_client_registry_ttl := 3600 |}
  | CrossDevice => {| td_connection_mode := Pull; td_auth := Jwt; td_round_timeout_secs := 300;
                      td_min_reputation_score := f32_lit 3 10; td_client_registry_ttl := 900 |}
  | Crowdsource => {| td_connection_mode := Pull; td_auth := Jwt; td_round_timeout_secs := 300;
                      td_min_reputation_score := f32_lit 6 10; td_client_registry_ttl := 900 |}
  | Edge => {| td_connection_mode := Pull; td_auth := Mtls; td_round_timeout_secs := 900;
               td_min_reputation_score := f32_zero; td_client_registry_ttl := 3600 |}
  end.

Record ModeDefaults := {
  md_seed_mode : SeedMode;
  md_seed_value : option Z;
  md_budget_exhausted_action : BudgetExhaustedAction;
  md_accounting_scope : AccountingScope;
  md_allow_stub_client : bool;
  md_require_node_auth : bool;
  md_config_log_format : LogFormat;
}.

Definition Mode_ALL : list Mode := [Research; Production].

Definition Mode_label (self : Mode) : string :=
  match self with Research => "research" | Production => "production" end.

Definition Mode_defaults (self : Mode) : ModeDefaults :=
  match self with
  | Research => {| md_seed_mode := FixedSeed; md_seed_value := Some 42;
                   md_budget_exhausted_action := ContinueWithoutGuarantee;
                   md_accounting_scope := Global; md_allow_stub_client := true;
                   md_require_node_auth := false; md_config_log_format := Text |}
  | Production => {| md_seed_mode := OsRandomSeed; md_seed_value := None;
                     md_budget_exhausted_action := Halt; md_accounting_scope := Global;
                     md_allow_stub_client := false; md_require_node_auth := true;
                     md_config_log_format := Json |}
  end.

(** ** Sources *)

Inductive ConfigSource : Type :=
  | Cli
  | EnvVar (name : string)
  | ExperimentFile (path : string)
  | FromMode (profile : string)
  | FromTopology (profile : string)
  | BuiltinFallback.

(** ** Parameters

    Every field of [Overrides] but [quorum], which has no fallback. *)
Inductive param : Type :=
  | P_connection_mode | P_auth | P_round_timeout_secs | P_min_reputation_score | P_client_registry_ttl
  | P_max_update_bytes | P_selector | P_seed_mode | P_seed_value | P_aggregator
  | P_robust_byzantine_fraction | P_clip_radius | P_server_learning_rate | P_server_tau
  | P_server_momentum | P_fairness_q | P_scaffold_num_clients | P_zeno_rho | P_server_lipschitz
  | P_reputation_filter_enabled | P_client_side_privacy_transform | P_privacy_mechanism | P_clip_norm
  | P_noise_multiplier | P_target_epsilon | P_delta | P_budget_exhausted_action | P_accounting_scope
  | P_allow_stub_client | P_require_node_auth | P_config_log_format | P_round_log_detail
  | P_round_history_len.

Definition ptype (p : param) : Type :=
  match p with
  | P_connection_mode => ConnectionMode
  | P_auth => AuthMode
  | P_round_timeout_secs | P_client_registry_ttl | P_max_update_bytes | P_seed_value
  | P_scaffold_num_clients | P_round_history_len => Z
  | P_selector | P_aggregator | P_privacy_mechanism => string
  | P_seed_mode => SeedMode
  | P_min_reputation_score | P_robust_byzantine_fraction | P_clip_radius | P_server_learning_rate
  | P_server_tau | P_server_momentum | P_fairness_q | P_zeno_rho | P_server_lipschitz | P_clip_norm
  | P_noise_multiplier => f32
  | P_reputation_filter_enabled | P_client_side_privacy_transform | P_allow_stub_client
  | P_require_node_auth => bool
  | P_target_epsilon | P_delta => f64
  | P_budget_exhausted_action => BudgetExhaustedAction
  | P_accounting_scope => AccountingScope
  | P_config_log_format => LogFormat
  | P_round_log_detail => RoundLogDetail
  end.

(** The resolved [seed_value] is an [Option<u64>]. *)
Definition rtype (p : param) : Type :=
  match p with P_seed_value => option Z | p => ptype p end.

Definition lift (p : param) : ptype p → rtype p :=
  match p return ptype p → rtype p with P_seed_value => Some | _ => λ x, x end.

(** The environment variable a parameter is read from. *)
Definition env_name (p : param) : string :=
  match p with
  | P_connection_mode => "CONFLUX_CONNECTION_MODE" | P_auth => "CONFLUX_AUTH"
  | P_round_timeout_secs => "CONFLUX_ROUND_TIMEOUT_SECS"
  | P_min_reputation_score => "CONFLUX_MIN_REPUTATION_SCORE"
  | P_client_registry_ttl => "CONFLUX_CLIENT_REGISTRY_TTL"
  | P_max_update_bytes => "CONFLUX_MAX_UPDATE_BYTES" | P_selector => "CONFLUX_SELECTOR"
  | P_seed_mode => "CONFLUX_SEED_MODE" | P_seed_value => "CONFLUX_SEED_VALUE"
  | P_aggregator => "CONFLUX_AGGREGATOR"
  | P_robust_byzantine_fraction => "CONFLUX_ROBUST_BYZANTINE_FRACTION"
  | P_clip_radius => "CONFLUX_CLIP_RADIUS" | P_server_learning_rate => "CONFLUX_SERVER_LEARNING_RATE"
  | P_server_tau => "CONFLUX_SERVER_TAU" | P_server_momentum => "CONFLUX_SERVER_MOMENTUM"
  | P_fairness_q => "CONFLUX_FAIRNESS_Q" | P_scaffold_num_clients => "CONFLUX_SCAFFOLD_NUM_CLIENTS"
  | P_zeno_rho => "CONFLUX_ZENO_RHO" | P_server_lipschitz => "CONFLUX_SERVER_LIPSCHITZ"
  | P_reputation_filter_enabled => "CONFLUX_REPUTATION_FILTER_ENABLED"
  | P_client_side_privacy_transform => "CONFLUX_CLIENT_SIDE_PRIVACY_TRANSFORM"
  | P_privacy_mechanism => "CONFLUX_PRIVACY_MECHANISM" | P_clip_norm => "CONFLUX_CLIP_NORM"
  | P_noise_multiplier => "CONFLUX_NOISE_MULTIPLIER" | P_target_epsilon => "CONFLUX_TARGET_EPSILON"
  | P_delta => "CONFLUX_DELTA" | P_budget_exhausted_action => "CONFLUX_BUDGET_EXHAUSTED_ACTION"
  | P_accounting_scope => "CONFLUX_ACCOUNTING_SCOPE" | P_allow_stub_client => "CONFLUX_ALLOW_STUB_CLIENT"
  | P_require_node_auth => "CONFLUX_REQUIRE_NODE_AUTH"
  | P_config_log_format => "CONFLUX_CONFIG_LOG_FORMAT"
  | P_round_log_detail => "CONFLUX_ROUND_LOG_DETAIL" | P_round_history_len => "CONFLUX_ROUND_HISTORY_LEN"
  end.

(** [TOPOLOGY_KEYS] and [MODE_KEYS]: the keys each axis owns. *)
Definition topology_key (p : param) : option string :=
  match p with
  | P_connection_mode => Some "connection_mode" | P_auth => Some "auth"
  | P_round_timeout_secs => Some "round_timeout_secs"
  | P_min_reputation_score => Some "min_reputation_score"
  | P_client_registry_ttl => Some "client_registry_ttl"
  | _ => None
  end%string.

Definition mode_key (p : param) : option string :=
  match p with
  | P_seed_mode => Some "seed_mode" | P_seed_value => Some "seed_value"
  | P_budget_exhausted_action => Some "budget_exhausted_action"
  | P_accounting_scope => Some "accounting_scope" | P_allow_stub_client => Some "allow_stub_client"
  | P_require_node_auth => Some "require_node_auth" | P_config_log_format => Some "config_log_format"
  | _ => None
  end%string.

Definition topology_tier (td : TopologyDefaults) (p : param) : option (rtype p) :=
  match p return option (rtype p) with
  | P_connection_mode => Some (td_connection_mode td)
  | P_auth => Some (td_auth td)
  | P_round_timeout_secs => Some (td_round_timeout_secs td)
  | P_min_reputation_score => Some (td_min_reputation_score td)
  | P_client_registry_ttl => Some (td_client_registry_ttl td)
  | _ => None
  end.

Definition mode_tier (md : ModeDefaults) (p : param) : option (rtype p) :=
  match p return option (rtype p) with
  | P_seed_mode => Some (md_seed_mode md)
  | P_seed_value => Some (md_seed_value md)
  | P_budget_exhausted_action => Some (md_budget_exhausted_action md)
  | P_accounting_scope => Some (md_accounting_scope md)
  | P_allow_stub_client => Some (md_allow_stub_client md)
  | P_require_node_auth => Some (md_require_node_auth md)
  | P_config_log_format => Some (md_config_log_format md)
  | _ => None
  end.

(** The built-in fallback, the axis's own default for a parameter it owns. *)
Definition builtin (td : TopologyDefaults) (md : ModeDefaults) (p : param) : rtype p :=
  match p return rtype p with
  | P_connection_mode => td_connection_mode td
  | P_auth => td_auth td
  | P_round_timeout_secs => td_round_timeout_secs td
  | P_min_reputation_score => td_min_reputation_score td
  | P_client_registry_ttl => td_client_registry_ttl td
  | P_max_update_bytes => 256 * 1024 * 1024
  | P_selector => "uniform_random"%string
  | P_seed_mode => md_seed_mode md
  | P_seed_value => md_seed_value md
  | P_aggregator => "fedavg"%string
  | P_robust_byzantine_fraction => f32_lit 2 10
  | P_clip_radius => f32_one
  | P_server_learning_rate => f32_one
  | P_server_tau => f32_lit 1 1000
  | P_server_momentum => f32_lit 9 10
  | P_fairness_q => f32_zero
  | P_scaffold_num_clients => 1
  | P_zeno_rho => f32_lit 5 10000
  | P_server_lipschitz => f32_one
  | P_reputation_filter_enabled => false
  | P_client_side_privacy_transform => false
  | P_privacy_mechanism => "gaussian_clipping"%string
  | P_clip_norm => f32_one
  | P_noise_multiplier => f32_one
  | P_target_epsilon => f64_of_Z 8
  | P_delta => f64_lit 1 100000
  | P_budget_exhausted_action => md_budget_exhausted_action md
  | P_accounting_scope => md_accounting_scope md
  | P_allow_stub_client => md_allow_stub_client md
  | P_require_node_auth => md_require_node_auth md
  | P_config_log_format => md_config_log_format md
  | P_round_log_detail => Changes
  | P_round_history_len => 128
  end.

Record Overrides := { ov : ∀ p, option (ptype p); ov_quorum : option Z }.

Definition Overrides_default : Overrides := {| ov _ := None; ov_quorum := None |}.

(** ** Resolution *)

Record Resolved (T : Type) := { value : T; source : ConfigSource }.
Arguments value {T} _.
Arguments source {T} _.
Arguments Build_Resolved {T} _ _.

Definition layer {T} (builtin : T) (topology mode file env cli : option T)
    (topology_source mode_source file_source env_source : ConfigSource) : Resolved T :=
  match cli with
  | Some v => {| value := v; source := Cli |}
  | None =>
  match env with
  | Some v => {| value := v; source := env_source |}
  | None =>
  match file with
  | Some v => {| value := v; source := file_source |}
  | None =>
  match mode with
  | Some v => {| value := v; source := mode_source |}
  | None =>
  match topology with
  | Some v => {| value := v; source := topology_source |}
  | None => {| value := builtin; source := BuiltinFallback |}
  end end end end end.

Record TopologyProfile := {
  tp_name : string;
  tp_base : Topology;
  tp_defaults : TopologyDefaults;
  tp_chain : list string;
  tp_origins : gmap string string;
}.

Record ModeProfile := {
  mp_name : string;
  mp_base : Mode;
  mp_defaults : ModeDefaults;
  mp_chain : list string;
  mp_origins : gmap string string;
}.

Definition TopologyProfile_builtin (topology : Topology) : TopologyProfile :=
  {| tp_name := Topology_label topology; tp_base := topology; tp_defaults := Topology_defaults topology;
     tp_chain := [Topology_label topology]; tp_origins := ∅ |}.

Definition ModeProfile_builtin (mode : Mode) : ModeProfile :=
  {| mp_name := Mode_label mode; mp_base := mode; mp_defaults := Mode_defaults mode;
     mp_chain := [Mode_label mode]; mp_origins := ∅ |}.

Definition source_label (name : string) (origins : gmap string string) (key : string) : string :=
  match origins !! key with
  | None => name
  | Some origin => if decide (origin = name) then name else ((name +:+ " → ") +:+ origin)%string
  end.

Record ResolvedConfig := {
  cfg_topology : Topology;
  cfg_mode : Mode;
  cfg : ∀ p, Resolved (rtype p);
  cfg_quorum : option (Resolved Z);
}.

Definition topo_src (topology : TopologyProfile) (p : param) : ConfigSource :=
  FromTopology match topology_key p with
               | Some key => source_label (tp_name topology) (tp_origins topology) key
               | None => tp_name topology
               end.

Definition mode_src (mode : ModeProfile) (p : param) : ConfigSource :=
  FromMode match mode_key p with
           | Some key => source_label (mp_name mode) (mp_origins mode) key
           | None => mp_name mode
           end.

Definition file_overrides (file : option (string * Overrides)) (p : param) : option (ptype p) :=
  match file with Some (_, o) => ov o p | None => None end.

Definition file_source (file : option (string * Overrides)) : ConfigSource :=
  ExperimentFile match file with Some (path, _) => path | None => "" end.

Definition resolve_param (topology : TopologyProfile) (mode : ModeProfile)
    (file : option (string * Overrides)) (env cli : Overrides) (p : param) : Resolved (rtype p) :=
  layer (builtin (tp_defaults topology) (mp_defaults mode) p)
    (topology_tier (tp_defaults topology) p) (mode_tier (mp_defaults mode) p)
    (lift p <$> file_overrides file p) (lift p <$> ov env p) (lift p <$> ov cli p)
    (topo_src topology p) (mode_src mode p) (file_source file) (EnvVar (env_name p)).

Definition resolve_quorum (file : option (string * Overrides)) (env cli : Overrides) : option (Resolved Z) :=
  match ov_quorum cli, ov_quorum env, match file with Some (_, o) => ov_quorum o | None => None end with
  | Some v, _, _ => Some {| value := v; source := Cli |}
  | None, Some v, _ => Some {| value := v; source := EnvVar "CONFLUX_QUORUM" |}
  | None, None, Some v => Some {| value := v; source := file_source file |}
  | None, None, None => None
  end.

Definition resolve_with_profiles (topology : TopologyProfile) (mode : ModeProfile)
    (file : option (string * Overrides)) (env cli : Overrides) : ResolvedConfig :=
  {| cfg_topology := tp_base topology; cfg_mode := mp_base mode;
     cfg := resolve_param topology mode file env cli;
     cfg_quorum := resolve_quorum file env cli |}.

Definition resolve (topology : Topology) (mode : Mode) (file : option (string * Overrides))
    (env cli : Overrides) : ResolvedConfig :=
  resolve_with_profiles (TopologyProfile_builtin topology) (ModeProfile_builtin mode) file env cli.

Definition getv (c : ResolvedConfig) (p : param) : rtype p := value (cfg c p).

(** ** Batch requirements *)

Record BatchRequirement := { required : Z; excluded : Z; citation : string }.

Definition satisfied_by (self : BatchRequirement) (n : Z) : bool := required self <=? n.

Definition excluded_at (byzantine_fraction : f32) (n : Z) : Z :=
  Z.min (f32_floor_to_u64 (byzantine_fraction * f32_of_Z n)%f32) (u64_saturating_sub n 1).

Definition batch_requirement (aggregator : string) (byzantine_fraction : f32) (n : Z)
    : option BatchRequirement :=
  if (n =? 0) || negb (f32_between f32_zero f32_one byzantine_fraction) then None
  else
    let excluded := excluded_at byzantine_fraction n in
    if decide (aggregator = "krum" ∨ aggregator = "multi_krum")%string then
      Some {| required := 2 * excluded + 3; excluded := excluded; citation := "Krum requires n >= 2f + 3" |}
    else if decide (aggregator = "bulyan")%string then
      Some {| required := 4 * excluded + 3; excluded := excluded; citation := "Bulyan requires n >= 4f + 3" |}
    else if decide (aggregator = "trimmed_mean")%string then
      Some {| required := 2 * excluded + 1; excluded := excluded;
              citation := "the trimmed mean must keep >= 1 value" |}
    else None.

(** ** Facts *)

Lemma layer_cli {T} (b : T) t m f e v ts ms fs es :
  layer b t m f e (Some v) ts ms fs es = {| value := v; source := Cli |}.
Proof. done. Qed.

(** The two axes own disjoint parameters. *)
Lemma axes_disjoint td md p :
  topology_tier td p = None ∨ mode_tier md p = None.
Proof. destruct p; simpl; auto. Qed.

Lemma topology_tier_key td p : is_Some (topology_tier td p) ↔ is_Some (topology_key p).
Proof. destruct p; simpl; split; intros [? ?]; try done; eauto. Qed.

Lemma mode_tier_key md p : is_Some (mode_tier md p) ↔ is_Some (mode_key p).
Proof. destruct p; simpl; split; intros [? ?]; try done; eauto. Qed.

Lemma excluded_at_byzantine_count fr n :
  excluded_at fr (Z.of_nat n) = Z.of_nat (byzantine_count fr n).
Proof.
  unfold excluded_at, byzantine_count, u64_saturating_sub.
  assert (0 ≤ f32_floor_to_u64 (fr * f32_of_Z (Z.of_nat n))).
  { unfold f32_floor_to_u64, sf_floor_to_u64. repeat case_match; unfold u64_max; lia. }
  rewrite Z2Nat.id by lia. lia.
Qed.

(** ** Properties *)

(** Precedence.  For every parameter, the resolved value is the one of the
    highest tier that sets it (command line, environment, file, mode, topology,
    built-in) and the recorded source names exactly that tier; a tier no axis
    owns is skipped, and no parameter is owned by both axes. *)
Theorem resolution_precedence (topology : TopologyProfile) (mode : ModeProfile)
    (file : option (string * Overrides)) (env cli : Overrides) (p : param) :
  let r := cfg (resolve_with_profiles topology mode file env cli) p in
  (∀ v, ov cli p = Some v → value r = lift p v ∧ source r = Cli) ∧
  (ov cli p = None →
     (∀ v, ov env p = Some v → value r = lift p v ∧ source r = EnvVar (env_name p)) ∧
     (ov env p = None →
        (∀ path o v, file = Some (path, o) → ov o p = Some v →
           value r = lift p v ∧ source r = ExperimentFile path) ∧
        (file_overrides file p = None →
           (∀ v, mode_tier (mp_defaults mode) p = Some v →
              value r = v ∧ ∃ label, source r = FromMode label) ∧
           (∀ v, topology_tier (tp_defaults topology) p = Some v →
              value r = v ∧ ∃ label, source r = FromTopology label) ∧
           (mode_key p = None → topology_key p = None →
              value r = builtin (tp_defaults topology) (mp_defaults mode) p ∧
              source r = BuiltinFallback)))).
Proof.
  simpl. unfold resolve_param. split; [by intros v ->|]. intros Hcli. rewrite Hcli.
  split; [by intros v ->|]. intros Henv. rewrite Henv. split.
  { intros path o v -> Ho. unfold file_overrides. by rewrite Ho. }
  intros Hf. rewrite Hf. simpl. split; [|split].
  - intros v Hv. rewrite Hv. simpl. split; [done|]. by eexists.
  - intros v Hv. destruct (axes_disjoint (tp_defaults topology) (mp_defaults mode) p) as [H|H];
      [congruence|]. rewrite H, Hv. split; [done|]. by eexists.
  - intros Hm Ht.
    assert (mode_tier (mp_defaults mode) p = None) as ->.
    { apply eq_None_not_Some. rewrite mode_tier_key, Hm. by intros []. }
    assert (topology_tier (tp_defaults topology) p = None) as ->; [|done].
    apply eq_None_not_Some. rewrite topology_tier_key, Ht. by intros [].
Qed.

Lemma resolution_precedence_witness :
  let env := {| ov p := match p return option (ptype p) with
                        | P_aggregator => Some "krum"%string | _ => None end; ov_quorum := None |} in
  value (cfg (resolve CrossSilo Research None env Overrides_default) P_aggregator) = "krum"%string ∧
  source (cfg (resolve CrossSilo Research None env Overrides_default) P_aggregator) = EnvVar "CONFLUX_AGGREGATOR".
Proof.
  intros env.
  destruct (resolution_precedence (TopologyProfile_builtin CrossSilo) (ModeProfile_builtin Research)
    None env Overrides_default P_aggregator) as [_ H].
  destruct (H eq_refl) as [He _]. exact (He "krum"%string eq_refl).
Defined.

(** The two copies of the Byzantine count agree, and a batch that satisfies
    its method's requirement is one on which the implementation does exactly
    what the paper says: Krum's neighbour count is [n - f - 2] with no clamp,
    Bulyan selects [n - 2f] (at least [2f + 3]) updates, and the trimmed mean
    trims exactly [f] values from each end. *)
Theorem requirement_makes_clamps_inert (aggregator : string) (fr : f32) (n : nat) (req : BatchRequirement) :
  batch_requirement aggregator fr (Z.of_nat n) = Some req → satisfied_by req (Z.of_nat n) = true →
  let f := byzantine_count fr n in
  excluded req = Z.of_nat f ∧
  (aggregator = "krum"%string ∨ aggregator = "multi_krum"%string →
     neighbors_to_sum fr n = (n - f - 2)%nat ∧ (1 ≤ n - f - 2)%nat) ∧
  (aggregator = "bulyan"%string → (Nat.max (n - 2 * f) 1 = n - 2 * f ∧ 2 * f + 3 ≤ n - 2 * f)%nat) ∧
  (aggregator = "trimmed_mean"%string → trim_count {| trimmed_byzantine_fraction := fr |} n = f).
Proof.
  intros Hreq Hsat f. unfold batch_requirement, satisfied_by in *.
  destruct (_ || _); [done|].
  rewrite excluded_at_byzantine_count in Hreq. fold f in Hreq.
  assert (Hb := byzantine_count_le fr n). fold f in Hb.
  repeat case_decide; try done; injection Hreq as <-; simpl in Hsat; apply Z.leb_le in Hsat.
  - split; [done|]. split; [|split; intros Ha; exfalso; rewrite Ha in *; naive_solver].
    intros _. unfold neighbors_to_sum, clamp. fold f. lia.
  - split; [done|]. split; [done|]. split; [intros _; lia|].
    intros Ha. exfalso. rewrite Ha in *. done.
  - split; [done|]. split; [done|]. split; [done|]. intros _.
    unfold trim_count. cbn [trimmed_byzantine_fraction]. fold f. apply Nat.min_l.
    apply Nat.div_le_lower_bound; lia.
Qed.

Lemma requirement_makes_clamps_inert_witness :
  trim_count {| trimmed_byzantine_fraction := one_fifth |} 5 = 1%nat.
Proof.
  pose (req := {| required := 3; excluded := 1; citation := "the trimmed mean must keep >= 1 value" |}).
  assert (H : batch_requirement "trimmed_mean" one_fifth (Z.of_nat 5) = Some req) by (vm_compute; reflexivity).
  assert (Hs : satisfied_by req (Z.of_nat 5) = true) by (vm_compute; reflexivity).
  destruct (requirement_makes_clamps_inert _ _ _ _ H Hs) as (_ & _ & _ & Ht).
  rewrite (Ht eq_refl). vm_compute. reflexivity.
Defined.

(** A larger batch may violate what a smaller one satisfies: the requirement is
    not monotone in [n]. *)
Lemma requirement_not_monotone :
  ∃ fr r r', batch_requirement "krum" fr 9 = Some r ∧ satisfied_by r 9 = true ∧
    batch_requirement "krum" fr 10 = Some r' ∧ satisfied_by r' 10 = false.
Proof.
  exists (f32_lit 4 10). eexists _, _. split; [vm_compute; reflexivity|].
  split; [vm_compute; reflexivity|]. split; [vm_compute; reflexivity|]. vm_compute. reflexivity.
Qed.
