(* ===== verification/State.v ===== *)
(** * The server's shared state ([conflux-server/src/app_state.rs])

    One [AppState] per process: the resolved configuration, the backends picked
    at startup, the round counter, the open round's buffer, the privacy
    accountant and what the round loop publishes about itself
    ([round_verdict.rs], [round_history.rs], [round_health.rs]).  A backend is
    one of a closed set ([any_registry.rs], [any_store.rs],
    [any_node_allowlist.rs]); the networked ones are known by the interface
    their trait states. *)

From S2P Require Import Prelude Float Wire Buffer Weights Averaging Trusted Registry Reputation Privacy Store Config.

Open Scope Z_scope.

(** ** Backends behind their traits *)

(** A sweep has no result of its own; it can still panic. *)
Class ClientRegistry (R : Type) := {
  reg_register : Z → string → R → R * outcome RegistryError ();
  reg_heartbeat : Z → string → R → R * outcome RegistryError ();
  reg_evict_expired : Z → Z → R → R * outcome RegistryError ();
  reg_active_clients : R → outcome RegistryError (list string);
}.

#[export] Instance InMemoryRegistry_registry `{HashOrder} : ClientRegistry InMemoryRegistry := {|
  reg_register now id r := register now id r;
  reg_heartbeat now id r := heartbeat now id r;
  reg_evict_expired now ttl r := (evict_expired now ttl r, Ok ());
  reg_active_clients r := Ok (active_clients r);
|}.

Inductive AnyRegistry (Redis : Type) : Type :=
  | AnyRegistry_InMemory (r : InMemoryRegistry)
  | AnyRegistry_Redis (r : Redis).
Arguments AnyRegistry_InMemory {Redis} r.
Arguments AnyRegistry_Redis {Redis} r.

#[export] Instance AnyRegistry_registry `{HashOrder} `{ClientRegistry Redis} : ClientRegistry (AnyRegistry Redis) := {|
  reg_register now id self :=
    match self with
    | AnyRegistry_InMemory r => let '(r, o) := reg_register now id r in (AnyRegistry_InMemory r, o)
    | AnyRegistry_Redis r => let '(r, o) := reg_register now id r in (AnyRegistry_Redis r, o)
    end;
  reg_heartbeat now id self :=
    match self with
    | AnyRegistry_InMemory r => let '(r, o) := reg_heartbeat now id r in (AnyRegistry_InMemory r, o)
    | AnyRegistry_Redis r => let '(r, o) := reg_heartbeat now id r in (AnyRegistry_Redis r, o)
    end;
  reg_evict_expired now ttl self :=
    match self with
    | AnyRegistry_InMemory r => let '(r, o) := reg_evict_expired now ttl r in (AnyRegistry_InMemory r, o)
    | AnyRegistry_Redis r => let '(r, o) := reg_evict_expired now ttl r in (AnyRegistry_Redis r, o)
    end;
  reg_active_clients self :=
    match self with
    | AnyRegistry_InMemory r => reg_active_clients r
    | AnyRegistry_Redis r => reg_active_clients r
    end;
|}.

Inductive NodeAuthError : Type := NodeAuthBackend (message : string).

Class NodeAllowlist (A : Type) := {
  nal_allow : string → NodeIdentity → A → A * outcome NodeAuthError ();
  nal_revoke : string → A → A * outcome NodeAuthError ();
  nal_check : string → NodeIdentity → A → outcome NodeAuthError bool;
  nal_list : A → outcome NodeAuthError (list string);
}.

#[export] Instance InMemoryNodeAllowlist_allowlist `{HashOrder} : NodeAllowlist InMemoryNodeAllowlist := {|
  nal_allow id identity a := (allow id identity a, Ok ());
  nal_revoke id a := (revoke id a, Ok ());
  nal_check id presented a := Ok (check id presented a);
  nal_list a := Ok (list_allowed a);
|}.

Inductive AnyNodeAllowlist (Redis : Type) : Type :=
  | AnyNodeAllowlist_InMemory (a : InMemoryNodeAllowlist)
  | AnyNodeAllowlist_Redis (a : Redis).
Arguments AnyNodeAllowlist_InMemory {Redis} a.
Arguments AnyNodeAllowlist_Redis {Redis} a.

#[export] Instance AnyNodeAllowlist_allowlist `{HashOrder} `{NodeAllowlist Redis}
    : NodeAllowlist (AnyNodeAllowlist Redis) := {|
  nal_allow id identity self :=
    match self with
    | AnyNodeAllowlist_InMemory a => let '(a, o) := nal_allow id identity a in (AnyNodeAllowlist_InMemory a, o)
    | AnyNodeAllowlist_Redis a => let '(a, o) := nal_allow id identity a in (AnyNodeAllowlist_Redis a, o)
    end;
  nal_revoke id self :=
    match self with
    | AnyNodeAllowlist_InMemory a => let '(a, o) := nal_revoke id a in (AnyNodeAllowlist_InMemory a, o)
    | AnyNodeAllowlist_Redis a => let '(a, o) := nal_revoke id a in (AnyNodeAllowlist_Redis a, o)
    end;
  nal_check id presented self :=
    match self with
    | AnyNodeAllowlist_InMemory a => nal_check id presented a
    | AnyNodeAllowlist_Redis a => nal_check id presented a
    end;
  nal_list self :=
    match self with
    | AnyNodeAllowlist_InMemory a => nal_list a
    | AnyNodeAllowlist_Redis a => nal_list a
    end;
|}.

Inductive AnyStore (Postgres S3 : Type) : Type :=
  | AnyStore_InMemory (s : InMemoryStore)
  | AnyStore_Postgres (s : Postgres)
  | AnyStore_S3 (s : S3).
Arguments AnyStore_InMemory {Postgres S3} s.
Arguments AnyStore_Postgres {Postgres S3} s.
Arguments AnyStore_S3 {Postgres S3} s.

#[export] Instance AnyStore_store `{Store Postgres} `{Store S3} : Store (AnyStore Postgres S3) := {|
  load_latest_weights self :=
    match self with
    | AnyStore_InMemory s => load_latest_weights s
    | AnyStore_Postgres s => load_latest_weights s
    | AnyStore_S3 s => load_latest_weights s
    end;
  save_checkpoint round weights self :=
    match self with
    | AnyStore_InMemory s => let '(s, o) := save_checkpoint round weights s in (AnyStore_InMemory s, o)
    | AnyStore_Postgres s => let '(s, o) := save_checkpoint round weights s in (AnyStore_Postgres s, o)
    | AnyStore_S3 s => let '(s, o) := save_checkpoint round weights s in (AnyStore_S3 s, o)
    end;
  list_checkpoints self :=
    match self with
    | AnyStore_InMemory s => list_checkpoints s
    | AnyStore_Postgres s => list_checkpoints s
    | AnyStore_S3 s => list_checkpoints s
    end;
  load_checkpoint round self :=
    match self with
    | AnyStore_InMemory s => load_checkpoint round s
    | AnyStore_Postgres s => load_checkpoint round s
    | AnyStore_S3 s => load_checkpoint round s
    end;
|}.

(** The enum keeps the trait's promise when its members do. *)
#[export] Instance AnyStore_laws {bound : Z} `{!Store Postgres, !Store S3}
    `{!StoreLawsBelow bound Postgres, !StoreLawsBelow bound S3} : StoreLawsBelow bound (AnyStore Postgres S3).
Proof.
  split.
  - intros r ws [s|s|s] s' rs Hr Hl Hrs Hsave; cbn [save_checkpoint AnyStore_store] in Hsave;
      destruct (save_checkpoint r ws s) as [s1 o] eqn:Hs; injection Hsave as <- ->;
      exact (store_save_latest r ws s s1 rs Hr Hl Hrs Hs).
  - intros r ws [s|s|s] s' rs e Hr Hl Hrs Hsave; cbn [save_checkpoint AnyStore_store] in Hsave;
      destruct (save_checkpoint r ws s) as [s1 o] eqn:Hs; injection Hsave as <- ->;
      exact (store_save_error r ws s s1 rs e Hr Hl Hrs Hs).
  - intros r ws [s|s|s]; cbn [save_checkpoint load_latest_weights AnyStore_store];
      destruct (store_no_panic (bound:=bound) r ws s) as [Hp Hl]; split; try exact Hl;
      destruct (save_checkpoint r ws s) as [s1 o]; exact Hp.
Qed.

(** The durable log of the accountant's rounds. *)
Class PrivacyRoundLog (L : Type) := {
  append_round : f32 → f32 → L → L * outcome StoreError ();
  append_round_for_client : string → f32 → f32 → L → L * outcome StoreError ();
  load_rounds : L → outcome StoreError (list (f32 * f32));
  load_client_rounds : L → outcome StoreError (gmap string (list (f32 * f32)));
}.

(** An append that succeeds is the last entry of what is loaded back; one that
    fails leaves the log as it was. *)
Class PrivacyRoundLogLaws (L : Type) `{PrivacyRoundLog L} := {
  append_round_ok sigma q l l' rs cs :
    load_rounds l = Ok rs → load_client_rounds l = Ok cs → append_round sigma q l = (l', Ok ()) →
    load_rounds l' = Ok (rs ++ [(sigma, q)]) ∧ load_client_rounds l' = Ok cs;
  append_client_ok id sigma q l l' rs cs :
    load_rounds l = Ok rs → load_client_rounds l = Ok cs → append_round_for_client id sigma q l = (l', Ok ()) →
    load_rounds l' = Ok rs ∧
    load_client_rounds l' = Ok (<[id := default [] (cs !! id) ++ [(sigma, q)]]> cs);
}.

(** A log in memory, for the witnesses. *)
Definition MemoryLog : Type := list (f32 * f32) * gmap string (list (f32 * f32)).

#[export] Instance MemoryLog_log : PrivacyRoundLog MemoryLog := {|
  append_round sigma q l := ((l.1 ++ [(sigma, q)], l.2), Ok ());
  append_round_for_client id sigma q l := ((l.1, <[id := default [] (l.2 !! id) ++ [(sigma, q)]]> l.2), Ok ());
  load_rounds l := Ok l.1;
  load_client_rounds l := Ok l.2;
|}.

#[export] Instance MemoryLog_laws : PrivacyRoundLogLaws MemoryLog.
Proof. split; simpl; intros; simplify_eq/=; done. Qed.

(** The connection to the trusted-reference sidecar: its errors are strings. *)
Class Sidecar (T : Type) := {
  reference_update : Z → bytes → T → T * outcome string bytes;
  score_updates : Z → bytes → list (string * bytes) → T → T * outcome string (list (string * f32));
}.

(** ** What the round loop publishes *)

Inductive RoundLoopState : Type := Starting | Running | Degraded | Stopped.

Definition as_u8 (self : RoundLoopState) : Z :=
  match self with Starting => 0 | Running => 1 | Degraded => 2 | Stopped => 3 end.

Definition from_u8 (v : Z) : RoundLoopState :=
  if v =? 0 then Starting else if v =? 1 then Running else if v =? 2 then Degraded else Stopped.

Definition as_str (self : RoundLoopState) : string :=
  match self with
  | Starting => "starting" | Running => "running" | Degraded => "degraded" | Stopped => "stopped"
  end.

Definition is_healthy (self : RoundLoopState) : bool :=
  match self with Stopped => false | _ => true end.

(** The four atomics; each is stored whole. *)
Record RoundLoopHealth := {
  rlh_state : Z;
  rlh_consecutive_failures : Z;
  rlh_last_completed_round : Z;
  rlh_last_error : option string;
}.

Definition RoundLoopHealth_new : RoundLoopHealth :=
  {| rlh_state := as_u8 Starting; rlh_consecutive_failures := 0;
     rlh_last_completed_round := 0; rlh_last_error := None |}.

Definition record_success (round : Z) (self : RoundLoopHealth) : RoundLoopHealth :=
  {| rlh_state := as_u8 Running; rlh_consecutive_failures := 0;
     rlh_last_completed_round := round; rlh_last_error := None |}.

(** [fetch_add] wraps. *)
Definition record_transient_failure (error : string) (self : RoundLoopHealth) : RoundLoopHealth * Z :=
  let failures := (rlh_consecutive_failures self + 1) mod 2 ^ 32 in
  ({| rlh_state := as_u8 Degraded; rlh_consecutive_failures := failures;
      rlh_last_completed_round := rlh_last_completed_round self; rlh_last_error := Some error |}, failures).

Definition record_stopped (reason : option string) (self : RoundLoopHealth) : RoundLoopHealth :=
  {| rlh_state := as_u8 Stopped; rlh_consecutive_failures := rlh_consecutive_failures self;
     rlh_last_completed_round := rlh_last_completed_round self; rlh_last_error := reason |}.

Definition health_state (self : RoundLoopHealth) : RoundLoopState := from_u8 (rlh_state self).

Definition backoff_secs (consecutive_failures : Z) : Z :=
  let exponent := Z.min (Z.max 0 (consecutive_failures - 1)) 8 in
  Z.min (Z.shiftl 2 exponent) 60.

(** *** Round summaries and history *)

Record RoundSummary := {
  sum_round : Z;
  sum_flush_reason : FlushReason;
  num_selected : nat;
  num_submitted : nat;
  num_passed : nat;
}.

Record RoundRecord := {
  rr_round : Z;
  completed_at : Z;
  rr_flush_reason : string;
  rr_selected : nat;
  rr_submitted : nat;
  rr_passed : nat;
  cited_requirement_satisfied : option bool;
}.

Record RoundHistory := { records : list RoundRecord; capacity : nat }.

Definition RoundHistory_new (capacity : nat) : RoundHistory := {| records := []; capacity := capacity |}.

(** [now] is the wall clock in seconds since the epoch. *)
Definition history_record (now : Z) (summary : RoundSummary) (satisfied : option bool)
    (self : RoundHistory) : RoundHistory :=
  if (capacity self =? 0)%nat then self
  else
    let record :=
      {| rr_round := sum_round summary; completed_at := Z.max 0 now;
         rr_flush_reason := match sum_flush_reason summary with Quorum => "quorum" | Timeout => "timeout" end;
         rr_selected := num_selected summary; rr_submitted := num_submitted summary;
         rr_passed := num_passed summary; cited_requirement_satisfied := satisfied |} in
    let records := if (length (records self) =? capacity self)%nat then tail (records self) else records self in
    {| records := records ++ [record]; capacity := capacity self |}.

Definition recent (limit : nat) (self : RoundHistory) : list RoundRecord := take limit (rev (records self)).

Definition history_len (self : RoundHistory) : nat := length (records self).
Definition history_is_empty (self : RoundHistory) : bool := (history_len self =? 0)%nat.

(** ** The state *)

(** [conflux_core::TrustedReference]'s counterpart of key material is opaque:
    [K] is the type of a loaded JWT public key. *)
Section app_state.
Context {N : Notify} {R S A G L T K : Type}.

Record AppState := {
  st_config : ResolvedConfig;
  st_registry : R;
  st_verdict : option bool;
  st_history : RoundHistory;
  st_store : S;
  st_node_allowlist : A;
  st_selector : UniformRandomSelector;
  st_aggregator : G;
  st_privacy : GaussianClippingPrivacy;
  st_accountant : RdpAccountant;
  st_accountant_log : option L;
  st_round : Z;
  st_current_buffer : option (RoundBuffer N);
  st_health : RoundLoopHealth;
  st_push_sender : list TaskResponse;
  st_trusted_reference : option T;
  st_jwt_key : option K;
}.
End app_state.
Arguments AppState N R S A G L T K : clear implicits.

(** ** Startup *)

(** [BackendSelection]: what each choice carries (URLs, keys) only reaches the
    backend's own [connect]. *)
Inductive RegistryBackend : Type := RB_Memory | RB_Redis (url : string).
Inductive StoreBackendChoice : Type := SB_Memory | SB_Postgres (url : string) | SB_S3 (endpoint bucket access_key secret_key : string).
Inductive AccountingBackend : Type := AB_Disabled | AB_Postgres (url : string).

Record BackendSelection := {
  bs_registry : RegistryBackend;
  bs_store : StoreBackendChoice;
  bs_accounting : AccountingBackend;
}.

Inductive BackendSelectionError : Type :=
  | ProductionRequiresDurableRegistry
  | ProductionRequiresDurableStore
  | ProductionRequiresPersistentAccounting.

Definition validate_production_backends (mode : Mode) (selection : BackendSelection)
    : outcome BackendSelectionError () :=
  if decide (mode = Production) then
    match bs_registry selection with
    | RB_Memory => Err ProductionRequiresDurableRegistry
    | RB_Redis _ =>
        match bs_store selection with
        | SB_Memory => Err ProductionRequiresDurableStore
        | _ =>
            match bs_accounting selection with
            | AB_Disabled => Err ProductionRequiresPersistentAccounting
            | AB_Postgres _ => Ok ()
            end
        end
    end
  else Ok ().

Section startup.
Context {N : Notify} {R S A G L T K : Type} `{PrivacyRoundLog L}.
(** The order in which a [HashMap] yields its entries. *)
Context (entry_order : list (string * list (f32 * f32)) → list (string * list (f32 * f32))).

Definition replay_rounds (rounds : list (f32 * f32)) (accountant : RdpAccountant) : RdpAccountant :=
  foldl (λ acc '(noise_multiplier, sample_rate), record_round noise_multiplier sample_rate acc) accountant rounds.

Definition replay_client (client_id : string) (rounds : list (f32 * f32)) (accountant : RdpAccountant)
    : RdpAccountant :=
  foldl (λ acc '(noise_multiplier, sample_rate),
           record_round_for_client client_id noise_multiplier sample_rate acc) accountant rounds.

(** [connect_accounting], from the opened log on. *)
Definition connect_accounting (log : L) : outcome StoreError (RdpAccountant * option L) :=
  rounds ← load_rounds log;
  let accountant := replay_rounds rounds RdpAccountant_new in
  client_rounds ← load_client_rounds log;
  Ok (foldl (λ acc '(client_id, rounds), replay_client client_id rounds acc) accountant
        (entry_order (map_to_list client_rounds)), Some log).

(** [assemble]: the aggregator is built by name before ([build_aggregator]); an
    unknown selector or mechanism panics. *)
Definition assemble (config : ResolvedConfig) (registry : R) (store : S) (node_allowlist : A)
    (accountant : RdpAccountant) (accountant_log : option L) (aggregator : G)
    : outcome Empty_set (AppState N R S A G L T K) :=
  let seed :=
    match getv config P_seed_mode with
    | FixedSeed => Registry.Fixed (default 42 (getv config P_seed_value))
    | OsRandomSeed => Registry.OsRandom
    end in
  match build_selector (getv config P_selector) seed,
        build_privacy_mechanism (getv config P_privacy_mechanism) (getv config P_clip_norm)
          (getv config P_noise_multiplier) with
  | Ok selector, Ok privacy =>
      Ok {| st_config := config; st_registry := registry; st_verdict := None;
            st_history := RoundHistory_new (Z.to_nat (getv config P_round_history_len));
            st_store := store; st_node_allowlist := node_allowlist; st_selector := selector;
            st_aggregator := aggregator; st_privacy := privacy; st_accountant := accountant;
            st_accountant_log := accountant_log; st_round := 1; st_current_buffer := None;
            st_health := RoundLoopHealth_new; st_push_sender := []; st_trusted_reference := None;
            st_jwt_key := None |}
  | _, _ => Panic
  end.

(** *** One field of the state replaced *)
Notation AppState := (AppState N R S A G L T K).

Definition set_registry (x : R) (s : AppState) : AppState :=
  let 'Build_AppState c _ v h st al se ag p ac lg r b he ps tr jw := s in
  Build_AppState c x v h st al se ag p ac lg r b he ps tr jw.
Definition set_verdict (x : option bool) (s : AppState) : AppState :=
  let 'Build_AppState c re _ h st al se ag p ac lg r b he ps tr jw := s in
  Build_AppState c re x h st al se ag p ac lg r b he ps tr jw.
Definition set_history (x : RoundHistory) (s : AppState) : AppState :=
  let 'Build_AppState c re v _ st al se ag p ac lg r b he ps tr jw := s in
  Build_AppState c re v x st al se ag p ac lg r b he ps tr jw.
Definition set_store (x : S) (s : AppState) : AppState :=
  let 'Build_AppState c re v h _ al se ag p ac lg r b he ps tr jw := s in
  Build_AppState c re v h x al se ag p ac lg r b he ps tr jw.
Definition set_node_allowlist (x : A) (s : AppState) : AppState :=
  let 'Build_AppState c re v h st _ se ag p ac lg r b he ps tr jw := s in
  Build_AppState c re v h st x se ag p ac lg r b he ps tr jw.
Definition set_aggregator (x : G) (s : AppState) : AppState :=
  let 'Build_AppState c re v h st al se _ p ac lg r b he ps tr jw := s in
  Build_AppState c re v h st al se x p ac lg r b he ps tr jw.
Definition set_accountant (x : RdpAccountant) (s : AppState) : AppState :=
  let 'Build_AppState c re v h st al se ag p _ lg r b he ps tr jw := s in
  Build_AppState c re v h st al se ag p x lg r b he ps tr jw.
Definition set_accountant_log (x : option L) (s : AppState) : AppState :=
  let 'Build_AppState c re v h st al se ag p ac _ r b he ps tr jw := s in
  Build_AppState c re v h st al se ag p ac x r b he ps tr jw.
Definition set_round (x : Z) (s : AppState) : AppState :=
  let 'Build_AppState c re v h st al se ag p ac lg _ b he ps tr jw := s in
  Build_AppState c re v h st al se ag p ac lg x b he ps tr jw.
Definition set_current_buffer (x : option (RoundBuffer N)) (s : AppState) : AppState :=
  let 'Build_AppState c re v h st al se ag p ac lg r _ he ps tr jw := s in
  Build_AppState c re v h st al se ag p ac lg r x he ps tr jw.
Definition set_health (x : RoundLoopHealth) (s : AppState) : AppState :=
  let 'Build_AppState c re v h st al se ag p ac lg r b _ ps tr jw := s in
  Build_AppState c re v h st al se ag p ac lg r b x ps tr jw.
Definition set_push_sender (x : list TaskResponse) (s : AppState) : AppState :=
  let 'Build_AppState c re v h st al se ag p ac lg r b he _ tr jw := s in
  Build_AppState c re v h st al se ag p ac lg r b he x tr jw.
Definition set_trusted_reference_conn (x : option T) (s : AppState) : AppState :=
  let 'Build_AppState c re v h st al se ag p ac lg r b he ps _ jw := s in
  Build_AppState c re v h st al se ag p ac lg r b he ps x jw.

(** [with_trusted_reference], [with_jwt_key]. *)
Definition with_trusted_reference (transport : T) (s : AppState) : AppState :=
  set_trusted_reference_conn (Some transport) s.
Definition with_jwt_key (jwt_key : option K) (s : AppState) : AppState :=
  let 'Build_AppState c re v h st al se ag p ac lg r b he ps tr _ := s in
  Build_AppState c re v h st al se ag p ac lg r b he ps tr jwt_key.
End startup.

(** ** Facts *)

Lemma from_as_u8 s : from_u8 (as_u8 s) = s.
Proof. by destruct s. Qed.

Lemma length_history_record now summary sat self :
  (length (records self) ≤ capacity self)%nat →
  (length (records (history_record now summary sat self)) ≤ capacity self)%nat ∧
  capacity (history_record now summary sat self) = capacity self.
Proof.
  intros Hl. unfold history_record. destruct (capacity self =? 0)%nat eqn:Hc; [done|].
  apply Nat.eqb_neq in Hc. split; [|done]. simpl. rewrite length_app. simpl.
  destruct (length (records self) =? capacity self)%nat eqn:Hf.
  - apply Nat.eqb_eq in Hf. destruct (records self); simpl in *; lia.
  - apply Nat.eqb_neq in Hf. lia.
Qed.

Lemma client_rounds_replay_rounds rounds acc : client_rounds (replay_rounds rounds acc) = client_rounds acc.
Proof. revert acc. induction rounds as [|[s q] l IH]; intros acc; simpl; [done|]. unfold replay_rounds in *. by rewrite IH. Qed.

Lemma rounds_replay_rounds rs acc : rounds (replay_rounds rs acc) = rounds acc ++ rs.
Proof.
  revert acc. induction rs as [|[s q] l IH]; intros acc; simpl; [by rewrite app_nil_r|].
  unfold replay_rounds in *. rewrite IH. simpl. by rewrite <-app_assoc.
Qed.

Lemma replay_client_spec id rs acc :
  rounds (replay_client id rs acc) = rounds acc ∧
  client_rounds (replay_client id rs acc) =
    if decide (rs = []) then client_rounds acc
    else <[id := default [] (client_rounds acc !! id) ++ rs]> (client_rounds acc).
Proof.
  revert acc. induction rs as [|[s q] l IH]; intros acc; simpl; [done|].
  unfold replay_client in *. destruct (IH (record_round_for_client id s q acc)) as [-> ->].
  split; [done|]. simpl. rewrite lookup_insert_eq. simpl. case_decide as Hl.
  - subst l. done.
  - rewrite insert_insert_eq, <-app_assoc. done.
Qed.

Lemma backoff_secs_eq k : backoff_secs k = Z.min (2 * 2 ^ Z.min (Z.max 0 (k - 1)) 8) 60.
Proof. unfold backoff_secs. by rewrite Z.shiftl_mul_pow2 by lia. Qed.

Lemma backoff_bounds k : 2 ≤ backoff_secs k ≤ 60.
Proof.
  rewrite backoff_secs_eq. pose proof (Z.pow_pos_nonneg 2 (Z.min (Z.max 0 (k - 1)) 8)). lia.
Qed.

(** What [history_record] appends. *)
Definition record_of (now : Z) (summary : RoundSummary) (satisfied : option bool) : RoundRecord :=
  {| rr_round := sum_round summary; completed_at := Z.max 0 now;
     rr_flush_reason := match sum_flush_reason summary with Quorum => "quorum" | Timeout => "timeout" end;
     rr_selected := num_selected summary; rr_submitted := num_submitted summary;
     rr_passed := num_passed summary; cited_requirement_satisfied := satisfied |}.

Lemma drop_snoc_tail {X} (l : list X) x n :
  (n < length (l ++ [x]))%nat → drop n (l ++ [x]) = drop n l ++ [x].
Proof. rewrite length_app. simpl. intros Hn. apply drop_app_le. lia. Qed.

Lemma tail_drop {X} (l : list X) n : tail (drop n l) = drop (S n) l.
Proof. revert n. induction l as [|x l IH]; intros [|n]; [done..|exact (IH n)]. Qed.

(** ** Properties *)

(** The history of any run is the last [round_history_len] completed
    rounds, and [recent] lists them newest first; a capacity of zero keeps
    nothing. *)
Theorem history_keeps_last_rounds (cap : nat) (rounds : list (Z * RoundSummary * option bool)) (limit : nat) :
  let h := foldl (λ h '(now, summary, sat), history_record now summary sat h) (RoundHistory_new cap) rounds in
  let all := map (λ '(now, summary, sat), record_of now summary sat) rounds in
  records h = drop (length all - cap) all ∧ (length (records h) ≤ cap)%nat ∧
  recent limit h = take limit (take cap (rev all)).
Proof.
  intros h all. cut (records h = drop (length all - cap) all ∧ capacity h = cap).
  { intros [Hr _]. rewrite Hr. split; [done|]. rewrite length_drop. split; [lia|].
    unfold recent. rewrite Hr. f_equal. by rewrite firstn_rev. }
  subst h all. induction rounds as [|[[now summary] sat] l IH] using rev_ind; [done|].
  rewrite foldl_app, map_app, !length_app. cbn [foldl map length].
  set (h := foldl _ _ l) in *. set (all := map _ l) in *. clearbody h all. destruct IH as [IHr IHc].
  unfold history_record. rewrite IHc. destruct (cap =? 0)%nat eqn:Hc.
  - apply Nat.eqb_eq in Hc. subst cap. split; [|done]. rewrite IHr.
    rewrite drop_ge by lia. rewrite drop_ge; [done|]. rewrite length_app. simpl. lia.
  - apply Nat.eqb_neq in Hc. split; [|done]. cbn [records]. fold (record_of now summary sat).
    rewrite drop_snoc_tail by (rewrite length_app; simpl; lia). f_equal.
    rewrite IHr, length_drop. destruct (_ =? cap)%nat eqn:Hf.
    + apply Nat.eqb_eq in Hf. rewrite tail_drop. f_equal. lia.
    + apply Nat.eqb_neq in Hf. f_equal. lia.
Qed.

(** The retry delay is at least two seconds, at most a minute and never
    decreases along a streak of failures; a success ends the streak, and what
    the atomics hold reads back as the state stored. *)
Theorem backoff_and_health_exact (n m : Z) (round : Z) (err : string) (h : RoundLoopHealth) :
  2 ≤ backoff_secs n ≤ 60 ∧
  (n ≤ m → backoff_secs n ≤ backoff_secs m) ∧
  (6 ≤ n → backoff_secs n = 60) ∧
  (1 ≤ n ≤ 5 → backoff_secs n = 2 ^ n) ∧
  health_state (record_success round h) = Running ∧
  rlh_consecutive_failures (record_success round h) = 0 ∧
  health_state (record_transient_failure err h).1 = Degraded ∧
  is_healthy (health_state (record_transient_failure err h).1) = true ∧
  (0 ≤ rlh_consecutive_failures h < 2 ^ 32 - 1 →
     (record_transient_failure err h).2 = rlh_consecutive_failures h + 1) ∧
  ∀ reason, is_healthy (health_state (record_stopped reason h)) = false.
Proof.
  split; [apply backoff_bounds|]. rewrite !backoff_secs_eq. split; [|split; [|split]].
  - intros Hle. assert (2 ^ Z.min (Z.max 0 (n - 1)) 8 ≤ 2 ^ Z.min (Z.max 0 (m - 1)) 8); [|lia].
    apply Z.pow_le_mono_r; lia.
  - intros Hn. assert (2 ^ 5 ≤ 2 ^ Z.min (Z.max 0 (n - 1)) 8); [|lia]. apply Z.pow_le_mono_r; lia.
  - intros Hn. assert (n = 1 ∨ n = 2 ∨ n = 3 ∨ n = 4 ∨ n = 5) as [->|[->|[->|[->| ->]]]] by lia; done.
  - repeat split; try done. simpl. intros Hf. rewrite Z.mod_small by lia. done.
Qed.

Lemma backoff_and_health_exact_witness : backoff_secs 7 = 60 ∧ backoff_secs 3 ≤ backoff_secs 4.
Proof.
  split.
  - apply (backoff_and_health_exact 7 7 0 "" RoundLoopHealth_new). lia.
  - apply (backoff_and_health_exact 3 4 0 "" RoundLoopHealth_new). lia.
Defined.

(** Production starts exactly when every backend is durable; research
    always may. *)
Theorem production_backends_exact (mode : Mode) (selection : BackendSelection) :
  validate_production_backends mode selection = Ok () ↔
  (mode = Production →
   (∃ url, bs_registry selection = RB_Redis url) ∧ bs_store selection ≠ SB_Memory ∧
   (∃ url, bs_accounting selection = AB_Postgres url)).
Proof.
  unfold validate_production_backends. case_decide as Hm; [|naive_solver].
  destruct (bs_registry selection), (bs_store selection), (bs_accounting selection); naive_solver.
Qed.
