(* ===== verification/Round.v ===== *)
(** * One round of the pipeline ([conflux-server/src/round.rs], [error.rs])

    [run_round]: check the budget, load the checkpoint, select clients, open a
    buffer and announce the task, wait for the flush, then decode, filter,
    privatise, filter by reputation, aggregate, checkpoint, record the privacy
    cost and advance the counter.  The whole method is one stateful computation
    with the code's early returns; the wait is the step in which other tasks
    run, so it is an argument that stands for what they did. *)

From S2P Require Import Prelude Float Wire Buffer Weights Averaging Contracts Registry Reputation Privacy Store Config State.

Open Scope Z_scope.

(** ** Errors *)

(** The cases of [TrustedReferenceUnavailable]'s message. *)
Inductive UnavailableReason : Type :=
  | NoSidecarForReference (aggregator : string)
  | NoSidecarForScores (aggregator : string)
  | TransportFailed (message : string)
  | UndecodableReference (e : WeightsCodecError).

Inductive ServerError : Type :=
  | BudgetExhausted
  | PreconditionViolated (round : Z) (aggregator : string) (batch required excluded : Z) (citation : string)
  | BudgetExhaustedForClient (client_id : string)
  | ServerRegistry (e : RegistryError)
  | ServerStore (e : StoreError)
  | ServerAggregator (e : AggregatorError)
  | TrustedReferenceUnavailable (round : Z) (reason : UnavailableReason).

Definition is_transient (self : ServerError) : bool :=
  match self with
  | BudgetExhausted | BudgetExhaustedForClient _ => false
  | PreconditionViolated _ _ _ _ _ _ => false
  | ServerRegistry _ | ServerStore _ => true
  | ServerAggregator _ => true
  | TrustedReferenceUnavailable _ _ => true
  end.

(** ** The batch between the buffer and the aggregator *)

Notation Decoded := (list (string * list f32)).

(** [sort_by(|a, b| a.client_id.cmp(&b.client_id))]: byte order on strings. *)
Definition by_client_id (a b : ClientDelta) : bool := bool_decide (String.le (client_id a) (client_id b)).

Definition decode_flushed (delta : ClientDelta) : outcome ServerError (string * list f32) :=
  map_err (λ _, ServerAggregator (MalformedWeights (client_id delta) (length (weights delta))))
    (w ← decode_weights (weights delta); mret (client_id delta, w)).

Definition all_finite (w : list f32) : bool := forallb f32_is_finite w.

Definition decode_flushed_deltas (deltas : list ClientDelta) : outcome ServerError Decoded :=
  decoded ← collect decode_flushed deltas;
  Ok (base.filter (λ p, all_finite p.2 = true) decoded).

Definition mean_vector (decoded : Decoded) : list f32 :=
  match decoded with
  | [] => []
  | (_, first) :: _ =>
      let sum := foldl (λ sum '(_, weights), zip_update f32_add sum weights)
                   (replicate (length first) f32_zero) decoded in
      let n := f32_of_Z (Z.of_nat (length decoded)) in
      map (λ s, s / n)%f32 sum
  end.

(** Collecting pairs into a [HashMap]: the last one of a key stays. *)
Definition weights_by_client (decoded : Decoded) : gmap string (list f32) :=
  foldl (λ m '(id, weights), <[id := weights]> m) ∅ decoded.

Definition reencode_passing_deltas (deltas : list ClientDelta) (decoded : Decoded)
    (passed_ids : gset string) : list ClientDelta :=
  omap (λ delta,
    weights ← weights_by_client decoded !! client_id delta;
    Some {| client_id := client_id delta; delta_round := delta_round delta;
            weights := encode_weights weights; num_samples := num_samples delta;
            local_steps := local_steps delta; control_variate := control_variate delta;
            local_loss := local_loss delta |})
    (base.filter (λ delta, client_id delta ∈ passed_ids) deltas).

(** [as u32] of a [usize]. *)
Definition as_u32 (n : nat) : Z := Z.of_nat n mod 2 ^ 32.

Section round.
Context `{N : Notify} `{Smp : Sampler} `{Gs : Gaussian}.
Context {R S A G L T K : Type}.
Context `{CR : ClientRegistry R} `{St : Store S} `{Ag : Aggregator G} `{Lg : PrivacyRoundLog L} `{Sc : Sidecar T}.
Context (ln exp : f64 → f64) (value_order : list (f64 * f64 * Z) → list (f64 * f64 * Z)).

Notation AppState := (AppState N R S A G L T K).
Notation M := (stM AppState ServerError).

(** What a round draws from its surroundings: the generators' states, the wall
    clock, and the monotonic clock when it begins to wait. *)
Record Ambient := { amb_select : rng; amb_noise : gen; amb_now : Z; amb_instant : Z }.

Definition conf {X} (p : ResolvedConfig → X) : M X := gets (λ s, p (st_config s)).

Definition quorum_override (s : AppState) : option nat := (λ q, Z.to_nat (value q)) <$> cfg_quorum (st_config s).

Definition check_batch_requirement (round batch : Z) : M () :=
  aggregator ← conf (λ c, getv c P_aggregator);
  fraction ← conf (λ c, getv c P_robust_byzantine_fraction);
  match batch_requirement aggregator fraction batch with
  | None => mret ()
  | Some req =>
      if satisfied_by req batch then modify (set_verdict (Some true))
      else of_outcome (Err (PreconditionViolated round aggregator batch (required req) (excluded req) (citation req)))
  end.

Definition check_privacy_budget : M () :=
  s ← gets id;
  let c := st_config s in
  if negb (bool_decide (getv c P_accounting_scope = Global)) then mret ()
  else if negb (budget_exhausted ln exp value_order (getv c P_target_epsilon) (getv c P_delta) (st_accountant s))
  then mret ()
  else match getv c P_budget_exhausted_action with
       | Halt => of_outcome (Err BudgetExhausted)
       | ContinueWithoutGuarantee => mret ()
       end.

(** The loop of [filter_by_per_client_budget]. *)
Fixpoint keep_within_budget (exhausted : string → bool) (action : BudgetExhaustedAction)
    (kept decoded : Decoded) : outcome ServerError Decoded :=
  match decoded with
  | [] => Ok kept
  | (client_id, weights) :: decoded =>
      if negb (exhausted client_id) then
        keep_within_budget exhausted action (kept ++ [(client_id, weights)]) decoded
      else match action with
           | Halt => Err (BudgetExhaustedForClient client_id)
           | ContinueWithoutGuarantee => keep_within_budget exhausted action kept decoded
           end
  end.

Definition filter_by_per_client_budget (decoded : Decoded) : M Decoded :=
  s ← gets id;
  let c := st_config s in
  if negb (bool_decide (getv c P_accounting_scope = PerClient)) then mret decoded
  else
    of_outcome (keep_within_budget
      (λ id, budget_exhausted_for_client ln exp value_order id (getv c P_target_epsilon) (getv c P_delta)
               (st_accountant s))
      (getv c P_budget_exhausted_action) [] decoded).

Fixpoint privatise (privacy : GaussianClippingPrivacy) (decoded : Decoded) (rng : gen)
    : outcome ServerError (Decoded * gen) :=
  match decoded with
  | [] => Ok ([], rng)
  | (id, weights) :: decoded =>
      '(weights, rng) ← transform privacy weights rng;
      '(rest, rng) ← privatise privacy decoded rng;
      Ok ((id, weights) :: rest, rng)
  end.

Definition apply_server_side_privacy (amb : Ambient) (decoded : Decoded) : M Decoded :=
  privacy ← gets st_privacy;
  r ← of_outcome (privatise privacy decoded (amb_noise amb));
  mret (r.1 : Decoded).

Definition passed_ids (decoded : Decoded) : M (gset string) :=
  enabled ← conf (λ c, getv c P_reputation_filter_enabled);
  min_reputation_score ← conf (λ c, getv c P_min_reputation_score);
  mret (list_to_set
    (if (enabled : bool) then filter_by_threshold decoded (mean_vector decoded) cosine_scorer min_reputation_score
     else map fst decoded)).

Definition fetch_and_inject_trusted_reference (round : Z) (global_weights : list f32) : M () :=
  s ← gets id;
  match st_trusted_reference s with
  | None => of_outcome (Err (TrustedReferenceUnavailable round
                               (NoSidecarForReference (getv (st_config s) P_aggregator))))
  | Some client =>
      let '(client, reply) := reference_update round (encode_weights global_weights) client in
      modify (set_trusted_reference_conn (Some client)) ≫= λ _,
      reference_bytes ← of_outcome (map_err (λ e, TrustedReferenceUnavailable round (TransportFailed e)) reply);
      reference_weights ← of_outcome (map_err (λ e, TrustedReferenceUnavailable round (UndecodableReference e))
                                        (decode_weights reference_bytes));
      modify (λ s, set_aggregator (set_trusted_reference
        {| ref_global_weights := global_weights; reference_weights := reference_weights |} (st_aggregator s)) s)
  end.

Definition fetch_and_inject_candidate_scores (round : Z) (global_weights : list f32) (batch : list ClientDelta)
    : M () :=
  s ← gets id;
  match st_trusted_reference s with
  | None => of_outcome (Err (TrustedReferenceUnavailable round
                               (NoSidecarForScores (getv (st_config s) P_aggregator))))
  | Some client =>
      let candidates := map (λ d, (client_id d, weights d)) batch in
      let '(client, reply) := score_updates round (encode_weights global_weights) candidates client in
      modify (set_trusted_reference_conn (Some client)) ≫= λ _,
      scores ← of_outcome (map_err (λ e, TrustedReferenceUnavailable round (TransportFailed e)) reply);
      modify (λ s, set_aggregator (set_candidate_scores
        {| scores_global_weights := global_weights; candidate_scores := scores |} (st_aggregator s)) s)
  end.

Definition run_aggregator (batch : list ClientDelta) : M (list f32) :=
  zoom st_aggregator set_aggregator ServerAggregator (λ a, aggregate a batch).

Definition save (round : Z) (weights : list f32) : M () :=
  zoom st_store set_store ServerStore (save_checkpoint round weights).

Definition sample_rate (num_selected num_active : nat) : f32 :=
  if (num_active =? 0)%nat then f32_zero
  else (f32_of_Z (Z.of_nat num_selected) / f32_of_Z (Z.of_nat num_active))%f32.

Definition record_in_memory (noise_multiplier rate : f32) (admitted : list string) (a : RdpAccountant)
    : RdpAccountant :=
  foldl (λ a client_id, record_round_for_client client_id noise_multiplier rate a)
    (record_round noise_multiplier rate a) admitted.

Definition append_all (noise_multiplier rate : f32) (admitted : list string) : stM L StoreError () :=
  append_round noise_multiplier rate ≫= λ _,
  for_each (λ client_id, append_round_for_client client_id noise_multiplier rate) admitted.

Definition record_round_privacy_cost (num_selected num_active : nat) (admitted : list string) : M () :=
  noise_multiplier ← conf (λ c, getv c P_noise_multiplier);
  let rate := sample_rate num_selected num_active in
  modify (λ s, set_accountant (record_in_memory noise_multiplier rate admitted (st_accountant s)) s) ≫= λ _,
  log ← gets st_accountant_log;
  match log with
  | None => mret ()
  | Some log => zoom (λ _, log) (λ log, set_accountant_log (Some log)) ServerStore
                  (append_all noise_multiplier rate admitted)
  end.

(** ** [run_round], up to the wait *)

Record Opened := {
  op_round : Z;
  op_weights : list f32;
  op_active : list string;
  op_selected : list string;
}.

Definition task_of (s : AppState) (round : Z) (weights : list f32) : TaskResponse :=
  {| task_id := "round-" +:+ String.string_of_list_ascii (u64_to_string round); task_round := round;
     model_weights := encode_weights weights;
     task_control_variate := encode_weights <$> agg_control_variate (st_aggregator s) |}.

Definition open_round (amb : Ambient) : M Opened :=
  round ← gets st_round;
  check_privacy_budget ≫= λ _,
  weights ← zoom st_store (λ _ s, s) ServerStore (λ st, (st, load_latest_weights st));
  active ← zoom st_registry (λ _ s, s) ServerRegistry (λ r, (r, reg_active_clients r));
  override ← gets quorum_override;
  selector ← gets st_selector;
  let target_n := default (length active) override in
  let selected := select selector (amb_select amb) active target_n round in
  let quorum := default (length selected) override in
  check_batch_requirement round (as_u32 quorum) ≫= λ _,
  modify (set_current_buffer (Some (buffer_new round quorum))) ≫= λ _,
  modify (λ s, set_push_sender (st_push_sender s ++ [task_of s round weights]) s) ≫= λ _,
  mret {| op_round := round; op_weights := weights; op_active := active; op_selected := selected |}.

(** ... from the flush to the batch the aggregator gets ... *)
Definition prepare_batch (amb : Ambient) (round : Z) (flushed : list ClientDelta) : M (list ClientDelta) :=
  check_batch_requirement round (as_u32 (length flushed)) ≫= λ _,
  let deltas := sort_by by_client_id flushed in
  decoded ← of_outcome (decode_flushed_deltas deltas);
  decoded ← filter_by_per_client_budget decoded;
  decoded ← apply_server_side_privacy amb decoded;
  passed_ids ← passed_ids decoded;
  mret (reencode_passing_deltas deltas decoded passed_ids).

(** ... the sidecar's half ... *)
Definition inject (round : Z) (weights : list f32) (filtered : list ClientDelta) : M () :=
  needs_reference ← gets (λ s, requires_trusted_reference (st_aggregator s));
  (if needs_reference : bool then fetch_and_inject_trusted_reference round weights else mret ()) ≫= λ _,
  needs_scores ← gets (λ s, requires_candidate_scores (st_aggregator s));
  if needs_scores : bool then fetch_and_inject_candidate_scores round weights filtered else mret ().

(** ... and the commit. *)
Definition commit (amb : Ambient) (opened : Opened) (flush : FlushResult) (filtered : list ClientDelta)
    : M RoundSummary :=
  let round := op_round opened in
  new_weights ← run_aggregator filtered;
  save round new_weights ≫= λ _,
  record_round_privacy_cost (length (op_selected opened)) (length (op_active opened)) (map client_id filtered) ≫= λ _,
  next ← of_outcome (u64_add round 1);
  modify (set_round next) ≫= λ _,
  modify (set_current_buffer None) ≫= λ _,
  let summary := {| sum_round := round; sum_flush_reason := flush_reason flush;
                    num_selected := length (op_selected opened); num_submitted := length (flush_deltas flush);
                    num_passed := length filtered |} in
  modify (λ s, set_history (history_record (amb_now amb) summary (st_verdict s) (st_history s)) s) ≫= λ _,
  mret summary.

Definition close_round (amb : Ambient) (opened : Opened) (flush : FlushResult) : M RoundSummary :=
  filtered ← prepare_batch amb (op_round opened) (flush_deltas flush);
  inject (op_round opened) (op_weights opened) filtered ≫= λ _,
  commit amb opened flush filtered.

Definition round_timeout (s : AppState) : Z := duration_from_secs (getv (st_config s) P_round_timeout_secs).

(** [await s] is the state and the batch when [await_flush], its deadline computed from the
    configured timeout, returns. *)
Definition run_round (amb : Ambient) (await : AppState → AppState * FlushResult) : M RoundSummary :=
  opened ← open_round amb;
  timeout ← gets round_timeout;
  of_outcome (await_deadline (amb_instant amb) timeout) ≫= λ _,
  flush ← (λ s, let '(s, flush) := await s in (s, Ok flush));
  close_round amb opened flush.

(** While the round loop waits, the only tasks that run are the handlers: they
    change the registry, the allow-list and the buffer, and the batch is one the
    buffer's own wait, from the round's clock and with the configured timeout, can
    return. *)
Definition handlers_ran (amb : Ambient) (s s' : AppState) (flush : FlushResult) : Prop :=
  (∃ re al b, s' = set_registry re (set_node_allowlist al (set_current_buffer b s))) ∧
  ∀ b deadline, st_current_buffer s = Some b →
    await_deadline (E:=ServerError) (amb_instant amb) (round_timeout s) = Ok deadline →
    ∃ ds c, rtc step (initial (buf_round b) (buf_quorum b) (amb_instant amb) deadline ds) c ∧
      c_flusher c = FDone flush ∧ st_current_buffer s' = Some (c_buf c).

(** ** Framing *)

(** What only the commit of a round may change. *)
Definition core (s : AppState) :=
  (st_config s, st_round s, st_history s, st_store s, st_accountant s, st_accountant_log s).
Definition same_core (s s' : AppState) : Prop := core s' = core s.

#[local] Instance same_core_preorder : PreOrder same_core.
Proof. split; [by intros s|]. intros s1 s2 s3 H1 H2. unfold same_core in *. congruence. Qed.

Lemma core_setters (s : AppState) :
  (∀ x, core (set_verdict x s) = core s) ∧ (∀ x, core (set_current_buffer x s) = core s) ∧
  (∀ x, core (set_push_sender x s) = core s) ∧ (∀ x, core (set_trusted_reference_conn x s) = core s) ∧
  (∀ x, core (set_aggregator x s) = core s) ∧ (∀ x, core (set_registry x s) = core s) ∧
  (∀ x, core (set_node_allowlist x s) = core s).
Proof. by destruct s. Qed.

Lemma preserves_gets {X} (f : AppState → X) : preserves same_core (gets (E:=ServerError) f).
Proof. by intros s. Qed.
Lemma preserves_mret {X} (x : X) : preserves same_core (mret x : M X).
Proof. by intros s. Qed.
Lemma preserves_of_outcome {X} (o : outcome ServerError X) : preserves same_core (of_outcome o).
Proof. by intros s. Qed.
Lemma preserves_modify f : (∀ s, core (f s) = core s) → preserves same_core (modify (E:=ServerError) f).
Proof. intros H s. apply H. Qed.

Ltac frame :=
  repeat first
    [ apply preserves_gets | apply preserves_mret | apply preserves_of_outcome
    | apply preserves_modify; intros ?; apply core_setters
    | apply (preserves_bind same_core); [|intros ?]
    | progress cbv zeta | progress case_match ].

Lemma check_batch_requirement_frame round batch : preserves same_core (check_batch_requirement round batch).
Proof. unfold check_batch_requirement, conf. frame. Qed.

Lemma check_privacy_budget_pure s : (check_privacy_budget s).1 = s.
Proof.
  unfold check_privacy_budget, mbind, stM_bind, gets. cbv zeta. by repeat case_match; simplify_eq/=.
Qed.

Lemma filter_by_per_client_budget_pure decoded s : (filter_by_per_client_budget decoded s).1 = s.
Proof.
  unfold filter_by_per_client_budget, mbind, stM_bind, gets. cbv zeta. by repeat case_match; simplify_eq/=.
Qed.

Lemma open_round_frame amb : preserves same_core (open_round amb).
Proof.
  unfold open_round. repeat (apply (preserves_bind same_core); [|intros ?]); frame.
  all: by intros s.
Qed.

Lemma prepare_batch_frame amb round flushed : preserves same_core (prepare_batch amb round flushed).
Proof.
  unfold prepare_batch, apply_server_side_privacy, passed_ids, conf.
  repeat (apply (preserves_bind same_core); [|intros ?]); frame.
Qed.

Lemma inject_frame round ws filtered : preserves same_core (inject round ws filtered).
Proof.
  unfold inject, fetch_and_inject_trusted_reference, fetch_and_inject_candidate_scores. frame.
Qed.

Lemma run_aggregator_frame batch : preserves same_core (run_aggregator batch).
Proof. intros s. unfold run_aggregator, zoom. case_match. apply core_setters. Qed.

Lemma handlers_ran_core amb s s' flush : handlers_ran amb s s' flush → same_core s s'.
Proof.
  intros [(re & al & b & ->) _]. by destruct s.
Qed.

Lemma commit_ok amb opened flush batch s s' summary :
  commit amb opened flush batch s = (s', Ok summary) →
  let rate := sample_rate (length (op_selected opened)) (length (op_active opened)) in
  let sigma := getv (st_config s) P_noise_multiplier in
  let ids := map client_id batch in
  ∃ ws,
    (aggregate (st_aggregator s) batch).2 = Ok ws ∧
    save_checkpoint (op_round opened) ws (st_store s) = (st_store s', Ok ()) ∧
    st_accountant s' = record_in_memory sigma rate ids (st_accountant s) ∧
    match st_accountant_log s with
    | None => st_accountant_log s' = None
    | Some log => ∃ log', append_all sigma rate ids log = (log', Ok ()) ∧ st_accountant_log s' = Some log'
    end ∧
    st_round s' = op_round opened + 1 ∧ st_current_buffer s' = None ∧
    summary = {| sum_round := op_round opened; sum_flush_reason := flush_reason flush;
                 num_selected := length (op_selected opened); num_submitted := length (flush_deltas flush);
                 num_passed := length batch |} ∧
    st_history s' = history_record (amb_now amb) summary (st_verdict s) (st_history s) ∧
    st_config s' = st_config s ∧ st_aggregator s' = (aggregate (st_aggregator s) batch).1.
Proof.
  unfold commit, run_aggregator, save, record_round_privacy_cost, conf, gets, modify, zoom, mbind, stM_bind,
    mret, stM_ret.
  destruct s as [c re v h st al se ag p ac lg r b he ps tr jw]; cbn.
  destruct (aggregate ag batch) as [ag' [ws|e|]]; cbn; [|done..].
  destruct (save_checkpoint (op_round opened) ws st) as [st' [[]|e|]] eqn:Hsave; cbn; [|done..].
  destruct lg as [log|]; cbn.
  - destruct (append_all _ _ _ log) as [log' [[]|e|]] eqn:Hlog; cbn; [|done..].
    destruct (u64_add (op_round opened) 1) as [next| |] eqn:Hnext; [|done..].
    apply u64_add_ok in Hnext as [-> _].
    intros [= <- <-]. exists ws. cbn. rewrite Hsave. split_and!; try done. by exists log'.
  - destruct (u64_add (op_round opened) 1) as [next| |] eqn:Hnext; [|done..]. apply u64_add_ok in Hnext as [-> _].
    intros [= <- <-]. exists ws. cbn. rewrite Hsave. by split_and!.
Qed.

(** Where a failing commit stops. *)
Lemma commit_err amb opened flush batch s s' e :
  commit amb opened flush batch s = (s', Err e) →
  st_round s' = st_round s ∧ st_history s' = st_history s ∧
  ((∃ e', e = ServerAggregator e' ∧ (aggregate (st_aggregator s) batch).2 = Err e' ∧ same_core s s') ∨
   (∃ ws e', e = ServerStore e' ∧ (aggregate (st_aggregator s) batch).2 = Ok ws ∧
      save_checkpoint (op_round opened) ws (st_store s) = (st_store s', Err e') ∧
      st_accountant s' = st_accountant s ∧ st_accountant_log s' = st_accountant_log s) ∨
   (∃ ws log e', e = ServerStore e' ∧ (aggregate (st_aggregator s) batch).2 = Ok ws ∧
      save_checkpoint (op_round opened) ws (st_store s) = (st_store s', Ok ()) ∧
      st_accountant_log s = Some log ∧
      st_accountant s' =
        record_in_memory (getv (st_config s) P_noise_multiplier)
          (sample_rate (length (op_selected opened)) (length (op_active opened))) (map client_id batch)
          (st_accountant s))).
Proof.
  unfold commit, run_aggregator, save, record_round_privacy_cost, conf, gets, modify, zoom, mbind, stM_bind,
    mret, stM_ret.
  destruct s as [c re v h st al se ag p ac lg r b he ps tr jw]; cbn.
  destruct (aggregate ag batch) as [ag' [ws|e1|]]; cbn; [| |done].
  - destruct (save_checkpoint (op_round opened) ws st) as [st' [[]|e1|]] eqn:Hsave; cbn; [| |done].
    + destruct lg as [log|]; cbn; [|unfold of_outcome, u64_add; by destruct (_ <=? _)].
      destruct (append_all _ _ _ log) as [log' [[]|e1|]] eqn:Hlog; cbn; [| |done].
      { unfold of_outcome, u64_add. by destruct (_ <=? _). }
      intros [= <- <-]. split; [done|]. split; [done|]. right; right. exists ws, log, e1. cbn. by rewrite Hsave.
    + intros [= <- <-]. split; [done|]. split; [done|]. right; left. exists ws, e1. cbn. by rewrite Hsave.
  - intros [= <- <-]. split; [done|]. split; [done|]. left. by exists e1.
Qed.

(** Whatever becomes of a commit, it leaves the configuration, and the counter moves by
    one or not at all. *)
Lemma commit_frame amb opened flush batch s :
  st_config (commit amb opened flush batch s).1 = st_config s ∧
  (st_round (commit amb opened flush batch s).1 = st_round s ∨
   st_round (commit amb opened flush batch s).1 = op_round opened + 1).
Proof.
  unfold commit, run_aggregator, save, record_round_privacy_cost, conf, gets, modify, zoom, mbind, stM_bind,
    mret, stM_ret, of_outcome.
  destruct s as [c re v h st al se ag p ac lg r b he ps tr jw]; cbn.
  destruct (aggregate ag batch) as [ag' [ws|e1|]]; cbn; [|by auto..].
  destruct (save_checkpoint (op_round opened) ws st) as [st' [[]|e1|]]; cbn; [|by auto..].
  assert (Hn : ∀ next, u64_add (E:=ServerError) (op_round opened) 1 = Ok next → next = op_round opened + 1)
    by (by intros next [? _]%u64_add_ok).
  destruct lg as [log|]; cbn; [destruct (append_all _ _ _ log) as [log' [[]|e1|]]; cbn; [|by auto..]|];
    destruct (u64_add _ _) as [next|e1|] eqn:Hnext; cbn; rewrite ?(Hn next) by done; by auto.
Qed.

(** A run of the round is its phases in order; whatever precedes the commit
    leaves the core alone. *)
Lemma run_round_inv amb await s s' o :
  (∀ s, handlers_ran amb s (await s).1 (await s).2) →
  run_round amb await s = (s', o) →
  (same_core s s' ∧ (∀ x, o ≠ Ok x)) ∨
  ∃ opened flush batch s1 s2 s3,
    open_round amb s = (s1, Ok opened) ∧ handlers_ran amb s1 s2 flush ∧
    same_core s s2 ∧ same_core s s3 ∧
    (∃ s2', prepare_batch amb (op_round opened) (flush_deltas flush) s2 = (s2', Ok batch) ∧
            inject (op_round opened) (op_weights opened) batch s2' = (s3, Ok ())) ∧
    commit amb opened flush batch s3 = (s', o).
Proof.
  intros Hawait Hrun. unfold run_round, close_round, mbind, stM_bind in Hrun.
  pose proof (open_round_frame amb s) as H1.
  destruct (open_round amb s) as [s1 [opened|e|]] eqn:Hopen; [|left; by simplify_eq/=..].
  pose proof (Hawait s1) as Hran. pose proof (handlers_ran_core _ _ _ _ Hran) as H2.
  unfold gets, of_outcome in Hrun.
  destruct (await_deadline (amb_instant amb) (round_timeout s1)) as [dl|e|]; [|left; by simplify_eq/=..].
  destruct (await s1) as [s2 flush]. cbn in *.
  assert (H02 : same_core s s2) by (etrans; [exact H1|exact H2]).
  pose proof (prepare_batch_frame amb (op_round opened) (flush_deltas flush) s2) as H3.
  destruct (prepare_batch _ _ _ s2) as [s2' [batch|e|]] eqn:Hprep; cbn in *;
    [|left; simplify_eq; split; [by etrans|done]..].
  pose proof (inject_frame (op_round opened) (op_weights opened) batch s2') as H4.
  destruct (inject _ _ _ s2') as [s3 [[]|e|]] eqn:Hinj; cbn in *;
    [|left; simplify_eq; split; [by etrans; [exact H02|etrans]|done]..].
  right. exists opened, flush, batch, s1, s2, s3. split_and!; try done.
  - etrans; [exact H02|]. by etrans.
  - by exists s2'.
Qed.

Lemma open_round_ok amb s s' opened :
  open_round amb s = (s', Ok opened) →
  op_round opened = st_round s ∧
  load_latest_weights (st_store s) = Ok (op_weights opened) ∧
  reg_active_clients (st_registry s) = Ok (op_active opened) ∧
  op_selected opened = select (st_selector s) (amb_select amb) (op_active opened)
                         (default (length (op_active opened)) (quorum_override s)) (st_round s) ∧
  st_current_buffer s' =
    Some (buffer_new (st_round s) (default (length (op_selected opened)) (quorum_override s))).
Proof.
  unfold open_round. intros (r & ? & [= <- <-] & H)%stM_bind_ok.
  apply stM_bind_ok in H as (? & s1 & Hb & H).
  assert (s1 = s) as -> by (pose proof (check_privacy_budget_pure s) as Hp; by rewrite Hb in Hp).
  apply stM_bind_ok in H as (ws & ? & Hl & H). unfold zoom in Hl.
  destruct (load_latest_weights (st_store s)) as [ws'| |]; [|done..]. injection Hl as <- <-.
  apply stM_bind_ok in H as (act & ? & Hl & H). unfold zoom in Hl.
  destruct (reg_active_clients (st_registry s)) as [act'| |]; [|done..]. injection Hl as <- <-.
  unfold gets, modify, mbind, stM_bind in H. cbn in H.
  pose proof (check_batch_requirement_frame (st_round s)) as Hf.
  destruct (check_batch_requirement _ _ s) as [s2 [[]| |]]; [|done..]. injection H as <- <-.
  split_and!; try done. by destruct s2.
Qed.

Lemma run_round_frame amb await s :
  (∀ s, handlers_ran amb s (await s).1 (await s).2) →
  let s' := (run_round amb await s).1 in
  st_config s' = st_config s ∧ (st_round s' = st_round s ∨ st_round s' = st_round s + 1).
Proof.
  intros Hran. destruct (run_round amb await s) as [s' o] eqn:Hrun. cbn.
  destruct (run_round_inv _ _ _ _ _ Hran Hrun) as
    [[[= Hc Hr _ _ _ _] _]|(opened & flush & batch & s1 & s2 & s3 & Hopen & _ & _ & [= Hc Hr _ _ _ _] & _ & Hcommit)]; [by auto|].
  apply open_round_ok in Hopen as [Hor _].
  destruct (commit_frame amb opened flush batch s3) as [Hc' Hr']. rewrite Hcommit in Hc', Hr'. cbn in Hc', Hr'.
  rewrite Hr, Hor in Hr'. by rewrite Hc', Hc.
Qed.

(** ** Invariant of the checkpoints *)

(** No checkpoint is newer than the round about to be run. *)
Definition store_below (s : AppState) : Prop :=
  ∃ rs, list_checkpoints (st_store s) = Ok rs ∧ Forall (λ r, r ≤ st_round s) rs.

Lemma same_core_fields s s' :
  same_core s s' →
  st_config s' = st_config s ∧ st_round s' = st_round s ∧ st_history s' = st_history s ∧
  st_store s' = st_store s ∧ st_accountant s' = st_accountant s ∧ st_accountant_log s' = st_accountant_log s.
Proof. unfold same_core, core. by intros [= ? ? ? ? ? ?]. Qed.

(** ** The batch *)

Lemma decode_flushed_ok d p :
  decode_flushed d = Ok p ↔ ∃ w, decode_weights (weights d) = Ok w ∧ p = (client_id d, w).
Proof. unfold decode_flushed. destruct (decode_weights (weights d)); simpl; naive_solver. Qed.

Lemma elem_of_decoded ds dec id w :
  decode_flushed_deltas ds = Ok dec → (id, w) ∈ dec →
  ∃ d, d ∈ ds ∧ client_id d = id ∧ decode_weights (weights d) = Ok w ∧ all_finite w = true.
Proof.
  unfold decode_flushed_deltas. intros (dec' & Hdec%collect_ok & [= <-])%bind_ok_inv Hin.
  apply list_elem_of_filter in Hin as [Hfin Hin]. simpl in Hfin.
  apply list_elem_of_lookup in Hin as [i Hi].
  destruct (Forall2_lookup_r _ _ _ _ _ Hdec Hi) as (d & Hd & (w' & Hw & [= -> ->])%decode_flushed_ok).
  exists d. split; [by eapply list_elem_of_lookup_2|]. done.
Qed.

Lemma keep_within_budget_ok exhausted action kept dec out :
  keep_within_budget exhausted action kept dec = Ok out →
  out = kept ++ base.filter (λ p, exhausted p.1 = false) dec.
Proof.
  revert kept. induction dec as [|[id w] dec IH]; intros kept; simpl.
  { intros [= <-]. by rewrite app_nil_r. }
  rewrite filter_cons. simpl. destruct (exhausted id); simpl.
  - destruct action; [done|]. intros H%IH. done.
  - intros H%IH. rewrite H. by rewrite <-app_assoc.
Qed.

Lemma privatise_cons privacy id x dec rng out rng' :
  privatise privacy ((id, x) :: dec) rng = Ok (out, rng') →
  ∃ x' r1 rest, transform (E:=ServerError) privacy x rng = Ok (x', r1) ∧
    privatise privacy dec r1 = Ok (rest, rng') ∧ out = (id, x') :: rest.
Proof.
  simpl. intros ([x' r1] & Ht & H)%bind_ok_inv. apply bind_ok_inv in H as ([rest r2] & Hp & [= <- <-]).
  by exists x', r1, rest.
Qed.

Lemma elem_of_privatise privacy dec rng out rng' id w :
  privatise privacy dec rng = Ok (out, rng') → (id, w) ∈ out →
  ∃ w0 r0 r1, (id, w0) ∈ dec ∧ transform (E:=ServerError) privacy w0 r0 = Ok (w, r1).
Proof.
  revert rng out. induction dec as [|[i x] dec IH]; intros rng out.
  { intros [= <- <-]. by intros ?%not_elem_of_nil. }
  intros (x' & r1 & rest & Ht & Hp & ->)%privatise_cons [[= -> ->]|Hin]%elem_of_cons.
  - exists x, rng, r1. split; [set_solver|done].
  - destruct (IH _ _ Hp Hin) as (w0 & r0 & r2 & ? & ?). exists w0, r0, r2. split; [set_solver|done].
Qed.

Lemma privatise_fst privacy dec rng out rng' :
  privatise privacy dec rng = Ok (out, rng') → map fst out = map fst dec.
Proof.
  revert rng out. induction dec as [|[i x] dec IH]; intros rng out; [by intros [= <- <-]|].
  intros (x' & r1 & rest & Ht & Hp & ->)%privatise_cons. simpl. by rewrite (IH _ _ Hp).
Qed.

Lemma privatise_total privacy dec rng : noise_ok privacy → privatise privacy dec rng ≠ Panic.
Proof.
  intros Hok. revert rng. induction dec as [|[i x] dec IH]; intros rng; [done|]. simpl.
  destruct (transform_total (E:=ServerError) privacy x rng Hok) as (x' & r1 & ->). simpl.
  intros [H|([rest r2] & _ & H)]%bind_panic_inv; [by apply IH in H|done].
Qed.

Lemma weights_by_client_some dec id w : weights_by_client dec !! id = Some w → (id, w) ∈ dec.
Proof.
  unfold weights_by_client. induction dec as [|[i x] dec IH] using rev_ind; [done|].
  rewrite foldl_app. simpl. destruct (decide (i = id)) as [->|Hne].
  - rewrite lookup_insert_eq. intros [= ->]. set_solver.
  - rewrite lookup_insert_ne by done. intros Hin%IH. set_solver.
Qed.

Lemma elem_of_reencoded ds dec ids d' :
  d' ∈ reencode_passing_deltas ds dec ids →
  ∃ d w, d ∈ ds ∧ client_id d ∈ ids ∧ (client_id d, w) ∈ dec ∧
    d' = {| client_id := client_id d; delta_round := delta_round d; weights := encode_weights w;
            num_samples := num_samples d; local_steps := local_steps d;
            control_variate := control_variate d; local_loss := local_loss d |}.
Proof.
  unfold reencode_passing_deltas. intros (d & [Hid Hd]%list_elem_of_filter & Hw)%list_elem_of_omap.
  destruct (weights_by_client dec !! client_id d) as [w|] eqn:Hl; [|done]. injection Hw as <-.
  exists d, w. split_and!; try done. by apply weights_by_client_some.
Qed.

(** Every flushed client with decoded weights that passed is in the batch. *)
Lemma elem_of_reencoded_ids ds dec d :
  d ∈ ds → client_id d ∈ map fst dec →
  client_id d ∈ map client_id (reencode_passing_deltas ds dec (list_to_set (map fst dec))).
Proof.
  intros Hd Hid. apply list_elem_of_In, in_map_iff.
  assert (is_Some (weights_by_client dec !! client_id d)) as [w Hw].
  { apply list_elem_of_In, in_map_iff in Hid as ([i w] & Hi & Hin%list_elem_of_In). simpl in Hi. subst i.
    clear -Hin. unfold weights_by_client. induction dec as [|[i x] dec IH] using rev_ind.
    { by apply not_elem_of_nil in Hin. }
    rewrite foldl_app. simpl. destruct (decide (i = client_id d)) as [->|Hne].
    { rewrite lookup_insert_eq. eauto. }
    rewrite lookup_insert_ne by done. apply IH. set_solver. }
  eexists. split; [|apply list_elem_of_In, list_elem_of_omap; exists d; split].
  2: { apply list_elem_of_filter. split; [|done]. by apply elem_of_list_to_set. }
  2: { rewrite Hw. simpl. reflexivity. }
  done.
Qed.

Lemma prepare_batch_ok amb round flushed s s' batch :
  prepare_batch amb round flushed s = (s', Ok batch) →
  let c := st_config s in
  ∃ dec kept,
    decode_flushed_deltas (sort_by by_client_id flushed) = Ok dec ∧
    (if decide (getv c P_accounting_scope = PerClient)
     then kept = base.filter (λ p, budget_exhausted_for_client ln exp value_order p.1
                   (getv c P_target_epsilon) (getv c P_delta) (st_accountant s) = false) dec
     else kept = dec) ∧
    ∃ priv rng, privatise (st_privacy s) kept (amb_noise amb) = Ok (priv, rng) ∧
    batch = reencode_passing_deltas (sort_by by_client_id flushed) priv
      (list_to_set (if (getv c P_reputation_filter_enabled : bool)
                    then filter_by_threshold priv (mean_vector priv) cosine_scorer (getv c P_min_reputation_score)
                    else map fst priv)).
Proof.
  unfold prepare_batch. intros (? & s1 & Hcheck & H)%stM_bind_ok.
  assert (Hs1 : st_config s1 = st_config s ∧ st_accountant s1 = st_accountant s ∧ st_privacy s1 = st_privacy s).
  { unfold check_batch_requirement, conf, gets, modify, of_outcome, mbind, stM_bind, mret, stM_ret in Hcheck.
    destruct s. repeat case_match; simplify_eq/=; done. }
  destruct Hs1 as (Hc & Ha & Hp).
  apply stM_bind_ok in H as (dec & s2 & Hdec & H). unfold of_outcome in Hdec. injection Hdec as <- Hdec.
  apply stM_bind_ok in H as (kept & s3 & Hkept & H).
  pose proof (filter_by_per_client_budget_pure dec s1) as Hs3. rewrite Hkept in Hs3. simpl in Hs3. subst s3.
  exists dec, kept. split; [done|]. split.
  - unfold filter_by_per_client_budget, gets, mbind, stM_bind, of_outcome, mret, stM_ret, id in Hkept.
    cbv zeta in Hkept. rewrite Hc, Ha in Hkept.
    case_decide as Hscope.
    + rewrite bool_decide_true in Hkept by done. cbn in Hkept. injection Hkept as Hkept.
      by apply keep_within_budget_ok in Hkept.
    + rewrite bool_decide_false in Hkept by done. by injection Hkept.
  - unfold apply_server_side_privacy, passed_ids, conf, gets, of_outcome, mbind, stM_bind, mret, stM_ret in H.
    rewrite Hp in H. destruct (privatise _ kept _) as [[priv rng]| |]; [|done..].
    exists priv, rng. split; [done|]. cbn in H. rewrite Hc in H. by injection H as _ <-.
Qed.

(** *** The durable accounting log *)

Definition charge (p : f32 * f32) (cs : gmap string (list (f32 * f32))) (id : string)
  : gmap string (list (f32 * f32)) := <[id := default [] (cs !! id) ++ [p]]> cs.

Lemma record_in_memory_spec sigma q ids acc :
  rounds (record_in_memory sigma q ids acc) = rounds acc ++ [(sigma, q)] ∧
  client_rounds (record_in_memory sigma q ids acc) = foldl (charge (sigma, q)) (client_rounds acc) ids.
Proof.
  unfold record_in_memory. cut (∀ a, rounds (foldl (λ a id, record_round_for_client id sigma q a) a ids) = rounds a ∧
    client_rounds (foldl (λ a id, record_round_for_client id sigma q a) a ids) =
    foldl (charge (sigma, q)) (client_rounds a) ids).
  { intros H. destruct (H (record_round sigma q acc)) as [-> ->]. done. }
  induction ids as [|id ids IH]; intros a; simpl; [done|].
  by destruct (IH (record_round_for_client id sigma q a)) as [-> ->].
Qed.

Lemma charges_nonempty p ids cs :
  map_Forall (λ _ l, l ≠ []) cs → map_Forall (λ _ l, l ≠ []) (foldl (charge p) cs ids).
Proof.
  revert cs. induction ids as [|id ids IH]; intros cs Hcs; simpl; [done|]. apply IH.
  apply map_Forall_insert_2; [by destruct (default [] _)|done].
Qed.

Lemma append_all_ok `{!PrivacyRoundLogLaws L} sigma q ids log log' rs cs :
  load_rounds log = Ok rs → load_client_rounds log = Ok cs →
  append_all sigma q ids log = (log', Ok ()) →
  load_rounds log' = Ok (rs ++ [(sigma, q)]) ∧ load_client_rounds log' = Ok (foldl (charge (sigma, q)) cs ids).
Proof.
  intros Hrs Hcs ([] & l1 & Ha & H)%stM_bind_ok.
  destruct (append_round_ok _ _ _ _ _ _ Hrs Hcs Ha) as [Hrs1 Hcs1]. clear Ha Hrs Hcs.
  revert l1 cs Hrs1 Hcs1 H. induction ids as [|id ids IH]; intros l1 cs Hrs1 Hcs1 H.
  { injection H as <-. done. }
  apply stM_bind_ok in H as ([] & l2 & Ha & H).
  destruct (append_client_ok _ _ _ _ _ _ _ Hrs1 Hcs1 Ha) as [Hrs2 Hcs2]. by apply (IH l2).
Qed.

(** The log holds exactly what the accountant in memory does. *)
Definition logged (s : AppState) : Prop :=
  ∃ log, st_accountant_log s = Some log ∧
    load_rounds log = Ok (rounds (st_accountant s)) ∧
    load_client_rounds log = Ok (client_rounds (st_accountant s)) ∧
    map_Forall (λ _ l, l ≠ []) (client_rounds (st_accountant s)).

Lemma replay_clients (l : list (string * list (f32 * f32))) acc :
  NoDup (map fst l) → Forall (λ p, p.2 ≠ []) l → Forall (λ p, client_rounds acc !! p.1 = None) l →
  let acc' := foldl (λ acc '(client_id, rounds), replay_client client_id rounds acc) acc l in
  rounds acc' = rounds acc ∧ client_rounds acc' = list_to_map l ∪ client_rounds acc.
Proof.
  revert acc. induction l as [|[id rs] l IH]; intros acc Hnd Hne Hnone; simpl.
  { split; [done|]. by rewrite map_empty_union. }
  simpl in Hnd. apply NoDup_cons in Hnd as [Hid Hnd]. apply Forall_cons in Hne as [Hr Hne].
  apply Forall_cons in Hnone as [Hi Hnone]. simpl in *.
  destruct (replay_client_spec id rs acc) as [Hrs Hcs]. rewrite decide_False in Hcs by done.
  rewrite Hi in Hcs. simpl in Hcs.
  destruct (IH (replay_client id rs acc)) as [IH1 IH2]; [done|done| |].
  { rewrite Forall_forall in *. intros [i x] Hin. rewrite Hcs, lookup_insert_ne; [by apply (Hnone (i, x))|].
    intros ->. apply Hid. apply list_elem_of_In, in_map_iff. exists (i, x). split; [done|].
    by apply list_elem_of_In. }
  rewrite IH1, IH2, Hrs, Hcs. split; [done|].
  rewrite <-insert_union_r; [apply insert_union_l|]. by apply not_elem_of_list_to_map_1.
Qed.

Lemma replay_restores (entry_order : list (string * list (f32 * f32)) → list (string * list (f32 * f32)))
    (log : L) (a : RdpAccountant) :
  (∀ l, entry_order l ≡ₚ l) →
  load_rounds log = Ok (rounds a) → load_client_rounds log = Ok (client_rounds a) →
  map_Forall (λ _ l, l ≠ []) (client_rounds a) →
  connect_accounting entry_order log = Ok (a, Some log).
Proof.
  intros Ho Hrs Hcs Hne. unfold connect_accounting. rewrite Hrs. cbn [mbind outcome_bind]. rewrite Hcs.
  cbn [mbind outcome_bind]. set (l := entry_order _).
  assert (Hp : l ≡ₚ map_to_list (client_rounds a)) by apply Ho.
  destruct (replay_clients l (replay_rounds (rounds a) RdpAccountant_new)) as [H1 H2].
  - rewrite Hp. apply NoDup_fst_map_to_list.
  - apply Forall_forall. intros [i x] Hin. rewrite Hp in Hin. apply elem_of_map_to_list in Hin. by apply (Hne i).
  - apply Forall_forall. intros [i x] _. by rewrite client_rounds_replay_rounds.
  - f_equal. f_equal. rewrite rounds_replay_rounds in H1. rewrite client_rounds_replay_rounds in H2.
    simpl in H1, H2. rewrite map_union_empty in H2.
    rewrite (list_to_map_proper _ (map_to_list (client_rounds a))), list_to_map_to_list in H2; [|..].
    + destruct (foldl _ _ l) as [r c], a as [r' c']. simpl in *. by subst.
    + rewrite Hp. apply NoDup_fst_map_to_list.
    + done.
Qed.

(** *** The order of the batch *)

Lemma sort_by_client_id_unique l l' :
  l ≡ₚ l' → NoDup (map client_id l) → sort_by by_client_id l = sort_by by_client_id l'.
Proof.
  intros Hp Hnd. apply sort_by_unique; [| | |done]; unfold by_client_id.
  - intros x y. rewrite !bool_decide_eq_true. apply (total String.le).
  - intros x y z. rewrite !bool_decide_eq_true. by etrans.
  - intros x y Hx Hy. rewrite !bool_decide_eq_true. intros Hxy Hyx.
    by apply (NoDup_map_inj client_id l), (anti_symm String.le).
Qed.

(** *** Totality *)

(** What the round calls into never panics. *)
Class BackendsTotal := {
  active_clients_total r : reg_active_clients r ≠ Panic;
  append_round_total sigma q (l : L) : (append_round sigma q l).2 ≠ Panic;
  append_client_total id sigma q (l : L) : (append_round_for_client id sigma q l).2 ≠ Panic;
  reference_update_total r b (t : T) : (reference_update r b t).2 ≠ Panic;
  score_updates_total r b cs (t : T) : (score_updates r b cs t).2 ≠ Panic;
}.

(** The aggregator meets its contract from the states of an invariant. *)
Context (I : G → Prop) {AL : AggregatorLawsOn G Ag I}.

(** The state a round can be run from: the noise can be drawn (the mechanism
    never changes, so it can throughout, or never) and the aggregator's own state
    is well formed. *)
Definition round_ready (s : AppState) : Prop := noise_ok (st_privacy s) ∧ I (st_aggregator s).

Lemma safe_of_outcome {X} (o : outcome ServerError X) : o ≠ Panic → safe round_ready (of_outcome o).
Proof. by intros H s Hs. Qed.

Lemma safe_gets {X} (f : AppState → X) : safe round_ready (gets (E:=ServerError) f).
Proof. by intros s Hs. Qed.

Lemma safe_mret {X} (x : X) : safe round_ready (mret x : M X).
Proof. by intros s Hs. Qed.

Lemma safe_modify f : (∀ s, round_ready s → round_ready (f s)) → safe round_ready (modify (E:=ServerError) f).
Proof. intros H s Hs. split; [by apply H|done]. Qed.

Lemma run_aggregator_safe batch : safe round_ready (run_aggregator batch).
Proof.
  intros s [Hn HI]. unfold run_aggregator, zoom.
  pose proof (on_preserved (st_aggregator s) batch HI) as HI'.
  pose proof (on_no_panic (st_aggregator s) batch HI) as Hp.
  destruct (aggregate (st_aggregator s) batch) as [ag [ws|e|]]; simpl in *; (split; [|done]); by destruct s.
Qed.

Lemma decode_weights_total b : decode_weights b ≠ Panic.
Proof. unfold decode_weights. by case_decide. Qed.

Lemma decode_flushed_deltas_total ds : decode_flushed_deltas ds ≠ Panic.
Proof.
  unfold decode_flushed_deltas. intros [H|(? & _ & H)]%bind_panic_inv; [|done].
  revert H. apply collect_no_panic, Forall_true. intros d. unfold decode_flushed.
  pose proof (decode_weights_total (weights d)). by destruct (decode_weights (weights d)).
Qed.

Lemma keep_within_budget_total exhausted action kept dec : keep_within_budget exhausted action kept dec ≠ Panic.
Proof.
  revert kept. induction dec as [|[id w] dec IH]; intros kept; simpl; [done|].
  destruct (exhausted id); simpl; [destruct action; [done|apply IH]|apply IH].
Qed.

Context {BT : BackendsTotal}.

Lemma reference_update_total_eq r b (t t' : T) o : reference_update r b t = (t', o) → o ≠ Panic.
Proof. intros H. pose proof (reference_update_total r b t) as Hp. by rewrite H in Hp. Qed.

Lemma score_updates_total_eq r b cs (t t' : T) o : score_updates r b cs t = (t', o) → o ≠ Panic.
Proof. intros H. pose proof (score_updates_total r b cs t) as Hp. by rewrite H in Hp. Qed.

Lemma append_all_total sigma q ids l : (append_all sigma q ids l).2 ≠ Panic.
Proof.
  assert (H : safe (λ _, True) (append_all sigma q ids)); [|by apply H].
  unfold append_all. apply safe_bind; [intros l' _; split; [done|apply append_round_total]|]. intros _.
  apply safe_for_each. intros id l' _. split; [done|]. apply append_client_total.
Qed.

Ltac total_steps :=
  repeat first
    [ apply safe_gets | apply safe_mret
    | apply safe_modify; first [by intros [] | intros [] [? ?]; split; [done|]; first [by apply on_reference | by apply on_scores]]
    | apply safe_bind; [|intros ?]
    | apply safe_of_outcome; first [done | apply map_err_no_panic | idtac]
    | progress cbv zeta | progress case_match ].

(** ** Properties of one round *)
Context {bound : Z} {SL : StoreLawsBelow bound S}.
Context (amb : Ambient) (await : AppState → AppState * FlushResult).
Context (await_ran : ∀ s, handlers_ran amb s (await s).1 (await s).2).

(** The delta that reaches the aggregator for [d] when its weights become [w]. *)
Definition with_weights (d : ClientDelta) (w : list f32) : ClientDelta :=
  {| client_id := client_id d; delta_round := delta_round d; weights := encode_weights w;
     num_samples := num_samples d; local_steps := local_steps d;
     control_variate := control_variate d; local_loss := local_loss d |}.

(** C4: what reaches the aggregator.  Every delta of the batch is one that was
    flushed, with its own metadata (the optional per-method fields included) and
    the privatised weights of a finite update its client submitted; with one
    submission per client they are its own.  A client over its own budget never
    gets through under [PerClient] accounting, and without the reputation filter
    every other client with a finite update does. *)
Theorem batch_pairs_and_excludes (round : Z) (s s' : AppState) (flushed batch : list ClientDelta) :
  prepare_batch amb round flushed s = (s', Ok batch) →
  let c := st_config s in
  let over id := budget_exhausted_for_client ln exp value_order id (getv c P_target_epsilon) (getv c P_delta)
                   (st_accountant s) in
  (∀ d', d' ∈ batch → ∃ d d2 w w' rng rng',
     d ∈ flushed ∧ d2 ∈ flushed ∧ client_id d2 = client_id d ∧
     decode_weights (weights d2) = Ok w ∧ all_finite w = true ∧
     transform (E:=ServerError) (st_privacy s) w rng = Ok (w', rng') ∧ d' = with_weights d w' ∧
     (NoDup (map client_id flushed) → d2 = d) ∧
     (getv c P_accounting_scope = PerClient → over (client_id d') = false)) ∧
  ((getv c P_reputation_filter_enabled : bool) = false →
   ∀ d w, d ∈ flushed → decode_weights (weights d) = Ok w → all_finite w = true →
     (getv c P_accounting_scope = PerClient → over (client_id d) = false) →
     client_id d ∈ map client_id batch).
Proof.
  intros H c over. apply prepare_batch_ok in H as (dec & kept & Hdec & Hkept & priv & rng' & Hpriv & ->). split.
  - intros d' (d & w & Hd & _ & Hw & ->)%elem_of_reencoded.
    rewrite sort_by_perm in Hd. apply (elem_of_privatise _ _ _ _ _ _ _ Hpriv) in Hw as (w0 & rng0 & rng1 & Hin & Hw).
    assert (Hin' : (client_id d, w0) ∈ dec ∧
              (getv c P_accounting_scope = PerClient → over (client_id d) = false)).
    { case_decide; subst kept; [apply list_elem_of_filter in Hin as [? ?]; done|done]. }
    destruct Hin' as [Hin' Hover].
    destruct (elem_of_decoded _ _ _ _ Hdec Hin') as (d2 & Hd2 & Hid & Hw0 & Hfin).
    rewrite sort_by_perm in Hd2. exists d, d2, w0, w, rng0, rng1. split_and!; try done.
    intros Hnd. by apply (NoDup_map_inj client_id flushed).
  - intros Hrep d w Hd Hw Hfin Hover. unfold c in Hrep. rewrite Hrep.
    assert (Hin : (client_id d, w) ∈ dec).
    { unfold decode_flushed_deltas in Hdec. apply bind_ok_inv in Hdec as (dec' & Hdec & [= <-]).
      apply list_elem_of_filter. split; [done|]. apply collect_ok in Hdec.
      rewrite <-(sort_by_perm by_client_id) in Hd. apply list_elem_of_lookup in Hd as [i Hi].
      destruct (Forall2_lookup_l _ _ _ _ _ Hdec Hi) as (p & Hp & Hpd).
      apply decode_flushed_ok in Hpd as (w' & Hw' & ->). rewrite Hw in Hw'. injection Hw' as <-.
      by eapply list_elem_of_lookup_2. }
    assert (Hkin : (client_id d, w) ∈ kept).
    { case_decide; subst kept; [apply list_elem_of_filter; split; [|done]; by apply Hover|done]. }
    assert (Hid : client_id d ∈ map fst priv).
    { rewrite (privatise_fst _ _ _ _ _ Hpriv). apply list_elem_of_In, in_map_iff.
      exists (client_id d, w). split; [done|]. by apply list_elem_of_In. }
    apply elem_of_reencoded_ids; [by rewrite sort_by_perm|done].
Qed.

(** C5: the batch, and with it everything after the flush, does not depend on the
    order in which submissions arrived: with one submission per client, any two
    arrival orders give the same round, state and outcome. *)
Theorem round_ignores_arrival_order (opened : Opened) (flush flush' : FlushResult) (s : AppState) :
  flush_deltas flush ≡ₚ flush_deltas flush' → flush_reason flush = flush_reason flush' →
  NoDup (map client_id (flush_deltas flush)) →
  close_round amb opened flush s = close_round amb opened flush' s.
Proof.
  intros Hp Hr Hnd. unfold close_round, prepare_batch, commit.
  by rewrite <-(sort_by_client_id_unique _ _ Hp Hnd), <-(Permutation_length Hp), <-Hr.
Qed.

Lemma apply_server_side_privacy_safe decoded : safe round_ready (apply_server_side_privacy amb decoded).
Proof.
  intros s Hs. pose proof Hs as [Hn _]. unfold apply_server_side_privacy, gets, of_outcome, mbind, stM_bind, mret, stM_ret.
  pose proof (privatise_total (st_privacy s) decoded (amb_noise amb) Hn) as Hp.
  by destruct (privatise _ _ _) as [[]| |].
Qed.

Lemma await_safe : safe round_ready (λ s, let '(s, flush) := await s in (s, Ok (E:=ServerError) flush)).
Proof.
  intros s Hs. destruct (await_ran s) as [(re & al & b & Heq) _].
  destruct (await s) as [s2 flush]. simpl in *. split; [|done]. subst s2. by destruct s.
Qed.

(** The wait's deadline fits an [Instant]. *)
Definition clock_fits (s : AppState) : Prop := amb_instant amb + round_timeout s ≤ INSTANT_MAX.

Lemma open_round_safe : safe round_ready (open_round amb).
Proof.
  unfold open_round, check_privacy_budget, check_batch_requirement, conf. total_steps.
  - apply safe_zoom; [done|]. intros st. apply (store_no_panic 0 [] st).
  - apply safe_zoom; [done|]. intros r. apply active_clients_total.
Qed.

Lemma prepare_batch_safe round flushed : safe round_ready (prepare_batch amb round flushed).
Proof.
  unfold prepare_batch, check_batch_requirement, conf. apply safe_bind; [total_steps|]. intros _. cbv zeta.
  apply safe_bind; [apply safe_of_outcome, decode_flushed_deltas_total|].
  intros dec. apply safe_bind; [unfold filter_by_per_client_budget; total_steps; apply keep_within_budget_total|].
  intros kept. apply safe_bind; [apply apply_server_side_privacy_safe|]. intros priv. unfold passed_ids, conf. total_steps.
Qed.

Lemma inject_safe round ws filtered : safe round_ready (inject round ws filtered).
Proof.
  unfold inject, fetch_and_inject_trusted_reference, fetch_and_inject_candidate_scores. total_steps.
  - by eapply reference_update_total_eq.
  - apply decode_weights_total.
  - by eapply score_updates_total_eq.
Qed.

Lemma commit_safe opened flush filtered :
  op_round opened < u64_max → safe round_ready (commit amb opened flush filtered).
Proof.
  intros Hr. unfold commit, save, record_round_privacy_cost, conf. total_steps.
  - apply run_aggregator_safe.
  - apply safe_zoom; [by intros ? []|]. intros st. apply (store_no_panic _ _ st).
  - apply safe_zoom; [by intros ? []|]. intros log. apply append_all_total.
  - apply u64_add_total. lia.
Qed.

Lemma round_panics_at_its_wait s s1 opened :
  ¬ clock_fits s → open_round amb s = (s1, Ok opened) → run_round amb await s = (s1, Panic).
Proof.
  intros Hc Hopen. pose proof (open_round_frame amb s) as Hcore. unfold run_round, mbind, stM_bind.
  rewrite Hopen in *. apply same_core_fields in Hcore as (Hcfg & _). cbn in Hcfg.
  unfold gets, of_outcome. assert (await_deadline (E:=ServerError) (amb_instant amb) (round_timeout s1) = Panic) as ->.
  { apply instant_add_panics. unfold clock_fits, round_timeout in *. rewrite Hcfg. lia. }
  done.
Qed.

Lemma run_round_safe s :
  round_ready s → clock_fits s → st_round s < u64_max →
  (run_round amb await s).2 ≠ Panic ∧ round_ready (run_round amb await s).1.
Proof.
  intros Hs Hclock Hround. unfold run_round, mbind, stM_bind.
  pose proof (open_round_safe s Hs) as [Hs1 Hp1]. pose proof (open_round_frame amb s) as Hcore.
  destruct (open_round amb s) as [s1 [opened|e|]] eqn:Hopen; [|done..].
  apply open_round_ok in Hopen as (Hor & _). apply same_core_fields in Hcore as (Hc & _). cbn in Hs1, Hc.
  unfold gets, of_outcome. destruct (await_deadline _ _) as [dl|e|] eqn:Hdl;
    [|done|apply instant_add_panics in Hdl; unfold clock_fits, round_timeout in *; rewrite Hc in Hdl; lia].
  pose proof (await_safe s1 Hs1) as [Hs2 _]. destruct (await s1) as [s2 flush]. cbn in Hs2.
  apply and_comm. revert s2 Hs2.
  change (safe round_ready (close_round amb opened flush)). unfold close_round.
  apply safe_bind; [apply prepare_batch_safe|]. intros batch. apply safe_bind; [apply inject_safe|]. intros _.
  apply commit_safe. lia.
Qed.

(** C7: a round never panics, and leaves the server fit for the next one: as long
    as the noise it is configured with has a width the sampler accepts, the
    aggregator's state is well formed, the machine's clock and the configured
    [round_timeout_secs] add up to an [Instant] and the next round's number to a [u64],
    whatever the clients submitted and the backends answer it ends in a summary or an
    error, with the aggregator's state still well formed.  Of these the timeout is
    needed: a round that opens with one too large panics at its wait. *)
Theorem round_never_panics (s : AppState) :
  noise_ok (st_privacy s) → I (st_aggregator s) → st_round s < u64_max →
  (clock_fits s →
     (run_round amb await s).2 ≠ Panic ∧ round_ready (run_round amb await s).1) ∧
  (¬ clock_fits s → ∀ s1 opened, open_round amb s = (s1, Ok opened) → run_round amb await s = (s1, Panic)).
Proof.
  intros Hn HI Hr. split; [intros Hc; by apply run_round_safe|]. intros Hc s1 opened Hopen.
  by apply (round_panics_at_its_wait s s1 opened).
Qed.

Lemma committed_round_counter (s s' : AppState) (summary : RoundSummary) :
  0 ≤ st_round s < bound → store_below s →
  run_round amb await s = (s', Ok summary) →
  store_below s' ∧ st_round s' = st_round s + 1 ∧ sum_round summary = st_round s.
Proof.
  intros Hr Hbelow Hrun.
  destruct (run_round_inv _ _ _ _ _ await_ran Hrun) as
    [[_ Hno]|(opened & flush & batch & s1 & s2 & s3 & Hopen & _ & _ & Hcore & _ & Hcommit)];
    [by destruct (Hno summary)|].
  apply open_round_ok in Hopen as (Hround & _). apply same_core_fields in Hcore as (_ & _ & _ & Hst & _).
  apply commit_ok in Hcommit as (ws & _ & Hsave & _ & _ & Hrd' & _ & -> & _).
  rewrite Hround, Hst in *. destruct Hbelow as (rs & Hl & Hrs).
  destruct (store_save_latest _ _ _ _ _ Hr Hl Hrs Hsave) as [_ (rs' & Hl' & _ & Hrs')].
  split; [|done]. exists rs'. split; [done|]. rewrite Hrd'. eapply Forall_impl; [exact Hrs'|]. simpl. lia.
Qed.

(** What a failed round may have left behind: nothing, a checkpoint whose save
    reported an error, or one whose accounting could not be logged. *)
Lemma failed_round_effect (s s' : AppState) (e : ServerError) :
  0 ≤ st_round s < bound → store_below s →
  run_round amb await s = (s', Err e) →
  st_round s' = st_round s ∧ st_history s' = st_history s ∧ store_below s' ∧
  ((load_latest_weights (st_store s') = load_latest_weights (st_store s) ∧
    list_checkpoints (st_store s') = list_checkpoints (st_store s) ∧
    st_accountant s' = st_accountant s ∧ st_accountant_log s' = st_accountant_log s) ∨
   (∃ e' ws, e = ServerStore e' ∧ save_checkpoint (st_round s) ws (st_store s) = (st_store s', Err e') ∧
      (Forall f32_wf ws → load_latest_weights (st_store s') = Ok ws) ∧
      st_accountant s' = st_accountant s ∧ st_accountant_log s' = st_accountant_log s) ∨
   (∃ log e' ws, st_accountant_log s = Some log ∧ e = ServerStore e' ∧
      save_checkpoint (st_round s) ws (st_store s) = (st_store s', Ok ()))).
Proof.
  intros Hr Hbelow Hrun.
  destruct (run_round_inv _ _ _ _ _ await_ran Hrun) as
    [[Hcore _]|(opened & flush & batch & s1 & s2 & s3 & Hopen & _ & _ & Hcore & _ & Hcommit)].
  { apply same_core_fields in Hcore as (Hc & Hrd & Hh & Hst & Hac & Hlg).
    unfold store_below in *. rewrite Hrd, Hst, Hh, Hac, Hlg. split_and!; try done. by left. }
  apply open_round_ok in Hopen as (Hround & _).
  apply same_core_fields in Hcore as (Hc & Hrd & Hh & Hst & Hac & Hlg).
  apply commit_err in Hcommit as (Hrd' & Hh' & Hcases).
  rewrite Hrd, Hh, Hround, ?Hst, ?Hac, ?Hlg in *. split; [done|]. split; [done|].
  destruct Hcases as [(e' & -> & _ & Hcore)|[(ws & e' & -> & _ & Hsave & Hac' & Hlg')
                     |(ws & log & e' & -> & _ & Hsave & Hlog & _)]].
  - apply same_core_fields in Hcore as (_ & _ & _ & Hst' & Hac' & Hlg').
    unfold store_below in *. rewrite Hrd', Hst', Hst, Hac', Hac, Hlg', Hlg. split; [done|]. by left.
  - destruct Hbelow as (rs & Hl & Hrs).
    destruct (store_save_error _ _ _ _ _ _ Hr Hl Hrs Hsave) as [[Hload Hlist]|[Hnew (rs' & Hl' & _ & Hrs')]].
    + split; [exists rs; by rewrite Hrd', Hlist|]. rewrite Hload, Hlist. by left.
    + split; [exists rs'; by rewrite Hrd'|]. right. left. exists e', ws. split_and!; try done. by intros [? _]%Hnew.
  - destruct Hbelow as (rs & Hl & Hrs).
    destruct (store_save_latest _ _ _ _ _ Hr Hl Hrs Hsave) as [_ (rs' & Hl' & _ & Hrs')].
    split; [exists rs'; by rewrite Hrd'|]. right. right. by exists log, e', ws.
Qed.
(** C1: a round that succeeds is committed as a whole.  The weights the
    aggregator returned for some batch are the checkpoint of this round and what
    the next load returns; the privacy cost of exactly that batch's clients is
    recorded; the counter advances by one, submissions are closed and the history
    gains exactly this round. *)
Theorem successful_round_commits (s s' : AppState) (summary : RoundSummary) :
  0 ≤ st_round s < bound → store_below s →
  run_round amb await s = (s', Ok summary) →
  store_below s' ∧ st_round s' = st_round s + 1 ∧ st_current_buffer s' = None ∧
  sum_round summary = st_round s ∧
  ∃ s2 s2' flush (ag : G) batch ws n_selected n_active,
    st_config s2 = st_config s ∧ num_submitted summary = length (flush_deltas flush) ∧
    prepare_batch amb (st_round s) (flush_deltas flush) s2 = (s2', Ok batch) ∧
    (aggregate ag batch).2 = Ok ws ∧ num_passed summary = length batch ∧ num_selected summary = n_selected ∧
    (Forall f32_wf ws →
       load_latest_weights (st_store s') = Ok ws ∧ load_checkpoint (st_round s) (st_store s') = Ok ws) ∧
    st_accountant s' = record_in_memory (getv (st_config s) P_noise_multiplier)
                         (sample_rate n_selected n_active) (map client_id batch) (st_accountant s) ∧
    ∃ sat, st_history s' = history_record (amb_now amb) summary sat (st_history s).
Proof.
  intros Hr Hbelow Hrun. destruct (committed_round_counter s s' summary Hr Hbelow Hrun) as (Hb' & Hn' & Hs').
  destruct (run_round_inv _ _ _ _ _ await_ran Hrun) as
    [[_ Hno]|(opened & flush & batch & s1 & s2 & s3 & Hopen & _ & H2 & Hcore & (s2' & Hprep & _) & Hcommit)];
    [by destruct (Hno summary)|].
  apply open_round_ok in Hopen as (Hround & _).
  apply same_core_fields in Hcore as (Hc & Hrd & Hh & Hst & Hac & Hlg).
  apply commit_ok in Hcommit as (ws & Hagg & Hsave & Hacc & _ & Hrd' & Hbuf & Hsum & Hhist & Hcfg & _).
  rewrite Hround, ?Hst, ?Hac, ?Hc, ?Hh in *.
  destruct Hbelow as (rs & Hl & Hrs).
  destruct (store_save_latest _ _ _ _ _ Hr Hl Hrs Hsave) as (Hload & _).
  split_and!; [done..|].
  exists s2, s2', flush, (st_aggregator s3), batch, ws, (length (op_selected opened)), (length (op_active opened)).
  split_and!; try done; [by apply same_core_fields in H2 as [? _]|by subst summary..|].
  by exists (st_verdict s3).
Qed.

(** C10: the epsilon spent survives a restart.  With a durable log that agrees
    with the accountant, a successful round keeps the agreement, and replaying
    the log at startup rebuilds the accountant exactly, global history and every
    client's. *)
Theorem accounting_survives_restart `{!PrivacyRoundLogLaws L} (s s' : AppState) (summary : RoundSummary)
    (entry_order : list (string * list (f32 * f32)) → list (string * list (f32 * f32))) :
  (∀ l, entry_order l ≡ₚ l) → logged s →
  run_round amb await s = (s', Ok summary) →
  logged s' ∧ ∃ log', st_accountant_log s' = Some log' ∧
    connect_accounting entry_order log' = Ok (st_accountant s', Some log').
Proof.
  intros Ho (log & Hlog & Hrs & Hcs & Hne) Hrun.
  destruct (run_round_inv _ _ _ _ _ await_ran Hrun) as
    [[_ Hno]|(opened & flush & batch & s1 & s2 & s3 & _ & _ & _ & Hcore & _ & Hcommit)];
    [by destruct (Hno summary)|].
  apply same_core_fields in Hcore as (_ & _ & _ & _ & Hac & Hlg).
  apply commit_ok in Hcommit as (ws & _ & _ & Hacc & Hlog' & _).
  rewrite Hlg, Hlog, Hac in *. destruct Hlog' as (log' & Happ & Hlog').
  destruct (append_all_ok _ _ _ _ _ _ _ Hrs Hcs Happ) as [Hrs' Hcs'].
  destruct (record_in_memory_spec (getv (st_config s3) P_noise_multiplier)
    (sample_rate (length (op_selected opened)) (length (op_active opened))) (map client_id batch) (st_accountant s))
    as [H1 H2]. rewrite <-Hacc in H1, H2.
  assert (Hne' : map_Forall (λ _ l, l ≠ []) (client_rounds (st_accountant s'))).
  { rewrite H2. by apply charges_nonempty. }
  rewrite <-H1 in Hrs'. rewrite <-H2 in Hcs'. split; [by exists log'|].
  exists log'. split; [done|]. by apply replay_restores.
Qed.

(** C2: a round that fails keeps the run where it was: counter, history and
    accountant unchanged, and the model the next round loads is the one this
    round loaded, unless the checkpoint was written: by a save that reported an
    error, or by one that succeeded before the durable accounting log failed. *)
Theorem failed_round_keeps_model (s s' : AppState) (e : ServerError) :
  0 ≤ st_round s < bound → store_below s →
  run_round amb await s = (s', Err e) →
  st_round s' = st_round s ∧ st_history s' = st_history s ∧ store_below s' ∧
  ((load_latest_weights (st_store s') = load_latest_weights (st_store s) ∧
    list_checkpoints (st_store s') = list_checkpoints (st_store s) ∧
    st_accountant s' = st_accountant s ∧ st_accountant_log s' = st_accountant_log s) ∨
   (∃ e' ws, e = ServerStore e' ∧ save_checkpoint (st_round s) ws (st_store s) = (st_store s', Err e') ∧
      (Forall f32_wf ws → load_latest_weights (st_store s') = Ok ws) ∧
      st_accountant s' = st_accountant s ∧ st_accountant_log s' = st_accountant_log s) ∨
   (∃ log e' ws, st_accountant_log s = Some log ∧ e = ServerStore e' ∧
      save_checkpoint (st_round s) ws (st_store s) = (st_store s', Ok ()))).
Proof. apply failed_round_effect. Qed.
End round.
