(* ===== verification/RoundLoop.v ===== *)
(** * The round loop ([conflux-server/src/serve.rs])

    The task that runs rounds until shutdown or a fatal error: one iteration
    checks for shutdown, runs a round, and publishes the outcome in
    [round_loop_health]; a retryable error backs off.  A run of the server is a
    list of iterations, each with its surroundings. *)

From S2P Require Import Prelude Float Wire Buffer Weights Averaging Contracts Registry Reputation Privacy Store Config State Round.

Open Scope Z_scope.

Inductive loop_outcome : Type :=
  | Continue (delay_secs : Z)
  | Exit
  | Died.

Section round_loop.
Context `{N : Notify} `{Smp : Sampler} `{Gs : Gaussian}.
Context {R S A G L T K : Type}.
Context `{CR : ClientRegistry R} `{St : Store S} `{Ag : Aggregator G} `{Lg : PrivacyRoundLog L} `{Sc : Sidecar T}.
Context (ln exp : f64 → f64) (value_order : list (f64 * f64 * Z) → list (f64 * f64 * Z)).
(** [Display], which [thiserror] derives. *)
Context (to_string : ServerError → string).

Notation AppState := (AppState N R S A G L T K).

(** One pass of the loop; a round that panics kills the task and says nothing. *)
Definition round_loop_step (amb : Ambient) (await : AppState → AppState * FlushResult) (shutdown : bool)
    (s : AppState) : AppState * loop_outcome :=
  if shutdown then (set_health (record_stopped None (st_health s)) s, Exit)
  else
    match run_round ln exp value_order amb await s with
    | (s, Ok summary) => (set_health (record_success (sum_round summary) (st_health s)) s, Continue 0)
    | (s, Err e) =>
        if is_transient e then
          let '(health, failures) := record_transient_failure (to_string e) (st_health s) in
          (set_health health s, Continue (backoff_secs failures))
        else (set_health (record_stopped (Some (to_string e)) (st_health s)) s, Exit)
    | (s, Panic) => (s, Died)
    end.

Record iteration := {
  it_amb : Ambient;
  it_await : AppState → AppState * FlushResult;
  it_shutdown : bool;
}.

Fixpoint round_loop (its : list iteration) (s : AppState) : AppState * loop_outcome :=
  match its with
  | [] => (s, Continue 0)
  | it :: its =>
      match round_loop_step (it_amb it) (it_await it) (it_shutdown it) s with
      | (s, Continue _) => round_loop its s
      | (s, out) => (s, out)
      end
  end.

(** ** What a round leaves of the published health *)

Definition same_health (s s' : AppState) : Prop := st_health s' = st_health s.

#[local] Instance same_health_preorder : PreOrder same_health.
Proof. split; [by intros s|]. intros s1 s2 s3 H1 H2. unfold same_health in *. congruence. Qed.

Ltac frame_health :=
  repeat first
    [ intros []; reflexivity
    | apply (preserves_bind same_health); [|intros ?]
    | progress cbv zeta | progress case_match ].

Lemma zoom_health {X E' Y} (get : AppState → X) set (conv : E' → ServerError) (m : stM X E' Y) :
  (∀ x s, st_health (set x s) = st_health s) → preserves same_health (zoom get set conv m).
Proof. intros H s. unfold zoom. case_match. apply H. Qed.

Lemma handlers_ran_health amb (s s' : AppState) flush : handlers_ran amb s s' flush → same_health s s'.
Proof. intros [(re & al & b & ->) _]. by destruct s. Qed.

Lemma run_round_health amb (await : AppState → AppState * FlushResult) :
  (∀ s, handlers_ran amb s (await s).1 (await s).2) →
  preserves same_health (run_round ln exp value_order amb await).
Proof.
  intros Hran.
  unfold run_round, open_round, close_round, check_privacy_budget, check_batch_requirement, conf.
  frame_health.
  - intros s. pose proof (handlers_ran_health _ _ _ _ (Hran s)) as H. by destruct (await s).
  - apply zoom_health. by intros ? [].
  - apply zoom_health. by intros ? [].
  - apply zoom_health. by intros ? [].
Qed.

(** ** Properties *)
Context {bound : Z} {SL : StoreLawsBelow bound S} (I : G → Prop) {AL : AggregatorLawsOn G Ag I} {BT : BackendsTotal (R:=R) (L:=L) (T:=T)}.

(** Every iteration leaves the configuration, and moves the counter by one or not at all. *)
Lemma round_loop_step_frame amb (await : AppState → AppState * FlushResult) shutdown s :
  (∀ s, handlers_ran amb s (await s).1 (await s).2) →
  let s' := (round_loop_step amb await shutdown s).1 in
  st_config s' = st_config s ∧ (st_round s' = st_round s ∨ st_round s' = st_round s + 1).
Proof.
  intros Hran. unfold round_loop_step. pose proof (run_round_frame ln exp value_order amb await s Hran) as Hf.
  assert (Hset : ∀ h (x : AppState), st_config (set_health h x) = st_config x ∧ st_round (set_health h x) = st_round x)
    by (by intros h []).
  cbv zeta. destruct shutdown; [cbn; destruct (Hset (record_stopped None (st_health s)) s) as [-> ->]; by auto|].
  destruct (run_round _ _ _ amb await s) as [s1 [summary|e|]]; cbn in Hf |- *; [|destruct (is_transient e); [destruct (record_transient_failure (to_string e) (st_health s1))|]|done];
    cbn; match goal with |- context [set_health ?h s1] => destruct (Hset h s1) as [-> ->] end; done.
Qed.

Lemma clock_fits_config amb (s s' : AppState) :
  st_config s' = st_config s → clock_fits amb s → clock_fits amb s'.
Proof. unfold clock_fits, round_timeout. by intros ->. Qed.

(** What every iteration keeps: it either goes on, the round advanced by one
    exactly when it succeeded, or exits for a stated reason. *)
Lemma round_loop_step_ok amb (await : AppState → AppState * FlushResult) shutdown s s' out :
  (∀ s, handlers_ran amb s (await s).1 (await s).2) →
  0 ≤ st_round s < bound → store_below s → round_ready I s → clock_fits amb s → st_round s < u64_max →
  round_loop_step amb await shutdown s = (s', out) →
  store_below s' ∧ round_ready I s' ∧
  match out with
  | Continue delay =>
      (st_round s' = st_round s + 1 ∧ delay = 0 ∧ health_state (st_health s') = Running ∧
       rlh_last_completed_round (st_health s') = st_round s) ∨
      (st_round s' = st_round s ∧ 2 ≤ delay ≤ 60 ∧ health_state (st_health s') = Degraded ∧
       rlh_last_completed_round (st_health s') = rlh_last_completed_round (st_health s))
  | Exit =>
      st_round s' = st_round s ∧ health_state (st_health s') = Stopped ∧
      rlh_last_completed_round (st_health s') = rlh_last_completed_round (st_health s) ∧
      ((shutdown = true ∧ rlh_last_error (st_health s') = None) ∨
       (∃ e, is_transient e = false ∧ rlh_last_error (st_health s') = Some (to_string e)))
  | Died => False
  end.
Proof.
  intros Hran Hu Hb Hn Hclock Hmax. unfold round_loop_step.
  assert (Hset : ∀ h (x : AppState), st_round (set_health h x) = st_round x ∧ st_health (set_health h x) = h ∧
                   (store_below x → round_ready I x → store_below (set_health h x) ∧ round_ready I (set_health h x)))
    by (by intros h []).
  destruct shutdown.
  { intros [= <- <-]. destruct (Hset (record_stopped None (st_health s)) s) as (Hr & Hh & Hsb).
    destruct (Hsb Hb Hn). split; [done|]. split; [done|]. rewrite Hr, Hh. simpl. split_and!; try done. by left. }
  pose proof (run_round_safe ln exp value_order I amb await Hran s Hn Hclock Hmax) as [Hnp Hn1].
  pose proof (run_round_health amb await Hran s) as Hhealth. unfold same_health in Hhealth.
  destruct (run_round _ _ _ amb await s) as [s1 [summary|e|]] eqn:Hrun; simpl in Hhealth, Hn1, Hnp.
  - destruct (committed_round_counter _ _ _ _ _ Hran _ _ _ Hu Hb Hrun) as (Hb1 & Hr1 & Hsum).
    intros [= <- <-]. destruct (Hset (record_success (sum_round summary) (st_health s1)) s1) as (Hr & Hh & Hsb).
    destruct (Hsb Hb1 Hn1). split; [done|]. split; [done|]. left. rewrite Hr, Hh. simpl. by split_and!.
  - destruct (failed_round_effect _ _ _ _ _ Hran _ _ _ Hu Hb Hrun) as (Hr1 & _ & Hb1 & _).
    destruct (is_transient e) eqn:Htr; intros [= <- <-].
    + match goal with |- context [set_health ?h s1] => destruct (Hset h s1) as (Hr & Hh & Hsb) end.
      destruct (Hsb Hb1 Hn1). split; [done|]. split; [done|]. right. rewrite Hr, Hh, Hr1. simpl. rewrite Hhealth.
      split_and!; try done; apply (backoff_bounds _).
    + destruct (Hset (record_stopped (Some (to_string e)) (st_health s1)) s1) as (Hr & Hh & Hsb).
      destruct (Hsb Hb1 Hn1). split; [done|]. split; [done|]. rewrite Hr, Hh, Hr1. simpl. rewrite Hhealth. split_and!; try done. right. by exists e.
  - done.
Qed.

Lemma round_loop_step_ready amb (await : AppState → AppState * FlushResult) shutdown s :
  (∀ s, handlers_ran amb s (await s).1 (await s).2) → clock_fits amb s → st_round s < u64_max → round_ready I s →
  (round_loop_step amb await shutdown s).2 ≠ Died ∧ round_ready I (round_loop_step amb await shutdown s).1.
Proof.
  intros Hran Hc Hmax Hs. unfold round_loop_step.
  assert (Hset : ∀ h (x : AppState), round_ready I x → round_ready I (set_health h x)) by (by intros h []).
  destruct shutdown; [split; [done|by apply Hset]|].
  pose proof (run_round_safe ln exp value_order I amb await Hran s Hs Hc Hmax) as [Hnp Hs1].
  destruct (run_round _ _ _ _ _ s) as [s1 [summary|e|]]; cbn [fst snd] in *; [|destruct (is_transient e); [destruct (record_transient_failure (to_string e) (st_health s1))|]|done];
    (split; [done|by apply Hset]).
Qed.

(** The loop outlives every round, whatever its counter and store hold. *)
Lemma round_loop_survives (its : list iteration) (s : AppState) :
  Forall (λ it, ∀ s, handlers_ran (it_amb it) s (it_await it s).1 (it_await it s).2) its →
  Forall (λ it, clock_fits (it_amb it) s) its → st_round s + Z.of_nat (length its) ≤ u64_max →
  round_ready I s → (round_loop its s).2 ≠ Died.
Proof.
  intros Hran. revert s. induction Hran as [|it its Hit _ IH]; intros s Hclock Hmax Hs; [done|]. simpl.
  apply Forall_cons in Hclock as [Hc Hclock]. simpl length in Hmax.
  pose proof (round_loop_step_frame (it_amb it) (it_await it) (it_shutdown it) s Hit) as [Hcfg Hrd].
  pose proof (round_loop_step_ready (it_amb it) (it_await it) (it_shutdown it) s Hit Hc ltac:(lia) Hs) as [Hd Hs1].
  destruct (round_loop_step _ _ _ s) as [s1 []]; cbn in *; [|done..]. apply IH; [|lia|done].
  eapply Forall_impl; [exact Hclock|]. intros it'. by apply clock_fits_config.
Qed.

(** C6: the loop is honest about itself.  Over any run from a live state whose
    noise can be drawn, whose aggregator is well formed and whose configured round timeout
    fits the machine's clock, it never dies silently; [/health] turns unhealthy exactly when the loop has
    exited, and it exits only on shutdown or on an error that no retry can cure,
    which it names; rounds are numbered consecutively, the last completed one is
    reported, and no checkpoint is ever ahead of the counter. *)
Theorem round_loop_is_honest (its : list iteration) (s s' : AppState) (out : loop_outcome) :
  Forall (λ it, ∀ s, handlers_ran (it_amb it) s (it_await it s).1 (it_await it s).2) its →
  Forall (λ it, clock_fits (it_amb it) s) its → st_round s + Z.of_nat (length its) ≤ u64_max →
  is_healthy (health_state (st_health s)) = true →
  store_below s → noise_ok (st_privacy s) → I (st_aggregator s) → 0 ≤ st_round s → st_round s + Z.of_nat (length its) < bound →
  round_loop its s = (s', out) →
  out ≠ Died ∧ (out = Exit ↔ is_healthy (health_state (st_health s')) = false) ∧
  store_below s' ∧ st_round s ≤ st_round s' ≤ st_round s + Z.of_nat (length its) ∧
  rlh_last_completed_round (st_health s') =
    (if st_round s' =? st_round s then rlh_last_completed_round (st_health s) else st_round s' - 1) ∧
  (out = Exit →
     (∃ it, it ∈ its ∧ it_shutdown it = true ∧ rlh_last_error (st_health s') = None) ∨
     (∃ e, is_transient e = false ∧ rlh_last_error (st_health s') = Some (to_string e))).
Proof.
  intros Hran. revert s. induction Hran as [|it its Hit Hran IH]; intros s Hclock Hmax Hhealthy Hb Hno HI Hr0 Hr1 Hrun.
  all: assert (Hn : round_ready I s) by (by split).
  { injection Hrun as <- <-. rewrite Z.eqb_refl, Hhealthy. simpl. split_and!; try done; lia. }
  simpl in Hrun. simpl length in *.
  destruct (round_loop_step _ _ _ s) as [s1 out1] eqn:Hstep.
  assert (Hu : 0 ≤ st_round s < bound) by lia. apply Forall_cons in Hclock as [Hc Hclock].
  pose proof (round_loop_step_frame (it_amb it) (it_await it) (it_shutdown it) s Hit) as [Hcfg _].
  rewrite Hstep in Hcfg. cbn in Hcfg.
  destruct (round_loop_step_ok _ _ _ _ _ _ Hit Hu Hb Hn Hc ltac:(lia) Hstep) as (Hb1 & Hn1 & Hout).
  destruct out1 as [delay| |]; [| |done].
  - assert (Hh1 : is_healthy (health_state (st_health s1)) = true) by (by destruct Hout as [(_&_&->&_)|(_&_&->&_)]).
    assert (Hrd : st_round s ≤ st_round s1 ≤ st_round s + 1) by (destruct Hout as [(->&_)|(->&_)]; lia).
    assert (Hclock1 : Forall (λ it, clock_fits (it_amb it) s1) its)
      by (eapply Forall_impl; [exact Hclock|]; intros it'; by apply clock_fits_config).
    destruct (IH s1 Hclock1 ltac:(lia) Hh1 Hb1 (proj1 Hn1) (proj2 Hn1) ltac:(lia) ltac:(lia) Hrun) as (Hnd & Hiff & Hb' & Hrange & Hlast & Hcause).
    split; [done|]. split; [done|]. split; [done|]. split; [lia|]. split.
    + rewrite Hlast. destruct Hout as [(Hs1 & _ & _ & Hl1)|(Hs1 & _ & _ & Hl1)]; rewrite Hs1, Hl1.
      * destruct (Z.eqb_spec (st_round s') (st_round s + 1)), (Z.eqb_spec (st_round s') (st_round s)); cbn; lia.
      * done.
    + intros Hx. destruct (Hcause Hx) as [(it' & Hin & ?)|?]; [left|by right].
      exists it'. split; [by apply list_elem_of_further|done].
  - injection Hrun as <- <-. destruct Hout as (Hs1 & Hh1 & Hl1 & Hcause). rewrite Hh1, Hs1, Hl1, Z.eqb_refl.
    split_and!; try done; try lia. intros _. destruct Hcause as [[? ?]|?]; [left|by right].
    exists it. split; [apply list_elem_of_here|done].
Qed.
End round_loop.
