(* ===== verification/Submission.v ===== *)
(** * A submission's way from the client to the round buffer

    The client splits its update into chunks ([conflux-client/src/lib.rs],
    [build_chunks]); the node may transform it for local differential privacy
    on the way ([conflux-node/src/bridge.rs], [apply_local_privacy]); the server
    reassembles it ([conflux-server/src/dispatcher.rs], [submit_delta]). *)

From S2P Require Import Prelude Float Wire Privacy.

Open Scope Z_scope.

(** [&v[lo..hi]] panics out of range. *)
Definition slice {E X} (v : list X) (lo hi : nat) : outcome E (list X) :=
  if (lo <=? hi)%nat && (hi <=? length v)%nat then Ok (take (hi - lo) (drop lo v)) else Panic.

(** ** The client *)

Record TrainResult := {
  tr_weights : list f32;
  tr_num_samples : Z;
  tr_local_steps : option Z;
  tr_local_loss : option f32;
  tr_control_variate : option (list f32);
}.

Definition div_ceil (a b : nat) : nat := ((a + (b - 1)) / b)%nat.

Definition build_chunks {E} (client_id : string) (round : Z) (result : TrainResult) (chunk_bytes : nat)
    : outcome E (list DeltaChunk) :=
  let payload := encode_weights (tr_weights result) in
  let variate := encode_weights <$> tr_control_variate result in
  let step := (Nat.max chunk_bytes 4 / 4 * 4)%nat in
  let total := Nat.max (div_ceil (length payload) step) 1 in
  collect (λ index,
    let lo := (index * step)%nat in
    let hi := Nat.min ((index + 1) * step) (length payload) in
    data ← slice payload (Nat.min lo (length payload)) hi;
    cv ← match variate with
         | Some v => Some <$> slice v (Nat.min lo (length v)) (Nat.min hi (length v))
         | None => Ok None
         end;
    Ok {| chunk_client_id := client_id; chunk_round := round;
          chunk_index := Z.of_nat index mod 2 ^ 32; total_chunks := Z.of_nat total mod 2 ^ 32;
          chunk_data := data; chunk_num_samples := tr_num_samples result;
          chunk_local_steps := tr_local_steps result; chunk_control_variate := cv;
          chunk_local_loss := tr_local_loss result |}) (seq 0 total).

(** ** Sorting and concatenating *)

Definition by_chunk_index (a b : DeltaChunk) : bool := chunk_index a <=? chunk_index b.

Definition concat_data (chunks : list DeltaChunk) : bytes :=
  foldl (λ data chunk, data ++ chunk_data chunk) [] chunks.

Definition concat_control_variate (chunks : list DeltaChunk) : option bytes :=
  foldl (λ cv chunk,
    match chunk_control_variate chunk with
    | Some slice => Some (default [] cv ++ slice)
    | None => cv
    end) None chunks.

(** ** The node *)

Definition with_data (chunk : DeltaChunk) (data : bytes) : DeltaChunk :=
  {| chunk_client_id := chunk_client_id chunk; chunk_round := chunk_round chunk;
     chunk_index := chunk_index chunk; total_chunks := total_chunks chunk; chunk_data := data;
     chunk_num_samples := chunk_num_samples chunk; chunk_local_steps := chunk_local_steps chunk;
     chunk_control_variate := chunk_control_variate chunk; chunk_local_loss := chunk_local_loss chunk |}.

(** The loop that restores the chunk boundaries. *)
Fixpoint resplit {E} (transformed : bytes) (offset : nat) (chunks : list DeltaChunk) (lengths : list nat)
    : outcome E (list DeltaChunk) :=
  match chunks, lengths with
  | chunk :: chunks', len :: lengths' =>
      data ← slice transformed offset (offset + len);
      rest ← resplit transformed (offset + len) chunks' lengths';
      Ok (with_data chunk data :: rest)
  | _, _ => Ok chunks
  end.

Definition apply_local_privacy `{Gaussian} (local_privacy : option GaussianClippingPrivacy)
    (chunks : list DeltaChunk) : stM gen DispatchError (list DeltaChunk) := λ rng,
  match local_privacy with
  | None => (rng, Ok chunks)
  | Some mechanism =>
      let sorted := sort_by by_chunk_index chunks in
      let lengths := map (λ c, length (chunk_data c)) sorted in
      let bytes := concat_data sorted in
      match decode_weights bytes with
      | Err e => (rng, Err (OtherError "client-side privacy transform could not decode this submission's weights"))
      | Panic => (rng, Panic)
      | Ok weights =>
          match transform mechanism weights rng with
          | Ok (weights, rng) => (rng, resplit (encode_weights weights) 0 sorted lengths)
          | Err e => (rng, Err e)
          | Panic => (rng, Panic)
          end
      end
  end.

(** ** The server *)

Definition reassemble (chunks : list DeltaChunk) : outcome DispatchError ClientDelta :=
  match chunks with
  | [] => Err (OtherError "submit_delta called with zero chunks")
  | first :: _ =>
      let sorted := sort_by by_chunk_index chunks in
      Ok {| client_id := chunk_client_id first; delta_round := chunk_round first;
            weights := concat_data sorted; num_samples := chunk_num_samples first;
            local_steps := chunk_local_steps first; control_variate := concat_control_variate sorted;
            local_loss := chunk_local_loss first |}
  end.

(** ** Facts *)

Lemma concat_data_eq cs : concat_data cs = concat (map chunk_data cs).
Proof.
  unfold concat_data. cut (∀ acc, foldl (λ data chunk, data ++ chunk_data chunk) acc cs = acc ++ concat (map chunk_data cs)).
  { intros H. apply H. }
  induction cs as [|c cs IH]; intros acc; simpl; [by rewrite app_nil_r|]. by rewrite IH, <-app_assoc.
Qed.

Lemma concat_cv_some cs vs :
  cs ≠ [] → map chunk_control_variate cs = map Some vs → concat_control_variate cs = Some (concat vs).
Proof.
  unfold concat_control_variate. intros Hne H.
  cut (∀ acc, cs ≠ [] ∨ acc ≠ None → foldl (λ cv chunk,
    match chunk_control_variate chunk with Some slice => Some (default [] cv ++ slice) | None => cv end) acc cs =
    Some (default [] acc ++ concat vs)).
  { intros Hc. rewrite Hc by auto. done. }
  clear Hne. revert vs H. induction cs as [|c cs IH]; intros [|v vs] H acc Hne; try done; simpl.
  - destruct Hne as [?|?]; [done|]. destruct acc; [|done]. simpl. by rewrite app_nil_r.
  - injection H as Hc H. rewrite Hc, (IH vs) by auto. simpl. by rewrite <-app_assoc.
Qed.

Lemma concat_cv_none cs : Forall (λ c, chunk_control_variate c = None) cs → concat_control_variate cs = None.
Proof.
  unfold concat_control_variate. induction 1 as [|c cs Hc _ IH]; simpl; [done|]. by rewrite Hc.
Qed.

(** Consecutive slices of [step] elements. *)
Lemma concat_slices {X} (v : list X) step n :
  concat (map (λ i, take step (drop (i * step) v)) (seq 0 n)) = take (n * step) v.
Proof.
  induction n as [|n IH]; [done|]. rewrite seq_S, map_app, concat_app, IH. simpl. rewrite app_nil_r.
  rewrite <-(take_drop (n * step) (take (step + n * step) v)).
  rewrite take_take, Nat.min_l by lia. f_equal. rewrite skipn_firstn_comm. f_equal. lia.
Qed.

Lemma slice_ok {E X} (v : list X) lo hi :
  (lo ≤ hi ≤ length v)%nat → slice (E:=E) v lo hi = Ok (take (hi - lo) (drop lo v)).
Proof.
  intros [H1 H2]. unfold slice. by rewrite (proj2 (Nat.leb_le _ _) H1), (proj2 (Nat.leb_le _ _) H2).
Qed.

Lemma step_slice {X} (v : list X) i step plen :
  (length v ≤ plen)%nat →
  take (Nat.min (Nat.min ((i + 1) * step) plen) (length v) - Nat.min (i * step) (length v))
       (drop (Nat.min (i * step) (length v)) v) = take step (drop (i * step) v).
Proof.
  intros Hl. destruct (decide (i * step ≤ length v)%nat) as [Hle|Hgt].
  - rewrite (Nat.min_l (i * step)) by done.
    destruct (decide ((i + 1) * step ≤ length v)%nat).
    + f_equal. lia.
    + rewrite !take_ge; rewrite ?length_drop; [done|lia..].
  - rewrite (Nat.min_r (i * step)) by lia. rewrite (drop_ge v (length v)), (drop_ge v (i * step)) by lia.
    by rewrite !take_nil.
Qed.

(** The chunk at [index], whatever the payload's length. *)
Definition chunk_at (client_id : string) (round : Z) (result : TrainResult) (step total index : nat) : DeltaChunk :=
  {| chunk_client_id := client_id; chunk_round := round;
     chunk_index := Z.of_nat index mod 2 ^ 32; total_chunks := Z.of_nat total mod 2 ^ 32;
     chunk_data := take step (drop (index * step) (encode_weights (tr_weights result)));
     chunk_num_samples := tr_num_samples result; chunk_local_steps := tr_local_steps result;
     chunk_control_variate := (λ v, take step (drop (index * step) (encode_weights v))) <$> tr_control_variate result;
     chunk_local_loss := tr_local_loss result |}.

Definition chunk_step (chunk_bytes : nat) : nat := (Nat.max chunk_bytes 4 / 4 * 4)%nat.
Definition chunk_total (result : TrainResult) (chunk_bytes : nat) : nat :=
  Nat.max (div_ceil (length (encode_weights (tr_weights result))) (chunk_step chunk_bytes)) 1.

(** The control variate, when there is one, is no longer than the weights. *)
Definition variate_fits (result : TrainResult) : Prop :=
  match tr_control_variate result with Some v => (length v ≤ length (tr_weights result))%nat | None => True end.

Lemma div_ceil_mul a b : (0 < b → a ≤ div_ceil a b * b)%nat.
Proof.
  intros Hb. unfold div_ceil. pose proof (Nat.div_mod (a + (b - 1)) b ltac:(lia)).
  pose proof (Nat.mod_upper_bound (a + (b - 1)) b ltac:(lia)). lia.
Qed.

Lemma chunk_step_pos chunk_bytes : (4 ≤ chunk_step chunk_bytes)%nat.
Proof.
  unfold chunk_step. pose proof (Nat.div_le_lower_bound (Nat.max chunk_bytes 4) 4 1). lia.
Qed.

Lemma chunk_total_covers result chunk_bytes :
  (length (encode_weights (tr_weights result)) ≤ chunk_total result chunk_bytes * chunk_step chunk_bytes)%nat.
Proof.
  pose proof (chunk_step_pos chunk_bytes). unfold chunk_total.
  pose proof (div_ceil_mul (length (encode_weights (tr_weights result))) (chunk_step chunk_bytes) ltac:(lia)). nia.
Qed.

Lemma chunk_index_in_payload result chunk_bytes index :
  (index < chunk_total result chunk_bytes)%nat →
  (index * chunk_step chunk_bytes ≤ length (encode_weights (tr_weights result)))%nat.
Proof.
  intros Hi. pose proof (chunk_step_pos chunk_bytes). unfold chunk_total in Hi.
  set (plen := length _) in *. set (step := chunk_step chunk_bytes) in *.
  destruct (decide (index = 0)%nat) as [->|Hne]; [lia|].
  assert (index < div_ceil plen step)%nat as Hd by lia. unfold div_ceil in Hd.
  pose proof (Nat.div_mod (plen + (step - 1)) step ltac:(lia)).
  pose proof (Nat.mod_upper_bound (plen + (step - 1)) step ltac:(lia)). nia.
Qed.

Lemma build_chunks_ok {E} client_id round result chunk_bytes :
  variate_fits result →
  build_chunks (E:=E) client_id round result chunk_bytes =
  Ok (map (chunk_at client_id round result (chunk_step chunk_bytes) (chunk_total result chunk_bytes))
        (seq 0 (chunk_total result chunk_bytes))).
Proof.
  intros Hfit. unfold build_chunks. fold (chunk_step chunk_bytes). fold (chunk_total result chunk_bytes).
  set (step := chunk_step chunk_bytes). set (total := chunk_total result chunk_bytes).
  apply collect_ok, Forall2_fmap_r, Forall2_same_length_lookup_2; [done|].
  intros i index index' [-> Hi]%lookup_seq [-> _]%lookup_seq. simpl.
  pose proof (chunk_step_pos chunk_bytes) as Hpos. fold step in Hpos.
  pose proof (chunk_index_in_payload result chunk_bytes i Hi) as Hlo. fold step in Hlo.
  set (payload := encode_weights (tr_weights result)) in *.
  rewrite slice_ok by lia. cbn [mbind outcome_bind].
  assert (Hdata : take (Nat.min ((i + 1) * step) (length payload) - Nat.min (i * step) (length payload))
            (drop (Nat.min (i * step) (length payload)) payload) = take step (drop (i * step) payload)).
  { pose proof (step_slice payload i step (length payload) ltac:(lia)) as Hs. revert Hs.
    replace (Nat.min (Nat.min ((i + 1) * step) (length payload)) (length payload))
      with (Nat.min ((i + 1) * step) (length payload)) by lia. done. }
  unfold chunk_at. fold payload. rewrite Hdata. unfold variate_fits in Hfit.
  destruct (tr_control_variate result) as [v|]; simpl; [|done].
  assert (Hv : (length (encode_weights v) ≤ length payload)%nat).
  { unfold payload. rewrite !length_encode_weights. lia. }
  rewrite slice_ok by lia. cbn [fmap outcome_fmap mbind outcome_bind]. by rewrite step_slice.
Qed.

(** The chunks of one submission: they agree on everything the server reads
    from the first one, and are listed by index. *)
Record one_submission (d : ClientDelta) (cs : list DeltaChunk) : Prop := {
  os_nonempty : cs ≠ [];
  os_scalars : Forall (λ c, chunk_client_id c = client_id d ∧ chunk_round c = delta_round d ∧
                 chunk_num_samples c = num_samples d ∧ chunk_local_steps c = local_steps d ∧
                 chunk_local_loss c = local_loss d) cs;
  os_nodup : NoDup (map chunk_index cs);
  os_sorted : Sorted_by by_chunk_index cs;
  os_data : concat_data cs = weights d;
  os_variate : concat_control_variate cs = control_variate d;
}.

Lemma sort_chunks d cs arrival :
  one_submission d cs → arrival ≡ₚ cs → sort_by by_chunk_index arrival = cs.
Proof.
  intros Hos Hp. rewrite <-(sort_by_already_sorted _ cs) by apply (os_sorted _ _ Hos).
  symmetry. apply sort_by_unique; unfold by_chunk_index; [| | |by symmetry].
  - intros x y. lia.
  - intros x y z. lia.
  - intros x y Hx Hy H1 H2. apply (NoDup_map_inj chunk_index cs); [apply (os_nodup _ _ Hos)|done..|lia].
Qed.

Lemma reassemble_submission d cs arrival :
  one_submission d cs → arrival ≡ₚ cs → reassemble arrival = Ok d.
Proof.
  intros Hos Hp. pose proof (sort_chunks _ _ _ Hos Hp) as Hs.
  destruct arrival as [|first arrival].
  { destruct (os_nonempty _ _ Hos). by apply Permutation_nil_l in Hp. }
  unfold reassemble. rewrite Hs, (os_data _ _ Hos), (os_variate _ _ Hos).
  pose proof (os_scalars _ _ Hos) as Hall. rewrite <-Hp in Hall.
  apply Forall_cons in Hall as [(-> & -> & -> & -> & ->) _]. by destruct d.
Qed.

(** A chunk with other data of the same length. *)
Definition same_shape (c c' : DeltaChunk) : Prop :=
  ∃ data, length data = length (chunk_data c) ∧ c' = with_data c data.

Lemma same_shape_refl c : same_shape c c.
Proof. exists (chunk_data c). split; [done|]. by destruct c. Qed.

Lemma same_shape_bytes cs cs' : Forall2 same_shape cs cs' → total_bytes cs' = total_bytes cs.
Proof.
  induction 1 as [|c c' cs cs' (data & Hl & ->) _ IH]; [done|]. simpl. rewrite IH.
  unfold chunk_bytes. simpl. by rewrite Hl.
Qed.

(** Re-splitting changes the data alone and loses none of it. *)
Lemma resplit_ok {E} (transformed : bytes) cs offset :
  (offset + length (concat_data cs) ≤ length transformed)%nat →
  ∃ cs', resplit (E:=E) transformed offset cs (map (λ c, length (chunk_data c)) cs) = Ok cs' ∧
    Forall2 same_shape cs cs' ∧
    concat_data cs' = take (length (concat_data cs)) (drop offset transformed).
Proof.
  rewrite concat_data_eq. revert offset. induction cs as [|c cs IH]; intros offset Hl; simpl in *.
  { exists []. split; [done|]. split; [constructor|done]. }
  rewrite length_app in Hl. rewrite slice_ok by lia. cbn [mbind outcome_bind].
  destruct (IH (offset + length (chunk_data c))%nat) as (cs' & -> & Hsame & Hdata); [lia|].
  eexists. split; [done|]. split.
  { constructor; [|done]. eexists. split; [|done]. rewrite length_take, length_drop. lia. }
  rewrite concat_data_eq in *. simpl. rewrite Hdata, length_app.
  rewrite <-(take_drop (length (chunk_data c)) (take (_ + _) (drop offset transformed))).
  rewrite take_take, skipn_firstn_comm, drop_drop. f_equal; f_equal; lia.
Qed.

Lemma with_data_submission d cs cs' w :
  one_submission d cs → Forall2 same_shape cs cs' → concat_data cs' = w →
  one_submission {| client_id := client_id d; delta_round := delta_round d; weights := w;
                    num_samples := num_samples d; local_steps := local_steps d;
                    control_variate := control_variate d; local_loss := local_loss d |} cs'.
Proof.
  intros [Hne Hsc Hnd Hso Hda Hva] Hsame Hw. split; simpl; try done.
  - intros ->. by apply Forall2_nil_inv_r in Hsame.
  - clear -Hsc Hsame. revert Hsc. induction Hsame as [|c c' cs cs' (data & _ & ->) _ IH]; intros Hsc; [constructor|].
    apply Forall_cons in Hsc as [Hc Hsc]. constructor; [done|by apply IH].
  - assert (map chunk_index cs' = map chunk_index cs) as ->; [|done].
    clear -Hsame. induction Hsame as [|c c' cs cs' (data & _ & ->) _ IH]; simpl; [done|]. by rewrite IH.
  - clear -Hso Hsame. unfold Sorted_by in *. revert Hso.
    induction Hsame as [|c c' cs cs' (data & _ & ->) Hsame IH]; intros Hso; [constructor|].
    inversion Hso as [|?? Hs Hc]; subst. constructor; [by apply IH|].
    clear -Hc Hsame. induction Hsame as [|x x' cs cs' (dx & _ & ->) _ IH]; [constructor|].
    apply Forall_cons in Hc as [Hx Hc]. constructor; [done|by apply IH].
  - rewrite <-Hva. clear -Hsame. unfold concat_control_variate. generalize (@None bytes).
    induction Hsame as [|c c' cs cs' (data & _ & ->) _ IH]; intros acc; simpl; [done|]. apply IH.
Qed.

Lemma map_seq_sorted (f : nat → DeltaChunk) total :
  (∀ i, (i < total)%nat → chunk_index (f i) = Z.of_nat i) →
  NoDup (map chunk_index (map f (seq 0 total))) ∧ Sorted_by by_chunk_index (map f (seq 0 total)).
Proof.
  intros Hf. assert (Heq : map chunk_index (map f (seq 0 total)) = map Z.of_nat (seq 0 total)).
  { rewrite map_map. apply map_ext_in. intros i Hi%in_seq. apply Hf. lia. }
  split.
  - rewrite Heq. apply (NoDup_fmap_2 Z.of_nat), NoDup_seq.
  - assert (Hgen : ∀ s n, (s + n ≤ total)%nat → Sorted_by by_chunk_index (map f (seq s n))).
    { intros s n. revert s. induction n as [|n IH]; intros s Hs; simpl; [constructor|].
      constructor; [apply IH; lia|]. apply Forall_map, Forall_forall. intros j Hj%elem_of_seq.
      unfold by_chunk_index. simpl. rewrite !Hf by lia. lia. }
    apply Hgen. lia.
Qed.

(** The delta a client's result stands for. *)
Definition delta_of (client_id : string) (round : Z) (result : TrainResult) : ClientDelta :=
  {| client_id := client_id; delta_round := round; weights := encode_weights (tr_weights result);
     num_samples := tr_num_samples result; local_steps := tr_local_steps result;
     control_variate := encode_weights <$> tr_control_variate result; local_loss := tr_local_loss result |}.

Lemma built_chunks_submission client_id round result chunk_bytes :
  variate_fits result → Z.of_nat (chunk_total result chunk_bytes) < 2 ^ 32 →
  one_submission (delta_of client_id round result)
    (map (chunk_at client_id round result (chunk_step chunk_bytes) (chunk_total result chunk_bytes))
       (seq 0 (chunk_total result chunk_bytes))).
Proof.
  intros Hfit Htotal. pose proof (chunk_total_covers result chunk_bytes) as Hcov.
  set (step := chunk_step chunk_bytes) in *. set (total := chunk_total result chunk_bytes) in *.
  set (f := chunk_at client_id round result step total).
  destruct (map_seq_sorted f total) as [Hnd Hso].
  { intros i Hi. simpl. apply Z.mod_small. lia. }
  assert (Hne : map f (seq 0 total) ≠ []).
  { assert (1 ≤ total)%nat by (unfold total, chunk_total; lia). destruct total; [lia|done]. }
  split; try done.
  - apply Forall_map, Forall_true. intros i. done.
  - rewrite concat_data_eq, map_map. simpl. rewrite concat_slices. by rewrite take_ge.
  - simpl. unfold variate_fits in Hfit. destruct (tr_control_variate result) as [v|] eqn:Hv; simpl.
    + rewrite (concat_cv_some _ (map (λ i, take step (drop (i * step) (encode_weights v))) (seq 0 total))); [|done|].
      * rewrite concat_slices, take_ge; [done|]. rewrite length_encode_weights in *. lia.
      * rewrite !map_map. apply map_ext. intros i. simpl. by rewrite Hv.
    + apply concat_cv_none, Forall_map, Forall_true. intros i. simpl. by rewrite Hv.
Qed.

(** The same delta with other weights. *)
Definition with_weights (d : ClientDelta) (ws : list f32) : ClientDelta :=
  {| client_id := client_id d; delta_round := delta_round d; weights := encode_weights ws;
     num_samples := num_samples d; local_steps := local_steps d; control_variate := control_variate d;
     local_loss := local_loss d |}.

(** What a node makes of a submission: chunks of the same shape that are one submission
    again, of what the mechanism made of the whole update. *)
Lemma forwarded_submission `{Gaussian} d ws sent chunks at_node local_privacy (rng rng' : gen) :
  one_submission d chunks → at_node ≡ₚ chunks → Forall f32_wf ws → weights d = encode_weights ws →
  match local_privacy with
  | Some m => transform (E:=DispatchError) m ws rng = Ok (sent, rng')
  | None => sent = ws
  end →
  ∃ forwarded arranged, (apply_local_privacy local_privacy at_node rng).2 = Ok forwarded ∧
    arranged ≡ₚ at_node ∧ Forall2 same_shape arranged forwarded ∧
    ∀ at_server, at_server ≡ₚ forwarded → reassemble at_server = Ok (with_weights d sent).
Proof.
  intros Hos Hnode Hwf Hd Hsent. unfold apply_local_privacy. destruct local_privacy as [m|].
  2: { subst sent. exists at_node, at_node. split; [done|]. split; [done|].
       split; [apply Forall_Forall2_diag, Forall_true, same_shape_refl|].
       intros at_server Hp. rewrite (reassemble_submission _ _ _ Hos) by (by rewrite Hp).
       unfold with_weights. rewrite <-Hd. by destruct d. }
  rewrite (sort_chunks _ _ _ Hos Hnode), (os_data _ _ Hos), Hd, decode_encoded, Hsent by done.
  pose proof (length_transform _ _ _ _ _ Hsent) as Hlen.
  destruct (resplit_ok (E:=DispatchError) (encode_weights sent) chunks 0) as (out & Hout & Hsame & Hdata).
  { rewrite (os_data _ _ Hos), Hd, !length_encode_weights. lia. }
  exists out, chunks. split; [exact Hout|]. split; [done|]. split; [done|]. intros at_server Hp.
  assert (Hw : concat_data out = encode_weights sent).
  { rewrite Hdata, (os_data _ _ Hos), Hd, drop_0, take_ge; [done|]. rewrite !length_encode_weights. lia. }
  exact (reassemble_submission _ _ _ (with_data_submission _ _ _ _ Hos Hsame Hw) Hp).
Qed.

(** ** Properties *)

(** C11: a submission arrives as it was made.  Whatever the chunk size, and
    whatever order chunks arrive in at the node and at the server, the delta the
    server reassembles is the client's result with its scalars and control
    variate, its weights exactly those the client sent or, behind a node with
    client-side privacy, what the mechanism made of the whole update at once. *)
Theorem submission_roundtrip `{Gaussian} (client_id : string) (round : Z) (result : TrainResult)
    (chunk_bytes : nat) (local_privacy : option GaussianClippingPrivacy) (rng rng' : gen) (sent : list f32) :
  Forall f32_wf (tr_weights result) → variate_fits result →
  Z.of_nat (chunk_total result chunk_bytes) < 2 ^ 32 →
  match local_privacy with
  | Some m => transform (E:=DispatchError) m (tr_weights result) rng = Ok (sent, rng')
  | None => sent = tr_weights result
  end →
  ∃ chunks, build_chunks (E:=DispatchError) client_id round result chunk_bytes = Ok chunks ∧
    ∀ at_node, at_node ≡ₚ chunks →
      ∃ forwarded, (apply_local_privacy local_privacy at_node rng).2 = Ok forwarded ∧
        ∀ at_server, at_server ≡ₚ forwarded →
          reassemble at_server = Ok (delta_of client_id round
            {| tr_weights := sent; tr_num_samples := tr_num_samples result;
               tr_local_steps := tr_local_steps result; tr_local_loss := tr_local_loss result;
               tr_control_variate := tr_control_variate result |}).
Proof.
  intros Hwf Hfit Htotal Hsent. pose proof (built_chunks_submission client_id round result chunk_bytes Hfit Htotal) as Hos.
  eexists. split; [by apply build_chunks_ok|]. intros at_node Hnode.
  destruct (forwarded_submission _ _ sent _ _ local_privacy rng rng' Hos Hnode Hwf eq_refl Hsent)
    as (forwarded & _ & Hf & _ & _ & Hall). by exists forwarded.
Qed.

Definition sample_result : TrainResult :=
  {| tr_weights := [f32_of_Z 1; f32_of_Z 2; f32_of_Z 3]; tr_num_samples := 42; tr_local_steps := Some 30;
     tr_local_loss := None; tr_control_variate := Some [f32_zero; f32_one; f32_zero] |}.

Lemma submission_roundtrip_witness :
  ∃ chunks, build_chunks (E:=DispatchError) "c" 7 sample_result 5 = Ok chunks ∧ length chunks = 3%nat ∧
    reassemble (rev chunks) = Ok (delta_of "c" 7 sample_result).
Proof.
  destruct (submission_roundtrip (H:=unit_gaussian) "c" 7 sample_result 5 None 0%nat 0%nat
    (tr_weights sample_result)) as (chunks & Hb & Hall).
  - repeat constructor; vm_compute; intuition congruence.
  - unfold variate_fits. simpl. lia.
  - vm_compute. reflexivity.
  - reflexivity.
  - exists chunks. split; [exact Hb|]. split.
    + vm_compute in Hb. injection Hb as <-. reflexivity.
    + destruct (Hall chunks (Permutation_refl _)) as (fwd & Hf & Hr). injection Hf as <-.
      exact (Hr (rev chunks) (Permutation_sym (Permutation_rev chunks))).
Defined.
