(* ===== verification/Dispatcher.v ===== *)
(** * The gRPC handlers ([conflux-server/src/dispatcher.rs],
      [auth_enforcement.rs], [conflux-net/src/jwt.rs])

    [AppState] as the [RoundDispatcher] behind the transport: task, submission,
    registration and heartbeat, each a stateful computation on the shared state.
    JWT decoding is the [jsonwebtoken] crate's; the algorithm a token is checked
    against is bound to the key here. *)

From S2P Require Import Prelude Float Wire Buffer Weights Averaging Registry Reputation Privacy Store Config State Round Submission.

Open Scope Z_scope.

(** ** Tokens *)

Inductive Algorithm : Type := RS256 | ES256.

Record Claims := { sub : string; exp_claim : Z; iat : option Z }.

Inductive ErrorKind : Type := ExpiredSignature | InvalidSignature | InvalidAlgorithm | OtherKind (message : string).

(** [jsonwebtoken]: [decode] with a key, the one algorithm of its [Validation]
    and [exp] and [sub] required; [header_alg] is [decode_header(..).alg]. *)
Class JwtLibrary := {
  decoding_key : Type;
  from_rsa_pem : bytes → option decoding_key;
  from_ec_pem : bytes → outcome string decoding_key;
  decode : Algorithm → decoding_key → string → outcome ErrorKind Claims;
  header_alg : string → option string;
}.

Inductive JwtAuthError : Type :=
  | UnusableKey (message : string)
  | Expired
  | BadSignature
  | WrongAlgorithm (expected presented : string)
  | MalformedToken (message : string)
  | SubjectMismatch (token_sub client_id : string)
  | ProductionRequiresJwtKey.

Section dispatcher.
Context `{J : JwtLibrary}.

Record JwtKeyMaterial := { jk_decoding_key : decoding_key; jk_algorithm : Algorithm }.

Definition from_public_key_pem (pem : bytes) : outcome JwtAuthError JwtKeyMaterial :=
  match from_rsa_pem pem with
  | Some key => Ok {| jk_decoding_key := key; jk_algorithm := RS256 |}
  | None =>
      match from_ec_pem pem with
      | Ok key => Ok {| jk_decoding_key := key; jk_algorithm := ES256 |}
      | Err e => Err (UnusableKey e)
      | Panic => Panic
      end
  end.

Definition algorithm (self : JwtKeyMaterial) : string :=
  match jk_algorithm self with RS256 => "RS256" | ES256 => "ES256" end.

Definition verify_token (key : JwtKeyMaterial) (token : string) : outcome JwtAuthError Claims :=
  map_err (λ e,
    match e with
    | ExpiredSignature => Expired
    | InvalidSignature => BadSignature
    | InvalidAlgorithm =>
        WrongAlgorithm (algorithm key) (default "an unreadable algorithm"%string (header_alg token))
    | OtherKind message => MalformedToken message
    end) (decode (jk_algorithm key) (jk_decoding_key key) token).

Definition verify_token_for_client (key : JwtKeyMaterial) (token client_id : string)
    : outcome JwtAuthError Claims :=
  claims ← verify_token key token;
  if decide (sub claims = client_id) then Ok claims
  else Err (SubjectMismatch (sub claims) client_id).

(** ** Enforcement *)

Definition validate_jwt_startup (mode : Mode) (auth : AuthMode) (key_material : option JwtKeyMaterial)
    : outcome JwtAuthError () :=
  if bool_decide (auth = Jwt) && negb (bool_decide (is_Some key_material)) && bool_decide (mode = Production)
  then Err ProductionRequiresJwtKey else Ok ().

Definition verify_jwt_if_required (mode : Mode) (auth : AuthMode) (key_material : option JwtKeyMaterial)
    (presented_token client_id : string) : outcome JwtAuthError () :=
  if decide (auth = Jwt) then
    match key_material with
    | Some key => (λ _, ()) <$> verify_token_for_client key presented_token client_id
    | None => if decide (mode = Production) then Err ProductionRequiresJwtKey else Ok ()
    end
  else Ok ().

Inductive AuthEnforcementError : Type := ProductionRequiresMtlsMaterial.

(** [Tls] is [tonic]'s configuration, [material] the PEM files, [build]
    [server_tls_config]. *)
Definition resolve_server_tls {Tls Material} (build : Material → Tls) (mode : Mode) (auth : AuthMode)
    (material : option Material) : outcome AuthEnforcementError (option Tls) :=
  if decide (auth = Mtls) then
    match material with
    | Some material => Ok (Some (build material))
    | None => if decide (mode = Production) then Err ProductionRequiresMtlsMaterial else Ok None
    end
  else Ok None.

(** ** Handlers *)

Context `{N : Notify} {R S A G L T : Type}.
Context `{CR : ClientRegistry R} `{St : Store S} `{Al : NodeAllowlist A} `{Ag : Aggregator G}.

(** [Display] of the errors that become [DispatchError::Other] and
    [Unauthenticated]. *)
Record Displays := {
  show_store : StoreError → string;
  show_buffer : BufferError → string;
  show_jwt : JwtAuthError → string;
  show_node : NodeAuthError → string;
  show_registry : RegistryError → string;
}.
Context (show : Displays).

Notation AppState := (AppState N R S A G L T JwtKeyMaterial).
Notation D := (stM AppState DispatchError).

Definition fetch_task (client_id : string) : D TaskResponse :=
  round ← gets st_round;
  weights ← zoom st_store (λ _ s, s) (λ e, OtherError (show_store show e)) (λ st, (st, load_latest_weights st));
  s ← gets id;
  mret (task_of s round weights).

Definition ack_for (delta : ClientDelta) : SubmitAck :=
  {| ack_accepted := true;
     ack_message := "accepted delta from " +:+ client_id delta +:+ " for round " +:+
                    show_u64 (delta_round delta) |}.

Definition submit_delta (chunks : list DeltaChunk) : D SubmitAck :=
  delta ← of_outcome (reassemble chunks);
  buffer ← gets st_current_buffer;
  match buffer with
  | None => of_outcome (Err (OtherError "no round is currently accepting submissions"))
  | Some buffer =>
      match push delta buffer with
      | Ok buffer =>
          modify (set_current_buffer (Some buffer)) ≫= λ _,
          mret (ack_for delta)
      | Err BufClosed => of_outcome (Err RoundClosed)
      | Err other => of_outcome (Err (OtherError (show_buffer show other)))
      | Panic => of_outcome Panic
      end
  end.

(** [FlTransportService::submit_delta], with the resolved [max_update_bytes]. *)
Definition submit_stream (stream : list DeltaChunk) : D SubmitAck :=
  c ← gets st_config;
  chunks ← of_outcome (collect_chunks (getv c P_max_update_bytes) 0 [] stream);
  submit_delta chunks.

Definition check_token (client_id auth_token : string) : D () :=
  s ← gets id;
  of_outcome (map_err (λ e, Unauthenticated (show_jwt show e))
    (verify_jwt_if_required (cfg_mode (st_config s)) (getv (st_config s) P_auth) (st_jwt_key s)
       auth_token client_id)).

Definition check_allowlist (client_id auth_token : string) (peer_cert_fingerprint : option string) : D () :=
  s ← gets id;
  if (getv (st_config s) P_require_node_auth : bool) then
    let presented := match peer_cert_fingerprint with
                     | Some fingerprint => CertFingerprint fingerprint
                     | None => SharedToken auth_token
                     end in
    allowed ← of_outcome (map_err (λ e, OtherError (show_node show e))
                            (nal_check client_id presented (st_node_allowlist s)));
    if (allowed : bool) then mret () else of_outcome (Err (NotAllowed client_id))
  else mret ().

Definition enroll (now : Z) (client_id : string) : D RegisterResponse := λ s,
  match reg_register now client_id (st_registry s) with
  | (r, Ok _) => (set_registry r s, Ok {| reg_accepted := true; reg_message := "registered" |})
  | (r, Err (AlreadyRegistered _)) =>
      (set_registry r s, Ok {| reg_accepted := true; reg_message := "already registered" |})
  | (r, Err e) => (set_registry r s, Err (OtherError (show_registry show e)))
  | (r, Panic) => (set_registry r s, Panic)
  end.

(** [RoundDispatcher::register]: the two gates in order, then the registry. *)
Definition register_client (now : Z) (client_id auth_token : string) (peer_cert_fingerprint : option string)
    : D RegisterResponse :=
  check_token client_id auth_token ≫= λ _,
  check_allowlist client_id auth_token peer_cert_fingerprint ≫= λ _,
  enroll now client_id.

Definition heartbeat_client (now : Z) (client_id : string) : D HeartbeatResponse := λ s,
  match reg_heartbeat now client_id (st_registry s) with
  | (r, Ok ()) => (set_registry r s, Ok {| acknowledged := true |})
  | (r, Err (NotRegistered id)) => (set_registry r s, Err (UnknownClient id))
  | (r, Err e) => (set_registry r s, Err (OtherError (show_registry show e)))
  | (r, Panic) => (set_registry r s, Panic)
  end.

(** ** Facts *)

(** The admission decision of [register_client]. *)
Definition admitted (s : AppState) (client_id auth_token : string) (peer_cert_fingerprint : option string) : Prop :=
  (getv (st_config s) P_auth = Jwt →
     (∃ key claims, st_jwt_key s = Some key ∧
        decode (jk_algorithm key) (jk_decoding_key key) auth_token = Ok claims ∧ sub claims = client_id) ∨
     (st_jwt_key s = None ∧ cfg_mode (st_config s) = Research)) ∧
  ((getv (st_config s) P_require_node_auth : bool) = true →
     nal_check client_id
       match peer_cert_fingerprint with Some f => CertFingerprint f | None => SharedToken auth_token end
       (st_node_allowlist s) = Ok true).

Lemma verify_jwt_ok mode auth km token id :
  verify_jwt_if_required mode auth km token id = Ok () ↔
  (auth = Jwt →
     (∃ key claims, km = Some key ∧ decode (jk_algorithm key) (jk_decoding_key key) token = Ok claims ∧
        sub claims = id) ∨ (km = None ∧ mode = Research)).
Proof.
  unfold verify_jwt_if_required, verify_token_for_client, verify_token, map_err, mbind, outcome_bind, fmap,
    outcome_fmap. case_decide as Ha; [|naive_solver].
  destruct km as [key|].
  - destruct (decode _ _ token) as [claims|e|] eqn:Hd; [case_decide as Hsub| |].
    { split; [intros _ _; left; by exists key, claims|done]. }
    all: split; [done|]; intros H; destruct (H Ha) as [(key' & claims' & [= <-] & Hd' & Hsub')|[? _]];
      congruence.
  - case_decide as Hm; split; try done.
    + intros H. by destruct (H Ha) as [(? & ? & ? & _)|[_ ?]]; [|congruence].
    + intros _ _. right. by destruct mode.
Qed.

Lemma submit_delta_ok chunks s s' ack :
  submit_delta chunks s = (s', Ok ack) ↔
  ∃ d b b', reassemble chunks = Ok d ∧ st_current_buffer s = Some b ∧ push d b = Ok b' ∧
    s' = set_current_buffer (Some b') s ∧ ack = ack_for d.
Proof.
  unfold submit_delta, gets, modify, of_outcome, mbind, stM_bind, mret, stM_ret. split.
  - destruct (reassemble chunks) as [d| |]; [|done..]. destruct (st_current_buffer s) as [b|] eqn:Hb; [|done].
    destruct (push d b) as [b'|[]|] eqn:Hpush; try done. intros [= <- <-]. by exists d, b, b'.
  - intros (d & b & b' & -> & -> & -> & -> & ->). done.
Qed.

Lemma admitted_gates s client_id auth_token fp :
  admitted s client_id auth_token fp ↔
  check_token client_id auth_token s = (s, Ok ()) ∧ check_allowlist client_id auth_token fp s = (s, Ok ()).
Proof.
  unfold admitted. rewrite <-verify_jwt_ok.
  unfold check_token, check_allowlist, gets, of_outcome, mbind, stM_bind, mret, stM_ret, id, map_err.
  destruct (verify_jwt_if_required _ _ _ _ _) as [[]|e|]; [|naive_solver..].
  destruct (getv (st_config s) P_require_node_auth); [|naive_solver].
  destruct (nal_check _ _ _) as [[]|e|]; naive_solver.
Qed.

Lemma gates_pure client_id auth_token fp s :
  (check_token client_id auth_token s).1 = s ∧ (check_allowlist client_id auth_token fp s).1 = s.
Proof.
  unfold check_token, check_allowlist, gets, of_outcome, mbind, stM_bind, mret, stM_ret, id, map_err.
  split; [done|]. destruct (getv (st_config s) P_require_node_auth); [|done].
  by destruct (nal_check _ _ _) as [[]|e|].
Qed.

(** What the handlers leave alone: everything but the registry and the open
    round's buffer. *)
Definition confined (s s' : AppState) : Prop :=
  ∃ re b, s' = set_registry re (set_node_allowlist (st_node_allowlist s) (set_current_buffer b s)).

Lemma confined_refl s : confined s s.
Proof. exists (st_registry s), (st_current_buffer s). by destruct s. Qed.

Lemma confined_registry re s : confined s (set_registry re s).
Proof. exists re, (st_current_buffer s). by destruct s. Qed.

Lemma confined_buffer b s : confined s (set_current_buffer b s).
Proof. exists (st_registry s), b. by destruct s. Qed.

Lemma submit_delta_error chunks s s' o :
  submit_delta chunks s = (s', o) → is_ok o = false → s' = s.
Proof.
  unfold submit_delta, gets, modify, of_outcome, mbind, stM_bind, mret, stM_ret.
  destruct (reassemble chunks) as [d| |]; [|by intros [= <- <-]..].
  destruct (st_current_buffer s) as [b|]; [|by intros [= <- <-]].
  destruct (push d b) as [b'|[]|]; by intros [= <- <-].
Qed.

Lemma fetch_task_ok id s ws :
  load_latest_weights (st_store s) = Ok ws → fetch_task id s = (s, Ok (task_of s (st_round s) ws)).
Proof.
  intros Hw. unfold fetch_task, gets, zoom, mbind, stM_bind, mret, stM_ret. by rewrite Hw.
Qed.

Lemma push_ok d b b' :
  push d b = Ok b' →
  ∃ ds, buf_state b = Open ds ∧ delta_round d = buf_round b ∧ buf_state b' = Open (ds ++ [d]) ∧
    buf_round b' = buf_round b ∧ buf_quorum b' = buf_quorum b.
Proof.
  unfold push, push_locked. case_decide as Hr; [|done]. destruct (buf_state b) as [ds|]; [|done].
  intros [= <-]. by exists ds.
Qed.

(** No handler but [register] looks at who is calling: what a submission does
    depends on the open buffer alone. *)
Lemma submission_ignores_admission chunks s1 s2 :
  st_current_buffer s1 = st_current_buffer s2 → (submit_delta chunks s1).2 = (submit_delta chunks s2).2.
Proof.
  intros Hb. unfold submit_delta, gets, modify, of_outcome, mbind, stM_bind, mret, stM_ret.
  destruct (reassemble chunks) as [d| |]; [|done..]. rewrite Hb. destruct (st_current_buffer s2) as [b|]; [|done].
  by destruct (push d b) as [b'|[]|].
Qed.

(** ** Properties *)

(** C14: registration is decided by two independent gates, in order.  The client
    reaches the registry exactly when its token is verified under the key's own
    algorithm for that very client id (or research runs without a key) and, under
    [require_node_auth], the identity it presents is the allowed one; otherwise
    nothing changes: a bad token is [Unauthenticated] whatever the allow-list
    says, a good one without an invitation [NotAllowed]. *)
Theorem registration_admits_exactly (now : Z) (client_id auth_token : string) (fp : option string) (s : AppState) :
  (admitted s client_id auth_token fp →
     register_client now client_id auth_token fp s = enroll now client_id s) ∧
  (¬ admitted s client_id auth_token fp →
     (register_client now client_id auth_token fp s).1 = s ∧
     ∀ r, (register_client now client_id auth_token fp s).2 ≠ Ok r) ∧
  (∀ e, verify_jwt_if_required (cfg_mode (st_config s)) (getv (st_config s) P_auth) (st_jwt_key s)
          auth_token client_id = Err e →
     (register_client now client_id auth_token fp s).2 = Err (Unauthenticated (show_jwt show e))) ∧
  (check_token client_id auth_token s = (s, Ok ()) →
     (getv (st_config s) P_require_node_auth : bool) = true →
     nal_check client_id match fp with Some f => CertFingerprint f | None => SharedToken auth_token end
       (st_node_allowlist s) = Ok false →
     (register_client now client_id auth_token fp s).2 = Err (NotAllowed client_id)).
Proof.
  rewrite admitted_gates. destruct (gates_pure client_id auth_token fp s) as [Ht Hl].
  unfold register_client. split; [|split; [|split]].
  - intros [Hct Hcl]. unfold mbind, stM_bind. by rewrite Hct, Hcl.
  - intros Hn. unfold mbind, stM_bind.
    destruct (check_token client_id auth_token s) as [s1 [[]|e|]]; simpl in Ht; subst s1; [|done..].
    destruct (check_allowlist client_id auth_token fp s) as [s1 [[]|e|]]; simpl in Hl; subst s1; [|done..].
    by destruct Hn.
  - intros e He. unfold check_token at 1, gets, of_outcome, mbind, stM_bind, id. by rewrite He.
  - intros Hct Hreq Hno. unfold mbind at 1, stM_bind at 1. rewrite Hct.
    unfold check_allowlist, gets, of_outcome, mbind, stM_bind, id. by rewrite Hreq, Hno.
Qed.

(** C13: the submission handler.  An accepted stream carried at most
    [max_update_bytes] of payload, and its one effect is that the delta it
    reassembles to is appended to the open buffer of its own round; a refused
    one changes nothing, and is refused as too large exactly when its payload
    is. *)
Theorem submission_effect_exact (stream : list DeltaChunk) (s s' : AppState) (o : outcome DispatchError SubmitAck) :
  let max := getv (st_config s) P_max_update_bytes in
  0 ≤ max < u64_max →
  submit_stream stream s = (s', o) →
  (∀ ack, o = Ok ack →
     total_bytes stream ≤ max ∧
     ∃ d b b' ds, reassemble stream = Ok d ∧ st_current_buffer s = Some b ∧ buf_state b = Open ds ∧
       buf_round b = delta_round d ∧ buf_state b' = Open (ds ++ [d]) ∧ s' = set_current_buffer (Some b') s) ∧
  (is_ok o = false → s' = s) ∧
  ((∃ id n, o = Err (UpdateTooLarge id max n)) ↔ max < total_bytes stream).
Proof.
  intros max Hmax. unfold submit_stream. unfold gets, of_outcome, mbind, stM_bind. fold max.
  pose proof (collect_chunks_spec max 0 [] stream ltac:(lia) ltac:(lia)) as Hspec.
  destruct (collect_chunks max 0 [] stream) as [cs|e|]; [| |done].
  - destruct Hspec as [-> Htot]. simpl. intros Hsub. split; [|split].
    + intros ack ->. apply submit_delta_ok in Hsub as (d & b & b' & Hd & Hb & Hpush & -> & _).
      destruct (push_ok _ _ _ Hpush) as (ds & Hs & Hr & Hs' & _). split; [lia|]. by exists d, b, b', ds.
    + by apply submit_delta_error with (1 := Hsub).
    + split; [|lia]. intros (id & n & ->). exfalso. revert Hsub.
      unfold submit_delta, gets, modify, of_outcome, mbind, stM_bind, mret, stM_ret, reassemble.
      destruct stream as [|c cs]; [done|]. destruct (st_current_buffer s) as [b|]; [|done].
      by destruct (push _ b) as [b'|[]|].
  - destruct Hspec as (pre & c & post & -> & Hb & n & ->). intros [= <- <-].
    split; [done|]. split; [done|]. split; [|intros _; by exists (chunk_client_id c), n]. intros _.
    assert (Ht : ∀ l l', total_bytes (l ++ l') = total_bytes l + total_bytes l').
    { intros l l'. induction l as [|x l IH]; simpl; [done|]. lia. }
    rewrite Ht in *. simpl in *. pose proof (total_bytes_nonneg post). lia.
Qed.

(** While a round is open the handlers, in any sequence, change nothing the
    round loop owns: only the registry and the buffer move, and a buffer only by
    a push into it. *)
Theorem handlers_are_confined (s : AppState) :
  (∀ id, (fetch_task id s).1 = s) ∧
  (∀ now id tok fp, confined s (register_client now id tok fp s).1 ∧
     st_current_buffer (register_client now id tok fp s).1 = st_current_buffer s) ∧
  (∀ now id, confined s (heartbeat_client now id s).1 ∧
     st_current_buffer (heartbeat_client now id s).1 = st_current_buffer s) ∧
  (∀ stream, confined s (submit_stream stream s).1 ∧ st_registry (submit_stream stream s).1 = st_registry s ∧
     (st_current_buffer (submit_stream stream s).1 = st_current_buffer s ∨
      ∃ d b b', st_current_buffer s = Some b ∧ push d b = Ok b' ∧
        st_current_buffer (submit_stream stream s).1 = Some b')).
Proof.
  assert (Hre : ∀ r x, st_current_buffer (set_registry r x) = st_current_buffer (x : AppState)) by (by intros r []).
  split; [|split; [|split]].
  - intros id. unfold fetch_task, gets, zoom, mbind, stM_bind, mret, stM_ret.
    by destruct (load_latest_weights (st_store s)).
  - intros now id tok fp. destruct (gates_pure id tok fp s) as [Ht Hl].
    unfold register_client, mbind, stM_bind.
    destruct (check_token id tok s) as [s1 [[]|e|]]; simpl in Ht; subst s1; try (split; [apply confined_refl|done]).
    destruct (check_allowlist id tok fp s) as [s1 [[]|e|]]; simpl in Hl; subst s1;
      try (split; [apply confined_refl|done]).
    unfold enroll. destruct (reg_register now id (st_registry s)) as [r [[]|[]|]]; split;
      try apply confined_registry; apply Hre.
  - intros now id. unfold heartbeat_client.
    destruct (reg_heartbeat now id (st_registry s)) as [r [[]|[]|]]; split; try apply confined_registry; apply Hre.
  - intros stream. unfold submit_stream, gets, of_outcome, mbind, stM_bind.
    destruct (collect_chunks _ 0 [] stream) as [cs|e|];
      [|split; [apply confined_refl|split; [done|by left]]..].
    destruct (submit_delta cs s) as [s' o] eqn:Hsub. destruct (is_ok o) eqn:Ho.
    + destruct o as [ack| |]; [|done..]. apply submit_delta_ok in Hsub as (d & b & b' & _ & Hb & Hpush & -> & _).
      split; [apply confined_buffer|]. split; [by destruct s|]. right. exists d, b, b'. by destruct s.
    + rewrite (submit_delta_error _ _ _ _ Hsub Ho). split; [apply confined_refl|]. split; [done|by left].
Qed.
End dispatcher.
