(* ===== verification/Admin.v ===== *)
(** * The HTTP admin surface ([conflux-server/src/admin_auth.rs], [http.rs])

    The bearer token, the rule on where the admin port may be bound, the
    middleware in front of every route, and the handlers, as computations on the
    shared state.  Routing, JSON and percent-decoding are the framework's: a
    request is the handler it was routed to with its extracted arguments, and its
    [Authorization] header. *)

From S2P Require Import Prelude Float Wire Buffer Weights Averaging Registry Reputation Privacy Store Config State Round Dispatcher.

Open Scope Z_scope.

(** ** The token *)

Record AdminToken := AdminToken_new { admin_token : string }.

Definition token_matches (self : AdminToken) (candidate : string) : bool :=
  constant_time_eq (as_bytes (admin_token self)) (as_bytes candidate).

(** [std::net]: four octets, or sixteen as one number. *)
Inductive IpAddr : Type := V4 (a b c d : Z) | V6 (address : Z).
Record SocketAddr := { ip : IpAddr; port : Z }.

Definition is_loopback (self : IpAddr) : bool :=
  match self with V4 a _ _ _ => a =? 127 | V6 address => address =? 1 end.

Inductive AdminAuthError : Type := ExposedWithoutToken (addr : SocketAddr).

Definition validate_admin_binding (addr : SocketAddr) (token : option AdminToken) : outcome AdminAuthError () :=
  if bool_decide (is_Some token) || is_loopback (ip addr) then Ok () else Err (ExposedWithoutToken addr).

Definition BEARER : string := "Bearer ".

(** [str::strip_prefix] *)
Fixpoint strip_prefix (prefix s : string) : option string :=
  match prefix, s with
  | EmptyString, _ => Some s
  | String a prefix, String b s => if Ascii.eqb a b then strip_prefix prefix s else None
  | String _ _, EmptyString => None
  end.

(** The header: absent, present but not text, or text. *)
Definition bearer (authorization : option (option string)) : option string :=
  value ← authorization;
  text ← value;
  strip_prefix BEARER text.

(** ** Requests and responses *)

Inductive NodeIdentityHttp : Type :=
  | HttpCertFingerprint (fingerprint : string)
  | HttpSharedToken (token : string).

Definition NodeIdentity_from (value : NodeIdentityHttp) : NodeIdentity :=
  match value with
  | HttpCertFingerprint fingerprint => CertFingerprint fingerprint
  | HttpSharedToken token => SharedToken token
  end.

(** The routes of [router]; the last segment of a deletion is as the URL has it. *)
Inductive AdminCall : Type :=
  | GetHealth
  | GetRoundStatus
  | GetRounds (limit : option Z)
  | PostRegister (client_id : string)
  | GetAllowlist
  | PostAllowlist (client_id : string) (identity : NodeIdentityHttp)
  | DeleteAllowlist (segment : string).

Definition uri_path (call : AdminCall) : string :=
  match call with
  | GetHealth => "/health"
  | GetRoundStatus => "/round/status"
  | GetRounds _ => "/rounds"
  | PostRegister _ => "/clients/register"
  | GetAllowlist | PostAllowlist _ _ => "/admin/allowlist"
  | DeleteAllowlist segment => "/admin/allowlist/" +:+ segment
  end.

Inductive AdminBody : Type :=
  | HealthResponse (status round_loop : string) (last_completed_round consecutive_failures : Z)
      (last_error : option string)
  | RoundStatusResponse (round : Z) (cited_requirement_satisfied : option bool)
  | RoundsResponse (rounds : list RoundRecord) (held : nat) (capacity : Z)
  | RegisterHttpResponse (accepted : bool)
  | AllowlistOpResponse (ok : bool)
  | AllowlistListResponse (client_ids : list string).

Definition OK : Z := 200.
Definition BAD_REQUEST : Z := 400.
Definition UNAUTHORIZED : Z := 401.
Definition INTERNAL_SERVER_ERROR : Z := 500.
Definition SERVICE_UNAVAILABLE : Z := 503.

Definition DEFAULT_ROUNDS_LIMIT : Z := 20.

(** ** Handlers *)

Section admin.
Context `{J : JwtLibrary} `{N : Notify} {R S A G L T : Type}.
Context `{CR : ClientRegistry R} `{Al : NodeAllowlist A}.
(** The framework's: a segment that does not decode is refused before the handler. *)
Context (percent_decode : string → option string).

Notation AppState := (AppState N R S A G L T JwtKeyMaterial).
(** The error is the status of a response with no body. *)
Notation H := (stM AppState Z).
Notation Response := (Z * AdminBody)%type.

Definition health : H Response :=
  health ← gets st_health;
  let loop_state := health_state health in
  mret (if is_healthy loop_state then OK else SERVICE_UNAVAILABLE,
        HealthResponse (if is_healthy loop_state then "ok" else "unhealthy") (as_str loop_state)
          (rlh_last_completed_round health) (rlh_consecutive_failures health) (rlh_last_error health)).

Definition round_status : H Response :=
  round ← gets st_round;
  verdict ← gets st_verdict;
  mret (OK, RoundStatusResponse round verdict).

Definition rounds (query_limit : option Z) : H Response :=
  c ← gets st_config;
  let capacity : Z := getv c P_round_history_len in
  let limit := Z.min (default DEFAULT_ROUNDS_LIMIT query_limit) capacity in
  history ← gets st_history;
  mret (OK, RoundsResponse (recent (Z.to_nat limit) history) (history_len history) capacity).

Definition register_http (now : Z) (client_id : string) : H Response := λ s,
  let '(r, result) := reg_register now client_id (st_registry s) in
  match result with
  | Ok () | Err (AlreadyRegistered _) => (set_registry r s, Ok (OK, RegisterHttpResponse true))
  | Err _ => (set_registry r s, Ok (OK, RegisterHttpResponse false))
  | Panic => (set_registry r s, Panic)
  end.

(** [Ok(())] and [Err(_)] of an allow-list operation. *)
Definition allowlist_op (op : A → A * outcome NodeAuthError ()) : H Response := λ s,
  let '(a, result) := op (st_node_allowlist s) in
  match result with
  | Ok () => (set_node_allowlist a s, Ok (OK, AllowlistOpResponse true))
  | Err _ => (set_node_allowlist a s, Ok (INTERNAL_SERVER_ERROR, AllowlistOpResponse false))
  | Panic => (set_node_allowlist a s, Panic)
  end.

Definition allow_node (client_id : string) (identity : NodeIdentityHttp) : H Response :=
  allowlist_op (nal_allow client_id (NodeIdentity_from identity)).

Definition revoke_node (client_id : string) : H Response := allowlist_op (nal_revoke client_id).

Definition list_allowlist : H Response :=
  a ← gets st_node_allowlist;
  match nal_list a with
  | Ok ids => mret (OK, AllowlistListResponse ids)
  | Err _ => mret (INTERNAL_SERVER_ERROR, AllowlistListResponse [])
  | Panic => of_outcome Panic
  end.

Definition handler (now : Z) (call : AdminCall) : H Response :=
  match call with
  | GetHealth => health
  | GetRoundStatus => round_status
  | GetRounds limit => rounds limit
  | PostRegister client_id => register_http now client_id
  | GetAllowlist => list_allowlist
  | PostAllowlist client_id identity => allow_node client_id identity
  | DeleteAllowlist segment =>
      match percent_decode segment with
      | Some client_id => revoke_node client_id
      | None => of_outcome (Err BAD_REQUEST)
      end
  end.

(** The middleware, with the rest of the stack as [next]. *)
Definition require_admin_token (token : option AdminToken) (path : string)
    (authorization : option (option string)) (next : H Response) : H Response :=
  if decide (path = "/health"%string) then next
  else
    match token with
    | None => next
    | Some token =>
        match bearer authorization with
        | Some presented => if token_matches token presented then next else of_outcome (Err UNAUTHORIZED)
        | None => of_outcome (Err UNAUTHORIZED)
        end
    end.

(** [router], on one request. *)
Definition respond (token : option AdminToken) (now : Z) (authorization : option (option string))
    (call : AdminCall) : H Response :=
  require_admin_token token (uri_path call) authorization (handler now call).
End admin.

(** ** What an allow-list promises *)

(** A change that was acknowledged is what every later check sees. *)
Class NodeAllowlistLaws (A : Type) `{NodeAllowlist A} := {
  allow_then_check id identity a a' :
    nal_allow id identity a = (a', Ok ()) → ∀ presented, nal_check id presented a' = Ok (bool_decide (presented = identity));
  revoke_then_check id a a' :
    nal_revoke id a = (a', Ok ()) → ∀ presented, nal_check id presented a' = Ok false;
}.

#[export] Instance InMemoryNodeAllowlist_laws `{HashOrder} : NodeAllowlistLaws InMemoryNodeAllowlist.
Proof.
  split.
  - intros id identity a a' [= <-] presented. simpl. f_equal. unfold check, allow. rewrite lookup_insert_eq.
    apply eq_true_iff_eq. rewrite matches_spec, bool_decide_eq_true. naive_solver.
  - intros id a a' [= <-] presented. simpl. unfold check, revoke. by rewrite lookup_delete_eq.
Qed.

(** The backend chosen at startup keeps what the two it chooses from keep. *)
#[export] Instance AnyNodeAllowlist_laws `{HashOrder} {Redis} `{!NodeAllowlist Redis, !NodeAllowlistLaws Redis} :
  NodeAllowlistLaws (AnyNodeAllowlist Redis).
Proof.
  split; intros id; [intros identity|]; intros [a|a] a'; simpl.
  - intros [= <-]. exact (allow_then_check (A:=InMemoryNodeAllowlist) id identity a _ eq_refl).
  - destruct (nal_allow id identity a) as [b o] eqn:Hb. intros [= <- ->]. by eapply allow_then_check.
  - intros [= <-]. exact (revoke_then_check (A:=InMemoryNodeAllowlist) id a _ eq_refl).
  - destruct (nal_revoke id a) as [b o] eqn:Hb. intros [= <- ->]. by eapply revoke_then_check.
Qed.

(** ** Facts *)

Lemma token_matches_spec t candidate : token_matches t candidate = true ↔ candidate = admin_token t.
Proof.
  unfold token_matches. rewrite constant_time_eq_spec. split; [by intros ->%as_bytes_inj|by intros ->].
Qed.

Lemma strip_prefix_spec prefix s rest : strip_prefix prefix s = Some rest ↔ s = prefix +:+ rest.
Proof.
  revert s. induction prefix as [|a prefix IH]; intros s; simpl.
  - split; [by intros [= ->]|by intros ->].
  - destruct s as [|b s]; [done|]. destruct (Ascii.eqb_spec a b) as [->|Hab].
    + rewrite IH. split; [by intros ->|by intros [= ->]].
    + split; [done|]. intros [=]. congruence.
Qed.

Lemma bearer_spec authorization t :
  bearer authorization = Some t ↔ authorization = Some (Some (BEARER +:+ t)).
Proof.
  unfold bearer. destruct authorization as [[text|]|]; [|done..].
  change (strip_prefix BEARER text = Some t ↔ Some (Some text) = Some (Some (BEARER +:+ t))).
  rewrite strip_prefix_spec. split; [by intros ->|by intros [= ->]].
Qed.

Lemma uri_path_health call : uri_path call = "/health"%string ↔ call = GetHealth.
Proof. by destruct call; split. Qed.

(** Whether the middleware lets a request through. *)
Definition authorized (token : option AdminToken) (authorization : option (option string)) (call : AdminCall) : Prop :=
  call = GetHealth ∨ token = None ∨
  ∃ t, token = Some t ∧ authorization = Some (Some (BEARER +:+ admin_token t)).

Lemma authorized_bearer t authorization call :
  authorized (Some t) authorization call ↔ call = GetHealth ∨ bearer authorization = Some (admin_token t).
Proof. unfold authorized. rewrite bearer_spec. naive_solver. Qed.

#[export] Instance authorized_decision token authorization call : Decision (authorized token authorization call).
Proof.
  refine (match token with
          | None => left _
          | Some t => cast_if (decide (uri_path call = "/health"%string ∨
                                       authorization = Some (Some (BEARER +:+ admin_token t))))
          end); unfold authorized; rewrite <-(uri_path_health call); naive_solver.
Defined.

Section properties.
Context `{J : JwtLibrary} `{N : Notify} {R S A G L T : Type}.
Context `{CR : ClientRegistry R} `{Al : NodeAllowlist A}.
Context (percent_decode : string → option string).

Notation AppState := (AppState N R S A G L T JwtKeyMaterial).
Notation respond := (respond (N:=N) (S:=S) (G:=G) (L:=L) (T:=T) percent_decode).
Notation handler := (handler (N:=N) (S:=S) (G:=G) (L:=L) (T:=T) percent_decode).

(** C30: every route but [/health] is behind the token.  With a token configured, a
    request is handled exactly when it carries [Bearer] and that very token; any other
    gets 401 with no body, and has no effect.  And the server never starts with its
    admin port reachable beyond loopback and no token. *)
Theorem admin_token_gates_every_route (token : option AdminToken) (now : Z)
    (authorization : option (option string)) (call : AdminCall) (addr : SocketAddr) (s : AppState) :
  respond token now authorization call s =
    (if decide (authorized token authorization call) then handler now call s else (s, Err UNAUTHORIZED)) ∧
  (validate_admin_binding addr token = Ok () →
     is_loopback (ip addr) = true ∨
     ∀ call', call' ≠ GetHealth → respond token now None call' s = (s, Err UNAUTHORIZED)).
Proof.
  assert (Hgate : ∀ auth c, respond token now auth c s =
    if decide (authorized token auth c) then handler now c s else (s, Err UNAUTHORIZED)).
  { intros auth c. unfold Admin.respond, require_admin_token. case_decide as Hp.
    { apply uri_path_health in Hp. rewrite decide_True by (by left). done. }
    rewrite uri_path_health in Hp. destruct token as [t|]; [|by rewrite decide_True by (right; by left)].
    pose proof (authorized_bearer t auth c) as Ha. destruct (bearer auth) as [presented|].
    - destruct (token_matches t presented) eqn:Hm.
      + apply token_matches_spec in Hm as ->. rewrite decide_True; [done|]. apply Ha. by right.
      + rewrite decide_False; [done|]. rewrite Ha. intros [?|[= Heq]]; [done|].
        apply token_matches_spec in Heq. congruence.
    - rewrite decide_False; [done|]. rewrite Ha. by intros [?|?]. }
  split; [apply Hgate|]. unfold validate_admin_binding.
  destruct token as [t|]; simpl; [|destruct (is_loopback (ip addr)); [by left|done]].
  intros _. right. intros c Hc. rewrite Hgate, decide_False; [done|]. by intros [?|[?|(? & ? & ?)]].
Qed.

(** A reply that reports success left the operation's result in the state. *)
Lemma allowlist_op_ok op (s s' : AppState) body :
  allowlist_op op s = (s', Ok (OK, body)) →
  ∃ a, op (st_node_allowlist s) = (a, Ok ()) ∧ s' = set_node_allowlist a s.
Proof.
  unfold allowlist_op. destruct (op (st_node_allowlist s)) as [a [[]|e|]]; intros [=]; subst. by exists a.
Qed.

Context (show : Displays) `{!NodeAllowlistLaws A}.

(** Registration on a state whose allow-list was edited, the token being good. *)
Lemma register_after_edit now client_id auth_token fp a (s : AppState) verdict :
  getv (st_config s) P_require_node_auth = true →
  verify_jwt_if_required (cfg_mode (st_config s)) (getv (st_config s) P_auth) (st_jwt_key s)
    auth_token client_id = Ok () →
  nal_check client_id match fp with Some f => CertFingerprint f | None => SharedToken auth_token end a = Ok verdict →
  let s' := set_node_allowlist a s in
  register_client show now client_id auth_token fp s' =
    if verdict : bool then enroll show now client_id s' else (s', Err (NotAllowed client_id)).
Proof.
  intros Hreq Hjwt Hcheck. destruct s. cbn in *.
  unfold register_client, check_token, check_allowlist, gets, of_outcome, mbind, stM_bind, mret, stM_ret, id. cbn.
  rewrite Hjwt. cbn. rewrite Hreq, Hcheck. by destruct verdict.
Qed.

(** What an operator does on the admin port decides who may register on the other.
    Once a node's identity has been accepted there, that node is admitted with exactly
    that identity and with no other; once it has been revoked it is refused whatever it
    presents, and changes nothing. *)
Theorem allowlist_edits_decide_registration (now now' : Z) (client_id auth_token segment : string)
    (identity : NodeIdentityHttp) (fp : option string) (s s' : AppState) (body : AdminBody) :
  getv (st_config s) P_require_node_auth = true →
  verify_jwt_if_required (cfg_mode (st_config s)) (getv (st_config s) P_auth) (st_jwt_key s)
    auth_token client_id = Ok () →
  percent_decode segment = Some client_id →
  (handler now (PostAllowlist client_id identity) s = (s', Ok (OK, body)) →
     register_client show now' client_id auth_token fp s' =
       if decide (match fp with Some f => CertFingerprint f | None => SharedToken auth_token end
                  = NodeIdentity_from identity)
       then enroll show now' client_id s' else (s', Err (NotAllowed client_id))) ∧
  (handler now (DeleteAllowlist segment) s = (s', Ok (OK, body)) →
     register_client show now' client_id auth_token fp s' = (s', Err (NotAllowed client_id))).
Proof.
  intros Hreq Hjwt Hdec. unfold Admin.handler. rewrite Hdec. split.
  - intros (a & Ha & ->)%allowlist_op_ok. erewrite register_after_edit; [|done|done|by eapply allow_then_check].
    by rewrite bool_decide_decide; case_decide.
  - intros (a & Ha & ->)%allowlist_op_ok. by erewrite register_after_edit; [|done|done|by eapply revoke_then_check].
Qed.

(** What the operator can read is true.  [/health] answers 503 exactly when the
    round loop has stopped, never merely because it is retrying; [/rounds] returns the
    newest rounds first, no more than asked for and never more than the history may
    hold; and reading changes nothing. *)
Theorem admin_reads_are_faithful (now : Z) (limit : option Z) (s : AppState) :
  let h := handler now GetHealth s in
  let r := handler now (GetRounds limit) s in
  h.1 = s ∧ r.1 = s ∧ (handler now GetRoundStatus s).1 = s ∧ (handler now GetAllowlist s).1 = s ∧
  (∃ code body, h.2 = Ok (code, body) ∧ (code = SERVICE_UNAVAILABLE ↔ health_state (st_health s) = Stopped)) ∧
  ∃ shown, r.2 = Ok (OK, RoundsResponse shown (history_len (st_history s)) (getv (st_config s) P_round_history_len)) ∧
    shown `prefix_of` rev (records (st_history s)) ∧
    (0 ≤ getv (st_config s) P_round_history_len → 0 ≤ default DEFAULT_ROUNDS_LIMIT limit →
       Z.of_nat (length shown) = Z.min (Z.min (default DEFAULT_ROUNDS_LIMIT limit)
         (getv (st_config s) P_round_history_len)) (Z.of_nat (history_len (st_history s)))).
Proof.
  cbn zeta. split; [done|]. split; [done|]. split; [done|]. split.
  { unfold Admin.handler, list_allowlist, gets, mbind, stM_bind. by destruct (nal_list _). }
  split.
  - eexists _, _. split; [reflexivity|]. by destruct (health_state (st_health s)).
  - eexists. split; [reflexivity|]. split.
    + unfold recent. eexists. symmetry. apply take_drop.
    + intros Hcap Hlim. unfold recent, history_len. rewrite length_take, length_rev. lia.
Qed.
End properties.
