(* ===== verification/Node.v ===== *)
(** * The node ([conflux-node/src/bridge.rs], [startup_guard.rs], [run.rs])

    The process between a client and the server.  [NodeBridge] answers the client's
    calls by forwarding them upstream, transforming a submission once if the node
    has a privacy mechanism and retrying what fails; in push mode a relay keeps one
    subscription alive.  The transport and the clock are one parameter, a world that
    calls and sleeps move on. *)

From S2P Require Import Prelude Float Wire Buffer Weights Averaging Registry Reputation Privacy Store Config State Round Submission Dispatcher Admin.

Open Scope Z_scope.

(** ** Start-up *)

Inductive RuntimeMode : Type := NodeResearch | NodeProduction.
Inductive ClientAppKind : Type := Stub | Real.
Inductive NodeConnectionMode : Type := PushMode | PullMode.

#[export] Instance RuntimeMode_eq_dec : EqDecision RuntimeMode.
Proof. solve_decision. Defined.
#[export] Instance ClientAppKind_eq_dec : EqDecision ClientAppKind.
Proof. solve_decision. Defined.

Definition NodeConnectionMode_as_str (self : NodeConnectionMode) : string :=
  match self with PushMode => "push" | PullMode => "pull" end.

Inductive StartupGuardError : Type := ProductionRefusesStubClient.

Definition validate_client_app_startup (mode : RuntimeMode) (allow_stub_client : bool) (kind : ClientAppKind)
    : outcome StartupGuardError () :=
  if bool_decide (mode = NodeProduction) && negb allow_stub_client && bool_decide (kind = Stub)
  then Err ProductionRefusesStubClient else Ok ().

Inductive RunError : Type :=
  | NodeStartupGuard (e : StartupGuardError)
  | NodeInvalidVar (var value : string)
  | NodeConnect (message : string)
  | NodeRegister (message : string)
  | NodeBind (addr : SocketAddr) (source : string)
  | NodeListenerAddr (source : string).

Inductive ClientTls (Tls : Type) : Type :=
  | Plaintext
  | ServerAuth (config : Tls)
  | Mutual (config : Tls).
Arguments Plaintext {Tls}.
Arguments ServerAuth {Tls} config.
Arguments Mutual {Tls} config.

Definition client_tls_config {Tls} (self : ClientTls Tls) : option Tls :=
  match self with Plaintext => None | ServerAuth c | Mutual c => Some c end.

Definition client_tls_label {Tls} (self : ClientTls Tls) : string :=
  match self with Plaintext => "off" | ServerAuth _ => "server-auth" | Mutual _ => "mutual" end.

Record NodeConfig (Tls : Type) := {
  nc_mode : RuntimeMode;
  nc_allow_stub_client : bool;
  nc_client_app_kind : ClientAppKind;
  nc_server_addr : string;
  nc_client_id : string;
  nc_local_addr : SocketAddr;
  nc_connection_mode : NodeConnectionMode;
  nc_local_privacy : option GaussianClippingPrivacy;
  nc_privacy_seed : option Z;
  nc_auth_token : string;
  nc_client_tls : ClientTls Tls;
}.
Arguments Build_NodeConfig {Tls}.
Arguments nc_mode {Tls}.
Arguments nc_allow_stub_client {Tls}.
Arguments nc_client_app_kind {Tls}.
Arguments nc_server_addr {Tls}.
Arguments nc_client_id {Tls}.
Arguments nc_local_addr {Tls}.
Arguments nc_connection_mode {Tls}.
Arguments nc_local_privacy {Tls}.
Arguments nc_privacy_seed {Tls}.
Arguments nc_auth_token {Tls}.
Arguments nc_client_tls {Tls}.

Definition PLACEHOLDER_AUTH_TOKEN : string := "node-auth-token".

Section from_env.
Context {Tls : Type} (get : string → option string) (read : string → option bytes).
Context (server_auth : bytes → string → Tls) (mutual : bytes → bytes → bytes → string → Tls).
Context (f32_from_str : string → option f32) (addr_from_str : string → option SocketAddr)
  (u64_from_str : string → option Z).

Definition node_parse_env {V} (from_str : string → option V) (var : string) : outcome RunError (option V) :=
  match get var with
  | None => Ok None
  | Some value => match from_str value with Some v => Ok (Some v) | None => Err (NodeInvalidVar var value) end
  end.

(** An unreadable file panics. *)
Definition read_or_panic (path : string) : outcome RunError bytes :=
  match read path with Some bytes => Ok bytes | None => Panic end.

Definition resolve_client_tls : outcome RunError (ClientTls Tls) :=
  match get "CONFLUX_TLS_CLIENT_CERT_PATH"%string, get "CONFLUX_TLS_CLIENT_KEY_PATH"%string,
        get "CONFLUX_TLS_SERVER_CA_PATH"%string, get "CONFLUX_TLS_DOMAIN"%string with
  | None, None, None, None => Ok Plaintext
  | None, None, Some ca, Some domain => ca ← read_or_panic ca; Ok (ServerAuth (server_auth ca domain))
  | Some cert, Some key, Some ca, Some domain =>
      cert ← read_or_panic cert;
      key ← read_or_panic key;
      ca ← read_or_panic ca;
      Ok (Mutual (mutual cert key ca domain))
  | _, _, _, _ => Panic
  end.

Definition is_value (var value : string) : bool :=
  match get var with Some v => String.eqb v value | None => false end.

Definition NodeConfig_from_env : outcome RunError (NodeConfig Tls) :=
  let mode := if is_value "CONFLUX_MODE" "production" then NodeProduction else NodeResearch in
  let allow_stub_client :=
    if is_value "CONFLUX_ALLOW_STUB_CLIENT" "true" then true
    else if is_value "CONFLUX_ALLOW_STUB_CLIENT" "false" then false
    else bool_decide (mode = NodeResearch) in
  let client_app_kind := if is_value "CONFLUX_CLIENT_APP_KIND" "real" then Real else Stub in
  let connection_mode := if is_value "CONFLUX_CONNECTION_MODE" "push" then PushMode else PullMode in
  local_privacy ←
    (if is_value "CONFLUX_CLIENT_SIDE_PRIVACY_TRANSFORM" "true" then
       clip_norm ← node_parse_env f32_from_str "CONFLUX_CLIP_NORM";
       noise_multiplier ← node_parse_env f32_from_str "CONFLUX_NOISE_MULTIPLIER";
       Ok (Some {| clip_norm := default f32_one clip_norm; noise_multiplier := default f32_one noise_multiplier |})
     else Ok None);
  local_addr ← node_parse_env addr_from_str "CONFLUX_LOCAL_ADDR";
  privacy_seed ← node_parse_env u64_from_str "CONFLUX_SEED_VALUE";
  client_tls ← resolve_client_tls;
  Ok {| nc_mode := mode; nc_allow_stub_client := allow_stub_client; nc_client_app_kind := client_app_kind;
        nc_server_addr := default "http://127.0.0.1:50051"%string (get "CONFLUX_SERVER_ADDR"%string);
        nc_client_id := default "node-1"%string (get "CONFLUX_CLIENT_ID"%string);
        nc_local_addr := default {| ip := V4 127 0 0 1; port := 47100 |} local_addr;
        nc_connection_mode := connection_mode; nc_local_privacy := local_privacy;
        nc_privacy_seed := privacy_seed;
        nc_auth_token := default PLACEHOLDER_AUTH_TOKEN (get "CONFLUX_NODE_AUTH_TOKEN"%string);
        nc_client_tls := client_tls |}.
End from_env.

(** ** The upstream *)

(** Durations are in milliseconds. *)
Definition MAX_ATTEMPTS : nat := 3.
Definition INITIAL_BACKOFF : Z := 50.
Definition TASK_CHANNEL_CAPACITY : nat := 16.

(** [Duration] holds a [u64] of seconds; [*= 2] panics beyond it. *)
Definition DURATION_MAX : Z := 2 ^ 64 * 1000 - 1.
Definition duration_double (d : Z) : option Z := if d * 2 <=? DURATION_MAX then Some (d * 2) else None.

(** A connected transport: what a call answers, the error by its text, and what
    time does meanwhile. *)
Class UpstreamTransport (W : Type) := {
  up_connect : string → bool → W → W * option string;
  up_register : string → string → W → W * outcome string RegisterResponse;
  up_fetch_task : string → W → W * outcome string TaskResponse;
  up_submit_delta : list DeltaChunk → W → W * outcome string SubmitAck;
  up_sleep : Z → W → W;
}.

(** The retry loop of [fetch_task] and [submit_delta], with [remaining] attempts to go. *)
Fixpoint attempts {W X} (sleep : Z → W → W) (call : W → W * outcome string X) (remaining : nat) (backoff : Z)
    : stM W DispatchError X := λ w,
  match remaining with
  | O => (w, Panic)
  | S remaining =>
      match call w with
      | (w, Ok x) => (w, Ok x)
      | (w, Err e) =>
          match remaining with
          | O => (w, Err (OtherError e))
          | S _ =>
              match duration_double backoff with
              | Some doubled => attempts sleep call remaining doubled (sleep backoff w)
              | None => (w, Panic)
              end
          end
      | (w, Panic) => (w, Panic)
      end
  end.

Section bridge.
Context `{G : Gaussian} {W : Type} `{U : UpstreamTransport W}.

Record NodeBridge := {
  nb_upstream : NodeConnectionMode;
  nb_client_id : string;
  nb_local_privacy : option GaussianClippingPrivacy;
}.

Definition NodeBridge_new (client_id : string) : NodeBridge :=
  {| nb_upstream := PullMode; nb_client_id := client_id; nb_local_privacy := None |}.
Definition NodeBridge_new_push (client_id : string) : NodeBridge :=
  {| nb_upstream := PushMode; nb_client_id := client_id; nb_local_privacy := None |}.
Definition with_local_privacy (mechanism : GaussianClippingPrivacy) (self : NodeBridge) : NodeBridge :=
  {| nb_upstream := nb_upstream self; nb_client_id := nb_client_id self; nb_local_privacy := Some mechanism |}.

Definition connection_mode (self : NodeBridge) : NodeConnectionMode := nb_upstream self.

(** The generator is part of the bridge's state. *)
Notation B := (stM (gen * W) DispatchError).

Definition in_world {X} (m : stM W DispatchError X) : B X := zoom snd (λ w s, (s.1, w)) id m.
Definition in_rng {X} (m : stM gen DispatchError X) : B X := zoom fst (λ r s, (r, s.2)) id m.

Definition bridge_fetch_task (self : NodeBridge) : B TaskResponse :=
  match nb_upstream self with
  | PushMode => of_outcome (Err (OtherError "this conflux-node is running in push mode"))
  | PullMode => in_world (attempts up_sleep (up_fetch_task (nb_client_id self)) MAX_ATTEMPTS INITIAL_BACKOFF)
  end.

Definition bridge_submit_delta (self : NodeBridge) (chunks : list DeltaChunk) : B SubmitAck :=
  chunks ← in_rng (apply_local_privacy (nb_local_privacy self) chunks);
  in_world (attempts up_sleep (up_submit_delta chunks) MAX_ATTEMPTS INITIAL_BACKOFF).

(** Neither reaches the network. *)
Definition bridge_register (self : NodeBridge) : RegisterResponse :=
  {| reg_accepted := true; reg_message := "conflux-node already registered with the real server" |}.
Definition bridge_heartbeat (self : NodeBridge) : HeartbeatResponse := {| acknowledged := true |}.

(** [run_on], up to serving the local hop: guard, connection, registration. *)
Definition run_on {Tls} (config : NodeConfig Tls) : stM W RunError NodeBridge := λ w,
  match validate_client_app_startup (nc_mode config) (nc_allow_stub_client config) (nc_client_app_kind config) with
  | Err e => (w, Err (NodeStartupGuard e))
  | Panic => (w, Panic)
  | Ok () =>
      match up_connect (nc_server_addr config) (bool_decide (is_Some (client_tls_config (nc_client_tls config)))) w with
      | (w, Some e) => (w, Err (NodeConnect e))
      | (w, None) =>
          match up_register (nc_client_id config) (nc_auth_token config) w with
          | (w, Err e) => (w, Err (NodeRegister e))
          | (w, Panic) => (w, Panic)
          | (w, Ok _) =>
              let bridge :=
                match nc_connection_mode config with
                | PullMode => NodeBridge_new (nc_client_id config)
                | PushMode => NodeBridge_new_push (nc_client_id config)
                end in
              (w, Ok match nc_local_privacy config with
                     | Some mechanism => with_local_privacy mechanism bridge
                     | None => bridge
                     end)
          end
      end
  end.
End bridge.

(** ** The relay of pushed tasks *)

Inductive relay_phase : Type := Subscribing | Reading (delivered_any : bool) | RelayDone.

Record Relay := { consecutive_failures : nat; backoff : Z; phase : relay_phase }.

Definition relay_start : Relay := {| consecutive_failures := 0; backoff := INITIAL_BACKOFF; phase := Subscribing |}.

(** What the upstream and the local subscriber answer next; [listening] is whether
    the subscriber still takes the task. *)
Inductive relay_event : Type :=
  | Subscribed
  | SubscribeFailed
  | Message (task : TaskResponse) (listening : bool)
  | StreamClosed
  | StreamFailed.

Inductive relay_output : Type :=
  | Delivered (task : TaskResponse)
  | Slept (duration : Z)
  | GaveUp (failures : nat).

(** The end of the outer loop's body. *)
Definition relay_settle (failures : nat) (backoff : Z) : Relay * list relay_output :=
  if (MAX_ATTEMPTS <=? failures)%nat then
    ({| consecutive_failures := failures; backoff := backoff; phase := RelayDone |}, [GaveUp failures])
  else
    match duration_double backoff with
    | Some doubled =>
        ({| consecutive_failures := failures; backoff := doubled; phase := Subscribing |}, [Slept backoff])
    | None => ({| consecutive_failures := failures; backoff := backoff; phase := RelayDone |}, [Slept backoff])
    end.

(** One answer; answers the relay is not waiting for are not given. *)
Definition relay_step (self : Relay) (event : relay_event) : Relay * list relay_output :=
  match phase self, event with
  | Subscribing, Subscribed =>
      ({| consecutive_failures := consecutive_failures self; backoff := backoff self; phase := Reading false |}, [])
  | Subscribing, SubscribeFailed => relay_settle (S (consecutive_failures self)) (backoff self)
  | Reading _, Message task listening =>
      if listening : bool then
        ({| consecutive_failures := 0; backoff := INITIAL_BACKOFF; phase := Reading true |}, [Delivered task])
      else ({| consecutive_failures := 0; backoff := INITIAL_BACKOFF; phase := RelayDone |}, [])
  | Reading delivered_any, (StreamClosed | StreamFailed) =>
      relay_settle (if delivered_any then consecutive_failures self else S (consecutive_failures self)) (backoff self)
  | _, _ => (self, [])
  end.

Fixpoint relay_run (self : Relay) (events : list relay_event) : Relay * list relay_output :=
  match events with
  | [] => (self, [])
  | event :: events =>
      let '(self, out) := relay_step self event in
      let '(self, outs) := relay_run self events in
      (self, out ++ outs)
  end.

(** ** Facts about retrying *)

Lemma duration_doubles remaining backoff :
  0 ≤ backoff → backoff * 2 ^ Z.of_nat (S (S remaining)) ≤ DURATION_MAX →
  duration_double backoff = Some (backoff * 2) ∧ backoff * 2 * 2 ^ Z.of_nat (S remaining) ≤ DURATION_MAX.
Proof.
  intros Hb Hmax.
  assert (Hpow : backoff * 2 * 2 ^ Z.of_nat (S remaining) ≤ DURATION_MAX).
  { rewrite <-Z.mul_assoc, <-Z.pow_succ_r, <-Nat2Z.inj_succ by lia. done. }
  assert (1 ≤ 2 ^ Z.of_nat (S remaining)) by (apply (Z.pow_le_mono_r 2 0); lia).
  assert (backoff * 2 * 1 ≤ backoff * 2 * 2 ^ Z.of_nat (S remaining)) by (apply Z.mul_le_mono_nonneg_l; lia).
  unfold duration_double. rewrite (proj2 (Z.leb_le _ _)) by lia. done.
Qed.

Section retrying.
Context {W X : Type} (sleep : Z → W → W) (call : W → W * outcome string X).

(** The world after [k] attempts that failed and the pauses between them. *)
Fixpoint retried (k : nat) (backoff : Z) (w : W) : W :=
  match k with O => w | S k => retried k (backoff * 2) (sleep backoff (call w).1) end.

Definition failed_at (k : nat) (backoff : Z) (w : W) : Prop :=
  ∀ j, (j < k)%nat → ∃ e, (call (retried j backoff w)).2 = Err e.

(** What a call that was retried ends in: the answer of its last attempt, every
    earlier one having failed. *)
Definition settled (attempts : nat) (backoff : Z) (w : W) (r : W * outcome DispatchError X) : Prop :=
  ∃ k, (k < attempts)%nat ∧ failed_at k backoff w ∧ r.1 = (call (retried k backoff w)).1 ∧
    ((∃ x, (call (retried k backoff w)).2 = Ok x ∧ r.2 = Ok x) ∨
     (S k = attempts ∧ ∃ e, (call (retried k backoff w)).2 = Err e ∧ r.2 = Err (OtherError e))).

Lemma failed_at_S k backoff w e :
  (call w).2 = Err e → failed_at k (backoff * 2) (sleep backoff (call w).1) → failed_at (S k) backoff w.
Proof. intros He Hk [|j] Hj; [by exists e|]. simpl. apply Hk. lia. Qed.

Lemma attempts_settled remaining backoff w :
  (∀ w, (call w).2 ≠ Panic) → (0 < remaining)%nat → 0 ≤ backoff → backoff * 2 ^ Z.of_nat remaining ≤ DURATION_MAX →
  settled remaining backoff w (attempts sleep call remaining backoff w).
Proof.
  intros Hp. revert backoff w. induction remaining as [|remaining IH]; intros backoff w Hr Hb Hmax; [lia|].
  simpl. pose proof (Hp w) as Hpw. destruct (call w) as [w' [x|e|]] eqn:Hc; [|destruct remaining as [|remaining]|done].
  - exists 0%nat. simpl. rewrite Hc. split; [lia|]. split; [intros j; lia|]. split; [done|]. left. by exists x.
  - exists 0%nat. simpl. rewrite Hc. split; [lia|]. split; [intros j; lia|]. split; [done|]. right. split; [done|]. by exists e.
  - destruct (duration_doubles remaining backoff Hb Hmax) as [-> Hpow].
    destruct (IH (backoff * 2) (sleep backoff w') ltac:(lia) ltac:(lia) Hpow) as (k & Hk & Hf & Hw & Hres).
    exists (S k). cbn [retried]. rewrite Hc. cbn [fst]. split; [lia|]. split.
    { eapply failed_at_S; rewrite Hc; [done|exact Hf]. }
    split; [done|]. destruct Hres as [?|[? ?]]; [by left|right]. split; [lia|done].
Qed.
End retrying.

Section properties.
Context `{G : Gaussian} {W : Type} `{U : UpstreamTransport W}.

(** C17: a submission is noised once, however often it is sent.  The node transforms it
    before the first attempt and sends those very bytes at every one, three at most,
    until one is acknowledged or the last one's error is the client's answer; what
    cannot be transformed never leaves the node. *)
Theorem submission_is_noised_once (self : NodeBridge) (chunks : list DeltaChunk) (rng : gen) (w : W) :
  (∀ sent w, (up_submit_delta sent w).2 ≠ Panic) →
  let r := bridge_submit_delta self chunks (rng, w) in
  match apply_local_privacy (nb_local_privacy self) chunks rng with
  | (rng', Ok sent) =>
      r.1.1 = rng' ∧ settled up_sleep (up_submit_delta sent) MAX_ATTEMPTS INITIAL_BACKOFF w (r.1.2, r.2)
  | (rng', Err e) => r = ((rng', w), Err e)
  | (rng', Panic) => r = ((rng', w), Panic)
  end.
Proof.
  intros Hp. unfold bridge_submit_delta, in_rng, in_world, zoom, mbind, stM_bind. cbn [fst snd].
  destruct (apply_local_privacy (nb_local_privacy self) chunks rng) as [rng' [sent|e|]];
    cbn [fst snd map_err id]; [|done..].
  pose proof (attempts_settled up_sleep (up_submit_delta sent) MAX_ATTEMPTS INITIAL_BACKOFF w (Hp sent)
    ltac:(unfold MAX_ATTEMPTS; lia) ltac:(vm_compute; discriminate) ltac:(vm_compute; discriminate)) as Hs. revert Hs.
  destruct (attempts _ _ _ _ _) as [w' [ack|e|]]; cbn [fst snd map_err id]; done.
Qed.

(** In production a node never so much as connects for a stub client it was not told
    to allow. *)
Lemma stub_guard_precedes_network {Tls} (config : NodeConfig Tls) (w : W) :
  nc_mode config = NodeProduction → nc_allow_stub_client config = false → nc_client_app_kind config = Stub →
  run_on config w = (w, Err (NodeStartupGuard ProductionRefusesStubClient)).
Proof. intros Hm Ha Hk. unfold run_on, validate_client_app_startup. by rewrite Hm, Ha, Hk. Qed.
End properties.

(** ** Facts about the relay *)

(** The answer the relay is waiting for. *)
Definition awaited (self : Relay) (event : relay_event) : Prop :=
  match phase self, event with
  | Subscribing, (Subscribed | SubscribeFailed) => True
  | Reading _, (Message _ _ | StreamClosed | StreamFailed) => True
  | _, _ => False
  end.

Fixpoint plausible_trace (self : Relay) (events : list relay_event) : Prop :=
  match events with
  | [] => True
  | event :: events => awaited self event ∧ plausible_trace (relay_step self event).1 events
  end.

Definition delivered (out : relay_output) : option TaskResponse :=
  match out with Delivered task => Some task | _ => None end.
Definition received (event : relay_event) : option TaskResponse :=
  match event with Message task true => Some task | _ => None end.

(** A subscription that ended, or never began, without a task. *)
Definition is_message (event : relay_event) : bool := match event with Message _ _ => true | _ => false end.
Definition is_end (event : relay_event) : bool :=
  match event with SubscribeFailed | StreamClosed | StreamFailed => true | _ => false end.

Definition pause_ok (out : relay_output) : Prop :=
  match out with Slept d => d ∈ [50; 100; 200] | GaveUp n => n = MAX_ATTEMPTS | Delivered _ => True end.

(** The backoff is the doubled initial one, by at most one more than the failures. *)
Definition relay_inv (self : Relay) : Prop :=
  match phase self with
  | RelayDone => (consecutive_failures self ≤ MAX_ATTEMPTS)%nat
  | Reading true => consecutive_failures self = 0%nat ∧ backoff self = INITIAL_BACKOFF
  | _ => (consecutive_failures self < MAX_ATTEMPTS)%nat ∧
         ∃ m, (m ≤ S (consecutive_failures self))%nat ∧ backoff self = INITIAL_BACKOFF * 2 ^ Z.of_nat m
  end.

Lemma relay_settle_inv failures m :
  (failures ≤ MAX_ATTEMPTS)%nat → (m ≤ failures)%nat →
  let '(r, out) := relay_settle failures (INITIAL_BACKOFF * 2 ^ Z.of_nat m) in
  relay_inv r ∧ Forall pause_ok out ∧ omap delivered out = [] ∧ consecutive_failures r = failures ∧
  (phase r = RelayDone ↔ failures = MAX_ATTEMPTS) ∧ (∀ d, phase r ≠ Reading d).
Proof.
  unfold MAX_ATTEMPTS, relay_settle. intros Hf Hm. destruct (Nat.leb_spec MAX_ATTEMPTS failures) as [H3|H3];
    unfold MAX_ATTEMPTS in H3.
  - assert (failures = 3%nat) as -> by lia. cbn. split_and!; try done. by repeat constructor.
  - assert (Hd : duration_double (INITIAL_BACKOFF * 2 ^ Z.of_nat m) = Some (INITIAL_BACKOFF * 2 ^ Z.of_nat (S m)) ∧
      INITIAL_BACKOFF * 2 ^ Z.of_nat m ∈ [50; 100; 200]).
    { destruct m as [|[|[|m]]]; [..|lia]; (split; [vm_compute; reflexivity|]);
        apply (bool_decide_unpack _); vm_compute; reflexivity. }
    destruct Hd as [-> Hpause]. cbn [relay_inv phase consecutive_failures backoff fst snd]. split_and!; try done.
    + exists (S m). split; [lia|done].
    + apply Forall_cons. split; [exact Hpause|apply Forall_nil_2].
    + split; [done|lia].
Qed.

Ltac relay_done :=
  split_and?; intros; try done; try lia; first [by repeat constructor | split; intros; first [done | lia]].

(** One awaited answer: what it delivers, and what it does to the count. *)
Lemma relay_step_inv self event :
  relay_inv self → awaited self event →
  let '(r, out) := relay_step self event in
  relay_inv r ∧ Forall pause_ok out ∧ omap delivered out = option_list (received event) ∧
  (is_message event = false → phase self ≠ Reading true →
     consecutive_failures r = (consecutive_failures self + (if is_end event then 1 else 0))%nat ∧
     phase r ≠ Reading true ∧ (phase r = RelayDone ↔ consecutive_failures r = MAX_ATTEMPTS)).
Proof.
  destruct self as [f b p]. unfold relay_inv, awaited, relay_step. cbn [phase consecutive_failures backoff].
  intros Hinv Haw. destruct p as [|[]|]; [| | |done].
  - destruct Hinv as (Hf & m & Hm & ->). destruct event; try done.
    + cbn. split_and!; try done; [by exists m|]. intros _ _. unfold MAX_ATTEMPTS in *. relay_done.
    + pose proof (relay_settle_inv (S f) m ltac:(lia) ltac:(lia)) as H.
      destruct (relay_settle _ _) as [r out]. destruct H as (Hi & Hp & Ho & Hc & Hd & Hr). cbn [received option_list is_end].
      split_and!; try done. intros _ _. rewrite Hc. split_and!; [lia|apply Hr|exact Hd].
  - destruct Hinv as [-> ->].
    assert (Hset : let '(r, out) := relay_settle 0 INITIAL_BACKOFF in
      relay_inv r ∧ Forall pause_ok out ∧ omap delivered out = []).
    { pose proof (relay_settle_inv 0 0 ltac:(lia) ltac:(lia)) as H. rewrite Z.mul_1_r in H.
      destruct (relay_settle _ _) as [r out]. by destruct H as (? & ? & ? & _). }
    destruct event as [| |task []| |]; try done.
    + cbn. relay_done.
    + cbn. unfold MAX_ATTEMPTS in *. relay_done.
    + destruct (relay_settle _ _) as [r out]. destruct Hset as (? & ? & ?). relay_done.
    + destruct (relay_settle _ _) as [r out]. destruct Hset as (? & ? & ?). relay_done.
  - destruct Hinv as (Hf & m & Hm & ->).
    assert (Hset : let '(r, out) := relay_settle (S f) (INITIAL_BACKOFF * 2 ^ Z.of_nat m) in
      relay_inv r ∧ Forall pause_ok out ∧ omap delivered out = [] ∧ consecutive_failures r = (f + 1)%nat ∧
      phase r ≠ Reading true ∧ (phase r = RelayDone ↔ consecutive_failures r = MAX_ATTEMPTS)).
    { pose proof (relay_settle_inv (S f) m ltac:(lia) ltac:(lia)) as H. destruct (relay_settle _ _) as [r out].
      destruct H as (? & ? & ? & Hc & ? & ?). rewrite Hc. relay_done. }
    destruct event as [| |task []| |]; try done.
    + cbn. relay_done.
    + cbn. unfold MAX_ATTEMPTS in *. relay_done.
    + destruct (relay_settle _ _) as [r out]. destruct Hset as (? & ? & ? & ? & ? & ?). relay_done.
    + destruct (relay_settle _ _) as [r out]. destruct Hset as (? & ? & ? & ? & ? & ?). relay_done.
Qed.

Lemma relay_start_inv : relay_inv relay_start.
Proof. split; [cbn; unfold MAX_ATTEMPTS; lia|]. exists 0%nat. split; [lia|reflexivity]. Qed.

Lemma relay_run_inv self events :
  relay_inv self → plausible_trace self events →
  let '(r, out) := relay_run self events in
  relay_inv r ∧ Forall pause_ok out ∧ omap delivered out = omap received events.
Proof.
  revert self. induction events as [|event events IH]; intros self Hinv; [by intros _|]. intros [Haw Htr].
  cbn [relay_run]. pose proof (relay_step_inv self event Hinv Haw) as H.
  destruct (relay_step self event) as [self' out]. destruct H as (Hi & Hp & Ho & _).
  specialize (IH self' Hi Htr). destruct (relay_run self' events) as [r outs]. destruct IH as (Hi' & Hp' & Ho').
  split; [done|]. split; [by apply Forall_app|]. rewrite omap_app, Ho, Ho'. by destruct event as [| |? []| |].
Qed.

(** From a relay that has delivered nothing, every subscription that ends counts. *)
Lemma relay_counts_failures self events :
  relay_inv self → phase self ≠ Reading true → (phase self = RelayDone ↔ consecutive_failures self = MAX_ATTEMPTS) →
  plausible_trace self events → Forall (λ e, is_message e = false) events →
  consecutive_failures (relay_run self events).1 = (consecutive_failures self + length (filter (λ e, is_end e) events))%nat ∧
  (phase (relay_run self events).1 = RelayDone ↔ consecutive_failures (relay_run self events).1 = MAX_ATTEMPTS).
Proof.
  revert self. induction events as [|event events IH]; intros self Hinv Hph Hdone; [by rewrite Nat.add_0_r|].
  intros [Haw Htr] [Hm Hms]%Forall_cons. cbn [relay_run]. pose proof (relay_step_inv self event Hinv Haw) as H.
  destruct (relay_step self event) as [self' out] eqn:Hs. destruct H as (Hi & _ & _ & Hc).
  destruct (Hc Hm Hph) as (Hf & Hph' & Hd'). cbn [fst] in Htr. destruct (IH self' Hi Hph' Hd' Htr Hms) as [Hcount Hend].
  destruct (relay_run self' events) as [r outs]. cbn [fst] in *. split; [|done].
  rewrite Hcount, Hf, filter_cons. case_decide as He; destruct (is_end event); try done; cbn [length]; lia.
Qed.

(** The relay passes on what it is given, and is never silent about giving up.
    Over any answers of the upstream, the tasks the local client gets are those the
    server pushed, in order, each once; pauses are 50, 100 or 200 milliseconds; and
    over a server that never delivers a task it stops, saying so, after exactly three
    subscriptions have failed or ended, be they refused or accepted and closed. *)
Theorem relay_is_faithful (events : list relay_event) :
  plausible_trace relay_start events →
  let '(r, out) := relay_run relay_start events in
  omap delivered out = omap received events ∧ Forall pause_ok out ∧
  (Forall (λ e, is_message e = false) events →
     phase r = RelayDone ↔ length (filter (λ e, is_end e) events) = MAX_ATTEMPTS).
Proof.
  intros Htr. pose proof (relay_run_inv relay_start events relay_start_inv Htr) as H.
  pose proof (relay_counts_failures relay_start events relay_start_inv ltac:(done) ltac:(done) Htr) as Hc.
  destruct (relay_run relay_start events) as [r out]. destruct H as (_ & Hp & Ho). split; [done|]. split; [done|].
  intros Hm. destruct (Hc Hm) as [Hcount Hend]. cbn [fst consecutive_failures relay_start] in Hcount, Hend.
  by rewrite Hend, Hcount.
Qed.

(** ** What modelling showed *)

(** A server behind a link that loses the next [n] acknowledgements. *)
Section lossy.
Context `{J : JwtLibrary} `{N : Notify} {R S A Ag L T : Type} `{Gs : Gaussian} (show : Displays).
Notation AppState := (AppState N R S A Ag L T JwtKeyMaterial).

#[local] Instance lossy_link : UpstreamTransport (AppState * nat) := {|
  up_connect _ _ w := (w, None);
  up_register _ _ w := (w, Err "not modelled"%string);
  up_fetch_task _ w := (w, Err "not modelled"%string);
  up_submit_delta chunks '(s, lost) :=
    match submit_delta show chunks s, lost with
    | (s, Ok ack), O => ((s, O), Ok ack)
    | (s, Ok _), Datatypes.S lost => ((s, lost), Err "connection reset"%string)
    | (s, Err _), lost => ((s, lost), Err "rejected"%string)
    | (s, Panic), lost => ((s, lost), Panic)
    end;
  up_sleep _ w := w;
|}.

(** The server keeps no record of who has submitted: when the acknowledgement of an
    accepted submission is lost, the node's retry puts the same update into the round
    a second time, and the client is told it was accepted once. *)
Lemma lost_ack_counts_twice (chunks : list DeltaChunk) (d : ClientDelta) (rng : gen) (s : AppState)
    (b : RoundBuffer N) (ds : list ClientDelta) :
  reassemble chunks = Ok d → st_current_buffer s = Some b → buf_state b = Open ds → delta_round d = buf_round b →
  let r := bridge_submit_delta (NodeBridge_new "node-1") chunks (rng, (s, 1%nat)) in
  r.2 = Ok (ack_for d) ∧
  ∃ b', st_current_buffer r.1.2.1 = Some b' ∧ buf_state b' = Open (ds ++ [d; d]).
Proof.
  intros Hd Hb Hs Hr. destruct b as [br bq bs bn]. cbn in Hs, Hr. subst bs.
  assert (Hpush : ∀ ds' n, ∃ n', push d (Build_RoundBuffer br bq (Open ds') n) =
    Ok (Build_RoundBuffer br bq (Open (ds' ++ [d])) n')).
  { intros ds' n. unfold push, push_locked. cbn. rewrite decide_True by done. by eexists. }
  assert (Hsub : ∀ (x : AppState) ds' n, st_current_buffer x = Some (Build_RoundBuffer br bq (Open ds') n) →
    ∃ n', submit_delta show chunks x =
      (set_current_buffer (Some (Build_RoundBuffer br bq (Open (ds' ++ [d])) n')) x, Ok (ack_for d))).
  { intros x ds' n Hx. destruct (Hpush ds' n) as [n' Hn]. exists n'. apply submit_delta_ok.
    exists d, (Build_RoundBuffer br bq (Open ds') n). eexists. by split_and!. }
  destruct (Hsub s ds bn Hb) as [n1 H1].
  destruct (Hsub (set_current_buffer (Some (Build_RoundBuffer br bq (Open (ds ++ [d])) n1)) s) (ds ++ [d]) n1)
    as [n2 H2]; [by destruct s|].
  unfold bridge_submit_delta, in_rng, in_world, zoom, mbind, stM_bind. cbn [apply_local_privacy nb_local_privacy NodeBridge_new fst snd map_err].
  cbn [attempts MAX_ATTEMPTS up_submit_delta lossy_link up_sleep]. rewrite H1. cbn. rewrite H2. cbn.
  split; [done|]. eexists. rewrite <-app_assoc. split; [by destruct s|done].
Qed.
End lossy.

(** The server takes a custom mode's strictness from the profile it inherits from; the
    node knows one word. *)
Lemma node_takes_custom_production_for_research {Tls} get read server_auth mutual f32_from_str addr_from_str u64_from_str
    (config : NodeConfig Tls) (mode : string) :
  get "CONFLUX_MODE"%string = Some mode → mode ≠ "production"%string →
  NodeConfig_from_env get read server_auth mutual f32_from_str addr_from_str u64_from_str = Ok config →
  nc_mode config = NodeResearch ∧
  validate_client_app_startup (nc_mode config) (nc_allow_stub_client config) (nc_client_app_kind config) = Ok ().
Proof.
  intros Hm Hne. unfold NodeConfig_from_env. intros H.
  repeat (apply bind_ok_inv in H as (? & _ & H)). injection H as <-. cbn.
  assert (His : is_value get "CONFLUX_MODE" "production" = false).
  { unfold is_value. rewrite Hm. by apply String.eqb_neq. }
  rewrite His. done.
Qed.

(** ** Witnesses *)

(** A link that fails [n] times, and what was sent over it. *)
#[local] Instance flaky_link : UpstreamTransport (nat * list (list DeltaChunk)) := {|
  up_connect _ _ w := (w, None);
  up_register _ _ w := (w, Err ""%string);
  up_fetch_task _ w := (w, Err ""%string);
  up_submit_delta chunks '(n, sent) :=
    match n with
    | O => ((O, sent ++ [chunks]), Ok {| ack_accepted := true; ack_message := "" |})
    | S n => ((n, sent ++ [chunks]), Err "unavailable"%string)
    end;
  up_sleep _ w := w;
|}.

Definition noisy_bridge : NodeBridge :=
  with_local_privacy {| clip_norm := f32_of_Z 10; noise_multiplier := f32_zero |} (NodeBridge_new "node-1").

Definition one_chunk : list DeltaChunk :=
  [{| chunk_client_id := "a"; chunk_round := 1; chunk_index := 0; total_chunks := 1;
      chunk_data := encode_weights [f32_one]; chunk_num_samples := 5; chunk_local_steps := None;
      chunk_control_variate := None; chunk_local_loss := None |}].

Lemma submission_is_noised_once_witness :
  ∃ sent, (apply_local_privacy (H:=unit_gaussian) (nb_local_privacy noisy_bridge) one_chunk 0%nat).2 = Ok sent ∧
    settled up_sleep (up_submit_delta sent) MAX_ATTEMPTS INITIAL_BACKOFF (2%nat, [])
      (let r := bridge_submit_delta (G:=unit_gaussian) noisy_bridge one_chunk (0%nat, (2%nat, [])) in (r.1.2, r.2)) ∧
    (bridge_submit_delta (G:=unit_gaussian) noisy_bridge one_chunk (0%nat, (2%nat, []))).1.2.2 = [sent; sent; sent].
Proof.
  pose proof (submission_is_noised_once (G:=unit_gaussian) noisy_bridge one_chunk 0%nat (2%nat, [])) as H.
  destruct (apply_local_privacy (H:=unit_gaussian) (nb_local_privacy noisy_bridge) one_chunk 0%nat) as [rng [sent|e|]] eqn:Ha;
    [|exfalso; vm_compute in Ha; discriminate Ha..].
  exists sent. split; [reflexivity|]. split.
  - refine (proj2 (H _)). intros x [[|n] l]; discriminate.
  - vm_compute in Ha. injection Ha as _ <-. vm_compute. reflexivity.
Defined.

Definition demo_task (round : Z) : TaskResponse :=
  {| task_id := ""; task_round := round; model_weights := []; task_control_variate := None |}.

Lemma relay_is_faithful_witness :
  let trace := [SubscribeFailed; Subscribed; Message (demo_task 1) true; StreamClosed; Subscribed;
                Message (demo_task 2) true] in
  omap delivered (relay_run relay_start trace).2 = [demo_task 1; demo_task 2] ∧
  phase (relay_run relay_start [SubscribeFailed; Subscribed; StreamFailed; SubscribeFailed]).1 = RelayDone.
Proof.
  intros trace. split.
  - pose proof (relay_is_faithful trace) as H. destruct (relay_run relay_start trace) as [r out].
    destruct H as [Hd _]; [vm_compute; tauto|]. exact Hd.
  - pose proof (relay_is_faithful [SubscribeFailed; Subscribed; StreamFailed; SubscribeFailed]) as H.
    destruct (relay_run relay_start [SubscribeFailed; Subscribed; StreamFailed; SubscribeFailed]) as [r out].
    destruct H as (_ & _ & Hend); [vm_compute; tauto|]. apply Hend; [repeat constructor|reflexivity].
Defined.
