(* ===== verification/Client.v ===== *)
(** * The client's loop ([conflux-client/src/lib.rs], [run])

    Fetch a task, train, submit, keep submitting while the server is still on that
    round, and go on until enough rounds are done.  [run] is a machine whose steps are
    the calls it makes: [client_step] is one turn of the polling loop or of the
    submission loop, the transport the class of the node's own upstream. *)

From S2P Require Import Prelude Float Wire Buffer Weights Averaging Registry Reputation Privacy Store Config State Round Submission Dispatcher Admin Node.

Open Scope Z_scope.

Inductive ClientError : Type :=
  | ClientTransport (message : string)
  | ClientCodec (e : WeightsCodecError)
  | ShapeChanged (expected got : nat).

Definition DEFAULT_CHUNK_BYTES : nat := 2 ^ 20.

(** The common case, and what the builders add to it. *)
Definition TrainResult_new (weights : list f32) (num_samples : Z) : TrainResult :=
  {| tr_weights := weights; tr_num_samples := num_samples; tr_local_steps := None; tr_local_loss := None;
     tr_control_variate := None |}.
Definition with_local_steps (steps : Z) (self : TrainResult) : TrainResult :=
  {| tr_weights := tr_weights self; tr_num_samples := tr_num_samples self; tr_local_steps := Some steps;
     tr_local_loss := tr_local_loss self; tr_control_variate := tr_control_variate self |}.
Definition with_local_loss (loss : f32) (self : TrainResult) : TrainResult :=
  {| tr_weights := tr_weights self; tr_num_samples := tr_num_samples self; tr_local_steps := tr_local_steps self;
     tr_local_loss := Some loss; tr_control_variate := tr_control_variate self |}.
Definition with_control_variate (variate : list f32) (self : TrainResult) : TrainResult :=
  {| tr_weights := tr_weights self; tr_num_samples := tr_num_samples self; tr_local_steps := tr_local_steps self;
     tr_local_loss := tr_local_loss self; tr_control_variate := Some variate |}.

(** [-0.0 == 0.0]. *)
Definition is_placeholder_init (weights : list f32) : bool :=
  match weights with [] => false | _ => forallb (λ w, (w =? f32_zero)%f32) weights end.

Record RunConfig := {
  rc_address : string;
  rc_client_id : string;
  rc_rounds : nat;
  rc_auth_token : string;
  rc_chunk_bytes : nat;
  rc_poll_interval : Z;
}.

Definition RunConfig_default : RunConfig :=
  {| rc_address := "http://127.0.0.1:47100"; rc_client_id := "rust-client-1"; rc_rounds := 1;
     rc_auth_token := "client-token"; rc_chunk_bytes := DEFAULT_CHUNK_BYTES; rc_poll_interval := 200 |}.

Class ClientApp (A : Type) := {
  train : list f32 → Z → A → A * TrainResult;
  on_round_start : Z → A → A;
  on_control_variate : list f32 → A → A;
  on_round_end : Z → bool → A → A;
}.

(** A boxed client forwards. *)
Record BoxedClient := BoxClient { client_type : Type; client_impl : ClientApp client_type; client_state : client_type }.
#[export] Instance BoxedClient_app : ClientApp BoxedClient := {|
  train weights round b :=
    let '(st, r) := @train _ (client_impl b) weights round (client_state b) in (BoxClient _ (client_impl b) st, r);
  on_round_start round b := BoxClient _ (client_impl b) (@on_round_start _ (client_impl b) round (client_state b));
  on_control_variate c b := BoxClient _ (client_impl b) (@on_control_variate _ (client_impl b) c (client_state b));
  on_round_end round accepted b :=
    BoxClient _ (client_impl b) (@on_round_end _ (client_impl b) round accepted (client_state b));
|}.

Inductive client_phase : Type :=
  | Waiting
  | Submitting (round : Z) (chunks : list DeltaChunk)
  | Finished
  | Failed (e : ClientError)
  | Crashed.

Section client.
Context {A W : Type} `{CA : ClientApp A} `{U : UpstreamTransport W} (config : RunConfig).

Record Client := {
  cl_app : A;
  cl_last_round : option Z;
  cl_completed : nat;
  cl_phase : client_phase;
}.

Definition with_phase (p : client_phase) (self : Client) : Client :=
  {| cl_app := cl_app self; cl_last_round := cl_last_round self; cl_completed := cl_completed self; cl_phase := p |}.
Definition with_app (app : A) (self : Client) : Client :=
  {| cl_app := app; cl_last_round := cl_last_round self; cl_completed := cl_completed self; cl_phase := cl_phase self |}.

(** From a new task to the chunks to submit. *)
Definition begin_round (task : TaskResponse) (app : A) : A * outcome ClientError (list DeltaChunk) :=
  match decode_weights (model_weights task) with
  | Err e => (app, Err (ClientCodec e))
  | Panic => (app, Panic)
  | Ok weights =>
      let app := on_round_start (task_round task) app in
      match match task_control_variate task with
            | None => Ok app
            | Some raw =>
                match decode_weights raw with
                | Ok c => Ok (on_control_variate c app)
                | Err e => Err (ClientCodec e)
                | Panic => Panic
                end
            end with
      | Err e => (app, Err e)
      | Panic => (app, Panic)
      | Ok app =>
          let '(app, result) := train weights (task_round task) app in
          if (length (tr_weights result) =? length weights)%nat
          then (app, build_chunks (rc_client_id config) (task_round task) result (rc_chunk_bytes config))
          else (app, Err (ShapeChanged (length weights) (length (tr_weights result))))
      end
  end.

Definition fetch (w : W) : W * outcome string TaskResponse := up_fetch_task (rc_client_id config) w.

(** One turn of [while completed < rounds { .. fetch .. }]. *)
Definition poll_step (self : Client) (w : W) : Client * W :=
  if (rc_rounds config <=? cl_completed self)%nat then (with_phase Finished self, w)
  else
    match fetch w with
    | (w, Err e) => (with_phase (Failed (ClientTransport e)) self, w)
    | (w, Panic) => (with_phase Crashed self, w)
    | (w, Ok task) =>
        if decide (Some (task_round task) = cl_last_round self) then (self, up_sleep (rc_poll_interval config) w)
        else
          match begin_round task (cl_app self) with
          | (app, Ok chunks) => (with_phase (Submitting (task_round task) chunks) (with_app app self), w)
          | (app, Err e) => (with_phase (Failed e) (with_app app self), w)
          | (app, Panic) => (with_phase Crashed (with_app app self), w)
          end
    end.

(** One turn of the submission loop. *)
Definition submit_step (round : Z) (chunks : list DeltaChunk) (self : Client) (w : W) : Client * W :=
  match up_submit_delta chunks w with
  | (w, Ok ack) =>
      ({| cl_app := on_round_end round (ack_accepted ack) (cl_app self); cl_last_round := Some round;
          cl_completed := S (cl_completed self); cl_phase := Waiting |}, w)
  | (w, Panic) => (with_phase Crashed self, w)
  | (w, Err _) =>
      match fetch (up_sleep (rc_poll_interval config) w) with
      | (w, Err e) => (with_phase (Failed (ClientTransport e)) self, w)
      | (w, Panic) => (with_phase Crashed self, w)
      | (w, Ok current) =>
          if decide (task_round current = round) then (self, w)
          else
            ({| cl_app := on_round_end round false (cl_app self); cl_last_round := Some round;
                cl_completed := cl_completed self; cl_phase := Waiting |}, w)
      end
  end.

Definition client_step (s : Client * W) : Client * W :=
  match cl_phase s.1 with
  | Waiting => poll_step s.1 s.2
  | Submitting round chunks => submit_step round chunks s.1 s.2
  | Finished | Failed _ | Crashed => s
  end.

Definition client_start (app : A) : Client :=
  {| cl_app := app; cl_last_round := None; cl_completed := 0; cl_phase := Waiting |}.

(** [run], for [n] turns: the registration, then the loop. *)
Definition run (n : nat) (app : A) (w : W) : Client * W :=
  match up_connect (rc_address config) false w with
  | (w, Some e) => (with_phase (Failed (ClientTransport e)) (client_start app), w)
  | (w, None) =>
      match up_register (rc_client_id config) (rc_auth_token config) w with
      | (w, Err e) => (with_phase (Failed (ClientTransport e)) (client_start app), w)
      | (w, Panic) => (with_phase Crashed (client_start app), w)
      | (w, Ok _) => Nat.iter n client_step (client_start app, w)
      end
  end.
End client.
Arguments Client : clear implicits.
Arguments cl_app {A}.
Arguments cl_last_round {A}.
Arguments cl_completed {A}.
Arguments cl_phase {A}.


(** ** What the loop guarantees *)

Section properties.
Context {A W : Type} `{CA : ClientApp A} `{U : UpstreamTransport W} (config : RunConfig).

(** What is being submitted is the answer of [train] to the model the node dispatched. *)
Definition trained_for (round : Z) (chunks : list DeltaChunk) (app : A) : Prop :=
  ∃ w0 task app0 weights result,
    (fetch config w0).2 = Ok task ∧ task_round task = round ∧ decode_weights (model_weights task) = Ok weights ∧
    train weights round app0 = (app, result) ∧ length (tr_weights result) = length weights ∧
    build_chunks (E:=ClientError) (rc_client_id config) round result (rc_chunk_bytes config) = Ok chunks.

Record client_inv (self : Client A) : Prop := {
  ci_bounded : (cl_completed self ≤ rc_rounds config)%nat;
  ci_counted : (0 < cl_completed self)%nat → is_Some (cl_last_round self);
  ci_finished : cl_phase self = Finished → cl_completed self = rc_rounds config;
  ci_submitting round chunks : cl_phase self = Submitting round chunks →
    (cl_completed self < rc_rounds config)%nat ∧ cl_last_round self ≠ Some round ∧
    trained_for round chunks (cl_app self);
}.

Lemma begin_round_ok w0 task app app' chunks :
  (fetch config w0).2 = Ok task →
  begin_round config task app = (app', Ok chunks) → trained_for (task_round task) chunks app'.
Proof.
  intros Hf. unfold begin_round. destruct (decode_weights (model_weights task)) as [ws| |] eqn:Hd; [|congruence..].
  set (m := match task_control_variate task with None => _ | Some _ => _ end).
  destruct m as [app1| |]; [|congruence..].
  destruct (train ws (task_round task) app1) as [app2 result] eqn:Ht.
  destruct (Nat.eqb_spec (length (tr_weights result)) (length ws)) as [Hl|]; [|congruence].
  intros [= <- Hb]. by exists w0, task, app1, ws, result.
Qed.

Lemma quiet_phase (self self' : Client A) :
  client_inv self → cl_completed self' = cl_completed self → cl_last_round self' = cl_last_round self →
  (∀ round chunks, cl_phase self' ≠ Submitting round chunks) → cl_phase self' ≠ Finished → client_inv self'.
Proof.
  intros [Hb Hc _ _] Hn Hl Hs Hf. split; rewrite ?Hn, ?Hl; [done|done|done|].
  intros r cs Hp. by destruct (Hs r cs).
Qed.

Lemma client_step_inv (self : Client A) (w : W) :
  client_inv self → client_inv (client_step config (self, w)).1.
Proof.
  intros Hi. unfold client_step. cbn [fst snd]. destruct (cl_phase self) as [|round chunks| | |] eqn:Hp; [| |done..].
  - unfold poll_step. destruct (Nat.leb_spec (rc_rounds config) (cl_completed self)).
    { destruct Hi as [Hb Hc _ _]. split; cbn; try done. intros _. lia. }
    destruct (fetch config w) as [w' [task|e|]] eqn:Hf; cbn [fst]; try (by apply (quiet_phase self)).
    destruct (decide _) as [|Hne]; [done|].
    destruct (begin_round config task (cl_app self)) as [app [chunks|e|]] eqn:Hr; cbn [fst];
      try (by apply (quiet_phase self)).
    apply (begin_round_ok w) in Hr; [|by rewrite Hf]. destruct Hi as [Hb Hc _ _]. split; cbn; try done.
    intros r cs [= <- <-]. split; [done|]. split; [|done]. congruence.
  - destruct (ci_submitting _ Hi _ _ Hp) as (Hlt & Hl & _).
    unfold submit_step. destruct (up_submit_delta chunks w) as [w1 [ack|e|]]; cbn [fst].
    { split; cbn; try done; lia. }
    2: { by apply (quiet_phase self). }
    destruct (fetch config _) as [w2 [task|e'|]]; cbn [fst]; try (by apply (quiet_phase self)).
    destruct (decide _); [done|]. split; cbn; try done; lia.
Qed.

Lemma client_start_inv app : client_inv (client_start app).
Proof. split; cbn; try done; lia. Qed.

Lemma client_iter_inv n (s : Client A * W) : client_inv s.1 → client_inv (Nat.iter n (client_step config) s).1.
Proof.
  intros Hs. induction n as [|n IH]; [done|]. rewrite Nat.iter_succ.
  destruct (Nat.iter n (client_step config) s) as [c w]. by apply client_step_inv.
Qed.

Lemma run_inv n app w : client_inv (run config n app w).1.
Proof.
  unfold run. destruct (up_connect _ _ w) as [w1 [e|]]; [by apply (quiet_phase _ _ (client_start_inv app))|].
  destruct (up_register _ _ w1) as [w2 [?|e|]]; [|by apply (quiet_phase _ _ (client_start_inv app))..].
  apply client_iter_inv, client_start_inv.
Qed.

(** A turn that counts a round was submitting it, and the round is a new one. *)
Lemma counted_round_is_new (self : Client A) (w : W) :
  client_inv self →
  let self' := (client_step config (self, w)).1 in
  cl_completed self' = cl_completed self ∨
  ∃ round chunks ack, cl_phase self = Submitting round chunks ∧ (up_submit_delta chunks w).2 = Ok ack ∧
    cl_completed self' = S (cl_completed self) ∧ cl_last_round self ≠ Some round ∧ cl_last_round self' = Some round ∧
    cl_app self' = on_round_end round (ack_accepted ack) (cl_app self).
Proof.
  intros Hi. unfold client_step. cbn [fst snd]. destruct (cl_phase self) as [|round chunks| | |] eqn:Hp; try by left.
  - left. unfold poll_step. destruct (_ <=? _)%nat; [done|].
    destruct (fetch config w) as [w' [task|e|]]; [|done..]. destruct (decide _); [done|].
    by destruct (begin_round config task (cl_app self)) as [app [chunks|e|]].
  - destruct (ci_submitting _ Hi _ _ Hp) as (_ & Hl & _). unfold submit_step.
    destruct (up_submit_delta chunks w) as [w1 [ack|e|]] eqn:Hs; cbn [fst]; [right|left|by left].
    + exists round, chunks, ack. by rewrite Hs.
    + destruct (fetch config _) as [w2 [task|e'|]]; [|done..]. by destruct (decide _).
Qed.

(** C15: the client trains for what it is asked, submits what it trained, and submits no
    round twice in a row.  After any number of turns against any node at all: what is
    being offered is this round's training result, of the dispatched length, cut into
    chunks under the client's name; the round is not the one done last; the next turn
    counts it only when the node took it, at most [rounds] are ever counted, and the
    client is done only when that many are. *)
Theorem client_submits_what_it_trained (n : nat) (app : A) (w : W) :
  let '(c, w') := run config n app w in
  (cl_completed c ≤ rc_rounds config)%nat ∧
  (cl_phase c = Finished → cl_completed c = rc_rounds config) ∧
  (∀ round chunks, cl_phase c = Submitting round chunks →
     cl_last_round c ≠ Some round ∧ trained_for round chunks (cl_app c)) ∧
  let c' := (client_step config (c, w')).1 in
  cl_completed c' = cl_completed c ∨
  ∃ round chunks ack, cl_phase c = Submitting round chunks ∧ (up_submit_delta chunks w').2 = Ok ack ∧
    cl_completed c' = S (cl_completed c) ∧ cl_last_round c ≠ Some round ∧ cl_last_round c' = Some round ∧
    cl_app c' = on_round_end round (ack_accepted ack) (cl_app c).
Proof.
  pose proof (run_inv n app w) as Hi. destruct (run config n app w) as [c w']. cbn [fst] in Hi.
  split_and!; [apply Hi..| |by apply counted_round_is_new].
  intros round chunks Hp. by destruct (ci_submitting _ Hi _ _ Hp) as (_ & ? & ?).
Qed.

(** *** Progress *)

(** A node that serves: a client that has done the round is given the next one within
    [patience] polls, and an offered submission is taken within [patience] refusals, the
    node staying on the round meanwhile.  [polls] and [refusals] are what is left of the
    patience. *)
Record serves (patience : nat) (polling : nat → option Z → W → Prop) (offering : nat → Z → W → Prop) : Prop := {
  sv_poll polls last w : polling polls last w → (polls ≤ patience)%nat ∧
    ∃ task w', fetch config w = (w', Ok task) ∧
      ((Some (task_round task) = last ∧ ∃ polls', (polls' < polls)%nat ∧
          polling polls' last (up_sleep (rc_poll_interval config) w'))
       ∨ (Some (task_round task) ≠ last ∧
          ∃ refusals, offering refusals (task_round task) w'));
  sv_offer refusals round chunks w : offering refusals round w → (refusals ≤ patience)%nat ∧
    ((∃ w' ack polls, up_submit_delta chunks w = (w', Ok ack) ∧ polling polls (Some round) w')
     ∨ (∃ w1 e w2 task refusals', up_submit_delta chunks w = (w1, Err e) ∧
          fetch config (up_sleep (rc_poll_interval config) w1) = (w2, Ok task) ∧ task_round task = round ∧
          (refusals' < refusals)%nat ∧ offering refusals' round w2));
}.

(** The client stopped at a task it could not answer: its model or control variate does
    not decode, the application's answer changed the shape, or it cannot be cut into
    chunks. *)
Definition refused (polling : nat → option Z → W → Prop) (self : Client A) : Prop :=
  ∃ polls last w task w' app, polling polls last w ∧ fetch config w = (w', Ok task) ∧
    match (begin_round config task app).2 with
    | Ok _ => False
    | Err e => cl_phase self = Failed e
    | Panic => cl_phase self = Crashed
    end.

(** [turns] bounds the turns to the end. *)
Definition within_turns (patience : nat) (polling : nat → option Z → W → Prop) (offering : nat → Z → W → Prop)
    (turns : nat) (s : Client A * W) : Prop :=
  let left := (rc_rounds config - cl_completed s.1)%nat in
  match cl_phase s.1 with
  | Waiting => ∃ polls, polling polls (cl_last_round s.1) s.2 ∧ (1 ≤ turns)%nat ∧
      (left = 0 ∨ left * (2 * patience + 2) + polls + 1 ≤ turns + patience)%nat
  | Submitting round _ => ∃ refusals, offering refusals round s.2 ∧ (0 < left)%nat ∧
      (left * (2 * patience + 2) + refusals ≤ turns + 2 * patience)%nat
  | Finished => True
  | Failed _ | Crashed => refused polling s.1
  end.

Context (patience : nat) (polling : nat → option Z → W → Prop) (offering : nat → Z → W → Prop).
Hypothesis node_serves : serves patience polling offering.
Notation within := (within_turns patience polling offering).

Lemma poll_within (self : Client A) (w : W) turns :
  cl_phase self = Waiting → within (S turns) (self, w) → within turns (poll_step config self w).
Proof.
  unfold within_turns at 1. cbn [fst snd]. intros Hw. rewrite Hw. intros (polls & Hpoll & _ & Hb). unfold within_turns, poll_step.
  destruct (Nat.leb_spec (rc_rounds config) (cl_completed self)); [done|].
  destruct (sv_poll _ _ _ node_serves _ _ _ Hpoll) as (Hp & task & w' & Hfetch & Hcase). rewrite Hfetch.
  destruct Hcase as [(Hl & polls' & Hlt & Hpoll')|(Hl & refusals & Hoff)].
  - rewrite decide_True by done. cbn [fst snd]. rewrite Hw. exists polls'. split; [done|]. nia.
  - rewrite decide_False by done. destruct (begin_round config task (cl_app self)) as [app' [chunks|e|]] eqn:Hbegin; cbn.
    + exists refusals. pose proof (proj1 (sv_offer _ _ _ node_serves _ _ [] _ Hoff)).
      split; [done|]. split; lia.
    + exists polls, (cl_last_round self), w, task, w', (cl_app self). by rewrite Hbegin.
    + exists polls, (cl_last_round self), w, task, w', (cl_app self). by rewrite Hbegin.
Qed.

Lemma submit_within (self : Client A) (w : W) turns round chunks :
  cl_phase self = Submitting round chunks → within (S turns) (self, w) →
  within turns (submit_step config round chunks self w).
Proof.
  unfold within_turns. cbn [fst snd]. intros Hw. rewrite Hw. intros (refusals & Hoff & Hleft & Hb). unfold submit_step.
  destruct (sv_offer _ _ _ node_serves _ _ chunks _ Hoff) as (Hr & Hcase).
  destruct Hcase as [(w' & ack & polls & -> & Hpoll)|(w1 & e & w2 & task & refusals' & -> & -> & Ht & Hlt & Hoff')].
  - cbn. exists polls. split; [done|]. pose proof (proj1 (sv_poll _ _ _ node_serves _ _ _ Hpoll)). nia.
  - rewrite decide_True by done. cbn [fst snd]. rewrite Hw. exists refusals'. split; [done|]. lia.
Qed.

Lemma client_step_within turns s : within (S turns) s → within turns (client_step config s).
Proof.
  destruct s as [self w]. intros H. unfold client_step. cbn [fst snd].
  destruct (cl_phase self) as [|round chunks| | |] eqn:Hp.
  - by apply poll_within.
  - by eapply submit_within.
  - revert H. unfold within_turns. cbn [fst snd]. by rewrite Hp.
  - revert H. unfold within_turns. cbn [fst snd]. by rewrite Hp.
  - revert H. unfold within_turns. cbn [fst snd]. by rewrite Hp.
Qed.

Lemma within_0 s : within 0 s → cl_phase s.1 = Finished ∨ refused polling s.1.
Proof.
  unfold within_turns. destruct (cl_phase s.1); [|intros (? & ? & ? & ?); nia|by left|by right..].
  intros (? & _ & ? & _). lia.
Qed.

Lemma iter_within turns s : within turns s →
  let c := (Nat.iter turns (client_step config) s).1 in cl_phase c = Finished ∨ refused polling c.
Proof.
  revert s. induction turns as [|turns IH]; intros s H; [by apply within_0|].
  rewrite Nat.iter_succ_r. by apply IH, client_step_within.
Qed.

(** C16: a client of a node that serves it ends: it registers, and whatever the
    application answers, with at most [patience] polls before each fresh round and
    [patience] refusals of each submission, it has stopped after
    [rounds * (2 * patience + 2) + 1] turns of its loops.  Then every round asked for is
    done, unless it stopped with the error of a task it could not answer: the model did
    not decode, or the application's answer to it was not one that can be sent. *)
Theorem client_finishes (app : A) (w w1 w2 : W) (polls : nat) (r : RegisterResponse) :
  up_connect (rc_address config) false w = (w1, None) →
  up_register (rc_client_id config) (rc_auth_token config) w1 = (w2, Ok r) →
  polling polls None w2 →
  let c := (run config (rc_rounds config * (2 * patience + 2) + 1) app w).1 in
  (cl_phase c = Finished ∧ cl_completed c = rc_rounds config ∨ refused polling c) ∧
  ((∀ polls last w task w', polling polls last w → fetch config w = (w', Ok task) →
      ∀ app, ∃ app' chunks, begin_round config task app = (app', Ok chunks)) →
   cl_phase c = Finished ∧ cl_completed c = rc_rounds config).
Proof.
  intros Hc Hr Hpoll. set (n := (_ + 1)%nat). intros c.
  assert (Hf : cl_phase c = Finished ∨ refused polling c).
  { unfold c, run. rewrite Hc, Hr. apply iter_within. exists polls. cbn.
    pose proof (proj1 (sv_poll _ _ _ node_serves _ _ _ Hpoll)). split; [done|]. subst n. nia. }
  assert (Hdone : cl_phase c = Finished → cl_phase c = Finished ∧ cl_completed c = rc_rounds config)
    by (intros Hfin; split; [done|exact (ci_finished _ (run_inv n app w) Hfin)]).
  split; [destruct Hf as [Hf|Hf]; [left; by apply Hdone|by right]|]. intros Hready.
  destruct Hf as [Hf|(p & last & w0 & task & w' & app0 & Hp & Hfetch & Hno)]; [by apply Hdone|].
  destruct (Hready _ _ _ _ _ Hp Hfetch app0) as (app' & chunks & Hok). by rewrite Hok in Hno.
Qed.
End properties.

(** *** What modelling showed *)

(** The server itself as the node: [fetch_task] and [submit_delta] of its dispatcher. *)
Section starved.
Context `{J : JwtLibrary} `{N : Notify} `{Smp : Sampler} `{Gs : Gaussian} {R S A G L T : Type}.
Context `{CR : ClientRegistry R} `{St : Store S} `{Al : NodeAllowlist A} `{Ag : Aggregator G}.
Context `{Lg : PrivacyRoundLog L} `{Sc : Sidecar T} {bound : Z} {SL : StoreLawsBelow bound S}.
Context (ln exp : f64 → f64) (value_order : list (f64 * f64 * Z) → list (f64 * f64 * Z)) (show : Displays).
Notation AppState := (AppState N R S A G L T JwtKeyMaterial).
Context {C : Type} `{CA : ClientApp C} (config : RunConfig).

#[local] Instance direct_link : UpstreamTransport AppState := {|
  up_connect _ _ s := (s, None);
  up_register _ _ s := (s, Err "not modelled"%string);
  up_fetch_task id s := let '(s, r) := fetch_task show id s in (s, map_err (λ _, "refused"%string) r);
  up_submit_delta chunks s := let '(s, r) := submit_delta show chunks s in (s, map_err (λ _, "refused"%string) r);
  up_sleep _ s := s;
|}.

(** A client told that its submission was accepted counts the round as done when the
    acknowledgement arrives.  When that round then fails, the server keeps its round
    number and reopens it ([failed_round_effect]), the buffer that held the submission
    is gone, and the client polls for a number that will not change without it: however
    long both run, it submits nothing. *)
Lemma accepted_then_failed_starves (amb : Ambient) (await : AppState → AppState * FlushResult)
    (s s' accepting accepted : AppState) (e : ServerError) (self : Client C) (chunks : list DeltaChunk) (ack : SubmitAck)
    (ws : list f32) :
  (∀ s, handlers_ran amb s (await s).1 (await s).2) → 0 ≤ st_round s < bound → store_below s →
  (Datatypes.S (cl_completed self) < rc_rounds config)%nat →
  cl_phase self = Submitting (st_round s) chunks → submit_delta show chunks accepting = (accepted, Ok ack) →
  run_round ln exp value_order amb await s = (s', Err e) → load_latest_weights (st_store s') = Ok ws →
  let self' := (client_step config (self, accepting)).1 in
  cl_phase self' = Waiting ∧ ∀ n, Nat.iter n (client_step config) (self', s') = (self', s').
Proof.
  intros Hran Hr Hbelow Hlt Hp Hsub Hrun Hload.
  destruct (failed_round_effect _ _ _ amb await Hran _ _ _ Hr Hbelow Hrun) as (Hround & _).
  set (self0 := {| cl_app := on_round_end (st_round s) (ack_accepted ack) (cl_app self); cl_last_round := Some (st_round s);
                   cl_completed := Datatypes.S (cl_completed self); cl_phase := Waiting |}).
  assert (Hfirst : client_step config (self, accepting) = (self0, accepted)).
  { unfold client_step, submit_step. cbn [fst snd]. rewrite Hp. cbn [up_submit_delta direct_link]. by rewrite Hsub. }
  rewrite Hfirst. intros self'. cbn [fst] in self'. split; [done|].
  assert (Hstep : client_step config (self', s') = (self', s')).
  { unfold client_step, poll_step, fetch. cbn [fst snd cl_phase self' self0 cl_completed cl_last_round].
    destruct (Nat.leb_spec (rc_rounds config) (Datatypes.S (cl_completed self))); [lia|].
    cbn [up_fetch_task direct_link]. rewrite (fetch_task_ok _ _ _ _ Hload). cbn [map_err task_of task_round].
    by rewrite decide_True by congruence. }
  intros n. induction n as [|n IH]; [done|]. rewrite Nat.iter_succ. by rewrite IH.
Qed.
End starved.

(** ** Witnesses *)

(** A node that refuses each submission once, shows the old round once after it has
    taken one, and then opens the next: the round, and the refusal and the stale poll
    still to come. *)
Definition demo_dispatch (round : Z) : TaskResponse :=
  {| task_id := ""; task_round := round; model_weights := encode_weights [f32_one; f32_one]; task_control_variate := None |}.

#[local] Instance slow_node : UpstreamTransport (Z * bool * bool) := {|
  up_connect _ _ w := (w, None);
  up_register _ _ w := (w, Ok {| reg_accepted := true; reg_message := "" |});
  up_fetch_task _ '(round, refuse, stale) := ((round, refuse, false), Ok (demo_dispatch (if (stale : bool) then round - 1 else round)));
  up_submit_delta _ '(round, refuse, stale) :=
    if (refuse : bool) then ((round, false, stale), Err "no round is open"%string)
    else ((round + 1, true, true), Ok {| ack_accepted := true; ack_message := "" |});
  up_sleep _ w := w;
|}.

(** It answers with what it was given. *)
#[local] Instance echo_app : ClientApp unit := {|
  train ws _ app := (app, TrainResult_new ws 10);
  on_round_start _ app := app;
  on_control_variate _ app := app;
  on_round_end _ _ app := app;
|}.

Definition two_rounds : RunConfig :=
  {| rc_address := "http://127.0.0.1:47100"; rc_client_id := "a"; rc_rounds := 2; rc_auth_token := "t";
     rc_chunk_bytes := 4; rc_poll_interval := 200 |}.

Definition slow_polling (polls : nat) (last : option Z) (w : Z * bool * bool) : Prop :=
  let '(round, refuse, stale) := w in
  refuse = true ∧ (if (stale : bool) then polls = 1%nat ∧ last = Some (round - 1) else polls = 0%nat ∧ last ≠ Some round).
Definition slow_offering (refusals : nat) (round : Z) (w : Z * bool * bool) : Prop :=
  w = (round, Nat.eqb refusals 1, false) ∧ (refusals ≤ 1)%nat.

Lemma slow_node_serves : serves two_rounds 1 slow_polling slow_offering.
Proof.
  split.
  - intros polls last [[round refuse] stale] [-> Hs]. split; [destruct stale; lia|].
    eexists _, _. split; [reflexivity|]. destruct stale; destruct Hs as [-> Hl].
    + left. cbn. split; [congruence|]. exists 0%nat. split; [lia|]. split; [done|]. split; [done|]. intros H.
      assert (Heq : Some (round - 1) = Some round) by congruence. injection Heq. lia.
    + right. cbn. split; [congruence|]. by exists 1%nat.
  - intros refusals round chunks w [-> Hr]. split; [done|]. destruct refusals as [|[|]]; [|..|lia].
    + left. eexists _, _, 1%nat. split; [reflexivity|]. split; [done|]. split; [done|]. f_equal. lia.
    + right. eexists _, _, _, _, 0%nat. split; [reflexivity|]. split; [reflexivity|]. split; [done|].
      split; [lia|]. split; [done|lia].
Qed.

(** Everything this node hands out can be answered. *)
Lemma slow_node_dispatches (app : ()) round :
  ∃ app' chunks, begin_round two_rounds (demo_dispatch round) app = (app', Ok chunks).
Proof.
  unfold begin_round. cbn [demo_dispatch model_weights task_round task_control_variate].
  destruct (decode_weights (encode_weights [f32_one; f32_one])) as [ws| |] eqn:Hd; [|vm_compute in Hd; discriminate..].
  vm_compute in Hd. injection Hd as <-. cbn. eexists _, _. reflexivity.
Qed.

Lemma client_finishes_witness :
  let c := (run two_rounds 9 () (1, true, false)).1 in cl_phase c = Finished ∧ cl_completed c = 2%nat.
Proof.
  refine (proj2 (client_finishes two_rounds 1 slow_polling slow_offering slow_node_serves () (1, true, false) (1, true, false)
    (1, true, false) 0 _ eq_refl eq_refl _) _).
  - split; [reflexivity|]. split; [reflexivity|discriminate].
  - intros polls last [[round refuse] stale] task w' _ [= <- <-] app. apply slow_node_dispatches.
Defined.
