(* ===== verification/Transport.v ===== *)
(** * The transport ([conflux-net/src/dispatcher.rs], [service.rs], [client.rs],
      [peer_identity.rs])

    The gRPC seam of the system, the same on the server and on a node: whoever answers is
    a [RoundDispatcher], [FlTransportService] puts it behind the generated service, and
    [PullTransport] and [PushTransport] are its callers.  Between a caller and a service
    lies a network that may lose a call, cut a stream or lose an answer.  A server
    ([Dispatcher]) and a node's bridge ([Node]) are the two dispatchers; stacked, they are
    what stands between a client and the round buffer.

    tonic's own part is a parameter: what a message may weigh, the printed form of a
    status, and what a caller is told when the connection is gone. *)

From S2P Require Import Prelude Float Wire Buffer Weights Averaging Registry Reputation Privacy Store Config State Round Submission Dispatcher Node.
From Stdlib Require Import Ascii.

Open Scope Z_scope.

(** ** Errors on the wire *)

(** The gRPC codes the services answer with. *)
Inductive Code : Type :=
  | CodeNotFound
  | CodePermissionDenied
  | CodeUnauthenticated
  | CodeFailedPrecondition
  | CodeResourceExhausted
  | CodeInternal
  | CodeUnavailable
  | CodeOutOfRange.

#[export] Instance Code_eq_dec : EqDecision Code.
Proof. solve_decision. Defined.

Record GrpcStatus := { status_code : Code; status_message : string }.

(** [Display] of [UpdateTooLarge] *)
Definition show_too_large (client_id : string) (limit_bytes received_bytes : Z) : string :=
  "client " +:+ client_id +:+ "'s update exceeded the " +:+ show_u64 limit_bytes +:+ "-byte limit (at least " +:+
  show_u64 received_bytes +:+ " bytes received before the stream was cut)".

(** [impl From<DispatchError> for Status] *)
Definition Status_from (err : DispatchError) : GrpcStatus :=
  match err with
  | UnknownClient id => {| status_code := CodeNotFound; status_message := "unknown client " +:+ id |}
  | NotAllowed id =>
      {| status_code := CodePermissionDenied;
         status_message := "client " +:+ id +:+ " is not on the node allow-list" |}
  | Unauthenticated msg => {| status_code := CodeUnauthenticated; status_message := msg |}
  | RoundClosed =>
      {| status_code := CodeFailedPrecondition;
         status_message := "this round already closed; fetch the current task and resubmit" |}
  | UpdateTooLarge client_id limit_bytes received_bytes =>
      {| status_code := CodeResourceExhausted;
         status_message := show_too_large client_id limit_bytes received_bytes |}
  | OtherError msg => {| status_code := CodeInternal; status_message := msg |}
  end.

(** A caller's view; a status is kept by its printed form. *)
Inductive TransportError : Type :=
  | ConnectFailed (message : string)
  | RpcFailed (message : string)
  | StaleSidecarResponse (expected got : Z).

Definition show_transport (e : TransportError) : string :=
  match e with
  | ConnectFailed message => "failed to connect: " +:+ message
  | RpcFailed message => "RPC failed: " +:+ message
  | StaleSidecarResponse expected got =>
      "trusted-reference sidecar answered for round " +:+ show_u64 got +:+ ", but round " +:+ show_u64 expected +:+
      " was asked — a reference from the wrong round is a well-formed vector of the right length, so using it would weaken the defense silently rather than fail"
  end.

(** ** The dispatcher *)

(** The trait.  A pushed task stream is what becomes of the events behind it. *)
Class RoundDispatcher (D : Type) := {
  rd_event : Type;
  rd_fetch_task : string → stM D DispatchError TaskResponse;
  rd_subscribe_tasks : string → D → outcome DispatchError (list rd_event → list (outcome GrpcStatus TaskResponse));
  rd_submit_delta : list DeltaChunk → stM D DispatchError SubmitAck;
  rd_register : string → string → option string → stM D DispatchError RegisterResponse;
  rd_heartbeat : string → stM D DispatchError HeartbeatResponse;
}.

(** *** The server *)

(** An item of the broadcast channel's stream. *)
Inductive BroadcastItem : Type := Broadcast (task : TaskResponse) | Lagged (skipped : Z).

Definition broadcast_task (item : BroadcastItem) : option (outcome GrpcStatus TaskResponse) :=
  match item with Broadcast task => Some (Ok task) | Lagged _ => None end.

Section server.
Context `{J : JwtLibrary} `{N : Notify} {R S A G L T : Type}.
Context `{CR : ClientRegistry R} `{St : Store S} `{Al : NodeAllowlist A} `{Ag : Aggregator G} (show : Displays).

(** The state and the clock that registrations and heartbeats are stamped with. *)
Notation Server := (AppState N R S A G L T JwtKeyMaterial * Z)%type.

Definition on_state {X} (m : stM (AppState N R S A G L T JwtKeyMaterial) DispatchError X) : stM Server DispatchError X :=
  zoom fst (λ s w, (s, w.2)) id m.
Definition at_now {X} (m : Z → stM (AppState N R S A G L T JwtKeyMaterial) DispatchError X) : stM Server DispatchError X :=
  λ w, on_state (m w.2) w.

Definition AppState_dispatcher : RoundDispatcher Server := {|
  rd_event := BroadcastItem;
  rd_fetch_task client_id := on_state (fetch_task show client_id);
  rd_subscribe_tasks _ _ := Ok (omap broadcast_task);
  rd_submit_delta chunks := on_state (submit_delta show chunks);
  rd_register client_id auth_token fingerprint := at_now (λ now, register_client show now client_id auth_token fingerprint);
  rd_heartbeat client_id := at_now (λ now, heartbeat_client show now client_id);
|}.
End server.

(** *** The node *)

Definition relayed_task (out : relay_output) : option (outcome GrpcStatus TaskResponse) :=
  match out with
  | Node.Delivered task => Some (Ok task)
  | Slept _ => None
  | GaveUp failures =>
      Some (Err {| status_code := CodeUnavailable;
                   status_message := "push subscription to conflux-server failed " +:+ show_u64 (Z.of_nat failures) +:+
                                     " consecutive times without delivering a task" |})
  end.

Section node.
Context `{Gs : Gaussian} {W : Type} `{U : UpstreamTransport W} (self : NodeBridge).

Definition NodeBridge_dispatcher : RoundDispatcher (gen * W) := {|
  rd_event := relay_event;
  rd_fetch_task _ := bridge_fetch_task self;
  rd_subscribe_tasks _ _ :=
    match nb_upstream self with
    | PullMode => Err (OtherError "this conflux-node is running in pull mode")
    | PushMode => Ok (λ events, omap relayed_task (relay_run relay_start events).2)
    end;
  rd_submit_delta := bridge_submit_delta self;
  rd_register _ _ _ := mret (bridge_register self);
  rd_heartbeat _ := mret (bridge_heartbeat self);
|}.
End node.

(** ** The service *)

Record FetchTaskRequest := { ft_client_id : string }.
Record SubscribeRequest := { sub_client_id : string }.
Record RegisterRequest := { rq_client_id : string; rq_auth_token : string }.
Record HeartbeatRequest := { hb_client_id : string }.

(** A client's stream as it arrives: the chunks that were read, and the status that ended
    the reading if it was not the end of the stream. *)
Record Incoming := { in_chunks : list DeltaChunk; in_broken : option GrpcStatus }.

(** The leaf certificate's SHA-256 in hexadecimal: [tls_info] is what the connection
    knows of the peer's chain. *)
Definition hex_byte (b : Byte.byte) : list ascii :=
  [hex_digit (Z.to_nat (byte_to_Z b / 16)); hex_digit (Z.to_nat (byte_to_Z b mod 16))].
Definition peer_cert_fingerprint (sha256 : bytes → bytes) (tls_info : option (option (list bytes))) : option string :=
  certs ← mjoin tls_info;
  leaf ← head certs;
  Some (String.string_of_list_ascii (concat (map hex_byte (sha256 leaf)))).

Section service.
Context {D : Type} `{RD : RoundDispatcher D} (max_update_bytes : Z).
Context (sha256 : bytes → bytes).

(** [?] on a dispatcher's answer *)
Definition answered {X} (m : stM D DispatchError X) : stM D GrpcStatus X := zoom id const Status_from m.

Definition service_fetch_task (req : FetchTaskRequest) : stM D GrpcStatus TaskResponse :=
  answered (rd_fetch_task (ft_client_id req)).
Definition service_subscribe_tasks (req : SubscribeRequest) (d : D)
    : outcome GrpcStatus (list rd_event → list (outcome GrpcStatus TaskResponse)) :=
  map_err Status_from (rd_subscribe_tasks (sub_client_id req) d).
Definition service_submit_delta (stream : Incoming) : stM D GrpcStatus SubmitAck :=
  chunks ← of_outcome (map_err Status_from (collect_chunks max_update_bytes 0 [] (in_chunks stream)));
  match in_broken stream with
  | Some status => of_outcome (Err status)
  | None => answered (rd_submit_delta chunks)
  end.
Definition service_register (tls_info : option (option (list bytes))) (req : RegisterRequest)
    : stM D GrpcStatus RegisterResponse :=
  answered (rd_register (rq_client_id req) (rq_auth_token req) (peer_cert_fingerprint sha256 tls_info)).
Definition service_heartbeat (req : HeartbeatRequest) : stM D GrpcStatus HeartbeatResponse :=
  answered (rd_heartbeat (hb_client_id req)).
End service.

(** ** The network *)

(** What becomes of a call: it arrives and is answered, it does not arrive, its stream is
    cut after some chunks, or it is answered and the answer is lost. *)
Inductive Fate : Type := Answered | RequestLost | CutAfter (chunks : nat) | AnswerLost.

(** Beyond the end of the list the network is reliable. *)
Definition next_fate (fates : list Fate) : Fate * list Fate :=
  match fates with [] => (Answered, []) | fate :: fates => (fate, fates) end.

(** What one gRPC message may hold; 4 MiB unless a peer is told otherwise, and none is. *)
Class MessageLimit := {
  chunk_fits : DeltaChunk → bool;
  task_fits : TaskResponse → bool;
}.

Definition GRPC_MESSAGE_BYTES : Z := 4 * 1024 * 1024.

(** An encoded message is at least as long as a field of bytes, and the field's length is
    all that its content contributes. *)
Class MessageLimitLaws `{MessageLimit} := {
  task_fits_spec task : task_fits task = true → Z.of_nat (length (model_weights task)) ≤ GRPC_MESSAGE_BYTES;
  chunk_fits_shape c c' : same_shape c c' → chunk_fits c = chunk_fits c';
}.

Section network.
Context {D : Type} `{RD : RoundDispatcher D} `{ML : MessageLimit} (max_update_bytes : Z).
Context (sha256 : bytes → bytes) (tls_info : option (option (list bytes))).
Context (show_status : GrpcStatus → string) (gone oversized : GrpcStatus).
Context (endpoint : string → bool → option string) (elapse : Z → D → D).

Notation W := (D * list Fate)%type.

Definition answer_lost {X} (r : outcome GrpcStatus X) : outcome GrpcStatus X :=
  match r with Panic => Panic | Ok _ | Err _ => Err gone end.

(** A call whose request is one message. *)
Definition unary {X} (handle : stM D GrpcStatus X) : stM W GrpcStatus X := λ w,
  let '(fate, fates) := next_fate w.2 in
  match fate with
  | Answered => let '(d, r) := handle w.1 in ((d, fates), r)
  | AnswerLost => let '(d, r) := handle w.1 in ((d, fates), answer_lost r)
  | RequestLost | CutAfter _ => ((w.1, fates), Err gone)
  end.

(** What a service reads of a stream: up to the first message that is too long. *)
Definition incoming (chunks : list DeltaChunk) (ending : option GrpcStatus) : Incoming :=
  match position (λ c, negb (chunk_fits c)) chunks with
  | Some i => {| in_chunks := take i chunks; in_broken := Some oversized |}
  | None => {| in_chunks := chunks; in_broken := ending |}
  end.

Definition streamed (chunks : list DeltaChunk) : stM W GrpcStatus SubmitAck := λ w,
  let '(fate, fates) := next_fate w.2 in
  let receive chunks ending := service_submit_delta max_update_bytes (incoming chunks ending) w.1 in
  match fate with
  | Answered => let '(d, r) := receive chunks None in ((d, fates), r)
  | AnswerLost => let '(d, r) := receive chunks None in ((d, fates), answer_lost r)
  | CutAfter n => let '(d, r) := receive (take n chunks) (Some gone) in ((d, fates), answer_lost r)
  | RequestLost => ((w.1, fates), Err gone)
  end.

(** A message that is too long is refused where it is read. *)
Definition read_task (r : outcome GrpcStatus TaskResponse) : outcome GrpcStatus TaskResponse :=
  task ← r; if task_fits task then Ok task else Err oversized.

(** *** The callers *)

(** [?] on a call's answer *)
Definition called {X} (m : stM W GrpcStatus X) : stM W TransportError X :=
  zoom id const (λ status, RpcFailed (show_status status)) m.

Definition PullTransport_connect (addr : string) (tls : bool) : outcome TransportError () :=
  match endpoint addr tls with Some message => Err (ConnectFailed message) | None => Ok () end.
Definition PullTransport_fetch_task (client_id : string) : stM W TransportError TaskResponse :=
  called (λ w, let '(w, r) := unary (service_fetch_task {| ft_client_id := client_id |}) w in (w, read_task r)).
Definition PullTransport_register (client_id auth_token : string) : stM W TransportError RegisterResponse :=
  called (unary (service_register sha256 tls_info {| rq_client_id := client_id; rq_auth_token := auth_token |})).
Definition PullTransport_heartbeat (client_id : string) : stM W TransportError HeartbeatResponse :=
  called (unary (service_heartbeat {| hb_client_id := client_id |})).
Definition PullTransport_submit_delta (chunks : list DeltaChunk) : stM W TransportError SubmitAck :=
  called (streamed chunks).

(** A call as its caller reports it: the error by its text. *)
Definition told {X} (m : stM W TransportError X) : W → W * outcome string X :=
  λ w, let '(w, r) := m w in (w, map_err show_transport r).

(** A connection to a service, as the client loop and the node's bridge use it. *)
Definition transport_link : UpstreamTransport W := {|
  up_connect addr tls w :=
    (w, match PullTransport_connect addr tls with Err e => Some (show_transport e) | Ok _ | Panic => None end);
  up_register client_id auth_token := told (PullTransport_register client_id auth_token);
  up_fetch_task client_id := told (PullTransport_fetch_task client_id);
  up_submit_delta chunks := told (PullTransport_submit_delta chunks);
  up_sleep duration w := (elapse duration w.1, w.2);
|}.
End network.

(** ** What the network may do to a submission *)

(** Of [attempts] calls one after the other, until one is answered: how many reach the
    service whole, and whether the caller hears an answer. *)
Fixpoint deliveries (attempts : nat) (fates : list Fate) : nat * bool :=
  match attempts with
  | O => (O, false)
  | S attempts =>
      let '(fate, fates) := next_fate fates in
      match fate with
      | Answered => (1%nat, true)
      | AnswerLost => let '(n, heard) := deliveries attempts fates in (S n, heard)
      | RequestLost | CutAfter _ => deliveries attempts fates
      end
  end.

Lemma deliveries_bounds attempts fates :
  ((deliveries attempts fates).1 ≤ attempts)%nat ∧
  ((deliveries attempts fates).2 = true → 1 ≤ (deliveries attempts fates).1)%nat.
Proof.
  revert fates. induction attempts as [|attempts IH]; intros fates; [done|]. cbn [deliveries].
  destruct (next_fate fates) as [fate rest]. specialize (IH rest).
  destruct fate; cbn [fst snd] in *; try (destruct (deliveries attempts rest)); cbn [fst snd] in *; split; try lia; intros; naive_solver lia.
Qed.

Section delivery.
Context {D : Type} `{RD : RoundDispatcher D} `{ML : MessageLimit} (max_update_bytes : Z).
Context (sha256 : bytes → bytes) (tls_info : option (option (list bytes))).
Context (show_status : GrpcStatus → string) (gone oversized : GrpcStatus).
Context (endpoint : string → bool → option string) (elapse : Z → D → D).

Notation link := (transport_link max_update_bytes sha256 tls_info show_status gone oversized endpoint elapse).

(** A service that takes [sent] as [d] as often as it is sent: [acc_mine] is what it
    holds of the sender.  Time may do anything but close it or touch that. *)
Record Accepting (sent : list DeltaChunk) (d : ClientDelta) := {
  acc_open : D → Prop;
  acc_mine : D → list ClientDelta;
  acc_takes s : acc_open s → ∃ s' ack, rd_submit_delta sent s = (s', Ok ack) ∧ ack_accepted ack = true ∧
    acc_open s' ∧ acc_mine s' = acc_mine s ++ [d];
  acc_time t s : acc_open s → acc_open (elapse t s) ∧ acc_mine (elapse t s) = acc_mine s;
}.

Lemma collect_within chunks : total_bytes chunks ≤ max_update_bytes < u64_max →
  collect_chunks max_update_bytes 0 [] chunks = Ok chunks.
Proof.
  intros Hmax. pose proof (total_bytes_nonneg chunks).
  pose proof (collect_chunks_spec max_update_bytes 0 [] chunks ltac:(lia) ltac:(lia)) as Hc.
  destruct (collect_chunks _ _ _ _) as [cs|e|]; [by destruct Hc as [-> _]| |done].
  destruct Hc as (pre & c & post & -> & Hb & _). exfalso.
  rewrite !total_bytes_app in *. simpl in *. pose proof (total_bytes_nonneg post). lia.
Qed.

Lemma whole_stream chunks (s s' : D) r :
  total_bytes chunks ≤ max_update_bytes < u64_max → rd_submit_delta chunks s = (s', r) →
  service_submit_delta max_update_bytes {| in_chunks := chunks; in_broken := None |} s = (s', map_err Status_from r).
Proof.
  intros Hmax Hr. unfold service_submit_delta, of_outcome, mbind, stM_bind, answered, zoom. cbn [in_chunks in_broken].
  rewrite collect_within by done. cbn [map_err id]. by rewrite Hr.
Qed.

Lemma incoming_fits chunks ending :
  Forall (λ c, chunk_fits c = true) chunks → incoming oversized chunks ending = {| in_chunks := chunks; in_broken := ending |}.
Proof.
  intros Hf. unfold incoming. rewrite (proj2 (position_none _ _)); [done|].
  eapply Forall_impl; [exact Hf|]. intros c Hc. by rewrite Hc.
Qed.

(** A stream that does not end reaches nobody. *)
Lemma cut_stream chunks n (s : D) :
  Forall (λ c, chunk_fits c = true) chunks → total_bytes chunks ≤ max_update_bytes < u64_max →
  service_submit_delta max_update_bytes (incoming oversized (take n chunks) (Some gone)) s = (s, Err gone).
Proof.
  intros Hf Hmax. rewrite incoming_fits by by apply Forall_take.
  unfold service_submit_delta, of_outcome, mbind, stM_bind. cbn [in_chunks in_broken].
  rewrite collect_within; [done|].
  pose proof (total_bytes_nonneg (drop n chunks)). rewrite <-(take_drop n chunks), total_bytes_app in Hmax. lia.
Qed.

Section accepting.
Context (sent : list DeltaChunk) (d : ClientDelta) (acc : Accepting sent d).
Context (Hfits : Forall (λ c, chunk_fits c = true) sent) (Hmax : total_bytes sent ≤ max_update_bytes < u64_max).

(** One call: it moves the service by one copy or not at all. *)
Lemma call_delivers (w : D * list Fate) :
  acc_open _ _ acc w.1 →
  let '(fate, fates) := next_fate w.2 in
  let '(w', r) := @up_submit_delta _ link sent w in
  w'.2 = fates ∧ acc_open _ _ acc w'.1 ∧
  acc_mine _ _ acc w'.1 = acc_mine _ _ acc w.1 ++ (match fate with Answered | AnswerLost => [d] | _ => [] end) ∧
  match fate, r with
  | Answered, Ok ack => ack_accepted ack = true
  | Answered, _ | _, Ok _ | _, Panic => False
  | _, Err _ => True
  end.
Proof.
  destruct w as [s fates0]. intros Ho. cbn [fst snd] in Ho |- *.
  destruct (next_fate fates0) as [fate fates] eqn:Hf.
  cbn [up_submit_delta transport_link]. unfold told, PullTransport_submit_delta, called, zoom, streamed. cbn [id fst snd].
  rewrite Hf. destruct (acc_takes _ _ acc s Ho) as (s' & ack & Hr & Hack & Ho' & Hm).
  pose proof (whole_stream sent s s' _ Hmax Hr) as Hw.
  destruct fate as [| |n|]; cbv beta iota zeta; rewrite ?cut_stream, ?incoming_fits by done.
  - rewrite Hw. cbn. done.
  - cbn. by rewrite app_nil_r.
  - cbn. by rewrite app_nil_r.
  - rewrite Hw. cbn. done.
Qed.

Lemma attempts_deliver remaining backoff (w : D * list Fate) :
  (0 < remaining)%nat → 0 ≤ backoff → backoff * 2 ^ Z.of_nat remaining ≤ DURATION_MAX → acc_open _ _ acc w.1 →
  let r := attempts (@up_sleep _ link) (@up_submit_delta _ link sent) remaining backoff w in
  let '(n, heard) := deliveries remaining w.2 in
  acc_open _ _ acc r.1.1 ∧ acc_mine _ _ acc r.1.1 = acc_mine _ _ acc w.1 ++ replicate n d ∧
  match r.2 with Ok ack => heard = true ∧ ack_accepted ack = true | Err _ => heard = false | Panic => False end.
Proof.
  revert backoff w. induction remaining as [|remaining IH]; intros backoff w Hr Hb Hd Ho; [lia|].
  cbn [attempts deliveries]. pose proof (call_delivers w Ho) as Hc.
  destruct (next_fate w.2) as [fate fates]. destruct (@up_submit_delta _ link sent w) as [[s1 fates1] r1].
  cbn [fst snd] in Hc. destruct Hc as (-> & Ho1 & Hm1 & Hr1).
  destruct fate; [by destruct r1| | |]; (destruct r1 as [?|e|]; [done| |done]).
  all: destruct remaining as [|remaining]; [cbn; by rewrite Hm1|].
  all: pose proof (duration_doubles remaining backoff Hb Hd) as [-> Hd'].
  all: pose proof (acc_time _ _ acc backoff s1 Ho1) as [Ho2 Hm2].
  all: pose proof (IH (backoff * 2) (@up_sleep _ link backoff (s1, fates)) ltac:(lia) ltac:(lia) Hd' Ho2) as H.
  all: cbn [up_sleep transport_link fst snd] in H |- *.
  all: destruct (deliveries (S remaining) fates) as [n heard]; destruct H as (H1 & H2 & H3); split; [done|]; split; [|done].
  all: rewrite H2, Hm2, Hm1, <-app_assoc; done.
Qed.
End accepting.
End delivery.

(** ** From the client to the round buffer *)

Section stack.
Context `{J : JwtLibrary} `{N : Notify} `{Gs : Gaussian} {R S A G L T : Type}.
Context `{CR : ClientRegistry R} `{St : Store S} `{Al : NodeAllowlist A} `{Ag : Aggregator G} (show : Displays).
Context `{ML : MessageLimit} (max_update_bytes : Z) (sha256 : bytes → bytes) (tls_info : option (option (list bytes))).
Context (show_status : GrpcStatus → string) (gone oversized : GrpcStatus) (endpoint : string → bool → option string).

Notation AppState := (AppState N R S A G L T JwtKeyMaterial).
Notation Server := (AppState * Z)%type.
Context (elapse : Z → Server → Server).

Notation service_link RD max tls elapse :=
  (transport_link (RD:=RD) max sha256 tls show_status gone oversized endpoint elapse).

(** The node's connection to the server, whose service is bounded by the configuration. *)
Definition upstream_link : UpstreamTransport (Server * list Fate) :=
  service_link (AppState_dispatcher show) max_update_bytes tls_info elapse.

Notation Node := (gen * (Server * list Fate))%type.

(** A client's connection to its node over the local hop: no TLS, and the service's own
    bound. *)
Definition local_link (self : NodeBridge) : UpstreamTransport (Node * list Fate) :=
  service_link (NodeBridge_dispatcher (U:=upstream_link) self) DEFAULT_MAX_UPDATE_BYTES None
    (λ t n, (n.1, @up_sleep _ upstream_link t n.2)).

Definition accepts_round (round : Z) (w : Server) : Prop :=
  ∃ b ds, st_current_buffer w.1 = Some b ∧ buf_state b = Open ds ∧ buf_round b = round.

(** What the open round holds of a client. *)
Definition submitted_by (client : string) (w : Server) : list ClientDelta :=
  match buf_state <$> st_current_buffer w.1 with
  | Some (Open ds) => filter (λ d, client_id d = client) ds
  | _ => []
  end.

(** The server while its round is open; what else happens to it then leaves the round
    open and is not this client's. *)
Definition undisturbed (round : Z) (client : string) : Prop :=
  ∀ t w, accepts_round round w →
    accepts_round round (elapse t w) ∧ submitted_by client (elapse t w) = submitted_by client w.

Lemma server_takes sent d (w : Server) :
  reassemble sent = Ok d → accepts_round (delta_round d) w →
  ∃ w', on_state (submit_delta show sent) w = (w', Ok (ack_for d)) ∧
    accepts_round (delta_round d) w' ∧ submitted_by (client_id d) w' = submitted_by (client_id d) w ++ [d].
Proof.
  intros Hd (b & ds & Hb & Hs & Hround). destruct w as [s now]. cbn [fst] in Hb.
  destruct (push d b) as [b'|e|] eqn:Hpush;
    [|unfold push, push_locked in Hpush; rewrite decide_True, Hs in Hpush by congruence; discriminate Hpush..].
  destruct (push_ok d b b' Hpush) as (ds' & Hs' & Hround' & Hb1 & Hb2 & _). rewrite Hs in Hs'. injection Hs' as <-.
  exists (set_current_buffer (Some b') s, now).
  assert (Hsub : submit_delta show sent s = (set_current_buffer (Some b') s, Ok (ack_for d))).
  { apply submit_delta_ok. by exists d, b, b'. }
  unfold on_state, zoom, accepts_round, submitted_by. cbn [fst snd]. rewrite Hsub, Hb. cbn [fmap option_fmap option_map].
  rewrite Hs. replace (st_current_buffer (set_current_buffer (Some b') s)) with (Some b') by by destruct s.
  cbn [fmap option_fmap option_map]. rewrite Hb1, filter_app, filter_cons_True, filter_nil by done. split; [done|].
  split; [|done]. exists b', (ds ++ [d]). by rewrite Hb2, Hround'.
Qed.

Definition server_accepting sent d (Hd : reassemble sent = Ok d)
    (Hquiet : undisturbed (delta_round d) (client_id d)) :
  Accepting (RD:=AppState_dispatcher show) elapse sent d.
Proof.
  refine {| acc_open := accepts_round (delta_round d) : Server → Prop; acc_mine := submitted_by (client_id d) |}.
  - intros w Hw. destruct (server_takes sent d w Hd Hw) as (w' & H1 & H2 & H3). by exists w', (ack_for d).
  - exact Hquiet.
Defined.

(** The copies of a submission that reach the server, and whether the client hears of it,
    when the node's network has the fates [upstream] in store. *)
Definition through_node (local : Fate) (upstream : list Fate) : nat * bool :=
  match local with
  | Answered => deliveries MAX_ATTEMPTS upstream
  | AnswerLost => ((deliveries MAX_ATTEMPTS upstream).1, false)
  | RequestLost | CutAfter _ => (0%nat, false)
  end.

Lemma node_delivers (self : NodeBridge) chunks sent d (rng rng' : gen) (w : Server * list Fate) :
  apply_local_privacy (nb_local_privacy self) chunks rng = (rng', Ok sent) → reassemble sent = Ok d →
  Forall (λ c, chunk_fits c = true) sent → total_bytes sent ≤ max_update_bytes < u64_max →
  undisturbed (delta_round d) (client_id d) → accepts_round (delta_round d) w.1 →
  let r := bridge_submit_delta (U:=upstream_link) self chunks (rng, w) in
  let '(n, heard) := deliveries MAX_ATTEMPTS w.2 in
  submitted_by (client_id d) r.1.2.1 = submitted_by (client_id d) w.1 ++ replicate n d ∧
  match r.2 with Ok ack => heard = true ∧ ack_accepted ack = true | Err _ => heard = false | Panic => False end.
Proof.
  intros Hp Hd Hf Hmax Hq Ho. unfold bridge_submit_delta, in_rng, in_world, zoom, mbind, stM_bind. cbn [fst snd]. rewrite Hp.
  cbn [map_err fst snd].
  pose proof (attempts_deliver (RD:=AppState_dispatcher show) max_update_bytes sha256 tls_info show_status gone oversized endpoint elapse
    sent d (server_accepting sent d Hd Hq) Hf Hmax MAX_ATTEMPTS INITIAL_BACKOFF w ltac:(unfold MAX_ATTEMPTS; lia) ltac:(done) ltac:(done) Ho) as H.
  unfold upstream_link. cbv zeta in H |- *. destruct (deliveries MAX_ATTEMPTS w.2) as [n heard].
  destruct (attempts _ _ _ _ _) as [w' r]. cbn [fst snd acc_open acc_mine server_accepting] in H |- *.
  destruct H as (_ & Hm & Hr). split; [exact Hm|]. by destruct r.
Qed.

(** What the local hop adds. *)
Lemma client_delivers (self : NodeBridge) chunks sent d (rng rng' : gen) (w : Server * list Fate) (local : list Fate) :
  apply_local_privacy (nb_local_privacy self) chunks rng = (rng', Ok sent) → reassemble sent = Ok d →
  Forall (λ c, chunk_fits c = true) chunks → total_bytes chunks ≤ DEFAULT_MAX_UPDATE_BYTES →
  Forall (λ c, chunk_fits c = true) sent → total_bytes sent ≤ max_update_bytes < u64_max →
  undisturbed (delta_round d) (client_id d) → accepts_round (delta_round d) w.1 →
  let r := @up_submit_delta _ (local_link self) chunks ((rng, w), local) in
  let '(n, heard) := through_node (next_fate local).1 w.2 in
  submitted_by (client_id d) r.1.1.2.1 = submitted_by (client_id d) w.1 ++ replicate n d ∧
  match r.2 with Ok ack => heard = true ∧ ack_accepted ack = true | Err _ => heard = false | Panic => False end.
Proof.
  intros Hp Hd Hcf Hcmax Hf Hmax Hq Ho. pose proof (node_delivers self chunks sent d rng rng' w Hp Hd Hf Hmax Hq Ho) as H.
  assert (Hcmax' : total_bytes chunks ≤ DEFAULT_MAX_UPDATE_BYTES < u64_max) by (split; [done|vm_compute; done]).
  unfold local_link. cbn [up_submit_delta transport_link]. unfold told, PullTransport_submit_delta, called, zoom, streamed.
  cbn [id fst snd]. destruct (next_fate local) as [fate rest]. unfold through_node. cbn [fst].
  destruct (bridge_submit_delta (U:=upstream_link) self chunks (rng, w)) as [n' r] eqn:Hb.
  pose proof (whole_stream (RD:=NodeBridge_dispatcher (U:=upstream_link) self) DEFAULT_MAX_UPDATE_BYTES
    chunks (rng, w) n' r Hcmax' Hb) as Hw.
  destruct fate as [| |k|]; cbv beta iota zeta; rewrite ?cut_stream, ?incoming_fits by done.
  - rewrite Hw. cbv zeta in H. destruct (deliveries _ _) as [n heard]. by destruct r.
  - cbn. by rewrite app_nil_r.
  - cbn. by rewrite app_nil_r.
  - rewrite Hw. cbv zeta in H. destruct (deliveries _ _) as [n heard]. destruct H as [H1 H2]. by destruct r.
Qed.

Lemma through_node_bounds local upstream :
  ((through_node local upstream).1 ≤ MAX_ATTEMPTS)%nat ∧
  ((through_node local upstream).2 = true → 1 ≤ (through_node local upstream).1)%nat.
Proof. pose proof (deliveries_bounds MAX_ATTEMPTS upstream). destruct local; cbn [through_node fst snd] in *; split; try lia; naive_solver. Qed.

(** C12: A client's update crosses the network whole or not at all.  A trained result that
    fits the two services' bounds is cut into chunks and submitted through a node to a
    server that has its round open.  Whatever calls, streams or answers either network
    loses, what the round gains of this client is some copies of one delta: the result
    with its scalars and its control variate, its weights as the client sent them or as
    the node's mechanism made them, once, of the whole update.  There are as many copies
    as attempts of the node that arrived whole, three at most; the client hears that it
    was accepted exactly when both hops were answered, and then there is one at least;
    and over a network that loses nothing there is exactly one and it hears so. *)
Theorem update_crosses_the_network (self : NodeBridge) (client : string) (round : Z) (result : TrainResult)
    (chunk_size : nat) (rng rng' : gen) (ws : list f32) (w : Server * list Fate) (local : list Fate) {MLL : MessageLimitLaws} :
  Forall f32_wf (tr_weights result) → variate_fits result → Z.of_nat (chunk_total result chunk_size) < 2 ^ 32 →
  match nb_local_privacy self with
  | Some m => transform (E:=DispatchError) m (tr_weights result) rng = Ok (ws, rng')
  | None => ws = tr_weights result
  end →
  undisturbed round client → accepts_round round w.1 →
  ∃ chunks, build_chunks (E:=DispatchError) client round result chunk_size = Ok chunks ∧
    (Forall (λ c, chunk_fits c = true) chunks → total_bytes chunks ≤ DEFAULT_MAX_UPDATE_BYTES →
     total_bytes chunks ≤ max_update_bytes < u64_max →
     let r := @up_submit_delta _ (local_link self) chunks ((rng, w), local) in
     let '(n, heard) := through_node (next_fate local).1 w.2 in
     (n ≤ MAX_ATTEMPTS)%nat ∧ (heard = true → 1 ≤ n)%nat ∧
     submitted_by client r.1.1.2.1 =
       submitted_by client w.1 ++ replicate n (with_weights (delta_of client round result) ws) ∧
     match r.2 with Ok ack => heard = true ∧ ack_accepted ack = true | Err _ => heard = false | Panic => False end ∧
     (local = [] → w.2 = [] → n = 1%nat ∧ heard = true)).
Proof.
  intros Hwf Hfit Htotal Hws Hq Ho. pose proof (built_chunks_submission client round result chunk_size Hfit Htotal) as Hos.
  eexists. split; [by apply build_chunks_ok|]. set (chunks := map _ _) in *. clearbody chunks. intros Hf Hcmax Hmax.
  destruct (forwarded_submission _ _ ws _ _ _ rng rng' Hos (Permutation_refl _) Hwf eq_refl Hws)
    as (sent & arranged & Hsent & Harr & Hshape & Hd).
  destruct (apply_local_privacy (nb_local_privacy self) chunks rng) as [rng1 r1] eqn:Hp. cbn [snd] in Hsent. subst r1.
  assert (Hf' : Forall (λ c, chunk_fits c = true) sent).
  { rewrite <-Harr in Hf. clear -Hf Hshape MLL. revert Hf.
    induction Hshape as [|c c' cs cs' Hc _ IH]; intros Hf; [done|]. apply Forall_cons in Hf as [Hc1 Hf].
    constructor; [by rewrite <-(chunk_fits_shape _ _ Hc)|by apply IH]. }
  assert (Hmax' : total_bytes sent = total_bytes chunks).
  { rewrite (same_shape_bytes _ _ Hshape). by apply total_bytes_perm. }
  pose proof (client_delivers self chunks sent (with_weights (delta_of client round result) ws) rng rng1 w local Hp
    (Hd sent (Permutation_refl _)) Hf Hcmax Hf' ltac:(by rewrite Hmax') Hq Ho) as H.
  cbv zeta in H |- *. pose proof (through_node_bounds (next_fate local).1 w.2) as [Hn Hh].
  destruct (through_node _ _) as [n heard] eqn:Ht. cbn [fst snd] in Hn, Hh. destruct H as [H1 H2].
  do 4 (split; [done|]). intros -> Hw. rewrite Hw in Ht. vm_compute in Ht. by injection Ht as <- <-.
Qed.

(** *** What modelling showed *)

(** A refusal has a code of its own so that a client can tell it from a broken server;
    behind a node every refusal of the server is the node's [Internal], after as many
    attempts as for a lost connection. *)
Lemma node_hides_refusals (self : NodeBridge) chunks (rng : gen) (s : AppState) (now : Z) (e : DispatchError) :
  nb_local_privacy self = None → submit_delta show chunks s = (s, Err e) → (∀ t w, elapse t w = w) →
  Forall (λ c, chunk_fits c = true) chunks →
  total_bytes chunks ≤ DEFAULT_MAX_UPDATE_BYTES → total_bytes chunks ≤ max_update_bytes < u64_max →
  let stream := {| in_chunks := chunks; in_broken := None |} in
  service_submit_delta (RD:=AppState_dispatcher show) max_update_bytes stream (s, now) = ((s, now), Err (Status_from e)) ∧
  service_submit_delta (RD:=NodeBridge_dispatcher (U:=upstream_link) self) DEFAULT_MAX_UPDATE_BYTES stream (rng, ((s, now), [])) =
    ((rng, ((s, now), [])),
     Err {| status_code := CodeInternal; status_message := show_transport (RpcFailed (show_status (Status_from e))) |}).
Proof.
  intros Hp He Hidle Hf Hd Hmax. cbv zeta.
  assert (Hserver : ∀ x, rd_submit_delta (RoundDispatcher:=AppState_dispatcher show) chunks (s, x) = ((s, x), Err e)).
  { intros x. cbn. unfold on_state, zoom. cbn [fst snd]. by rewrite He. }
  pose proof (whole_stream (RD:=AppState_dispatcher show) max_update_bytes chunks _ _ _ Hmax (Hserver now)) as Hs.
  split; [exact Hs|].
  assert (Hcall : @up_submit_delta _ upstream_link chunks ((s, now), []) =
    (((s, now), []), Err (show_transport (RpcFailed (show_status (Status_from e)))))).
  { unfold upstream_link. cbn [up_submit_delta transport_link]. unfold told, PullTransport_submit_delta, called, zoom, streamed.
    cbn [id fst snd next_fate]. rewrite incoming_fits by done. by rewrite Hs. }
  rewrite (whole_stream (RD:=NodeBridge_dispatcher (U:=upstream_link) self) DEFAULT_MAX_UPDATE_BYTES chunks (rng, ((s, now), []))
    (rng, ((s, now), [])) (Err (OtherError (show_transport (RpcFailed (show_status (Status_from e))))))); [done| |].
  { split; [done|vm_compute; done]. }
  cbn [rd_submit_delta NodeBridge_dispatcher]. unfold bridge_submit_delta, in_rng, in_world, zoom, mbind, stM_bind.
  rewrite Hp. cbn [apply_local_privacy fst snd map_err MAX_ATTEMPTS attempts]. rewrite Hcall.
  change (duration_double INITIAL_BACKOFF) with (Some 100). cbv beta iota.
  replace (@up_sleep _ upstream_link INITIAL_BACKOFF ((s, now), [])) with ((s, now), @nil Fate) by (cbn; by rewrite Hidle).
  rewrite Hcall. change (duration_double 100) with (Some 200). cbv beta iota.
  replace (@up_sleep _ upstream_link 100 ((s, now), [])) with ((s, now), @nil Fate) by (cbn; by rewrite Hidle).
  by rewrite Hcall.
Qed.

(** The model goes out as one message, and nobody raises what one may hold: a model of
    more than 1048576 weights cannot be fetched. *)
Lemma large_model_is_never_fetched {MLL : MessageLimitLaws} (client : string) (s : AppState) (now : Z)
    (ws : list f32) (fates : list Fate) (task : TaskResponse) :
  load_latest_weights (st_store s) = Ok ws → (1048576 < Z.of_nat (length ws))%Z →
  (@up_fetch_task _ upstream_link client ((s, now), fates)).2 ≠ Ok task.
Proof.
  intros Hload Hlen. unfold upstream_link. cbn [up_fetch_task transport_link].
  unfold told, PullTransport_fetch_task, called, zoom, unary. cbn [id fst snd].
  destruct (next_fate fates) as [fate rest].
  assert (Hserve : service_fetch_task (RD:=AppState_dispatcher show) {| ft_client_id := client |} (s, now) =
    ((s, now), Ok (task_of s (st_round s) ws))).
  { unfold service_fetch_task, answered, zoom. cbn [id ft_client_id rd_fetch_task AppState_dispatcher]. unfold on_state, zoom.
    cbn [fst snd]. by rewrite (fetch_task_ok show client s ws Hload). }
  destruct fate; rewrite ?Hserve; try (cbn; done).
  unfold read_task, mbind, outcome_bind. destruct (task_fits _) eqn:Hfit; [|done].
  apply task_fits_spec in Hfit. cbn [task_of model_weights] in Hfit. rewrite length_encode_weights in Hfit.
  unfold GRPC_MESSAGE_BYTES in Hfit. lia.
Qed.
End stack.

(** Only what a client cannot act on is [Internal]. *)
Lemma internal_is_other e : status_code (Status_from e) = CodeInternal ↔ ∃ message, e = OtherError message.
Proof. destruct e; cbn; naive_solver. Qed.
