(* ===== verification/Validate.v ===== *)
(** * Validation of a resolved configuration ([conflux-config/src/validate.rs])

    [validate] collects every finding in one pass; errors refuse to start.  A
    finding is its severity, parameter and source; the rendered value and the
    message are text and are not modelled.  The comparisons are the code's, so a
    NaN takes the branch it takes there. *)

From S2P Require Import Prelude Float Wire Averaging Filters Krum Privacy Config.

Open Scope Z_scope.

Inductive Severity : Type := SevError | SevWarning.

Record Finding := { severity : Severity; parameter : string; finding_source : ConfigSource }.

Record Validation := { errors : list Finding; warnings : list Finding }.

Definition Validation_default : Validation := {| errors := []; warnings := [] |}.

Definition is_clean (self : Validation) : bool :=
  match errors self, warnings self with [], [] => true | _, _ => false end.

Definition merge (self other : Validation) : Validation :=
  {| errors := errors self ++ errors other; warnings := warnings self ++ warnings other |}.

Definition push_finding (self : Validation) (f : Finding) : Validation :=
  match severity f with
  | SevError => {| errors := errors self ++ [f]; warnings := warnings self |}
  | SevWarning => {| errors := errors self; warnings := warnings self ++ [f] |}
  end.

(** One [if cond { v.push(..) }]. *)
Definition when (cond : bool) (severity : Severity) (parameter : string) (source : ConfigSource) : list Finding :=
  if cond then [{| severity := severity; parameter := parameter; finding_source := source |}] else [].

Definition one_of (names : list string) (name : string) : bool := existsb (String.eqb name) names.

Definition f64_positive_finite (x : f64) : bool := SFltb f64_zero x && sf_is_finite x.

Section validate.
Context (c : ResolvedConfig).

Definition src (p : param) : ConfigSource := source (cfg c p).
Definition aggregator_is (names : list string) : bool := one_of names (getv c P_aggregator).

Definition range_findings : list Finding :=
  let score := getv c P_min_reputation_score in
  let fraction := getv c P_robust_byzantine_fraction in
  (if getv c P_round_timeout_secs =? 0
   then when true SevError "round_timeout_secs" (src P_round_timeout_secs)
   else when (86400 <? getv c P_round_timeout_secs) SevWarning "round_timeout_secs" (src P_round_timeout_secs)) ++
  when (getv c P_client_registry_ttl =? 0) SevError "client_registry_ttl" (src P_client_registry_ttl) ++
  when (getv c P_max_update_bytes =? 0) SevError "max_update_bytes" (src P_max_update_bytes) ++
  match cfg_quorum c with
  | Some quorum => when (value quorum =? 0) SevError "quorum" (source quorum)
  | None => []
  end ++
  when (negb (f32_between (f32_of_Z (-1)) f32_one score)) SevError "min_reputation_score" (src P_min_reputation_score) ++
  when (negb (f32_between f32_zero f32_one fraction)) SevError "robust_byzantine_fraction"
    (src P_robust_byzantine_fraction) ++
  when (negb (f32_is_finite (getv c P_clip_norm)) || (getv c P_clip_norm <? f32_zero)%f32) SevError "clip_norm"
    (src P_clip_norm) ++
  when (negb (f32_is_finite (getv c P_noise_multiplier)) || (getv c P_noise_multiplier <? f32_zero)%f32)
    SevError "noise_multiplier" (src P_noise_multiplier) ++
  when (negb (f64_positive_finite (getv c P_target_epsilon))) SevError "target_epsilon" (src P_target_epsilon) ++
  when (negb (SFltb f64_zero (getv c P_delta) && SFltb (getv c P_delta) (f64_of_Z 1))) SevError "delta" (src P_delta).

Definition not_positive_finite (x : f32) : bool := negb (f32_is_finite x) || (x <=? f32_zero)%f32.
Definition not_nonneg_finite (x : f32) : bool := negb (f32_is_finite x) || (x <? f32_zero)%f32.

Definition robust_batch_method : bool :=
  aggregator_is ["krum"; "multi_krum"; "trimmed_mean"; "median"; "faba"; "bulyan"; "geometric_median";
                 "median_of_means"; "divide_and_conquer"]%string.

Definition method_findings : list Finding :=
  let beta := getv c P_server_momentum in
  when (aggregator_is ["centered_clipping"%string] && not_positive_finite (getv c P_clip_radius))
    SevError "clip_radius" (src P_clip_radius) ++
  when (aggregator_is ["fedadagrad"; "fedadam"; "fedyogi"; "fedavgm"; "scaffold"]%string &&
        not_positive_finite (getv c P_server_learning_rate))
    SevError "server_learning_rate" (src P_server_learning_rate) ++
  when (aggregator_is ["fedadagrad"; "fedadam"; "fedyogi"]%string && not_positive_finite (getv c P_server_tau))
    SevError "server_tau" (src P_server_tau) ++
  when (aggregator_is ["fedavgm"%string] && negb ((f32_zero <=? beta)%f32 && (beta <? f32_one)%f32))
    SevError "server_momentum" (src P_server_momentum) ++
  when (aggregator_is ["qfedavg"%string] && not_nonneg_finite (getv c P_fairness_q))
    SevError "fairness_q" (src P_fairness_q) ++
  when (aggregator_is ["zeno"%string] && not_nonneg_finite (getv c P_zeno_rho)) SevError "zeno_rho" (src P_zeno_rho) ++
  (if aggregator_is ["scaffold"%string] then
     if getv c P_scaffold_num_clients =? 0
     then when true SevError "scaffold_num_clients" (src P_scaffold_num_clients)
     else match cfg_quorum c with
          | Some quorum => when (getv c P_scaffold_num_clients <? value quorum) SevError "scaffold_num_clients"
                             (src P_scaffold_num_clients)
          | None => []
          end
   else []).

Definition batch_findings : list Finding :=
  let fraction := getv c P_robust_byzantine_fraction in
  when (robust_batch_method && f32_between (f32_lit 1 2) f32_one fraction) SevError "robust_byzantine_fraction"
    (src P_robust_byzantine_fraction) ++
  when ((f32_zero <? getv c P_noise_multiplier)%f32 && (getv c P_clip_norm =? f32_zero)%f32) SevWarning
    "noise_multiplier" (src P_noise_multiplier) ++
  when (negb (bool_decide (is_Some (cfg_quorum c))) && robust_batch_method) SevWarning "quorum"
    (src P_robust_byzantine_fraction) ++
  match cfg_quorum c with
  | Some quorum =>
      match batch_requirement (getv c P_aggregator) fraction (value quorum) with
      | Some req => when (negb (satisfied_by req (value quorum))) SevError "quorum" (source quorum)
      | None => []
      end
  | None => []
  end.

Definition validate : Validation :=
  foldl push_finding Validation_default (range_findings ++ method_findings ++ batch_findings).
End validate.

(** ** Facts *)

#[export] Instance Severity_eq_dec : EqDecision Severity.
Proof. solve_decision. Defined.

Lemma push_all v fs :
  foldl push_finding v fs =
  {| errors := errors v ++ base.filter (λ f, severity f = SevError) fs;
     warnings := warnings v ++ base.filter (λ f, severity f = SevWarning) fs |}.
Proof.
  revert v. induction fs as [|f fs IH]; intros v; simpl; [by rewrite !app_nil_r; destruct v|].
  rewrite IH, !filter_cons. unfold push_finding.
  destruct (severity f); simpl; by rewrite <-?app_assoc.
Qed.

Lemma errors_validate c :
  errors (validate c) =
  base.filter (λ f, severity f = SevError) (range_findings c ++ method_findings c ++ batch_findings c).
Proof. unfold validate. by rewrite push_all. Qed.

(** No error among one check's findings. *)
Definition silent (fs : list Finding) : Prop := base.filter (λ f, severity f = SevError) fs = [].

Lemma silent_app a b : silent (a ++ b) ↔ silent a ∧ silent b.
Proof. unfold silent. rewrite filter_app. apply app_nil. Qed.

Lemma silent_nil : silent [].
Proof. done. Qed.

Lemma silent_error b p s : silent (when b SevError p s) ↔ b = false.
Proof. unfold silent, when. by destruct b. Qed.

Lemma silent_warning b p s : silent (when b SevWarning p s).
Proof. unfold silent, when. by destruct b. Qed.

Lemma one_of_spec names name : one_of names name = true ↔ name ∈ names.
Proof.
  unfold one_of. rewrite existsb_exists. setoid_rewrite String.eqb_eq. rewrite list_elem_of_In. naive_solver.
Qed.

(** What a configuration that may start satisfies. *)
Record startable (c : ResolvedConfig) : Prop := {
  ok_timeout : getv c P_round_timeout_secs ≠ 0;
  ok_ttl : getv c P_client_registry_ttl ≠ 0;
  ok_bytes : getv c P_max_update_bytes ≠ 0;
  ok_quorum : ∀ q, cfg_quorum c = Some q → value q ≠ 0;
  ok_score : f32_between (f32_of_Z (-1)) f32_one (getv c P_min_reputation_score) = true;
  ok_fraction : f32_between f32_zero f32_one (getv c P_robust_byzantine_fraction) = true;
  ok_clip : f32_is_finite (getv c P_clip_norm) = true ∧ (getv c P_clip_norm <? f32_zero)%f32 = false;
  ok_noise : f32_is_finite (getv c P_noise_multiplier) = true ∧ (getv c P_noise_multiplier <? f32_zero)%f32 = false;
  ok_epsilon : SFltb f64_zero (getv c P_target_epsilon) = true ∧ sf_is_finite (getv c P_target_epsilon) = true;
  ok_delta : SFltb f64_zero (getv c P_delta) = true ∧ SFltb (getv c P_delta) (f64_of_Z 1) = true;
  ok_clip_radius : getv c P_aggregator = "centered_clipping"%string →
    f32_is_finite (getv c P_clip_radius) = true ∧ (getv c P_clip_radius <=? f32_zero)%f32 = false;
  ok_server_lr : getv c P_aggregator ∈ ["fedadagrad"; "fedadam"; "fedyogi"; "fedavgm"; "scaffold"]%string →
    f32_is_finite (getv c P_server_learning_rate) = true ∧ (getv c P_server_learning_rate <=? f32_zero)%f32 = false;
  ok_tau : getv c P_aggregator ∈ ["fedadagrad"; "fedadam"; "fedyogi"]%string →
    f32_is_finite (getv c P_server_tau) = true ∧ (getv c P_server_tau <=? f32_zero)%f32 = false;
  ok_momentum : getv c P_aggregator = "fedavgm"%string →
    (f32_zero <=? getv c P_server_momentum)%f32 = true ∧ (getv c P_server_momentum <? f32_one)%f32 = true;
  ok_q : getv c P_aggregator = "qfedavg"%string →
    f32_is_finite (getv c P_fairness_q) = true ∧ (getv c P_fairness_q <? f32_zero)%f32 = false;
  ok_rho : getv c P_aggregator = "zeno"%string →
    f32_is_finite (getv c P_zeno_rho) = true ∧ (getv c P_zeno_rho <? f32_zero)%f32 = false;
  ok_scaffold : getv c P_aggregator = "scaffold"%string →
    getv c P_scaffold_num_clients ≠ 0 ∧
    ∀ q, cfg_quorum c = Some q → value q ≤ getv c P_scaffold_num_clients;
  ok_minority : robust_batch_method c = true →
    f32_between (f32_lit 1 2) f32_one (getv c P_robust_byzantine_fraction) = false;
  ok_batch : ∀ q req, cfg_quorum c = Some q →
    batch_requirement (getv c P_aggregator) (getv c P_robust_byzantine_fraction) (value q) = Some req →
    satisfied_by req (value q) = true;
}.

Lemma aggregator_is_spec c names : aggregator_is c names = true ↔ getv c P_aggregator ∈ names.
Proof. apply one_of_spec. Qed.

Lemma aggregator_is_one c name : aggregator_is c [name] = true ↔ getv c P_aggregator = name.
Proof. rewrite aggregator_is_spec. by rewrite list_elem_of_singleton. Qed.

(** A guarded check is silent when its guard does not hold or it finds nothing. *)
Lemma andb_guard (g x : bool) (G : Prop) : (g = true ↔ G) → g && x = false ↔ (G → x = false).
Proof. intros Hg. destruct g, x; simpl; naive_solver. Qed.

Lemma not_finite_or (a b : bool) : negb a || b = false ↔ a = true ∧ b = false.
Proof. destruct a, b; naive_solver. Qed.

Lemma range_silent c :
  silent (range_findings c) ↔
  getv c P_round_timeout_secs ≠ 0 ∧ getv c P_client_registry_ttl ≠ 0 ∧ getv c P_max_update_bytes ≠ 0 ∧
  (∀ q, cfg_quorum c = Some q → value q ≠ 0) ∧
  f32_between (f32_of_Z (-1)) f32_one (getv c P_min_reputation_score) = true ∧
  f32_between f32_zero f32_one (getv c P_robust_byzantine_fraction) = true ∧
  (f32_is_finite (getv c P_clip_norm) = true ∧ (getv c P_clip_norm <? f32_zero)%f32 = false) ∧
  (f32_is_finite (getv c P_noise_multiplier) = true ∧ (getv c P_noise_multiplier <? f32_zero)%f32 = false) ∧
  (SFltb f64_zero (getv c P_target_epsilon) = true ∧ sf_is_finite (getv c P_target_epsilon) = true) ∧
  (SFltb f64_zero (getv c P_delta) = true ∧ SFltb (getv c P_delta) (f64_of_Z 1) = true).
Proof.
  unfold range_findings. cbv zeta. rewrite !silent_app, !silent_error, !not_finite_or.
  unfold f64_positive_finite. rewrite !negb_false_iff, !andb_true_iff.
  assert (Ht : ∀ z p s, silent (if z =? 0 then when true SevError p s else when (86400 <? z) SevWarning p s) ↔ z ≠ 0).
  { intros z p s. destruct (Z.eqb_spec z 0).
    - rewrite silent_error. naive_solver.
    - split; [done|]. intros _. apply silent_warning. }
  rewrite Ht, !Z.eqb_neq.
  assert (Hq : silent (match cfg_quorum c with
                       | Some quorum => when (value quorum =? 0) SevError "quorum" (source quorum)
                       | None => [] end) ↔ (∀ q, cfg_quorum c = Some q → value q ≠ 0)).
  { destruct (cfg_quorum c) as [q|]; [rewrite silent_error, Z.eqb_neq; naive_solver|]. split; [done|]. intros _.
    apply silent_nil. }
  rewrite Hq. naive_solver.
Qed.

Lemma method_silent c :
  silent (method_findings c) ↔
  (getv c P_aggregator = "centered_clipping"%string →
    f32_is_finite (getv c P_clip_radius) = true ∧ (getv c P_clip_radius <=? f32_zero)%f32 = false) ∧
  (getv c P_aggregator ∈ ["fedadagrad"; "fedadam"; "fedyogi"; "fedavgm"; "scaffold"]%string →
    f32_is_finite (getv c P_server_learning_rate) = true ∧ (getv c P_server_learning_rate <=? f32_zero)%f32 = false) ∧
  (getv c P_aggregator ∈ ["fedadagrad"; "fedadam"; "fedyogi"]%string →
    f32_is_finite (getv c P_server_tau) = true ∧ (getv c P_server_tau <=? f32_zero)%f32 = false) ∧
  (getv c P_aggregator = "fedavgm"%string →
    (f32_zero <=? getv c P_server_momentum)%f32 = true ∧ (getv c P_server_momentum <? f32_one)%f32 = true) ∧
  (getv c P_aggregator = "qfedavg"%string →
    f32_is_finite (getv c P_fairness_q) = true ∧ (getv c P_fairness_q <? f32_zero)%f32 = false) ∧
  (getv c P_aggregator = "zeno"%string →
    f32_is_finite (getv c P_zeno_rho) = true ∧ (getv c P_zeno_rho <? f32_zero)%f32 = false) ∧
  (getv c P_aggregator = "scaffold"%string →
    getv c P_scaffold_num_clients ≠ 0 ∧
    ∀ q, cfg_quorum c = Some q → value q ≤ getv c P_scaffold_num_clients).
Proof.
  unfold method_findings. cbv zeta. rewrite !silent_app, !silent_error.
  rewrite (andb_guard _ _ _ (aggregator_is_one c "centered_clipping")).
  rewrite (andb_guard _ _ _ (aggregator_is_spec c ["fedadagrad"; "fedadam"; "fedyogi"; "fedavgm"; "scaffold"]%string)).
  rewrite (andb_guard _ _ _ (aggregator_is_spec c ["fedadagrad"; "fedadam"; "fedyogi"]%string)).
  rewrite (andb_guard _ _ _ (aggregator_is_one c "fedavgm")), (andb_guard _ _ _ (aggregator_is_one c "qfedavg")),
    (andb_guard _ _ _ (aggregator_is_one c "zeno")).
  unfold not_positive_finite, not_nonneg_finite. rewrite !not_finite_or, negb_false_iff, andb_true_iff.
  assert (Hs : ∀ (b : bool) z p s, (aggregator_is c ["scaffold"%string] = b) →
    silent (if b then if z =? 0 then when true SevError p s
            else match cfg_quorum c with
                 | Some quorum => when (z <? value quorum) SevError p s
                 | None => [] end else []) ↔
    (getv c P_aggregator = "scaffold"%string → z ≠ 0 ∧ ∀ q, cfg_quorum c = Some q → value q ≤ z)).
  { intros b z p s Hb. rewrite <-aggregator_is_one, Hb. destruct b; [|split; [done|intros _; apply silent_nil]].
    destruct (Z.eqb_spec z 0) as [->|Hz]; [rewrite silent_error; naive_solver|].
    destruct (cfg_quorum c) as [q|].
    - rewrite silent_error, Z.ltb_ge. naive_solver.
    - split; [done|]. intros _. apply silent_nil. }
  rewrite (Hs _ _ _ _ eq_refl). done.
Qed.

Lemma batch_silent c :
  silent (batch_findings c) ↔
  (robust_batch_method c = true → f32_between (f32_lit 1 2) f32_one (getv c P_robust_byzantine_fraction) = false) ∧
  (∀ q req, cfg_quorum c = Some q →
    batch_requirement (getv c P_aggregator) (getv c P_robust_byzantine_fraction) (value q) = Some req →
    satisfied_by req (value q) = true).
Proof.
  unfold batch_findings. cbv zeta. rewrite !silent_app, silent_error.
  rewrite (andb_guard _ _ (robust_batch_method c = true)) by done.
  assert (Hq : silent (match cfg_quorum c with
    | Some quorum => match batch_requirement (getv c P_aggregator) (getv c P_robust_byzantine_fraction) (value quorum) with
                     | Some req => when (negb (satisfied_by req (value quorum))) SevError "quorum" (source quorum)
                     | None => [] end
    | None => [] end) ↔
    (∀ q req, cfg_quorum c = Some q →
      batch_requirement (getv c P_aggregator) (getv c P_robust_byzantine_fraction) (value q) = Some req →
      satisfied_by req (value q) = true)).
  { destruct (cfg_quorum c) as [q|]; [|split; [done|intros _; apply silent_nil]].
    destruct (batch_requirement _ _ (value q)) as [req|] eqn:Hr.
    - rewrite silent_error, negb_false_iff. split; [|by eauto].
      intros Hs q' req' [= <-] Hreq. rewrite Hr in Hreq. by injection Hreq as <-.
    - split; [|intros _; apply silent_nil]. intros _ q' req' [= <-] Hreq. by rewrite Hr in Hreq. }
  rewrite Hq. split; [tauto|]. intros [H1 H2]. split_and!; try done; apply silent_warning.
Qed.

Lemma errors_startable c : errors (validate c) = [] ↔ startable c.
Proof.
  rewrite errors_validate. change (silent (range_findings c ++ method_findings c ++ batch_findings c) ↔ startable c).
  rewrite !silent_app, range_silent, method_silent, batch_silent. split.
  - intros ((?&?&?&?&?&?&?&?&?&?)&(?&?&?&?&?&?&?)&?&?). by split.
  - intros []. split_and!; try done; tauto.
Qed.

(** ** Properties *)

(** Validation reports no error exactly for the configurations that may
    start: every range and every requirement of the chosen method holds, NaNs
    failing all of them, a robust method faces a minority, and a configured
    quorum satisfies its citation. *)
Theorem validation_accepts_exactly (c : ResolvedConfig) : errors (validate c) = [] ↔ startable c.
Proof. apply errors_startable. Qed.

(** Whatever the topology and mode, the defaults validate clean. *)
Theorem builtin_defaults_are_clean (topology : Topology) (mode : Mode) :
  is_clean (validate (resolve topology mode None Overrides_default Overrides_default)) = true.
Proof. destruct topology, mode; vm_compute; reflexivity. Qed.

(** What validation does not see: both factors of the noise's width are
    checked, their product is not. *)
Definition loud_env : Overrides :=
  {| ov p := match p return option (ptype p) with
             | P_clip_norm => Some (f32_of_Z (10 ^ 20)) | P_noise_multiplier => Some (f32_of_Z (10 ^ 20))
             | _ => None end; ov_quorum := None |}.

Lemma validation_misses_overflow :
  let c := resolve CrossSilo Production None loud_env Overrides_default in
  is_clean (validate c) = true ∧
  std_dev {| clip_norm := getv c P_clip_norm; noise_multiplier := getv c P_noise_multiplier |} = f64_infinity.
Proof. split; vm_compute; reflexivity. Qed.
