(* ===== verification/Profile.v ===== *)
(** * Profiles and the environment tier
      ([conflux-config/src/profile.rs], [conflux-config/src/env.rs])

    A profile file sets some of one axis's keys over another profile named by
    [inherits], down to a builtin.  The directory is a map from a profile's name
    to what reading [<name>.toml] gives; TOML values, their conversion and the
    standard library's [FromStr] are parameters. *)

From S2P Require Import Prelude Float Config.

Open Scope Z_scope.

(** ** Levenshtein distance *)

(** One row of the table: [prev] from the current column on, [left] the entry
    just written. *)
Fixpoint lev_row (ca : Ascii.ascii) (b : list Ascii.ascii) (diag : nat) (prev : list nat) (left : nat) : list nat :=
  match b, prev with
  | cb :: b', up :: prev' =>
      let cost := if decide (ca = cb) then 0%nat else 1%nat in
      let cur := Nat.min (Nat.min (up + 1) (left + 1)) (diag + cost) in
      cur :: lev_row ca b' up prev' cur
  | _, _ => []
  end.

Fixpoint lev_rows (a b : list Ascii.ascii) (i : nat) (prev : list nat) : list nat :=
  match a with
  | [] => prev
  | ca :: a' =>
      let cur := match prev with
                 | diag :: up => (i + 1)%nat :: lev_row ca b diag up (i + 1)
                 | [] => []
                 end in
      lev_rows a' b (i + 1) cur
  end.

(** On ASCII strings a [char] is a byte. *)
Definition levenshtein (a b : string) : nat :=
  let a := String.list_ascii_of_string a in
  let b := String.list_ascii_of_string b in
  List.last (lev_rows a b 0 (seq 0 (length b + 1))) 0%nat.

(** ** Errors *)

Inductive Axis : Type := TopologyAxis | ModeAxis.

Inductive ProfileError : Type :=
  | NotFound (axis : Axis) (name : string) (available : list string)
  | ProfileIo (name : string)
  | ParseError (name : string) (message : string)
  | ShadowsBuiltin (axis : Axis) (name : string)
  | MissingInherits (name : string)
  | Cycle (chain : list string)
  | UnknownKey (axis : Axis) (key : string) (suggestion : option string)
  | WrongAxis (name : string) (axis : Axis) (key : string) (owner : Axis)
  | BadValue (name key message : string).

Class Toml := {
  tvalue : Type;
  value_as_str : tvalue → option string;
  try_into : ∀ p : param, tvalue → outcome string (ptype p);
}.

Section profile.
Context `{Tm : Toml}.

Inductive FileRead : Type :=
  | Unreadable
  | Unparsable (message : string)
  | Table (entries : list (string * tvalue)).

Notation Directory := (gmap string FileRead).
Notation LoadedFile := (string * list (string * tvalue))%type.

(** ** Walking the chain *)

(** The loop over one table's entries: the [inherits] value and the other keys. *)
Fixpoint split_inherits (current : string) (entries : list (string * tvalue)) (inherits : option string)
    (keys : list (string * tvalue)) : outcome ProfileError (option string * list (string * tvalue)) :=
  match entries with
  | [] => Ok (inherits, keys)
  | (key, value) :: entries =>
      if decide (key = "inherits"%string) then
        match value_as_str value with
        | Some parent => split_inherits current entries (Some parent) keys
        | None => Err (BadValue current key "expected a profile or builtin name as a string")
        end
      else split_inherits current entries inherits (keys ++ [(key, value)])
  end.

(** The names [available_profiles] lists, sorted. *)
Definition available_profiles (dir : Directory) : list string :=
  sort_by (λ a b, bool_decide (String.le a b)) (map fst (map_to_list dir)).

Fixpoint load_chain_loop (fuel : nat) (axis : Axis) (dir : Directory) (builtins : list string)
    (files : list LoadedFile) (visited : list string) (current : string)
    : outcome ProfileError (list LoadedFile * string) :=
  match fuel with
  | O => Panic
  | S fuel =>
      if decide (current ∈ builtins) then
        match dir !! current with
        | Some _ => Err (ShadowsBuiltin axis current)
        | None => Ok (files, current)
        end
      else if decide (current ∈ visited) then Err (Cycle (visited ++ [current]))
      else
        let visited := visited ++ [current] in
        match dir !! current with
        | None => Err (NotFound axis current (available_profiles dir))
        | Some Unreadable => Err (ProfileIo current)
        | Some (Unparsable message) => Err (ParseError current message)
        | Some (Table entries) =>
            '(inherits, keys) ← split_inherits current entries None [];
            match inherits with
            | None => Err (MissingInherits current)
            | Some parent => load_chain_loop fuel axis dir builtins (files ++ [(current, keys)]) visited parent
            end
        end
  end.

(** Every turn but the last reads a file not read before. *)
Definition chain_fuel (dir : Directory) : nat := size dir + 2.

Definition load_chain (axis : Axis) (dir : Directory) (name : string) (builtins : list string)
    : outcome ProfileError (list LoadedFile * string) :=
  load_chain_loop (chain_fuel dir) axis dir builtins [] [] name.

(** ** Applying keys *)

Definition topology_params : list param :=
  [P_connection_mode; P_auth; P_round_timeout_secs; P_min_reputation_score; P_client_registry_ttl].
Definition mode_params : list param :=
  [P_seed_mode; P_seed_value; P_budget_exhausted_action; P_accounting_scope; P_allow_stub_client;
   P_require_node_auth; P_config_log_format].

Definition TOPOLOGY_KEYS : list string := omap topology_key topology_params.
Definition MODE_KEYS : list string := omap mode_key mode_params.

Definition wrong_key (axis : Axis) (profile key : string) (own_keys other_keys : list string) : ProfileError :=
  if decide (key ∈ other_keys) then
    WrongAxis profile axis key (match axis with TopologyAxis => ModeAxis | ModeAxis => TopologyAxis end)
  else
    UnknownKey axis key
      (fst <$> min_by_opt (λ a b, (a.2 <? b.2)%nat)
                 (base.filter (λ kd, (kd.2 ≤ 2)%nat) (map (λ k, (k, levenshtein key k)) own_keys))).

Definition set_topology_default (td : TopologyDefaults) (p : param) : ptype p → TopologyDefaults :=
  match p return ptype p → TopologyDefaults with
  | P_connection_mode => λ v, {| td_connection_mode := v; td_auth := td_auth td;
      td_round_timeout_secs := td_round_timeout_secs td; td_min_reputation_score := td_min_reputation_score td;
      td_client_registry_ttl := td_client_registry_ttl td |}
  | P_auth => λ v, {| td_connection_mode := td_connection_mode td; td_auth := v;
      td_round_timeout_secs := td_round_timeout_secs td; td_min_reputation_score := td_min_reputation_score td;
      td_client_registry_ttl := td_client_registry_ttl td |}
  | P_round_timeout_secs => λ v, {| td_connection_mode := td_connection_mode td; td_auth := td_auth td;
      td_round_timeout_secs := v; td_min_reputation_score := td_min_reputation_score td;
      td_client_registry_ttl := td_client_registry_ttl td |}
  | P_min_reputation_score => λ v, {| td_connection_mode := td_connection_mode td; td_auth := td_auth td;
      td_round_timeout_secs := td_round_timeout_secs td; td_min_reputation_score := v;
      td_client_registry_ttl := td_client_registry_ttl td |}
  | P_client_registry_ttl => λ v, {| td_connection_mode := td_connection_mode td; td_auth := td_auth td;
      td_round_timeout_secs := td_round_timeout_secs td; td_min_reputation_score := td_min_reputation_score td;
      td_client_registry_ttl := v |}
  | _ => λ _, td
  end.

Definition set_mode_default (md : ModeDefaults) (p : param) : ptype p → ModeDefaults :=
  let 'Build_ModeDefaults sm sv ba sc st au lf := md in
  match p return ptype p → ModeDefaults with
  | P_seed_mode => λ v, Build_ModeDefaults v sv ba sc st au lf
  | P_seed_value => λ v, Build_ModeDefaults sm (Some v) ba sc st au lf
  | P_budget_exhausted_action => λ v, Build_ModeDefaults sm sv v sc st au lf
  | P_accounting_scope => λ v, Build_ModeDefaults sm sv ba v st au lf
  | P_allow_stub_client => λ v, Build_ModeDefaults sm sv ba sc v au lf
  | P_require_node_auth => λ v, Build_ModeDefaults sm sv ba sc st v lf
  | P_config_log_format => λ v, Build_ModeDefaults sm sv ba sc st au v
  | _ => λ _, md
  end.

(** The parameter a key names among an axis's. *)
Definition param_of (key_of : param → option string) (params : list param) (key : string) : option param :=
  snd <$> list_find (λ p, key_of p = Some key) params.

Definition apply_topology_key (td : TopologyDefaults) (profile key : string) (value : tvalue)
    : outcome ProfileError TopologyDefaults :=
  match param_of topology_key topology_params key with
  | Some p => v ← map_err (BadValue profile key) (try_into p value); Ok (set_topology_default td p v)
  | None => Err (wrong_key TopologyAxis profile key TOPOLOGY_KEYS MODE_KEYS)
  end.

Definition apply_mode_key (md : ModeDefaults) (profile key : string) (value : tvalue)
    : outcome ProfileError ModeDefaults :=
  match param_of mode_key mode_params key with
  | Some p => v ← map_err (BadValue profile key) (try_into p value); Ok (set_mode_default md p v)
  | None => Err (wrong_key ModeAxis profile key MODE_KEYS TOPOLOGY_KEYS)
  end.

(** The writes of a chain in the order they are made: base-most file first. *)
Definition chain_writes (files : list LoadedFile) : list (string * (string * tvalue)) :=
  concat (map (λ '(file_name, table), map (λ kv, (file_name, kv)) table) (rev files)).

Fixpoint apply_all {D} (apply : D → string → string → tvalue → outcome ProfileError D) (profile : string)
    (writes : list (string * (string * tvalue))) (defaults : D) (origins : gmap string string)
    : outcome ProfileError (D * gmap string string) :=
  match writes with
  | [] => Ok (defaults, origins)
  | (file_name, (key, value)) :: writes =>
      defaults ← apply defaults profile key value;
      apply_all apply profile writes defaults (<[key := file_name]> origins)
  end.

Definition base_origins (keys : list string) (base_label : string) : gmap string string :=
  foldl (λ m key, <[key := base_label]> m) ∅ keys.

Definition topology_labelled (label : string) : option Topology :=
  snd <$> list_find (λ t, Topology_label t = label) Topology_ALL.
Definition mode_labelled (label : string) : option Mode :=
  snd <$> list_find (λ m, Mode_label m = label) Mode_ALL.

Definition load_topology_profile (dir : Directory) (name : string) : outcome ProfileError TopologyProfile :=
  '(files, base_label) ← load_chain TopologyAxis dir name (map Topology_label Topology_ALL);
  match topology_labelled base_label with
  | None => Panic
  | Some base =>
      '(defaults, origins) ← apply_all apply_topology_key name (chain_writes files) (Topology_defaults base)
                               (base_origins TOPOLOGY_KEYS base_label);
      Ok {| tp_name := name; tp_base := base; tp_defaults := defaults;
            tp_chain := map fst files ++ [base_label]; tp_origins := origins |}
  end.

Definition load_mode_profile (dir : Directory) (name : string) : outcome ProfileError ModeProfile :=
  '(files, base_label) ← load_chain ModeAxis dir name (map Mode_label Mode_ALL);
  match mode_labelled base_label with
  | None => Panic
  | Some base =>
      '(defaults, origins) ← apply_all apply_mode_key name (chain_writes files) (Mode_defaults base)
                               (base_origins MODE_KEYS base_label);
      Ok {| mp_name := name; mp_base := base; mp_defaults := defaults;
            mp_chain := map fst files ++ [base_label]; mp_origins := origins |}
  end.

(** [topology_profile_named], [mode_profile_named]. *)
Definition topology_profile_named (dir : Directory) (name : option string) : outcome ProfileError TopologyProfile :=
  match name with
  | None => Ok (TopologyProfile_builtin CrossDevice)
  | Some name => match topology_labelled name with
                 | Some t => Ok (TopologyProfile_builtin t)
                 | None => load_topology_profile dir name
                 end
  end.

Definition mode_profile_named (dir : Directory) (name : option string) : outcome ProfileError ModeProfile :=
  match name with
  | None => Ok (ModeProfile_builtin Research)
  | Some name => match mode_labelled name with
                 | Some m => Ok (ModeProfile_builtin m)
                 | None => load_mode_profile dir name
                 end
  end.

(** ** Facts *)

(** The chain [files] leads from [name] to [base] by [inherits]. *)
Inductive linked (dir : Directory) : string → list LoadedFile → string → Prop :=
  | linked_base name : linked dir name [] name
  | linked_file name entries keys parent files base :
      dir !! name = Some (Table entries) →
      split_inherits name entries None [] = Ok (Some parent, keys) →
      linked dir parent files base →
      linked dir name ((name, keys) :: files) base.

Lemma linked_snoc dir name files current entries keys parent :
  linked dir name files current → dir !! current = Some (Table entries) →
  split_inherits current entries None [] = Ok (Some parent, keys) →
  linked dir name (files ++ [(current, keys)]) parent.
Proof. induction 1; intros Hd Hs; simpl; econstructor; eauto. constructor. Qed.

Lemma split_inherits_no_panic current entries inherits keys : split_inherits current entries inherits keys ≠ Panic.
Proof.
  revert inherits keys. induction entries as [|[k v] entries IH]; intros inherits keys; simpl; [done|].
  case_decide; [|apply IH]. destruct (value_as_str v); [apply IH|done].
Qed.

Lemma load_chain_loop_spec fuel axis dir builtins files visited name current :
  NoDup visited → Forall (λ n, is_Some (dir !! n)) visited → map fst files = visited →
  linked dir name files current → (size dir + 2 ≤ fuel + length visited)%nat →
  match load_chain_loop fuel axis dir builtins files visited current with
  | Ok (files', base) =>
      base ∈ builtins ∧ dir !! base = None ∧ NoDup (map fst files') ∧ linked dir name files' base
  | Err (Cycle chain) => ∃ c l, chain = l ++ [c] ∧ c ∈ l
  | Err _ => True
  | Panic => False
  end.
Proof.
  revert files visited current. induction fuel as [|fuel IH]; intros files visited current Hnd Hdom Hfst Hl Hfuel.
  { assert (length visited ≤ size dir)%nat; [|lia].
    rewrite <-size_dom, <-(size_list_to_set (C:=gset string) visited) by done.
    apply subseteq_size. intros x. rewrite elem_of_list_to_set, elem_of_dom.
    rewrite Forall_forall in Hdom. apply Hdom. }
  simpl. case_decide as Hb.
  { destruct (dir !! current) eqn:Hd; [done|]. split; [done|]. split; [done|]. by rewrite Hfst. }
  case_decide as Hv; [by exists current, visited|].
  destruct (dir !! current) as [[|m|entries]|] eqn:Hd; [done..| |done].
  destruct (split_inherits current entries None []) as [[inh keys]|e|] eqn:Hs; simpl.
  - destruct inh as [parent|]; [|done]. apply IH.
    + apply NoDup_app. split; [done|]. split; [|apply NoDup_singleton]. intros x Hx ->%list_elem_of_singleton. done.
    + apply Forall_app. split; [done|]. constructor; [by rewrite Hd|constructor].
    + by rewrite map_app, Hfst.
    + by eapply linked_snoc.
    + rewrite length_app. simpl. lia.
  - clear -Hs. revert Hs. generalize (@None string), (@nil (string * tvalue)).
    induction entries as [|[k v] entries IH]; intros i ks; simpl; [done|].
    case_decide; [|apply IH]. destruct (value_as_str v); [apply IH|by intros [= <-]].
  - by apply split_inherits_no_panic in Hs.
Qed.

Lemma load_chain_spec axis dir builtins name :
  match load_chain axis dir name builtins with
  | Ok (files, base) => base ∈ builtins ∧ dir !! base = None ∧ NoDup (map fst files) ∧ linked dir name files base
  | Err (Cycle chain) => ∃ c l, chain = l ++ [c] ∧ c ∈ l
  | Err _ => True
  | Panic => False
  end.
Proof.
  apply load_chain_loop_spec; [constructor|constructor|done|constructor|]. unfold chain_fuel. simpl. lia.
Qed.

Lemma topology_key_inj p p' k : topology_key p = Some k → topology_key p' = Some k → p = p'.
Proof. destruct p; simpl; intros [= <-]; destruct p'; simpl; congruence. Qed.

Lemma param_of_topology key p : param_of topology_key topology_params key = Some p → topology_key p = Some key.
Proof.
  unfold param_of. destruct (list_find _ _) as [[i q]|] eqn:Hf; [|done]. simpl. intros [= <-].
  by apply list_find_Some in Hf as (_ & ? & _).
Qed.

Lemma set_topology_default_tier td p v :
  is_Some (topology_key p) →
  topology_tier (set_topology_default td p v) p = Some (lift p v) ∧
  ∀ p', p' ≠ p → topology_tier (set_topology_default td p v) p' = topology_tier td p'.
Proof.
  intros [k Hk]. destruct p; try discriminate Hk; (split; [done|]); intros p' Hne; by destruct p'.
Qed.

(** The write that decides a key: the last one made. *)
Fixpoint last_write (key : string) (writes : list (string * (string * tvalue))) : option (string * tvalue) :=
  match writes with
  | [] => None
  | (file_name, (k, v)) :: writes =>
      match last_write key writes with
      | Some r => Some r
      | None => if decide (k = key) then Some (file_name, v) else None
      end
  end.

Lemma apply_all_topology profile writes td origins td' origins' p key :
  topology_key p = Some key →
  apply_all apply_topology_key profile writes td origins = Ok (td', origins') →
  match last_write key writes with
  | Some (file_name, v) =>
      (∃ x, try_into p v = Ok x ∧ topology_tier td' p = Some (lift p x)) ∧ origins' !! key = Some file_name
  | None => topology_tier td' p = topology_tier td p ∧ origins' !! key = origins !! key
  end.
Proof.
  intros Hkey. revert td origins. induction writes as [|[f [k v]] writes IH]; intros td origins; simpl.
  { by intros [= <- <-]. }
  intros (td1 & Happ & H)%bind_ok_inv. specialize (IH _ _ H).
  destruct (last_write key writes) as [[f' v']|]; [done|]. destruct IH as [-> ->].
  unfold apply_topology_key in Happ. destruct (param_of _ _ k) as [q|] eqn:Hq; [|done].
  apply param_of_topology in Hq. apply bind_ok_inv in Happ as (x & Hx & [= <-]).
  destruct (set_topology_default_tier td q x) as [Hset Hother]; [by eexists|].
  case_decide as Hk.
  - subst k. assert (q = p) as -> by (by eapply topology_key_inj). split; [|by rewrite lookup_insert_eq].
    exists x. split; [|done]. by destruct (try_into p v); simplify_eq/=.
  - rewrite lookup_insert_ne by done. split; [|done]. apply Hother. intros ->. congruence.
Qed.

Lemma topology_labelled_spec label t : topology_labelled label = Some t → Topology_label t = label.
Proof.
  unfold topology_labelled. destruct (list_find _ _) as [[i q]|] eqn:Hf; [|done]. simpl. intros [= <-].
  by apply list_find_Some in Hf as (_ & ? & _).
Qed.

Lemma topology_labels_found label :
  label ∈ map Topology_label Topology_ALL → ∃ t, topology_labelled label = Some t.
Proof. intros Hin%list_elem_of_In. simpl in Hin. destruct Hin as [<-|[<-|[<-|[<-|[]]]]]; by eexists. Qed.

Lemma mode_labels_found label : label ∈ map Mode_label Mode_ALL → ∃ m, mode_labelled label = Some m.
Proof. intros Hin%list_elem_of_In. simpl in Hin. destruct Hin as [<-|[<-|[]]]; by eexists. Qed.

Lemma apply_all_no_panic {D} (apply : D → string → string → tvalue → outcome ProfileError D) profile writes d o :
  (∀ d key v, apply d profile key v ≠ Panic) → apply_all apply profile writes d o ≠ Panic.
Proof.
  intros Ha. revert d o. induction writes as [|[f [k v]] writes IH]; intros d o; simpl; [done|].
  intros [H|(d1 & _ & H)]%bind_panic_inv; [by apply Ha in H|by apply IH in H].
Qed.

Lemma base_origins_lookup keys base_label key :
  key ∈ keys → base_origins keys base_label !! key = Some base_label.
Proof.
  unfold base_origins. generalize (∅ : gmap string string).
  enough (H : ∀ m : gmap string string, key ∈ keys ∨ m !! key = Some base_label →
                foldl (λ m key, <[key := base_label]> m) m keys !! key = Some base_label) by auto.
  induction keys as [|k keys IH]; intros m Hin; simpl.
  { destruct Hin as [Hin|?]; [by apply elem_of_nil in Hin|done]. }
  apply IH. destruct (decide (k = key)) as [->|Hne]; [right; by rewrite lookup_insert_eq|].
  rewrite lookup_insert_ne by done. destruct Hin as [Hin|?]; [|by right].
  apply elem_of_cons in Hin as [->|?]; [done|by left].
Qed.

Lemma topology_key_listed key p : topology_key p = Some key → key ∈ TOPOLOGY_KEYS.
Proof.
  intros Hk. destruct p; try discriminate Hk; injection Hk as <-; unfold TOPOLOGY_KEYS; simpl;
    repeat first [apply list_elem_of_here | apply list_elem_of_further].
Qed.

Lemma topology_labels_of_base label : label ∈ map Topology_label Topology_ALL → topology_labelled label ≠ None.
Proof. intros [t ->]%topology_labels_found. done. Qed.

Lemma apply_topology_key_no_panic td profile key v :
  (∀ p v, try_into p v ≠ Panic) → apply_topology_key td profile key v ≠ Panic.
Proof.
  intros Ht. unfold apply_topology_key. destruct (param_of _ _ _) as [p|]; [|done].
  intros [H|(? & _ & ?)]%bind_panic_inv; [by eapply map_err_no_panic in H|done].
Qed.

Lemma apply_mode_key_no_panic md profile key v :
  (∀ p v, try_into p v ≠ Panic) → apply_mode_key md profile key v ≠ Panic.
Proof.
  intros Ht. unfold apply_mode_key. destruct (param_of _ _ _) as [p|]; [|done].
  intros [H|(? & _ & ?)]%bind_panic_inv; [by eapply map_err_no_panic in H|done].
Qed.

(** The shared shape of the two loaders: they panic in neither [expect]. *)
Lemma load_chain_no_panic axis dir name builtins : load_chain axis dir name builtins ≠ Panic.
Proof. intros H. pose proof (load_chain_spec axis dir builtins name) as Hs. by rewrite H in Hs. Qed.

Lemma load_topology_profile_no_panic dir name (Hinto : ∀ p v, try_into p v ≠ Panic) :
  load_topology_profile dir name ≠ Panic.
Proof.
  unfold load_topology_profile. intros [H|([files label] & Hl & H)]%bind_panic_inv; [by apply load_chain_no_panic in H|].
  pose proof (load_chain_spec TopologyAxis dir (map Topology_label Topology_ALL) name) as Hs. rewrite Hl in Hs.
  destruct Hs as ([t Ht]%topology_labels_found & _). rewrite Ht in H.
  apply bind_panic_inv in H as [H|([? ?] & _ & ?)]; [|done].
  eapply apply_all_no_panic in H; [done|]. intros. by apply apply_topology_key_no_panic.
Qed.

Lemma load_mode_profile_no_panic dir name (Hinto : ∀ p v, try_into p v ≠ Panic) :
  load_mode_profile dir name ≠ Panic.
Proof.
  unfold load_mode_profile. intros [H|([files label] & Hl & H)]%bind_panic_inv; [by apply load_chain_no_panic in H|].
  pose proof (load_chain_spec ModeAxis dir (map Mode_label Mode_ALL) name) as Hs. rewrite Hl in Hs.
  destruct Hs as ([t Ht]%mode_labels_found & _). rewrite Ht in H.
  apply bind_panic_inv in H as [H|([? ?] & _ & ?)]; [|done].
  eapply apply_all_no_panic in H; [done|]. intros. by apply apply_mode_key_no_panic.
Qed.

(** ** Properties *)

(** Loading a profile always comes to an answer, whatever the directory
    holds: chains that loop, are broken or shadow a builtin are errors, the chain
    walk needs no more turns than there are files, and neither the topology nor
    the mode loader reaches its [expect]. *)
Theorem profile_loading_terminates dir name (Hinto : ∀ p v, try_into p v ≠ Panic) :
  load_topology_profile dir name ≠ Panic ∧ load_mode_profile dir name ≠ Panic.
Proof. split; [by apply load_topology_profile_no_panic|by apply load_mode_profile_no_panic]. Qed.

(** What provenance says of one parameter: the last file to write its key gave
    its value and is its origin; without one both are the builtin's. *)
Definition provenance_exact (tp : TopologyProfile) (writes : list (string * (string * tvalue))) (p : param)
    (key : string) : Prop :=
  match last_write key writes with
  | Some (file_name, v) =>
      (∃ x, try_into p v = Ok x ∧ topology_tier (tp_defaults tp) p = Some (lift p x)) ∧
      tp_origins tp !! key = Some file_name
  | None =>
      topology_tier (tp_defaults tp) p = topology_tier (Topology_defaults (tp_base tp)) p ∧
      tp_origins tp !! key = Some (Topology_label (tp_base tp))
  end.

(** A loaded topology profile is its chain merged nearest-file-first: the
    files are distinct, lead by [inherits] from the name asked for to the builtin
    the profile reports as its base, no file shadows that builtin, and every
    topology parameter has the value and the recorded origin of the nearest file
    that sets it, or the builtin's. *)
Theorem profile_provenance_exact dir name tp (Hload : load_topology_profile dir name = Ok tp) :
  ∃ files, linked dir name files (Topology_label (tp_base tp)) ∧ NoDup (map fst files) ∧
    dir !! Topology_label (tp_base tp) = None ∧ tp_name tp = name ∧
    tp_chain tp = map fst files ++ [Topology_label (tp_base tp)] ∧
    ∀ p key, topology_key p = Some key → provenance_exact tp (chain_writes files) p key.
Proof.
  unfold load_topology_profile in Hload. apply bind_ok_inv in Hload as ([files label] & Hl & H).
  pose proof (load_chain_spec TopologyAxis dir (map Topology_label Topology_ALL) name) as Hs. rewrite Hl in Hs.
  destruct Hs as (_ & Hfree & Hnd & Hlink). destruct (topology_labelled label) as [t|] eqn:Ht; [|done].
  apply topology_labelled_spec in Ht as <-.
  apply bind_ok_inv in H as ([td' origins'] & Happ & [= <-]). exists files. simpl. do 5 (split; [done|]).
  intros p key Hk. pose proof (apply_all_topology _ _ _ _ _ _ p key Hk Happ) as Hp.
  unfold provenance_exact. simpl. destruct (last_write key (chain_writes files)) as [[f v]|]; [done|].
  destruct Hp as [Hv Ho]. split; [done|]. rewrite Ho. by apply base_origins_lookup, (topology_key_listed _ p).
Qed.
End profile.

(** ** Witnesses *)

(** TOML with strings and integers, where only the round timeout converts. *)
Inductive demo_value := DemoString (s : string) | DemoInteger (z : Z).

#[local] Instance demo_toml : Toml := {|
  tvalue := demo_value;
  value_as_str v := match v with DemoString s => Some s | DemoInteger _ => None end;
  try_into p :=
    match p return demo_value → outcome string (ptype p) with
    | P_round_timeout_secs => λ v, match v with DemoInteger z => Ok z | _ => Err "expected an integer"%string end
    | _ => λ _, Err "unsupported"%string
    end;
|}.

(** Two clinics under one hospital over the builtin [cross_silo], and a loop. *)
Definition demo_directory : gmap string FileRead :=
  list_to_map [
    ("clinic"%string, Table [("inherits"%string, DemoString "hospital"); ("round_timeout_secs"%string, DemoInteger 90)]);
    ("ward"%string, Table [("inherits"%string, DemoString "hospital")]);
    ("hospital"%string, Table [("inherits"%string, DemoString "cross_silo"); ("round_timeout_secs"%string, DemoInteger 1200)]);
    ("loop_a"%string, Table [("inherits"%string, DemoString "loop_b")]);
    ("loop_b"%string, Table [("inherits"%string, DemoString "loop_a")])].

Definition loaded_timeout (m : outcome ProfileError TopologyProfile) : option (Z * list string * option string) :=
  match m with
  | Ok tp => Some (td_round_timeout_secs (tp_defaults tp), tp_chain tp, tp_origins tp !! "round_timeout_secs"%string)
  | _ => None
  end.

Lemma profile_loading_terminates_witness :
  load_topology_profile demo_directory "loop_a" = Err (Cycle ["loop_a"; "loop_b"; "loop_a"]%string) ∧
  load_topology_profile demo_directory "clinic" ≠ Panic ∧ load_mode_profile demo_directory "clinic" ≠ Panic.
Proof.
  split; [vm_compute; reflexivity|]. apply profile_loading_terminates.
  intros p v. destruct p; try done. by destruct v.
Defined.

Lemma profile_provenance_exact_witness :
  loaded_timeout (load_topology_profile demo_directory "ward") =
    Some (1200, ["ward"; "hospital"; "cross_silo"]%string, Some "hospital"%string) ∧
  ∃ tp files, load_topology_profile demo_directory "clinic" = Ok tp ∧
    linked demo_directory "clinic" files (Topology_label (tp_base tp)) ∧
    provenance_exact tp (chain_writes files) P_round_timeout_secs "round_timeout_secs".
Proof.
  split; [vm_compute; reflexivity|].
  destruct (load_topology_profile demo_directory "clinic") as [tp|e|] eqn:Hl;
    [|exfalso; revert Hl; vm_compute; discriminate|exfalso; revert Hl; vm_compute; discriminate].
  destruct (profile_provenance_exact _ _ tp Hl) as (files & Hlink & _ & _ & _ & _ & Hp).
  exists tp, files. split; [done|]. split; [done|]. by apply Hp.
Defined.
