(* ===== verification/Environment.v ===== *)
(** * The environment tier ([conflux-config/src/env.rs])

    [overrides_from_vars] reads the per-parameter [CONFLUX_*] variables into the
    override tier.  The process environment is the argument [get]; the standard
    library's [FromStr] of each parameter's type is the class [FromStrs]. *)

From S2P Require Import Prelude Float Config.

Open Scope Z_scope.

(** [T::from_str] for the type of each parsed parameter, and [usize]'s. *)
Class FromStrs := {
  from_str : ∀ p : param, string → option (ptype p);
  usize_from_str : string → option Z;
}.

Inductive EnvError : Type := Invalid (name value : string).

Definition parse {T} (from_str : string → option T) (name : string) (raw : option string)
    : outcome EnvError (option T) :=
  match raw with
  | None => Ok None
  | Some value => match from_str value with
                  | Some v => Ok (Some v)
                  | None => Err (Invalid name value)
                  end
  end.

Section environment.
Context `{FS : FromStrs}.

(** The macro [var!]. *)
Definition var (get : string → option string) (p : param) (name : string) : outcome EnvError (option (ptype p)) :=
  parse (from_str p) name (get name).

Definition overrides_from_vars (get : string → option string) : outcome EnvError Overrides :=
  let aggregator := get "CONFLUX_AGGREGATOR"%string in
  let selector := get "CONFLUX_SELECTOR"%string in
  let privacy_mechanism := get "CONFLUX_PRIVACY_MECHANISM"%string in
  robust_byzantine_fraction ← var get P_robust_byzantine_fraction "CONFLUX_ROBUST_BYZANTINE_FRACTION";
  clip_radius ← var get P_clip_radius "CONFLUX_CLIP_RADIUS";
  server_learning_rate ← var get P_server_learning_rate "CONFLUX_SERVER_LEARNING_RATE";
  server_tau ← var get P_server_tau "CONFLUX_SERVER_TAU";
  server_momentum ← var get P_server_momentum "CONFLUX_SERVER_MOMENTUM";
  fairness_q ← var get P_fairness_q "CONFLUX_FAIRNESS_Q";
  scaffold_num_clients ← var get P_scaffold_num_clients "CONFLUX_SCAFFOLD_NUM_CLIENTS";
  zeno_rho ← var get P_zeno_rho "CONFLUX_ZENO_RHO";
  server_lipschitz ← var get P_server_lipschitz "CONFLUX_SERVER_LIPSCHITZ";
  min_reputation_score ← var get P_min_reputation_score "CONFLUX_MIN_REPUTATION_SCORE";
  reputation_filter_enabled ← var get P_reputation_filter_enabled "CONFLUX_REPUTATION_FILTER_ENABLED";
  quorum ← parse usize_from_str "CONFLUX_QUORUM" (get "CONFLUX_QUORUM"%string);
  round_log_detail ← var get P_round_log_detail "CONFLUX_ROUND_LOG_DETAIL";
  round_history_len ← var get P_round_history_len "CONFLUX_ROUND_HISTORY_LEN";
  max_update_bytes ← var get P_max_update_bytes "CONFLUX_MAX_UPDATE_BYTES";
  round_timeout_secs ← var get P_round_timeout_secs "CONFLUX_ROUND_TIMEOUT_SECS";
  clip_norm ← var get P_clip_norm "CONFLUX_CLIP_NORM";
  noise_multiplier ← var get P_noise_multiplier "CONFLUX_NOISE_MULTIPLIER";
  Ok {| ov p := match p return option (ptype p) with
                | P_aggregator => aggregator | P_selector => selector | P_privacy_mechanism => privacy_mechanism
                | P_robust_byzantine_fraction => robust_byzantine_fraction | P_clip_radius => clip_radius
                | P_server_learning_rate => server_learning_rate | P_server_tau => server_tau
                | P_server_momentum => server_momentum | P_fairness_q => fairness_q
                | P_scaffold_num_clients => scaffold_num_clients | P_zeno_rho => zeno_rho
                | P_server_lipschitz => server_lipschitz | P_min_reputation_score => min_reputation_score
                | P_reputation_filter_enabled => reputation_filter_enabled
                | P_round_log_detail => round_log_detail | P_round_history_len => round_history_len
                | P_max_update_bytes => max_update_bytes | P_round_timeout_secs => round_timeout_secs
                | P_clip_norm => clip_norm | P_noise_multiplier => noise_multiplier
                | _ => None
                end;
        ov_quorum := quorum |}.

(** ** What is read *)

(** The parameters whose variable is parsed. *)
Definition parsed_param (p : param) : bool :=
  match p with
  | P_robust_byzantine_fraction | P_clip_radius | P_server_learning_rate | P_server_tau | P_server_momentum
  | P_fairness_q | P_scaffold_num_clients | P_zeno_rho | P_server_lipschitz | P_min_reputation_score
  | P_reputation_filter_enabled | P_round_log_detail | P_round_history_len | P_max_update_bytes
  | P_round_timeout_secs | P_clip_norm | P_noise_multiplier => true
  | _ => false
  end.

Definition parsed_value (get : string → option string) (p : param) : option (ptype p) :=
  if parsed_param p then get (env_name p) ≫= from_str p else None.

(** What the environment says of [p] by itself: its variable's value, if the
    program reads that variable at all. *)
Definition variable_value (get : string → option string) (p : param) : option (ptype p) :=
  match p return option (ptype p) with
  | P_aggregator => get (env_name P_aggregator)
  | P_selector => get (env_name P_selector)
  | P_privacy_mechanism => get (env_name P_privacy_mechanism)
  | p => parsed_value get p
  end.

Definition parses (get : string → option string) (p : param) : Prop :=
  parsed_param p = true → ∀ raw, get (env_name p) = Some raw → is_Some (from_str p raw).

Definition quorum_parses (get : string → option string) : Prop :=
  ∀ raw, get "CONFLUX_QUORUM"%string = Some raw → is_Some (usize_from_str raw).

Lemma parse_ok {T} (f : string → option T) name raw v :
  parse f name raw = Ok v → v = raw ≫= f ∧ ∀ r, raw = Some r → is_Some (f r).
Proof.
  unfold parse. destruct raw as [r|]; simpl; [|by intros [= <-]].
  destruct (f r) as [x|] eqn:Hf; [|done]. intros [= <-]. split; [done|]. intros ? [= <-]. by eexists.
Qed.

Lemma parse_err {T} (f : string → option T) name raw e :
  parse f name raw = Err e → ∃ r, raw = Some r ∧ f r = None ∧ e = Invalid name r.
Proof. unfold parse. destruct raw as [r|]; [|done]. destruct (f r) eqn:?; [done|]. intros [= <-]. eauto. Qed.

Lemma parse_no_panic {T} (f : string → option T) name raw : parse f name raw ≠ Panic.
Proof. unfold parse. by repeat case_match. Qed.

Lemma overrides_ok get o :
  overrides_from_vars get = Ok o →
  (∀ p, ov o p = variable_value get p ∧ parses get p) ∧
  ov_quorum o = get "CONFLUX_QUORUM"%string ≫= usize_from_str ∧ quorum_parses get.
Proof.
  unfold overrides_from_vars, var. intros H.
  repeat (let v := fresh "v" in let Hv := fresh "Hv" in
    apply bind_ok_inv in H as (v & [-> Hv]%parse_ok & H)).
  injection H as <-. split; [|done].
  intros p. split; [by destruct p|]. intros Hp. destruct p; try discriminate Hp; assumption.
Qed.

Lemma overrides_err get e :
  overrides_from_vars get = Err e →
  (∃ p raw, parsed_param p = true ∧ get (env_name p) = Some raw ∧ from_str p raw = None ∧
            e = Invalid (env_name p) raw) ∨
  (∃ raw, get "CONFLUX_QUORUM"%string = Some raw ∧ usize_from_str raw = None ∧ e = Invalid "CONFLUX_QUORUM" raw).
Proof.
  unfold overrides_from_vars, var. intros H.
  repeat (apply bind_err_inv in H as [(raw & ? & ? & ->)%parse_err|(? & _ & H)];
    [first [right; by exists raw
           | match goal with Hp : from_str ?p raw = None |- _ => left; by exists p, raw end]|]).
  done.
Qed.

Lemma overrides_no_panic get : overrides_from_vars get ≠ Panic.
Proof.
  unfold overrides_from_vars, var. intros H.
  repeat (apply bind_panic_inv in H as [[]%parse_no_panic|(? & _ & H)]). done.
Qed.

(** The environment tier is never a silent fallback for a variable the
    program reads: a result holds exactly the parsed value of every set one, and
    a set variable that does not parse is an error naming that variable and its
    value; a parameter whose variable is not read stays unset. *)
Theorem environment_overrides_exact get :
  match overrides_from_vars get with
  | Ok o =>
      (∀ p, ov o p = variable_value get p ∧ parses get p) ∧
      ov_quorum o = get "CONFLUX_QUORUM"%string ≫= usize_from_str ∧ quorum_parses get
  | Err (Invalid name raw) =>
      get name = Some raw ∧
      ((∃ p, parsed_param p = true ∧ name = env_name p ∧ from_str p raw = None) ∨
       (name = "CONFLUX_QUORUM"%string ∧ usize_from_str raw = None))
  | Panic => False
  end.
Proof.
  destruct (overrides_from_vars get) as [o|[name raw]|] eqn:H.
  - by apply overrides_ok.
  - apply overrides_err in H as [(p & r & Hp & Hg & Hf & [= -> ->])|(r & Hg & Hf & [= -> ->])].
    + split; [done|]. left. by exists p.
    + split; [done|]. by right.
  - by apply overrides_no_panic in H.
Qed.

(** [CONFLUX_TARGET_EPSILON], [CONFLUX_AUTH], [CONFLUX_REQUIRE_NODE_AUTH] and the
    like are named as sources by [resolve] but are not read: two environments
    that differ only there give the same overrides. *)
Lemma unread_variables_are_ignored get o p :
  overrides_from_vars get = Ok o →
  p ∈ [P_connection_mode; P_auth; P_client_registry_ttl; P_seed_mode; P_seed_value; P_client_side_privacy_transform;
       P_target_epsilon; P_delta; P_budget_exhausted_action; P_accounting_scope; P_allow_stub_client;
       P_require_node_auth; P_config_log_format] → ov o p = None.
Proof.
  intros [Ho _]%overrides_ok Hp. destruct (Ho p) as [-> _].
  repeat (apply elem_of_cons in Hp as [->|Hp]; [done|]). by apply elem_of_nil in Hp.
Qed.
End environment.
