(* ===== verification/Experiment.v ===== *)
(** * Experiment files ([conflux-config/src/file.rs])

    A flat TOML file becomes the file tier of the resolution: every key it holds is
    one parameter's, with a value of that parameter's type, or the file is refused.
    The TOML parser and the conversions of single values are the library's. *)

From S2P Require Import Prelude Float Config Profile.

Open Scope Z_scope.

(** The field of [Overrides] a parameter has, which is its key in the file: the
    environment variable's name without its prefix, in lower case. *)
Definition field_name (p : param) : string :=
  match p with
  | P_connection_mode => "connection_mode" | P_auth => "auth"
  | P_round_timeout_secs => "round_timeout_secs"
  | P_min_reputation_score => "min_reputation_score"
  | P_client_registry_ttl => "client_registry_ttl"
  | P_max_update_bytes => "max_update_bytes" | P_selector => "selector"
  | P_seed_mode => "seed_mode" | P_seed_value => "seed_value"
  | P_aggregator => "aggregator"
  | P_robust_byzantine_fraction => "robust_byzantine_fraction"
  | P_clip_radius => "clip_radius" | P_server_learning_rate => "server_learning_rate"
  | P_server_tau => "server_tau" | P_server_momentum => "server_momentum"
  | P_fairness_q => "fairness_q" | P_scaffold_num_clients => "scaffold_num_clients"
  | P_zeno_rho => "zeno_rho" | P_server_lipschitz => "server_lipschitz"
  | P_reputation_filter_enabled => "reputation_filter_enabled"
  | P_client_side_privacy_transform => "client_side_privacy_transform"
  | P_privacy_mechanism => "privacy_mechanism" | P_clip_norm => "clip_norm"
  | P_noise_multiplier => "noise_multiplier" | P_target_epsilon => "target_epsilon"
  | P_delta => "delta" | P_budget_exhausted_action => "budget_exhausted_action"
  | P_accounting_scope => "accounting_scope" | P_allow_stub_client => "allow_stub_client"
  | P_require_node_auth => "require_node_auth"
  | P_config_log_format => "config_log_format"
  | P_round_log_detail => "round_log_detail" | P_round_history_len => "round_history_len"
  end.

Definition all_params : list param :=
  [P_connection_mode; P_auth; P_round_timeout_secs; P_min_reputation_score; P_client_registry_ttl;
   P_max_update_bytes; P_selector; P_seed_mode; P_seed_value; P_aggregator; P_robust_byzantine_fraction;
   P_clip_radius; P_server_learning_rate; P_server_tau; P_server_momentum; P_fairness_q;
   P_scaffold_num_clients; P_zeno_rho; P_server_lipschitz; P_reputation_filter_enabled;
   P_client_side_privacy_transform; P_privacy_mechanism; P_clip_norm; P_noise_multiplier; P_target_epsilon;
   P_delta; P_budget_exhausted_action; P_accounting_scope; P_allow_stub_client; P_require_node_auth;
   P_config_log_format; P_round_log_detail; P_round_history_len].

Definition param_named (key : string) : option param :=
  snd <$> list_find (λ p, field_name p = key) all_params.

#[export] Instance param_eq_dec : EqDecision param.
Proof. solve_decision. Defined.

Definition set_override (o : Overrides) (p : param) (v : ptype p) : Overrides :=
  {| ov q := match decide (p = q) with left E => Some (eq_rect p ptype v q E) | right _ => ov o q end;
     ov_quorum := ov_quorum o |}.

Definition set_quorum (o : Overrides) (v : Z) : Overrides := {| ov := ov o; ov_quorum := Some v |}.

Inductive ConfigFileError : Type :=
  | FileNotFound (path : string)
  | FileUnreadable (path : string)
  | FileSyntax (path message : string)
  | FileSchema (path message : string).

(** [io::ErrorKind], as far as it is told apart, and the text read. *)
Inductive ReadText : Type := NotFound | ReadFailed | Text (text : string).

Section experiment.
Context `{Tm : Toml}.
(** The conversion of [quorum]'s value, and the text of an unknown key's refusal. *)
Context (quorum_try_into : tvalue → outcome string Z) (unknown_field : string → string).

(** What serde derives for [Overrides] ([default], [deny_unknown_fields]): the
    entries in the table's order, the first one that does not fit refuses it. *)
Fixpoint deserialize (entries : list (string * tvalue)) (o : Overrides) : outcome string Overrides :=
  match entries with
  | [] => Ok o
  | (key, value) :: entries =>
      if decide (key = "quorum"%string) then
        v ← quorum_try_into value;
        deserialize entries (set_quorum o v)
      else
        match param_named key with
        | Some p => v ← try_into p value; deserialize entries (set_override o p v)
        | None => Err (unknown_field key)
        end
  end.

Context (read_to_string : string → ReadText) (toml_from_str : string → outcome string (list (string * tvalue))).

Definition parse_experiment_toml (text label : string) : outcome ConfigFileError Overrides :=
  table ← map_err (FileSyntax label) (toml_from_str text);
  map_err (FileSchema label) (deserialize table Overrides_default).

Definition load_experiment_file (path : string) : outcome ConfigFileError Overrides :=
  match read_to_string path with
  | NotFound => Err (FileNotFound path)
  | ReadFailed => Err (FileUnreadable path)
  | Text text => parse_experiment_toml text path
  end.

(** ** Facts *)

Lemma find_field key :
  match param_named key with Some p => field_name p = key | None => ∀ p, field_name p ≠ key end.
Proof.
  unfold param_named. destruct (list_find _ _) as [[i p]|] eqn:Hf; cbn.
  - by apply list_find_Some in Hf as (_ & ? & _).
  - apply list_find_None in Hf. intros p. rewrite Forall_forall in Hf. apply Hf.
    apply list_elem_of_In. by destruct p; cbn; auto 40.
Qed.

#[export] Instance field_name_inj : Inj (=) (=) field_name.
Proof. by intros [] []. Qed.

Lemma field_name_quorum p : field_name p ≠ "quorum"%string.
Proof. by destruct p. Qed.

Lemma ov_set_override o p v q :
  ov (set_override o p v) q = match decide (p = q) with left E => Some (eq_rect p ptype v q E) | right _ => ov o q end.
Proof. done. Qed.

Lemma ov_set_override_eq o p v : ov (set_override o p v) p = Some v.
Proof.
  rewrite ov_set_override. destruct (decide (p = p)) as [E|]; [|done].
  by rewrite <-(Eqdep_dec.eq_rect_eq_dec param_eq_dec).
Qed.

Lemma ov_set_override_ne o p v q : p ≠ q → ov (set_override o p v) q = ov o q.
Proof. intros Hne. rewrite ov_set_override. by destruct (decide (p = q)). Qed.

(** A table's value for a key; its keys are distinct. *)
Fixpoint entry (entries : list (string * tvalue)) (key : string) : option tvalue :=
  match entries with
  | [] => None
  | (k, v) :: entries => if decide (k = key) then Some v else entry entries key
  end.

Lemma entry_not_in entries key : key ∉ map fst entries → entry entries key = None.
Proof.
  induction entries as [|[k v] entries IH]; [done|]. simpl. rewrite not_elem_of_cons.
  intros [? ?]. rewrite decide_False by done. by apply IH.
Qed.

(** The value a table gives a key of the schema. *)
Definition given {T} (convert : tvalue → outcome string T) (entries : list (string * tvalue)) (key : string)
    (old now : option T) : Prop :=
  match entry entries key with
  | Some value => ∃ v, convert value = Ok v ∧ now = Some v
  | None => now = old
  end.

Lemma deserialize_ok entries o o' :
  NoDup (map fst entries) → deserialize entries o = Ok o' →
  Forall (λ kv, kv.1 = "quorum"%string ∨ ∃ p, field_name p = kv.1) entries ∧
  (∀ p, given (try_into p) entries (field_name p) (ov o p) (ov o' p)) ∧
  given quorum_try_into entries "quorum" (ov_quorum o) (ov_quorum o').
Proof.
  unfold given. revert o. induction entries as [|[key value] entries IH]; intros o Hnd; cbn [deserialize].
  { intros [= <-]. by split. }
  apply NoDup_cons in Hnd as [Hk Hnd]. pose proof (entry_not_in entries key Hk) as Hnone. case_decide as Hq.
  - intros (v & Hv & H)%bind_ok_inv. destruct (IH _ Hnd H) as (Hf & Hp & Hqu). subst key. split; [|split].
    + constructor; [by left|done].
    + intros p. cbn [entry]. rewrite decide_False by (apply not_eq_sym, field_name_quorum). apply Hp.
    + cbn [entry]. rewrite decide_True by done. rewrite Hnone in Hqu. by exists v.
  - pose proof (find_field key) as Hfind. destruct (param_named key) as [p|]; [|done].
    intros (v & Hv & H)%bind_ok_inv. destruct (IH _ Hnd H) as (Hf & Hp & Hqu). subst key. split; [|split].
    + constructor; [right; by exists p|done].
    + intros q. cbn [entry]. case_decide as Hpq.
      * apply (inj field_name) in Hpq as <-. specialize (Hp p). rewrite Hnone, ov_set_override_eq in Hp. by exists v.
      * specialize (Hp q). by rewrite ov_set_override_ne in Hp by congruence.
    + cbn [entry]. rewrite decide_False by done. done.
Qed.

(** ** Properties *)

(** An experiment file says exactly what it says.  If it loads, every key in it is
    a parameter's, every parameter it names has the value it gives and no other tier's,
    every parameter it does not name has no opinion; a missing file, an unreadable one,
    one that is not TOML and one that does not fit are told apart. *)
Theorem experiment_file_is_exact (path : string) (o : Overrides) :
  (∀ text table, toml_from_str text = Ok table → NoDup (map fst table)) →
  load_experiment_file path = Ok o →
  ∃ text table, read_to_string path = Text text ∧ toml_from_str text = Ok table ∧
    Forall (λ kv, kv.1 = "quorum"%string ∨ ∃ p, field_name p = kv.1) table ∧
    (∀ p, given (try_into p) table (field_name p) None (ov o p)) ∧
    given quorum_try_into table "quorum" None (ov_quorum o).
Proof.
  intros Hnd. unfold load_experiment_file, parse_experiment_toml. destruct (read_to_string path) as [| |text]; [done..|].
  intros (table & Ht & H)%bind_ok_inv. exists text, table.
  unfold map_err in Ht, H. destruct (toml_from_str text) as [t|e|] eqn:Htoml; [|done..]. injection Ht as ->.
  destruct (deserialize table Overrides_default) as [o'|e|] eqn:Hd; [|done..]. injection H as ->.
  split; [done|]. split; [done|]. by apply deserialize_ok in Hd; [|by eapply Hnd].
Qed.
End experiment.

(** ** A file *)

(** TOML with strings and integers, for a round timeout and a method's name. *)
#[local] Instance file_toml : Toml := {|
  tvalue := demo_value;
  value_as_str v := match v with DemoString s => Some s | DemoInteger _ => None end;
  try_into p :=
    match p return demo_value → outcome string (ptype p) with
    | P_round_timeout_secs => λ v, match v with DemoInteger z => Ok z | _ => Err "expected an integer"%string end
    | P_aggregator => λ v, match v with DemoString s => Ok s | _ => Err "expected a string"%string end
    | _ => λ _, Err "unsupported"%string
    end;
|}.

Definition demo_quorum (value : tvalue) : outcome string Z :=
  match value with DemoInteger n => Ok n | _ => Err "expected an integer"%string end.

Definition demo_text (text : string) : outcome string (list (string * tvalue)) :=
  if String.eqb text "tuned"
  then Ok [("quorum"%string, DemoInteger 8); ("aggregator"%string, DemoString "krum");
           ("round_timeout_secs"%string, DemoInteger 120)]
  else if String.eqb text "typo" then Ok [("agregator"%string, DemoString "krum")]
  else Err "expected a key"%string.

Definition demo_file (path : string) : ReadText :=
  if String.eqb path "missing.toml" then NotFound else Text path.

Definition demo_load : string → outcome ConfigFileError Overrides :=
  load_experiment_file demo_quorum (λ key, "unknown field " +:+ key) demo_file demo_text.

Example demo_errors :
  demo_load "missing.toml" = Err (FileNotFound "missing.toml") ∧
  demo_load "typo" = Err (FileSchema "typo" "unknown field agregator") ∧
  demo_load "junk" = Err (FileSyntax "junk" "expected a key").
Proof. vm_compute. done. Qed.

Lemma experiment_file_is_exact_witness :
  ∃ o, demo_load "tuned" = Ok o ∧ ov o P_aggregator = Some "krum"%string ∧ ov_quorum o = Some 8 ∧
    ov o P_clip_norm = None.
Proof.
  assert (Hok : is_ok (demo_load "tuned") = true) by (vm_compute; reflexivity).
  destruct (demo_load "tuned") as [o| |] eqn:Hl; [|discriminate Hok..].
  destruct (experiment_file_is_exact demo_quorum (λ key, "unknown field " +:+ key) demo_file demo_text "tuned" o)
    as (text & table & Ht & Htab & _ & Hp & Hq).
  - intros text table. unfold demo_text. case_match; [|case_match; [|done]]; intros [= <-];
      apply (bool_decide_unpack _); vm_compute; reflexivity.
  - exact Hl.
  - injection Ht as <-. injection Htab as <-. exists o. split; [done|]. split; [|split].
    + destruct (Hp P_aggregator) as (v & Hv & ->). vm_compute in Hv. injection Hv as <-. reflexivity.
    + destruct Hq as (v & Hv & ->). vm_compute in Hv. injection Hv as <-. reflexivity.
    + exact (Hp P_clip_norm).
Defined.
