(* ===== verification/Startup.v ===== *)
(** * Starting a server ([conflux-server/src/serve.rs], [env.rs], [app_state.rs],
      [conflux-config/src/validate.rs])

    From the environment to the state the round loop and the handlers share:
    configuration, validation, the names the linked binary registers, TLS and JWT
    material, backends, the sidecar, the listeners and the admin port.  Whatever is
    wrong is an error that is returned; the sockets, files, parsers and connections
    themselves are parameters. *)

From S2P Require Import Prelude Float Wire Buffer Weights Averaging Contracts Flanders Catalog Registry Reputation Privacy Store Config State Round RoundLoop Submission Dispatcher Validate Profile Environment Experiment Admin.

Open Scope Z_scope.

(** ** Names nothing registers *)

Definition QUOTE : string := String.String (Ascii.ascii_of_nat 34) "".

Definition noun_of (kind : StrategyKind) : string :=
  match kind with
  | Kind_Aggregator => "an aggregator"
  | Kind_Selector => "a selector"
  | Kind_PrivacyMechanism => "a privacy mechanism"
  end.

Definition closest_name (value : string) (names : list string) : option string :=
  fst <$> min_by_opt (λ a b, (a.2 <? b.2)%nat)
            (base.filter (λ nd, (nd.2 ≤ 2)%nat) (map (λ n, (n, levenshtein value n)) names)).

Definition unregistered_message (kind : StrategyKind) (value : string) (names : list string) : string :=
  let guess :=
    match closest_name value names with
    | Some near => " — did you mean " +:+ QUOTE +:+ near +:+ QUOTE +:+ "?"
    | None => "."
    end in
  "nothing registers " +:+ noun_of kind +:+ " by this name" +:+ guess +:+ " Registered: " +:+ String.concat ", " names.

(** The three parameters that name a strategy. *)
Definition named_strategies (c : ResolvedConfig) : list (StrategyKind * string * string * ConfigSource) :=
  [ (Kind_Aggregator, "aggregator"%string, getv c P_aggregator, source (cfg c P_aggregator));
    (Kind_Selector, "selector"%string, getv c P_selector, source (cfg c P_selector));
    (Kind_PrivacyMechanism, "privacy_mechanism"%string, getv c P_privacy_mechanism,
       source (cfg c P_privacy_mechanism)) ].

Section unregistered.
Context (registry : list StrategyEntry).

(** One turn of the loop: the finding and its message. *)
Definition unregistered_one (strategy : StrategyKind * string * string * ConfigSource) : option (Finding * string) :=
  let '(kind, parameter, value, source) := strategy in
  match lookup_strategy registry kind value with
  | Some _ => None
  | None =>
      match registered_names registry kind with
      | [] => None
      | names =>
          Some ({| severity := SevError; parameter := parameter; finding_source := source |},
                unregistered_message kind value (sort_by string_leb names))
      end
  end.

Definition unregistered_findings (c : ResolvedConfig) : list (Finding * string) :=
  omap unregistered_one (named_strategies c).

Definition unregistered_strategies (c : ResolvedConfig) : Validation :=
  foldl push_finding Validation_default (map fst (unregistered_findings c)).
End unregistered.

(** ** Deployment material *)

Inductive DeploymentError : Type :=
  | MissingCompanion (selection missing : string)
  | UnreadablePath (var path message : string)
  | Unusable (var path message : string).

Record TlsMaterial := { cert_pem : bytes; key_pem : bytes; client_ca_pem : bytes }.

(** The process environment and the files it can name. *)
Record Surroundings := {
  env_var : string → option string;
  fs_read : string → outcome string bytes;
}.

Section material.
Context (sys : Surroundings).

Definition read_path (var : string) : outcome DeploymentError (option (string * bytes)) :=
  match env_var sys var with
  | None => Ok None
  | Some path => bytes ← map_err (UnreadablePath var path) (fs_read sys path); Ok (Some (path, bytes))
  end.

Definition require (var selection : string) : outcome DeploymentError string :=
  match env_var sys var with Some v => Ok v | None => Err (MissingCompanion selection var) end.

Definition selects (var value : string) : bool :=
  match env_var sys var with Some v => String.eqb v value | None => false end.

Definition backend_selection_from_vars : outcome DeploymentError BackendSelection :=
  registry ←
    (if selects "CONFLUX_REGISTRY_BACKEND" "redis" then
       url ← require "CONFLUX_REDIS_URL" "CONFLUX_REGISTRY_BACKEND=redis"; Ok (RB_Redis url)
     else Ok RB_Memory);
  store ←
    (if selects "CONFLUX_STORE_BACKEND" "postgres" then
       url ← require "CONFLUX_POSTGRES_URL" "CONFLUX_STORE_BACKEND=postgres"; Ok (SB_Postgres url)
     else if selects "CONFLUX_STORE_BACKEND" "s3" then
       endpoint ← require "CONFLUX_S3_ENDPOINT" "CONFLUX_STORE_BACKEND=s3";
       bucket ← require "CONFLUX_S3_BUCKET" "CONFLUX_STORE_BACKEND=s3";
       access_key ← require "CONFLUX_S3_ACCESS_KEY" "CONFLUX_STORE_BACKEND=s3";
       secret_key ← require "CONFLUX_S3_SECRET_KEY" "CONFLUX_STORE_BACKEND=s3";
       Ok (SB_S3 endpoint bucket access_key secret_key)
     else Ok SB_Memory);
  accounting ←
    (if selects "CONFLUX_ACCOUNTING_PERSISTENCE" "true" then
       url ← require "CONFLUX_POSTGRES_URL" "CONFLUX_ACCOUNTING_PERSISTENCE=true"; Ok (AB_Postgres url)
     else Ok AB_Disabled);
  Ok {| bs_registry := registry; bs_store := store; bs_accounting := accounting |}.

Definition tls_material_from_vars : outcome DeploymentError (option TlsMaterial) :=
  cert ← read_path "CONFLUX_TLS_CERT_PATH";
  key ← read_path "CONFLUX_TLS_KEY_PATH";
  client_ca ← read_path "CONFLUX_TLS_CLIENT_CA_PATH";
  match cert, key, client_ca with
  | Some (_, cert_pem), Some (_, key_pem), Some (_, client_ca_pem) =>
      Ok (Some {| cert_pem := cert_pem; key_pem := key_pem; client_ca_pem := client_ca_pem |})
  | _, _, _ => Ok None
  end.

Definition tls_paths_present : list (string * bool) :=
  map (λ var, (var, bool_decide (is_Some (env_var sys var))))
    ["CONFLUX_TLS_CERT_PATH"; "CONFLUX_TLS_KEY_PATH"; "CONFLUX_TLS_CLIENT_CA_PATH"]%string.

Context `{J : JwtLibrary} (show_jwt : JwtAuthError → string).

Definition jwt_key_from_env : outcome DeploymentError (option JwtKeyMaterial) :=
  named ← read_path "CONFLUX_JWT_PUBLIC_KEY_PATH";
  match named with
  | None => Ok None
  | Some (path, pem) =>
      map_err (λ e, Unusable "CONFLUX_JWT_PUBLIC_KEY_PATH" path (show_jwt e)) (Some <$> from_public_key_pem pem)
  end.

Definition trusted_reference_addr : option string := env_var sys "CONFLUX_TRUSTED_REFERENCE_ADDR".

(** An unset variable, and one set to the empty string, are no token. *)
Definition admin_token_from_env : option AdminToken :=
  token ← env_var sys "CONFLUX_ADMIN_TOKEN";
  if decide (token = ""%string) then None else Some (AdminToken_new token).
End material.

(** ** Connections *)

Record SidecarCapabilities := {
  supports_reference_update : bool;
  supports_scoring : bool;
  model_dim : option Z;
  description : string;
}.

(** What the program opens; [T] is the sidecar's transport. *)
Record Connectors (Rd Al Pg S3 T : Type) := {
  redis_registry : string → outcome RegistryError Rd;
  redis_allowlist : string → outcome NodeAuthError Al;
  (** [connect] is [connect_with_table] of the default table. *)
  postgres : string → string → outcome StoreError Pg;
  s3 : string → string → string → string → outcome StoreError S3;
  sidecar : string → outcome string T;
  describe : T → T * outcome string SidecarCapabilities;
}.
Arguments redis_registry {Rd Al Pg S3 T}.
Arguments redis_allowlist {Rd Al Pg S3 T}.
Arguments postgres {Rd Al Pg S3 T}.
Arguments s3 {Rd Al Pg S3 T}.
Arguments sidecar {Rd Al Pg S3 T}.
Arguments describe {Rd Al Pg S3 T}.

Inductive AppStateError : Type :=
  | StateBackendSelection (e : BackendSelectionError)
  | StateRegistry (e : RegistryError)
  | StateStore (e : StoreError)
  | StateNodeAuth (e : NodeAuthError).

(** [ServeError::Sidecar]'s texts, told apart by what they say. *)
Inductive SidecarError : Type :=
  | NoSidecarAddress (aggregator : string)
  | SidecarUnreachable (addr message : string)
  | SidecarMute (addr message : string)
  | NoReferenceUpdates (addr description aggregator : string)
  | NoCandidateScoring (addr description aggregator : string)
  | WrongModelDimension (addr : string) (dim experiment_dim : Z).

Inductive ServeError : Type :=
  | ServeProfile (e : ProfileError)
  | ServeConfigFile (e : ConfigFileError)
  | ServeOverrides (e : EnvError)
  | ServeEnv (e : DeploymentError)
  | InvalidConfiguration (findings : list Finding)
  | ServeTls (e : AuthEnforcementError)
  | ServeJwt (e : JwtAuthError)
  | ServeAppState (e : AppStateError)
  | ServeAdminBinding (e : AdminAuthError)
  | InvalidVar (var value : string)
  | ServeSidecar (e : SidecarError)
  | Bind (addr : SocketAddr) (flag var : string) (message : string)
  | ListenerAddr (which message : string)
  | GrpcTls (message : string)
  | ServeGrpc (message : string)
  | ServeHttp (message : string)
  | ServeTask (message : string).

(** [AggregatorParams] as [assemble] fills it in. *)
Definition aggregator_params (c : ResolvedConfig) : AggregatorParams :=
  {| ap_byzantine_fraction := getv c P_robust_byzantine_fraction; ap_clip_radius := getv c P_clip_radius;
     ap_server_learning_rate := Some (getv c P_server_learning_rate);
     ap_server_tau := Some (getv c P_server_tau); ap_server_momentum := Some (getv c P_server_momentum);
     ap_fairness_q := Some (getv c P_fairness_q); ap_server_lipschitz := Some (getv c P_server_lipschitz);
     ap_scaffold_num_clients := Some (getv c P_scaffold_num_clients); ap_zeno_rho := Some (getv c P_zeno_rho) |}.

(** [T::from_str] of the variables [serve.rs] parses itself. *)
Class AddressFromStr := {
  socket_addr_from_str : string → option SocketAddr;
  dim_from_str : string → option Z;
}.

Section serve.
Context `{J : JwtLibrary} `{N : Notify} `{HO : HashOrder} `{AF : AddressFromStr}.
Context {Rd Al Pg S3 T Tls Listener : Type}.
Context `{CR : ClientRegistry Rd} `{NA : NodeAllowlist Al} `{SP : Store Pg} `{SS : Store S3} `{Lg : PrivacyRoundLog Pg}.
Context (ln : f32 → f32) (powf : f64 → f64 → f64).
Context (sort_unordered : list (nat * f64) → outcome AggregatorError (list (nat * f64))).
Context (entry_order : list (string * list (f32 * f32)) → list (string * list (f32 * f32))).
Context (registry : list StrategyEntry) (show_jwt : JwtAuthError → string).
Context (sys : Surroundings) (net : Connectors Rd Al Pg S3 T).

Notation AppState :=
  (AppState N (AnyRegistry Rd) (AnyStore Pg S3) (AnyNodeAllowlist Al) BoxedAggregator Pg T JwtKeyMaterial).

(** [assemble], with the aggregator it builds; its [expect]s panic. *)
Definition assemble_named (config : ResolvedConfig) (reg : AnyRegistry Rd) (store : AnyStore Pg S3)
    (node_allowlist : AnyNodeAllowlist Al) (accountant : RdpAccountant) (accountant_log : option Pg)
    : outcome Empty_set AppState :=
  match build_aggregator ln powf sort_unordered (getv config P_aggregator) (aggregator_params config) with
  | Ok aggregator => assemble config reg store node_allowlist accountant accountant_log aggregator
  | _ => Panic
  end.

Definition checkpoint_table : string := "conflux_checkpoints".

Definition connect (config : ResolvedConfig) (mode : Mode) (initial_weights : list f32) (backends : BackendSelection)
    : outcome AppStateError AppState :=
  map_err StateBackendSelection (validate_production_backends mode backends) ≫= λ _,
  node_allowlist ←
    match bs_registry backends with
    | RB_Memory => Ok (AnyNodeAllowlist_InMemory ∅)
    | RB_Redis url => map_err StateNodeAuth (AnyNodeAllowlist_Redis <$> redis_allowlist net url)
    end;
  reg ←
    match bs_registry backends with
    | RB_Memory => Ok (AnyRegistry_InMemory ∅)
    | RB_Redis url => map_err StateRegistry (AnyRegistry_Redis <$> redis_registry net url)
    end;
  store ←
    match bs_store backends with
    | SB_Memory => Ok (AnyStore_InMemory (InMemoryStore_new initial_weights))
    | SB_Postgres url => map_err StateStore (AnyStore_Postgres <$> postgres net url checkpoint_table)
    | SB_S3 endpoint bucket access_key secret_key =>
        map_err StateStore (AnyStore_S3 <$> s3 net endpoint bucket access_key secret_key)
    end;
  accounting ←
    match bs_accounting backends with
    | AB_Disabled => Ok (RdpAccountant_new, None)
    | AB_Postgres url =>
        map_err StateStore (log ← postgres net url checkpoint_table; connect_accounting entry_order log)
    end;
  match assemble_named config reg store node_allowlist accounting.1 accounting.2 with
  | Ok state => Ok state
  | _ => Panic
  end.

Definition connect_trusted_reference (state : AppState) (initial_weights_dim : Z) : outcome ServeError AppState :=
  let aggregator := getv (st_config state) P_aggregator in
  match trusted_reference_addr sys with
  | None => Err (ServeSidecar (NoSidecarAddress aggregator))
  | Some addr =>
      transport ← map_err (λ e, ServeSidecar (SidecarUnreachable addr e)) (sidecar net addr);
      let '(transport, reply) := describe net transport in
      capabilities ← map_err (λ e, ServeSidecar (SidecarMute addr e)) reply;
      if requires_trusted_reference (st_aggregator state) && negb (supports_reference_update capabilities)
      then Err (ServeSidecar (NoReferenceUpdates addr (description capabilities) aggregator))
      else if requires_candidate_scores (st_aggregator state) && negb (supports_scoring capabilities)
      then Err (ServeSidecar (NoCandidateScoring addr (description capabilities) aggregator))
      else
        match model_dim capabilities with
        | Some dim =>
            if dim =? initial_weights_dim then Ok (with_trusted_reference transport state)
            else Err (ServeSidecar (WrongModelDimension addr dim initial_weights_dim))
        | None => Ok (with_trusted_reference transport state)
        end
  end.

Definition parse_env {V} (from_str : string → option V) (var : string) : outcome ServeError (option V) :=
  match env_var sys var with
  | None => Ok None
  | Some value => match from_str value with Some v => Ok (Some v) | None => Err (InvalidVar var value) end
  end.

Record ServerConfig := { resolved : ResolvedConfig; sc_mode : Mode; initial_weights_dim : Z }.

(** The server's configuration: what every check below reads. *)
Definition validated (config : ResolvedConfig) : Validation :=
  merge (validate config) (unregistered_strategies registry config).

(** [build_tls] is [server_tls_config], [accept_tls] tonic's; [bind_addr] and
    [local_addr] the sockets'. *)
Context (build_tls : TlsMaterial → Tls) (accept_tls : Tls → outcome string ()).
Context (bind_addr : SocketAddr → outcome string Listener) (local_addr : Listener → outcome string SocketAddr).

Definition bind (addr : SocketAddr) (flag var : string) : outcome ServeError Listener :=
  map_err (Bind addr flag var) (bind_addr addr).

Definition LOCALHOST (p : Z) : SocketAddr := {| ip := V4 127 0 0 1; port := p |}.

(** A server about to serve. *)
Record Started := {
  started_state : AppState;
  started_tls : option Tls;
  started_grpc : Listener;
  started_http : Listener;
  started_http_addr : SocketAddr;
  started_admin_token : option AdminToken;
}.

(** [serve], up to the configuration being accepted and its material loaded ... *)
Definition prepare_material (config : ResolvedConfig) (mode : Mode)
    : outcome ServeError (option Tls * option JwtKeyMaterial) :=
  match errors (validated config) with
  | _ :: _ => Err (InvalidConfiguration (errors (validated config)))
  | [] =>
      tls_material ← map_err ServeEnv (tls_material_from_vars sys);
      tls_config ← map_err ServeTls (resolve_server_tls build_tls mode (getv config P_auth) tls_material);
      jwt_key ← map_err ServeEnv (jwt_key_from_env sys show_jwt);
      map_err ServeJwt (validate_jwt_startup mode (getv config P_auth) jwt_key) ≫= λ _,
      Ok (tls_config, jwt_key)
  end.

(** [vec![0.0f32; dim]]: a vector of more bytes than an [isize] counts is a panic
    ("capacity overflow").  One that fits, but not in memory, aborts the process: memory is
    not modelled. *)
Definition ISIZE_MAX : Z := 2 ^ 63 - 1.
Definition zeroed_weights (dim : Z) : outcome ServeError (list f32) :=
  if 4 * dim <=? ISIZE_MAX then Ok (replicate (Z.to_nat dim) f32_zero) else Panic.

(** ... to the shared state ... *)
Definition prepare_state (server_config : ServerConfig) (jwt_key : option JwtKeyMaterial)
    : outcome ServeError AppState :=
  let dim := initial_weights_dim server_config in
  initial_weights ← zeroed_weights dim;
  backends ← map_err ServeEnv (backend_selection_from_vars sys);
  state ← map_err ServeAppState
            (connect (resolved server_config) (sc_mode server_config) initial_weights backends);
  let state := with_jwt_key jwt_key state in
  if requires_trusted_reference (st_aggregator state) || requires_candidate_scores (st_aggregator state)
  then connect_trusted_reference state dim
  else Ok state.

(** ... to the listeners. *)
Definition prepare_listeners (listeners : option (Listener * Listener)) : outcome ServeError (Listener * Listener) :=
  match listeners with
  | Some bound => Ok bound
  | None =>
      grpc_addr ← parse_env socket_addr_from_str "CONFLUX_GRPC_ADDR";
      http_addr ← parse_env socket_addr_from_str "CONFLUX_HTTP_ADDR";
      grpc ← bind (default (LOCALHOST 50051) grpc_addr) "--grpc-addr" "CONFLUX_GRPC_ADDR";
      http ← bind (default (LOCALHOST 8080) http_addr) "--http-addr" "CONFLUX_HTTP_ADDR";
      Ok (grpc, http)
  end.

(** [serve], up to where its tasks are spawned. *)
Definition start (listeners : option (Listener * Listener)) (server_config : ServerConfig)
    : outcome ServeError Started :=
  '(tls_config, jwt_key) ← prepare_material (resolved server_config) (sc_mode server_config);
  state ← prepare_state server_config jwt_key;
  '(grpc, http) ← prepare_listeners listeners;
  map_err (ListenerAddr "gRPC") (local_addr grpc) ≫= λ _,
  http_addr ← map_err (ListenerAddr "HTTP") (local_addr http);
  let admin_token := admin_token_from_env sys in
  map_err ServeAdminBinding (validate_admin_binding http_addr admin_token) ≫= λ _,
  match tls_config with
  | Some tls => map_err GrpcTls (accept_tls tls)
  | None => Ok ()
  end ≫= λ _,
  Ok {| started_state := state; started_tls := tls_config; started_grpc := grpc; started_http := http;
        started_http_addr := http_addr; started_admin_token := admin_token |}.

(** *** [ServerConfig::from_env] *)

Context `{Tm : Toml} `{FS : FromStrs}.
Context (quorum_try_into : tvalue → outcome string Z) (unknown_field : string → string).
Context (read_to_string : string → ReadText) (toml_from_str : string → outcome string (list (string * tvalue))).
Context (profiles_in : string → gmap string FileRead).

Definition from_env : outcome ServeError ServerConfig :=
  let profile_dir := profiles_in (default "profiles"%string (env_var sys "CONFLUX_PROFILE_DIR"%string)) in
  topology_profile ← map_err ServeProfile
    (topology_profile_named profile_dir (env_var sys "CONFLUX_TOPOLOGY"%string));
  mode_profile ← map_err ServeProfile
    (mode_profile_named profile_dir (env_var sys "CONFLUX_MODE"%string));
  file_tier ←
    match env_var sys "CONFLUX_EXPERIMENT_CONFIG_PATH"%string with
    | None => Ok None
    | Some path =>
        overrides ← map_err ServeConfigFile
          (load_experiment_file quorum_try_into unknown_field read_to_string toml_from_str path);
        Ok (Some (path, overrides))
    end;
  env_overrides ← map_err ServeOverrides (overrides_from_vars (env_var sys));
  dim ← parse_env dim_from_str "CONFLUX_INITIAL_WEIGHTS_DIM";
  Ok {| resolved := resolve_with_profiles topology_profile mode_profile file_tier env_overrides Overrides_default;
        sc_mode := mp_base mode_profile;
        initial_weights_dim := default 4 dim |}.

(** [run_from_env], up to the same point. *)
Definition run_from_env : outcome ServeError Started := from_env ≫= start None.
End serve.

(** ** What validation has settled *)

Lemma unregistered_one_spec registry kind parameter value source :
  registered_names registry kind ≠ [] →
  match unregistered_one registry (kind, parameter, value, source) with
  | None => is_Some (lookup_strategy registry kind value)
  | Some (f, _) => lookup_strategy registry kind value = None ∧
      f = {| severity := SevError; parameter := parameter; finding_source := source |}
  end.
Proof.
  intros Hne. unfold unregistered_one. destruct (lookup_strategy registry kind value); [done|].
  by destruct (registered_names registry kind).
Qed.

Lemma unregistered_errors registry c :
  errors (unregistered_strategies registry c) = map fst (unregistered_findings registry c) ∧
  warnings (unregistered_strategies registry c) = [].
Proof.
  assert (Hsev : ∀ s f m, unregistered_one registry s = Some (f, m) → severity f = SevError).
  { intros [[[k p] v] src] f m. unfold unregistered_one. repeat case_match; try done. by intros [= <- <-]. }
  assert (Hall : Forall (λ f, severity f = SevError) (map fst (unregistered_findings registry c))).
  { apply Forall_forall. intros f ([g m] & -> & Hin)%list_elem_of_fmap.
    apply list_elem_of_omap in Hin as (s & _ & Hs). by eapply Hsev. }
  unfold unregistered_strategies. rewrite push_all. simpl. split.
  - apply list_filter_all. by apply Forall_forall.
  - induction Hall as [|f fs Hf _ IH]; [done|]. rewrite filter_cons_False by (by rewrite Hf). done.
Qed.

Lemma shipped_names_nonempty registry kind :
  registry ≡ₚ shipped_entries → registered_names registry kind ≠ [].
Proof. intros Hp. rewrite (registered_names_perm _ _ kind Hp). destruct kind; vm_compute; discriminate. Qed.

Lemma registered_single registry kind only name :
  registry ≡ₚ shipped_entries → registered_names shipped_entries kind = [only] →
  is_Some (lookup_strategy registry kind name) ↔ name = only.
Proof.
  intros Hp Hk. rewrite lookup_strategy_is_Some, (registered_names_perm _ _ _ Hp), Hk.
  apply list_elem_of_singleton.
Qed.

Lemma no_unregistered registry c :
  registry ≡ₚ shipped_entries →
  errors (unregistered_strategies registry c) = [] ↔
  getv c P_aggregator ∈ built_names ∧ getv c P_selector = "uniform_random"%string ∧
  getv c P_privacy_mechanism = "gaussian_clipping"%string.
Proof.
  intros Hp. rewrite (proj1 (unregistered_errors _ _)), <-(registered_iff_built _ _ Hp).
  rewrite <-(registered_single registry Kind_Selector "uniform_random" _ Hp) by (vm_compute; reflexivity).
  rewrite <-(registered_single registry Kind_PrivacyMechanism "gaussian_clipping" _ Hp) by (vm_compute; reflexivity).
  unfold unregistered_findings, named_strategies. cbn [omap list_omap].
  pose proof (unregistered_one_spec registry Kind_Aggregator "aggregator" (getv c P_aggregator)
    (source (cfg c P_aggregator)) (shipped_names_nonempty _ _ Hp)) as Ha.
  pose proof (unregistered_one_spec registry Kind_Selector "selector" (getv c P_selector)
    (source (cfg c P_selector)) (shipped_names_nonempty _ _ Hp)) as Hs.
  pose proof (unregistered_one_spec registry Kind_PrivacyMechanism "privacy_mechanism" (getv c P_privacy_mechanism)
    (source (cfg c P_privacy_mechanism)) (shipped_names_nonempty _ _ Hp)) as Hm.
  cbn [rtype ptype] in *.
  destruct (unregistered_one registry (Kind_Aggregator, _, _, _)) as [[fa ma]|];
    [destruct Ha as [-> _]; split; [done|by intros [[? ?] _]]|].
  destruct (unregistered_one registry (Kind_Selector, _, _, _)) as [[fs ms]|];
    [destruct Hs as [-> _]; split; [done|by intros (_ & [? ?] & _)]|].
  destruct (unregistered_one registry (Kind_PrivacyMechanism, _, _, _)) as [[fm mm]|];
    [destruct Hm as [-> _]; split; [done|by intros (_ & _ & [? ?])]|].
  done.
Qed.

(** A configuration that passed both checks. *)
Lemma validated_clean registry c :
  registry ≡ₚ shipped_entries → errors (validated registry c) = [] →
  startable c ∧ getv c P_aggregator ∈ built_names ∧ getv c P_selector = "uniform_random"%string ∧
  getv c P_privacy_mechanism = "gaussian_clipping"%string.
Proof.
  intros Hp. unfold validated, merge. simpl. intros [Hv Hu]%app_eq_nil.
  split; [by apply errors_startable|by apply (no_unregistered registry)].
Qed.

(** *** The suggestion *)

Lemma min_by_opt_ext {A} (lt lt' : A → A → bool) l :
  (∀ a b, lt a b = lt' a b) → min_by_opt lt l = min_by_opt lt' l.
Proof.
  intros H. destruct l as [|x l]; [done|]. simpl. f_equal. revert x.
  induction l as [|y l IH]; intros x; simpl; [done|]. by rewrite H, IH.
Qed.

Lemma closest_name_spec value names n :
  closest_name value names = Some n →
  n ∈ names ∧ (levenshtein value n ≤ 2)%nat ∧
  ∀ n', n' ∈ names → (levenshtein value n ≤ levenshtein value n')%nat.
Proof.
  unfold closest_name. intros ([n' d] & Hmin & Hn)%fmap_Some. simpl in Hn. subst n'.
  set (near := base.filter (λ nd, (nd.2 ≤ 2)%nat) (map (λ n, (n, levenshtein value n)) names)) in *.
  set (P := λ nd, nd ∈ near).
  assert (HP : ∀ nd, P nd ↔ (nd.1 ∈ names ∧ nd.2 = levenshtein value nd.1 ∧ (nd.2 ≤ 2)%nat)).
  { intros [m e]. unfold P, near. rewrite list_elem_of_filter. simpl. split.
    - intros [He (x & [= -> ->] & Hx)%list_elem_of_fmap]. by split_and!.
    - intros (Hm & -> & He). split; [done|]. by apply (list_elem_of_fmap_2 (λ n, (n, levenshtein value n))). }
  pose proof (min_by_opt_least (λ a b : string * nat, (a.2 <=? b.2)%nat) P) as Hleast.
  destruct (Hleast near (n, d)) as (l1 & l2 & Hl & H1 & H2);
    [by intros; rewrite !Nat.leb_le; lia|by intros until 3; rewrite !Nat.leb_le; lia|
     by apply Forall_forall; intros x Hx; apply Hx| |].
  { etrans; [|exact Hmin]. apply min_by_opt_ext. intros a b. by rewrite Nat.ltb_antisym. }
  assert (Hin : P (n, d)) by (apply min_by_opt_in in Hmin; exact Hmin).
  destruct (proj1 (HP _) Hin) as (Hn & Hd & Hd2). simpl in Hn, Hd, Hd2. subst d. split; [done|]. split; [done|].
  intros m Hm. destruct (Nat.le_gt_cases (levenshtein value m) 2) as [Hle|]; [|lia].
  assert (Hpm : (m, levenshtein value m) ∈ near) by (by apply (HP (m, _))).
  rewrite Hl, elem_of_app, elem_of_cons in Hpm. rewrite Forall_forall in H1, H2.
  destruct Hpm as [Hx|[[= ->]|Hx]]; [|done|].
  - specialize (H1 _ Hx). apply Nat.leb_gt in H1. simpl in H1. lia.
  - specialize (H2 _ Hx). by apply Nat.leb_le in H2.
Qed.

(** ** Everything outside the program answers *)

Section properties.
Context `{J : JwtLibrary} `{N : Notify} `{HO : HashOrder} `{AF : AddressFromStr}.
Context {Rd Al Pg S3 T Tls Listener : Type}.
Context `{CR : ClientRegistry Rd} `{NA : NodeAllowlist Al} `{SP : Store Pg} `{SS : Store S3} `{Lg : PrivacyRoundLog Pg}.
Context (ln : f32 → f32) (powf : f64 → f64 → f64).
Context (sort_unordered : list (nat * f64) → outcome AggregatorError (list (nat * f64))).
Context (entry_order : list (string * list (f32 * f32)) → list (string * list (f32 * f32))).
Context (registry : list StrategyEntry) (show_jwt : JwtAuthError → string).
Context (sys : Surroundings) (net : Connectors Rd Al Pg S3 T).
Context (build_tls : TlsMaterial → Tls) (accept_tls : Tls → outcome string ()).
Context (bind_addr : SocketAddr → outcome string Listener) (local_addr : Listener → outcome string SocketAddr).
Context `{Tm : Toml} `{FS : FromStrs}.
Context (quorum_try_into : tvalue → outcome string Z) (unknown_field : string → string).
Context (read_to_string : string → ReadText) (toml_from_str : string → outcome string (list (string * tvalue))).
Context (profiles_in : string → gmap string FileRead).

Notation AppState :=
  (AppState N (AnyRegistry Rd) (AnyStore Pg S3) (AnyNodeAllowlist Al) BoxedAggregator Pg T JwtKeyMaterial).
Notation assemble_named := (assemble_named (N:=N) (Rd:=Rd) (Al:=Al) (Pg:=Pg) (S3:=S3) (T:=T) ln powf sort_unordered).
Notation connect := (connect (N:=N) ln powf sort_unordered entry_order net).
Notation start := (start ln powf sort_unordered entry_order registry show_jwt sys net build_tls accept_tls bind_addr local_addr).
Notation run_from_env :=
  (run_from_env ln powf sort_unordered entry_order registry show_jwt sys net build_tls accept_tls bind_addr
     local_addr quorum_try_into unknown_field read_to_string toml_from_str profiles_in).

(** The clients, the file system, the parsers and the sockets return, with an
    error if they must. *)
Record outside_total : Prop := {
  total_redis_registry url : redis_registry net url ≠ Panic;
  total_redis_allowlist url : redis_allowlist net url ≠ Panic;
  total_postgres url table : postgres net url table ≠ Panic;
  total_s3 e b a s : s3 net e b a s ≠ Panic;
  total_sidecar addr : sidecar net addr ≠ Panic;
  total_describe t : (describe net t).2 ≠ Panic;
  total_load_rounds (log : Pg) : load_rounds log ≠ Panic;
  total_load_client_rounds (log : Pg) : load_client_rounds log ≠ Panic;
  total_read path : fs_read sys path ≠ Panic;
  total_pem pem : from_ec_pem pem ≠ Panic;
  total_bind addr : bind_addr addr ≠ Panic;
  total_local_addr l : local_addr l ≠ Panic;
  total_accept tls : accept_tls tls ≠ Panic;
  total_try_into p v : try_into p v ≠ Panic;
  total_quorum v : quorum_try_into v ≠ Panic;
  total_toml text : toml_from_str text ≠ Panic;
}.

Context (Hreg : registry ≡ₚ shipped_entries).

Definition names_known (c : ResolvedConfig) : Prop :=
  getv c P_aggregator ∈ built_names ∧ getv c P_selector = "uniform_random"%string ∧
  getv c P_privacy_mechanism = "gaussian_clipping"%string.

(** With known names every [expect] of [assemble] holds. *)
Lemma assemble_named_ok c reg store nal acc log :
  names_known c →
  ∃ m (s : AppState), build_aggregator ln powf sort_unordered (getv c P_aggregator) (aggregator_params c) = Ok m ∧
    assemble_named c reg store nal acc log = Ok s ∧
    st_aggregator s = m ∧ st_config s = c ∧ st_registry s = reg ∧ st_store s = store ∧
    st_accountant_log s = log ∧ st_round s = 1 ∧ st_trusted_reference s = None ∧
    st_privacy s = {| clip_norm := getv c P_clip_norm; noise_multiplier := getv c P_noise_multiplier |}.
Proof.
  intros (Ha & Hs & Hm).
  destruct (build_cases ln powf sort_unordered (getv c P_aggregator) (aggregator_params c)) as [(_ & m & Hb)|(Hn & _)];
    [|done].
  unfold Startup.assemble_named. rewrite Hb. unfold assemble, build_selector, build_privacy_mechanism.
  rewrite !decide_True by done. eexists m, _. split; [done|]. split; [reflexivity|]. done.
Qed.

Lemma connect_no_panic (O : outside_total) c mode ws backends : names_known c → connect c mode ws backends ≠ Panic.
Proof.
  intros Hn. unfold Startup.connect, validate_production_backends, connect_accounting.
  no_panic; try (by apply O).
  all: match goal with H : Startup.assemble_named _ _ _ ?c ?r ?st ?n ?a ?l = _ |- _ =>
         destruct (assemble_named_ok c r st n a l Hn) as (? & ? & _ & He & _) end; congruence.
Qed.

Lemma validated_names c : errors (validated registry c) = [] → startable c ∧ names_known c.
Proof. by apply validated_clean. Qed.

Lemma read_path_no_panic (O : outside_total) var : read_path sys var ≠ Panic.
Proof. unfold read_path. no_panic. by apply O. Qed.

Lemma prepare_material_no_panic (O : outside_total) c mode :
  prepare_material registry show_jwt sys build_tls c mode ≠ Panic.
Proof.
  pose proof (read_path_no_panic O) as Hr.
  unfold prepare_material, tls_material_from_vars, jwt_key_from_env, resolve_server_tls, validate_jwt_startup,
    from_public_key_pem.
  no_panic; first [apply Hr | exfalso; by eapply (total_pem O)].
Qed.

(** What the material was accepted on. *)
Lemma prepare_material_ok c mode tls key :
  prepare_material registry show_jwt sys build_tls c mode = Ok (tls, key) →
  errors (validated registry c) = [] ∧
  (mode = Production → (getv c P_auth = Mtls → is_Some tls) ∧ (getv c P_auth = Jwt → is_Some key)).
Proof.
  unfold prepare_material. destruct (errors (validated registry c)); [|done].
  intros (m & _ & H)%bind_ok_inv. apply bind_ok_inv in H as (t & Ht%map_err_ok & H).
  apply bind_ok_inv in H as (k & _ & H). apply bind_ok_inv in H as ([] & Hj%map_err_ok & H).
  injection H as -> ->. split; [done|]. intros ->. unfold resolve_server_tls, validate_jwt_startup in *. split.
  - intros Ha. rewrite decide_True in Ht by done. destruct m; [|done]. injection Ht as <-. by eexists.
  - intros Ha. rewrite Ha in Hj. destruct key; [by eexists|done].
Qed.

Lemma connect_trusted_reference_no_panic (O : outside_total) (s : AppState) dim :
  connect_trusted_reference sys net s dim ≠ Panic.
Proof.
  unfold connect_trusted_reference. destruct (trusted_reference_addr sys) as [addr|]; [|done].
  apply bind_no_panic; [by apply map_err_no_panic, O|]. intros t _. pose proof (total_describe O t) as Hd.
  destruct (describe net t) as [t' reply]. no_panic.
Qed.

Lemma backend_selection_no_panic : backend_selection_from_vars sys ≠ Panic.
Proof. unfold backend_selection_from_vars, require. no_panic. Qed.

Lemma prepare_state_no_panic (O : outside_total) sc key :
  names_known (resolved sc) → 4 * initial_weights_dim sc ≤ ISIZE_MAX →
  prepare_state (N:=N) ln powf sort_unordered entry_order sys net sc key ≠ Panic.
Proof.
  intros Hn Hdim. apply bind_no_panic; [unfold zeroed_weights; by rewrite (proj2 (Z.leb_le _ _) Hdim)|]. intros ws _.
  apply bind_no_panic; [apply map_err_no_panic, backend_selection_no_panic|]. intros backends _.
  apply bind_no_panic; [by apply map_err_no_panic, connect_no_panic|]. intros s _. cbv zeta.
  case_match; [by apply connect_trusted_reference_no_panic|done].
Qed.

Lemma start_no_panic (O : outside_total) listeners sc :
  4 * initial_weights_dim sc ≤ ISIZE_MAX → start listeners sc ≠ Panic.
Proof.
  intros Hdim. unfold Startup.start. apply bind_no_panic; [by apply prepare_material_no_panic|].
  intros [tls key] [Hv _]%prepare_material_ok. apply validated_names in Hv as [_ Hn].
  apply bind_no_panic; [by apply prepare_state_no_panic|]. intros state _.
  unfold prepare_listeners, parse_env, bind, validate_admin_binding. no_panic; by apply O.
Qed.

Lemma start_huge (O : outside_total) listeners sc :
  ISIZE_MAX < 4 * initial_weights_dim sc →
  start listeners sc = Panic ↔ is_ok (prepare_material registry show_jwt sys build_tls (resolved sc) (sc_mode sc)) = true.
Proof.
  intros Hdim. unfold Startup.start.
  pose proof (prepare_material_no_panic O (resolved sc) (sc_mode sc)) as Hp.
  destruct (prepare_material registry show_jwt sys build_tls (resolved sc) (sc_mode sc)) as [[tls key]|e|]; cbn; [|done..].
  unfold prepare_state, zeroed_weights. by rewrite (proj2 (Z.leb_gt _ _) Hdim).
Qed.

Lemma from_env_no_panic (O : outside_total) :
  from_env sys quorum_try_into unknown_field read_to_string toml_from_str profiles_in ≠ Panic.
Proof.
  assert (Hd : ∀ entries o, deserialize quorum_try_into unknown_field entries o ≠ Panic).
  { intros entries. induction entries as [|[k v] entries IH]; intros o; cbn [deserialize]; [done|].
    no_panic; by apply O. }
  assert (Htop : ∀ dir name, topology_profile_named dir name ≠ Panic).
  { intros dir [name|]; simpl; [|done]. case_match; [done|]. by apply load_topology_profile_no_panic, O. }
  assert (Hmode : ∀ dir name, mode_profile_named dir name ≠ Panic).
  { intros dir [name|]; simpl; [|done]. case_match; [done|]. by apply load_mode_profile_no_panic, O. }
  apply bind_no_panic; [by apply map_err_no_panic, Htop|]. intros tp _.
  apply bind_no_panic; [by apply map_err_no_panic, Hmode|]. intros mp _.
  apply bind_no_panic.
  { unfold load_experiment_file, parse_experiment_toml. no_panic. by apply O. }
  intros file _. apply bind_no_panic; [by apply map_err_no_panic, overrides_no_panic|]. intros env _.
  unfold parse_env. no_panic.
Qed.

(** C9: starting panics on nothing but a model too large to address.  Whatever the
    environment, the files, the profiles and the backends say, a server whose initial
    weights fit the address space either is ready to serve or has an error to report: no
    name that survives validation can reach the [expect]s of [assemble].  One whose
    weights do not, and whose configuration, keys and certificates are accepted, panics. *)
Theorem startup_never_panics (listeners : option (Listener * Listener)) (sc : ServerConfig) :
  outside_total →
  (4 * initial_weights_dim sc ≤ ISIZE_MAX → start listeners sc ≠ Panic) ∧
  (ISIZE_MAX < 4 * initial_weights_dim sc →
     (start listeners sc = Panic ↔ is_ok (prepare_material registry show_jwt sys build_tls (resolved sc) (sc_mode sc)) = true)) ∧
  (match from_env sys quorum_try_into unknown_field read_to_string toml_from_str profiles_in with
   | Ok sc => 4 * initial_weights_dim sc ≤ ISIZE_MAX
   | _ => True
   end → run_from_env ≠ Panic).
Proof.
  intros O. split; [by apply start_no_panic|]. split; [by apply start_huge|]. unfold Startup.run_from_env.
  intros Hdim. apply bind_no_panic; [by apply from_env_no_panic|]. intros sc' Hsc. rewrite Hsc in Hdim.
  by apply start_no_panic.
Qed.

(** ** What a started server is *)

(** The state [assemble] made, up to what [serve] attaches to it. *)
Definition assembled (c : ResolvedConfig) (s : AppState) : Prop :=
  st_config s = c ∧ st_round s = 1 ∧
  build_aggregator ln powf sort_unordered (getv c P_aggregator) (aggregator_params c) = Ok (st_aggregator s) ∧
  st_privacy s = {| clip_norm := getv c P_clip_norm; noise_multiplier := getv c P_noise_multiplier |}.

(** Nothing of it would be lost with the process. *)
Definition durable (s : AppState) : Prop :=
  (∃ r, st_registry s = AnyRegistry_Redis r) ∧ (∀ m, st_store s ≠ AnyStore_InMemory m) ∧
  is_Some (st_accountant_log s).

Definition asks_sidecar (s : AppState) : bool :=
  requires_trusted_reference (st_aggregator s) || requires_candidate_scores (st_aggregator s).

Lemma connect_ok c mode ws backends s :
  names_known c → connect c mode ws backends = Ok s →
  assembled c s ∧ st_trusted_reference s = None ∧ (mode = Production → durable s).
Proof.
  intros Hn. unfold Startup.connect. intros ([] & Hp%map_err_ok & H)%bind_ok_inv.
  apply bind_ok_inv in H as (nal & _ & H). apply bind_ok_inv in H as (reg & Hreg' & H).
  apply bind_ok_inv in H as (store & Hstore & H). apply bind_ok_inv in H as ([acc log] & Hacc & H). cbn [fst snd] in H.
  destruct (assemble_named_ok c reg store nal acc log Hn)
    as (m & s' & Hb & Ha & Hm & Hc & Hre & Hst & Hlog & Hr & Ht & Hpr).
  rewrite Ha in H. injection H as <-. split; [by rewrite <-Hm in Hb|]. split; [done|]. intros ->.
  unfold durable. rewrite Hre, Hst, Hlog. unfold validate_production_backends in Hp.
  destruct backends as [[|url] sb ab]; [done|]. cbn in *. split; [|split].
  - apply map_err_ok in Hreg'. destruct (redis_registry net url); [|done..]. injection Hreg' as <-. by eexists.
  - destruct sb; [done|..]; apply map_err_ok in Hstore.
    + destruct (postgres net _ _); [|done..]. by injection Hstore as <-.
    + destruct (s3 net _ _ _ _); [|done..]. by injection Hstore as <-.
  - destruct sb, ab as [|aurl]; try done; apply map_err_ok in Hacc; unfold connect_accounting in Hacc;
      repeat (apply bind_ok_inv in Hacc as (? & _ & Hacc)); injection Hacc as _ <-; by eexists.
Qed.

(** A sidecar is connected when it can do what the method needs and serves a model of
    the experiment's size, or does not say. *)
Lemma connect_trusted_reference_ok (s s' : AppState) dim :
  connect_trusted_reference sys net s dim = Ok s' →
  ∃ addr t0 t capabilities, sidecar net addr = Ok t0 ∧ describe net t0 = (t, Ok capabilities) ∧
    s' = with_trusted_reference t s ∧
    (requires_trusted_reference (st_aggregator s) = true → supports_reference_update capabilities = true) ∧
    (requires_candidate_scores (st_aggregator s) = true → supports_scoring capabilities = true) ∧
    (∀ d, model_dim capabilities = Some d → d = dim).
Proof.
  unfold connect_trusted_reference. destruct (trusted_reference_addr sys) as [addr|]; [|done].
  intros (t0 & Ht%map_err_ok & H)%bind_ok_inv. destruct (describe net t0) as [t reply] eqn:Hd.
  apply bind_ok_inv in H as (cap & Hcap%map_err_ok & H). subst reply.
  destruct (requires_trusted_reference _), (supports_reference_update cap) eqn:Href; try done; cbn [andb negb] in H;
    destruct (requires_candidate_scores _), (supports_scoring cap) eqn:Hsc; try done; cbn [andb negb] in H;
    (destruct (model_dim cap) as [d|] eqn:Hm; [destruct (Z.eqb_spec d dim); [|done]|]);
    injection H as <-; exists addr, t0, t, cap; rewrite ?Hm; split_and!; try done; intros; congruence.
Qed.

Lemma prepare_state_ok sc key s :
  names_known (resolved sc) →
  prepare_state (N:=N) ln powf sort_unordered entry_order sys net sc key = Ok s →
  assembled (resolved sc) s ∧ st_jwt_key s = key ∧ (sc_mode sc = Production → durable s) ∧
  (is_Some (st_trusted_reference s) ↔ asks_sidecar s = true).
Proof.
  intros Hn. unfold prepare_state. intros (ws & _ & H)%bind_ok_inv.
  apply bind_ok_inv in H as (backends & _ & H).
  apply bind_ok_inv in H as (s0 & Hc%map_err_ok & H). apply (connect_ok _ _ _ _ _ Hn) in Hc as (Ha & Ht & Hd).
  cbv zeta in H. fold (asks_sidecar (with_jwt_key key s0)) in H.
  assert (Hattach : ∀ t : T, assembled (resolved sc) (with_trusted_reference t (with_jwt_key key s0)) ∧
    (sc_mode sc = Production → durable (with_trusted_reference t (with_jwt_key key s0)))) by (by destruct s0).
  destruct (asks_sidecar (with_jwt_key key s0)) eqn:Hask.
  - apply connect_trusted_reference_ok in H as (_ & _ & t & _ & _ & _ & -> & _). destruct (Hattach t) as [Ha' Hd'].
    split; [done|]. split; [by destruct s0|]. split; [done|].
    replace (asks_sidecar (with_trusted_reference t (with_jwt_key key s0))) with true by (by destruct s0).
    split; [done|]. intros _. exists t. by destruct s0.
  - injection H as <-. rewrite Hask. destruct s0. cbn in *. subst. split; [done|]. split; [done|]. split; [done|].
    split; [by intros []|done].
Qed.

Lemma start_ok listeners sc st :
  start listeners sc = Ok st →
  startable (resolved sc) ∧ names_known (resolved sc) ∧ assembled (resolved sc) (started_state st) ∧
  (sc_mode sc = Production → durable (started_state st) ∧
     (getv (resolved sc) P_auth = Mtls → is_Some (started_tls st)) ∧
     (getv (resolved sc) P_auth = Jwt → is_Some (st_jwt_key (started_state st)))) ∧
  (is_Some (st_trusted_reference (started_state st)) ↔ asks_sidecar (started_state st) = true) ∧
  validate_admin_binding (started_http_addr st) (started_admin_token st) = Ok ().
Proof.
  unfold Startup.start. intros ([tls key] & [Hv Hauth]%prepare_material_ok & H)%bind_ok_inv.
  apply validated_names in Hv as [Hs Hn]. apply bind_ok_inv in H as (s & Hst & H).
  destruct (prepare_state_ok _ _ _ Hn Hst) as (Ha & Hk & Hd & Ht).
  apply bind_ok_inv in H as ([grpc http] & _ & H). apply bind_ok_inv in H as (? & _ & H).
  apply bind_ok_inv in H as (http_addr & _ & H). cbv zeta in H.
  apply bind_ok_inv in H as ([] & Hadm%map_err_ok & H). apply bind_ok_inv in H as ([] & _ & H).
  injection H as <-. cbn. split_and!; try done; try apply Ht. intros Hm. rewrite Hk. split; [by apply Hd|by apply Hauth].
Qed.

(** C8: what a server that has started is.  Its configuration is one validation
    accepts and its method is the one configured; in production its clients, model and
    privacy ledger outlive the process and the authentication the configuration names
    has what it needs; its admin port is on loopback or behind a token; and it holds a
    sidecar connection exactly when its method needs one. *)
Theorem started_server_is_guarded (listeners : option (Listener * Listener)) (sc : ServerConfig) (st : Started) :
  start listeners sc = Ok st →
  startable (resolved sc) ∧ assembled (resolved sc) (started_state st) ∧
  (sc_mode sc = Production → durable (started_state st) ∧
     (getv (resolved sc) P_auth = Mtls → is_Some (started_tls st)) ∧
     (getv (resolved sc) P_auth = Jwt → is_Some (st_jwt_key (started_state st)))) ∧
  (is_loopback (ip (started_http_addr st)) = true ∨ is_Some (started_admin_token st)) ∧
  (is_Some (st_trusted_reference (started_state st)) ↔ asks_sidecar (started_state st) = true).
Proof.
  intros (Hs & _ & Ha & Hp & Ht & Hadm)%start_ok. split_and!; try done; try apply Ht.
  unfold validate_admin_binding in Hadm.
  destruct (started_admin_token st) as [t|]; [right; by eexists|left].
  by destruct (is_loopback (ip (started_http_addr st))).
Qed.

(** ** What becomes of it *)

Context `{Smp : Sampler} `{Gs : Gaussian} {GL : GaussianLaws Gs} `{Sc : Sidecar T}.
Context {bound : Z} {SLp : StoreLawsBelow bound Pg} {SLs : StoreLawsBelow bound S3} {BT : BackendsTotal (R:=AnyRegistry Rd) (L:=Pg) (T:=T)}.
Context (ln64 exp64 : f64 → f64) (value_order : list (f64 * f64 * Z) → list (f64 * f64 * Z)).
Context (show_error : ServerError → string).

(** C3: a server that starts keeps running.  Unless its noise overflows or its configured
    round timeout does when added to the machine's clock, and with any method but the three
    that are known to be able to panic, its round loop never dies: over as many rounds as
    a [u64] numbers, whatever the clients send and the backends and the sidecar answer, it
    goes on, backs off, or exits with a reason. *)
Theorem started_server_never_dies (listeners : option (Listener * Listener)) (sc : ServerConfig) (st : Started)
    (its : list iteration) :
  start listeners sc = Ok st →
  sf_is_finite (std_dev {| clip_norm := getv (resolved sc) P_clip_norm;
                           noise_multiplier := getv (resolved sc) P_noise_multiplier |}) = true →
  getv (resolved sc) P_aggregator ∉ ["faba"; "divide_and_conquer"; "flanders"]%string →
  Forall (λ it, amb_instant (it_amb it) + duration_from_secs (getv (resolved sc) P_round_timeout_secs) ≤ INSTANT_MAX) its →
  Z.of_nat (length its) < u64_max →
  Forall (λ it, ∀ s, handlers_ran (it_amb it) s (it_await it s).1 (it_await it s).2) its →
  (round_loop ln64 exp64 value_order show_error its (started_state st)).2 ≠ Died.
Proof.
  intros (Hs & Hn & (Hc & Hrd & Hb & Hp) & _)%start_ok Hfin Hname Hclock Hlen Hran.
  apply (round_loop_survives (AL:=Boxed_laws) (BT:=BT) ln64 exp64 value_order show_error meets_contract its _ Hran).
  { eapply Forall_impl; [exact Hclock|]. intros it. unfold clock_fits, round_timeout. by rewrite Hc. }
  { rewrite Hrd. lia. }
  split.
  - rewrite Hp. unfold noise_ok. rewrite (normal_new_finite _ Hfin). by rewrite orb_true_r.
  - eapply build_meets_contract; [exact Hb| |exact Hname]. intros Htau.
    apply f32_finite_not_nan. by apply (ok_tau _ Hs).
Qed.
End properties.
