(* ===== verification/Serve.v ===== *)
(** * A server that serves, and how it stops ([conflux-server/src/serve.rs], [serve])

    What [Startup.start] has prepared runs as three tasks, the two listeners and the round
    loop of [RoundLoop], with one latch between them.  Once it is set the listeners finish
    what they are serving and the loop the round it is in; [serve] returns when the last
    of the three has ended, with the first error in their order.

    Tasks interleave freely.  The server's own steps are told from those of its
    surroundings: the request to stop, a listener that fails, calls that are opened,
    handled and closed.  tonic and axum end a listener that was told to stop when the last
    call it serves is over, and a call can be a stream that its client keeps open. *)

From S2P Require Import Prelude Float Wire Buffer Weights Averaging Contracts Registry Reputation Privacy Store Config State Round RoundLoop Submission Dispatcher Validate Profile Environment Experiment Admin Startup.

Open Scope Z_scope.

(** The task of a listener, with the calls it has open; its result is the library's,
    [Panic] a task that panicked. *)
Inductive listener_task : Type :=
  | Listening (open : nat)
  | Draining (open : nat)
  | ListenerEnded (r : outcome string ()).

(** The task of the round loop. *)
Inductive loop_task : Type :=
  | BetweenRounds
  | InRound
  | BackingOff
  | LoopEnded
  | LoopPanicked.

Section serve.
Context `{N : Notify} `{Smp : Sampler} `{Gs : Gaussian}.
Context {R S A G L T K : Type}.
Context `{CR : ClientRegistry R} `{St : Store S} `{Ag : Aggregator G} `{Lg : PrivacyRoundLog L} `{Sc : Sidecar T}.
Context (ln exp : f64 → f64) (value_order : list (f64 * f64 * Z) → list (f64 * f64 * Z)).
Context (to_string : ServerError → string) (panicked : string).
(** The last instant of the monotonic clock in the life of the server. *)
Context (latest : Z).

Notation AppState := (AppState N R S A G L T K).

Record Serving := {
  sv_latch : bool;
  sv_grpc : listener_task;
  sv_http : listener_task;
  sv_loop : loop_task;
  sv_state : AppState;
}.

Definition serving (state : AppState) : Serving :=
  {| sv_latch := false; sv_grpc := Listening 0; sv_http := Listening 0; sv_loop := BetweenRounds; sv_state := state |}.

Definition with_grpc (l : listener_task) (self : Serving) : Serving :=
  {| sv_latch := sv_latch self; sv_grpc := l; sv_http := sv_http self; sv_loop := sv_loop self; sv_state := sv_state self |}.
Definition with_http (l : listener_task) (self : Serving) : Serving :=
  {| sv_latch := sv_latch self; sv_grpc := sv_grpc self; sv_http := l; sv_loop := sv_loop self; sv_state := sv_state self |}.
Definition with_loop (l : loop_task) (s : AppState) (self : Serving) : Serving :=
  {| sv_latch := sv_latch self; sv_grpc := sv_grpc self; sv_http := sv_http self; sv_loop := l; sv_state := s |}.
Definition request_shutdown (self : Serving) : Serving :=
  {| sv_latch := true; sv_grpc := sv_grpc self; sv_http := sv_http self; sv_loop := sv_loop self; sv_state := sv_state self |}.

(** A listener's own moves: it hears of the latch, and it has drained. *)
Inductive listener_step (latch : bool) : listener_task → listener_task → Prop :=
  | listener_told open : latch = true → listener_step latch (Listening open) (Draining open)
  | listener_drained : listener_step latch (Draining 0) (ListenerEnded (Ok ())).

(** Its clients' moves: a call is accepted while it listens, and is over at any time. *)
Inductive calls_step : listener_task → listener_task → Prop :=
  | call_accepted open : calls_step (Listening open) (Listening (Datatypes.S open))
  | call_over open : calls_step (Listening (Datatypes.S open)) (Listening open)
  | last_call_over open : calls_step (Draining (Datatypes.S open)) (Draining open).

(** Where the loop is after a pass of [round_loop_step]. *)
Definition loop_after (out : loop_outcome) : loop_task :=
  match out with
  | Continue delay => if delay =? 0 then BetweenRounds else BackingOff
  | Exit => LoopEnded
  | Died => LoopPanicked
  end.

(** The loop's moves: the latch is looked at between rounds, never during one, and a pause
    ends by the clock or by the latch. *)
Inductive loop_step (latch : bool) (s : AppState) : loop_task → loop_task → AppState → Prop :=
  | loop_stops amb await s' :
      latch = true → round_loop_step ln exp value_order to_string amb await true s = (s', Exit) →
      loop_step latch s BetweenRounds LoopEnded s'
  | loop_begins : latch = false → loop_step latch s BetweenRounds InRound s
  | loop_round amb await s' out :
      amb_instant amb ≤ latest → (∀ s, handlers_ran amb s (await s).1 (await s).2) →
      round_loop_step ln exp value_order to_string amb await false s = (s', out) →
      loop_step latch s InRound (loop_after out) s'
  | loop_wakes : loop_step latch s BackingOff BetweenRounds s.

Inductive own_step (self : Serving) : Serving → Prop :=
  | grpc_steps l : listener_step (sv_latch self) (sv_grpc self) l → own_step self (with_grpc l self)
  | http_steps l : listener_step (sv_latch self) (sv_http self) l → own_step self (with_http l self)
  | loop_steps l s : loop_step (sv_latch self) (sv_state self) (sv_loop self) l s → own_step self (with_loop l s self).

Definition failure (r : outcome string ()) : Prop := ∀ u, r ≠ Ok u.

Definition is_up (l : listener_task) : Prop := ∀ r, l ≠ ListenerEnded r.

(** A listener fails while it is up; what a handler does to the state of a server between
    two of its rounds is what [handlers_ran] says of one during a round. *)
Inductive world_step (self : Serving) : Serving → Prop :=
  | shutdown_requested : world_step self (request_shutdown self)
  | grpc_calls l : calls_step (sv_grpc self) l → world_step self (with_grpc l self)
  | http_calls l : calls_step (sv_http self) l → world_step self (with_http l self)
  | grpc_fails r : is_up (sv_grpc self) → failure r →
      world_step self (with_grpc (ListenerEnded r) self)
  | http_fails r : is_up (sv_http self) → failure r →
      world_step self (with_http (ListenerEnded r) self)
  | call_handled re al b :
      world_step self (with_loop (sv_loop self)
        (set_registry re (set_node_allowlist al (set_current_buffer b (sv_state self)))) self).

(** A run of the server with as many steps of its own. *)
Inductive runs : nat → Serving → Serving → Prop :=
  | runs_none self : runs 0 self self
  | runs_own n a b c : own_step a b → runs n b c → runs (Datatypes.S n) a c
  | runs_world n a b c : world_step a b → runs n b c → runs n a c.

(** As many steps of its own, and nothing else. *)
Inductive own_run : nat → Serving → Serving → Prop :=
  | own_none self : own_run 0 self self
  | own_more n a b c : own_step a b → own_run n b c → own_run (Datatypes.S n) a c.

(** [tokio::join!] and the three [?]s after it. *)
Definition serve_result (self : Serving) : option (outcome ServeError ()) :=
  match sv_grpc self, sv_http self, sv_loop self with
  | ListenerEnded grpc, ListenerEnded http, (LoopEnded | LoopPanicked) as rounds =>
      Some match grpc with
           | Panic => Err (ServeTask panicked)
           | Err source => Err (ServeGrpc source)
           | Ok () =>
               match http with
               | Panic => Err (ServeTask panicked)
               | Err source => Err (ServeHttp source)
               | Ok () => match rounds with LoopPanicked => Err (ServeTask panicked) | _ => Ok () end
               end
           end
  | _, _, _ => None
  end.

(** ** Facts *)

(** How many steps of its own the server has left once the latch is set. *)
Definition listener_left (l : listener_task) : nat :=
  match l with Listening _ => 2 | Draining _ => 1 | ListenerEnded _ => 0 end.
Definition loop_left (l : loop_task) : nat :=
  match l with InRound => 3 | BackingOff => 2 | BetweenRounds => 1 | LoopEnded | LoopPanicked => 0 end.
Definition steps_left (self : Serving) : nat :=
  listener_left (sv_grpc self) + listener_left (sv_http self) + loop_left (sv_loop self).

Lemma own_step_latched self self' :
  sv_latch self = true → own_step self self' →
  sv_latch self' = true ∧ (steps_left self' < steps_left self)%nat ∧ sv_loop self' ≠ InRound ∨
  sv_latch self' = true ∧ (steps_left self' < steps_left self)%nat ∧
    sv_loop self' = sv_loop self ∧ sv_state self' = sv_state self.
Proof.
  intros Hl Hs. unfold steps_left. destruct self as [latch grpc http loop st]. destruct Hs as [l Hs|l Hs|l s Hs]; cbn in *.
  - right. split; [done|]. split; [|done]. destruct Hs; cbn; lia.
  - right. split; [done|]. split; [|done]. destruct Hs; cbn; lia.
  - left. split; [done|]. subst latch. destruct Hs as [amb await s' _ _|Hx|amb await s' out _ _ _|]; cbn; try done; [split; [lia|done]| |split; [lia|done]].
    destruct out as [d| |]; cbn; [destruct (d =? 0); cbn|..]; (split; [lia|done]).
Qed.

Lemma world_step_latched self self' :
  world_step self self' →
  (sv_latch self = true → sv_latch self' = true) ∧ (steps_left self' ≤ steps_left self)%nat ∧
  sv_loop self' = sv_loop self ∧ st_health (sv_state self') = st_health (sv_state self).
Proof.
  unfold steps_left. destruct 1 as [|l Hs|l Hs|r Hu _|r Hu _|re al b]; cbn; split_and!; try done; try lia.
  1,2: destruct Hs; cbn; lia.
  by destruct (sv_state self).
Qed.

Lemma latched_run n self self' :
  runs n self self' → sv_latch self = true → sv_latch self' = true ∧ (n + steps_left self' ≤ steps_left self)%nat.
Proof.
  induction 1 as [self|n a b c Hs _ IH|n a b c Hs _ IH]; intros Hl; [done| |].
  - assert (Hb : sv_latch b = true ∧ (steps_left b < steps_left a)%nat)
      by (destruct (own_step_latched _ _ Hl Hs) as [(?&?&?)|(?&?&?)]; done).
    destruct Hb as [Hb Hlt]. destruct (IH Hb). split; [done|lia].
  - destruct (world_step_latched _ _ Hs) as (Hb & Hle & _). destruct (IH (Hb Hl)). split; [done|lia].
Qed.

Lemma steps_left_result self : steps_left self = 0%nat ↔ is_Some (serve_result self).
Proof.
  unfold steps_left, serve_result. destruct self as [latch grpc http loop s]. cbn. split.
  - destruct grpc, http, loop; cbn; try lia; by eexists.
  - destruct grpc as [go|go|gr], http as [ho|ho|hr], loop; cbn; try done; by intros [? ?].
Qed.

(** A latched server that has not returned can move, or waits for calls. *)
Lemma latched_progress amb (await : AppState → AppState * FlushResult) self :
  amb_instant amb ≤ latest → (∀ s, handlers_ran amb s (await s).1 (await s).2) →
  sv_latch self = true → serve_result self = None →
  (∃ next, own_step self next) ∨
  ∃ open, sv_grpc self = Draining (Datatypes.S open) ∨ sv_http self = Draining (Datatypes.S open).
Proof.
  intros Hlate Hran Hl Hnone. destruct self as [latch grpc http loop st]. cbn in Hl. subst latch. cbn.
  destruct grpc as [go|[|go]|gr]; [left; eexists; apply grpc_steps; by constructor..|right; exists go; by left|].
  destruct http as [ho|[|ho]|hr]; [left; eexists; apply http_steps; by constructor..|right; exists ho; by right|].
  left. destruct loop; [..|by destruct gr as [[]|?|], hr as [[]|?|]|by destruct gr as [[]|?|], hr as [[]|?|]].
  - eexists. by apply loop_steps, (loop_stops _ _ amb await).
  - destruct (round_loop_step ln exp value_order to_string amb await false st) as [st' out] eqn:Hs.
    eexists. apply loop_steps. by eapply loop_round.
  - eexists. apply loop_steps, loop_wakes.
Qed.

(** Every error it returns but that of a lost loop is a listener's. *)
Lemma result_is_listeners self e :
  sv_loop self ≠ LoopPanicked → serve_result self = Some (Err e) →
  ∃ r, failure r ∧ (sv_grpc self = ListenerEnded r ∨ sv_http self = ListenerEnded r).
Proof.
  intros Hp He. unfold serve_result in He.
  destruct (sv_grpc self) as [go|go|[[]|src|]], (sv_http self) as [ho|ho|[[]|src'|]], (sv_loop self); try done;
    try (by exists Panic; split; [|left]); try (by eexists (Err _); split; [|left]);
    try (by exists Panic; split; [|right]); by eexists (Err _); split; [|right].
Qed.

Context {bound : Z} {SL : StoreLawsBelow bound S} (I : G → Prop) {AL : AggregatorLawsOn G Ag I} {BT : BackendsTotal (R:=R) (L:=L) (T:=T)}.

(** What every run of a server with this configuration that starts fit for rounds keeps;
    [round] bounds the counter. *)
Record serving_ok (c : ResolvedConfig) (round : Z) (self : Serving) : Prop := {
  ok_config : st_config (sv_state self) = c;
  ok_round : st_round (sv_state self) ≤ round;
  ok_ready : round_ready I (sv_state self);
  ok_loop : sv_loop self ≠ LoopPanicked;
  ok_health : sv_loop self = LoopEnded → is_healthy (health_state (st_health (sv_state self))) = false;
}.

(** The last wait of the server fits the clock too. *)
Definition timeout_fits (c : ResolvedConfig) : Prop :=
  latest + duration_from_secs (getv c P_round_timeout_secs) ≤ INSTANT_MAX.

Lemma round_ready_health h (s : AppState) : round_ready I s → round_ready I (set_health h s).
Proof. by destruct s. Qed.

Lemma exit_is_unhealthy amb (await : AppState → AppState * FlushResult) shutdown s s' :
  round_loop_step ln exp value_order to_string amb await shutdown s = (s', Exit) →
  is_healthy (health_state (st_health s')) = false.
Proof.
  assert (Hset : ∀ h (x : AppState), st_health (set_health h x) = h) by (by intros h []).
  unfold round_loop_step. destruct shutdown; [intros [= <-]; by rewrite Hset|].
  destruct (run_round _ _ _ amb await s) as [s1 [summary|e|]]; [done| |done].
  destruct (is_transient e); [by destruct (record_transient_failure _ _)|]. intros [= <-]. by rewrite Hset.
Qed.

Lemma loop_step_ok latch s l l' s' :
  loop_step latch s l l' s' → round_ready I s → timeout_fits (st_config s) → st_round s < u64_max →
  round_ready I s' ∧ l' ≠ LoopPanicked ∧ (l' = LoopEnded → is_healthy (health_state (st_health s')) = false) ∧
  st_config s' = st_config s ∧ st_round s' ≤ st_round s + 1.
Proof.
  assert (Hset : ∀ h (x : AppState), st_config (set_health h x) = st_config x ∧ st_round (set_health h x) = st_round x)
    by (by intros h []).
  destruct 1 as [amb await s' _ Hs|_|amb await s' out Hlate Hran Hs|]; intros Hr Hfit Hmax; [|by split_and!; try lia| |by split_and!; try lia].
  - pose proof (exit_is_unhealthy _ _ _ _ _ Hs) as Hh. injection Hs as <-.
    destruct (Hset (record_stopped None (st_health s)) s) as [-> ->].
    split_and!; [by apply round_ready_health|done|done|done|lia].
  - assert (Hclock : clock_fits amb s) by (unfold clock_fits, round_timeout, timeout_fits in *; lia).
    destruct (round_loop_step_ready ln exp value_order to_string I amb await false s Hran Hclock Hmax Hr) as [Hd Hr'].
    destruct (round_loop_step_frame ln exp value_order to_string amb await false s Hran) as [Hc Hn].
    rewrite Hs in Hd, Hr', Hc, Hn. cbn in Hd, Hr', Hc, Hn. split_and!; [done| | |done|lia].
    + destruct out as [d| |]; cbn; [by destruct (d =? 0)|done|done].
    + destruct out as [d| |]; cbn; [by destruct (d =? 0)| |done]. intros _. exact (exit_is_unhealthy _ _ _ _ _ Hs).
Qed.

Lemma serving_ok_run n self self' c round :
  runs n self self' → timeout_fits c → round + Z.of_nat n ≤ u64_max →
  serving_ok c round self → serving_ok c (round + Z.of_nat n) self'.
Proof.
  intros Hrun Hfit. revert round. induction Hrun as [self|n a b d Hs _ IH|n a b d Hs _ IH]; intros round Hmax Ha.
  - by rewrite Z.add_0_r.
  - replace (round + Z.of_nat (Datatypes.S n)) with ((round + 1) + Z.of_nat n) by lia. apply IH; [lia|].
    destruct Ha as [Hc Hrd Hr Hp Hh]. destruct Hs as [l _|l _|l s Hs]; [by split; cbn; try lia..|].
    destruct (loop_step_ok _ _ _ _ _ Hs Hr ltac:(by rewrite Hc) ltac:(lia)) as (? & ? & ? & Hc' & Hrd').
    split; cbn; [by rewrite Hc'|lia|done..].
  - apply IH; [done|]. destruct Ha as [Hc Hrd Hr Hp Hh]. destruct Hs as [|l _|l _|r _ _|r _ _|re al b']; try by split.
    destruct a as [? ? ? ? []]. by split.
Qed.

(** C37: A server stops when it is asked to, and not before it has finished.  However its
    tasks, the calls it serves and the failures of its listeners interleave, as long as the
    configured round timeout fits the machine's clock and rounds are fewer than a [u64]
    counts: a server that started fit for rounds never loses its loop to a panic, and
    [/health] is unhealthy whenever the loop has ended; once the latch is set no round
    begins, one that runs ends as a round does, and as long as [serve] has not returned
    some task has a step to take, of which there are seven at most, or a listener that was
    told to stop waits for calls that its clients have not ended; and what it returns is
    [Ok] unless a listener failed. *)
Theorem shutdown_is_graceful (s : AppState) (n m : nat) (self self' : Serving) :
  round_ready I s → timeout_fits (st_config s) → st_round s + Z.of_nat n ≤ u64_max → runs n (serving s) self →
  sv_loop self ≠ LoopPanicked ∧
  (sv_loop self = LoopEnded → is_healthy (health_state (st_health (sv_state self))) = false) ∧
  (sv_latch self = true → runs m self self' →
     (m ≤ 7)%nat ∧ sv_latch self' = true ∧
     (∀ next, own_step self' next → sv_loop next = InRound → sv_loop self' = InRound ∧ sv_state next = sv_state self') ∧
     (∀ (amb : Ambient) (await : AppState → AppState * FlushResult),
        amb_instant amb ≤ latest → (∀ s, handlers_ran amb s (await s).1 (await s).2) →
        serve_result self' = None →
        (∃ next, own_step self' next) ∨
        ∃ open, sv_grpc self' = Draining (Datatypes.S open) ∨ sv_http self' = Draining (Datatypes.S open)) ∧
     (m = steps_left self → is_Some (serve_result self'))) ∧
  (∀ e, serve_result self = Some (Err e) →
     ∃ r, failure r ∧ (sv_grpc self = ListenerEnded r ∨ sv_http self = ListenerEnded r)).
Proof.
  intros Hr Hfit Hmax Hrun.
  assert (Hok : serving_ok (st_config s) (st_round s + Z.of_nat n) self)
    by (apply (serving_ok_run n (serving s)); [done..|by split; cbn; try lia]).
  destruct Hok as [_ _ _ Hp Hh]. split; [done|]. split; [done|]. split.
  - intros Hl Hm. destruct (latched_run _ _ _ Hm Hl) as [Hl' Hle]. split.
    { assert (steps_left self ≤ 7)%nat; [|lia]. unfold steps_left. clear.
      destruct (sv_grpc self), (sv_http self), (sv_loop self); cbn; lia. }
    split; [done|]. split; [|split].
    + intros next Hs Hin. destruct (own_step_latched _ _ Hl' Hs) as [(_ & _ & Hno)|(_ & _ & <- & Hst)]; [done|by split].
    + intros amb await Hlate Hran Hnone. by apply (latched_progress amb await).
    + intros ->. apply steps_left_result. lia.
  - intros e. by apply result_is_listeners.
Qed.

(** ** What modelling showed *)

(** A push subscription is a stream over the state's own channel, which never closes: as
    long as its client keeps it, the listener that serves it drains, and nothing the
    server does by itself makes [serve] return. *)
Lemma open_stream_blocks_the_stop n self self' open :
  sv_grpc self = Draining (Datatypes.S open) → own_run n self self' →
  sv_grpc self' = Draining (Datatypes.S open) ∧ serve_result self' = None.
Proof.
  intros Hg Hrun. assert (Hg' : sv_grpc self' = Draining (Datatypes.S open)).
  { induction Hrun as [self|n a b c Hs _ IH]; [done|]. apply IH.
    destruct Hs as [l Hs|l Hs|l s Hs]; cbn; [|done..]. rewrite Hg in Hs. inversion Hs. }
  split; [done|]. unfold serve_result. by rewrite Hg'.
Qed.
End serve.
