(* ===== verification/SidecarService.v ===== *)
(** * The sidecar as a process ([conflux-trusted-reference], and its client in conflux-net)

    [service.rs] answers the server's three calls over any [TrustedModel]; [main.rs]
    reads the root dataset and serves [RootModel]'s linear model; the server's end,
    [conflux-net/src/trusted_reference.rs], is the instance of the pipeline's [Sidecar]
    interface. *)

From Stdlib Require Import Ascii.
From S2P Require Import Prelude Float Wire Elimination RootModel Buffer Weights Averaging Contracts Flanders Catalog Registry Reputation Privacy Store Config State Round RoundLoop Submission Dispatcher Transport Validate Profile Environment Experiment Admin Startup.

Open Scope Z_scope.

(** ** Messages ([proto/trusted_reference.proto]) *)

Record ReferenceRequest := { rr_round : Z; rr_global_weights : bytes }.
Record ReferenceUpdate := { ru_round : Z; ru_weights : bytes; ru_local_steps : option Z }.
Record ScoreCandidate := { cand_client_id : string; cand_weights : bytes }.
Record ScoreRequest := { sr_round : Z; sr_global_weights : bytes; sr_candidates : list ScoreCandidate }.
Record ClientScore := { cs_client_id : string; cs_score : f32 }.
Record ScoreResponse := { resp_round : Z; resp_scores : list ClientScore }.
Record DescribeResponse := {
  dr_supports_reference_update : bool;
  dr_supports_scoring : bool;
  dr_model_dim : option Z;
  dr_description : string;
}.

(** ** The model behind the service *)

Class TrustedModel (M : Type) := {
  train_reference : M → list f32 → list f32;
  score : M → list f32 → list f32 → f32;
  tm_model_dim : M → option Z;
  tm_description : M → string;
  tm_supports_reference_update : M → bool;
  tm_supports_scoring : M → bool;
}.

(** [Display] of an [f32] belongs to the description alone. *)
Definition LinearLeastSquares_model (show_f32 : f32 → string) : TrustedModel LinearLeastSquares := {|
  train_reference := lls_train_reference;
  score := lls_score;
  tm_model_dim := lls_model_dim;
  tm_description self :=
    "linear least squares, " +:+ String.string_of_list_ascii (u64_to_string (Z.of_nat (length (dataset self)))) +:+
    " trusted examples, " +:+ String.string_of_list_ascii (u64_to_string (Z.of_nat (lls_steps self))) +:+
    " steps @ lr " +:+ show_f32 (lls_learning_rate self);
  tm_supports_reference_update _ := true;
  tm_supports_scoring _ := true;
|}.

(** ** The service *)

(** [tonic::Status], by what it says. *)
Inductive Status : Type :=
  | NotWholeF32s (field : string) (len : nat)
  | NonFiniteArgument (field : string) (index : nat)
  | ReferenceUnsupported
  | ScoringUnsupported
  | WrongReferenceLength (got expected : nat)
  | NonFiniteReference (index : nat).

Definition decode_field (b : bytes) (field : string) : outcome Status (list f32) :=
  if decide (length b mod 4 = 0)%nat then Ok (as_chunks_4 b) else Err (NotWholeF32s field (length b)).

Definition require_finite (weights : list f32) (field : string) : outcome Status () :=
  match position (λ w, negb (f32_is_finite w)) weights with
  | Some index => Err (NonFiniteArgument field index)
  | None => Ok ()
  end.

Section service.
Context {M : Type} `{TM : TrustedModel M}.

Definition get_reference_update (model : M) (req : ReferenceRequest) : outcome Status ReferenceUpdate :=
  if negb (tm_supports_reference_update model) then Err ReferenceUnsupported
  else
    global ← decode_field (rr_global_weights req) "global_weights";
    require_finite global "global_weights" ≫= λ _,
    let reference := train_reference model global in
    if negb (length reference =? length global)%nat then Err (WrongReferenceLength (length reference) (length global))
    else
      match position (λ w, negb (f32_is_finite w)) reference with
      | Some index => Err (NonFiniteReference index)
      | None => Ok {| ru_round := rr_round req; ru_weights := encode_weights reference; ru_local_steps := None |}
      end.

(** The loop over the candidates: a score that is NaN is left out. *)
Fixpoint score_candidates (model : M) (global : list f32) (candidates : list ScoreCandidate)
    : outcome Status (list ClientScore) :=
  match candidates with
  | [] => Ok []
  | candidate :: candidates =>
      weights ← decode_field (cand_weights candidate) "candidate weights";
      scores ← score_candidates model global candidates;
      let s := score model global weights in
      Ok (if f32_is_nan s then scores else {| cs_client_id := cand_client_id candidate; cs_score := s |} :: scores)
  end.

Definition score_updates_rpc (model : M) (req : ScoreRequest) : outcome Status ScoreResponse :=
  if negb (tm_supports_scoring model) then Err ScoringUnsupported
  else
    global ← decode_field (sr_global_weights req) "global_weights";
    require_finite global "global_weights" ≫= λ _,
    scores ← score_candidates model global (sr_candidates req);
    Ok {| resp_round := sr_round req; resp_scores := scores |}.

Definition describe_rpc (model : M) : DescribeResponse :=
  {| dr_supports_reference_update := tm_supports_reference_update model; dr_supports_scoring := tm_supports_scoring model;
     dr_model_dim := tm_model_dim model; dr_description := tm_description model |}.
End service.

(** ** The server's end *)

(** What tonic's generated client does: a call may fail, and what it answers with is
    some answer. *)
Class TrustedReferenceClient (T : Type) := {
  rpc_get_reference_update : ReferenceRequest → T → T * outcome string ReferenceUpdate;
  rpc_score_updates : ScoreRequest → T → T * outcome string ScoreResponse;
  rpc_describe : T → T * outcome string DescribeResponse;
}.

Definition SidecarCapabilities_from (r : DescribeResponse) : SidecarCapabilities :=
  {| supports_reference_update := dr_supports_reference_update r; supports_scoring := dr_supports_scoring r;
     model_dim := dr_model_dim r; description := dr_description r |}.

Section transport.
Context {T : Type} `{Cl : TrustedReferenceClient T}.

Definition transport_describe (t : T) : T * outcome string SidecarCapabilities :=
  let '(t, r) := rpc_describe t in (t, SidecarCapabilities_from <$> r).

Definition transport_reference_update (round : Z) (global_weights : bytes) (t : T) : T * outcome TransportError bytes :=
  let '(t, response) := rpc_get_reference_update {| rr_round := round; rr_global_weights := global_weights |} t in
  (t, response ← map_err RpcFailed response;
      if negb (ru_round response =? round) then Err (StaleSidecarResponse round (ru_round response))
      else Ok (ru_weights response)).

Definition transport_score_updates (round : Z) (global_weights : bytes) (candidates : list (string * bytes)) (t : T)
    : T * outcome TransportError (list (string * f32)) :=
  let '(t, response) := rpc_score_updates
    {| sr_round := round; sr_global_weights := global_weights;
       sr_candidates := map (λ c, {| cand_client_id := c.1; cand_weights := c.2 |}) candidates |} t in
  (t, response ← map_err RpcFailed response;
      if negb (resp_round response =? round) then Err (StaleSidecarResponse round (resp_round response))
      else Ok (map (λ s, (cs_client_id s, cs_score s)) (resp_scores response))).

(** The pipeline reads the error's text. *)
Definition TrustedReferenceTransport_sidecar (show_transport : TransportError → string) : Sidecar T := {|
  reference_update round global t :=
    let '(t, r) := transport_reference_update round global t in (t, map_err show_transport r);
  score_updates round global candidates t :=
    let '(t, r) := transport_score_updates round global candidates t in (t, map_err show_transport r);
|}.
End transport.

(** ** The process ([main.rs]) *)

Section text.
#[local] Open Scope char_scope.

(** [str::split] by one character: always at least one piece. *)
Fixpoint split_on (c : ascii) (text : list ascii) : list (list ascii) :=
  match text with
  | [] => [[]]
  | a :: text =>
      match split_on c text with
      | piece :: pieces => if Ascii.eqb a c then [] :: piece :: pieces else (a :: piece) :: pieces
      | [] => [[]]
      end
  end.

Definition newline : ascii := "010".
Definition carriage_return : ascii := "013".

Definition strip_return (line : list ascii) : list ascii :=
  match last line with Some a => if Ascii.eqb a carriage_return then removelast line else line | None => line end.

(** [str::lines]: a final piece that is empty is no line, and only a line that ends
    loses its carriage return. *)
Definition lines (text : list ascii) : list (list ascii) :=
  let pieces := split_on newline text in
  map strip_return (removelast pieces) ++ match last pieces with Some [] | None => [] | Some piece => [piece] end.

(** [char::is_whitespace] on ASCII. *)
Definition is_whitespace (a : ascii) : bool :=
  let n := nat_of_ascii a in (n =? 32)%nat || ((9 <=? n)%nat && (n <=? 13)%nat).

Fixpoint trim_start (text : list ascii) : list ascii :=
  match text with a :: rest => if is_whitespace a then trim_start rest else text | [] => [] end.
Definition trim (text : list ascii) : list ascii := rev (trim_start (rev (trim_start text))).
End text.

Inductive DatasetError : Type :=
  | DatasetUnreadable (path message : string)
  | NotANumber (line : nat) (field : string)
  | EmptyRow (line : nat)
  | NoExamples (path : string)
  | RaggedRow (row features width : nat).

Section process.
Context (f32_from_str : string → option f32).

Definition parse_row (line_no : nat) (line : list ascii) : outcome DatasetError (list f32 * f32) :=
  values ← collect (λ field,
    match f32_from_str (String.string_of_list_ascii (trim field)) with
    | Some v => Ok v
    | None => Err (NotANumber (line_no + 1) (String.string_of_list_ascii field))
    end) (split_on "," line);
  match last values with
  | Some target => Ok (removelast values, target)
  | None => Err (EmptyRow (line_no + 1))
  end.

(** Blank lines and comments are skipped. *)
Definition skipped (line : list ascii) : bool :=
  match line with [] => true | a :: _ => Ascii.eqb a "#"%char end.

Definition parse_rows (contents : list ascii) : outcome DatasetError (list (list f32 * f32)) :=
  collect (λ '(line_no, line), parse_row line_no line)
    (filter (λ p, skipped p.2 = false) (imap (λ i line, (i, trim line)) (lines contents))).

Definition read_dataset (read : string → outcome string string) (path : string)
    : outcome DatasetError (list (list f32 * f32)) :=
  contents ← map_err (DatasetUnreadable path) (read path);
  rows ← parse_rows (String.list_ascii_of_string contents);
  match rows with
  | [] => Err (NoExamples path)
  | first :: _ =>
      let width := length first.1 in
      match position (λ row, negb (length row.1 =? width)%nat) rows with
      | Some bad => Err (RaggedRow (bad + 1) (length (rows !!! bad).1) width)
      | None => Ok rows
      end
  end.

Inductive SidecarStartError : Type :=
  | InvalidSetting (name raw : string)
  | NoDatasetPath
  | BadDataset (e : DatasetError).

Definition parse_or {V} (from_str : string → option V) (name : string) (raw : option string) (fallback : V)
    : outcome SidecarStartError V :=
  match raw with
  | Some raw =>
      match from_str (String.string_of_list_ascii (trim (String.list_ascii_of_string raw))) with
      | Some v => Ok v
      | None => Err (InvalidSetting name raw)
      end
  | None => Ok fallback
  end.

(** [main], up to [serve]: the address and the model it serves. *)
Definition sidecar_main {Addr} (addr_from_str : string → option Addr) (usize_from_str : string → option nat)
    (default_addr : Addr) (env : string → option string) (read : string → outcome string string)
    : outcome SidecarStartError (Addr * LinearLeastSquares) :=
  addr ← parse_or addr_from_str "CONFLUX_SIDECAR_ADDR" (env "CONFLUX_SIDECAR_ADDR"%string) default_addr;
  dataset_path ← match env "CONFLUX_TRUSTED_DATASET_PATH"%string with Some path => Ok path | None => Err NoDatasetPath end;
  rows ← map_err BadDataset (read_dataset read dataset_path);
  learning_rate ← parse_or f32_from_str "CONFLUX_TRUSTED_LEARNING_RATE" (env "CONFLUX_TRUSTED_LEARNING_RATE"%string)
                    (f32_lit 5 100);
  steps ← parse_or usize_from_str "CONFLUX_TRUSTED_STEPS" (env "CONFLUX_TRUSTED_STEPS"%string) 200%nat;
  Ok (addr, {| dataset := rows; lls_learning_rate := learning_rate; lls_steps := steps |}).
End process.

(** ** What the process serves *)

Definition all_finite (ws : list f32) : Prop := Forall (λ w, f32_is_finite w = true) ws.

Lemma position_not_finite ws : position (λ w, negb (f32_is_finite w)) ws = None ↔ all_finite ws.
Proof.
  rewrite position_none. unfold all_finite. rewrite !Forall_forall.
  split; intros H w Hw; specialize (H w Hw); by destruct (f32_is_finite w).
Qed.

Lemma require_finite_ok ws field : require_finite ws field = Ok () ↔ all_finite ws.
Proof. rewrite <-position_not_finite. unfold require_finite. by destruct (position _ ws). Qed.

Lemma require_finite_not_panic ws field : require_finite ws field ≠ Panic.
Proof. unfold require_finite. by destruct (position _ ws). Qed.

Section served.
Context {M : Type} `{TM : TrustedModel M}.

(** A reference goes out only when it is fit to be scored against. *)
Lemma get_reference_update_ok (model : M) req resp :
  get_reference_update model req = Ok resp →
  ∃ global, decode_field (rr_global_weights req) "global_weights" = Ok global ∧ all_finite global ∧
    let reference := train_reference model global in
    length reference = length global ∧ all_finite reference ∧
    resp = {| ru_round := rr_round req; ru_weights := encode_weights reference; ru_local_steps := None |}.
Proof.
  unfold get_reference_update. destruct (tm_supports_reference_update model); [cbn [negb]|done].
  intros (global & Hg & H)%bind_ok_inv. apply bind_ok_inv in H as ([] & Hf & H). cbv zeta in H.
  apply require_finite_ok in Hf. exists global. split; [done|]. split; [done|].
  destruct (Nat.eqb_spec (length (train_reference model global)) (length global)); [cbn [negb] in H|done].
  destruct (position _ _) eqn:Hp in H; [done|]. apply position_not_finite in Hp. by injection H as <-.
Qed.

Lemma score_candidates_ok (model : M) global candidates scores :
  score_candidates model global candidates = Ok scores →
  ∃ ws, Forall2 (λ c w, decode_field (cand_weights c) "candidate weights" = Ok w) candidates ws ∧
    scores = omap (λ '(c, w), if f32_is_nan (score model global w) then None
                              else Some {| cs_client_id := cand_client_id c; cs_score := score model global w |})
                  (zip candidates ws).
Proof.
  revert scores. induction candidates as [|c candidates IH]; intros scores; cbn [score_candidates].
  - intros [= <-]. by exists [].
  - intros (w & Hw & H)%bind_ok_inv. apply bind_ok_inv in H as (rest & Hrest & H). injection H as <-.
    destruct (IH rest Hrest) as (ws & Hws & ->). exists (w :: ws). split; [by constructor|].
    cbn [zip zip_with omap list_omap]. by destruct (f32_is_nan _).
Qed.

(** A client whose answers are the service's, each to a question it was asked, though
    perhaps to an earlier one. *)
Definition answers_of (model : M) {T} `{TrustedReferenceClient T} : Prop :=
  (∀ req t resp, (rpc_get_reference_update req t).2 = Ok resp → ∃ asked, get_reference_update model asked = Ok resp) ∧
  (∀ req t resp, (rpc_score_updates req t).2 = Ok resp → ∃ asked, score_updates_rpc model asked = Ok resp).

(** Whatever the sidecar's model and however late the link delivers, the server
    never gets a reference it could not score against.  An answer it takes is the
    model's own for a question about this very round, trained from a finite global
    model, of that model's dimension, and finite in every weight. *)
Theorem accepted_reference_is_usable {T} `{Cl : TrustedReferenceClient T} (model : M) (round : Z)
    (global_weights reference_bytes : bytes) (t t' : T) :
  answers_of model →
  transport_reference_update round global_weights t = (t', Ok reference_bytes) →
  ∃ asked global, rr_round asked = round ∧ decode_field (rr_global_weights asked) "global_weights" = Ok global ∧
    all_finite global ∧ reference_bytes = encode_weights (train_reference model global) ∧
    length (train_reference model global) = length global ∧ all_finite (train_reference model global).
Proof.
  intros [Hanswers _]. unfold transport_reference_update.
  destruct (rpc_get_reference_update _ t) as [t1 [resp|e|]] eqn:Hrpc; [|done..].
  specialize (Hanswers {| rr_round := round; rr_global_weights := global_weights |} t resp). rewrite Hrpc in Hanswers.
  destruct (Hanswers eq_refl) as (asked & Hasked).
  apply get_reference_update_ok in Hasked as (global & Hg & Hfin & Hlen & Href & ->). cbn.
  destruct (Z.eqb_spec (rr_round asked) round); [|done]. intros [= _ <-].
  by exists asked, global.
Qed.
End served.

(** ** From the dataset file to the round *)

Lemma read_dataset_uniform f32_from_str read path rows :
  read_dataset f32_from_str read path = Ok rows →
  ∃ first rest, rows = first :: rest ∧ Forall (λ row, length row.1 = length first.1) rows.
Proof.
  unfold read_dataset. intros (contents & _ & H)%bind_ok_inv. apply bind_ok_inv in H as (parsed & _ & H).
  destruct parsed as [|first rest]; [done|]. cbv zeta in H.
  destruct (position _ _) eqn:Hp in H; [done|]. injection H as <-. exists first, rest. split; [done|].
  rewrite position_none in Hp. eapply Forall_impl; [exact Hp|]. intros row Hrow. cbn in Hrow.
  by destruct (Nat.eqb_spec (length row.1) (length first.1)).
Qed.

Lemma sidecar_main_model {Addr} f32_from_str (addr_from_str : string → option Addr) usize_from_str default_addr env read
    addr (m : LinearLeastSquares) :
  sidecar_main f32_from_str addr_from_str usize_from_str default_addr env read = Ok (addr, m) →
  ∃ d, lls_model_dim m = Some (Z.of_nat d) ∧ lls_fits m d = true ∧ dataset m ≠ [].
Proof.
  unfold sidecar_main. intros (a & _ & H)%bind_ok_inv. apply bind_ok_inv in H as (path & _ & H).
  apply bind_ok_inv in H as (rows & Hrows & H). apply bind_ok_inv in H as (lr & _ & H).
  apply bind_ok_inv in H as (steps & _ & H). injection H as _ <-.
  unfold map_err in Hrows. destruct (read_dataset _ _ _) as [rows'| |] eqn:Hr; [|done..]. injection Hrows as ->.
  apply read_dataset_uniform in Hr as (first & rest & -> & Hall). exists (length first.1). split; [done|]. split; [|done].
  unfold lls_fits. apply forallb_forall. intros row Hin. rewrite Forall_forall in Hall.
  apply Nat.eqb_eq, Hall. by apply list_elem_of_In.
Qed.

Lemma decode_field_encode ws field : Forall f32_wf ws → decode_field (encode_weights ws) field = Ok ws.
Proof.
  intros Hw. unfold decode_field. rewrite decide_True.
  - by rewrite as_chunks_4_encode.
  - rewrite length_encode_weights. apply Nat.Div0.mod_mul.
Qed.

Lemma score_candidates_total {M} `{TrustedModel M} (model : M) global candidates ws :
  Forall2 (λ c w, decode_field (cand_weights c) "candidate weights" = Ok w) candidates ws →
  ∃ scores, score_candidates model global candidates = Ok scores.
Proof.
  induction 1 as [|c w candidates ws Hw _ [scores IH]]; cbn [score_candidates]; [by eexists|].
  rewrite Hw, IH. cbn. by eexists.
Qed.

Section composed.
Context `{J : JwtLibrary} `{N : Notify} `{HO : HashOrder} `{AF : AddressFromStr}.
Context {Rd Al Pg S3 T : Type}.
Context `{CR : ClientRegistry Rd} `{NA : NodeAllowlist Al} `{SP : Store Pg} `{SS : Store S3} `{Lg : PrivacyRoundLog Pg}.
Context (sys : Surroundings) (net : Connectors Rd Al Pg S3 T) (show_f32 : f32 → string).
#[local] Instance shipped_model : TrustedModel LinearLeastSquares := LinearLeastSquares_model show_f32.

(** C38: the sidecar that ships and the server that accepted it at startup fit each
    other.  Once the one has read its dataset and the other has connected, every finite
    model of the experiment's size gets a reference of its own size, all finite, and the
    one reason left to refuse it is a training run that overflowed; every batch of
    well-formed candidates gets scored, with finite scores only, in the batch's order,
    and a candidate of another size gets none. *)
Theorem accepted_sidecar_serves {Addr} f32_from_str (addr_from_str : string → option Addr) usize_from_str default_addr env read
    (addr : Addr) (m : LinearLeastSquares) state state' (dim : nat) (global : list f32) (round : Z) :
  sidecar_main f32_from_str addr_from_str usize_from_str default_addr env read = Ok (addr, m) →
  (∀ t, (describe net t).2 = Ok (SidecarCapabilities_from (describe_rpc m))) →
  connect_trusted_reference sys net state (Z.of_nat dim) = Ok state' →
  length global = dim → all_finite global → Forall f32_wf global →
  match get_reference_update m {| rr_round := round; rr_global_weights := encode_weights global |} with
  | Ok resp => ru_round resp = round ∧ ∃ reference, ru_weights resp = encode_weights reference ∧
                 length reference = dim ∧ all_finite reference
  | Err e => ∃ index, e = NonFiniteReference index
  | Panic => False
  end ∧
  ∀ candidates ws, Forall2 (λ c w, decode_field (cand_weights c) "candidate weights" = Ok w) candidates ws →
    ∃ resp, score_updates_rpc m {| sr_round := round; sr_global_weights := encode_weights global; sr_candidates := candidates |}
              = Ok resp ∧ resp_round resp = round ∧
      Forall (λ s, f32_is_finite (cs_score s) = true) (resp_scores resp) ∧
      resp_scores resp = omap (λ '(c, w), if (length w =? dim)%nat && negb (f32_is_nan (lls_score m global w))
                                          then Some {| cs_client_id := cand_client_id c; cs_score := lls_score m global w |}
                                          else None) (zip candidates ws).
Proof.
  intros Hmain Hdesc Hconn Hlen Hfin Hwf.
  apply sidecar_main_model in Hmain as (d & Hdim & Hfits & Hne).
  apply connect_trusted_reference_ok in Hconn as (a & t0 & t & cap & _ & Hd & _ & _ & _ & Hsize).
  specialize (Hdesc t0). rewrite Hd in Hdesc. injection Hdesc as ->.
  specialize (Hsize _ Hdim). assert (d = dim) as -> by lia. split.
  - unfold get_reference_update. cbn. rewrite decode_field_encode by done. cbn.
    rewrite (proj2 (require_finite_ok global _) Hfin). cbn.
    rewrite length_train_reference, Nat.eqb_refl. cbn.
    destruct (position _ _) as [i|] eqn:Hp; [by exists i|]. apply position_not_finite in Hp.
    split; [done|]. exists (lls_train_reference m global). by rewrite length_train_reference.
  - intros candidates ws Hws. destruct (score_candidates_total m global candidates ws Hws) as (scores & Hs).
    exists {| resp_round := round; resp_scores := scores |}. cbn [resp_round resp_scores].
    destruct (score_candidates_ok m global candidates scores Hs) as (ws' & Hws' & ->).
    assert (ws' = ws) as ->.
    { clear Hs. revert ws' Hws'. induction Hws as [|c w candidates ws Hw _ IH]; intros ws' Hws';
        inversion_clear Hws' as [|? w' ? ? Hw']; [done|]. f_equal; [congruence|by apply IH]. }
    split; [|split; [done|split]].
    + unfold score_updates_rpc. cbn. rewrite decode_field_encode by done. cbn.
      rewrite (proj2 (require_finite_ok global _) Hfin). cbn. by rewrite Hs.
    + apply Forall_forall. intros s ([c w] & Hin & Hcw)%list_elem_of_omap. cbn in Hcw.
      destruct (score_finite_or_nan m global w) as [Hn|Hf]; [by rewrite Hn in Hcw|].
      destruct (f32_is_nan (lls_score m global w)); [done|]. by injection Hcw as <-.
    + apply list_omap_ext. apply Forall2_same_length_lookup_2; [done|].
      intros i [c w] ? Hi Hi'. rewrite Hi in Hi'. injection Hi' as <-. cbn.
      destruct (Nat.eqb_spec (length w) dim) as [|Hne']; cbn [andb]; [by destruct (f32_is_nan _)|].
      by rewrite (wrong_width_unscored m global w) by (left; lia).
Qed.
End composed.

(** ** Witnesses *)

(** The root dataset [y = 2 x0 + 3 x1] as a file, and numbers as digits. *)
Definition demo_file : string := "# x0, x1, y"%string +:+ String newline (" 1, 0, 2"%string +:+ String newline "0,1,3"%string).
Definition digits_to_f32 (s : string) : option f32 := f32_of_Z <$> parse_u64 (String.list_ascii_of_string s).
Definition demo_env (name : string) : option string :=
  if String.eqb name "CONFLUX_TRUSTED_DATASET_PATH" then Some "root.csv"%string
  else if String.eqb name "CONFLUX_TRUSTED_STEPS" then Some " 2 "%string else None.
Definition demo_main : outcome SidecarStartError (Z * LinearLeastSquares) :=
  sidecar_main digits_to_f32 (λ _, None) (λ s, Z.to_nat <$> parse_u64 (String.list_ascii_of_string s)) 50100 demo_env
    (λ _, Ok demo_file).
Definition demo_model : LinearLeastSquares :=
  {| dataset := [([f32_one; f32_zero], f32_of_Z 2); ([f32_zero; f32_one], f32_of_Z 3)];
     lls_learning_rate := f32_lit 5 100; lls_steps := 2 |}.

Lemma demo_main_model : demo_main = Ok (50100, demo_model).
Proof. vm_compute. reflexivity. Qed.

#[local] Existing Instance shipped_model.
#[local] Instance direct_client : TrustedReferenceClient () := {|
  rpc_get_reference_update req t :=
    (t, map_err (λ _, "status"%string) (get_reference_update (TM:=shipped_model (λ _, ""%string)) demo_model req));
  rpc_score_updates req t :=
    (t, map_err (λ _, "status"%string) (score_updates_rpc (TM:=shipped_model (λ _, ""%string)) demo_model req));
  rpc_describe t := (t, Ok (describe_rpc (TM:=shipped_model (λ _, ""%string)) demo_model));
|}.

Lemma direct_client_answers : answers_of (TM:=shipped_model (λ _, ""%string)) demo_model.
Proof.
  split; intros req t resp H; exists req; unfold rpc_get_reference_update, rpc_score_updates, direct_client in H;
    cbn [snd] in H; by apply map_err_ok in H.
Qed.

Lemma accepted_reference_is_usable_witness :
  match transport_reference_update 7 (encode_weights [f32_zero; f32_zero]) () with
  | (_, Ok reference_bytes) =>
      ∃ global, length (lls_train_reference demo_model global) = length global ∧
        reference_bytes = encode_weights (lls_train_reference demo_model global)
  | _ => False
  end.
Proof.
  destruct (transport_reference_update 7 (encode_weights [f32_zero; f32_zero]) ()) as [t [b| |]] eqn:H;
    [|exfalso; vm_compute in H; discriminate H..].
  destruct (accepted_reference_is_usable (TM:=shipped_model (λ _, ""%string)) demo_model 7
    (encode_weights [f32_zero; f32_zero]) b () t direct_client_answers H) as (asked & global & _ & _ & _ & Hb & Hl & _).
  exists global. split; [exact Hl|exact Hb].
Defined.
