(* ===== verification/Redis.v ===== *)
(** * The Redis backends ([conflux-registry/src/redis_registry.rs],
      [redis_node_allowlist.rs])

    The client registry as one sorted set (member: client id, score: the time of its
    last heartbeat in milliseconds) and the node allow-list as one hash (field: client
    id, value: its identity, encoded).  The server is the interface [RedisServer]: the
    commands the two send, with their documented effects and replies as laws; whether a
    command fails, and whether a failed one took effect, is the server's choice. *)

From S2P Require Import Prelude Float FloatInt Registry State Admin.

Open Scope Z_scope.

(** ** The server *)

(** A key holds one value; an absent key reads as an empty one. *)
Record Keyspace := {
  zset : string → gmap string f64;
  hash : string → gmap string string;
}.

Definition set_zset (key : string) (z : gmap string f64) (k : Keyspace) : Keyspace :=
  {| zset := λ i, if decide (i = key) then z else zset k i; hash := hash k |}.
Definition set_hash (key : string) (h : gmap string string) (k : Keyspace) : Keyspace :=
  {| zset := zset k; hash := λ i, if decide (i = key) then h else hash k i |}.

(** The commands that write, by the type of their reply. *)
Inductive Command : Type → Type :=
  | ZADD_NX_CH (key : string) (score : f64) (member : string) : Command Z
  | ZADD_XX_CH (key : string) (score : f64) (member : string) : Command Z
  | ZREMRANGEBYSCORE_from_neg_inf (key : string) (max : f64) : Command Z
  | HSET (key field value : string) : Command Z
  | HDEL (key field : string) : Command Z.

(** The commands that read. *)
Inductive Query : Type → Type :=
  | ZSCORE (key member : string) : Query (option f64)
  | ZRANGE_all (key : string) : Query (list string)
  | HGET (key field : string) : Query (option string)
  | HKEYS (key : string) : Query (list string).

Class RedisServer (D : Type) := {
  command {T} : Command T → D → D * (string + T);
  query {T} : Query T → D → string + T;
}.

(** What the documentation says of each command: the data after it and its reply. *)
Definition documented {T} (c : Command T) (k : Keyspace) : Keyspace * T :=
  match c with
  | ZADD_NX_CH key score member =>
      match zset k key !! member with
      | Some _ => (k, 0)
      | None => (set_zset key (<[member := score]> (zset k key)) k, 1)
      end
  | ZADD_XX_CH key score member =>
      match zset k key !! member : option f64 with
      | Some old => (set_zset key (<[member := score]> (zset k key)) k, if SFeqb old score then 0 else 1)
      | None => (k, 0)
      end
  | ZREMRANGEBYSCORE_from_neg_inf key max =>
      let kept := base.filter (λ p, SFleb p.2 max = false) (zset k key) in
      (set_zset key kept k, Z.of_nat (size (zset k key)) - Z.of_nat (size kept))
  | HSET key field value =>
      (set_hash key (<[field := value]> (hash k key)) k, if decide (hash k key !! field = None) then 1 else 0)
  | HDEL key field =>
      (set_hash key (delete field (hash k key)) k, if decide (hash k key !! field = None) then 0 else 1)
  end.

Definition answers {T} (q : Query T) (k : Keyspace) : T → Prop :=
  match q with
  | ZSCORE key member => λ r, r = zset k key !! member
  | ZRANGE_all key => λ r, r ≡ₚ map fst (map_to_list (zset k key))
  | HGET key field => λ r, r = hash k key !! field
  | HKEYS key => λ r, r ≡ₚ map fst (map_to_list (hash k key))
  end.

Class RedisServerLaws (D : Type) `{RedisServer D} := {
  data : D → Keyspace;
  command_ok {T} (c : Command T) d d' v :
    command c d = (d', inr v) → (data d', v) = documented c (data d);
  command_err {T} (c : Command T) d d' e :
    command c d = (d', inl e) → data d' = data d ∨ data d' = (documented c (data d)).1;
  query_ok {T} (q : Query T) d v : query q d = inr v → answers q (data d) v;
}.

(** A server that is up. *)
Class RedisServerUp (D : Type) `{RedisServer D} := {
  command_up {T} (c : Command T) d : ∃ v, (command c d).2 = inr v;
  query_up {T} (q : Query T) d : ∃ v, query q d = inr v;
}.

(** Opening a connection: the URL parsed, then the manager with its two timeouts, in
    seconds. *)
Definition REDIS_RESPONSE_TIMEOUT : Z := 5.
Definition REDIS_CONNECTION_TIMEOUT : Z := 5.

Class RedisConnect (D : Type) := {
  redis_client : Type;
  client_open : string → string + redis_client;
  get_connection_manager_with_config : redis_client → Z → Z → string + D;
}.

Definition result {E A} (backend : string → E) (r : string + A) : outcome E A :=
  match r with inl message => Err (backend message) | inr a => Ok a end.

Definition redis_connect `{RedisConnect D} {E} (backend : string → E) (redis_url : string) : outcome E D :=
  client ← result backend (client_open redis_url);
  result backend (get_connection_manager_with_config client REDIS_RESPONSE_TIMEOUT REDIS_CONNECTION_TIMEOUT).

(** ** The registry *)

Definition DEFAULT_CLIENTS_KEY : string := "conflux:registry:clients".

Record RedisRegistry (D : Type) := { rr_conn : D; rr_key : string }.
Arguments rr_conn {D}.
Arguments rr_key {D}.

(** The clock in nanoseconds since the epoch; before it, [expect] panics. *)
Definition as_millis (nanos : Z) : Z := nanos / 1000000.
Definition now_millis {E} (now : Z) : outcome E f64 :=
  if now <? 0 then Panic else Ok (f64_of_Z (as_millis now)).

Section registry.
Context `{RedisServer D}.
Notation M := (stM (RedisRegistry D) RegistryError).

Definition RedisRegistry_connect_with_key `{!RedisConnect D} (redis_url key : string) : outcome RegistryError (RedisRegistry D) :=
  conn ← redis_connect Registry.RegistryBackend redis_url;
  Ok {| rr_conn := conn; rr_key := key |}.
Definition RedisRegistry_connect `{!RedisConnect D} (redis_url : string) : outcome RegistryError (RedisRegistry D) :=
  RedisRegistry_connect_with_key redis_url DEFAULT_CLIENTS_KEY.

(** A command on the connection, its error wrapped. *)
Definition rr_command {T} (c : Command T) : M T := λ self,
  let '(conn, r) := command c (rr_conn self) in
  ({| rr_conn := conn; rr_key := rr_key self |}, result Registry.RegistryBackend r).
Definition rr_query {T} (q : Query T) (self : RedisRegistry D) : outcome RegistryError T :=
  result Registry.RegistryBackend (query q (rr_conn self)).

Definition redis_register (now : Z) (id : string) : M () :=
  key ← gets rr_key;
  at_millis ← of_outcome (now_millis now);
  changed ← rr_command (ZADD_NX_CH key at_millis id);
  of_outcome (if changed =? 0 then Err (AlreadyRegistered id) else Ok ()).

Definition heartbeat_at (id : string) (at_millis : f64) : M () :=
  key ← gets rr_key;
  changed ← rr_command (ZADD_XX_CH key at_millis id);
  if changed =? 0 then
    score ← (λ self, (self, rr_query (ZSCORE key id) self));
    of_outcome (match score with None => Err (NotRegistered id) | Some _ => Ok () end)
  else mret ().

Definition redis_heartbeat (now : Z) (id : string) : M () :=
  at_millis ← of_outcome (now_millis now);
  heartbeat_at id at_millis.

(** A sweep that fails is logged, and tried again by the next. *)
Definition sweep (key : string) (cutoff : f64) : M () := λ self,
  ((rr_command (ZREMRANGEBYSCORE_from_neg_inf key cutoff) self).1, Ok ()).

Definition redis_evict_expired (now ttl : Z) : M () :=
  key ← gets rr_key;
  now ← of_outcome (now_millis now);
  sweep key (f64_sub now (f64_of_Z (as_millis ttl))).

Definition redis_active_clients (self : RedisRegistry D) : outcome RegistryError (list string) :=
  rr_query (ZRANGE_all (rr_key self)) self.

#[export] Instance RedisRegistry_registry : ClientRegistry (RedisRegistry D) := {|
  reg_register := redis_register;
  reg_heartbeat := redis_heartbeat;
  reg_evict_expired := redis_evict_expired;
  reg_active_clients := redis_active_clients;
|}.
End registry.

(** ** The allow-list *)

Definition DEFAULT_ALLOWLIST_KEY : string := "conflux:node_allowlist:entries".

Record RedisNodeAllowlist (D : Type) := { ra_conn : D; ra_key : string }.
Arguments ra_conn {D}.
Arguments ra_key {D}.

Definition encode_identity (identity : NodeIdentity) : string :=
  match identity with
  | CertFingerprint fp => "cert:" +:+ fp
  | SharedToken tok => "token:" +:+ tok
  end.

Definition decode_identity (raw : string) : option NodeIdentity :=
  match strip_prefix "cert:" raw with
  | Some fp => Some (CertFingerprint fp)
  | None => SharedToken <$> strip_prefix "token:" raw
  end.

Section allowlist.
Context `{RedisServer D}.
Notation M := (stM (RedisNodeAllowlist D) NodeAuthError).

Definition RedisNodeAllowlist_connect_with_key `{!RedisConnect D} (redis_url key : string)
    : outcome NodeAuthError (RedisNodeAllowlist D) :=
  conn ← redis_connect NodeAuthBackend redis_url;
  Ok {| ra_conn := conn; ra_key := key |}.
Definition RedisNodeAllowlist_connect `{!RedisConnect D} (redis_url : string) : outcome NodeAuthError (RedisNodeAllowlist D) :=
  RedisNodeAllowlist_connect_with_key redis_url DEFAULT_ALLOWLIST_KEY.

Definition ra_command {T} (c : Command T) : M T := λ self,
  let '(conn, r) := command c (ra_conn self) in
  ({| ra_conn := conn; ra_key := ra_key self |}, result NodeAuthBackend r).

Definition redis_allow (id : string) (identity : NodeIdentity) : M () :=
  key ← gets ra_key;
  _ ← ra_command (HSET key id (encode_identity identity));
  mret ().

Definition redis_revoke (id : string) : M () :=
  key ← gets ra_key;
  _ ← ra_command (HDEL key id);
  mret ().

Definition redis_check (id : string) (presented : NodeIdentity) (self : RedisNodeAllowlist D) : outcome NodeAuthError bool :=
  stored ← result NodeAuthBackend (query (HGET (ra_key self) id) (ra_conn self));
  Ok (match stored ≫= decode_identity with Some stored => matches stored presented | None => false end).

Definition redis_list (self : RedisNodeAllowlist D) : outcome NodeAuthError (list string) :=
  result NodeAuthBackend (query (HKEYS (ra_key self)) (ra_conn self)).

#[export] Instance RedisNodeAllowlist_allowlist : NodeAllowlist (RedisNodeAllowlist D) := {|
  nal_allow := redis_allow;
  nal_revoke := redis_revoke;
  nal_check := redis_check;
  nal_list := redis_list;
|}.
End allowlist.

(** ** The registry against the one in memory *)

(** Calls on any registry, with their times, and the verdicts they return. *)
Definition registry_call `{ClientRegistry R} (now : Z) (op : registry_op) (r : R) : R * outcome RegistryError () :=
  match op with
  | op_register id => reg_register now id r
  | op_heartbeat id => reg_heartbeat now id r
  | op_evict ttl => reg_evict_expired now ttl r
  end.

Fixpoint registry_calls `{ClientRegistry R} (ops : list (Z * registry_op)) (r : R) : R * list (outcome RegistryError ()) :=
  match ops with
  | [] => (r, [])
  | (now, op) :: ops =>
      let '(r, o) := registry_call now op r in
      let '(r, os) := registry_calls ops r in (r, o :: os)
  end.

(** A time, or a span of time, that is a whole number of milliseconds. *)
Definition on_tick (t : Z) : Prop := ∃ ms, t = ms * 1000000 ∧ 0 ≤ ms < 2 ^ 53.

Lemma as_millis_tick ms : as_millis (ms * 1000000) = ms.
Proof. apply Z.div_mul. lia. Qed.

Lemma now_millis_tick {E} ms : 0 ≤ ms → now_millis (E:=E) (ms * 1000000) = Ok (f64_of_Z ms).
Proof. intros. unfold now_millis. rewrite (proj2 (Z.ltb_ge _ _)) by lia. by rewrite as_millis_tick. Qed.

(** The score of an entry that is not expired is above the cutoff, and no other is. *)
Lemma score_above_cutoff lh now ttl :
  on_tick lh → on_tick now → on_tick ttl → 0 < ttl →
  SFleb (f64_of_Z (as_millis lh)) (f64_sub (f64_of_Z (as_millis now)) (f64_of_Z (as_millis ttl))) = false ↔
  duration_since now lh < ttl.
Proof.
  intros (l & -> & Hl) (n & -> & Hn) (t & -> & Ht) Hpos. rewrite !as_millis_tick, f64_sub_int by done.
  rewrite f64_leb_int by (done || unfold small; lia). rewrite Z.leb_gt. unfold duration_since. lia.
Qed.

Section refinement.
Context `{RedisServerLaws D}.

Lemma rr_command_ok {T} (c : Command T) self self' v :
  rr_command c self = (self', Ok v) →
  rr_key self' = rr_key self ∧ (data (rr_conn self'), v) = documented c (data (rr_conn self)).
Proof.
  unfold rr_command. destruct (command c (rr_conn self)) as [d [e|v']] eqn:Hc; [done|].
  intros [= <- <-]. split; [done|]. by apply command_ok.
Qed.

(** The sorted set is the map in memory, each entry by its last sign of life. *)
Definition tracks (clients : InMemoryRegistry) (self : RedisRegistry D) : Prop :=
  zset (data (rr_conn self)) (rr_key self) = (λ i, f64_of_Z (as_millis (last_heartbeat i))) <$> clients ∧
  map_Forall (λ _ i, on_tick (last_heartbeat i)) clients.

Lemma tracks_lookup clients self id :
  tracks clients self →
  zset (data (rr_conn self)) (rr_key self) !! id = (λ i, f64_of_Z (as_millis (last_heartbeat i))) <$> (clients !! id).
Proof. intros [-> _]. apply lookup_fmap. Qed.

Lemma tracks_same clients self self' :
  tracks clients self → rr_key self' = rr_key self → data (rr_conn self') = data (rr_conn self) → tracks clients self'.
Proof. intros [Ht Hf] Hk Hd. split; [by rewrite Hk, Hd|done]. Qed.

Lemma tracks_insert clients self self' id now i :
  tracks clients self → on_tick now → last_heartbeat i = now → rr_key self' = rr_key self →
  data (rr_conn self') =
    set_zset (rr_key self) (<[id := f64_of_Z (as_millis now)]> (zset (data (rr_conn self)) (rr_key self))) (data (rr_conn self)) →
  tracks (<[id := i]> clients) self'.
Proof.
  intros [Ht Hf] Hnow Hi Hk Hd. split.
  - rewrite Hk, Hd. simpl. rewrite decide_True by done. by rewrite Ht, fmap_insert, Hi.
  - apply map_Forall_insert_2; [by rewrite Hi|done].
Qed.
Context `{O : HashOrder} `{!HashOrderLaws O}.

Definition backend_error {X} (o : outcome RegistryError X) : Prop := ∃ message, o = Err (Registry.RegistryBackend message).

(** A command is answered, or fails; one that fails may have taken effect. *)
Lemma rr_command_cases {T} (c : Command T) self self' o :
  rr_command c self = (self', o) →
  rr_key self' = rr_key self ∧
  (o = Ok (documented c (data (rr_conn self))).2 ∧ data (rr_conn self') = (documented c (data (rr_conn self))).1 ∨
   ¬ RedisServerUp D ∧ backend_error o ∧
     (data (rr_conn self') = data (rr_conn self) ∨ data (rr_conn self') = (documented c (data (rr_conn self))).1)).
Proof.
  unfold rr_command. destruct (command c (rr_conn self)) as [d [e|v]] eqn:Hc; intros [= <- <-]; (split; [done|]).
  - right. split; [|split; [by exists e|by eapply command_err]].
    intros Hup. destruct (command_up c (rr_conn self)) as [v Hv]. rewrite Hc in Hv. discriminate Hv.
  - left. apply command_ok in Hc. cbn. by rewrite <-Hc.
Qed.

Lemma rr_query_cases {T} (q : Query T) (self : RedisRegistry D) :
  (∃ v, rr_query q self = Ok v ∧ answers q (data (rr_conn self)) v) ∨
  ¬ RedisServerUp D ∧ backend_error (rr_query q self).
Proof.
  unfold rr_query. destruct (query q (rr_conn self)) as [e|v] eqn:Hq.
  - right. split; [|by exists e]. intros Hup. destruct (query_up q (rr_conn self)) as [v Hv]. congruence.
  - left. exists v. split; [done|]. by apply query_ok.
Qed.

(** What the command of each operation does to the sorted set is what the operation does to
    the map in memory. *)
Lemma register_tracks clients self self' now id :
  tracks clients self → on_tick now → rr_key self' = rr_key self →
  data (rr_conn self') =
    (documented (ZADD_NX_CH (rr_key self) (f64_of_Z (as_millis now)) id) (data (rr_conn self))).1 →
  tracks (register now id clients).1 self'.
Proof.
  intros Ht Hnow Hk Hd. cbn [documented] in Hd. unfold register. pose proof (tracks_lookup _ _ id Ht) as Hl.
  destruct (clients !! id) as [i|] eqn:Hi; simpl in Hl; rewrite Hl in Hd; cbn in Hd |- *.
  - by eapply tracks_same.
  - by eapply tracks_insert.
Qed.

Lemma heartbeat_tracks clients self self' now id :
  tracks clients self → on_tick now → rr_key self' = rr_key self →
  data (rr_conn self') =
    (documented (ZADD_XX_CH (rr_key self) (f64_of_Z (as_millis now)) id) (data (rr_conn self))).1 →
  tracks (heartbeat now id clients).1 self'.
Proof.
  intros Ht Hnow Hk Hd. cbn [documented] in Hd. unfold heartbeat. pose proof (tracks_lookup _ _ id Ht) as Hl.
  destruct (clients !! id) as [i|] eqn:Hi; simpl in Hl; rewrite Hl in Hd; cbn in Hd |- *.
  - by eapply tracks_insert.
  - by eapply tracks_same.
Qed.

Lemma evict_tracks clients self self' now ttl :
  tracks clients self → on_tick now → on_tick ttl → 0 < ttl → rr_key self' = rr_key self →
  data (rr_conn self') =
    (documented (ZREMRANGEBYSCORE_from_neg_inf (rr_key self)
       (f64_sub (f64_of_Z (as_millis now)) (f64_of_Z (as_millis ttl)))) (data (rr_conn self))).1 →
  tracks (evict_expired now ttl clients) self'.
Proof.
  intros [Hz Hf] Hnow Httl Hpos Hk Hd. split.
  - rewrite Hk, Hd. cbn [documented fst zset set_zset]. rewrite decide_True by done. rewrite Hz.
    apply map_eq. intros id. apply option_eq. intros x.
    rewrite map_lookup_filter_Some, !lookup_fmap, !fmap_Some. setoid_rewrite evict_expired_lookup.
    split.
    + intros [(i & Hi & ->) Hx]. exists i. split; [split; [done|]|done].
      eapply (score_above_cutoff _ now ttl); [by eapply Hf|done..].
    + intros (i & [Hi Hx] & ->). split; [by exists i|]. cbn [snd].
      apply score_above_cutoff; [by eapply Hf|done..].
  - intros id i [Hi _]%evict_expired_lookup. by eapply Hf.
Qed.

(** What can become of a call: it is the one on the map in memory, or Redis failed it: the
    caller is told (of a sweep nobody is), and the data is as before or as after. *)
Definition failed_call (op : registry_op) (o : outcome RegistryError ()) : Prop :=
  match op with op_evict _ => o = Ok () | _ => backend_error o end.

Definition follows (clients clients' : InMemoryRegistry) (verdict o : outcome RegistryError ()) (op : registry_op)
    (self' : RedisRegistry D) : Prop :=
  o = verdict ∧ tracks clients' self' ∨
  ¬ RedisServerUp D ∧ failed_call op o ∧ (tracks clients self' ∨ tracks clients' self').

Lemma redis_register_follows clients self self' now id o :
  tracks clients self → on_tick now → redis_register now id self = (self', o) →
  follows clients (register now id clients).1 (register now id clients).2 o (op_register id) self'.
Proof.
  intros Ht Hnow. pose proof Hnow as (ms & -> & Hms). unfold redis_register, gets, of_outcome, mbind, stM_bind.
  rewrite now_millis_tick by lia. cbn zeta.
  destruct (rr_command _ self) as [self1 o1] eqn:Hc. apply rr_command_cases in Hc as [Hk Hcase].
  assert (Hpost : data (rr_conn self1) = (documented (ZADD_NX_CH (rr_key self) (f64_of_Z ms) id) (data (rr_conn self))).1 →
            tracks (register (ms * 1000000) id clients).1 self1)
    by (intros Hd; eapply register_tracks; [done|exact Hnow|done|by rewrite as_millis_tick]).
  destruct Hcase as [[-> Hd]|(Hdown & [m ->] & Hd)].
  - intros Hx. left. split; [|destruct (documented _ _).2 in Hx; injection Hx as <- _; by apply Hpost].
    pose proof (tracks_lookup _ _ id Ht) as Hl. unfold register. cbn [documented] in Hx.
    destruct (clients !! id) as [i|]; simpl in Hl; rewrite Hl in Hx; by injection Hx as _ <-.
  - intros [= <- <-]. right. split; [done|]. split; [by exists m|].
    destruct Hd as [Hd|Hd]; [left; by eapply tracks_same|right; by apply Hpost].
Qed.

(** A beat within the millisecond of the one before changes no score, and counts. *)
Lemma redis_heartbeat_follows clients self self' now id o :
  tracks clients self → on_tick now → redis_heartbeat now id self = (self', o) →
  follows clients (heartbeat now id clients).1 (heartbeat now id clients).2 o (op_heartbeat id) self'.
Proof.
  intros Ht Hnow. pose proof Hnow as (ms & -> & Hms).
  unfold redis_heartbeat, heartbeat_at, gets, of_outcome, mbind, stM_bind, mret, stM_ret.
  rewrite now_millis_tick by lia. cbn zeta.
  destruct (rr_command _ self) as [self1 o1] eqn:Hc. apply rr_command_cases in Hc as [Hk Hcase].
  assert (Hpost : data (rr_conn self1) = (documented (ZADD_XX_CH (rr_key self) (f64_of_Z ms) id) (data (rr_conn self))).1 →
            tracks (heartbeat (ms * 1000000) id clients).1 self1)
    by (intros Hd; eapply heartbeat_tracks; [done|exact Hnow|done|by rewrite as_millis_tick]).
  destruct Hcase as [[-> Hd]|(Hdown & [m ->] & Hd)].
  2: { intros [= <- <-]. right. split; [done|]. split; [by exists m|].
       destruct Hd as [Hd|Hd]; [left; by eapply tracks_same|right; by apply Hpost]. }
  specialize (Hpost Hd). pose proof (tracks_lookup _ _ id Ht) as Hl. pose proof (tracks_lookup _ _ id Hpost) as Hl1.
  assert (Hsome : ((documented (ZADD_XX_CH (rr_key self) (f64_of_Z ms) id) (data (rr_conn self))).2 =? 0) = false →
            (heartbeat (ms * 1000000) id clients).2 = Ok ()).
  { unfold heartbeat. cbn [documented]. by destruct (clients !! id) as [i|]; simpl in Hl; rewrite Hl. }
  destruct (rr_query_cases (ZSCORE (rr_key self) id) self1) as [(score & Hq & Hs)|[Hdown [m Hq]]];
    destruct (_ =? 0) eqn:Hzero; rewrite ?Hq; intros [= <- <-]; try by (left; rewrite Hsome).
  - left. split; [|done]. cbn [answers] in Hs. rewrite <-Hk in Hs. rewrite Hs, Hl1. unfold heartbeat.
    destruct (clients !! id) as [i|] eqn:Hi; cbn; [by rewrite lookup_insert_eq|by rewrite Hi].
  - right. split; [done|]. split; [by exists m|by right].
Qed.

Lemma redis_evict_follows clients self self' now ttl o :
  tracks clients self → on_tick now → on_tick ttl → 0 < ttl → redis_evict_expired now ttl self = (self', o) →
  follows clients (evict_expired now ttl clients) (Ok ()) o (op_evict ttl) self'.
Proof.
  intros Ht Hnow Httl Hpos. pose proof Hnow as (ms & -> & Hms).
  unfold redis_evict_expired, sweep, gets, of_outcome, mbind, stM_bind. rewrite now_millis_tick by lia. cbn zeta.
  destruct (rr_command _ self) as [self1 o1] eqn:Hc. apply rr_command_cases in Hc as [Hk Hcase].
  assert (Hpost : data (rr_conn self1) = _ → tracks (evict_expired (ms * 1000000) ttl clients) self1)
    by (intros Hd; eapply evict_tracks; [done|exact Hnow|done..|by rewrite as_millis_tick]).
  cbn [fst]. intros [= <- <-]. destruct Hcase as [[-> Hd]|(Hdown & _ & [Hd|Hd])].
  - left. split; [done|by apply Hpost].
  - right. split; [done|]. split; [done|]. left. by eapply tracks_same.
  - right. split; [done|]. split; [done|]. right. by apply Hpost.
Qed.

Lemma redis_active_answers clients self :
  tracks clients self →
  (∃ l, redis_active_clients self = Ok l ∧ l ≡ₚ active_clients clients) ∨
  ¬ RedisServerUp D ∧ backend_error (redis_active_clients self).
Proof.
  intros [Hz _]. unfold redis_active_clients.
  destruct (rr_query_cases (ZRANGE_all (rr_key self)) self) as [(l & Hl & Hp)|Herr]; [left|by right].
  exists l. split; [done|]. cbn [answers] in Hp. rewrite Hp, Hz, map_to_list_fmap, map_map.
  unfold active_clients. rewrite (hash_order_perm (H:=O)). apply reflexive_eq, map_ext. by intros [].
Qed.

Definition whole_millis (p : Z * registry_op) : Prop :=
  on_tick p.1 ∧ match p.2 with op_evict ttl => on_tick ttl ∧ 0 < ttl | _ => True end.

Lemma registry_call_follows clients self self' now op o :
  tracks clients self → whole_millis (now, op) → registry_call now op self = (self', o) →
  follows clients (registry_call now op clients).1 (registry_call now op clients).2 o op self'.
Proof.
  intros Ht [Hnow Hop] Hcall. destruct op as [id|id|ttl]; simpl in *.
  - by eapply redis_register_follows.
  - by eapply redis_heartbeat_follows.
  - destruct Hop. by eapply redis_evict_follows.
Qed.

(** The calls on the map in memory, of which some failed: with or without their effect. *)
Inductive degraded : list (Z * registry_op) → InMemoryRegistry → list (outcome RegistryError ()) → InMemoryRegistry → Prop :=
  | degraded_none clients : degraded [] clients [] clients
  | degraded_served now op ops clients os clients' :
      degraded ops (registry_call now op clients).1 os clients' →
      degraded ((now, op) :: ops) clients ((registry_call now op clients).2 :: os) clients'
  | degraded_failed now op ops clients o clients1 os clients' :
      failed_call op o → clients1 = clients ∨ clients1 = (registry_call now op clients).1 →
      degraded ops clients1 os clients' → degraded ((now, op) :: ops) clients (o :: os) clients'.

Lemma registry_calls_degraded ops clients self :
  Forall whole_millis ops → tracks clients self →
  ∃ clients', degraded ops clients (registry_calls ops self).2 clients' ∧ tracks clients' (registry_calls ops self).1.
Proof.
  intros Hops. revert clients self. induction Hops as [|[now op] ops Hop _ IH]; intros clients self Ht; simpl.
  { exists clients. by split; [constructor|]. }
  destruct (registry_call now op self) as [self1 o1] eqn:Hcall.
  destruct (registry_call_follows _ _ _ _ _ _ Ht Hop Hcall) as [[-> Ht1]|(_ & Hfail & [Ht1|Ht1])];
    destruct (IH _ _ Ht1) as (clients' & Hdeg & Ht'); destruct (registry_calls ops self1); exists clients'; (split; [|done]);
    [by constructor|by eapply degraded_failed; [|left|]|by eapply degraded_failed; [|right|]].
Qed.

Lemma registry_calls_up ops clients self :
  RedisServerUp D → Forall whole_millis ops → tracks clients self →
  (registry_calls ops self).2 = (registry_calls ops clients).2 ∧
  tracks (registry_calls ops clients).1 (registry_calls ops self).1.
Proof.
  intros Hup Hops. revert clients self. induction Hops as [|[now op] ops Hop _ IH]; intros clients self Ht; simpl; [done|].
  destruct (registry_call now op self) as [self1 o1] eqn:Hcall.
  destruct (registry_call_follows _ _ _ _ _ _ Ht Hop Hcall) as [[-> Ht1]|[[] _]]; [|done].
  destruct (IH _ _ Ht1) as [Hos Ht2].
  destruct (registry_call now op clients) as [clients1 v]. simpl in *.
  destruct (registry_calls ops self1), (registry_calls ops clients1). simpl in *. by subst.
Qed.

(** C33: the Redis registry is the one in memory, as far as Redis answers.  On a clock that
    ticks in milliseconds and with positive times to live, any sequence of registrations,
    heartbeats and sweeps is that sequence on the map in memory, with the same verdicts,
    but for calls that Redis failed: those report a backend error (a sweep is silent), and
    took effect as a whole or not at all; and the active clients that are read back are
    that map's.  When no command fails the verdicts are all the same: a beat within the
    millisecond of the last is a beat, and a sweep keeps exactly the same clients. *)
Theorem redis_registry_refines_memory (ops : list (Z * registry_op)) (clients : InMemoryRegistry) (self : RedisRegistry D) :
  Forall whole_millis ops → tracks clients self →
  (∃ clients', degraded ops clients (registry_calls ops self).2 clients' ∧ tracks clients' (registry_calls ops self).1 ∧
     ((∃ l, reg_active_clients (registry_calls ops self).1 = Ok l ∧ l ≡ₚ active_clients clients') ∨
      backend_error (reg_active_clients (registry_calls ops self).1))) ∧
  (RedisServerUp D →
     (registry_calls ops self).2 = (registry_calls ops clients).2 ∧
     tracks (registry_calls ops clients).1 (registry_calls ops self).1 ∧
     ∃ l, reg_active_clients (registry_calls ops self).1 = Ok l ∧
          l ≡ₚ active_clients (registry_calls ops clients).1).
Proof.
  intros Hops Ht. split.
  - destruct (registry_calls_degraded _ _ _ Hops Ht) as (clients' & Hdeg & Ht'). exists clients'.
    split_and!; [done..|]. destruct (redis_active_answers _ _ Ht') as [?|[_ ?]]; [by left|by right].
  - intros Hup. destruct (registry_calls_up _ _ _ Hup Hops Ht) as [Ho Ht']. split_and!; [done..|].
    by destruct (redis_active_answers _ _ Ht') as [?|[[] _]].
Qed.
End refinement.

(** ** The allow-list against the one in memory *)

Lemma decode_encode_identity identity : decode_identity (encode_identity identity) = Some identity.
Proof. by destruct identity. Qed.

Lemma decode_identity_spec raw identity : decode_identity raw = Some identity ↔ raw = encode_identity identity.
Proof.
  split; [|intros ->; apply decode_encode_identity]. unfold decode_identity.
  destruct (strip_prefix "cert:" raw) as [fp|] eqn:Hc; [intros [= <-]; by apply strip_prefix_spec in Hc|].
  destruct (strip_prefix "token:" raw) as [tok|] eqn:Ht; [|done]. intros [= <-]. by apply strip_prefix_spec in Ht.
Qed.

#[export] Instance encode_identity_inj : Inj (=) (=) encode_identity.
Proof. intros a b Hab. apply (f_equal decode_identity) in Hab. rewrite !decode_encode_identity in Hab. congruence. Qed.

Section allowlist_refinement.
Context `{RedisServerLaws D}.

(** The hash is the map in memory, each identity encoded. *)
Definition holds (entries : InMemoryNodeAllowlist) (self : RedisNodeAllowlist D) : Prop :=
  hash (data (ra_conn self)) (ra_key self) = encode_identity <$> entries.

(** A command's effect on the hash, acknowledged or not. *)
Lemma ra_command_effect {T} (c : Command T) self self' o :
  ra_command c self = (self', o) →
  ra_key self' = ra_key self ∧
  match o with
  | Ok v => (data (ra_conn self'), v) = documented c (data (ra_conn self))
  | Err _ => data (ra_conn self') = data (ra_conn self) ∨
             data (ra_conn self') = (documented c (data (ra_conn self))).1
  | Panic => False
  end.
Proof.
  unfold ra_command. destruct (command c (ra_conn self)) as [d [e|v']] eqn:Hc; intros [= <- <-]; (split; [done|]); simpl.
  - by eapply command_err.
  - by apply command_ok.
Qed.

Lemma holds_set entries' self self' :
  ra_key self' = ra_key self →
  data (ra_conn self') = set_hash (ra_key self) (encode_identity <$> entries') (data (ra_conn self)) →
  holds entries' self'.
Proof. intros Hk Hd. unfold holds. rewrite Hk, Hd. simpl. by rewrite decide_True. Qed.

Lemma holds_same entries self self' :
  holds entries self → ra_key self' = ra_key self → data (ra_conn self') = data (ra_conn self) → holds entries self'.
Proof. unfold holds. by intros ? -> ->. Qed.

(** What an edit leaves: the change when it was acknowledged; otherwise the change or
    nothing. *)
Definition edited (before after : InMemoryNodeAllowlist) (r : RedisNodeAllowlist D * outcome NodeAuthError ()) : Prop :=
  match r.2 with
  | Ok _ => holds after r.1
  | Err _ => holds before r.1 ∨ holds after r.1
  | Panic => False
  end.

Lemma edit_spec {T} (c : Command T) before after self :
  holds before self →
  (documented c (data (ra_conn self))).1 = set_hash (ra_key self) (encode_identity <$> after) (data (ra_conn self)) →
  edited before after ((_ ← ra_command c; mret ()) self).
Proof.
  intros Hh Hdoc. unfold edited, mbind, stM_bind. destruct (ra_command c self) as [self' o] eqn:Hc.
  apply ra_command_effect in Hc as [Hk Ho]. destruct o as [v|e|]; [| |done]; cbn.
  - apply (holds_set _ self); [done|]. rewrite <-Hdoc. by rewrite <-Ho.
  - destruct Ho as [Ho|Ho]; [left; by eapply holds_same|right]. apply (holds_set _ self); [done|].
    by rewrite Ho.
Qed.

Lemma redis_allow_edits entries self id identity :
  holds entries self → edited entries (allow id identity entries) (redis_allow id identity self).
Proof.
  intros Hh. apply (edit_spec (HSET (ra_key self) id (encode_identity identity)) entries); [done|].
  simpl. by rewrite Hh, <-fmap_insert.
Qed.

Lemma redis_revoke_edits entries self id :
  holds entries self → edited entries (revoke id entries) (redis_revoke id self).
Proof.
  intros Hh. apply (edit_spec (HDEL (ra_key self) id) entries); [done|]. simpl. by rewrite Hh, <-fmap_delete.
Qed.

Lemma redis_check_answers entries self id presented answer :
  holds entries self → redis_check id presented self = Ok answer → answer = check id presented entries.
Proof.
  intros Hh. unfold redis_check. destruct (query _ _) as [e|stored] eqn:Hq; [done|]. intros [= <-].
  apply query_ok in Hq. cbn [answers] in Hq. rewrite Hh, lookup_fmap in Hq. unfold check. subst stored.
  destruct (entries !! id) as [identity|]; [|done]. simpl. by rewrite decode_encode_identity.
Qed.

(** The Redis allow-list is the one in memory, whatever fails.  An acknowledged
    edit is in force, one that failed is in force or was not made, every answer to a
    check and every listing is the one the map in memory gives, and nothing panics. *)
Theorem redis_allowlist_refines_memory `{O : HashOrder} `{!HashOrderLaws O}
    (entries : InMemoryNodeAllowlist) (self : RedisNodeAllowlist D) (id : string) (identity : NodeIdentity) :
  holds entries self →
  edited entries (allow id identity entries) (nal_allow id identity self) ∧
  edited entries (revoke id entries) (nal_revoke id self) ∧
  match nal_check id identity self with
  | Ok answer => answer = check id identity entries
  | Err _ => True
  | Panic => False
  end ∧
  match nal_list self with
  | Ok ids => ids ≡ₚ list_allowed entries
  | Err _ => True
  | Panic => False
  end.
Proof.
  intros Hh. split; [by apply redis_allow_edits|]. split; [by apply redis_revoke_edits|]. split.
  - cbn [nal_check RedisNodeAllowlist_allowlist]. destruct (redis_check id identity self) as [a|e|] eqn:Hc; [|done|].
    + by eapply redis_check_answers.
    + unfold redis_check in Hc. by destruct (query _ _).
  - cbn [nal_list RedisNodeAllowlist_allowlist]. unfold redis_list. destruct (query _ _) as [e|l] eqn:Hq; [done|].
    apply query_ok in Hq. cbn [answers] in Hq. simpl. rewrite Hq, Hh, map_to_list_fmap, map_map.
    unfold list_allowed. rewrite (hash_order_perm (H:=O)). apply reflexive_eq, map_ext. by intros [].
Qed.

(** A value in the hash that no identity encodes to admits nobody. *)
Lemma malformed_entry_admits_nobody (self : RedisNodeAllowlist D) id raw presented answer :
  hash (data (ra_conn self)) (ra_key self) !! id = Some raw → (∀ identity, raw ≠ encode_identity identity) →
  redis_check id presented self = Ok answer → answer = false.
Proof.
  intros Hraw Hno. unfold redis_check. destruct (query _ _) as [e|stored] eqn:Hq; [done|]. intros [= <-].
  apply query_ok in Hq. cbn [answers] in Hq. rewrite Hraw in Hq. subst stored. simpl.
  destruct (decode_identity raw) as [i|] eqn:Hd; [|done]. apply decode_identity_spec in Hd. by destruct (Hno i).
Qed.

(** The promise the admin routes rely on. *)
#[export] Instance RedisNodeAllowlist_laws `{!RedisServerUp D} : NodeAllowlistLaws (RedisNodeAllowlist D).
Proof.
  assert (Hcheck : ∀ id presented self (i : option NodeIdentity),
    hash (data (ra_conn self)) (ra_key self) !! id = encode_identity <$> i →
    redis_check id presented self = Ok (bool_decide (i = Some presented))).
  { intros id presented self i Hi. unfold redis_check.
    destruct (query_up (HGET (ra_key self) id) (ra_conn self)) as [stored Hq]. rewrite Hq. simpl. f_equal.
    apply query_ok in Hq. cbn [answers] in Hq. rewrite Hi in Hq. subst stored.
    destruct i as [i|]; [|done]. simpl. rewrite decode_encode_identity.
    apply eq_true_iff_eq. rewrite matches_spec, bool_decide_eq_true. naive_solver. }
  assert (Hread : ∀ (T : Type) (c : Command T) (self self' : RedisNodeAllowlist D),
    (_ ← ra_command c; mret ()) self = (self', Ok ()) →
    ra_key self' = ra_key self ∧ data (ra_conn self') = (documented c (data (ra_conn self))).1).
  { intros T c self self'. unfold mbind, stM_bind. destruct (ra_command c self) as [self1 o] eqn:Hc.
    apply ra_command_effect in Hc as [Hk Ho]. destruct o; [|done..]. intros [= <-]. split; [done|]. by rewrite <-Ho. }
  split.
  - intros id identity self self' [Hk Hd]%(Hread _ (HSET (ra_key self) id (encode_identity identity))) presented.
    simpl. rewrite (Hcheck _ _ _ (Some identity)); [f_equal; apply bool_decide_ext; naive_solver|].
    rewrite Hk, Hd. simpl. rewrite decide_True by done. by rewrite lookup_insert_eq.
  - intros id self self' [Hk Hd]%(Hread _ (HDEL (ra_key self) id)) presented. simpl. apply (Hcheck _ _ _ None).
    rewrite Hk, Hd. simpl. rewrite decide_True by done. by rewrite lookup_delete_eq.
Qed.
End allowlist_refinement.

(** ** A server in memory *)

Definition answer {T} (q : Query T) (k : Keyspace) : T :=
  match q with
  | ZSCORE key member => zset k key !! member
  | ZRANGE_all key => map fst (map_to_list (zset k key))
  | HGET key field => hash k key !! field
  | HKEYS key => map fst (map_to_list (hash k key))
  end.

#[local] Instance local_redis : RedisServer Keyspace := {|
  command _ c k := let '(k, v) := documented c k in (k, inr v);
  query _ q k := inr (answer q k);
|}.

#[local] Instance local_redis_laws : RedisServerLaws Keyspace.
Proof.
  refine {| data k := k |}.
  - intros T c d d' v. simpl. destruct (documented c d). by intros [= <- <-].
  - intros T c d d' e. simpl. by destruct (documented c d).
  - intros T q d v [= <-]. by destruct q; simpl.
Defined.

#[local] Instance local_redis_up : RedisServerUp Keyspace.
Proof. split; [|by eexists]. intros T c d. simpl. destruct (documented c d). by eexists. Qed.

Definition empty_keyspace : Keyspace := {| zset := λ _, ∅; hash := λ _, ∅ |}.

#[local] Instance key_order : HashOrder := λ l, l.
#[local] Instance key_order_laws : HashOrderLaws key_order.
Proof. intros l. apply Permutation_refl. Qed.

Definition fresh_registry : RedisRegistry Keyspace := {| rr_conn := empty_keyspace; rr_key := DEFAULT_CLIENTS_KEY |}.

(** Two beats in one millisecond, a stranger's beat, a sweep that evicts one of two. *)
Definition registry_script : list (Z * registry_op) :=
  [(1000000, op_register "a"); (2000000, op_register "b"); (5000000, op_heartbeat "a"); (5000000, op_heartbeat "a");
   (5000000, op_heartbeat "ghost"); (6000000, op_register "b"); (7000000, op_evict 3000000)].

Lemma redis_registry_refines_memory_witness :
  (registry_calls registry_script fresh_registry).2 =
    [Ok (); Ok (); Ok (); Ok (); Err (NotRegistered "ghost"); Err (AlreadyRegistered "b"); Ok ()] ∧
  ∃ l, reg_active_clients (registry_calls registry_script fresh_registry).1 = Ok l ∧ l ≡ₚ ["a"%string].
Proof.
  destruct (redis_registry_refines_memory registry_script ∅ fresh_registry) as [_ Hup]; cycle 2;
    [destruct (Hup local_redis_up) as (Ho & _ & Hl); split; [exact Ho|exact Hl]|..].
  - assert (Htick : ∀ ms, 0 ≤ ms < 2 ^ 53 → on_tick (ms * 1000000)) by (intros ms Hms; by exists ms).
    repeat apply Forall_cons_2; try apply Forall_nil_2; (split; [|try done]).
    + apply (Htick 1). lia.
    + apply (Htick 2). lia.
    + apply (Htick 5). lia.
    + apply (Htick 5). lia.
    + apply (Htick 5). lia.
    + apply (Htick 6). lia.
    + apply (Htick 7). lia.
    + split; [apply (Htick 3)|]; simpl; lia.
  - split; [symmetry; apply fmap_empty|apply map_Forall_empty].
Defined.

Lemma redis_allowlist_refines_memory_witness :
  let self : RedisNodeAllowlist Keyspace := {| ra_conn := empty_keyspace; ra_key := DEFAULT_ALLOWLIST_KEY |} in
  edited ∅ (allow "n" (SharedToken "s") ∅) (nal_allow "n" (SharedToken "s") self) ∧
  nal_check "n" (SharedToken "s") (nal_allow "n" (SharedToken "s") self).1 = Ok true.
Proof.
  intros self. split; [|vm_compute; reflexivity].
  apply (redis_allowlist_refines_memory ∅ self "n" (SharedToken "s")). symmetry. apply fmap_empty.
Defined.
