(* ===== verification/S3.v ===== *)
(** * The object store ([conflux-store/src/s3_store.rs])

    Checkpoints as objects [<prefix>/checkpoint-<round>.bin] of a bucket.  The service
    is the interface [ObjectStore]: the five requests the store sends, with their
    documented effects as laws; which requests fail, whether a failed one took effect,
    and how a listing is cut into pages, are the service's choice. *)

From S2P Require Import Prelude Float Wire Store.
From Stdlib Require Import Ascii.

Open Scope Z_scope.

(** ** The service *)

Notation key := (list ascii).

Class ObjectStore (B : Type) := {
  head_bucket : string → B → string + ();
  create_bucket : string → B → B * (string + ());
  (** Every page of [ListObjectsV2], as the paginator yields them; an object of a
      listing may come without its key. *)
  list_objects_v2 : string → key → B → list (string + list (option key));
  get_object : string → key → B → string + bytes;
  put_object : string → key → bytes → B → B * (string + ());
}.

Definition starts_with (p k : key) : bool := bool_decide (is_Some (strip_prefix p k)).

Class ObjectStoreLaws (B : Type) `{ObjectStore B} := {
  objects : string → B → gmap key bytes;
  (** A listing read to its end has each key with the prefix once. *)
  list_objects_ok bucket p b pages :
    list_objects_v2 bucket p b = map inr pages →
    concat pages ≡ₚ map Some (List.filter (starts_with p) (map fst (map_to_list (objects bucket b))));
  get_object_ok bucket k b body : get_object bucket k b = inr body → objects bucket b !! k = Some body;
  put_object_ok bucket k body b b' :
    put_object bucket k body b = (b', inr ()) → objects bucket b' = <[k := body]> (objects bucket b);
  put_object_err bucket k body b b' e :
    put_object bucket k body b = (b', inl e) →
    objects bucket b' = objects bucket b ∨ objects bucket b' = <[k := body]> (objects bucket b);
}.

(** A service whose reads are answered: every page arrives, and an object that is
    there is returned. *)
Class ObjectStoreReadable (B : Type) `{ObjectStoreLaws B} := {
  no_such_key : key → string;
  list_objects_read bucket p b : ∃ pages, list_objects_v2 bucket p b = map inr pages;
  get_object_read bucket k b :
    get_object bucket k b = match objects bucket b !! k with Some body => inr body | None => inl (no_such_key k) end;
}.

(** The SDK's client for an endpoint and credentials; building one sends nothing. *)
Class S3Client (B : Type) := client_from_conf : string → string → string → B.

(** ** The store *)

Record S3Store (B : Type) := { s3_client : B; s3_bucket : string; s3_prefix : key }.
Arguments s3_client {B}.
Arguments s3_bucket {B}.
Arguments s3_prefix {B}.

Definition DEFAULT_PREFIX : key := String.list_ascii_of_string "conflux".
Definition slash_checkpoint : key := String.list_ascii_of_string "/checkpoint-".

Section s3_store.
Context `{ObjectStore B}.

Definition s3_connect_with_prefix `{!S3Client B} (endpoint_url bucket access_key secret_key : string) (prefix : key)
    : outcome StoreError (S3Store B) :=
  let client := client_from_conf endpoint_url access_key secret_key in
  let client :=
    match head_bucket bucket client with
    | inr _ => client
    | inl _ => (create_bucket bucket client).1
    end in
  Ok {| s3_client := client; s3_bucket := bucket; s3_prefix := prefix |}.

Definition s3_connect `{!S3Client B} (endpoint_url bucket access_key secret_key : string) : outcome StoreError (S3Store B) :=
  s3_connect_with_prefix endpoint_url bucket access_key secret_key DEFAULT_PREFIX.

Definition key_for (round : Z) (self : S3Store B) : key :=
  s3_prefix self ++ slash_checkpoint ++ u64_to_string round ++ bin_suffix.
Definition key_prefix (self : S3Store B) : key := s3_prefix self ++ slash_checkpoint.

Definition backend {A} (r : string + A) : outcome StoreError A :=
  match r with inl message => Err (StoreBackend message) | inr a => Ok a end.

Definition round_of_key (list_prefix k : key) : option Z :=
  match strip_prefix list_prefix k with
  | Some s => match strip_suffix bin_suffix s with Some s => parse_u64 s | None => None end
  | None => None
  end.

(** The pages are read in order; the first that fails ends the listing. *)
Definition s3_rounds (self : S3Store B) : outcome StoreError (list Z) :=
  let list_prefix := key_prefix self in
  pages ← collect backend (list_objects_v2 (s3_bucket self) list_prefix (s3_client self));
  Ok (sort_by Z.leb (omap (λ k, k ≫= round_of_key list_prefix) (concat pages))).

Definition s3_fetch (round : Z) (self : S3Store B) : outcome StoreError (list f32) :=
  let key := key_for round self in
  body ← backend (get_object (s3_bucket self) key (s3_client self));
  if negb (length body mod 4 =? 0)%nat then Err (MalformedCheckpoint key (length body))
  else Ok (as_chunks_4 body).

Definition s3_load_latest_weights (self : S3Store B) : outcome StoreError (list f32) :=
  rounds ← s3_rounds self;
  match last rounds with
  | None => Err NoCheckpoint
  | Some round => s3_fetch round self
  end.

Definition s3_load_checkpoint (round : Z) (self : S3Store B) : outcome StoreError (list f32) :=
  rounds ← s3_rounds self;
  if bool_decide (round ∈ rounds) then s3_fetch round self else Err NoCheckpoint.

Definition s3_save_checkpoint (round : Z) (weights : list f32) (self : S3Store B) : S3Store B * outcome StoreError () :=
  let '(client, r) := put_object (s3_bucket self) (key_for round self) (encode_weights weights) (s3_client self) in
  ({| s3_client := client; s3_bucket := s3_bucket self; s3_prefix := s3_prefix self |}, backend r).

#[export] Instance S3Store_store : Store (S3Store B) := {|
  load_latest_weights := s3_load_latest_weights;
  save_checkpoint := s3_save_checkpoint;
  list_checkpoints := s3_rounds;
  load_checkpoint := s3_load_checkpoint;
|}.
End s3_store.

(** ** Keys *)

Lemma strip_prefix_Some p k s : strip_prefix p k = Some s ↔ k = p ++ s.
Proof.
  split; [|intros ->; apply strip_prefix_app]. unfold strip_prefix. case_decide as Hp; [|done].
  intros [= <-]. rewrite <-(take_drop (length p) k) at 1. by rewrite Hp.
Qed.

Lemma strip_suffix_Some x k s : strip_suffix x k = Some s ↔ k = s ++ x.
Proof.
  split; [|intros ->; apply strip_suffix_app]. unfold strip_suffix. case_decide as Hp; [|done].
  destruct Hp as [Hp _]. intros [= <-]. rewrite <-(take_drop (length k - length x) k) at 1. by rewrite Hp.
Qed.

Lemma round_of_key_Some p k r :
  round_of_key p k = Some r ↔ ∃ s, k = p ++ s ++ bin_suffix ∧ parse_u64 s = Some r.
Proof.
  unfold round_of_key. split.
  - destruct (strip_prefix p k) as [t|] eqn:Ht; [|done]. apply strip_prefix_Some in Ht as ->.
    destruct (strip_suffix bin_suffix t) as [s|] eqn:Hs; [|done]. apply strip_suffix_Some in Hs as ->. eauto.
  - intros (s & -> & Hs). by rewrite strip_prefix_app, strip_suffix_app.
Qed.

Lemma round_of_key_for {B} (self : S3Store B) r :
  is_u64 r → round_of_key (key_prefix self) (key_for r self) = Some r.
Proof.
  intros Hr. apply round_of_key_Some. exists (u64_to_string r). split; [|by apply parse_u64_to_string].
  unfold key_prefix, key_for. by rewrite <-!app_assoc.
Qed.

Section listing.
Context `{ObjectStoreLaws B}.

(** The rounds the bucket holds, in no order. *)
Definition held (self : S3Store B) : list Z :=
  omap (round_of_key (key_prefix self)) (map fst (map_to_list (objects (s3_bucket self) (s3_client self)))).

Lemma elem_of_held self r :
  r ∈ held self ↔ ∃ k body, objects (s3_bucket self) (s3_client self) !! k = Some body ∧
                            round_of_key (key_prefix self) k = Some r.
Proof.
  unfold held. rewrite list_elem_of_omap. split.
  - intros (k & Hk & Hr). rewrite list_elem_of_In, in_map_iff in Hk.
    destruct Hk as ([k' body] & <- & Hin%list_elem_of_In). apply elem_of_map_to_list in Hin. eauto.
  - intros (k & body & Hk & Hr). exists k. split; [|done]. rewrite list_elem_of_In, in_map_iff.
    exists (k, body). split; [done|]. apply list_elem_of_In. by apply elem_of_map_to_list.
Qed.

Lemma omap_filtered p (ks : list key) :
  omap (λ k, k ≫= round_of_key p) (map Some (List.filter (starts_with p) ks)) = omap (round_of_key p) ks.
Proof.
  induction ks as [|k ks IH]; [done|]. cbn [List.filter]. destruct (starts_with p k) eqn:Hp; csimpl.
  - by rewrite IH.
  - rewrite IH. unfold starts_with in Hp. apply bool_decide_eq_false in Hp. unfold round_of_key.
    destruct (strip_prefix p k); [|done]. by destruct Hp.
Qed.

Lemma collect_pages (pages : list (list (option key))) : collect backend (map inr pages) = Ok pages.
Proof. apply collect_ok. rewrite Forall2_fmap_l. by apply Forall_Forall2_diag, Forall_true. Qed.

(** However the listing is cut into pages, it is every round held, in order. *)
Lemma rounds_complete self rs : s3_rounds self = Ok rs → rs ≡ₚ held self ∧ rs = sort_by Z.leb (held self).
Proof.
  intros Hrs. apply bind_ok_inv in Hrs as (pages & Hp & Hrs). injection Hrs as <-.
  assert (Hl : list_objects_v2 (s3_bucket self) (key_prefix self) (s3_client self) = map inr pages).
  { apply collect_ok in Hp. induction Hp as [|x y l l' Hx _ IH]; [done|]. simpl. f_equal; [|done].
    destruct x; [done|]. by injection Hx as ->. }
  pose proof (list_objects_ok _ _ _ _ Hl) as Hperm.
  assert (Hh : omap (λ k, k ≫= round_of_key (key_prefix self)) (concat pages) ≡ₚ held self).
  { unfold held. rewrite <-(omap_filtered (key_prefix self)). by apply omap_Permutation. }
  split; [by rewrite sort_by_perm|by apply sort_leb_perm].
Qed.

Context `{!ObjectStoreReadable B}.

Lemma rounds_read self : s3_rounds self = Ok (sort_by Z.leb (held self)).
Proof.
  destruct (list_objects_read (s3_bucket self) (key_prefix self) (s3_client self)) as [pages Hp].
  destruct (s3_rounds self) as [rs| |] eqn:Hrs; [f_equal; by apply rounds_complete|..];
    unfold s3_rounds in Hrs; rewrite Hp, collect_pages in Hrs; done.
Qed.

(** A save's effect on the rounds held. *)
Definition put_in (self self' : S3Store B) (r : Z) (ws : list f32) : Prop :=
  s3_bucket self' = s3_bucket self ∧ s3_prefix self' = s3_prefix self ∧
  objects (s3_bucket self') (s3_client self') =
    <[key_for r self := encode_weights ws]> (objects (s3_bucket self) (s3_client self)).

Definition untouched (self self' : S3Store B) : Prop :=
  s3_bucket self' = s3_bucket self ∧ s3_prefix self' = s3_prefix self ∧
  objects (s3_bucket self') (s3_client self') = objects (s3_bucket self) (s3_client self).

Lemma save_effect r ws self self' o :
  s3_save_checkpoint r ws self = (self', o) →
  match o with
  | Ok _ => put_in self self' r ws
  | Err _ => untouched self self' ∨ put_in self self' r ws
  | Panic => False
  end.
Proof.
  unfold s3_save_checkpoint. destruct (put_object _ _ _ _) as [b [e|[]]] eqn:Hp; intros [= <- <-]; simpl.
  - by destruct (put_object_err _ _ _ _ _ _ Hp) as [Ho|Ho]; [left|right].
  - split_and!; [done..|]. by apply put_object_ok.
Qed.

Lemma fetch_read self r body :
  objects (s3_bucket self) (s3_client self) !! key_for r self = Some body →
  s3_fetch r self =
    if negb (length body mod 4 =? 0)%nat then Err (MalformedCheckpoint (key_for r self) (length body))
    else Ok (as_chunks_4 body).
Proof. intros Hb. unfold s3_fetch. by rewrite get_object_read, Hb. Qed.

Lemma put_in_newest self self' r ws :
  is_u64 r → Forall (λ r', r' ≤ r) (held self) → put_in self self' r ws → newest_is r ws self'.
Proof.
  intros Hr Hall (Hb & Hpre & Ho).
  assert (Hkey : key_for r self' = key_for r self) by (unfold key_for; by rewrite Hpre).
  assert (Hkp : key_prefix self' = key_prefix self) by (unfold key_prefix; by rewrite Hpre).
  assert (Hin : r ∈ held self').
  { apply elem_of_held. exists (key_for r self), (encode_weights ws). rewrite Ho, lookup_insert_eq.
    split; [done|]. rewrite Hkp. by apply round_of_key_for. }
  assert (Hmax : Forall (λ r', r' ≤ r) (held self')).
  { rewrite Forall_forall in Hall |- *. intros r' (k & body & Hk & Hr')%elem_of_held.
    rewrite Ho, Hkp in *. destruct (decide (k = key_for r self)) as [->|Hne].
    - rewrite round_of_key_for in Hr' by done. injection Hr' as <-. done.
    - rewrite lookup_insert_ne in Hk by done. apply Hall, elem_of_held. eauto. }
  assert (Hfetch : Forall f32_wf ws → s3_fetch r self' = Ok ws).
  { intros Hws. rewrite (fetch_read _ _ (encode_weights ws)) by (by rewrite Hkey, Ho, lookup_insert_eq).
    rewrite length_encode_weights, Nat.Div0.mod_mul. simpl. by rewrite as_chunks_4_encode. }
  split; [intros Hws; split|]; cbn [load_latest_weights load_checkpoint list_checkpoints S3Store_store].
  - unfold s3_load_latest_weights. rewrite rounds_read. cbn.
    rewrite (last_sort_max (held self') r) by done. by apply Hfetch.
  - unfold s3_load_checkpoint. rewrite rounds_read. cbn.
    rewrite bool_decide_eq_true_2 by (by rewrite sort_by_perm). by apply Hfetch.
  - exists (sort_by Z.leb (held self')). split; [apply rounds_read|]. by rewrite sort_by_perm.
Qed.

Lemma untouched_same self self' :
  untouched self self' →
  s3_load_latest_weights self' = s3_load_latest_weights self ∧ s3_rounds self' = s3_rounds self.
Proof.
  intros (Hb & Hpre & Ho).
  assert (Hheld : held self' = held self) by (unfold held, key_prefix; by rewrite Ho, Hpre).
  unfold s3_load_latest_weights. rewrite !rounds_read, Hheld. split; [|done]. simpl.
  destruct (last _) as [m|]; [|done]. unfold s3_fetch, key_for. by rewrite !get_object_read, Ho, Hpre.
Qed.

(** The store keeps the trait's promise, whatever uploads fail and whether or not a
    failed one took effect. *)
#[export] Instance S3Store_laws : StoreLaws (S3Store B).
Proof.
  assert (Hheld : ∀ (self : S3Store B) rs r, list_checkpoints self = Ok rs → Forall (λ r', r' ≤ r) rs →
                    Forall (λ r', r' ≤ r) (held self)).
  { intros self rs r Hl. simpl in Hl. rewrite rounds_read in Hl. injection Hl as <-. by rewrite sort_by_perm. }
  split.
  - intros r ws self self' rs Hr Hl Hrs Hsave. apply save_effect in Hsave.
    eapply put_in_newest; [done| |exact Hsave]. by eapply Hheld.
  - intros r ws self self' rs e Hr Hl Hrs Hsave. apply save_effect in Hsave as [Hu|Hp]; [left|right].
    + by apply untouched_same.
    + eapply put_in_newest; [done| |exact Hp]. by eapply Hheld.
  - intros r ws self. split.
    + simpl. destruct (s3_save_checkpoint r ws self) as [self' o] eqn:Hs. apply save_effect in Hs.
      by destruct o.
    + simpl. unfold s3_load_latest_weights. rewrite rounds_read. simpl. destruct (last _); [|done].
      unfold s3_fetch, backend. no_panic.
Qed.
End listing.

(** ** Stores that share a bucket *)

Lemma split_at_last {A} (c : A) (a b x y : list A) :
  a ++ c :: x = b ++ c :: y → c ∉ x → c ∉ y → a = b.
Proof.
  revert b. induction a as [|z a IH]; intros [|w b] H Hx Hy; simpl in H; simplify_eq/=; [done|..].
  - exfalso. apply Hx. set_solver.
  - exfalso. apply Hy. set_solver.
  - f_equal. by apply (IH b).
Qed.

Lemma parse_digits_chars acc s r : parse_digits acc s = Some r → Forall (λ a, digit_value a ≠ None) s.
Proof.
  revert acc. induction s as [|a s IH]; intros acc; simpl; [constructor|].
  destruct (digit_value a) as [d|] eqn:Hd; [|done]. destruct (_ <=? _); [|done].
  intros H%IH. constructor; [by rewrite Hd|done].
Qed.

Lemma parse_u64_no_dash s r : parse_u64 s = Some r → "-"%char ∉ s.
Proof.
  assert (Hd : ∀ l n, parse_digits 0 l = Some n → "-"%char ∉ l).
  { intros l n Hl%parse_digits_chars Hin. rewrite Forall_forall in Hl. by apply (Hl _ Hin). }
  unfold parse_u64. destruct s as [|a s]; [done|].
  destruct (ascii_dec a "+") as [->|]; [|apply Hd].
  destruct s as [|b s]; [done|]. intros H%Hd. rewrite not_elem_of_cons. split; [done|exact H].
Qed.

Lemma foreign_key {B} (self other : S3Store B) r r' :
  is_u64 r → round_of_key (key_prefix self) (key_for r other) = Some r' → s3_prefix self = s3_prefix other.
Proof.
  intros Hr (s & Hk & Hs)%round_of_key_Some. unfold key_for, key_prefix in Hk. rewrite !app_assoc in Hk.
  apply app_inv_tail in Hk.
  assert (Hslash : slash_checkpoint = String.list_ascii_of_string "/checkpoint" ++ ["-"%char]) by reflexivity.
  rewrite Hslash, !app_assoc, <-!app_assoc in Hk. rewrite !(app_assoc (s3_prefix _)) in Hk.
  apply split_at_last in Hk; [by apply app_inv_tail in Hk| |].
  - eapply parse_u64_no_dash. by apply parse_u64_to_string.
  - by eapply parse_u64_no_dash.
Qed.

Lemma parse_digits_u64 acc s r : is_u64 acc → parse_digits acc s = Some r → is_u64 r.
Proof.
  revert acc. induction s as [|a s IH]; intros acc Ha; simpl; [by intros [= <-]|].
  destruct (digit_value a) as [d|] eqn:Hd; [|done]. destruct (Z.leb_spec (acc * 10 + d) u64_max); [|done].
  apply IH. unfold digit_value in Hd. unfold is_u64, u64_max in *. case_match; simplify_eq. lia.
Qed.

Lemma parse_u64_is_u64 s r : parse_u64 s = Some r → is_u64 r.
Proof.
  unfold parse_u64. set (l := match s with [] => s | _ => _ end). intros Hl.
  apply (parse_digits_u64 0 l); [done|]. by destruct l.
Qed.

Lemma held_u64 `{ObjectStoreLaws B} (self : S3Store B) r : r ∈ held self → is_u64 r.
Proof. intros (k & body & _ & (s & _ & Hs)%round_of_key_Some)%elem_of_held. by eapply parse_u64_is_u64. Qed.

(** The same store over another state of the service. *)
Definition on_client {B} (client : B) (self : S3Store B) : S3Store B :=
  {| s3_client := client; s3_bucket := s3_bucket self; s3_prefix := s3_prefix self |}.

Section sharing.
Context `{ObjectStoreLaws B} `{!ObjectStoreReadable B}.

Lemma foreign_put_held (self other other' : S3Store B) r ws :
  s3_client other = s3_client self → s3_bucket other = s3_bucket self → s3_prefix other ≠ s3_prefix self →
  is_u64 r → put_in other other' r ws →
  held (on_client (s3_client other') self) ≡ₚ held self ∧
  ∀ m, m ∈ held self → s3_fetch m (on_client (s3_client other') self) = s3_fetch m self.
Proof.
  intros Hc Hb Hne Hr (Hb' & _ & Ho). rewrite Hb' in Ho. rewrite Hb, Hc in Ho.
  assert (Hno : round_of_key (key_prefix self) (key_for r other) = None).
  { destruct (round_of_key _ _) as [r'|] eqn:Hk; [|done]. apply foreign_key in Hk; congruence. }
  split.
  - unfold held, key_prefix, on_client. cbn [s3_bucket s3_client s3_prefix]. rewrite Ho.
    set (obj := objects (s3_bucket self) (s3_client self)). set (k := key_for r other) in *.
    change (s3_prefix self ++ slash_checkpoint) with (key_prefix self).
    destruct (obj !! k) as [body|] eqn:Hk.
    + rewrite <-(insert_delete_id obj k body Hk) at 2. rewrite <-(insert_delete_eq obj k).
      rewrite !map_to_list_insert by apply lookup_delete_eq. csimpl. by rewrite Hno.
    + rewrite map_to_list_insert by done. csimpl. by rewrite Hno.
  - intros m Hm. unfold s3_fetch, on_client, key_for. cbn [s3_bucket s3_client s3_prefix].
    rewrite !get_object_read, Ho, lookup_insert_ne; [done|]. intros Heq.
    assert (Hkey : key_for m self = key_for r other) by done. rewrite <-Hkey in Hno.
    by rewrite round_of_key_for in Hno by by eapply held_u64.
Qed.

(** C35: a bucket keeps what it is given, and tells experiments apart.  However a
    listing is cut into pages, and whatever uploads fail, the store keeps the promise
    the round pipeline relies on; and a save under one prefix, acknowledged or not,
    changes nothing that a store of the same bucket under another prefix loads or lists. *)
Theorem s3_store_keeps_promise (self other other' : S3Store B) (r : Z) (ws : list f32) (o : outcome StoreError ()) :
  s3_client other = s3_client self → s3_bucket other = s3_bucket self → s3_prefix other ≠ s3_prefix self →
  is_u64 r → save_checkpoint r ws other = (other', o) →
  StoreLaws (S3Store B) ∧
  let self' := on_client (s3_client other') self in
  load_latest_weights self' = load_latest_weights self ∧ list_checkpoints self' = list_checkpoints self ∧
  ∀ r', load_checkpoint r' self' = load_checkpoint r' self.
Proof.
  intros Hc Hb Hne Hr Hsave. split; [apply _|]. intros self'.
  assert (Hsame : s3_rounds self' = s3_rounds self ∧ ∀ m, m ∈ held self → s3_fetch m self' = s3_fetch m self).
  { apply save_effect in Hsave.
    assert (Hcases : untouched other other' ∨ put_in other other' r ws) by (destruct o; tauto).
    destruct Hcases as [(Hb' & _ & Ho)|Hput].
    - rewrite Hb', Hb, Hc in Ho. unfold self', s3_fetch, on_client, key_for.
      split; [|intros m _; cbn [s3_bucket s3_client s3_prefix]; by rewrite !get_object_read, Ho].
      rewrite !rounds_read. unfold held, key_prefix. cbn [s3_bucket s3_client s3_prefix]. by rewrite Ho.
    - destruct (foreign_put_held _ _ _ _ _ Hc Hb Hne Hr Hput) as [Hp Hf]. split; [|exact Hf].
      rewrite !rounds_read. f_equal. by apply sort_leb_perm. }
  destruct Hsame as [Hrounds Hfetch].
  assert (Hin : ∀ m rs, s3_rounds self = Ok rs → m ∈ rs → m ∈ held self).
  { intros m rs [Hp _]%rounds_complete. by rewrite Hp. }
  cbn [load_latest_weights list_checkpoints load_checkpoint S3Store_store].
  unfold s3_load_latest_weights, s3_load_checkpoint. rewrite Hrounds. split_and!; [|done|intros r'].
  - destruct (s3_rounds self) as [rs| |] eqn:Hrs; [|done..]. simpl. destruct (last rs) as [m|] eqn:Hm; [|done].
    apply Hfetch. eapply Hin; [done|]. apply last_Some in Hm as [l ->]. set_solver.
  - destruct (s3_rounds self) as [rs| |] eqn:Hrs; [|done..]. simpl. case_bool_decide as Hr'; [|done].
    apply Hfetch. by eapply Hin.
Qed.
End sharing.

(** ** A bucket in memory, listed one object to a page *)

#[local] Instance local_bucket : ObjectStore (gmap key bytes) := {|
  head_bucket _ _ := inl "NotFound"%string;
  create_bucket _ b := (b, inr ());
  list_objects_v2 _ p b := map (λ k, inr [Some k]) (List.filter (starts_with p) (map fst (map_to_list b)));
  get_object _ k b := match b !! k with Some body => inr body | None => inl "NoSuchKey"%string end;
  put_object _ k body b := (<[k := body]> b, inr ());
|}.

#[local] Instance local_bucket_laws : ObjectStoreLaws (gmap key bytes).
Proof.
  refine {| objects _ b := b |}.
  - intros bk p b pages. simpl. generalize (List.filter (starts_with p) (map fst (map_to_list b))). intros ks Hp.
    assert (pages = map (λ k, [Some k]) ks) as ->.
    { revert pages Hp. induction ks as [|k ks IH]; intros [|pg pages] Hp; try done. simpl in *.
      injection Hp as <- Hp. f_equal. by apply IH. }
    clear Hp. induction ks as [|k ks IH]; simpl; [done|]. by rewrite IH.
  - intros bk k b body. simpl. destruct (b !! k); [by intros [= ->]|done].
  - by intros bk k body b b' [= <-].
  - done.
Defined.

#[local] Instance local_bucket_readable : ObjectStoreReadable (gmap key bytes).
Proof.
  refine {| no_such_key _ := "NoSuchKey"%string |}; [|done].
  intros bk p b. simpl. exists (map (λ k, [Some k]) (List.filter (starts_with p) (map fst (map_to_list b)))).
  by rewrite map_map.
Defined.

Definition prod : S3Store (gmap key bytes) :=
  {| s3_client := ∅; s3_bucket := "models"; s3_prefix := String.list_ascii_of_string "prod" |}.
Definition staging : S3Store (gmap key bytes) :=
  {| s3_client := (save_checkpoint 9 [f32_one] prod).1.(s3_client); s3_bucket := "models";
     s3_prefix := String.list_ascii_of_string "staging" |}.

(** Round 10 is listed after round 9, though its key sorts before; the other prefix's
    save changes neither. *)
Lemma s3_store_keeps_promise_witness :
  let both := (save_checkpoint 10 [f32_of_Z 2] (save_checkpoint 9 [f32_one] prod).1).1 in
  list_checkpoints both = Ok [9; 10] ∧
  StoreLaws (S3Store (gmap key bytes)) ∧
  load_latest_weights (on_client (save_checkpoint 11 [f32_one] staging).1.(s3_client) (save_checkpoint 9 [f32_one] prod).1)
    = Ok [f32_one].
Proof.
  split; [vm_compute; reflexivity|].
  destruct (s3_store_keeps_promise (save_checkpoint 9 [f32_one] prod).1 staging (save_checkpoint 11 [f32_one] staging).1
    11 [f32_one] (Ok ())) as [Hlaws [Hload _]]; [reflexivity|reflexivity|discriminate|unfold is_u64; lia|reflexivity|].
  split; [exact Hlaws|]. rewrite Hload. vm_compute. reflexivity.
Defined.
