(* ===== verification/Postgres.v ===== *)
(** * The database ([conflux-store/src/postgres_store.rs])

    Checkpoints and the privacy history as three tables.  The database is the interface
    [Postgres]: the statements the store sends, with what SQL says of each as laws;
    which fail, and whether a failed one took effect, is the database's choice.  Round
    numbers are [u64]s in a [BIGINT] column: cast in and out, and ordered signed. *)

From S2P Require Import Prelude Float Wire Registry Reputation Privacy Store Config State.
From Stdlib Require Import Ascii.

Open Scope Z_scope.

(** ** The database *)

Record Database := {
  checkpoints : string → gmap Z bytes;
  privacy_rows : string → list (f32 * f32);
  client_rows : string → list (string * f32 * f32);
}.

(** The statements that write, as the store sends them. *)
Inductive Statement : Type :=
  (** CREATE TABLE IF NOT EXISTS, for each of the three. *)
  | CreateTables (table privacy_rounds client_privacy_rounds : string)
  (** INSERT INTO table (noise_multiplier, sample_rate) VALUES ($1, $2) *)
  | InsertRound (table : string) (noise_multiplier sample_rate : f32)
  (** INSERT INTO table (client_id, noise_multiplier, sample_rate) VALUES ($1, $2, $3) *)
  | InsertClientRound (table client_id : string) (noise_multiplier sample_rate : f32)
  (** INSERT INTO table (round, weights) VALUES ($1, $2)
      ON CONFLICT (round) DO UPDATE SET weights = EXCLUDED.weights *)
  | UpsertCheckpoint (table : string) (round : Z) (weights : bytes).

(** The statements that read, by the rows they return. *)
Inductive Select : Type → Type :=
  (** SELECT noise_multiplier, sample_rate FROM table ORDER BY round_index *)
  | SelectRounds (table : string) : Select (list (f32 * f32))
  (** SELECT client_id, noise_multiplier, sample_rate FROM table ORDER BY round_index *)
  | SelectClientRounds (table : string) : Select (list (string * f32 * f32))
  (** SELECT weights FROM table ORDER BY round DESC LIMIT 1 *)
  | SelectLatest (table : string) : Select (option bytes)
  (** SELECT round FROM table ORDER BY round ASC *)
  | SelectRoundNumbers (table : string) : Select (list Z)
  (** SELECT weights FROM table WHERE round = $1 *)
  | SelectWhere (table : string) (round : Z) : Select (option bytes).

Class Postgres (D : Type) := {
  execute : Statement → D → D * (string + ());
  select {T} : Select T → D → string + T;
}.

Definition at_table {A} (table : string) (a : A) (f : string → A) : string → A :=
  λ t, if decide (t = table) then a else f t.

(** The rows after a statement.  Rows inserted into a table with a [BIGSERIAL] key come
    last in its order. *)
Definition executed (s : Statement) (d : Database) : Database :=
  match s with
  | CreateTables _ _ _ => d
  | InsertRound t noise_multiplier sample_rate =>
      {| checkpoints := checkpoints d; client_rows := client_rows d;
         privacy_rows := at_table t (privacy_rows d t ++ [(noise_multiplier, sample_rate)]) (privacy_rows d) |}
  | InsertClientRound t client_id noise_multiplier sample_rate =>
      {| checkpoints := checkpoints d; privacy_rows := privacy_rows d;
         client_rows := at_table t (client_rows d t ++ [(client_id, noise_multiplier, sample_rate)]) (client_rows d) |}
  | UpsertCheckpoint t round weights =>
      {| privacy_rows := privacy_rows d; client_rows := client_rows d;
         checkpoints := at_table t (<[round := weights]> (checkpoints d t)) (checkpoints d) |}
  end.

Definition round_numbers (d : Database) (table : string) : list Z :=
  sort_by Z.leb (map fst (map_to_list (checkpoints d table))).

Definition selected {T} (q : Select T) (d : Database) : T :=
  match q with
  | SelectRounds t => privacy_rows d t
  | SelectClientRounds t => client_rows d t
  | SelectLatest t => round ← last (round_numbers d t); checkpoints d t !! round
  | SelectRoundNumbers t => round_numbers d t
  | SelectWhere t round => checkpoints d t !! round
  end.

Definition is_i64 (z : Z) : Prop := - 2 ^ 63 ≤ z < 2 ^ 63.

Class PostgresLaws (D : Type) `{Postgres D} := {
  rows : D → Database;
  (** The column is a [BIGINT]. *)
  round_is_i64 d t round : is_Some (checkpoints (rows d) t !! round) → is_i64 round;
  execute_ok s d d' : execute s d = (d', inr ()) → rows d' = executed s (rows d);
  execute_err s d d' e : execute s d = (d', inl e) → rows d' = rows d ∨ rows d' = executed s (rows d);
  select_ok {T} (q : Select T) d v : select q d = inr v → v = selected q (rows d);
}.

(** A database whose reads are answered. *)
Class PostgresReadable (D : Type) `{Postgres D} := {
  select_read {T} (q : Select T) d : ∃ v, select q d = inr v;
}.

(** [tokio_postgres::connect], and the task that drives the connection. *)
Class PostgresConnect (D : Type) := tokio_postgres_connect : string → string + D.

(** ** The store *)

Record PostgresStore (D : Type) := {
  pg_client : D;
  pg_table : string;
  pg_privacy_rounds_table : string;
  pg_client_privacy_rounds_table : string;
}.
Arguments pg_client {D}.
Arguments pg_table {D}.
Arguments pg_privacy_rounds_table {D}.
Arguments pg_client_privacy_rounds_table {D}.

Definition DEFAULT_TABLE : string := "conflux_checkpoints".

Definition between (lo a hi : ascii) : bool := (N_of_ascii lo <=? N_of_ascii a)%N && (N_of_ascii a <=? N_of_ascii hi)%N.
Definition is_ascii_alphabetic (a : ascii) : bool := between "a" a "z" || between "A" a "Z".
Definition is_ascii_alphanumeric (a : ascii) : bool := is_ascii_alphabetic a || between "0" a "9".
Definition is_underscore (a : ascii) : bool := Ascii.eqb a "_".

Definition is_plain_identifier (name : string) : bool :=
  match String.list_ascii_of_string name with
  | c :: chars => (is_ascii_alphabetic c || is_underscore c) &&
                  forallb (λ c, is_ascii_alphanumeric c || is_underscore c) chars
  | [] => false
  end.

(** [as i64] and [as u64]. *)
Definition i64_of_u64 (n : Z) : Z := if n <? 2 ^ 63 then n else n - 2 ^ 64.
Definition u64_of_i64 (z : Z) : Z := z mod 2 ^ 64.

Definition db_error {A} (r : string + A) : outcome StoreError A :=
  match r with inl message => Err (StoreBackend message) | inr a => Ok a end.

Definition decode_blob (blob : bytes) (table : string) : outcome StoreError (list f32) :=
  if negb (length blob mod 4 =? 0)%nat
  then Err (MalformedCheckpoint (String.list_ascii_of_string ("postgres table " +:+ table)) (length blob))
  else Ok (as_chunks_4 blob).

Section postgres_store.
Context `{Postgres D}.
(** The text of the refusal, with the name in it. *)
Context (not_plain : string → string).

Definition postgres_connect_with_table `{!PostgresConnect D} (postgres_url table : string)
    : outcome StoreError (PostgresStore D) :=
  if negb (is_plain_identifier table) then Err (StoreBackend (not_plain table))
  else
    client ← db_error (tokio_postgres_connect postgres_url);
    let privacy_rounds_table := table +:+ "_privacy_rounds" in
    let client_privacy_rounds_table := table +:+ "_client_privacy_rounds" in
    let '(client, r) := execute (CreateTables table privacy_rounds_table client_privacy_rounds_table) client in
    _ ← db_error r;
    Ok {| pg_client := client; pg_table := table; pg_privacy_rounds_table := privacy_rounds_table;
          pg_client_privacy_rounds_table := client_privacy_rounds_table |}.

Definition postgres_connect `{!PostgresConnect D} (postgres_url : string) : outcome StoreError (PostgresStore D) :=
  postgres_connect_with_table postgres_url DEFAULT_TABLE.

Definition pg_execute (s : Statement) (self : PostgresStore D) : PostgresStore D * outcome StoreError () :=
  let '(client, r) := execute s (pg_client self) in
  ({| pg_client := client; pg_table := pg_table self; pg_privacy_rounds_table := pg_privacy_rounds_table self;
      pg_client_privacy_rounds_table := pg_client_privacy_rounds_table self |}, db_error r).

Definition pg_select {T} (q : Select T) (self : PostgresStore D) : outcome StoreError T :=
  db_error (select q (pg_client self)).

(** [by_client.entry(client_id).or_default().push(..)], row by row. *)
Definition group_by_client (rows : list (string * f32 * f32)) : gmap string (list (f32 * f32)) :=
  foldl (λ by_client '(client_id, noise_multiplier, sample_rate),
           <[client_id := default [] (by_client !! client_id) ++ [(noise_multiplier, sample_rate)]]> by_client)
    ∅ rows.

#[export] Instance PostgresStore_log : PrivacyRoundLog (PostgresStore D) := {|
  append_round noise_multiplier sample_rate self :=
    pg_execute (InsertRound (pg_privacy_rounds_table self) noise_multiplier sample_rate) self;
  append_round_for_client client_id noise_multiplier sample_rate self :=
    pg_execute (InsertClientRound (pg_client_privacy_rounds_table self) client_id noise_multiplier sample_rate) self;
  load_rounds self := pg_select (SelectRounds (pg_privacy_rounds_table self)) self;
  load_client_rounds self :=
    rows ← pg_select (SelectClientRounds (pg_client_privacy_rounds_table self)) self;
    Ok (group_by_client rows);
|}.

(** One row or none. *)
Definition row_weights (row : option bytes) (self : PostgresStore D) : outcome StoreError (list f32) :=
  match row with
  | None => Err NoCheckpoint
  | Some weights => decode_blob weights (pg_table self)
  end.

#[export] Instance PostgresStore_store : Store (PostgresStore D) := {|
  load_latest_weights self :=
    row ← pg_select (SelectLatest (pg_table self)) self;
    row_weights row self;
  list_checkpoints self :=
    rows ← pg_select (SelectRoundNumbers (pg_table self)) self;
    Ok (map u64_of_i64 rows);
  load_checkpoint round self :=
    row ← pg_select (SelectWhere (pg_table self) (i64_of_u64 round)) self;
    row_weights row self;
  save_checkpoint round weights self :=
    pg_execute (UpsertCheckpoint (pg_table self) (i64_of_u64 round) (encode_weights weights)) self;
|}.
End postgres_store.

(** ** Identifiers and round numbers *)

(** The refused names are exactly those outside [[A-Za-z_][A-Za-z0-9_]*], so a table
    name spliced into a statement holds no quote, space or separator. *)
Lemma is_plain_identifier_spec name :
  is_plain_identifier name = true ↔
  ∃ c chars, String.list_ascii_of_string name = c :: chars ∧
    (is_ascii_alphabetic c || is_underscore c) = true ∧
    Forall (λ c, (is_ascii_alphanumeric c || is_underscore c) = true) chars.
Proof.
  unfold is_plain_identifier. destruct (String.list_ascii_of_string name) as [|c chars]; [naive_solver|].
  rewrite andb_true_iff, forallb_forall. split.
  - intros [Hc Hs]. exists c, chars. split_and!; try done. apply Forall_forall. intros a Ha. by apply Hs, list_elem_of_In.
  - intros (c' & chars' & [= <- <-] & Hc & Hs). split; [done|]. intros a Ha%list_elem_of_In.
    by rewrite Forall_forall in Hs; apply Hs.
Qed.

Lemma u64_of_i64_of_u64 n : is_u64 n → u64_of_i64 (i64_of_u64 n) = n.
Proof.
  unfold is_u64, u64_of_i64, i64_of_u64. intros Hn. destruct (Z.ltb_spec n (2 ^ 63)).
  - by apply Z.mod_small.
  - symmetry. apply (Z.mod_unique _ _ (-1)); lia.
Qed.

Lemma i64_of_u64_is_i64 n : is_u64 n → is_i64 (i64_of_u64 n).
Proof. unfold is_u64, is_i64, i64_of_u64. intros Hn. destruct (Z.ltb_spec n (2 ^ 63)); lia. Qed.

(** A stored round that reads as one below [2 ^ 63] is that number. *)
Lemma u64_of_i64_small z r : is_i64 z → u64_of_i64 z ≤ r → r < 2 ^ 63 → 0 ≤ z ≤ r.
Proof.
  unfold is_i64, u64_of_i64. intros Hz Hle Hr. destruct (Z.le_gt_cases 0 z).
  - rewrite Z.mod_small in Hle by lia. lia.
  - assert (z mod 2 ^ 64 = z + 2 ^ 64) as He by (symmetry; apply (Z.mod_unique _ _ (-1)); lia). lia.
Qed.

Lemma at_table_eq {A} t (a : A) f : at_table t a f t = a.
Proof. unfold at_table. by rewrite decide_True. Qed.

Lemma at_table_ne {A} t t' (a : A) f : t' ≠ t → at_table t a f t' = f t'.
Proof. intros. unfold at_table. by rewrite decide_False. Qed.

(** ** What the store promises *)

Section laws.
Context `{PostgresLaws D}.

Definition same_tables (self self' : PostgresStore D) : Prop :=
  pg_table self' = pg_table self ∧ pg_privacy_rounds_table self' = pg_privacy_rounds_table self ∧
  pg_client_privacy_rounds_table self' = pg_client_privacy_rounds_table self.

Definition data_of (self : PostgresStore D) : Database := rows (pg_client self).

Lemma pg_execute_effect s self self' o :
  pg_execute s self = (self', o) →
  same_tables self self' ∧
  match o with
  | Ok _ => data_of self' = executed s (data_of self)
  | Err _ => data_of self' = data_of self ∨ data_of self' = executed s (data_of self)
  | Panic => False
  end.
Proof.
  unfold pg_execute. destruct (execute s (pg_client self)) as [d [e|[]]] eqn:Hx; intros [= <- <-]; (split; [done|]).
  - by eapply execute_err.
  - by apply execute_ok.
Qed.

Lemma elem_of_round_numbers d t z : z ∈ round_numbers d t ↔ is_Some (checkpoints d t !! z).
Proof.
  unfold round_numbers. rewrite sort_by_perm, list_elem_of_In, in_map_iff. split.
  - intros ([k b] & <- & Hin%list_elem_of_In). exists b. by apply elem_of_map_to_list.
  - intros [b Hb]. exists (z, b). split; [done|]. apply list_elem_of_In. by apply elem_of_map_to_list.
Qed.

(** The newest round's row is the one [ORDER BY round DESC LIMIT 1] returns. *)
Lemma select_latest_spec d t m b :
  checkpoints d t !! m = Some b → (∀ z, is_Some (checkpoints d t !! z) → z ≤ m) →
  selected (SelectLatest t) d = Some b.
Proof.
  intros Hm Hmax. simpl. unfold round_numbers. rewrite (last_sort_max _ m).
  - done.
  - rewrite <-(sort_by_perm Z.leb). apply elem_of_round_numbers. by eexists.
  - apply Forall_forall. intros z Hz. apply Hmax, elem_of_round_numbers. unfold round_numbers. by rewrite sort_by_perm.
Qed.

(** A read returns what the rows say, or fails; it never changes them. *)
Lemma pg_select_cases {T} (q : Select T) self :
  pg_select q self = Ok (selected q (data_of self)) ∨ ∃ message, pg_select q self = Err (StoreBackend message).
Proof.
  unfold pg_select. destruct (select q (pg_client self)) as [e|v] eqn:Hq; [right; by exists e|left].
  by rewrite (select_ok _ _ _ Hq).
Qed.

Definition pg_answered {A} (o : outcome StoreError A) (a : A) : Prop :=
  o = Ok a ∨ ∃ message, o = Err (StoreBackend message).

Lemma decode_stored ws t : Forall f32_wf ws → decode_blob (encode_weights ws) t = Ok ws.
Proof.
  intros Hws. unfold decode_blob. rewrite length_encode_weights, Nat.Div0.mod_mul. simpl.
  by rewrite as_chunks_4_encode.
Qed.

Lemma upserted_row self self' r ws :
  same_tables self self' →
  data_of self' = executed (UpsertCheckpoint (pg_table self) (i64_of_u64 r) (encode_weights ws)) (data_of self) →
  checkpoints (data_of self') (pg_table self') !! i64_of_u64 r = Some (encode_weights ws).
Proof. intros (Ht & _) Hd. rewrite Hd, Ht. simpl. rewrite at_table_eq. by rewrite lookup_insert_eq. Qed.

Lemma small_round r : 0 ≤ r < 2 ^ 63 → i64_of_u64 r = r ∧ u64_of_i64 r = r.
Proof.
  intros Hr. unfold i64_of_u64, u64_of_i64. rewrite (proj2 (Z.ltb_lt _ _)) by lia. split; [done|].
  apply Z.mod_small. lia.
Qed.

(** After a save of the newest round no row has a greater number. *)
Lemma upserted_rows self self' r ws rs :
  0 ≤ r < 2 ^ 63 → list_checkpoints self = Ok rs → Forall (λ r', r' ≤ r) rs → same_tables self self' →
  data_of self' = executed (UpsertCheckpoint (pg_table self) (i64_of_u64 r) (encode_weights ws)) (data_of self) →
  ∀ z, is_Some (checkpoints (data_of self') (pg_table self') !! z) → 0 ≤ z ≤ r.
Proof.
  intros Hr Hl Hrs (Ht & _) Hd z. destruct (small_round r Hr) as [Hi Hu]. rewrite Hd, Ht, Hi. simpl. rewrite at_table_eq.
  destruct (decide (z = r)) as [->|Hne]; [lia|]. rewrite lookup_insert_ne by done. intros Hz.
  cbn [list_checkpoints PostgresStore_store] in Hl.
  destruct (pg_select_cases (SelectRoundNumbers (pg_table self)) self) as [Hq|[m Hq]]; rewrite Hq in Hl; [|done].
  injection Hl as <-. apply u64_of_i64_small; [by eapply round_is_i64| |lia].
  rewrite Forall_forall in Hrs. apply Hrs. cbn [selected]. apply list_elem_of_In, in_map, list_elem_of_In.
  by apply elem_of_round_numbers.
Qed.

Lemma latest_answered self r ws :
  Forall f32_wf ws → checkpoints (data_of self) (pg_table self) !! r = Some (encode_weights ws) →
  (∀ z, is_Some (checkpoints (data_of self) (pg_table self) !! z) → 0 ≤ z ≤ r) →
  pg_answered (load_latest_weights self) ws.
Proof.
  intros Hws Hrow Hnew. cbn [load_latest_weights PostgresStore_store].
  destruct (pg_select_cases (SelectLatest (pg_table self)) self) as [->|[m ->]]; [left|right; by exists m].
  cbn [mbind outcome_bind]. rewrite (select_latest_spec _ _ r _ Hrow) by naive_solver. by apply decode_stored.
Qed.

Lemma saved_answered self r ws :
  Forall f32_wf ws → is_u64 r → checkpoints (data_of self) (pg_table self) !! i64_of_u64 r = Some (encode_weights ws) →
  pg_answered (load_checkpoint r self) ws ∧ ∃ rs, r ∈ rs ∧ pg_answered (list_checkpoints self) rs.
Proof.
  intros Hws Hr Hrow. split; cbn [load_checkpoint list_checkpoints PostgresStore_store].
  - destruct (pg_select_cases (SelectWhere (pg_table self) (i64_of_u64 r)) self) as [->|[m ->]]; [left|right; by exists m].
    cbn [mbind outcome_bind selected]. rewrite Hrow. by apply decode_stored.
  - exists (map u64_of_i64 (round_numbers (data_of self) (pg_table self))). split.
    + apply list_elem_of_In, in_map_iff. exists (i64_of_u64 r).
      split; [by apply u64_of_i64_of_u64|]. apply list_elem_of_In, elem_of_round_numbers. by eexists.
    + destruct (pg_select_cases (SelectRoundNumbers (pg_table self)) self) as [->|[m ->]]; [by left|right; by exists m].
Qed.

Context `{!PostgresReadable D}.

Lemma pg_select_read {T} (q : Select T) self : pg_select q self = Ok (selected q (data_of self)).
Proof.
  unfold pg_select. destruct (select_read q (pg_client self)) as [v Hv]. rewrite Hv. by rewrite (select_ok _ _ _ Hv).
Qed.

Lemma answered_read {A} (o : outcome StoreError A) (a : A) : pg_answered o a → (∀ m, o ≠ Err (StoreBackend m)) → o = Ok a.
Proof. intros [?|[m ?]] Hm; [done|by destruct (Hm m)]. Qed.

Lemma upserted_newest self self' r ws rs :
  0 ≤ r < 2 ^ 63 → list_checkpoints self = Ok rs → Forall (λ r', r' ≤ r) rs →
  same_tables self self' → data_of self' = executed (UpsertCheckpoint (pg_table self) (i64_of_u64 r) (encode_weights ws)) (data_of self) →
  newest_is r ws self'.
Proof.
  intros Hr Hl Hrs Ht Hd. pose proof (upserted_rows _ _ _ _ _ Hr Hl Hrs Ht Hd) as Hnew.
  pose proof (upserted_row _ _ _ _ Ht Hd) as Hrow. destruct (small_round r Hr) as [Hi _]. rewrite Hi in Hrow.
  split; [intros Hws; split|].
  - apply answered_read; [by eapply latest_answered|]. intros m. cbn [load_latest_weights PostgresStore_store].
    rewrite pg_select_read. cbn [mbind outcome_bind]. unfold row_weights, decode_blob. by repeat case_match.
  - apply answered_read; [apply saved_answered; [done|unfold is_u64; lia|by rewrite Hi]|].
    intros m. cbn [load_checkpoint PostgresStore_store].
    rewrite pg_select_read. cbn [mbind outcome_bind]. unfold row_weights, decode_blob. by repeat case_match.
  - cbn [list_checkpoints PostgresStore_store]. rewrite pg_select_read. eexists. split; [done|]. cbn [selected]. split.
    + apply list_elem_of_In, in_map_iff. exists r. split; [by apply small_round|].
      apply list_elem_of_In, elem_of_round_numbers. by eexists.
    + apply Forall_forall. intros x Hx. apply list_elem_of_In, in_map_iff in Hx as (z & <- & Hz%list_elem_of_In).
      apply elem_of_round_numbers, Hnew in Hz. unfold u64_of_i64. rewrite Z.mod_small; lia.
Qed.

#[export] Instance PostgresStore_laws : StoreLawsBelow (2 ^ 63) (PostgresStore D).
Proof.
  split.
  - intros r ws self self' rs Hr Hl Hrs [Ht Hd]%pg_execute_effect. by eapply upserted_newest.
  - intros r ws self self' rs e Hr Hl Hrs [Ht [Hd|Hd]]%pg_execute_effect; [left|right; by eapply upserted_newest].
    destruct Ht as (Ht & _). cbn [load_latest_weights list_checkpoints PostgresStore_store].
    rewrite !pg_select_read. cbn [mbind outcome_bind]. unfold row_weights. by rewrite Hd, Ht.
  - intros r ws self. split.
    + destruct (save_checkpoint r ws self) as [self' o] eqn:Hs. apply pg_execute_effect in Hs as [_ Ho]. by destruct o.
    + cbn [load_latest_weights PostgresStore_store]. rewrite pg_select_read. cbn [mbind outcome_bind].
      unfold row_weights, decode_blob. by repeat case_match.
Qed.

Lemma group_by_client_snoc rows id sigma q :
  group_by_client (rows ++ [(id, sigma, q)]) =
  <[id := default [] (group_by_client rows !! id) ++ [(sigma, q)]]> (group_by_client rows).
Proof. unfold group_by_client. by rewrite foldl_app. Qed.

#[export] Instance PostgresStore_log_laws : PrivacyRoundLogLaws (PostgresStore D).
Proof.
  split; cbn [append_round append_round_for_client load_rounds load_client_rounds PostgresStore_log].
  - intros sigma q self self' rs cs. rewrite !pg_select_read. cbn [mbind outcome_bind].
    intros [= <-] [= <-] [(Ht & Hp & Hc) Hd]%pg_execute_effect. rewrite Hd, Hp, Hc. simpl. by rewrite at_table_eq.
  - intros id sigma q self self' rs cs. rewrite !pg_select_read. cbn [mbind outcome_bind].
    intros [= <-] [= <-] [(Ht & Hp & Hc) Hd]%pg_execute_effect. rewrite Hd, Hp, Hc. simpl. rewrite at_table_eq.
    split; [done|]. f_equal. apply group_by_client_snoc.
Qed.
End laws.

(** A name the store accepts is spliced as it is; any other is refused before a
    connection is opened. *)
Lemma connect_refuses_other_names `{Postgres D} `{!PostgresConnect D} not_plain url table :
  is_plain_identifier table = false →
  postgres_connect_with_table not_plain url table = Err (StoreBackend (not_plain table)).
Proof. intros Hf. unfold postgres_connect_with_table. by rewrite Hf. Qed.

Lemma connect_tables `{Postgres D} `{!PostgresConnect D} not_plain url table self :
  postgres_connect_with_table not_plain url table = Ok self →
  is_plain_identifier table = true ∧ pg_table self = table ∧
  pg_privacy_rounds_table self = table +:+ "_privacy_rounds" ∧
  pg_client_privacy_rounds_table self = table +:+ "_client_privacy_rounds".
Proof.
  unfold postgres_connect_with_table. destruct (is_plain_identifier table); [|done]. simpl negb. cbv iota.
  intros (client & _ & Hc)%bind_ok_inv. destruct (execute _ client) as [d r].
  apply bind_ok_inv in Hc as (_ & _ & [= <-]). done.
Qed.

Section promise.
Context `{PostgresLaws D}.

(** C36: the database keeps what the pipeline relies on, whatever statements fail.  A save
    is done, or fails with the database's error and took effect as a whole or not at all.
    Every read returns what the rows say or the database's error: after a save that is
    done, the checkpoint of any round a [u64] counts, cast to a [BIGINT] and back, is found
    and listed under the number it was saved with, and one of a newest round below
    [2 ^ 63] is what the next round loads.  As long as reads are answered the store
    satisfies, for rounds below [2 ^ 63], the laws the round and the accountant rely on,
    whichever writes fail. *)
Theorem postgres_store_keeps_promise (self self' : PostgresStore D) (r : Z) (ws : list f32) (o : outcome StoreError ()) :
  is_u64 r → Forall f32_wf ws → save_checkpoint r ws self = (self', o) →
  match o with
  | Ok _ =>
      pg_answered (load_checkpoint r self') ws ∧ (∃ rs, r ∈ rs ∧ pg_answered (list_checkpoints self') rs) ∧
      (∀ rs, r < 2 ^ 63 → list_checkpoints self = Ok rs → Forall (λ r', r' ≤ r) rs → pg_answered (load_latest_weights self') ws)
  | Err e => (∃ message, e = StoreBackend message) ∧
      (data_of self' = data_of self ∨
       data_of self' = executed (UpsertCheckpoint (pg_table self) (i64_of_u64 r) (encode_weights ws)) (data_of self))
  | Panic => False
  end ∧
  (PostgresReadable D → StoreLawsBelow (2 ^ 63) (PostgresStore D) ∧ PrivacyRoundLogLaws (PostgresStore D)).
Proof.
  intros Hr Hws Hsave. split; [|intros Hread; split; apply _].
  pose proof (pg_execute_effect _ _ _ _ Hsave) as [Ht Ho]. destruct o as [[]|e|]; [| |done].
  - pose proof (upserted_row _ _ _ _ Ht Ho) as Hrow. destruct (saved_answered _ _ _ Hws Hr Hrow). split_and!; [done..|].
    intros rs Hlt Hl Hrs. unfold is_u64 in Hr. assert (Hs : 0 ≤ r < 2 ^ 63) by lia.
    apply (latest_answered _ r); [done| |by eapply upserted_rows].
    by rewrite (proj1 (small_round r Hs)) in Hrow.
  - split; [|done]. cbn [save_checkpoint PostgresStore_store] in Hsave. unfold pg_execute in Hsave.
    destruct (execute _ _) as [d [message|[]]]; [|done]. injection Hsave as _ <-. by exists message.
Qed.
End promise.

(** ** A database in memory *)

#[export] Instance is_i64_dec z : Decision (is_i64 z).
Proof. unfold is_i64. apply _. Defined.

Definition well_typed (d : Database) : Prop := ∀ t round, is_Some (checkpoints d t !! round) → is_i64 round.
Definition LocalDatabase : Type := { d : Database | well_typed d }.

Definition accepts (s : Statement) : Prop := match s with UpsertCheckpoint _ round _ => is_i64 round | _ => True end.
#[export] Instance accepts_dec s : Decision (accepts s).
Proof. destruct s; apply _. Defined.

Lemma executed_well_typed s d : accepts s → well_typed d → well_typed (executed s d).
Proof.
  intros Hs Hd t z. destruct s as [| | |t' r w]; simpl; try apply Hd.
  destruct (decide (t = t')) as [->|Hne]; [rewrite at_table_eq|rewrite at_table_ne by done; apply Hd].
  destruct (decide (z = r)) as [->|Hz]; [done|]. rewrite lookup_insert_ne by done. apply Hd.
Qed.

#[export] Instance local_postgres : Postgres LocalDatabase := {|
  execute s d :=
    match decide (accepts s) with
    | left Hs => (exist _ (executed s (proj1_sig d)) (executed_well_typed s (proj1_sig d) Hs (proj2_sig d)), inr ())
    | right _ => (d, inl "value out of range"%string)
    end;
  select _ q d := inr (selected q (proj1_sig d));
|}.

#[export] Instance local_postgres_laws : PostgresLaws LocalDatabase.
Proof.
  refine {| rows d := proj1_sig d |}.
  - intros [d Hd] t z. apply Hd.
  - intros s d d'. simpl. case_decide; [by intros [= <-]|done].
  - intros s d d' e. simpl. case_decide; [done|]. intros [= <- _]. by left.
  - by intros T q d v [= <-].
Defined.

#[export] Instance local_postgres_readable : PostgresReadable LocalDatabase.
Proof. split. by eexists. Qed.

Lemma empty_well_typed : well_typed {| checkpoints := λ _, ∅; privacy_rows := λ _, []; client_rows := λ _, [] |}.
Proof. intros t z. simpl. rewrite lookup_empty. by intros []. Qed.

Definition empty_database : LocalDatabase :=
  exist _ {| checkpoints := λ _, ∅; privacy_rows := λ _, []; client_rows := λ _, [] |} empty_well_typed.

#[export] Instance local_connect : PostgresConnect LocalDatabase := λ _, inr empty_database.

Definition local_store : PostgresStore LocalDatabase :=
  {| pg_client := empty_database; pg_table := DEFAULT_TABLE;
     pg_privacy_rounds_table := DEFAULT_TABLE +:+ "_privacy_rounds";
     pg_client_privacy_rounds_table := DEFAULT_TABLE +:+ "_client_privacy_rounds" |}.

Lemma local_store_connects : ∃ self,
  postgres_connect (λ _, "refused"%string) "postgres://local" = Ok self ∧
  same_tables local_store self ∧ data_of self = data_of local_store.
Proof. eexists. split; [reflexivity|done]. Qed.

Lemma postgres_store_keeps_promise_witness :
  StoreLawsBelow (2 ^ 63) (PostgresStore LocalDatabase) ∧
  load_checkpoint (2 ^ 64 - 1) (save_checkpoint (2 ^ 64 - 1) [f32_one] local_store).1 = Ok [f32_one].
Proof.
  destruct (postgres_store_keeps_promise local_store (save_checkpoint (2 ^ 64 - 1) [f32_one] local_store).1
    (2 ^ 64 - 1) [f32_one] (Ok ())) as ((Hload & _) & Hlaws).
  - unfold is_u64. lia.
  - constructor; [|constructor]. change (f32_wf (F (S754_finite false 8388608 (-23)))). simpl. lia.
  - reflexivity.
  - split; [exact (proj1 (Hlaws local_postgres_readable))|].
    destruct Hload as [Hload|[message Hload]]; [exact Hload|vm_compute in Hload; discriminate Hload].
Defined.

(** Past [2 ^ 63 - 1] the signed column's order is not the rounds': the newest round is
    listed first and an older checkpoint is loaded as the latest. *)
Lemma rounds_past_i64_sort_first :
  let store := (save_checkpoint (2 ^ 63) [f32_one] (save_checkpoint 1 [f32_zero] local_store).1).1 in
  list_checkpoints store = Ok [2 ^ 63; 1] ∧ load_latest_weights store = Ok [f32_zero].
Proof. vm_compute. split; reflexivity. Qed.
