(* ===== verification/Attacks.v ===== *)
(** * Simulated attacks ([conflux-attacks/src/attacks.rs], [stats.rs], [lib.rs])

    The seven attacks, each a function of the honest batch, the statistics they
    are crafted from, and the trait as a type class with the laws its callers rely
    on.  An attack keeps state only where the source does: the adaptive one, behind
    two mutexes that a panic while they are held poisons.  The seeded generator and
    its normal distributions ([rand], [rand_distr]), [f64::ln] and the standard
    library are parameters.  An [expect] or an [assert] that fires is a [Panic]. *)

From S2P Require Import Prelude Float FloatInt Wire Weights Averaging Filters Krum Statistics Temporal Reputation Privacy RootModel.
From stdpp Require Import pretty.

Open Scope Z_scope.

(** ** Statistics of the honest batch *)

Section stats.
Context {E : Type}.

Definition decode_all (updates : list ClientDelta) : outcome E (list (list f32)) :=
  collect (λ u, match decode_weights (weights u) with Ok w => Ok w | _ => Panic end) updates.

Definition coordinate_means (decoded : list (list f32)) : outcome E (list f32) :=
  first ← index decoded 0;
  let n := f32_of_Z (Z.of_nat (length decoded)) in
  collect (λ k, column ← collect (λ v, index v k) decoded; Ok (f32_sum column / n)%f32) (seq 0 (length first)).

Definition coordinate_std_devs (decoded : list (list f32)) (means : list f32) : outcome E (list f32) :=
  let n := f32_of_Z (Z.of_nat (length decoded)) in
  collect (λ k,
    squares ← collect (λ v, x ← index v k; m ← index means k; let d := (x - m)%f32 in Ok (d * d)%f32) decoded;
    Ok (f32_sqrt (f32_sum squares / n))) (seq 0 (length means)).
End stats.

(** Acklam's rational approximation, its coefficients correctly rounded. *)
Definition acklam_a : list f64 :=
  map (λ '(n, d), f64_lit n (10 ^ d))
    [(-3969683028665376, 14); (2209460984245205, 13); (-2759285104469687, 13); (138357751867269, 12);
     (-3066479806614716, 14); (2506628277459239, 15)].
Definition acklam_b : list f64 :=
  map (λ '(n, d), f64_lit n (10 ^ d))
    [(-5447609879822406, 14); (1615858368580409, 13); (-1556989798598866, 13); (6680131188771972, 14);
     (-1328068155288572, 14)].
Definition acklam_c : list f64 :=
  map (λ '(n, d), f64_lit n (10 ^ d))
    [(-7784894002430293, 18); (-3223964580411365, 16); (-2400758277161838, 15); (-2549732539343734, 15);
     (4374664141464968, 15); (2938163982698783, 15)].
Definition acklam_d : list f64 :=
  map (λ '(n, d), f64_lit n (10 ^ d))
    [(7784695709041462, 18); (3224671290700398, 16); (2445134137142996, 15); (3754408661907416, 15)].

(** [(((c0 * q + c1) * q + c2) * q + ..)] *)
Definition horner (coefficients : list f64) (q : f64) : f64 :=
  match coefficients with
  | [] => f64_zero
  | c :: cs => foldl (λ acc c, f64_add (f64_mul acc q) c) c cs
  end.
(** [.. * q + 1.0] *)
Definition horner_1 (coefficients : list f64) (q : f64) : f64 :=
  f64_add (f64_mul (horner coefficients q) q) (f64_of_Z 1).

(** [p.floor()] *)
Definition f64_floor (x : f64) : f64 :=
  match x with
  | S754_finite s m e =>
      if 0 <=? e then x else binary_normalize 53 1024 (Z.shiftr (if s then Zneg m else Zpos m) (- e)) 0 s
  | _ => x
  end.

Definition P_LOW : f64 := f64_lit 2425 (10 ^ 5).

Section attacks.
Context {E : Type} (ln : f64 → f64).

Definition inverse_normal_cdf (p : f64) : f64 :=
  let p_high := f64_sub (f64_of_Z 1) P_LOW in
  if SFltb p P_LOW then
    let q := f64_sqrt (f64_mul (f64_of_Z (-2)) (ln p)) in
    f64_div (horner acklam_c q) (horner_1 acklam_d q)
  else if SFleb p p_high then
    let q := f64_sub p (f64_lit 1 2) in
    let r := f64_mul q q in
    f64_div (f64_mul (horner acklam_a r) q) (horner_1 acklam_b r)
  else
    let q := f64_sqrt (f64_mul (f64_of_Z (-2)) (ln (f64_sub (f64_of_Z 1) p))) in
    f64_div (SFopp (horner acklam_c q)) (horner_1 acklam_d q).

(** ** What every attack shares *)

Record RoundFeedback := { previous_submission : list f32; previous_aggregate : list f32 }.

Definition make_delta (id : string) (round num_samples : Z) (weights : list f32) : ClientDelta :=
  {| client_id := id; delta_round := round; weights := encode_weights weights; num_samples := num_samples;
     local_steps := None; control_variate := None; local_loss := None |}.

Definition round_and_samples (honest_updates : list ClientDelta) : outcome E (Z * Z) :=
  match honest_updates with
  | first :: _ => Ok (delta_round first, num_samples first)
  | [] => Panic
  end.

(** [format!(prefix-i)] *)
Definition attacker_id (prefix : string) (i : nat) : string := prefix +:+ "-attacker-" +:+ pretty i.

(** Every attacker submits [weights]. *)
Definition clones (prefix : string) (num_attackers : nat) (round num_samples : Z) (weights : list f32)
    : list ClientDelta :=
  map (λ i, make_delta (attacker_id prefix i) round num_samples weights) (seq 0 num_attackers).

(** ** The attacks without state *)

(** [-self.scale * m] *)
Definition f32_neg (x : f32) : f32 :=
  match x with NaN_bits s p => NaN_bits (negb s) p | F x => F (SFopp x) end.

Record SignFlippingAttack := { scale : f32 }.

Definition sign_flipping_craft (self : SignFlippingAttack) (honest_updates : list ClientDelta) (num_attackers : nat)
    : outcome E (list ClientDelta) :=
  if (num_attackers =? 0)%nat then Ok [] else
  decoded ← decode_all honest_updates;
  means ← coordinate_means decoded;
  '(round, samples) ← round_and_samples honest_updates;
  let malicious := map (λ m, f32_neg (scale self) * m)%f32 means in
  Ok (clones "signflip" num_attackers round samples malicious).

Inductive AlieAttack : Type := alie_attack.

(** The quantile Algorithm 1 of the paper asks for. *)
Definition alie_quantile (n m : f64) : f64 :=
  let s := f64_sub (f64_floor (f64_add (f64_div n (f64_of_Z 2)) (f64_of_Z 1))) m in
  f64_clamp (f64_lit 1 (10 ^ 9)) (f64_sub (f64_of_Z 1) (f64_lit 1 (10 ^ 9)))
    (f64_div (f64_sub (f64_sub n m) s) (f64_sub n m)).

Definition alie_z (num_total num_attackers : nat) : f64 :=
  let n := f64_of_Z (Z.of_nat num_total) in
  let m := f64_of_Z (Z.of_nat num_attackers) in
  if SFleb (f64_sub n m) f64_zero then f64_zero else inverse_normal_cdf (alie_quantile n m).

Definition alie_craft (_ : AlieAttack) (honest_updates : list ClientDelta) (num_attackers : nat)
    : outcome E (list ClientDelta) :=
  if (num_attackers =? 0)%nat then Ok [] else
  decoded ← decode_all honest_updates;
  means ← coordinate_means decoded;
  stds ← coordinate_std_devs decoded means;
  '(round, samples) ← round_and_samples honest_updates;
  let z := f32_of_f64 (alie_z (length honest_updates + num_attackers) num_attackers) in
  let malicious := map (λ '(mean, std), mean - z * std)%f32 (zip means stds) in
  Ok (clones "alie" num_attackers round samples malicious).

Record ScalingAttack := { scale_factor : f32; malicious_direction : list f32 }.

Definition scaling_craft (self : ScalingAttack) (honest_updates : list ClientDelta) (num_attackers : nat)
    : outcome E (list ClientDelta) :=
  if (num_attackers =? 0)%nat then Ok [] else
  decoded ← decode_all honest_updates;
  means ← coordinate_means decoded;
  if negb (length means =? length (malicious_direction self))%nat then Panic else
  '(round, samples) ← round_and_samples honest_updates;
  let boosted := map (λ '(mean, target), mean + scale_factor self * (target - mean))%f32
                     (zip means (malicious_direction self)) in
  Ok (clones "scaling" num_attackers round samples boosted).

Record PersistentSybilAttack := { fixed_update : list f32 }.

Definition persistent_craft (self : PersistentSybilAttack) (honest_updates : list ClientDelta) (num_attackers : nat)
    : outcome E (list ClientDelta) :=
  if (num_attackers =? 0)%nat then Ok [] else
  '(round, samples) ← round_and_samples honest_updates;
  Ok (clones "sybil" num_attackers round samples (fixed_update self)).
End attacks.

(** ** The attacks that draw *)

(** [StdRng::seed_from_u64] and [Normal<f32>], over the generator of [Gaussian]. *)
Class SeededNormals `{G : Gaussian} := {
  seed_from_u64 : Z → gen;
  normal32_new : f32 → bool;
  normal32 : f32 → gen → f32 * gen;
}.

(** Its documentation: exactly the standard deviations that are not finite are refused. *)
Class SeededNormalsLaws `{G : Gaussian} (SN : SeededNormals) := {
  normal32_new_finite d : normal32_new d = f32_is_finite d;
  normal64_new_finite d : normal_new d = sf_is_finite d;
}.

Section drawing.
Context `{SN : SeededNormals} {E : Type}.

(** [n] samples, narrowed to [f32], and the generator after them. *)
Fixpoint draw (d : f64) (n : nat) (rng : gen) : list f32 * gen :=
  match n with
  | O => ([], rng)
  | S n =>
      let '(x, rng) := normal d rng in
      let '(xs, rng) := draw d n rng in (f32_of_f64 x :: xs, rng)
  end.

(** One vector per attacker, all from the same stream. *)
Fixpoint draw_each (d : f64) (dim n : nat) (rng : gen) : list (list f32) :=
  match n with
  | O => []
  | S n => let '(w, rng) := draw d dim rng in w :: draw_each d dim n rng
  end.

Record GaussianAttack := { attack_std_dev : f32; gaussian_seed : Z }.

Definition gaussian_craft (self : GaussianAttack) (honest_updates : list ClientDelta) (num_attackers : nat)
    : outcome E (list ClientDelta) :=
  if (num_attackers =? 0)%nat then Ok [] else
  decoded ← decode_all honest_updates;
  first ← index decoded 0;
  '(round, samples) ← round_and_samples honest_updates;
  let rng := seed_from_u64 (gaussian_seed self) in
  let d := f64_of_f32 (attack_std_dev self) in
  if negb (normal_new d) then Panic else
  Ok (imap (λ i w, make_delta (attacker_id "gaussian" i) round samples w)
           (draw_each d (length first) num_attackers rng)).

Record CorrelatedSybilAttack := {
  shared_update : list f32;
  divergence : f32;
  resample_each_round : bool;
  correlated_seed : Z;
}.

Definition u64_wrapping_mul (a b : Z) : Z := (a * b) mod 2 ^ 64.

(** The seed of attacker [i]. *)
Definition stream (self : CorrelatedSybilAttack) (round : Z) (i : nat) : Z :=
  let stream := u64_wrapping_add (u64_wrapping_mul (correlated_seed self) 1000003) (Z.of_nat i) in
  if resample_each_round self then u64_wrapping_add stream (u64_wrapping_mul round 7919) else stream.

Fixpoint offsets (divergence : f32) (shared : list f32) (rng : gen) : list f32 :=
  match shared with
  | [] => []
  | x :: shared =>
      if (f32_zero <? divergence)%f32
      then let '(d, rng) := normal32 (f32_max divergence f32_zero) rng in
           (x + d)%f32 :: offsets divergence shared rng
      else x :: offsets divergence shared rng
  end.

Definition correlated_update (self : CorrelatedSybilAttack) (round : Z) (i : nat) : list f32 :=
  offsets (divergence self) (shared_update self) (seed_from_u64 (stream self round i)).

Definition correlated_craft (self : CorrelatedSybilAttack) (honest_updates : list ClientDelta) (num_attackers : nat)
    : outcome E (list ClientDelta) :=
  if (num_attackers =? 0)%nat then Ok [] else
  '(round, samples) ← round_and_samples honest_updates;
  if negb (normal32_new (f32_max (divergence self) f32_zero)) then Panic else
  Ok (map (λ i, make_delta (attacker_id "correlated" i) round samples (correlated_update self round i))
          (seq 0 num_attackers)).
End drawing.

(** ** The adaptive attack *)

Record AdaptiveEvasionAttack := {
  direction : list f32;
  escalation_factor : f32;
  retreat_factor : f32;
  suppression_margin : f32;
  current_magnitude : f32;
  last_honest_mean_and_weight : option (list f32 * f32);
  (** a panic happened while the mutexes were held *)
  poisoned : bool;
}.

Definition AdaptiveEvasionAttack_new (direction : list f32) (initial_magnitude : f32) : AdaptiveEvasionAttack :=
  {| direction := direction; escalation_factor := f32_lit 12 10; retreat_factor := f32_lit 1 2;
     suppression_margin := f32_lit 15 100; current_magnitude := initial_magnitude;
     last_honest_mean_and_weight := None; poisoned := false |}.

Definition set_adaptive (self : AdaptiveEvasionAttack) (magnitude : f32) (last : option (list f32 * f32))
    (poisoned : bool) : AdaptiveEvasionAttack :=
  {| direction := direction self; escalation_factor := escalation_factor self;
     retreat_factor := retreat_factor self; suppression_margin := suppression_margin self;
     current_magnitude := magnitude; last_honest_mean_and_weight := last; poisoned := poisoned |}.

Section adaptive.
Context {E : Type}.

Definition weighted_mean_and_weight (updates : list ClientDelta) : outcome E (list f32 * f32) :=
  decoded ← decode_all updates;
  let dim := match decoded with d :: _ => length d | [] => O end in
  let '(mean, total_weight) :=
    foldl (λ '(mean, total_weight) '(u, w),
             let weight := f32_of_Z (num_samples u) in
             (zip_update (λ m x, m + weight * x)%f32 mean w, (total_weight + weight)%f32))
          (replicate dim f32_zero, f32_zero) (zip updates decoded) in
  Ok (if (f32_zero <? total_weight)%f32 then map (λ m, m / total_weight)%f32 mean else mean, total_weight).

(** The dilution an undefended average of last round would have caused. *)
Definition expected_aggregate (last_mean : list f32) (last_honest_weight : f32) (submission : list f32)
    (num_attackers num_honest : nat) : list f32 :=
  let attacker_weight :=
    (last_honest_weight * f32_of_Z (Z.of_nat num_attackers) / f32_of_Z (Z.of_nat (Nat.max num_honest 1)))%f32 in
  let total := (last_honest_weight + attacker_weight)%f32 in
  map (λ '(h, s), (last_honest_weight * h + attacker_weight * s) / total)%f32 (zip last_mean submission).

(** How far an aggregate is from what was submitted, relative to the latter. *)
Definition pulled_fraction (aggregate submission : list f32) : f32 :=
  (l2_distance aggregate submission / f32_max (l2_norm submission) (f32_lit 1 1000000))%f32.

(** Whether last round is no worse than dilution explains. *)
Definition unresisted (self : AdaptiveEvasionAttack) (fb : RoundFeedback) (last_mean : list f32)
    (last_honest_weight : f32) (num_attackers num_honest : nat) : bool :=
  let submission := previous_submission fb in
  let expected := expected_aggregate last_mean last_honest_weight submission num_attackers num_honest in
  (pulled_fraction (previous_aggregate fb) submission <=?
     pulled_fraction expected submission + suppression_margin self)%f32.

Definition adapted_magnitude (self : AdaptiveEvasionAttack) (feedback : option RoundFeedback)
    (num_attackers num_honest : nat) : f32 :=
  match feedback, last_honest_mean_and_weight self with
  | Some fb, Some (last_mean, last_honest_weight) =>
      if unresisted self fb last_mean last_honest_weight num_attackers num_honest
      then (current_magnitude self * escalation_factor self)%f32
      else (current_magnitude self * retreat_factor self)%f32
  | _, _ => current_magnitude self
  end.

Definition adaptive_craft_adaptive (self : AdaptiveEvasionAttack) (honest_updates : list ClientDelta)
    (num_attackers : nat) (feedback : option RoundFeedback)
    : AdaptiveEvasionAttack * outcome E (list ClientDelta) :=
  if (num_attackers =? 0)%nat then (self, Ok []) else
  if poisoned self then (self, Panic) else
  let magnitude := adapted_magnitude self feedback num_attackers (length honest_updates) in
  match weighted_mean_and_weight honest_updates with
  | Ok last =>
      let self := set_adaptive self magnitude (Some last) false in
      let crafted := map (λ d, d * magnitude)%f32 (direction self) in
      (self, '(round, samples) ← round_and_samples honest_updates;
             Ok (clones "adaptive" num_attackers round samples crafted))
  | Err e => (self, Err e)
  | Panic => (set_adaptive self magnitude (last_honest_mean_and_weight self) true, Panic)
  end.
End adaptive.

(** ** The trait *)

Class Attack (A : Type) := {
  craft {E} : A → list ClientDelta → nat → A * outcome E (list ClientDelta);
  craft_adaptive {E} : A → list ClientDelta → nat → option RoundFeedback → A * outcome E (list ClientDelta);
}.

(** An attack that does not override [craft_adaptive] and keeps no state. *)
Definition stateless {A} (f : ∀ E, A → list ClientDelta → nat → outcome E (list ClientDelta)) : Attack A :=
  {| craft E self honest n := (self, f E self honest n);
     craft_adaptive E self honest n _ := (self, f E self honest n) |}.

#[export] Instance GaussianAttack_attack `{SN : SeededNormals} : Attack GaussianAttack :=
  stateless (λ E, gaussian_craft).
#[export] Instance SignFlippingAttack_attack : Attack SignFlippingAttack := stateless (λ E, sign_flipping_craft).
#[export] Instance ScalingAttack_attack : Attack ScalingAttack := stateless (λ E, scaling_craft).
#[export] Instance PersistentSybilAttack_attack : Attack PersistentSybilAttack := stateless (λ E, persistent_craft).
#[export] Instance CorrelatedSybilAttack_attack `{SN : SeededNormals} : Attack CorrelatedSybilAttack :=
  stateless (λ E, correlated_craft).
Definition AlieAttack_attack (ln : f64 → f64) : Attack AlieAttack := stateless (λ E, alie_craft ln).
#[export] Instance AdaptiveEvasionAttack_attack : Attack AdaptiveEvasionAttack :=
  {| craft E self honest n := adaptive_craft_adaptive self honest n None;
     craft_adaptive E := adaptive_craft_adaptive |}.

(** ** What a caller may rely on *)

(** The malicious half of a round: [n] updates of distinct participants, of the
    round and the sample count the honest half reports. *)
Record crafted_batch (honest : list ClientDelta) (n : nat) (ds : list ClientDelta) : Prop := {
  crafted_count : length ds = n;
  crafted_blend : n ≠ O → ∃ first rest, honest = first :: rest ∧
    Forall (λ d, delta_round d = delta_round first ∧ num_samples d = num_samples first) ds;
  crafted_distinct : NoDup (map client_id ds);
}.

Class AttackLaws (A : Type) (At : Attack A) := {
  craft_is_adaptive {E} (a : A) honest n : craft (E:=E) a honest n = craft_adaptive a honest n None;
  no_attackers {E} (a : A) honest fb : craft_adaptive (E:=E) a honest 0 fb = (a, Ok []);
  crafted_ok {E} (a a' : A) honest n fb ds :
    craft_adaptive (E:=E) a honest n fb = (a', Ok ds) → crafted_batch honest n ds;
  craft_no_err {E} (a : A) honest n fb (e : E) : (craft_adaptive a honest n fb).2 ≠ Err e;
}.

#[export] Instance attacker_id_inj prefix : Inj (=) (=) (attacker_id prefix).
Proof. intros i j H. unfold attacker_id in H. by do 2 apply (inj _) in H; apply (inj pretty) in H. Qed.

Lemma crafted_none honest : crafted_batch honest 0 [].
Proof. split; [done|done|constructor]. Qed.

(** Any one vector per attacker makes such a batch. *)
Lemma crafted_from prefix first rest n (w : nat → list f32) :
  crafted_batch (first :: rest) n
    (map (λ i, make_delta (attacker_id prefix i) (delta_round first) (num_samples first) (w i)) (seq 0 n)).
Proof.
  split.
  - by rewrite length_map, length_seq.
  - intros _. exists first, rest. split; [done|]. apply Forall_map, Forall_true. by split.
  - rewrite map_map. simpl. apply (NoDup_fmap_2 (attacker_id prefix)), NoDup_seq.
Qed.

Lemma imap_as_map {A B} (f : nat → A → B) (d : A) l :
  imap f l = map (λ i, f i (nth i l d)) (seq 0 (length l)).
Proof.
  apply list_eq. intros i. rewrite list_lookup_imap.
  destruct (decide (i < length l)%nat) as [Hi|Hi].
  - rewrite (list_lookup_fmap _ (seq 0 (length l)) i), lookup_seq_lt by done. simpl.
    rewrite nth_lookup. apply lookup_lt_is_Some in Hi as [x ->]. done.
  - rewrite !lookup_ge_None_2; [done|rewrite length_map, length_seq; lia|lia].
Qed.

Lemma crafted_from_list prefix first rest n (ws : list (list f32)) :
  length ws = n →
  crafted_batch (first :: rest) n
    (imap (λ i w, make_delta (attacker_id prefix i) (delta_round first) (num_samples first) w) ws).
Proof. intros <-. rewrite (imap_as_map _ []). apply crafted_from. Qed.

Lemma round_and_samples_ok {E} honest round samples :
  round_and_samples (E:=E) honest = Ok (round, samples) →
  ∃ first rest, honest = first :: rest ∧ round = delta_round first ∧ samples = num_samples first.
Proof. destruct honest as [|first rest]; [done|]. intros [= <- <-]. by exists first, rest. Qed.

Lemma round_and_samples_no_err {E} honest (e : E) : round_and_samples honest ≠ Err e.
Proof. by destruct honest. Qed.

Lemma index_no_err {E A} (l : list A) i (e : E) : index l i ≠ Err e.
Proof. unfold index. by destruct (l !! i). Qed.

Lemma collect_no_err {E A B} (f : A → outcome E B) l e : (∀ x, f x ≠ Err e) → collect f l ≠ Err e.
Proof. intros Hf H. apply collect_err in H as (? & x & ? & ? & _ & _ & Hx). by apply (Hf x). Qed.

Lemma bind_no_err {E A B} (m : outcome E A) (k : A → outcome E B) e :
  m ≠ Err e → (∀ x, k x ≠ Err e) → m ≫= k ≠ Err e.
Proof. intros Hm Hk [?|(? & ? & ?)]%bind_err_inv; [done|by eapply Hk]. Qed.

Create HintDb no_err discriminated.
#[export] Hint Resolve index_no_err round_and_samples_no_err collect_no_err bind_no_err : no_err.

Lemma decode_all_no_err {E} honest (e : E) : decode_all honest ≠ Err e.
Proof. apply collect_no_err. intros u. by destruct (decode_weights _). Qed.

Lemma coordinate_means_no_err {E} decoded (e : E) : coordinate_means decoded ≠ Err e.
Proof. apply bind_no_err; [auto with no_err|]. intros w. apply collect_no_err. intros k. apply bind_no_err; auto with no_err; done. Qed.

Lemma coordinate_std_devs_no_err {E} decoded means (e : E) : coordinate_std_devs decoded means ≠ Err e.
Proof.
  apply collect_no_err. intros k. apply bind_no_err; [|done]. apply collect_no_err. intros v.
  apply bind_no_err; [auto with no_err|]. intros x. apply bind_no_err; [auto with no_err|done].
Qed.

#[export] Hint Resolve decode_all_no_err coordinate_means_no_err coordinate_std_devs_no_err : no_err.

Lemma stateless_laws {A} (f : ∀ E, A → list ClientDelta → nat → outcome E (list ClientDelta)) :
  (∀ E a honest, f E a honest O = Ok []) →
  (∀ E a honest n ds, f E a honest (S n) = Ok ds → crafted_batch honest (S n) ds) →
  (∀ E a honest n e, f E a honest n ≠ Err e) →
  AttackLaws A (stateless f).
Proof.
  intros H0 Hok Herr. split; simpl.
  - done.
  - intros E a honest _. by rewrite H0.
  - intros E a a' honest n _ ds [= <- Hf]. destruct n as [|n]; [|by eapply Hok].
    rewrite H0 in Hf. injection Hf as <-. apply crafted_none.
  - intros E a honest n _ e. apply Herr.
Qed.

(** The steps before the last of a crafting function. *)
Ltac peel H :=
  repeat (match type of H with
  | mbind _ _ = Ok _ => apply bind_ok_inv in H as (? & ? & H)
  | (let '(_, _) := ?p in _) = Ok _ => destruct p
  | (if ?b then Panic else _) = Ok _ => destruct b; [done|]
  end; cbv beta zeta in H).

Ltac crafted H :=
  peel H; injection H as <-;
  match goal with
  | Hr : round_and_samples _ = Ok _ |- _ => apply round_and_samples_ok in Hr as (? & ? & -> & -> & ->)
  end.

Ltac never_err :=
  match goal with
  | |- (if ?b then _ else _) ≠ Err _ => destruct b
  | |- mbind _ _ ≠ Err _ => apply bind_no_err; [by auto with no_err|intros ?]
  | |- (let '(_, _) := ?p in _) ≠ Err _ => destruct p
  | |- _ => done
  end.

#[export] Instance SignFlippingAttack_laws : AttackLaws SignFlippingAttack _.
Proof.
  apply stateless_laws; [done| |].
  - intros E a honest n ds H. unfold sign_flipping_craft in H. simpl Nat.eqb in H. cbv iota in H.
    crafted H. apply crafted_from.
  - intros E a honest n e. unfold sign_flipping_craft. repeat never_err.
Qed.

Lemma AlieAttack_laws ln : AttackLaws AlieAttack (AlieAttack_attack ln).
Proof.
  apply stateless_laws; [done| |].
  - intros E a honest n ds H. unfold alie_craft in H. simpl Nat.eqb in H. cbv iota in H.
    crafted H. apply crafted_from.
  - intros E a honest n e. unfold alie_craft. repeat never_err.
Qed.

#[export] Instance ScalingAttack_laws : AttackLaws ScalingAttack _.
Proof.
  apply stateless_laws; [done| |].
  - intros E a honest n ds H. unfold scaling_craft in H. simpl Nat.eqb in H. cbv iota in H.
    crafted H. apply crafted_from.
  - intros E a honest n e. unfold scaling_craft. repeat never_err.
Qed.

#[export] Instance PersistentSybilAttack_laws : AttackLaws PersistentSybilAttack _.
Proof.
  apply stateless_laws; [done| |].
  - intros E a honest n ds H. unfold persistent_craft in H. simpl Nat.eqb in H. cbv iota in H.
    crafted H. apply crafted_from.
  - intros E a honest n e. unfold persistent_craft. repeat never_err.
Qed.

Section drawing_laws.
Context `{SN : SeededNormals}.

Lemma length_draw_each d dim n rng : length (draw_each d dim n rng) = n.
Proof. revert rng. induction n as [|n IH]; intros rng; simpl; [done|]. destruct (draw _ _ _). simpl. by rewrite IH. Qed.

#[export] Instance GaussianAttack_laws : AttackLaws GaussianAttack _.
Proof.
  apply stateless_laws; [done| |].
  - intros E a honest n ds H. unfold gaussian_craft in H. cbn [Nat.eqb] in H. cbv iota in H.
    crafted H. apply crafted_from_list, (length_draw_each _ _ (S n)).
  - intros E a honest n e. unfold gaussian_craft. repeat never_err.
Qed.

#[export] Instance CorrelatedSybilAttack_laws : AttackLaws CorrelatedSybilAttack _.
Proof.
  apply stateless_laws; [done| |].
  - intros E a honest n ds H. unfold correlated_craft in H. cbn [Nat.eqb] in H. cbv iota in H.
    crafted H. apply (crafted_from "correlated" _ _ (S n) (correlated_update a (delta_round x))).
  - intros E a honest n e. unfold correlated_craft. repeat never_err.
Qed.
End drawing_laws.

Lemma weighted_mean_no_err {E} honest (e : E) : weighted_mean_and_weight honest ≠ Err e.
Proof. apply bind_no_err; [auto with no_err|]. intros decoded. cbv zeta. by case_match. Qed.

#[export] Instance AdaptiveEvasionAttack_laws : AttackLaws AdaptiveEvasionAttack _.
Proof.
  split; simpl.
  - done.
  - done.
  - intros E a a' honest [|n] fb ds; unfold adaptive_craft_adaptive; cbn [Nat.eqb]; cbv iota.
    { intros [= <- <-]. apply crafted_none. }
    case_match; [done|]. case_match; [|done..]. intros [= <- H']. crafted H'. apply crafted_from.
  - intros E a honest n fb e. unfold adaptive_craft_adaptive. repeat case_match; simpl; try done.
    + repeat never_err.
    + intros _. by eapply weighted_mean_no_err.
Qed.

(** ** Attacks against defences *)

(** What a client's bytes decode to. *)
Definition decoded_weights (u : ClientDelta) : list f32 :=
  match decode_weights (weights u) with Ok w => w | _ => [] end.

Lemma plausible_decoded dim us ds :
  Forall2 (λ u w, plausible u dim w) us ds → ds = map decoded_weights us.
Proof. induction 1 as [|u w us ds (Hw & _) _ ->]; simpl; [done|]. unfold decoded_weights at 2. by rewrite Hw. Qed.

(** A statistic that keeps what it answers near [honest] whenever few enough of
    the values are not. *)
Definition withstands {S} `{CoordinateWiseRobustStatistic S} (statistic : S) (few : nat → nat → Prop)
    (near : list f32 → nat → f32 → Prop) : Prop :=
  ∀ vs honest byz, vs ≠ [] → Forall not_nan vs → vs ≡ₚ honest ++ byz → few (length byz) (length vs) →
    ∃ y, Statistics.combine statistic vs = Ok y ∧ near honest (length vs) y.

(** What is left of a round whose honest half decodes to [hs]: every coordinate of
    the aggregate stays near the honest column, or the batch is refused as a whole. *)
Definition contained (near : list f32 → nat → f32 → Prop) (hs : list (list f32)) (batch : list ClientDelta)
    (result : outcome AggregatorError (list f32)) : Prop :=
  match result with
  | Ok out => ∃ d0, head hs = Some d0 ∧ length out = length d0 ∧
      ∀ k, (k < length d0)%nat → ∃ y, out !! k = Some y ∧ near (column hs k) (length batch) y
  | Err e => decode_and_validate batch = Err e
  | Panic => False
  end.

Section defended.
Context {S : Type} `{!CoordinateWiseRobustStatistic S, !StatisticTotal S}.

Lemma defended_round (statistic : S) few near (honest malicious batch : list ClientDelta) hs :
  withstands statistic few near → honest ≠ [] → decode_and_validate honest = Ok hs →
  batch ≡ₚ honest ++ malicious → few (length malicious) (length batch) →
  contained near hs batch (coordinate_wise statistic batch).
Proof.
  intros Hw Hne Hhs Hp Hfew. assert (Hb : batch ≠ []).
  { intros ->. symmetry in Hp. apply Permutation_nil_r in Hp. by destruct honest. }
  destruct (decode_and_validate batch) as [ds|e|] eqn:Hds.
  2: { unfold coordinate_wise. destruct batch; [done|]. by rewrite Hds. }
  2: { by apply decode_and_validate_no_panic in Hds. }
  destruct (coordinate_wise_spec statistic batch ds (combine_total statistic) Hb Hds) as (d0 & out & Hd0 & -> & Hlen & Hk).
  apply decode_and_validate_ok in Hds as Hdim, Hhs as Hhdim. destruct Hdim as [dim Hdim], Hhdim as [hdim Hhdim].
  pose proof (plausible_decoded _ _ _ Hdim) as Hdec. pose proof (plausible_decoded _ _ _ Hhdim) as Hhdec.
  assert (Hdp : ds ≡ₚ hs ++ map decoded_weights malicious).
  { rewrite Hdec, Hhdec, <-map_app. by apply Permutation_map. }
  destruct (head_decoded _ _ Hhs Hne) as (h0 & Hh0 & Hh0').
  assert (Hrows : Forall (λ w, length w = dim) ds).
  { clear -Hdim. induction Hdim as [|???? (? & ? & _)]; constructor; done. }
  assert (length d0 = length h0) as Hdims.
  { rewrite Forall_forall in Hrows. transitivity dim; [|symmetry].
    - apply Hrows. destruct ds; [done|]. injection Hd0 as ->. left.
    - apply Hrows. rewrite Hdp. apply elem_of_app. left. by eapply list_elem_of_lookup_2. }
  exists h0. split; [done|]. split; [congruence|]. intros k Hkd. rewrite <-Hdims in Hkd.
  destruct (Hk k Hkd) as (y & Hy & Hout).
  destruct (Hw (column ds k) (column hs k) (column (map decoded_weights malicious) k)) as (y' & Hy' & Hnear).
  - destruct ds; [done|]. done.
  - apply finite_not_nan. by eapply column_finite.
  - unfold column. rewrite <-map_app. by apply Permutation_map.
  - unfold column. rewrite !length_map, <-(Forall2_length _ _ _ Hdim). exact Hfew.
  - exists y. rewrite Hy in Hy'. injection Hy' as <-. split; [done|].
    unfold column in Hnear at 2. by rewrite length_map, <-(Forall2_length _ _ _ Hdim) in Hnear.
Qed.
End defended.

(** The median's two middle values, or the trimmed mean's kept values, lie between
    honest ones. *)
Definition near_median (honest : list f32) (n : nat) (y : f32) : Prop :=
  ∃ lo hi, y = (if (n mod 2 =? 1)%nat then hi else (lo + hi) / f32_of_Z 2)%f32 ∧
    between_honest honest lo ∧ between_honest honest hi.
Definition near_trimmed (self : TrimmedMeanStatistic) (honest : list f32) (n : nat) (y : f32) : Prop :=
  ∃ kept, y = mean_of_values kept ∧ length kept = (n - 2 * trim_count self n)%nat ∧
    kept ≠ [] ∧ Forall (between_honest honest) kept.

Lemma median_withstands : withstands median_statistic (λ byz n, (2 * byz < n)%nat) near_median.
Proof.
  intros vs honest byz Hne Hvs Hp Hb. destruct (median_combine_ok vs Hne Hvs) as (lo & hi & Hlo & Hhi & Hm).
  eexists. split; [exact Hm|]. exists lo, hi. split; [done|].
  pose proof (Nat.div_mod_eq (length vs) 2). pose proof (Nat.mod_upper_bound (length vs) 2 ltac:(done)).
  pose proof (Nat.div_mod_eq (length vs - 1) 2).
  pose proof (Nat.mod_upper_bound (length vs - 1) 2 ltac:(done)).
  split; (eapply order_statistic_between; [done|exact Hp| | |eassumption]; lia).
Qed.

Lemma trimmed_withstands self :
  withstands self (λ byz n, (byz ≤ trim_count self n)%nat) (near_trimmed self).
Proof.
  intros vs honest byz Hne Hvs Hp Hb.
  destruct (trimmed_mean_keeps_honest_range self vs honest byz Hne Hvs Hp Hb) as (kept & Hk & ? & ? & ?).
  eexists. split; [exact Hk|]. by exists kept.
Qed.

(** C25: whatever an attack crafts from an honest batch and from last round's
    outcome, and in whatever order the two halves arrive, a colluding minority
    cannot push the coordinate-wise median past the honest values, nor a group no
    larger than the trim the trimmed mean: each coordinate of the aggregate is made
    of values that lie between honest ones, or the crafted half is so malformed
    that the whole batch is refused with the validation's error. *)
Theorem statistics_withstand_attacks {A} `{AL : AttackLaws A} {E} (attack attack' : A)
    (honest malicious batch : list ClientDelta) hs n fb :
  decode_and_validate honest = Ok hs → honest ≠ [] →
  craft_adaptive (E:=E) attack honest n fb = (attack', Ok malicious) → batch ≡ₚ honest ++ malicious →
  ((n < length honest)%nat → contained near_median hs batch (coordinate_wise median_statistic batch)) ∧
  (∀ self, (n ≤ trim_count self (length batch))%nat →
     contained (near_trimmed self) hs batch (coordinate_wise self batch)).
Proof.
  intros Hhs Hne Hc Hp. pose proof (crafted_count _ _ _ (crafted_ok _ _ _ _ _ _ Hc)) as Hn.
  pose proof (Permutation_length Hp) as Hlen. rewrite length_app, Hn in Hlen. split.
  - intros Hlt. apply (defended_round _ _ _ honest malicious batch hs median_withstands Hne Hhs Hp). lia.
  - intros self Ht. apply (defended_round _ _ _ honest malicious batch hs (trimmed_withstands self) Hne Hhs Hp). by rewrite Hn.
Qed.

Definition honest_trio : list ClientDelta :=
  [ make_delta "a" 3 10 [f32_of_Z 1; f32_of_Z (-2)]; make_delta "b" 3 10 [f32_of_Z 2; f32_of_Z (-2)];
    make_delta "c" 3 10 [f32_of_Z 3; f32_of_Z (-4)] ].
Definition trio_rows : list (list f32) :=
  [[f32_of_Z 1; f32_of_Z (-2)]; [f32_of_Z 2; f32_of_Z (-2)]; [f32_of_Z 3; f32_of_Z (-4)]].
Definition boosted_flip : list ClientDelta :=
  match sign_flipping_craft (E:=()) {| scale := f32_of_Z (10 ^ 6) |} honest_trio 1 with Ok ds => ds | _ => [] end.

Lemma statistics_withstand_attacks_witness :
  length boosted_flip = 1%nat ∧
  (∃ out, coordinate_wise median_statistic (honest_trio ++ boosted_flip) = Ok out) ∧
  contained near_median trio_rows (honest_trio ++ boosted_flip)
    (coordinate_wise median_statistic (honest_trio ++ boosted_flip)).
Proof.
  split; [vm_compute; reflexivity|]. split; [eexists; vm_compute; reflexivity|].
  refine (proj1 (statistics_withstand_attacks (E:=()) {| scale := f32_of_Z (10 ^ 6) |} {| scale := f32_of_Z (10 ^ 6) |}
    honest_trio boosted_flip (honest_trio ++ boosted_flip) trio_rows 1 None _ _ _ _) _).
  - vm_compute. reflexivity.
  - done.
  - vm_compute. reflexivity.
  - reflexivity.
  - simpl. lia.
Defined.

(** ** Colluders that differ *)

Section correlated.
Context `{SN : SeededNormals} {E : Type}.

Lemma offsets_still d shared rng : (f32_zero <? d)%f32 = false → offsets d shared rng = shared.
Proof. intros Hd. induction shared as [|x shared IH]; simpl; [done|]. by rewrite Hd, IH. Qed.

Lemma correlated_craft_ok (self : CorrelatedSybilAttack) honest n ds :
  correlated_craft (E:=E) self honest (S n) = Ok ds ↔
  ∃ first rest, honest = first :: rest ∧ normal32_new (f32_max (divergence self) f32_zero) = true ∧
    ds = map (λ i, make_delta (attacker_id "correlated" i) (delta_round first) (num_samples first)
                     (correlated_update self (delta_round first) i)) (seq 0 (S n)).
Proof.
  unfold correlated_craft. cbn [Nat.eqb]. cbv iota. split.
  - intros H. apply bind_ok_inv in H as ([round samples] & (first & rest & -> & -> & ->)%round_and_samples_ok & H).
    exists first, rest. destruct (normal32_new _); [|done]. split; [done|]. split; [done|].
    by injection H as <-.
  - intros (first & rest & -> & Hn & ->). cbn [round_and_samples mbind outcome_bind]. by rewrite Hn.
Qed.

(** A correlated group is what its documentation says: the members of a smaller
    group submit what the same members of a larger one do; without resampling an
    attacker's update is the same in every round, whatever the honest batch; and
    at a divergence that is not positive (NaN included) every member submits the
    shared update, as [PersistentSybilAttack] does. *)
Theorem correlated_group_is_stable (self : CorrelatedSybilAttack) honest n ds :
  correlated_craft (E:=E) self honest n = Ok ds →
  (∀ k, (k ≤ n)%nat → correlated_craft self honest k = (Ok (take k ds) : outcome E _)) ∧
  (resample_each_round self = false → ∀ honest' ds', correlated_craft (E:=E) self honest' n = Ok ds' →
     map weights ds' = map weights ds ∧ map client_id ds' = map client_id ds) ∧
  ((f32_zero <? divergence self)%f32 = false →
     ∃ ps, persistent_craft (E:=E) {| fixed_update := shared_update self |} honest n = Ok ps ∧
       map weights ps = map weights ds).
Proof.
  intros H. destruct n as [|n].
  { injection H as <-. split; [|split].
    - intros k ?. by replace k with O by lia.
    - intros _ honest' ds' [= <-]. done.
    - intros _. by exists []. }
  pose proof (proj1 (correlated_craft_ok _ _ _ _) H) as (first & rest & -> & Hn & ->). split; [|split].
  - intros [|k] Hk; [done|]. apply correlated_craft_ok. exists first, rest. split; [done|]. split; [done|].
    rewrite firstn_map, take_seq. do 2 f_equal. lia.
  - intros Hr honest' ds' (first' & rest' & -> & _ & ->)%correlated_craft_ok. rewrite !map_map. cbn [make_delta weights client_id].
    split; [|done]. apply map_ext. intros i. unfold correlated_update, stream. by rewrite Hr.
  - intros Hd. exists (clones "sybil" (S n) (delta_round first) (num_samples first) (shared_update self)).
    split; [done|]. unfold clones. rewrite !map_map. apply map_ext. intros i. cbn [make_delta weights].
    unfold correlated_update. by rewrite offsets_still.
Qed.

(** An infinite divergence is not a valid standard deviation, so the [expect] that
    says it always is one panics. *)
Lemma infinite_divergence_panics {SL : SeededNormalsLaws SN} (self : CorrelatedSybilAttack) first rest n :
  divergence self = F (S754_infinity false) → n ≠ O →
  correlated_craft (E:=E) self (first :: rest) n = Panic.
Proof.
  intros Hd Hn. unfold correlated_craft. rewrite (proj2 (Nat.eqb_neq _ _) Hn).
  cbn [round_and_samples mbind outcome_bind]. by rewrite Hd, normal32_new_finite.
Qed.
End correlated.

(** ** The calibrated shift *)

Lemma f64_floor_not_nan x : sf_is_nan x = false → sf_is_nan (f64_floor x) = false.
Proof. destruct x as [| | |s m e]; simpl; try done. case_match; [done|]. intros _. apply binary_normalize_not_nan. Qed.

Lemma f64_add_not_nan x s m e : sf_is_nan x = false → sf_is_nan (f64_add x (S754_finite s m e)) = false.
Proof.
  destruct x as [[]|[]| |s' m' e']; simpl; try done. intros _. apply binary_normalize_not_nan.
Qed.

Lemma f64_of_Z_finite z : 0 ≤ z < 2 ^ 53 → sf_is_finite (f64_of_Z z) = true.
Proof. destruct z as [|p|p]; [done| |lia]. intros H. by rewrite f64_of_Z_pos by (unfold small; lia). Qed.

Lemma sf_finite_not_nan x : sf_is_finite x = true → sf_is_nan x = false.
Proof. by destruct x. Qed.

Lemma f64_sub_not_nan x y : sf_is_nan x = false → sf_is_finite y = true → sf_is_nan (f64_sub x y) = false.
Proof. intros Hx Hy. apply SFsub_not_nan; [done|by apply sf_finite_not_nan|by right]. Qed.

Lemma SFltb_key x y : sf_is_nan x = false → sf_is_nan y = false →
  SFltb x y = match lex_compare (sf_key x) (sf_key y) with Lt => true | _ => false end.
Proof. intros. unfold SFltb. rewrite SFcompare_key by done. by case_match. Qed.

(** Clamping a number to a range inside the open interval (a, b). *)
Lemma f64_clamp_inside a b lo hi x :
  sf_is_nan a = false → sf_is_nan b = false → sf_is_nan lo = false → sf_is_nan hi = false → sf_is_nan x = false →
  SFltb a lo = true → SFltb hi b = true → SFltb hi lo = false →
  sf_is_nan (f64_clamp lo hi x) = false ∧
  SFltb a (f64_clamp lo hi x) = true ∧ SFltb (f64_clamp lo hi x) b = true.
Proof.
  intros Ha Hb Hl Hh Hx. unfold f64_clamp. destruct (SFltb x lo) eqn:H1; [|destruct (SFltb hi x) eqn:H2];
    revert H1; try revert H2; rewrite !SFltb_key by done; intros; (split; [done|]); lex_cases; split; try done; lia.
Qed.

Definition QUANTILE_MIN : f64 := f64_lit 1 (10 ^ 9).
Definition QUANTILE_MAX : f64 := f64_sub (f64_of_Z 1) (f64_lit 1 (10 ^ 9)).

(** The shift of an ALIE attack on a non-empty honest batch: the population is
    never degenerate, and the quantile it asks the normal distribution for is a
    number strictly between 0 and 1, where [inverse_normal_cdf] is defined. *)
Theorem alie_quantile_in_range (ln : f64 → f64) (honest attackers : nat) :
  (0 < honest)%nat → (0 < attackers)%nat → Z.of_nat (honest + attackers) < 2 ^ 53 →
  let n := f64_of_Z (Z.of_nat (honest + attackers)) in
  let m := f64_of_Z (Z.of_nat attackers) in
  let p := alie_quantile n m in
  alie_z ln (honest + attackers) attackers = inverse_normal_cdf ln p ∧
  sf_is_nan p = false ∧ SFltb f64_zero p = true ∧ SFltb p (f64_of_Z 1) = true.
Proof.
  intros Hh Ha Hsmall n m p.
  assert (Hnm : f64_sub n m = f64_of_Z (Z.of_nat honest)).
  { unfold n, m. rewrite f64_sub_int by lia. f_equal. lia. }
  assert (Hden : ∃ mh eh, f64_of_Z (Z.of_nat honest) = S754_finite false mh eh).
  { destruct (Z.of_nat honest) as [|h|h] eqn:Hz; [lia| |lia].
    rewrite f64_of_Z_pos by (unfold small; lia). by eexists _, _. }
  destruct Hden as (mh & eh & Hden). split.
  { unfold alie_z. fold n m. by rewrite Hnm, Hden. }
  unfold p, alie_quantile. fold QUANTILE_MIN QUANTILE_MAX.
  set (s := f64_sub (f64_floor _) m).
  assert (Hfm : sf_is_finite m = true) by (apply f64_of_Z_finite; lia).
  assert (Hs : sf_is_nan s = false).
  { apply f64_sub_not_nan; [|done]. apply f64_floor_not_nan, f64_add_not_nan, SFdiv_finite_not_nan.
    apply sf_finite_not_nan, f64_of_Z_finite. lia. }
  apply f64_clamp_inside;
    [vm_compute; reflexivity|vm_compute; reflexivity|vm_compute; reflexivity|vm_compute; reflexivity| |
     vm_compute; reflexivity|vm_compute; reflexivity|vm_compute; reflexivity].
  rewrite Hnm, Hden. apply SFdiv_finite_not_nan, SFsub_not_nan; [done|done|by left].
Qed.

Lemma alie_quantile_in_range_witness :
  SFltb f64_zero (alie_quantile (f64_of_Z 10) (f64_of_Z 3)) = true.
Proof. apply (alie_quantile_in_range id 7 3); simpl; lia. Defined.

(** With three colluders among ten the shift is about 0.18 standard deviations. *)
Example alie_z_three_of_ten : SFltb (f64_lit 18 100) (alie_z id 10 3) && SFltb (alie_z id 10 3) (f64_lit 181 1000) = true.
Proof. vm_compute. reflexivity. Qed.

(** ** The adaptive attack over a run *)

Section adaptive_run.
Context {E : Type}.

Lemma decode_all_ok us : Forall (λ u, is_ok (decode_weights (weights u)) = true) us →
  ∃ ds, decode_all (E:=E) us = Ok ds.
Proof.
  induction 1 as [|u us Hu _ [ds IH]]; [by exists []|]. unfold decode_all in *. simpl.
  destruct (decode_weights (weights u)) as [w| |]; [|done..]. simpl. rewrite IH. by eexists.
Qed.

(** On a well-formed batch a round sets exactly two things, the magnitude and what
    the next round compares with, and submits the direction at the new magnitude. *)
Lemma adaptive_round (self : AdaptiveEvasionAttack) first rest n fb :
  poisoned self = false → Forall (λ u, is_ok (decode_weights (weights u)) = true) (first :: rest) →
  let magnitude := adapted_magnitude self fb (S n) (length (first :: rest)) in
  ∃ last, weighted_mean_and_weight (E:=E) (first :: rest) = Ok last ∧
    adaptive_craft_adaptive (E:=E) self (first :: rest) (S n) fb =
      (set_adaptive self magnitude (Some last) false,
       Ok (clones "adaptive" (S n) (delta_round first) (num_samples first) (map (λ d, d * magnitude)%f32 (direction self)))).
Proof.
  intros Hp Hd magnitude. destruct (decode_all_ok _ Hd) as [ds Hds].
  assert (∃ last, weighted_mean_and_weight (E:=E) (first :: rest) = Ok last) as [last Hlast].
  { unfold weighted_mean_and_weight. rewrite Hds. cbn [mbind outcome_bind]. cbv zeta. case_match. by eexists. }
  exists last. split; [done|]. unfold adaptive_craft_adaptive. cbn [Nat.eqb]. cbv iota. by rewrite Hp, Hlast.
Qed.

(** A malformed honest update panics with both mutexes held; from then on every
    call with an attacker panics, whatever it is given. *)
Lemma adaptive_poisoned (self : AdaptiveEvasionAttack) honest n fb :
  decode_all (E:=E) honest = Panic → n ≠ O →
  let self' := (adaptive_craft_adaptive (E:=E) self honest n fb).1 in
  ∀ honest' n' fb', n' ≠ O →
    adaptive_craft_adaptive (E:=E) self' honest' n' fb' = (self', Panic).
Proof.
  intros Hd Hn self' honest' n' fb' Hn'. assert (Hp : poisoned self' = true).
  { unfold self', adaptive_craft_adaptive. rewrite (proj2 (Nat.eqb_neq _ _) Hn). destruct (poisoned self) eqn:Hs; [done|].
    unfold weighted_mean_and_weight. by rewrite Hd. }
  unfold adaptive_craft_adaptive. rewrite (proj2 (Nat.eqb_neq _ _) Hn'). by rewrite Hp.
Qed.
End adaptive_run.
