(* ===== verification/Federation.v ===== *)
(** * A federation in one process ([conflux-federation/src/lib.rs])

    One server, [n] nodes and [n] clients as tasks of one process.  The ports are
    the operating system's, so binding is a state transformer over a parameter; the
    server's and the nodes' tasks are seen through what the [JoinSet] yields and
    [/health] answers; the clients are the client loops of [Client], counted and
    interleaved in any order over the nodes' shared world.  A select is a list of
    what became ready, in the order it did.  Durations are in milliseconds. *)

From S2P Require Import Prelude Float Wire Registry Privacy Config State Submission Admin Node Client Startup.
From stdpp Require Import pretty.

Open Scope Z_scope.

(** ** What is run *)

Record NodeTemplate (Tls : Type) := {
  nt_mode : RuntimeMode;
  nt_allow_stub_client : bool;
  nt_client_app_kind : ClientAppKind;
  nt_connection_mode : NodeConnectionMode;
  nt_local_privacy : option GaussianClippingPrivacy;
  nt_privacy_seed : option Z;
  nt_auth_token : string;
  nt_client_tls : ClientTls Tls;
}.
Arguments Build_NodeTemplate {Tls}.
Arguments nt_mode {Tls}.
Arguments nt_allow_stub_client {Tls}.
Arguments nt_client_app_kind {Tls}.
Arguments nt_connection_mode {Tls}.
Arguments nt_local_privacy {Tls}.
Arguments nt_privacy_seed {Tls}.
Arguments nt_auth_token {Tls}.
Arguments nt_client_tls {Tls}.

Definition NodeTemplate_default {Tls} : NodeTemplate Tls :=
  {| nt_mode := NodeResearch; nt_allow_stub_client := false; nt_client_app_kind := Real;
     nt_connection_mode := PullMode; nt_local_privacy := None; nt_privacy_seed := None;
     nt_auth_token := "node-auth-token"; nt_client_tls := Plaintext |}.

Record FederationConfig (Tls : Type) := {
  fc_nodes : nat;
  fc_node : NodeTemplate Tls;
  fc_client_id_prefix : string;
  fc_startup_timeout : Z;
  fc_shutdown_grace : Z;
  fc_server : option ServerConfig;
  fc_rounds : nat;
  fc_client_poll_interval : Z;
  fc_timeout : Z;
}.
Arguments Build_FederationConfig {Tls}.
Arguments fc_nodes {Tls}.
Arguments fc_node {Tls}.
Arguments fc_client_id_prefix {Tls}.
Arguments fc_startup_timeout {Tls}.
Arguments fc_shutdown_grace {Tls}.
Arguments fc_server {Tls}.
Arguments fc_rounds {Tls}.
Arguments fc_client_poll_interval {Tls}.
Arguments fc_timeout {Tls}.

Definition FederationConfig_default {Tls} : FederationConfig Tls :=
  {| fc_nodes := 2; fc_node := NodeTemplate_default; fc_client_id_prefix := "client"; fc_server := None;
     fc_startup_timeout := 30000; fc_shutdown_grace := 2000; fc_rounds := 1; fc_client_poll_interval := 5;
     fc_timeout := 300000 |}.

Record ClientProgress := {
  cp_index : nat;
  cp_client_id : string;
  cp_rounds_attempted : Z;
  cp_rounds_requested : nat;
}.

Record ClientOutcome := { co_index : nat; co_client_id : string; co_rounds_completed : nat }.

Inductive FederationError : Type :=
  | FedBind (what source : string)
  | FedListenerAddr (what source : string)
  | FedServer (source : ServeError)
  | ServerStartupTimeout (addr : SocketAddr) (timeout : Z)
  | FedNode (index : nat) (client_id : string) (source : RunError)
  | FedClient (index : nat) (client_id : string) (source : ClientError)
  | RoundLoopStopped (reason : string)
  | Stalled (timeout : Z) (total : nat) (unfinished : list ClientProgress)
  | FedPanic (what : string).

Record FederationSummary := {
  fs_clients : list ClientOutcome;
  fs_server_grpc_addr : SocketAddr;
  fs_server_http_addr : SocketAddr;
}.

(** What the [JoinSet] of the server and the nodes yields. *)
Inductive Component : Type :=
  | ServerTask (result : option ServeError)
  | NodeTask (index : nat) (client_id : string) (result : option RunError)
  | TaskPanicked
  | TaskCancelled.

(** ** Asking the server *)

Definition QUOTED (s : string) : string := QUOTE +:+ s +:+ QUOTE.

Definition response_ok (response : option string) : bool :=
  match response with Some r => String.prefix "HTTP/1.1 200" r | None => false end.

Definition contains (text pattern : string) : bool :=
  match String.index 0 pattern text with Some _ => true | None => false end.

(** [&s[i..]] *)
Definition from_index (i : nat) (s : string) : string := String.substring i (String.length s - i) s.

Definition round_loop_failure (response : option string) : option string :=
  response ← response;
  if negb (contains response (QUOTED "round_loop" +:+ ":" +:+ QUOTED "stopped")) then None else
  let key := QUOTED "last_error" +:+ ":" +:+ QUOTE in
  start ← String.index 0 key response;
  let rest := from_index (start + String.length key) response in
  end_ ← String.index 0 QUOTE rest;
  Some (String.substring 0 end_ rest).

(** ** Starting *)

(** One turn of the wait for the server, the branches in the order they are polled:
    a task of the set that ended ([Some None] for an empty set), the deadline, and
    [/health] when it has answered. *)
Record startup_poll := {
  sp_joined : option (option Component);
  sp_deadline : bool;
  sp_health : option bool;
}.

Fixpoint server_polls (http_addr : SocketAddr) (timeout : Z) (polls : list startup_poll)
    : option (outcome FederationError ()) :=
  match polls with
  | [] => None
  | p :: polls =>
      match sp_joined p with
      | Some joined =>
          Some (Err match joined with
                    | Some (ServerTask (Some source)) => FedServer source
                    | Some (NodeTask index client_id (Some source)) => FedNode index client_id source
                    | Some (TaskPanicked | TaskCancelled) => FedPanic "server"
                    | Some (ServerTask None | NodeTask _ _ None) | None => ServerStartupTimeout http_addr timeout
                    end)
      | None =>
          if sp_deadline p then Some (Err (ServerStartupTimeout http_addr timeout))
          else match sp_health p with
               | Some true => Some (Ok ())
               | _ => server_polls http_addr timeout polls
               end
      end
  end.

(** The deadline is computed first, from the clock when the wait begins; the sum can
    overflow. *)
Definition await_server (now : Z) (http_addr : SocketAddr) (timeout : Z) (polls : list startup_poll)
    : option (outcome FederationError ()) :=
  match instant_add (E:=FederationError) now timeout with
  | Ok _ => server_polls http_addr timeout polls
  | Err e => Some (Err e)
  | Panic => Some Panic
  end.

Section federation.
Context {Tls Os Listener : Type}.
(** [TcpListener::bind] on a loopback port the system picks, and [local_addr]. *)
Context (tcp_bind : Os → Os * outcome string Listener) (local_addr : Listener → outcome string SocketAddr).
Context (show_addr : SocketAddr → string).

Definition url (addr : SocketAddr) : string := "http://" +:+ show_addr addr.

Record Federation := {
  fed_grpc_addr : SocketAddr;
  fed_http_addr : SocketAddr;
  fed_node_addrs : list SocketAddr;
  fed_client_ids : list string;
  (** what the tasks of the set were spawned with *)
  fed_server : Listener * Listener * option ServerConfig;
  fed_nodes : list (Listener * NodeConfig Tls);
  fed_shutdown_grace : Z;
  fed_client_poll_interval : Z;
}.

Definition bind_ephemeral (what : string) : stM Os FederationError (Listener * SocketAddr) :=
  (λ os, let '(os, r) := tcp_bind os in (os, map_err (FedBind what) r)) ≫= λ listener,
  of_outcome (map_err (FedListenerAddr what) (local_addr listener)) ≫= λ addr,
  mret (listener, addr).

Definition participant (config : FederationConfig Tls) (i : nat) : string :=
  fc_client_id_prefix config +:+ "-" +:+ pretty i.

Definition node_config (config : FederationConfig Tls) (grpc_addr : SocketAddr) (i : nat) (addr : SocketAddr)
    : NodeConfig Tls :=
  let node := fc_node config in
  {| nc_mode := nt_mode node; nc_allow_stub_client := nt_allow_stub_client node;
     nc_client_app_kind := nt_client_app_kind node; nc_server_addr := url grpc_addr;
     nc_client_id := participant config i; nc_local_addr := addr;
     nc_connection_mode := nt_connection_mode node; nc_local_privacy := nt_local_privacy node;
     nc_privacy_seed := nt_privacy_seed node; nc_auth_token := nt_auth_token node;
     nc_client_tls := nt_client_tls node |}.

(** Everything [start] binds, before anything runs. *)
Definition bind_all (config : FederationConfig Tls)
    : stM Os FederationError ((Listener * SocketAddr) * (Listener * SocketAddr) * list (Listener * SocketAddr)) :=
  bind_ephemeral "server's gRPC transport" ≫= λ grpc,
  bind_ephemeral "server's admin API" ≫= λ http,
  collectM (λ i, bind_ephemeral ("node " +:+ pretty i)) (seq 0 (fc_nodes config)) ≫= λ nodes,
  mret (grpc, http, nodes).

Definition federation_of (config : FederationConfig Tls) (grpc http : Listener * SocketAddr)
    (nodes : list (Listener * SocketAddr)) : Federation :=
  {| fed_grpc_addr := grpc.2; fed_http_addr := http.2; fed_node_addrs := map snd nodes;
     fed_client_ids := map (participant config) (seq 0 (fc_nodes config));
     fed_server := (grpc.1, http.1, fc_server config);
     fed_nodes := imap (λ i node, (node.1, node_config config grpc.2 i node.2)) nodes;
     fed_shutdown_grace := fc_shutdown_grace config;
     fed_client_poll_interval := fc_client_poll_interval config |}.

(** [Federation::start]; [None] while the server is still being waited for. *)
Definition federation_start (config : FederationConfig Tls) (now : Z) (polls : list startup_poll)
    : Os → Os * option (outcome FederationError Federation) := λ os,
  match bind_all config os with
  | (os, Err e) => (os, Some (Err e))
  | (os, Panic) => (os, Some Panic)
  | (os, Ok (grpc, http, nodes)) =>
      (os, match await_server now http.2 (fc_startup_timeout config) polls with
           | None => None
           | Some (Ok _) => Some (Ok (federation_of config grpc http nodes))
           | Some (Err e) => Some (Err e)
           | Some Panic => Some Panic
           end)
  end.

(** [Federation::client_config]; the indices are checked. *)
Definition client_config {E} (self : Federation) (index_ rounds : nat) : outcome E RunConfig :=
  addr ← index (fed_node_addrs self) index_;
  id ← index (fed_client_ids self) index_;
  Ok {| rc_address := url addr; rc_client_id := id; rc_rounds := rounds;
        rc_auth_token := rc_auth_token RunConfig_default; rc_chunk_bytes := rc_chunk_bytes RunConfig_default;
        rc_poll_interval := fed_client_poll_interval self |}.

(** ** Stopping *)

(** What a task that ended tells [shutdown]. *)
Definition component_error (joined : Component) : option FederationError :=
  match joined with
  | ServerTask (Some source) => Some (FedServer source)
  | NodeTask index client_id (Some source) => Some (FedNode index client_id source)
  | ServerTask None | NodeTask _ _ None | TaskCancelled => None
  | TaskPanicked => Some (FedPanic "federation")
  end.

(** The drain, over what ends within the grace period: [running] tasks are left.
    The boolean says whether the remaining ones were aborted. *)
Fixpoint drain (running : nat) (first_error : option FederationError) (joined : list Component)
    : outcome FederationError () * bool :=
  match running, joined with
  | O, _ => (match first_error with None => Ok () | Some e => Err e end, false)
  | S _, [] => (Ok (), true)
  | S running, j :: joined =>
      drain running (match first_error with Some e => Some e | None => component_error j end) joined
  end.

(** [Federation::shutdown]: the server's task and the nodes'. *)
Definition shutdown (self : Federation) (joined : list Component) : outcome FederationError () * bool :=
  drain (S (length (fed_nodes self))) None joined.
End federation.

(** ** Running the clients *)

(** The wrapper that counts the rounds an app begins and ends; the counter is an
    [AtomicUsize], shared with [run]. *)
Record Counted (A : Type) := { counted_inner : A; counted_rounds : Z }.
Arguments Build_Counted {A}.
Arguments counted_inner {A}.
Arguments counted_rounds {A}.

Definition count (rounds : Z) : Z := u64_wrapping_add rounds 1.

#[export] Instance Counted_app `{CA : ClientApp A} : ClientApp (Counted A) := {|
  train ws round self :=
    let '(inner, result) := train ws round (counted_inner self) in
    ({| counted_inner := inner; counted_rounds := counted_rounds self |}, result);
  on_round_start round self :=
    {| counted_inner := on_round_start round (counted_inner self); counted_rounds := counted_rounds self |};
  on_control_variate c self :=
    {| counted_inner := on_control_variate c (counted_inner self); counted_rounds := counted_rounds self |};
  on_round_end round accepted self :=
    {| counted_inner := on_round_end round accepted (counted_inner self);
       counted_rounds := count (counted_rounds self) |};
|}.

(** A client's task: not yet polled, running or over, or joined already. *)
Inductive client_task (A : Type) : Type :=
  | Spawned (app : Counted A)
  | Polled (client : Client (Counted A)).
Arguments Spawned {A} app.
Arguments Polled {A} client.

Section run.
Context `{CA : ClientApp A} {W : Type}.
(** Node [i]'s local hop, and client [i]'s configuration. *)
Context (node_of : nat → UpstreamTransport W) (run_config : nat → RunConfig).
Context (rounds : nat) (timeout : Z).

Record Running := {
  rn_tasks : list (client_task A);
  rn_world : W;
  rn_joined : list nat;
  rn_outcomes : list ClientOutcome;
  rn_result : option (outcome FederationError (list ClientOutcome));
}.

(** What happens next: client [i] takes a turn, the set yields client [i]'s task,
    [/health] answers the poll for a stopped round loop, or the deadline passes, with
    what [/health] then says. *)
Inductive run_event : Type :=
  | Turn (i : nat)
  | Joined (i : nat)
  | Health (response : option string)
  | Deadline (response : option string).

Definition task_turn (i : nat) (task : client_task A) (w : W) : client_task A * W :=
  match task with
  | Spawned app =>
      let '(c, w) := @Client.run _ _ Counted_app (node_of i) (run_config i) 0 app w in (Polled c, w)
  | Polled c =>
      let '(c, w) := @client_step _ _ Counted_app (node_of i) (run_config i) (c, w) in (Polled c, w)
  end.

(** The counter, which the app and [run] share. *)
Definition attempted (task : client_task A) : Z :=
  match task with Spawned app => counted_rounds app | Polled c => counted_rounds (cl_app c) end.

Definition progress (i : nat) (task : client_task A) : ClientProgress :=
  {| cp_index := i; cp_client_id := rc_client_id (run_config i); cp_rounds_attempted := attempted task;
     cp_rounds_requested := rounds |}.

Definition unfinished (tasks : list (client_task A)) : list ClientProgress :=
  base.filter (λ p, cp_rounds_attempted p < Z.of_nat rounds) (imap progress tasks).

Definition with_result (r : outcome FederationError (list ClientOutcome)) (self : Running) : Running :=
  {| rn_tasks := rn_tasks self; rn_world := rn_world self; rn_joined := rn_joined self;
     rn_outcomes := rn_outcomes self; rn_result := Some r |}.

(** [outcomes.sort_by_key(|o| o.index)] *)
Definition by_index (a b : ClientOutcome) : bool := (co_index a <=? co_index b)%nat.

(** [while let Some(joined) = clients.join_next()]: an empty set ends the collection. *)
Definition settle (self : Running) : Running :=
  if (length (rn_joined self) =? length (rn_tasks self))%nat
  then with_result (Ok (sort_by by_index (rn_outcomes self))) self
  else self.

(** What a finished task's result does to the collection. *)
Definition join_client (i : nat) (c : Client (Counted A)) (self : Running) : Running :=
  match cl_phase c with
  | Finished =>
      settle {| rn_tasks := rn_tasks self; rn_world := rn_world self; rn_joined := i :: rn_joined self;
                rn_outcomes := rn_outcomes self ++
                  [{| co_index := i; co_client_id := rc_client_id (run_config i);
                      co_rounds_completed := cl_completed c |}];
                rn_result := rn_result self |}
  | Failed source => with_result (Err (FedClient i (rc_client_id (run_config i)) source)) self
  | Crashed => with_result (Err (FedPanic "a client")) self
  | Waiting | Submitting _ _ => self
  end.

(** The select between the collection under its deadline and the server giving up. *)
Definition run_step (event : run_event) (self : Running) : Running :=
  match rn_result self with
  | Some _ => self
  | None =>
      match event with
      | Turn i =>
          match rn_tasks self !! i with
          | Some task =>
              let '(task, w) := task_turn i task (rn_world self) in
              {| rn_tasks := <[i := task]> (rn_tasks self); rn_world := w; rn_joined := rn_joined self;
                 rn_outcomes := rn_outcomes self; rn_result := None |}
          | None => self
          end
      | Joined i =>
          match rn_tasks self !! i with
          | Some (Polled c) => if decide (i ∈ rn_joined self) then self else join_client i c self
          | _ => self
          end
      | Health response =>
          match round_loop_failure response with
          | Some reason => with_result (Err (RoundLoopStopped reason)) self
          | None => self
          end
      | Deadline response =>
          with_result (Err match round_loop_failure response with
                           | Some reason => RoundLoopStopped reason
                           | None => Stalled timeout (length (rn_tasks self)) (unfinished (rn_tasks self))
                           end) self
      end
  end.

Definition run_start (make_app : nat → A) (nodes : nat) (w : W) : Running :=
  settle {| rn_tasks := map (λ i, Spawned {| counted_inner := make_app i; counted_rounds := 0 |}) (seq 0 nodes);
            rn_world := w; rn_joined := []; rn_outcomes := []; rn_result := None |}.

Definition run_clients (make_app : nat → A) (nodes : nat) (w : W) (events : list run_event) : Running :=
  foldl (λ s e, run_step e s) (run_start make_app nodes w) events.
End run.

(** The end of [run]: the run's own error outranks the shutdown's. *)
Definition conclude (grpc_addr http_addr : SocketAddr) (result : outcome FederationError (list ClientOutcome))
    (shutdown : outcome FederationError ()) : outcome FederationError FederationSummary :=
  match result, shutdown with
  | Ok clients, Ok _ =>
      Ok {| fs_clients := clients; fs_server_grpc_addr := grpc_addr; fs_server_http_addr := http_addr |}
  | Ok _, Err e => Err e
  | Ok _, Panic => Panic
  | Err e, _ => Err e
  | Panic, _ => Panic
  end.

(** [run]: the app kind forced, the federation started, the clients run, everything
    stopped.  [None] while it has not returned. *)
Definition real_apps {Tls} (config : FederationConfig Tls) : FederationConfig Tls :=
  let node := fc_node config in
  {| fc_nodes := fc_nodes config;
     fc_node := {| nt_mode := nt_mode node; nt_allow_stub_client := nt_allow_stub_client node;
                   nt_client_app_kind := Real; nt_connection_mode := nt_connection_mode node;
                   nt_local_privacy := nt_local_privacy node; nt_privacy_seed := nt_privacy_seed node;
                   nt_auth_token := nt_auth_token node; nt_client_tls := nt_client_tls node |};
     fc_client_id_prefix := fc_client_id_prefix config; fc_startup_timeout := fc_startup_timeout config;
     fc_shutdown_grace := fc_shutdown_grace config; fc_server := fc_server config; fc_rounds := fc_rounds config;
     fc_client_poll_interval := fc_client_poll_interval config; fc_timeout := fc_timeout config |}.

Section whole.
Context {Tls Os Listener : Type}.
Context (tcp_bind : Os → Os * outcome string Listener) (local_addr : Listener → outcome string SocketAddr).
Context (show_addr : SocketAddr → string).
Context `{CA : ClientApp A} {W : Type} (node_of : nat → UpstreamTransport W).

(** Client [i]'s configuration; every index [run] uses exists. *)
Definition config_of (federation : Federation (Tls:=Tls) (Listener:=Listener)) (rounds i : nat) : RunConfig :=
  match client_config (E:=FederationError) show_addr federation i rounds with Ok c => c | _ => RunConfig_default end.

Definition federation_run (config : FederationConfig Tls) (make_app : nat → A) (os : Os) (w : W)
    (now : Z) (polls : list startup_poll) (events : list run_event) (stopping : list Component)
    : option (outcome FederationError FederationSummary) :=
  match (federation_start tcp_bind local_addr show_addr (real_apps config) now polls os).2 with
  | None => None
  | Some (Err e) => Some (Err e)
  | Some Panic => Some Panic
  | Some (Ok federation) =>
      match rn_result (run_clients node_of (config_of federation (fc_rounds config)) (fc_rounds config)
                         (fc_timeout config) make_app (fc_nodes config) w events) with
      | None => None
      | Some result =>
          Some (conclude (fed_grpc_addr federation) (fed_http_addr federation) result
                  (shutdown federation stopping).1)
      end
  end.
End whole.

(** ** What a run guarantees *)

Section run_properties.
Context `{CA : ClientApp A} {W : Type} (node_of : nat → UpstreamTransport W) (run_config : nat → RunConfig).
Context (rounds : nat) (timeout : Z) (nodes : nat).
Context (Hrounds : ∀ i, (i < nodes)%nat → rc_rounds (run_config i) = rounds).

Definition outcome_at (i : nat) : ClientOutcome :=
  {| co_index := i; co_client_id := rc_client_id (run_config i); co_rounds_completed := rounds |}.

Lemma begin_round_counted {config} task (app : Counted A) :
  counted_rounds (begin_round config task app).1 = counted_rounds app.
Proof.
  unfold begin_round. destruct (decode_weights (model_weights task)) as [ws| |]; [|done..].
  set (app1 := on_round_start (task_round task) app).
  assert (H1 : counted_rounds app1 = counted_rounds app) by done. clearbody app1.
  assert (H2 : ∀ app2 : Counted A, counted_rounds app2 = counted_rounds app →
    counted_rounds (let '(app3, result) := train ws (task_round task) app2 in
      if (length (tr_weights result) =? length ws)%nat
      then (app3, build_chunks (E:=ClientError) (rc_client_id config) (task_round task) result (rc_chunk_bytes config))
      else (app3, Err (ShapeChanged (length ws) (length (tr_weights result))))).1 = counted_rounds app).
  { intros app2 Ha. cbn [train Counted_app]. destruct (train ws _ (counted_inner app2)) as [inner result].
    by destruct (_ =? _)%nat. }
  destruct (task_control_variate task) as [raw|]; [|by apply H2].
  destruct (decode_weights raw) as [c| |]; [by apply H2|done..].
Qed.

(** One turn counts at most one attempt, and completes no round it does not count. *)
Lemma client_step_counted `{U : UpstreamTransport W} config (c : Client (Counted A)) w :
  let c' := (client_step config (c, w)).1 in
  cl_completed c' = cl_completed c ∧ counted_rounds (cl_app c') = counted_rounds (cl_app c) ∨
  (cl_completed c' ≤ S (cl_completed c))%nat ∧ counted_rounds (cl_app c') = count (counted_rounds (cl_app c)).
Proof.
  unfold client_step. cbn [fst snd]. destruct (cl_phase c) as [|round chunks| | |]; try by left.
  - left. unfold poll_step. destruct (_ <=? _)%nat; [done|]. destruct (fetch config w) as [w' [task|e|]]; [|done..].
    destruct (decide _); [done|]. pose proof (begin_round_counted (config:=config) task (cl_app c)) as Hb.
    by destruct (begin_round config task (cl_app c)) as [app [chunks|e|]].
  - unfold submit_step. destruct (up_submit_delta chunks w) as [w1 [ack|e|]]; [right; split; [done|done]| |by left].
    destruct (fetch config _) as [w2 [task|e'|]]; [|by left..]. destruct (decide _); [by left|].
    right. split; [|done]. cbn. lia.
Qed.

(** A counter that has not wrapped after [turns] turns. *)
Definition counted (turns : Z) (task : client_task A) : Prop :=
  0 ≤ attempted task ≤ turns ∧
  match task with Spawned _ => True | Polled c => Z.of_nat (cl_completed c) ≤ attempted task end.

Definition client_ok (i : nat) (task : client_task A) : Prop :=
  match task with Spawned _ => True | Polled c => @client_inv _ W _ (node_of i) (run_config i) c end.

Lemma task_turn_ok i task w turns :
  client_ok i task → counted turns task → 0 ≤ turns < 2 ^ 64 - 1 →
  let task' := (task_turn node_of run_config i task w).1 in client_ok i task' ∧ counted (turns + 1) task'.
Proof.
  intros Hc Hn Ht. destruct task as [app|c]; unfold task_turn.
  - destruct Hn as [Hn _]. cbn [attempted] in Hn.
    pose proof (@Client.run_inv _ W _ (node_of i) (run_config i) 0 app w) as Hi.
    assert (Hr : cl_app (@Client.run _ _ _ (node_of i) (run_config i) 0 app w).1 = app ∧
                 cl_completed (@Client.run _ _ _ (node_of i) (run_config i) 0 app w).1 = O).
    { unfold Client.run. destruct (up_connect _ _ w) as [w1 [e|]]; [done|].
      by destruct (up_register _ _ w1) as [w2 [?|e|]]. }
    destruct (Client.run _ _ _ _) as [c w']. cbn [fst] in *. destruct Hr as [Happ Hz]. split; [done|].
    unfold counted. cbn [attempted]. rewrite Happ, Hz. lia.
  - cbn [client_ok] in Hc. destruct Hn as [Hn Hle]. cbn [attempted] in Hn, Hle.
    pose proof (@client_step_inv _ W _ (node_of i) (run_config i) c w Hc) as Hi.
    pose proof (@client_step_counted (node_of i) (run_config i) c w) as Hs.
    destruct (client_step _ _) as [c' w']. cbn [fst] in *. split; [done|].
    unfold counted. cbn [attempted]. unfold count, u64_wrapping_add in Hs.
    destruct Hs as [[-> ->]|[Hs ->]]; [lia|]. rewrite Z.mod_small by lia. lia.
Qed.

Record federation_inv (turns : Z) (s : Running (A:=A) (W:=W)) : Prop := {
  fi_tasks : length (rn_tasks s) = nodes;
  fi_clients i task : rn_tasks s !! i = Some task → client_ok i task ∧ counted turns task;
  fi_joined : NoDup (rn_joined s) ∧ ∀ i, i ∈ rn_joined s → (i < nodes)%nat ∧
    ∃ c, rn_tasks s !! i = Some (Polled c) ∧ cl_phase c = Finished;
  fi_outcomes : rn_outcomes s = map outcome_at (rev (rn_joined s));
  fi_summary clients : rn_result s = Some (Ok clients) →
    clients = map outcome_at (seq 0 nodes) ∧
    ∀ i, (i < nodes)%nat → ∃ c, rn_tasks s !! i = Some (Polled c) ∧ cl_phase c = Finished;
  fi_stalled t n ps : rn_result s = Some (Err (Stalled t n ps)) →
    t = timeout ∧ n = nodes ∧ ps = unfinished run_config rounds (rn_tasks s);
}.

Lemma outcomes_sorted k n : Sorted_by by_index (map outcome_at (seq k n)).
Proof.
  revert k. induction n as [|n IH]; intros k; simpl; constructor; [apply IH|].
  apply Forall_map, Forall_forall. intros i Hi%elem_of_seq. apply Nat.leb_le. cbn. lia.
Qed.

Lemma all_joined joined : NoDup joined → (∀ i, i ∈ joined → (i < nodes)%nat) → length joined = nodes →
  sort_by by_index (map outcome_at (rev joined)) = map outcome_at (seq 0 nodes).
Proof.
  intros Hnd Hlt Hlen.
  assert (Hp : rev joined ≡ₚ seq 0 nodes).
  { rewrite <-Permutation_rev. apply submseteq_length_Permutation; [|rewrite length_seq; lia].
    apply NoDup_submseteq; [done|]. intros i Hi%Hlt. apply elem_of_seq. lia. }
  transitivity (sort_by by_index (map outcome_at (seq 0 nodes))).
  - apply sort_by_unique; unfold by_index.
    + intros x y. destruct (Nat.leb_spec (co_index x) (co_index y)); [by left|right]. apply Nat.leb_le. lia.
    + intros x y z ?%Nat.leb_le ?%Nat.leb_le. apply Nat.leb_le. lia.
    + intros x y (i & -> & _)%list_elem_of_fmap (j & -> & _)%list_elem_of_fmap H1%Nat.leb_le H2%Nat.leb_le.
      cbn in *. f_equal. lia.
    + by apply Permutation_map.
  - apply sort_by_already_sorted, outcomes_sorted.
Qed.

(** Nothing but the result changes. *)
Lemma settled_inv turns s r :
  federation_inv turns s → rn_result s = None →
  (∀ clients, r = Ok clients → clients = map outcome_at (seq 0 nodes) ∧
     ∀ i, (i < nodes)%nat → ∃ c, rn_tasks s !! i = Some (Polled c) ∧ cl_phase c = Finished) →
  (∀ t n ps, r = Err (Stalled t n ps) → t = timeout ∧ n = nodes ∧ ps = unfinished run_config rounds (rn_tasks s)) →
  federation_inv turns (with_result r s).
Proof.
  intros [? ? ? ? _ _] _ Hok Hst. split; cbn; try done.
  - intros clients Hr. apply Hok. congruence.
  - intros t n ps Hr. apply Hst. congruence.
Qed.

Lemma settle_inv turns s : federation_inv turns s → rn_result s = None → federation_inv turns (settle s).
Proof.
  intros Hi Hr. unfold settle. destruct (Nat.eqb_spec (length (rn_joined s)) (length (rn_tasks s))) as [Hl|]; [|done].
  destruct (fi_joined _ _ Hi) as [Hnd Hj]. rewrite (fi_tasks _ _ Hi) in Hl.
  apply settled_inv; [done|done| |done]. intros clients [= <-]. rewrite (fi_outcomes _ _ Hi). split.
  - apply all_joined; [done|by intros i [? _]%Hj|done].
  - intros i Hlt. apply Hj. destruct (decide (i ∈ rn_joined s)) as [|Hn]; [done|exfalso].
    assert (Hs : i :: rn_joined s ⊆+ seq 0 nodes).
    { apply NoDup_submseteq; [by constructor|]. intros j [->|Hin]%elem_of_cons; apply elem_of_seq; [lia|].
      apply Hj in Hin. lia. }
    apply submseteq_length in Hs. rewrite length_seq in Hs. simpl in Hs. lia.
Qed.

Lemma counted_weaken turns turns' task : counted turns task → turns ≤ turns' → counted turns' task.
Proof. intros [? ?] ?. split; [lia|done]. Qed.

Lemma weaken_inv turns turns' s : federation_inv turns s → turns ≤ turns' → federation_inv turns' s.
Proof.
  intros [? Hc ? ? ? ?] Ht. split; try done. intros i task Hi. destruct (Hc i task Hi).
  split; [done|by eapply counted_weaken].
Qed.

Lemma finished_stays i (c : Client (Counted A)) w :
  cl_phase c = Finished → task_turn node_of run_config i (Polled c) w = (Polled c, w).
Proof. intros Hp. unfold task_turn, client_step. cbn [fst snd]. by rewrite Hp. Qed.

Lemma run_step_inv turns event s :
  federation_inv turns s → 0 ≤ turns < 2 ^ 64 - 1 →
  federation_inv (turns + 1) (run_step node_of run_config rounds timeout event s).
Proof.
  intros Hi Ht. pose proof (weaken_inv _ (turns + 1) _ Hi ltac:(lia)) as Hi'. unfold run_step.
  destruct (rn_result s) as [r|] eqn:Hr; [done|]. destruct event as [i|i|response|response].
  - destruct (rn_tasks s !! i) as [task|] eqn:Htask; [|done].
    destruct (fi_clients _ _ Hi i task Htask) as [Hok Hn].
    pose proof (task_turn_ok i task (rn_world s) turns Hok Hn Ht) as [Hok' Hn'].
    assert (Hfin : ∀ c, task = Polled c → cl_phase c = Finished →
              (task_turn node_of run_config i task (rn_world s)).1 = task).
    { intros c -> Hc. by rewrite finished_stays. }
    destruct (task_turn node_of run_config i task (rn_world s)) as [task' w']. cbn [fst] in *.
    split; cbn; try done.
    + rewrite length_insert. apply Hi.
    + intros j t [(-> & <- & _)|[Hne Hj]]%list_lookup_insert_Some; [done|]. by apply Hi'.
    + split; [apply Hi|]. intros j Hj. apply Hi in Hj as (Hlt & c & Hc & Hp). split; [done|].
      exists c. split; [|done]. destruct (decide (i = j)) as [->|Hne]; [|by rewrite list_lookup_insert_ne].
      assert (task = Polled c) as -> by congruence. rewrite (Hfin c eq_refl Hp).
      apply list_lookup_insert_eq. by apply lookup_lt_is_Some_1.
    + apply Hi.
  - destruct (rn_tasks s !! i) as [[app|c]|] eqn:Htask; [done| |done]. destruct (decide _) as [|Hnew]; [done|].
    unfold join_client. destruct (cl_phase c) as [|round chunks| |e|] eqn:Hp; [done|done| |by apply settled_inv..].
    apply settle_inv; [|done]. destruct (fi_clients _ _ Hi i _ Htask) as [Hok _].
    split; cbn; try done; try apply Hi'.
    + destruct (fi_joined _ _ Hi) as [Hnd Hj]. split; [by constructor|].
      intros j [->|Hin]%elem_of_cons; [|by apply Hj]. split; [|by exists c].
      rewrite <-(fi_tasks _ _ Hi). by eapply lookup_lt_Some.
    + rewrite (fi_outcomes _ _ Hi), map_app. f_equal. cbn. unfold outcome_at. do 2 f_equal.
      cbn [client_ok] in Hok. rewrite (ci_finished _ _ Hok Hp). apply Hrounds.
      rewrite <-(fi_tasks _ _ Hi). by eapply lookup_lt_Some.
  - destruct (round_loop_failure response); [by apply settled_inv|done].
  - apply settled_inv; [done|done|done|]. intros t n ps. destruct (round_loop_failure response); [done|].
    intros [= <- <- <-]. by rewrite (fi_tasks _ _ Hi).
Qed.

Lemma run_start_inv make_app w : federation_inv 0 (run_start make_app nodes w).
Proof.
  apply settle_inv; [|done]. split; cbn; try done.
  - by rewrite length_map, length_seq.
  - intros i task H. apply list_lookup_fmap_Some in H as (j & -> & _). split; [done|]. unfold counted. cbn. lia.
  - split; [constructor|]. intros i Hi. by apply elem_of_nil in Hi.
Qed.

Lemma run_clients_inv make_app w events :
  Z.of_nat (length events) < 2 ^ 64 - 1 →
  federation_inv (Z.of_nat (length events)) (run_clients node_of run_config rounds timeout make_app nodes w events).
Proof.
  unfold run_clients. induction events as [|event events IH] using rev_ind; [intros _; apply run_start_inv|].
  rewrite length_app, foldl_app. simpl. intros Hlen. rewrite Nat2Z.inj_add. simpl.
  apply run_step_inv; [apply IH; lia|lia].
Qed.

(** Whoever a stall names has not finished. *)
Lemma unfinished_sound turns s p :
  federation_inv turns s → p ∈ unfinished run_config rounds (rn_tasks s) →
  (cp_index p < nodes)%nat ∧ cp_client_id p = rc_client_id (run_config (cp_index p)) ∧
  cp_rounds_requested p = rounds ∧ cp_rounds_attempted p < Z.of_nat rounds ∧
  ∃ task, rn_tasks s !! cp_index p = Some task ∧ attempted task = cp_rounds_attempted p ∧
    ∀ c, task = Polled c → cl_phase c ≠ Finished ∧ Z.of_nat (cl_completed c) ≤ cp_rounds_attempted p.
Proof.
  intros Hi [Hlt Hp]%list_elem_of_filter. apply list_elem_of_lookup in Hp as [j Hj].
  rewrite list_lookup_imap in Hj. destruct (rn_tasks s !! j) as [task|] eqn:Ht; [|done]. injection Hj as <-.
  cbn [progress cp_index cp_client_id cp_rounds_requested cp_rounds_attempted] in *.
  assert (Hlen : (j < nodes)%nat) by (rewrite <-(fi_tasks _ _ Hi); by eapply lookup_lt_Some).
  split; [done|]. split; [done|]. split; [done|]. split; [done|]. exists task. split; [done|]. split; [done|].
  intros c ->. destruct (fi_clients _ _ Hi j _ Ht) as [Hok [_ Hn]]. split; [|done].
  intros Hf. cbn [client_ok] in Hok. pose proof (ci_finished _ _ Hok Hf). rewrite Hrounds in * by done. lia.
Qed.
End run_properties.

(** ** The whole run *)

Section whole_properties.
Context {Tls Os Listener : Type}.
Context (tcp_bind : Os → Os * outcome string Listener) (local_addr : Listener → outcome string SocketAddr).
Context (show_addr : SocketAddr → string).
Context (now : Z).

Lemma bind_ephemeral_ok what os os' p :
  bind_ephemeral tcp_bind local_addr what os = (os', Ok p) → local_addr p.1 = Ok p.2.
Proof.
  unfold bind_ephemeral. intros (l & s1 & _ & (addr & s2 & Ha & [= _ <-])%stM_bind_ok)%stM_bind_ok.
  unfold of_outcome in Ha. injection Ha as _ Ha. by apply map_err_ok in Ha.
Qed.

Lemma federation_start_ok config polls os federation :
  (federation_start tcp_bind local_addr show_addr config now polls os).2 = Some (Ok federation) →
  ∃ grpc http nodes, federation = federation_of (Tls:=Tls) show_addr config grpc http nodes ∧
    local_addr grpc.1 = Ok grpc.2 ∧ local_addr http.1 = Ok http.2 ∧ length nodes = fc_nodes config ∧
    (∀ i node, nodes !! i = Some node → local_addr node.1 = Ok node.2) ∧
    await_server now http.2 (fc_startup_timeout config) polls = Some (Ok ()).
Proof.
  unfold federation_start. destruct (bind_all tcp_bind local_addr config os) as [os1 [[[grpc http] nodes]|e|]] eqn:Hb; [|done..].
  cbn [snd]. destruct (await_server _ _ _ polls) as [[[]|e|]|] eqn:Hw; [|done..]. intros [= <-].
  exists grpc, http, nodes. split; [done|].
  unfold bind_all in Hb. apply stM_bind_ok in Hb as (g & s1 & Hg & Hb). apply stM_bind_ok in Hb as (h & s2 & Hh & Hb).
  apply stM_bind_ok in Hb as (ns & s3 & Hn & [= _ <- <- <-]).
  split; [by eapply bind_ephemeral_ok|]. split; [by eapply bind_ephemeral_ok|].
  split; [apply collectM_length in Hn; by rewrite Hn, length_seq|]. split; [|done].
  intros i node Hi. destruct (collectM_lookup _ _ _ _ _ _ _ Hn Hi) as (x & t1 & t2 & _ & Hx).
  by eapply bind_ephemeral_ok.
Qed.

#[export] Instance participant_inj (config : FederationConfig Tls) : Inj (=) (=) (participant config).
Proof. intros i j H. unfold participant in H. by do 2 apply (inj _) in H; apply (inj pretty) in H. Qed.

(** What [start] answers is wired up: as many nodes as asked for, each serving the
    listener whose address the client of the same index is given, under the same
    identity, no identity twice; every node reaches the server at the address the
    server's own listener has; and the server was answering. *)
Theorem federation_is_wired (config : FederationConfig Tls) polls os federation :
  (federation_start tcp_bind local_addr show_addr config now polls os).2 = Some (Ok federation) →
  length (fed_nodes federation) = fc_nodes config ∧
  NoDup (map (λ node, nc_client_id node.2) (fed_nodes federation)) ∧
  local_addr (fed_server federation).1.1 = Ok (fed_grpc_addr federation) ∧
  local_addr (fed_server federation).1.2 = Ok (fed_http_addr federation) ∧
  (fed_server federation).2 = fc_server config ∧
  (∃ pre p post, polls = pre ++ p :: post ∧ sp_health p = Some true ∧
     Forall (λ q, sp_joined q = None ∧ sp_deadline q = false) (pre ++ [p])) ∧
  ∀ i rounds, (i < fc_nodes config)%nat → ∃ listener node client addr,
    fed_nodes federation !! i = Some (listener, node) ∧ local_addr listener = Ok addr ∧
    client_config (E:=FederationError) show_addr federation i rounds = Ok client ∧
    rc_address client = url show_addr addr ∧ nc_local_addr node = addr ∧
    rc_client_id client = nc_client_id node ∧ rc_rounds client = rounds ∧
    nc_server_addr node = url show_addr (fed_grpc_addr federation).
Proof.
  intros (grpc & http & nodes & -> & Hg & Hh & Hlen & Hnodes & Hw)%federation_start_ok.
  cbn [federation_of fed_nodes fed_server fed_grpc_addr fed_http_addr fst snd].
  split; [by rewrite length_imap|]. split.
  { assert (Heq : map (λ node, nc_client_id node.2)
             (imap (λ i node, (node.1, node_config show_addr config grpc.2 i node.2)) nodes) =
           map (participant config) (seq 0 (length nodes))).
    { apply list_eq. intros i. rewrite !list_lookup_fmap, list_lookup_imap.
      destruct (decide (i < length nodes)%nat) as [Hi|Hi].
      - rewrite lookup_seq_lt by done. destruct (lookup_lt_is_Some_2 nodes i Hi) as [n ->]. done.
      - rewrite !lookup_ge_None_2; [done|rewrite length_seq; lia|lia]. }
    rewrite Heq. apply (NoDup_fmap_2 (participant config)), NoDup_seq. }
  split; [done|]. split; [done|]. split; [done|]. split.
  { unfold await_server, instant_add in Hw. destruct (_ <=? _) in Hw; [|done].
    clear -Hw. induction polls as [|p polls IH]; [done|]. cbn [server_polls] in Hw.
    destruct (sp_joined p) eqn:Hj; [done|]. destruct (sp_deadline p) eqn:Hd; [done|].
    destruct (sp_health p) as [[]|] eqn:Hh.
    - exists [], p, polls. split; [done|]. split; [done|]. by repeat constructor.
    - destruct (IH Hw) as (pre & q & post & -> & ? & ?). exists (p :: pre), q, post. split; [done|]. split; [done|]. by constructor.
    - destruct (IH Hw) as (pre & q & post & -> & ? & ?). exists (p :: pre), q, post. split; [done|]. split; [done|]. by constructor. }
  intros i rounds Hi. destruct (lookup_lt_is_Some_2 nodes i ltac:(lia)) as [[l addr] Hn].
  assert (Hc : ∃ client, client_config (E:=FederationError) show_addr (federation_of show_addr config grpc http nodes) i rounds = Ok client ∧
    client = {| rc_address := url show_addr addr; rc_client_id := participant config i; rc_rounds := rounds;
                rc_auth_token := rc_auth_token RunConfig_default; rc_chunk_bytes := rc_chunk_bytes RunConfig_default;
                rc_poll_interval := fc_client_poll_interval config |}).
  { eexists. split; [|reflexivity]. unfold client_config, index. cbn [federation_of fed_node_addrs fed_client_ids].
    rewrite !list_lookup_fmap, Hn, lookup_seq_lt by done. done. }
  destruct Hc as (client & Hc & Hcl). exists l, (node_config show_addr config grpc.2 i addr), client, addr.
  rewrite list_lookup_imap, Hn. split; [done|]. split; [by apply (Hnodes i (l, addr))|]. split; [done|]. by subst client.
Qed.

Context `{CA : ClientApp A} {W : Type} (node_of : nat → UpstreamTransport W).

Lemma config_of_ok config polls os (federation : Federation (Tls:=Tls) (Listener:=Listener)) rounds i :
  (federation_start tcp_bind local_addr show_addr config now polls os).2 = Some (Ok federation) → (i < fc_nodes config)%nat →
  rc_client_id (config_of show_addr federation rounds i) = participant config i ∧
  rc_rounds (config_of show_addr federation rounds i) = rounds.
Proof.
  intros (grpc & http & nodes & -> & _ & _ & Hlen & _ & _)%federation_start_ok Hi.
  destruct (lookup_lt_is_Some_2 nodes i ltac:(lia)) as [node Hn].
  unfold config_of, client_config, index. cbn [federation_of fed_node_addrs fed_client_ids].
  rewrite !list_lookup_fmap, Hn, lookup_seq_lt by done. done.
Qed.

(** [drain] reports the first component that failed, among those that ended before
    the grace period did, and only when every one of them had. *)
Lemma drain_spec running first joined :
  drain running first joined =
  if (running <=? length joined)%nat
  then (match match first with Some e => Some e | None => head (omap component_error (take running joined)) end with
        | None => Ok () | Some e => Err e end, false)
  else (Ok (), true).
Proof.
  revert first joined. induction running as [|running IH]; intros first joined; [by destruct first, joined|].
  destruct joined as [|j joined]; [done|]. cbn [drain length Nat.leb]. rewrite IH.
  destruct (_ <=? _)%nat; [|done]. destruct first as [e|]; [done|]. cbn. by destruct (component_error j).
Qed.

(** A drain that reports nothing met no error, or did not see the end. *)
Lemma clean_drain running joined :
  (drain running None joined).1 = Ok () →
  if (running <=? length joined)%nat
  then Forall (λ joined, joined = TaskCancelled ∨ joined = ServerTask None ∨ ∃ index id, joined = NodeTask index id None)
         (take running joined)
  else (drain running None joined).2 = true.
Proof.
  rewrite drain_spec. destruct (running <=? length joined)%nat; [|done]. cbn [fst].
  induction (take running joined) as [|j l IH]; intros H; [constructor|]. cbn in H.
  destruct j as [[]|i id []| |]; cbn in H; try discriminate H; constructor; auto; naive_solver.
Qed.

(** So a failed node goes unreported when the server is still in its round at the
    end of the grace period. *)
Lemma aborted_shutdown_hides_failure index client_id source :
  shutdown {| fed_grpc_addr := LOCALHOST 1; fed_http_addr := LOCALHOST 2; fed_node_addrs := []; fed_client_ids := [];
              fed_server := ((), (), None);
              fed_nodes := [((), node_config show_addr (@FederationConfig_default Tls) (LOCALHOST 1) 0 (LOCALHOST 3))];
              fed_shutdown_grace := 2000; fed_client_poll_interval := 5 |}
    [NodeTask index client_id (Some source)] = (Ok (), true).
Proof. done. Qed.

Lemma await_server_never_stalls http_addr timeout polls t n ps :
  await_server now http_addr timeout polls ≠ Some (Err (Stalled t n ps)).
Proof.
  unfold await_server, instant_add. destruct (_ <=? _); [|done].
  induction polls as [|p polls IH]; [done|]. cbn [server_polls].
  destruct (sp_joined p) as [[[[]|? ? []| |]|]|]; try discriminate.
  destruct (sp_deadline p); [discriminate|]. by destruct (sp_health p) as [[]|].
Qed.

Lemma bind_ephemeral_never_stalls what os t n ps :
  (bind_ephemeral tcp_bind local_addr what os).2 ≠ Err (Stalled t n ps).
Proof.
  unfold bind_ephemeral, mbind, stM_bind. destruct (tcp_bind os) as [os4 [l|e|]]; cbn; [|done..].
  unfold of_outcome. by destruct (local_addr l).
Qed.

Lemma start_never_stalls (config : FederationConfig Tls) polls os t n ps :
  (federation_start tcp_bind local_addr show_addr config now polls os).2 ≠ Some (Err (Stalled t n ps)).
Proof.
  unfold federation_start. destruct (bind_all tcp_bind local_addr config os) as [os1 [[[grpc http] nodes]|e|]] eqn:Hb; cbn [snd].
  - pose proof (await_server_never_stalls http.2 (fc_startup_timeout config) polls t n ps) as Hw.
    destruct (await_server _ _ _ polls) as [[[]|e|]|]; [done| |done|done]. intros [= ->]. by apply Hw.
  - intros [= ->]. unfold bind_all in Hb.
    assert (Hbe : ∀ what os2 os3, bind_ephemeral tcp_bind local_addr what os2 ≠ (os3, Err (Stalled t n ps))).
    { intros what os2 os3 H. apply (bind_ephemeral_never_stalls what os2 t n ps). by rewrite H. }
    apply stM_bind_err in Hb as [Hb|(g & s1 & _ & Hb)]; [by eapply Hbe|].
    apply stM_bind_err in Hb as [Hb|(h & s2 & _ & Hb)]; [by eapply Hbe|].
    apply stM_bind_err in Hb as [Hb|(ns & s3 & _ & ?)]; [|done].
    revert s2 Hb. induction (seq 0 _) as [|i l IH]; intros s2 Hb; [done|].
    cbn [collectM] in Hb. apply stM_bind_err in Hb as [Hb|(x & s4 & _ & Hb)]; [by eapply Hbe|].
    apply stM_bind_err in Hb as [Hb|(y & s5 & _ & ?)]; [by eapply IH|done].
  - done.
Qed.

Lemma shutdown_never_stalls (self : Federation (Tls:=Tls) (Listener:=Listener)) joined t n ps :
  (shutdown self joined).1 ≠ Err (Stalled t n ps).
Proof.
  unfold shutdown. rewrite drain_spec. destruct (_ <=? _)%nat; [|done]. cbn [fst].
  destruct (head _) as [e|] eqn:He; [|done].
  apply head_Some_elem_of, list_elem_of_omap in He as (j & _ & Hj).
  intros [= ->]. by destruct j as [[]|? ? []| |].
Qed.

Lemma run_ok (config : FederationConfig Tls) make_app os w polls events stopping r :
  federation_run tcp_bind local_addr show_addr node_of config make_app os w now polls events stopping = Some r →
  Z.of_nat (length events) < 2 ^ 64 - 1 →
  (∃ e, r = Err e ∧ (federation_start tcp_bind local_addr show_addr (real_apps config) now polls os).2 = Some (Err e)) ∨
  ((federation_start tcp_bind local_addr show_addr (real_apps config) now polls os).2 = Some Panic ∧ r = Panic) ∨
  ∃ federation s result,
    (federation_start tcp_bind local_addr show_addr (real_apps config) now polls os).2 = Some (Ok federation) ∧
    federation_inv node_of (config_of show_addr federation (fc_rounds config)) (fc_rounds config) (fc_timeout config)
      (fc_nodes config) (Z.of_nat (length events)) s ∧
    rn_result s = Some result ∧
    r = conclude (fed_grpc_addr federation) (fed_http_addr federation) result (shutdown federation stopping).1.
Proof.
  unfold federation_run. destruct (federation_start tcp_bind local_addr show_addr (real_apps config) now polls os).2 as [[federation|e|]|] eqn:Hs; [| | |done].
  - intros Hr Hlen. right. right.
    set (s := run_clients node_of (config_of show_addr federation (fc_rounds config)) (fc_rounds config)
                (fc_timeout config) make_app (fc_nodes config) w events) in *.
    destruct (rn_result s) as [result|] eqn:Hres; [|done]. injection Hr as <-.
    exists federation, s, result. split; [done|]. split; [|done]. apply run_clients_inv; [|done].
    intros i Hi. by apply (config_of_ok (real_apps config) polls os).
  - intros [= <-] _. left. by exists e.
  - intros [= <-] _. right. by left.
Qed.

(** C23: a summary is never partial.  Whatever the interleaving of the clients' turns, of
    their tasks' ends, of [/health] answers and of the deadline: when [run] answers a
    summary it has one entry per client, in index order, under the identity its node
    registered, each with every round it was asked for; and either the server and every
    node had stopped within the grace period and none with an error (a task that was
    cancelled counts as stopped), or the grace period ended with one of them running:
    what was left was aborted, and an error of one that had ended is not told. *)
Theorem summary_is_complete (config : FederationConfig Tls) make_app os w polls events stopping summary :
  federation_run tcp_bind local_addr show_addr node_of config make_app os w now polls events stopping = Some (Ok summary) →
  Z.of_nat (length events) < 2 ^ 64 - 1 →
  fs_clients summary = map (λ i, {| co_index := i; co_client_id := participant config i;
                                    co_rounds_completed := fc_rounds config |}) (seq 0 (fc_nodes config)) ∧
  ∃ federation, (federation_start tcp_bind local_addr show_addr (real_apps config) now polls os).2 = Some (Ok federation) ∧
    fs_server_grpc_addr summary = fed_grpc_addr federation ∧ fs_server_http_addr summary = fed_http_addr federation ∧
    length (fed_nodes federation) = fc_nodes config ∧
    if (S (fc_nodes config) <=? length stopping)%nat
    then Forall (λ joined, joined = TaskCancelled ∨ joined = ServerTask None ∨ ∃ index id, joined = NodeTask index id None)
           (take (S (fc_nodes config)) stopping)
    else (shutdown federation stopping).2 = true.
Proof.
  intros Hr Hlen. destruct (run_ok _ _ _ _ _ _ _ _ Hr Hlen) as [(e & ? & _)|[[_ ?]|(federation & s & result & Hs & Hi & Hres & Hc)]];
    [done|done|].
  destruct result as [clients| |]; [|done|done]. destruct (shutdown federation stopping).1 as [[]| |] eqn:Hsh; [|done|done].
  injection Hc as ->. cbn. destruct (fi_summary _ _ _ _ _ _ _ Hi _ Hres) as [-> _]. split.
  - apply map_ext_in. intros i Hin. apply list_elem_of_In, elem_of_seq in Hin. unfold outcome_at. f_equal.
    apply (config_of_ok (real_apps config) polls os); [done|cbn; lia].
  - exists federation. split_and!; [done..| |].
    + apply federation_start_ok in Hs as (grpc & http & nodes & -> & _ & _ & Hlen' & _). cbn. by rewrite length_imap.
    + assert (Hn : length (fed_nodes federation) = fc_nodes config)
        by (apply federation_start_ok in Hs as (grpc & http & nodes & -> & _ & _ & Hlen' & _); cbn; by rewrite length_imap).
      unfold shutdown in *. rewrite Hn in *. exact (clean_drain _ _ Hsh).
Qed.

(** A stall names only clients that are really unfinished, with their own identity
    and with fewer rounds attempted than they were asked for. *)
Theorem stall_names_unfinished (config : FederationConfig Tls) make_app os w polls events stopping timeout total named :
  federation_run tcp_bind local_addr show_addr node_of config make_app os w now polls events stopping =
    Some (Err (Stalled timeout total named)) →
  Z.of_nat (length events) < 2 ^ 64 - 1 →
  timeout = fc_timeout config ∧ total = fc_nodes config ∧
  Forall (λ p, (cp_index p < fc_nodes config)%nat ∧ cp_client_id p = participant config (cp_index p) ∧
               cp_rounds_requested p = fc_rounds config ∧ cp_rounds_attempted p < Z.of_nat (fc_rounds config)) named.
Proof.
  intros Hr Hlen. destruct (run_ok _ _ _ _ _ _ _ _ Hr Hlen) as [(e & [= <-] & Hs)|[[_ ?]|(federation & s & result & Hs & Hi & Hres & Hc)]];
    [|done|].
  { by apply start_never_stalls in Hs. }
  destruct result as [|e|]; unfold conclude in Hc.
  - destruct (shutdown federation stopping).1 as [|e|] eqn:Hsh; [done| |done]. injection Hc as <-.
    by apply shutdown_never_stalls in Hsh.
  - injection Hc as <-. destruct (fi_stalled _ _ _ _ _ _ _ Hi _ _ _ Hres) as (-> & -> & ->).
    split; [done|]. split; [done|]. apply Forall_forall. intros p Hp.
    destruct (unfinished_sound _ _ _ _ _ (λ i Hi, proj2 (config_of_ok (real_apps config) polls os federation _ i Hs Hi)) _ _ _ Hi Hp) as (Hlt & Hid & Hreq & Hatt & _).
    split; [done|]. split; [|done]. rewrite Hid. by apply (config_of_ok (real_apps config) polls os).
  - done.
Qed.
End whole_properties.

(** ** Witnesses *)

Section demo.
#[local] Notation Tls := unit.

(** Ports in order, and nodes over a shared round: one takes every submission and
    moves on, the other refuses each and moves on. *)
Definition demo_bind (next : Z) : Z * outcome string Z := (next + 1, Ok next).
Definition demo_local (port : Z) : outcome string SocketAddr := Ok (LOCALHOST port).
Definition demo_show (addr : SocketAddr) : string := "127.0.0.1:" +:+ pretty (port addr).

Definition demo_node (takes : bool) : UpstreamTransport Z := {|
  up_connect _ _ w := (w, None);
  up_register _ _ w := (w, Ok {| reg_accepted := true; reg_message := "" |});
  up_fetch_task _ w := (w, Ok (demo_dispatch w));
  up_submit_delta _ w :=
    (w + 1, if takes then Ok {| ack_accepted := true; ack_message := "" |} else Err "round closed"%string);
  up_sleep _ w := w;
|}.

Definition demo_polls : list startup_poll :=
  [ {| sp_joined := None; sp_deadline := false; sp_health := Some false |};
    {| sp_joined := None; sp_deadline := false; sp_health := Some true |} ].

Definition demo_stopping : list Component :=
  [ServerTask None; NodeTask 0 "client-0" None; NodeTask 1 "client-1" None].

#[local] Notation demo_run takes events :=
  (federation_run (CA:=echo_app) demo_bind demo_local demo_show (λ _, demo_node takes) (@FederationConfig_default Tls) (λ _, ())
    49152 1 0 demo_polls events demo_stopping).

Definition both_finish : list run_event :=
  [Turn 0; Turn 1; Turn 1; Turn 0; Turn 0; Turn 1; Turn 1; Joined 1; Turn 0; Joined 0].

Lemma federation_is_wired_witness :
  ∃ federation, (federation_start demo_bind demo_local demo_show (@FederationConfig_default Tls) 0 demo_polls 49152).2 = Some (Ok federation) ∧
    length (fed_nodes federation) = 2%nat.
Proof.
  eexists. split; [reflexivity|].
  refine (proj1 (federation_is_wired demo_bind demo_local demo_show 0 FederationConfig_default demo_polls 49152 _ _)).
  reflexivity.
Defined.

Definition demo_summary : FederationSummary :=
  {| fs_clients := [ {| co_index := 0; co_client_id := "client-0"; co_rounds_completed := 1 |};
                     {| co_index := 1; co_client_id := "client-1"; co_rounds_completed := 1 |} ];
     fs_server_grpc_addr := LOCALHOST 49152; fs_server_http_addr := LOCALHOST 49153 |}.

Lemma demo_summary_returned : demo_run true both_finish = Some (Ok demo_summary).
Proof. vm_compute. reflexivity. Qed.

Lemma summary_is_complete_witness :
  demo_run true both_finish = Some (Ok demo_summary) ∧
  fs_clients demo_summary = map (λ i, {| co_index := i; co_client_id := participant (@FederationConfig_default Tls) i;
                                         co_rounds_completed := 1 |}) (seq 0 2).
Proof.
  split; [exact demo_summary_returned|].
  exact (proj1 (summary_is_complete demo_bind demo_local demo_show 0 (λ _, demo_node true) (@FederationConfig_default Tls)
    (λ _, ()) 49152 1 demo_polls both_finish demo_stopping demo_summary demo_summary_returned eq_refl)).
Defined.

Definition half_way : list run_event := [Turn 0; Turn 1; Turn 1; Turn 1; Deadline None].
Definition first_unfinished : list ClientProgress :=
  [{| cp_index := 0; cp_client_id := "client-0"; cp_rounds_attempted := 0; cp_rounds_requested := 1 |}].

Lemma demo_stall_returned : demo_run true half_way = Some (Err (Stalled 300000 2 first_unfinished)).
Proof. vm_compute. reflexivity. Qed.

Lemma stall_names_unfinished_witness :
  demo_run true half_way = Some (Err (Stalled 300000 2 first_unfinished)) ∧
  Forall (λ p, cp_client_id p = participant (@FederationConfig_default Tls) (cp_index p)) first_unfinished.
Proof.
  split; [exact demo_stall_returned|].
  pose proof (stall_names_unfinished demo_bind demo_local demo_show 0 (λ _, demo_node true) (@FederationConfig_default Tls)
    (λ _, ()) 49152 1 demo_polls half_way demo_stopping 300000 2 first_unfinished demo_stall_returned eq_refl) as (_ & _ & Hn).
  exact (Forall_impl _ _ _ Hn (λ p Hp, proj1 (proj2 Hp))).
Defined.

(** A client whose every submission was refused has attempted its rounds without
    completing one: it is still waiting when the deadline passes, and the stall names
    nobody. *)
Lemma stall_may_name_nobody :
  let events := [Turn 0; Turn 1; Turn 0; Turn 0; Turn 1; Turn 1; Turn 0; Turn 1; Deadline None] in
  demo_run false events = Some (Err (Stalled 300000 2 [])) ∧
  ∃ c, rn_tasks (run_clients (CA:=echo_app) (λ _, demo_node false) (λ i, two_rounds) 1 300000 (λ _, ()) 2 1 [Turn 0; Turn 0; Turn 0])
         !! 0%nat = Some (Polled c) ∧
    cl_phase c = Waiting ∧ cl_completed c = 0%nat ∧ counted_rounds (cl_app c) = 1.
Proof. split; [vm_compute; reflexivity|]. eexists. split; [vm_compute; reflexivity|]. done. Qed.
End demo.
