(* ===== verification/Process.v ===== *)
(** * A federation of processes ([conflux-federation/src/process.rs])

    The supervisor: it starts a server, the nodes, the clients and the observers as
    children, in that order, learns each address from the file the child writes,
    polls until every client and observer has stopped, and ends what is left.  The
    operating system (processes, files, the clock, sockets) is a parameter whose laws
    say what its documentation does; a path is joined, and an address shown and
    parsed, by parameters too.  Durations are in milliseconds.

    Every loop takes fuel, the reads of a [/health] answer and the draining of the channel
    included: one that runs out of it, like a call that never returns, has [blocked], and
    [supervisor_returns] says when that cannot be.  [wait] apart, calls to the system return.
    A panic is the overflow of a deadline. *)

From S2P Require Import Prelude Float Wire Admin SidecarService Federation.
From stdpp Require Import pretty.

Open Scope Z_scope.

(** ** How to start a process *)

Record Spawn := { program : string; args : list string; env : list (string * string) }.

Definition Spawn_new (program : string) : Spawn := {| program := program; args := []; env := [] |}.
Definition arg (a : string) (self : Spawn) : Spawn :=
  {| program := program self; args := args self ++ [a]; env := env self |}.
Definition flag (name value : string) (self : Spawn) : Spawn := arg value (arg name self).
Definition with_env (key value : string) (self : Spawn) : Spawn :=
  {| program := program self; args := args self; env := env self ++ [(key, value)] |}.

Definition recipe_of (self : Spawn) : string :=
  foldl (λ out a, out +:+ " " +:+ a)
    (foldl (λ out '(k, v), out +:+ k +:+ "=" +:+ v +:+ " ") "" (env self) +:+ program self) (args self).

(** [own_exe], over [env::current_exe]. *)
Definition own_exe (exe : outcome string string) (subcommand : list string) : outcome string Spawn :=
  exe ← exe; Ok (foldl (λ s part, arg part s) (Spawn_new exe) subcommand).

Record ProcessParticipant := { pp_client_id : string; pp_node : Spawn; pp_client : Spawn }.
Record Observer := { ob_client_id : string; ob_node : nat; ob_spawn : Spawn; ob_stream_stdout : bool }.

Record ProcessPlan := {
  pl_server : Spawn;
  pl_participants : list ProcessParticipant;
  pl_observers : list Observer;
  pl_rounds : nat;
  pl_startup_timeout : Z;
  pl_run_timeout : Z;
  pl_log_dir : string;
}.

Record ProcessOutcome := { po_index : nat; po_client_id : string; po_exit_code : option Z }.

Record ProcessSummary := {
  ps_clients : list ProcessOutcome;
  ps_server_grpc_addr : SocketAddr;
  ps_server_http_addr : SocketAddr;
  ps_recipe : list string;
}.

Inductive ProcessError : Type :=
  | SpawnError (label program source : string)
  | DiedDuringStartup (label status log : string)
  | StartupTimeout (label : string) (timeout : Z) (log : string)
  | UnreadableAddrFile (label key contents : string)
  | ClientFailed (index : nat) (client_id status log : string)
  | ProcessStalled (timeout : Z) (total : nat) (unfinished : list string)
  | NoSuchNode (observer : string) (node participants : nat)
  | LogError (path source : string).

(** ** The operating system *)

Record ExitStatus := { es_code : option Z; es_text : string }.
Definition success (status : ExitStatus) : bool := bool_decide (es_code status = Some 0).

(** What one [read] of a socket gives: some bytes, the end, or an error; a read that times
    out is one. *)
Inductive read_result : Type :=
  | Got (bytes : string)
  | EndOfStream
  | ReadBroke.

Class ProcessOs (W : Type) := {
  pid : Type;
  create_dir_all : string → W → W * option string;
  remove_file : string → W → W;
  create_file : string → W → W * option string;
  try_clone : string → W → W * option string;
  (** [Command::spawn], its output to a log, or its standard output piped *)
  os_spawn : bool → string → Spawn → W → W * outcome string pid;
  try_wait : pid → W → W * outcome string (option ExitStatus);
  kill : pid → W → W * option string;
  (** [Child::wait], which returns when the child is over, if ever *)
  wait : pid → W → option W;
  (** [None] when it cannot be opened, [Some None] when it is not text *)
  read_file : string → W → W * option (option string);
  now : W → Z;
  sleep : Z → W → W;
  (** [TcpStream::connect_timeout], [write_all], and one [read] under its timeout *)
  conn : Type;
  connect : SocketAddr → W → W * option conn;
  write_all : conn → string → W → W * bool;
  read : conn → W → W * read_result;
  (** [Receiver::try_recv] *)
  try_recv : W → W * option string;
}.

(** Whether bytes are UTF-8, which [read_to_string] asks of what it has read. *)
Definition continuation (b : N) : bool := (128 <=? b)%N && (b <=? 191)%N.

Fixpoint utf8 (l : list N) : bool :=
  match l with
  | [] => true
  | b0 :: l =>
      if (b0 <? 128)%N then utf8 l
      else
        match l with
        | [] => false
        | b1 :: l =>
            if (194 <=? b0)%N && (b0 <=? 223)%N then continuation b1 && utf8 l
            else
              match l with
              | [] => false
              | b2 :: l =>
                  if (224 <=? b0)%N && (b0 <=? 239)%N then
                    continuation b1 && ((160 <=? b1)%N || negb (b0 =? 224)%N) && ((b1 <=? 159)%N || negb (b0 =? 237)%N) &&
                    continuation b2 && utf8 l
                  else
                    match l with
                    | [] => false
                    | b3 :: l =>
                        (240 <=? b0)%N && (b0 <=? 244)%N && continuation b1 && ((144 <=? b1)%N || negb (b0 =? 240)%N) &&
                        ((b1 <=? 143)%N || negb (b0 =? 244)%N) && continuation b2 && continuation b3 && utf8 l
                    end
              end
        end
  end.

Definition is_utf8 (text : string) : bool := utf8 (map Ascii.N_of_ascii (String.list_ascii_of_string text)).

Section supervisor.
Context `{Os : ProcessOs W}.
Context (join : string → string → string) (show_addr : SocketAddr → string)
        (addr_from_str : string → option SocketAddr).

(** A client the supervisor tracks: its index, identity, process and log. *)
Record ClientProcess := { cl_index : nat; cl_id : string; cl_pid : pid; cl_log : string }.

(** The supervisor's locals: [Children] and, apart from it, the clients. *)
Record Supervisor := {
  sv_os : W;
  sv_children : list (string * pid);
  sv_clients : list ClientProcess;
  sv_recipe : list string;
  sv_observers : list string;
  sv_lines : list string;
}.

(** [Err None] is a supervisor that has blocked. *)
Definition M : Type → Type := stM Supervisor (option ProcessError).
Definition fail {A} (e : ProcessError) : M A := of_outcome (Err (Some e)).
Definition blocked {A} : M A := of_outcome (Err None).

Definition with_os (w : W) (self : Supervisor) : Supervisor :=
  {| sv_os := w; sv_children := sv_children self; sv_clients := sv_clients self; sv_recipe := sv_recipe self;
     sv_observers := sv_observers self; sv_lines := sv_lines self |}.

(** A call to the system. *)
Definition sys {A} (f : W → W * A) : M A := λ s, let '(w, a) := f (sv_os s) in (with_os w s, Ok a).
Definition sys_ (f : W → W) : M () := sys (λ w, (f w, ())).

Definition push_child (label : string) (child : pid) : M () := modify (λ s,
  {| sv_os := sv_os s; sv_children := sv_children s ++ [(label, child)]; sv_clients := sv_clients s;
     sv_recipe := sv_recipe s; sv_observers := sv_observers s; sv_lines := sv_lines s |}).
Definition push_client (c : ClientProcess) : M () := modify (λ s,
  {| sv_os := sv_os s; sv_children := sv_children s; sv_clients := sv_clients s ++ [c];
     sv_recipe := sv_recipe s; sv_observers := sv_observers s; sv_lines := sv_lines s |}).
Definition push_recipe (line : string) : M () := modify (λ s,
  {| sv_os := sv_os s; sv_children := sv_children s; sv_clients := sv_clients s;
     sv_recipe := sv_recipe s ++ [line]; sv_observers := sv_observers s; sv_lines := sv_lines s |}).
Definition push_observer (label : string) : M () := modify (λ s,
  {| sv_os := sv_os s; sv_children := sv_children s; sv_clients := sv_clients s; sv_recipe := sv_recipe s;
     sv_observers := sv_observers s ++ [label]; sv_lines := sv_lines s |}).
Definition push_line (line : string) : M () := modify (λ s,
  {| sv_os := sv_os s; sv_children := sv_children s; sv_clients := sv_clients s; sv_recipe := sv_recipe s;
     sv_observers := sv_observers s; sv_lines := sv_lines s ++ [line] |}).

(** [on_line] for what has arrived, until the channel is empty. *)
Fixpoint deliver_lines (fuel : nat) : M () :=
  match fuel with
  | O => blocked
  | S fuel =>
      sys try_recv ≫= λ line,
      match line with
      | None => mret ()
      | Some line => push_line line ≫= λ _, deliver_lines fuel
      end
  end.

Definition io (f : W → W * option string) (error : string → ProcessError) : M () :=
  sys f ≫= λ failed, match failed with None => mret () | Some source => fail (error source) end.

(** ** Logs, and children starting *)

Definition text_lines (text : string) : list string :=
  map String.string_of_list_ascii (lines (String.list_ascii_of_string text)).

Definition NEWLINE : string := String.String (Ascii.ascii_of_nat 10) "".

Definition tail (path : string) (n : nat) : M string :=
  sys (read_file path) ≫= λ read,
  mret match read with
       | None => "  (no log at " +:+ path +:+ ")"
       | Some None => "  (log at " +:+ path +:+ " is not text)"
       | Some (Some text) =>
           match take n (rev (text_lines text)) with
           | [] => "  (" +:+ path +:+ " is empty)"
           | kept => foldl (λ out line, out +:+ "  " +:+ line +:+ NEWLINE) ("  --- " +:+ path +:+ " ---" +:+ NEWLINE) (rev kept)
           end
       end.

Definition log_path (plan : ProcessPlan) (label : string) : string := join (pl_log_dir plan) (label +:+ ".log").

Definition launch (piped : bool) (label path : string) (s : Spawn) : M pid :=
  sys (os_spawn piped path s) ≫= λ child,
  of_outcome (map_err (λ source, Some (SpawnError label (program s) source)) child).

Definition spawn (plan : ProcessPlan) (label : string) (s : Spawn) : M (pid * string) :=
  let path := log_path plan label in
  io (create_file path) (LogError path) ≫= λ _,
  io (try_clone path) (LogError path) ≫= λ _,
  launch false label path s ≫= λ child, mret (child, path).

Definition spawn_streaming (plan : ProcessPlan) (label : string) (s : Spawn) : M (pid * string) :=
  let path := log_path plan label in
  io (create_file path) (LogError path) ≫= λ _,
  launch true label path s ≫= λ child, mret (child, path).

(** [contents.lines().find(|l| l.starts_with("key="))], its value parsed. *)
Definition reported_addr (key contents : string) : option SocketAddr :=
  line ← head (base.filter (λ l, String.prefix (key +:+ "=") l = true) (text_lines contents));
  addr_from_str (from_index (String.length key + 1) line).

(** The child's own end, or the deadline's, of a wait during startup. *)
Definition still_starting (label : string) (child : pid) (log : string) (timeout deadline : Z) : M () :=
  sys (try_wait child) ≫= λ status,
  match status with
  | Ok (Some status) => tail log 25 ≫= λ t, fail (DiedDuringStartup label (es_text status) t)
  | _ =>
      sys (λ w, (w, now w)) ≫= λ t,
      if deadline <=? t then tail log 25 ≫= λ t, fail (StartupTimeout label timeout t)
      else mret ()
  end.

(** One turn of [await_addr], up to the sleep. *)
Definition addr_turn (label : string) (child : pid) (addr_file key log : string) (timeout deadline : Z)
    : M (option SocketAddr) :=
  sys (read_file addr_file) ≫= λ read,
  match read with
  | Some (Some contents) =>
      match reported_addr key contents with
      | Some addr => mret (Some addr)
      | None =>
          sys (λ w, (w, now w)) ≫= λ t,
          if negb (String.eqb contents "") && (deadline <=? t)
          then fail (UnreadableAddrFile label key contents)
          else still_starting label child log timeout deadline ≫= λ _, mret None
      end
  | _ => still_starting label child log timeout deadline ≫= λ _, mret None
  end.

(** A loop that polls every [pause] until a turn answers. *)
Fixpoint polling {A} (fuel : nat) (pause : Z) (turn : M (option A)) : M A :=
  match fuel with
  | O => blocked
  | S fuel =>
      turn ≫= λ answer,
      match answer with
      | Some a => mret a
      | None => sys_ (sleep pause) ≫= λ _, polling fuel pause turn
      end
  end.

(** [Instant::now() + timeout] *)
Definition deadline_in (timeout : Z) : M Z :=
  sys (λ w, (w, now w)) ≫= λ t, of_outcome (instant_add t timeout).

Definition await_addr (fuel : nat) (label : string) (child : pid) (addr_file key log : string) (timeout : Z)
    : M SocketAddr :=
  deadline_in timeout ≫= λ deadline,
  polling fuel 20 (addr_turn label child addr_file key log timeout deadline).

(** *** [health_ok] *)

Definition CRLF : string := String.String (Ascii.ascii_of_nat 13) NEWLINE.
Definition health_request (addr : SocketAddr) : string :=
  "GET /health HTTP/1.1" +:+ CRLF +:+ "Host: " +:+ show_addr addr +:+ CRLF +:+ "Connection: close" +:+ CRLF +:+ CRLF.

(** [read_to_string]: it reads until the end or an error, and keeps what is text.  The
    timeout is that of each read; nothing bounds their number. *)
Fixpoint read_to_string (fuel : nat) (stream : conn) (response : string) : M string :=
  match fuel with
  | O => blocked
  | S fuel =>
      sys (read stream) ≫= λ r,
      match r with
      | Got bytes => read_to_string fuel stream (response +:+ bytes)
      | EndOfStream | ReadBroke => mret (if is_utf8 response then response else ""%string)
      end
  end.

Definition health_ok (fuel : nat) (addr : SocketAddr) : M bool :=
  sys (connect addr) ≫= λ stream,
  match stream with
  | None => mret false
  | Some stream =>
      sys (write_all stream (health_request addr)) ≫= λ sent : bool,
      if negb sent then mret false
      else read_to_string fuel stream "" ≫= λ response, mret (response_ok (Some response))
  end.

(** ** The run *)

Definition server_command (plan : ProcessPlan) : Spawn :=
  flag "--http-addr" "127.0.0.1:0" (flag "--grpc-addr" "127.0.0.1:0"
    (flag "--addr-file" (join (pl_log_dir plan) "server.addr") (pl_server plan))).

Definition node_label (i : nat) : string := "node-" +:+ pretty i.
Definition node_command (plan : ProcessPlan) (grpc_addr : SocketAddr) (i : nat) (p : ProcessParticipant) : Spawn :=
  flag "--local-addr" "127.0.0.1:0" (flag "--client-id" (pp_client_id p)
    (flag "--server" ("http://" +:+ show_addr grpc_addr)
      (flag "--addr-file" (join (pl_log_dir plan) (node_label i +:+ ".addr")) (pp_node p)))).

Definition client_command (plan : ProcessPlan) (node_addr : SocketAddr) (p : ProcessParticipant) : Spawn :=
  flag "--rounds" (pretty (pl_rounds plan)) (flag "--client-id" (pp_client_id p)
    (flag "--address" (show_addr node_addr) (pp_client p))).

Definition observer_command (node_addr : SocketAddr) (o : Observer) : Spawn :=
  flag "--address" (show_addr node_addr) (ob_spawn o).

(** [while !health_ok(http_addr)]: one turn, and the loop. *)
Definition health_turn (fuel : nat) (child : pid) (log : string) (timeout deadline : Z) (http_addr : SocketAddr)
    : M (option ()) :=
  health_ok fuel http_addr ≫= λ ok : bool,
  if ok then mret (Some ())
  else still_starting "server" child log timeout deadline ≫= λ _, mret None.

Definition await_health (fuel : nat) (child : pid) (log : string) (timeout : Z) (http_addr : SocketAddr) : M () :=
  deadline_in timeout ≫= λ deadline,
  polling fuel 25 (health_turn fuel child log timeout deadline http_addr).

Definition start_server (fuel : nat) (plan : ProcessPlan) : M (SocketAddr * SocketAddr) :=
  let addr_file := join (pl_log_dir plan) "server.addr" in
  let timeout := pl_startup_timeout plan in
  sys_ (remove_file addr_file) ≫= λ _,
  push_recipe (recipe_of (server_command plan)) ≫= λ _,
  spawn plan "server" (server_command plan) ≫= λ '(child, log),
  push_child "server" child ≫= λ _,
  await_addr fuel "server" child addr_file "grpc" log timeout ≫= λ grpc_addr,
  await_addr fuel "server" child addr_file "http" log timeout ≫= λ http_addr,
  await_health fuel child log timeout http_addr ≫= λ _,
  mret (grpc_addr, http_addr).

Definition start_node (fuel : nat) (plan : ProcessPlan) (grpc_addr : SocketAddr) (ip : nat * ProcessParticipant)
    : M SocketAddr :=
  let '(i, p) := ip in
  let addr_file := join (pl_log_dir plan) (node_label i +:+ ".addr") in
  sys_ (remove_file addr_file) ≫= λ _,
  push_recipe (recipe_of (node_command plan grpc_addr i p)) ≫= λ _,
  spawn plan (node_label i) (node_command plan grpc_addr i p) ≫= λ '(child, log),
  push_child (node_label i) child ≫= λ _,
  await_addr fuel (node_label i) child addr_file "local" log (pl_startup_timeout plan).

Definition start_client (plan : ProcessPlan) (ipa : nat * ProcessParticipant * SocketAddr) : M () :=
  let '(i, p, node_addr) := ipa in
  push_recipe (recipe_of (client_command plan node_addr p)) ≫= λ _,
  spawn plan ("client-" +:+ pretty i) (client_command plan node_addr p) ≫= λ '(child, log),
  push_client {| cl_index := i; cl_id := pp_client_id p; cl_pid := child; cl_log := log |}.

Definition start_observer (plan : ProcessPlan) (node_addrs : list SocketAddr) (observer : nat * Observer) : M () :=
  let '(i, o) := observer in
  let label := "observer-" +:+ pretty i +:+ "-" +:+ ob_client_id o in
  match node_addrs !! ob_node o with
  | None => fail (NoSuchNode (ob_client_id o) (ob_node o) (length node_addrs))
  | Some node_addr =>
      push_recipe (recipe_of (observer_command node_addr o)) ≫= λ _,
      push_observer label ≫= λ _,
      (if ob_stream_stdout o then spawn_streaming else spawn) plan label (observer_command node_addr o) ≫= λ '(child, _),
      push_child label child
  end.

(** One client that had not been seen to finish: its outcome, or [None]. *)
Definition poll_client (c : ClientProcess) : M (option ProcessOutcome) :=
  sys (try_wait (cl_pid c)) ≫= λ status,
  match status with
  | Ok (Some status) =>
      if success status
      then mret (Some {| po_index := cl_index c; po_client_id := cl_id c; po_exit_code := es_code status |})
      else tail (cl_log c) 25 ≫= λ t, fail (ClientFailed (cl_index c) (cl_id c) (es_text status) t)
  | _ => mret None
  end.

(** The clients in order, those already done skipped. *)
Definition poll_clients (clients : list (ClientProcess * option ProcessOutcome)) : M (list (option ProcessOutcome)) :=
  collectM (λ '(c, outcome), match outcome with Some o => mret (Some o) | None => poll_client c end) clients.

Definition has_exited (label : string) : M bool :=
  gets sv_children ≫= λ children,
  match head (base.filter (λ lc, lc.1 = label) children) with
  | None => mret true
  | Some (_, child) => sys (try_wait child) ≫= λ status, mret match status with Ok None => false | _ => true end
  end.

(** [all]: the first that has not ends it. *)
Fixpoint all_exited (labels : list string) : M bool :=
  match labels with
  | [] => mret true
  | label :: labels => has_exited label ≫= λ e : bool, if e then all_exited labels else mret false
  end.

Fixpoint watch (lines fuel : nat) (plan : ProcessPlan) (clients : list ClientProcess) (deadline : Z)
    (outcomes : list (option ProcessOutcome)) : M (list ProcessOutcome) :=
  match fuel with
  | O => blocked
  | S fuel' =>
      poll_clients (zip clients outcomes) ≫= λ outcomes,
      let still_running := omap (λ '(c, o), match o with None => Some (cl_id c) | Some _ => None end) (zip clients outcomes) in
      deliver_lines lines ≫= λ _,
      gets sv_observers ≫= λ labels,
      all_exited labels ≫= λ observers_done,
      if bool_decide (still_running = []) && observers_done
      then deliver_lines lines ≫= λ _, mret (omap id outcomes)
      else
        sys (λ w, (w, now w)) ≫= λ t,
        if deadline <=? t then fail (ProcessStalled (pl_run_timeout plan) (length clients) still_running)
        else sys_ (sleep 50) ≫= λ _, watch lines fuel' plan clients deadline outcomes
  end.

Definition supervise (fuel : nat) (plan : ProcessPlan) : M ProcessSummary :=
  io (create_dir_all (pl_log_dir plan)) (LogError (pl_log_dir plan)) ≫= λ _,
  start_server fuel plan ≫= λ '(grpc_addr, http_addr),
  collectM (start_node fuel plan grpc_addr) (imap pair (pl_participants plan)) ≫= λ node_addrs,
  for_each (start_client plan) (zip (imap pair (pl_participants plan)) node_addrs) ≫= λ _,
  for_each (start_observer plan node_addrs) (imap pair (pl_observers plan)) ≫= λ _,
  deadline_in (pl_run_timeout plan) ≫= λ deadline,
  gets sv_clients ≫= λ clients,
  watch fuel fuel plan clients deadline (replicate (length clients) None) ≫= λ outcomes,
  gets sv_recipe ≫= λ recipe,
  mret {| ps_clients := outcomes; ps_server_grpc_addr := grpc_addr; ps_server_http_addr := http_addr;
          ps_recipe := recipe |}.

(** [Drop for Children]: one child, and all of them. *)
Definition reap (child : pid) (w : W) : option W :=
  match try_wait child w with
  | (w, Ok None) => wait child (kill child w).1
  | (w, _) => wait child w
  end.

Fixpoint drop_children (children : list (string * pid)) (w : W) : option W :=
  match children with
  | [] => Some w
  | (_, child) :: children => w ← reap child w; drop_children children w
  end.

(** [run_watching]: the supervision, then the children dropped, however it ended; [None] is
    a run that never returns.  The lines are those [on_line] was given. *)
Definition run_watching (fuel : nat) (plan : ProcessPlan) (w : W)
    : Supervisor * option (outcome ProcessError ProcessSummary) :=
  let '(s, r) := supervise fuel plan
    {| sv_os := w; sv_children := []; sv_clients := []; sv_recipe := []; sv_observers := []; sv_lines := [] |} in
  let result := match r with
                | Ok summary => Some (Ok summary)
                | Err (Some e) => Some (Err e)
                | Err None => None
                | Panic => Some Panic
                end in
  match result, drop_children (sv_children s) (sv_os s) with
  | Some result, Some w => (with_os w s, Some result)
  | _, _ => (s, None)
  end.
End supervisor.

(** ** What the system promises *)

(** Which processes run, and all that were ever started, each with the command it was
    started with. *)
Class ProcessTable `{Os : ProcessOs W} := {
  alive : pid → W → Prop;
  spawned : W → list (pid * Spawn);
}.

Definition pids `{PT : ProcessTable} (w : W) : list pid := map fst (spawned w).

(** Time passes, nothing is started, nothing comes back to life. *)
Definition quiet `{PT : ProcessTable} (w w' : W) : Prop :=
  now w ≤ now w' ∧ spawned w' = spawned w ∧ ∀ p, alive p w' → alive p w.

Class ProcessOsLaws `{PT : ProcessTable} := {
  create_dir_all_quiet path w : quiet w (create_dir_all path w).1;
  remove_file_quiet path w : quiet w (remove_file path w);
  create_file_quiet path w : quiet w (create_file path w).1;
  try_clone_quiet path w : quiet w (try_clone path w).1;
  try_wait_quiet p w : quiet w (try_wait p w).1;
  kill_quiet p w : quiet w (kill p w).1;
  wait_quiet p w w' : wait p w = Some w' → quiet w w';
  read_file_quiet path w : quiet w (read_file path w).1;
  sleep_quiet d w : quiet w (sleep d w);
  connect_quiet addr w : quiet w (connect addr w).1;
  write_all_quiet c text w : quiet w (write_all c text w).1;
  read_quiet c w : quiet w (read c w).1;
  try_recv_quiet w : quiet w (try_recv w).1;
  (** a new process, or an error and none *)
  os_spawn_spec piped log s w :
    let '(w', r) := os_spawn piped log s w in
    now w ≤ now w' ∧
    match r with
    | Ok p => p ∉ pids w ∧ spawned w' = spawned w ++ [(p, s)] ∧ ∀ q, q ≠ p → alive q w' → alive q w
    | Err _ => spawned w' = spawned w ∧ ∀ q, alive q w' → alive q w
    | Panic => False
    end;
  (** an exit status, and [wait] returning, mean that it is over *)
  try_wait_exited p w w' status : try_wait p w = (w', Ok (Some status)) → ¬ alive p w';
  wait_dead p w w' : wait p w = Some w' → ¬ alive p w';
  (** a process that is over, or was killed, is waited for in finite time *)
  wait_returns p w : ¬ alive p w → is_Some (wait p w);
  killed_returns p w w' : kill p w = (w', None) → is_Some (wait p w');
  sleep_passes d w : 0 ≤ d → now w + d ≤ now (sleep d w);
}.

Section laws.
Context `{PL : ProcessOsLaws}.

#[export] Instance quiet_preorder : PreOrder quiet.
Proof. split; [intros w; split; [lia|by auto]|]. intros w1 w2 w3 (? & ? & ?) (? & ? & ?). split; [lia|]. split; [congruence|auto]. Qed.

Lemma reap_spec p w w' : reap p w = Some w' → quiet w w' ∧ ¬ alive p w'.
Proof.
  unfold reap. pose proof (try_wait_quiet p w) as Ht. destruct (try_wait p w) as [w1 r]. cbn [fst] in Ht.
  destruct r as [[st|]| |]; intros Hw; (split; [|by eapply wait_dead]); (etrans; [exact Ht|]);
    try by eapply wait_quiet.
  etrans; [apply kill_quiet|by eapply wait_quiet].
Qed.

Lemma drop_children_spec (children : list (string * pid)) w w' :
  drop_children children w = Some w' → quiet w w' ∧ ∀ p, p ∈ map snd children → ¬ alive p w'.
Proof.
  revert w. induction children as [|[label p] children IH]; intros w; simpl.
  { intros [= <-]. split; [reflexivity|]. by intros p ?%elem_of_nil. }
  destruct (reap p w) as [w1|] eqn:Hr; [|done]. simpl. intros [Hq Hd]%IH. apply reap_spec in Hr as [Hq1 Hd1].
  split; [by etrans|]. intros q [->|Hin]%elem_of_cons; [|by apply Hd]. intros Ha. by apply Hd1, Hq.
Qed.
End laws.

#[export] Hint Resolve create_dir_all_quiet remove_file_quiet create_file_quiet try_clone_quiet try_wait_quiet
  kill_quiet read_file_quiet sleep_quiet connect_quiet write_all_quiet read_quiet try_recv_quiet : quiet.

Section supervision.
Context `{PL : ProcessOsLaws}.
Context (join : string → string → string) (show_addr : SocketAddr → string)
        (addr_from_str : string → option SocketAddr).

Notation sv := Supervisor.

(** A step that looks and waits: only the system moves on, and lines arrive. *)
Definition looks (s s' : sv) : Prop :=
  quiet (sv_os s) (sv_os s') ∧ sv_children s' = sv_children s ∧ sv_clients s' = sv_clients s ∧
  sv_recipe s' = sv_recipe s ∧ sv_observers s' = sv_observers s.

#[export] Instance looks_preorder : PreOrder looks.
Proof.
  split; [intros s; by split_and!|]. intros s1 s2 s3 (? & ? & ? & ? & ?) (? & ? & ? & ? & ?).
  split_and!; [by etrans|congruence..].
Qed.

Lemma looks_bind {A B} (m : M A) (k : A → M B) :
  preserves looks m → (∀ a, preserves looks (k a)) → preserves looks (m ≫= k).
Proof. apply preserves_bind, _. Qed.

Lemma looks_sys {A} (f : W → W * A) : (∀ w, quiet w (f w).1) → preserves looks (sys f).
Proof.
  intros Hf s. unfold sys. specialize (Hf (sv_os s)). destruct (f (sv_os s)) as [w a]. by split_and!.
Qed.

Lemma looks_ret {A} (a : A) : preserves looks (mret a : M A).
Proof. apply preserves_pure; [apply _|done]. Qed.
Lemma looks_of {A} (o : outcome (option ProcessError) A) : preserves looks (of_outcome o : M A).
Proof. apply preserves_pure; [apply _|done]. Qed.
Lemma looks_gets {A} (f : sv → A) : preserves looks (gets f : M A).
Proof. apply preserves_pure; [apply _|done]. Qed.

Lemma looks_fail {A} e : preserves looks (fail e : M A).
Proof. apply looks_of. Qed.
Lemma looks_blocked {A} : preserves looks (blocked : M A).
Proof. apply looks_of. Qed.
Lemma looks_push_line line : preserves looks (push_line line).
Proof. intros s. split; [reflexivity|done]. Qed.

Lemma looks_collectM {A B} (body : A → M B) l : (∀ x, preserves looks (body x)) → preserves looks (collectM body l).
Proof.
  intros Hb. induction l as [|x l IH]; [apply looks_ret|]. apply looks_bind; [apply Hb|]. intros y.
  apply looks_bind; [done|]. intros ys. apply looks_ret.
Qed.

Ltac look :=
  repeat (intros; match goal with
  | |- preserves looks (mbind _ _) => apply looks_bind
  | |- preserves looks (sys _) => apply looks_sys; intros; cbn [fst]; auto with quiet; try reflexivity
  | |- preserves looks (mret _) => apply looks_ret
  | |- preserves looks (of_outcome _) => apply looks_of
  | |- preserves looks (fail _) => apply looks_fail
  | |- preserves looks blocked => apply looks_blocked
  | |- preserves looks (push_line _) => apply looks_push_line
  | |- preserves looks (gets _) => apply looks_gets
  | |- preserves looks (collectM _ _) => apply looks_collectM
  | |- preserves looks (let '(_, _) := ?p in _) => destruct p
  | |- preserves looks (match ?x with _ => _ end) => destruct x
  end); intros; try done.

Lemma looks_tail path n : preserves looks (tail path n).
Proof. unfold tail. look. Qed.
Lemma looks_still_starting label child log timeout deadline :
  preserves looks (still_starting label child log timeout deadline).
Proof. unfold still_starting. look; apply looks_tail. Qed.

Lemma looks_addr_turn label child addr_file key log timeout deadline :
  preserves looks (addr_turn addr_from_str label child addr_file key log timeout deadline).
Proof. unfold addr_turn. look; apply looks_still_starting. Qed.

Lemma looks_sleep d : preserves looks (sys_ (sleep d)).
Proof. unfold sys_. look. Qed.

Lemma looks_polling {A} fuel pause (turn : M (option A)) : preserves looks turn → preserves looks (polling fuel pause turn).
Proof.
  intros Ht. induction fuel as [|fuel IH]; cbn [polling]; [apply looks_blocked|].
  apply looks_bind; [done|]. intros [a|]; [apply looks_ret|]. apply looks_bind; [apply looks_sleep|]. by intros _.
Qed.

Lemma looks_deadline_in timeout : preserves looks (deadline_in timeout).
Proof. unfold deadline_in. look. Qed.

Lemma looks_await_addr fuel label child addr_file key log timeout :
  preserves looks (await_addr addr_from_str fuel label child addr_file key log timeout).
Proof. apply looks_bind; [apply looks_deadline_in|]. intros deadline. apply looks_polling, looks_addr_turn. Qed.

Lemma looks_read_to_string fuel stream response : preserves looks (read_to_string fuel stream response).
Proof. revert response. induction fuel as [|fuel IH]; intros response; cbn [read_to_string]; look. Qed.

Lemma looks_health_ok fuel addr : preserves looks (health_ok show_addr fuel addr).
Proof. unfold health_ok. look. apply looks_read_to_string. Qed.

Lemma looks_health_turn fuel child log timeout deadline addr :
  preserves looks (health_turn show_addr fuel child log timeout deadline addr).
Proof. unfold health_turn. look; [apply looks_health_ok|apply looks_still_starting]. Qed.

Lemma looks_await_health fuel child log timeout addr : preserves looks (await_health show_addr fuel child log timeout addr).
Proof. apply looks_bind; [apply looks_deadline_in|]. intros deadline. apply looks_polling, looks_health_turn. Qed.

Lemma looks_deliver_lines lines : preserves looks (deliver_lines lines).
Proof. induction lines as [|lines IH]; cbn [deliver_lines]; look. Qed.

Lemma looks_poll_clients clients : preserves looks (poll_clients clients).
Proof. unfold poll_clients, poll_client. look. apply looks_tail. Qed.

Lemma looks_all_exited labels : preserves looks (all_exited labels).
Proof. induction labels as [|label labels IH]; cbn [all_exited]; [apply looks_ret|]. unfold has_exited. by look. Qed.

Lemma looks_watch lines fuel plan clients deadline outcomes : preserves looks (watch lines fuel plan clients deadline outcomes).
Proof.
  revert outcomes. induction fuel as [|fuel IH]; intros outcomes; cbn [watch]; [apply looks_blocked|].
  look; first [apply looks_poll_clients|apply looks_deliver_lines|apply looks_all_exited|apply looks_sleep|apply IH].
Qed.

(** *** The supervisor returns *)

(** What it needs of its surroundings for that: a [/health] answer ends within as many
    reads as there is fuel, so does a burst of lines, and the system answers for the
    children: a status is always known, and one that runs can be killed. *)
Fixpoint answer_ends (n : nat) (stream : conn) (w : W) : Prop :=
  match n with
  | O => False
  | S n => match read stream w with (w, Got _) => answer_ends n stream w | _ => True end
  end.
Fixpoint burst_ends (n : nat) (w : W) : Prop :=
  match n with
  | O => False
  | S n => match try_recv w with (w, Some _) => burst_ends n w | _ => True end
  end.

Record cooperative (fuel : nat) : Prop := {
  co_answers stream w : answer_ends fuel stream w;
  co_bursts w : burst_ends fuel w;
  co_status p w : ∃ status, (try_wait p w).2 = Ok status;
  co_kill p w w' : try_wait p w = (w', Ok None) → (kill p w').2 = None;
}.

(** A computation that does not block, and panics only when the clock has come so close to
    the last [Instant] that one of the timeouts no longer fits. *)
Section returns.
Context (longest : Z).

Definition late (s : sv) : Prop := INSTANT_MAX < now (sv_os s) + longest.
Definition returns {A} (m : M A) : Prop := ∀ s, (m s).2 ≠ Err None ∧ ((m s).2 = Panic → late (m s).1).

Lemma returns_bind {A B} (m : M A) (k : A → M B) : returns m → (∀ a, returns (k a)) → returns (m ≫= k).
Proof.
  intros Hm Hk s. unfold mbind, stM_bind. specialize (Hm s). destruct (m s) as [s1 [a|e|]]; [apply Hk| |].
  - destruct Hm as [Hm _]. cbn in *. split; [congruence|done].
  - destruct Hm as [_ Hm]. cbn in *. split; [done|auto].
Qed.

Lemma returns_sys {A} (f : W → W * A) : returns (sys f).
Proof. intros s. unfold sys. by destruct (f (sv_os s)). Qed.

Lemma returns_collectM {A B} (body : A → M B) l : (∀ x, returns (body x)) → returns (collectM body l).
Proof.
  intros Hb. induction l as [|x l IH]; [by intros s|]. apply returns_bind; [apply Hb|]. intros y.
  apply returns_bind; [done|]. by intros ys s.
Qed.

Lemma returns_for_each {A} (body : A → M ()) l : (∀ x, returns (body x)) → returns (for_each body l).
Proof. intros Hb. induction l as [|x l IH]; [by intros s|]. apply returns_bind; [apply Hb|]. by intros _. Qed.

Ltac returning :=
  repeat (intros; match goal with
  | |- returns (mbind _ _) => apply returns_bind
  | |- returns (sys _) => apply returns_sys
  | |- returns (sys_ _) => apply returns_sys
  | |- returns (mret _) => intros ?; done
  | |- returns (gets _) => intros ?; done
  | |- returns (modify _) => intros ?; done
  | |- returns (fail _) => intros ?; done
  | |- returns (collectM _ _) => apply returns_collectM
  | |- returns (for_each _ _) => apply returns_for_each
  | |- returns (let '(_, _) := ?p in _) => destruct p
  | |- returns (match ?x with _ => _ end) => destruct x
  end); intros; try done.

Lemma returns_still_starting label child log timeout deadline : returns (still_starting label child log timeout deadline).
Proof. unfold still_starting, tail. returning. Qed.

Lemma returns_addr_turn label child addr_file key log timeout deadline :
  returns (addr_turn addr_from_str label child addr_file key log timeout deadline).
Proof. unfold addr_turn. returning; apply returns_still_starting. Qed.

Lemma deadline_in_panics timeout s : INSTANT_MAX < now (sv_os s) + timeout → (deadline_in timeout s).2 = Panic.
Proof. intros H. unfold deadline_in, mbind, stM_bind, sys, of_outcome. cbn. by apply instant_add_panics. Qed.

Lemma returns_deadline_in timeout : timeout ≤ longest → returns (deadline_in timeout).
Proof.
  intros Hle s. unfold deadline_in, mbind, stM_bind, sys, of_outcome. cbn. split; [apply instant_add_no_err|].
  intros Hp%instant_add_panics. unfold late. cbn. lia.
Qed.

(** A wait that goes on does so before the deadline. *)
Lemma still_starting_before label child log timeout deadline s s' :
  still_starting label child log timeout deadline s = (s', Ok ()) → now (sv_os s') < deadline.
Proof.
  unfold still_starting. intros (status & s1 & _ & H)%stM_bind_ok.
  assert (Hc : (sys (λ w, (w, now w)) ≫= λ t, if deadline <=? t
             then tail log 25 ≫= λ t, fail (StartupTimeout label timeout t) else mret ()) s1 = (s', Ok ()) →
           now (sv_os s') < deadline).
  { intros (t & s2 & [= <- <-] & Hd)%stM_bind_ok. destruct (Z.leb_spec deadline (now (sv_os s1))).
    - by apply stM_bind_ok in Hd as (? & ? & _ & ?).
    - by injection Hd as <-. }
  destruct status as [[status|]| |]; [|by apply Hc..]. by apply stM_bind_ok in H as (? & ? & _ & ?).
Qed.

Lemma addr_turn_before label child addr_file key log timeout deadline s s' :
  addr_turn addr_from_str label child addr_file key log timeout deadline s = (s', Ok None) → now (sv_os s') < deadline.
Proof.
  unfold addr_turn. intros (read & s1 & _ & H)%stM_bind_ok.
  assert (Hc : (still_starting label child log timeout deadline ≫= λ _, mret None) s1 = (s', Ok (None : option SocketAddr)) →
           now (sv_os s') < deadline).
  { intros ([] & s2 & Hs & [= <-])%stM_bind_ok. by eapply still_starting_before. }
  destruct read as [[contents|]|]; [|by apply Hc..]. destruct (reported_addr _ _ _); [done|].
  apply stM_bind_ok in H as (t & s2 & [= <- <-] & H). destruct (_ && _); [done|].
  apply stM_bind_ok in H as ([] & s3 & Hs & [= <-]). by eapply still_starting_before.
Qed.

Lemma polling_returns {A} fuel pause (turn : M (option A)) deadline :
  0 < pause → preserves looks turn → returns turn → (∀ s s', turn s = (s', Ok None) → now (sv_os s') < deadline) →
  ∀ s, (0 < fuel)%nat → deadline - now (sv_os s) < pause * (Z.of_nat fuel - 1) →
  (polling fuel pause turn s).2 ≠ Err None ∧ ((polling fuel pause turn s).2 = Panic → late (polling fuel pause turn s).1).
Proof.
  intros Hp Hl Ht Hb. induction fuel as [|fuel IH]; intros s Hf Hd; [lia|]. cbn [polling].
  unfold mbind, stM_bind. specialize (Hl s). specialize (Ht s). specialize (Hb s).
  destruct (turn s) as [s1 [[a|]|e|]]; [done| | |].
  2: { destruct Ht as [Ht _]. cbn in *. split; [congruence|done]. }
  2: { destruct Ht as [_ Ht]. cbn in *. split; [done|auto]. }
  cbn [fst] in Hl. specialize (Hb s1 eq_refl).
  destruct Hl as ((Hn & _) & _). unfold sys_, sys. cbn.
  pose proof (sleep_passes pause (sv_os s1) ltac:(lia)) as Hs. destruct fuel as [|fuel]; [lia|].
  apply IH; [lia|]. cbn. lia.
Qed.

(** A polling loop whose turns give up a timeout after it began. *)
Lemma timed_polling_returns {A} fuel pause (turn : Z → M (option A)) timeout :
  0 < pause → (∀ deadline, preserves looks (turn deadline)) → (∀ deadline, returns (turn deadline)) →
  (∀ deadline s s', turn deadline s = (s', Ok None) → now (sv_os s') < deadline) →
  (0 < fuel)%nat → timeout < pause * (Z.of_nat fuel - 1) → timeout ≤ longest →
  returns (deadline_in timeout ≫= λ deadline, polling fuel pause (turn deadline)).
Proof.
  intros Hp Hl Ht Hb Hf Htime Hle s. pose proof (returns_deadline_in timeout Hle s) as Hd.
  unfold deadline_in, mbind, stM_bind, sys, of_outcome in *. cbn in *.
  destruct (instant_add (now (sv_os s)) timeout) as [deadline|e|] eqn:Hi.
  2, 3: destruct Hd as [Hd Hd']; cbn in *; split; [congruence|first [discriminate|auto]].
  apply instant_add_ok in Hi as [-> _].
  apply (polling_returns _ _ _ (now (sv_os s) + timeout)); [done|apply Hl|apply Ht|apply Hb|done|cbn; lia].
Qed.

Lemma await_addr_returns fuel label child addr_file key log timeout :
  (0 < fuel)%nat → timeout < 20 * (Z.of_nat fuel - 1) → timeout ≤ longest →
  returns (await_addr addr_from_str fuel label child addr_file key log timeout).
Proof.
  intros Hf Ht Hle. apply (timed_polling_returns fuel 20 (addr_turn addr_from_str label child addr_file key log timeout));
    [lia|by intros; apply looks_addr_turn|by intros; apply returns_addr_turn| |done..].
  intros deadline s s'. apply addr_turn_before.
Qed.

Section cooperating.
Context (fuel : nat) (Hco : cooperative fuel).

Lemma returns_read_to_string n stream response s :
  answer_ends n stream (sv_os s) →
  (read_to_string n stream response s).2 ≠ Err None ∧ (read_to_string n stream response s).2 ≠ Panic.
Proof.
  revert response s. induction n as [|n IH]; intros response s; cbn [read_to_string answer_ends]; [done|].
  unfold mbind, stM_bind, sys. destruct (read stream (sv_os s)) as [w [bytes| |]] eqn:Hr; cbn; [|done..].
  intros He. by apply IH.
Qed.

Lemma returns_health_ok addr : returns (health_ok show_addr fuel addr).
Proof.
  unfold health_ok. returning. intros s.
  destruct (returns_read_to_string fuel c "" s (co_answers _ Hco _ _)) as [H1 H2]. split; [done|by intros ?].
Qed.

Lemma returns_health_turn child log timeout deadline addr : returns (health_turn show_addr fuel child log timeout deadline addr).
Proof. unfold health_turn. returning; [apply returns_health_ok|apply returns_still_starting]. Qed.

Lemma health_turn_before child log timeout deadline addr s s' :
  health_turn show_addr fuel child log timeout deadline addr s = (s', Ok None) → now (sv_os s') < deadline.
Proof.
  unfold health_turn. intros (ok & s1 & _ & H)%stM_bind_ok. destruct ok; [done|].
  apply stM_bind_ok in H as ([] & s2 & Hs & [= <-]). by eapply still_starting_before.
Qed.

Lemma await_health_returns child log timeout addr :
  (0 < fuel)%nat → timeout < 20 * (Z.of_nat fuel - 1) → timeout ≤ longest →
  returns (await_health show_addr fuel child log timeout addr).
Proof.
  intros Hf Ht Hle. apply (timed_polling_returns fuel 25 (λ deadline, health_turn show_addr fuel child log timeout deadline addr));
    [lia|by intros; apply looks_health_turn|by intros; apply returns_health_turn| |done|lia|done].
  intros deadline s s'. apply health_turn_before.
Qed.

Lemma burst_delivered n s :
  burst_ends n (sv_os s) → (deliver_lines n s).2 ≠ Err None ∧ (deliver_lines n s).2 ≠ Panic.
Proof.
  revert s. induction n as [|n IH]; intros s; cbn [deliver_lines burst_ends]; [done|].
  unfold mbind, stM_bind, sys. destruct (try_recv (sv_os s)) as [w [line|]] eqn:Hr; cbn; [|done].
  intros He. apply IH. done.
Qed.

Lemma returns_deliver_lines : returns (deliver_lines fuel).
Proof. intros s. destruct (burst_delivered fuel s (co_bursts _ Hco _)) as [H1 H2]. split; [done|by intros ?]. Qed.

Lemma returns_poll_clients clients : returns (poll_clients clients).
Proof. unfold poll_clients, poll_client, tail. returning. Qed.

Lemma returns_all_exited labels : returns (all_exited labels).
Proof. induction labels as [|label labels IH]; cbn [all_exited]; [by intros s|]. unfold has_exited. by returning. Qed.

(** One round of the wait that does not end it leaves time to sleep. *)
Lemma watch_returns plan clients deadline n outcomes s :
  (0 < n)%nat → deadline - now (sv_os s) < 50 * (Z.of_nat n - 1) →
  let r := watch fuel n plan clients deadline outcomes s in r.2 ≠ Err None ∧ (r.2 = Panic → late r.1).
Proof.
  revert outcomes s. induction n as [|n IH]; intros outcomes s Hf Hd; [lia|]. cbn [watch]. cbv zeta.
  assert (Hstep : ∀ {B X} (m : M X) (k : X → M B) s, preserves looks m → returns m →
    (∀ x s', now (sv_os s) ≤ now (sv_os s') → (k x s').2 ≠ Err None ∧ ((k x s').2 = Panic → late (k x s').1)) →
    ((m ≫= k) s).2 ≠ Err None ∧ (((m ≫= k) s).2 = Panic → late ((m ≫= k) s).1)).
  { intros B X m k s0 Hl Ht Hk. unfold mbind, stM_bind. specialize (Hl s0). specialize (Ht s0).
    destruct (m s0) as [s1 [x|e|]]; [apply Hk; apply Hl|..]; destruct Ht as [Ht Ht']; cbn in *; (split; [congruence|first [discriminate|auto]]). }
  apply Hstep; [apply looks_poll_clients|apply returns_poll_clients|]. intros os1 s1 H1.
  apply Hstep; [apply looks_deliver_lines|apply returns_deliver_lines|]. intros _ s2 H2.
  apply Hstep; [apply looks_gets|by intros ?|]. intros labels s3 H3.
  apply Hstep; [apply looks_all_exited|apply returns_all_exited|]. intros done_ s4 H4. destruct (_ && _).
  { apply (returns_bind _ _ returns_deliver_lines). by intros _ s'. }
  unfold mbind, stM_bind, sys_, sys. destruct s4 as [w ch cl re ob li]. cbn in *.
  destruct (Z.leb_spec deadline (now w)); [done|]. cbn.
  pose proof (sleep_passes 50 w ltac:(lia)). destruct n as [|n]; [lia|]. apply IH; [lia|cbn; lia].
Qed.

Lemma returns_launch piped label path cmd : returns (launch piped label path cmd).
Proof.
  intros s. unfold launch, mbind, stM_bind, sys. pose proof (os_spawn_spec piped path cmd (sv_os s)) as Hs.
  destruct (os_spawn piped path cmd (sv_os s)) as [w [p|e|]]; cbn; [done|done|]. by destruct Hs.
Qed.

Lemma returns_io f error : returns (io f error).
Proof. unfold io. returning. Qed.

Lemma returns_spawn plan label cmd : returns (spawn join plan label cmd).
Proof. unfold spawn. returning; first [apply returns_io|apply returns_launch]. Qed.
Lemma returns_spawn_streaming plan label cmd : returns (spawn_streaming join plan label cmd).
Proof. unfold spawn_streaming. returning; first [apply returns_io|apply returns_launch]. Qed.

Context (plan : ProcessPlan) (Hpos : (0 < fuel)%nat).
Context (Hstart : pl_startup_timeout plan < 20 * (Z.of_nat fuel - 1)) (Hrun : pl_run_timeout plan < 50 * (Z.of_nat fuel - 1)).
Context (Hls : pl_startup_timeout plan ≤ longest) (Hlr : pl_run_timeout plan ≤ longest).

Lemma returns_start_server : returns (start_server join show_addr addr_from_str fuel plan).
Proof.
  unfold start_server, push_recipe, push_child.
  returning; first [apply returns_spawn|by apply await_addr_returns|by apply await_health_returns].
Qed.

Lemma returns_start_node grpc ip : returns (start_node join show_addr addr_from_str fuel plan grpc ip).
Proof.
  destruct ip as [i p]. unfold start_node, push_recipe, push_child.
  returning; first [apply returns_spawn|by apply await_addr_returns].
Qed.

Lemma returns_start_client ipa : returns (start_client join show_addr plan ipa).
Proof. destruct ipa as [[i p] a]. unfold start_client, push_recipe, push_client. returning. apply returns_spawn. Qed.

Lemma returns_start_observer addrs io : returns (start_observer join show_addr plan addrs io).
Proof.
  destruct io as [i o]. unfold start_observer, push_recipe, push_observer, push_child.
  returning. case_match; [apply returns_spawn_streaming|apply returns_spawn].
Qed.

Lemma returns_supervise : returns (supervise join show_addr addr_from_str fuel plan).
Proof.
  unfold supervise. apply returns_bind; [apply returns_io|]. intros _.
  apply returns_bind; [apply returns_start_server|]. intros [grpc http].
  apply returns_bind; [apply returns_collectM; intros ip; apply returns_start_node|]. intros addrs.
  apply returns_bind; [apply returns_for_each; intros ipa; apply returns_start_client|]. intros _.
  apply returns_bind; [apply returns_for_each; intros io; apply returns_start_observer|]. intros _ s.
  pose proof (returns_deadline_in (pl_run_timeout plan) Hlr s) as Hd.
  unfold deadline_in, mbind, stM_bind, sys, of_outcome, gets in Hd |- *. cbn in Hd |- *.
  destruct (instant_add (now (sv_os s)) (pl_run_timeout plan)) as [deadline|e|] eqn:Hi.
  2, 3: destruct Hd as [Hd Hd']; cbn in *; split; [congruence|first [discriminate|auto]].
  apply instant_add_ok in Hi as [-> _]. cbn.
  assert (Ht : now (sv_os s) + pl_run_timeout plan - now (sv_os (with_os (sv_os s) s)) < 50 * (Z.of_nat fuel - 1)) by (cbn [with_os sv_os]; lia).
  pose proof (watch_returns plan (sv_clients s) _ fuel (replicate (length (sv_clients s)) None) _ Hpos Ht) as Hw. cbv zeta in Hw.
  destruct (watch _ _ _ _ _ _ _) as [s1 [o|e|]]; [done|..]; destruct Hw as [Hw Hw']; cbn in *; (split; [congruence|first [discriminate|auto]]).
Qed.
End cooperating.
End returns.

(** What the supervisor holds is dropped in finite time. *)
Lemma drop_children_returns fuel (children : list (string * pid)) w :
  cooperative fuel → is_Some (drop_children children w).
Proof.
  intros Hco. revert w. induction children as [|[label p] children IH]; intros w; cbn [drop_children]; [by eexists|].
  assert (is_Some (reap p w)) as [w1 Hw1].
  { unfold reap. destruct (co_status _ Hco p w) as [st Hst]. pose proof (co_kill _ Hco p w) as Hk.
    pose proof (try_wait_exited p w) as He.
    destruct (try_wait p w) as [w1 r]. cbn in Hst. subst r. destruct st as [st|].
    - by eapply wait_returns, He.
    - specialize (Hk w1 eq_refl). destruct (kill p w1) as [w2 failed] eqn:Hkill. cbn in Hk. subst failed.
      by eapply killed_returns. }
  rewrite Hw1. apply IH.
Qed.

Definition enough_fuel (fuel : nat) (plan : ProcessPlan) : Prop :=
  (0 < fuel)%nat ∧ pl_startup_timeout plan < 20 * (Z.of_nat fuel - 1) ∧ pl_run_timeout plan < 50 * (Z.of_nat fuel - 1).

Lemma bind_sys {A B} (f : W → W * A) (k : A → M B) s : (sys f ≫= k) s = k (f (sv_os s)).2 (with_os (f (sv_os s)).1 s).
Proof. unfold mbind, stM_bind, sys. by destruct (f (sv_os s)). Qed.

Lemma blocked_bind {A B} (m : M A) (k : A → M B) s : (m s).2 = Err None → ((m ≫= k) s).2 = Err None.
Proof. unfold mbind, stM_bind. destruct (m s) as [s1 [a|e|]]; cbn; congruence. Qed.

(** A peer that drips its answer, a byte within every read's timeout and no end, keeps the
    supervisor in one [health_ok] for good, whatever the startup timeout was. *)
Lemma dripping_answer_blocks fuel child log timeout addr s :
  (∀ a w, is_Some (connect a w).2) → (∀ c text w, (write_all c text w).2 = true) →
  (∀ c w, ∃ bytes, (read c w).2 = Got bytes) → now (sv_os s) + timeout ≤ INSTANT_MAX →
  (await_health show_addr fuel child log timeout addr s).2 = Err None.
Proof.
  intros Hc Hw Hr Ht.
  assert (Hread : ∀ n c response s, (read_to_string n c response s).2 = Err None).
  { intros n c. induction n as [|n IH]; intros response s0; [done|]. cbn [read_to_string]. rewrite bind_sys.
    destruct (Hr c (sv_os s0)) as [bytes ->]. apply IH. }
  unfold await_health. unfold mbind, stM_bind, deadline_in. rewrite bind_sys. cbn [fst snd]. unfold of_outcome.
  rewrite (proj2 (instant_add_ok _ _ _) (conj eq_refl Ht)). destruct fuel as [|fuel]; [done|]. cbn [polling].
  apply blocked_bind, blocked_bind. unfold health_ok. rewrite bind_sys.
  match goal with |- context [(connect addr ?w).2] => destruct (Hc addr w) as [c ->] end.
  rewrite bind_sys, Hw. apply blocked_bind, Hread.
Qed.

(** C27: the supervisor returns, as long as what it waits on without a deadline does.
    Take any system on which sleeping lets the clock advance and a spawn either answers or
    fails, and fuel for one poll per pause in each timeout.  If every [/health] answer comes
    to an end, no observer prints lines faster than they are taken out, and the system
    answers for the children and lets them be killed, then the run returns, however late the
    children report and whichever of them hang; every child but the clients is over when it
    does; and it panics only when the clock has come within one of the two timeouts of the
    last [Instant]. *)
Theorem supervisor_returns (plan : ProcessPlan) (fuel : nat) (w : W) :
  enough_fuel fuel plan → cooperative fuel →
  ∃ s r, run_watching join show_addr addr_from_str fuel plan w = (s, Some r) ∧
    (∀ p, p ∈ map snd (sv_children s) → ¬ alive p (sv_os s)) ∧
    (r = Panic → INSTANT_MAX < now (sv_os s) + Z.max (pl_startup_timeout plan) (pl_run_timeout plan)).
Proof.
  intros (Hf & Hs & Hr) Hco. unfold run_watching.
  pose proof (returns_supervise (Z.max (pl_startup_timeout plan) (pl_run_timeout plan)) fuel Hco plan Hf Hs Hr ltac:(lia) ltac:(lia)
    {| sv_os := w; sv_children := []; sv_clients := []; sv_recipe := []; sv_observers := []; sv_lines := [] |}) as [Hb Hp].
  destruct (supervise _ _ _ _ _ _) as [s r]. cbn [fst snd] in *.
  destruct (drop_children_returns fuel (sv_children s) (sv_os s) Hco) as [w' Hw']. rewrite Hw'.
  apply drop_children_spec in Hw' as [(Hn & _) Hdead].
  assert (Hlate : r = Panic → INSTANT_MAX < now w' + Z.max (pl_startup_timeout plan) (pl_run_timeout plan)).
  { intros ->. specialize (Hp eq_refl). unfold late in Hp. lia. }
  destruct r as [summary|[e|]|]; [| |done|]; (do 2 eexists; split; [reflexivity|]; split; [exact Hdead|]);
    [discriminate|discriminate|by intros _; apply Hlate].
Qed.

(** *** What it starts, it keeps track of *)

Definition tracked (s : sv) : list pid := map snd (sv_children s) ++ map cl_pid (sv_clients s).

(** Every process started in between is tracked afterwards, and the dead stay dead. *)
Record grows (s s' : sv) : Prop := {
  gr_dead p : p ∈ pids (sv_os s) → alive p (sv_os s') → alive p (sv_os s);
  gr_spawned p : p ∈ pids (sv_os s) → p ∈ pids (sv_os s');
  gr_tracked p : p ∈ pids (sv_os s') → p ∈ pids (sv_os s) ∨ p ∈ tracked s';
  gr_kept p : p ∈ tracked s → p ∈ tracked s';
}.

#[export] Instance grows_preorder : PreOrder grows.
Proof.
  split; [intros s; by split; auto|]. intros s1 s2 s3 [] []. split; [by eauto..| |by eauto].
  intros p Hp. destruct (gr_tracked1 p Hp) as [H|H]; [|by right].
  destruct (gr_tracked0 p H) as [|]; [by left|right; by auto].
Qed.

Lemma looks_grows s s' : looks s s' → grows s s'.
Proof.
  intros ((_ & Hs & Ha) & Hc & Hcl & _). unfold looks in *.
  split; unfold tracked, pids; rewrite ?Hs, ?Hc, ?Hcl; auto.
Qed.

Lemma grows_looks {A} (m : M A) : preserves looks m → preserves grows m.
Proof. intros H s. apply looks_grows, H. Qed.

Lemma grows_bind {A B} (m : M A) (k : A → M B) :
  preserves grows m → (∀ a, preserves grows (k a)) → preserves grows (m ≫= k).
Proof. apply preserves_bind, _. Qed.

(** A spawn starts one process, with the command it was given, or none. *)
Definition born (p : pid) (cmd : Spawn) (s s' : sv) : Prop :=
  p ∉ pids (sv_os s) ∧ spawned (sv_os s') = spawned (sv_os s) ++ [(p, cmd)] ∧
  (∀ q, q ≠ p → alive q (sv_os s') → alive q (sv_os s)) ∧ sv_children s' = sv_children s ∧
  sv_clients s' = sv_clients s ∧ sv_recipe s' = sv_recipe s ∧ sv_observers s' = sv_observers s.

Definition starts (cmd : Spawn) (m : M (pid * string)) : Prop := ∀ s,
  match m s with
  | (s', Ok (p, _)) => ∃ s0, looks s s0 ∧ born p cmd s0 s'
  | (s', _) => looks s s'
  end.

Lemma starts_after {A} cmd (m : M A) (k : A → M (pid * string)) :
  preserves looks m → (∀ a, starts cmd (k a)) → starts cmd (m ≫= k).
Proof.
  intros Hm Hk s. unfold mbind, stM_bind. specialize (Hm s). destruct (m s) as [s1 [a|e|]]; cbn [fst] in Hm; [|done..].
  specialize (Hk a s1). destruct (k a s1) as [s2 [[p log]|e|]].
  - destruct Hk as (s0 & ? & ?). exists s0. split; [by etrans|done].
  - by etrans.
  - by etrans.
Qed.

Lemma starts_launch piped label path cmd : starts cmd (launch piped label path cmd ≫= λ child, mret (child, path)).
Proof.
  intros s. unfold launch, mbind, stM_bind, sys. pose proof (os_spawn_spec piped path cmd (sv_os s)) as Hs.
  destruct (os_spawn piped path cmd (sv_os s)) as [w [p|e|]]; cbn.
  - exists s. split; [reflexivity|]. destruct Hs as (_ & ? & ? & ?). by split_and!.
  - destruct Hs as (? & ? & ?). by split_and!.
  - by destruct Hs.
Qed.

Lemma looks_io f error : (∀ w, quiet w (f w).1) → preserves looks (io f error).
Proof. intros Hf. unfold io. apply looks_bind; [by apply looks_sys|]. intros a. destruct a; [apply looks_fail|apply looks_ret]. Qed.

Lemma starts_spawn plan label cmd : starts cmd (spawn join plan label cmd).
Proof.
  unfold spawn. apply starts_after; [apply looks_io; intros; apply create_file_quiet|]. intros _.
  apply starts_after; [apply looks_io; intros; apply try_clone_quiet|]. intros _. apply starts_launch.
Qed.

Lemma starts_spawn_streaming plan label cmd : starts cmd (spawn_streaming join plan label cmd).
Proof. unfold spawn_streaming. apply starts_after; [apply looks_io; intros; apply create_file_quiet|]. intros _. apply starts_launch. Qed.

(** A process is pushed as soon as it is started. *)
Lemma grows_start {B} cmd (m : M (pid * string)) (push : pid → string → M ()) (k : pid → string → () → M B) :
  starts cmd m →
  (∀ p log s, ∃ s', push p log s = (s', Ok ()) ∧ sv_os s' = sv_os s ∧ p ∈ tracked s' ∧ ∀ q, q ∈ tracked s → q ∈ tracked s') →
  (∀ p log u, preserves grows (k p log u)) → preserves grows (m ≫= λ '(p, log), push p log ≫= k p log).
Proof.
  intros Hm Hpush Hk s. unfold mbind, stM_bind. specialize (Hm s). destruct (m s) as [s1 [[p log]|e|]].
  - destruct (Hpush p log s1) as (s2 & -> & Hos & Hin & Hkeep). etrans; [|apply Hk].
    destruct Hm as (s0 & Hl%looks_grows & (Hnew & Hsp & Hal & Hch & Hcl & _)). etrans; [exact Hl|].
    assert (Ht : tracked s0 = tracked s1) by (unfold tracked; congruence).
    split; unfold pids in *; rewrite ?Hos, ?Hsp, ?map_app; cbn [map fst].
    + intros q Hq. apply Hal. by intros ->.
    + intros q Hq. set_solver.
    + intros q [Hq| ->%list_elem_of_singleton]%elem_of_app; [by left|by right].
    + intros q. rewrite Ht. apply Hkeep.
  - by apply looks_grows.
  - by apply looks_grows.
Qed.

Lemma push_child_tracks label (p : pid) (log : string) s : ∃ s', push_child label p s = (s', Ok ()) ∧
  sv_os s' = sv_os s ∧ p ∈ tracked s' ∧ ∀ q, q ∈ tracked s → q ∈ tracked s'.
Proof.
  eexists. split; [reflexivity|]. split; [done|]. unfold tracked. cbn. rewrite map_app. cbn. split; [set_solver|].
  intros q. set_solver.
Qed.

Lemma push_client_tracks i id (p : pid) (log : string) s :
  ∃ s', push_client {| cl_index := i; cl_id := id; cl_pid := p; cl_log := log |} s = (s', Ok ()) ∧
  sv_os s' = sv_os s ∧ p ∈ tracked s' ∧ ∀ q, q ∈ tracked s → q ∈ tracked s'.
Proof.
  eexists. split; [reflexivity|]. split; [done|]. unfold tracked. cbn. rewrite map_app. cbn. split; [set_solver|].
  intros q. set_solver.
Qed.

Lemma grows_push_recipe line : preserves grows (push_recipe line).
Proof. intros s. by split; auto. Qed.
Lemma grows_push_observer label : preserves grows (push_observer label).
Proof. intros s. by split; auto. Qed.
Lemma grows_ret {A} (a : A) : preserves grows (mret a : M A).
Proof. apply grows_looks, looks_ret. Qed.

Lemma bind_ret_r {A} (m : M A) s : (m ≫= λ a, mret a) s = m s.
Proof. unfold mbind, stM_bind. by destruct (m s) as [s1 [a|e|]]. Qed.

(** The same, when the push ends it. *)
Lemma grows_start_last cmd (m : M (pid * string)) (push : pid → string → M ()) :
  starts cmd m →
  (∀ p log s, ∃ s', push p log s = (s', Ok ()) ∧ sv_os s' = sv_os s ∧ p ∈ tracked s' ∧ ∀ q, q ∈ tracked s → q ∈ tracked s') →
  preserves grows (m ≫= λ '(p, log), push p log).
Proof.
  intros Hm Hp s. pose proof (grows_start cmd m push (λ _ _ u, mret u) Hm Hp (λ _ _ u, grows_ret u) s) as H.
  revert H. unfold mbind, stM_bind. destruct (m s) as [s1 [[p log]|e|]]; [|done..].
  destruct (Hp p log s1) as (s2 & -> & _). done.
Qed.

Lemma grows_start_server fuel plan : preserves grows (start_server join show_addr addr_from_str fuel plan).
Proof.
  unfold start_server. apply grows_bind; [apply grows_looks, looks_sys; intros; apply remove_file_quiet|]. intros _.
  apply grows_bind; [apply grows_push_recipe|]. intros _.
  apply (grows_start (server_command join plan)); [apply starts_spawn|by intros; apply push_child_tracks|]. intros p log _.
  apply grows_bind; [apply grows_looks, looks_await_addr|]. intros grpc.
  apply grows_bind; [apply grows_looks, looks_await_addr|]. intros http.
  apply grows_bind; [apply grows_looks, looks_await_health|intros; apply grows_ret].
Qed.

Lemma grows_start_node fuel plan grpc ip : preserves grows (start_node join show_addr addr_from_str fuel plan grpc ip).
Proof.
  destruct ip as [i p]. unfold start_node. apply grows_bind; [apply grows_looks, looks_sys; intros; apply remove_file_quiet|]. intros _.
  apply grows_bind; [apply grows_push_recipe|]. intros _.
  apply (grows_start (node_command join show_addr plan grpc i p)); [apply starts_spawn|by intros; apply push_child_tracks|]. intros c log _.
  apply grows_looks, looks_await_addr.
Qed.

Lemma grows_start_client plan ipa : preserves grows (start_client join show_addr plan ipa).
Proof.
  destruct ipa as [[i p] a]. unfold start_client. apply grows_bind; [apply grows_push_recipe|]. intros _.
  apply (grows_start_last (client_command show_addr plan a p) _ (λ child log, push_client _)); [apply starts_spawn|]. intros; apply push_client_tracks.
Qed.

Lemma grows_start_observer plan addrs io : preserves grows (start_observer join show_addr plan addrs io).
Proof.
  destruct io as [i o]. unfold start_observer. destruct (addrs !! _) as [a|]; [|apply grows_looks, looks_fail].
  apply grows_bind; [apply grows_push_recipe|]. intros _. apply grows_bind; [apply grows_push_observer|]. intros _.
  apply (grows_start_last (observer_command show_addr a o) _ (λ child _, push_child _ child)); [|by intros; apply push_child_tracks].
  case_match; [apply starts_spawn_streaming|apply starts_spawn].
Qed.

Lemma grows_collectM {A B} (body : A → M B) l : (∀ x, preserves grows (body x)) → preserves grows (collectM body l).
Proof.
  intros Hb. induction l as [|x l IH]; [apply grows_ret|]. apply grows_bind; [apply Hb|]. intros y.
  apply grows_bind; [done|]. intros ys. apply grows_ret.
Qed.

Lemma grows_supervise fuel plan : preserves grows (supervise join show_addr addr_from_str fuel plan).
Proof.
  unfold supervise. apply grows_bind; [apply grows_looks, looks_io; intros; apply create_dir_all_quiet|]. intros _.
  apply grows_bind; [apply grows_start_server|]. intros [grpc http].
  apply grows_bind; [apply grows_collectM, grows_start_node|]. intros addrs.
  apply grows_bind; [apply (preserves_for_each grows), grows_start_client|]. intros _.
  apply grows_bind; [apply (preserves_for_each grows), grows_start_observer|]. intros _.
  apply grows_looks. look; first [apply looks_deadline_in|apply looks_watch].
Qed.

(** *** A run that succeeds *)

Definition identities (s : sv) : list (nat * string) := map (λ c, (cl_index c, cl_id c)) (sv_clients s).

Lemma looks_remove_file path : preserves looks (sys_ (remove_file path)).
Proof. unfold sys_. look. Qed.

(** What a stretch of the run has done: the commands recorded are those of the processes
    started, in order, and these clients are tracked. *)
Record adds (cmds : list Spawn) (ids : list (nat * string)) (s s' : sv) : Prop := {
  ad_recipe : sv_recipe s' = sv_recipe s ++ map recipe_of cmds;
  ad_clients : identities s' = identities s ++ ids;
  ad_spawned : ∃ news, spawned (sv_os s') = spawned (sv_os s) ++ news ∧ map snd news = cmds;
}.

Lemma adds_nothing s s' :
  sv_recipe s' = sv_recipe s → identities s' = identities s → spawned (sv_os s') = spawned (sv_os s) → adds [] [] s s'.
Proof. intros Hr Hi Hs. split; rewrite ?Hr, ?Hi, ?Hs, ?app_nil_r; [done..|]. exists []. by rewrite app_nil_r. Qed.

Lemma adds_looks {A} (m : M A) s s' r : preserves looks m → m s = (s', r) → adds [] [] s s'.
Proof.
  intros Hm H. specialize (Hm s). rewrite H in Hm. destruct Hm as ((_ & Hs & _) & _ & Hc & Hr & _).
  apply adds_nothing; [done| |done]. unfold identities. cbn in *. by rewrite Hc.
Qed.

Lemma adds_trans c1 i1 c2 i2 s1 s2 s3 : adds c1 i1 s1 s2 → adds c2 i2 s2 s3 → adds (c1 ++ c2) (i1 ++ i2) s1 s3.
Proof.
  intros [Hr1 Hc1 (n1 & Hs1 & <-)] [Hr2 Hc2 (n2 & Hs2 & <-)].
  split; [by rewrite Hr2, Hr1, map_app, app_assoc|by rewrite Hc2, Hc1, app_assoc|].
  exists (n1 ++ n2). by rewrite Hs2, Hs1, map_app, app_assoc.
Qed.

Lemma adds_prefix cmds ids s s' : adds cmds ids s s' → spawned (sv_os s) `prefix_of` spawned (sv_os s').
Proof. intros [_ _ (news & -> & _)]. by eexists. Qed.

(** A command recorded, and then run. *)
Lemma adds_command cmd m s s0 s' p log :
  sv_os s0 = sv_os s → sv_clients s0 = sv_clients s → sv_recipe s0 = sv_recipe s ++ [recipe_of cmd] →
  starts cmd m → m s0 = (s', Ok (p, log)) →
  adds [cmd] [] s s' ∧ spawned (sv_os s') = spawned (sv_os s) ++ [(p, cmd)].
Proof.
  intros Hos Hcl Hre Hm H. specialize (Hm s0). rewrite H in Hm.
  destruct Hm as (s1 & ((_ & Hs & _) & _ & Hc & Hr & _) & (_ & Hs' & _ & _ & Hc' & Hr' & _)).
  assert (Hsp : spawned (sv_os s') = spawned (sv_os s) ++ [(p, cmd)]) by congruence. split; [|done].
  split; [by rewrite Hr', Hr, Hre|unfold identities; by rewrite Hc', Hc, Hcl, app_nil_r|]. by exists [(p, cmd)].
Qed.

(** What was seen during the run that ended in [final], while the command was the last
    that had been started. *)
Definition seen_after (cmd : Spawn) (final : W) (seen : sv → Prop) : Prop :=
  ∃ s before p, seen s ∧ spawned (sv_os s) = before ++ [(p, cmd)] ∧ spawned (sv_os s) `prefix_of` spawned final.

Lemma seen_after_later cmd w w' seen :
  spawned w `prefix_of` spawned w' → seen_after cmd w seen → seen_after cmd w' seen.
Proof. intros Hp (s & before & p & ? & ? & ?). exists s, before, p. split_and!; [done..|by etrans]. Qed.

(** The address file said so. *)
Definition reported_in (addr_file key : string) (addr : SocketAddr) (s : sv) : Prop :=
  ∃ contents, (read_file addr_file (sv_os s)).2 = Some (Some contents) ∧
    reported_addr addr_from_str key contents = Some addr.

(** [/health] answered 200. *)
Definition healthy (fuel : nat) (addr : SocketAddr) (s : sv) : Prop := (health_ok show_addr fuel addr s).2 = Ok true.

Lemma looks_spawned s s' : looks s s' → spawned (sv_os s') = spawned (sv_os s).
Proof. by intros ((_ & ? & _) & _). Qed.

Lemma polling_ok {A} fuel pause (turn : M (option A)) s s' a :
  preserves looks turn → polling fuel pause turn s = (s', Ok a) → ∃ s0, looks s s0 ∧ turn s0 = (s', Ok (Some a)).
Proof.
  intros Ht. revert s. induction fuel as [|fuel IH]; intros s; cbn [polling]; [done|].
  intros ([b|] & s1 & H1 & H)%stM_bind_ok.
  { injection H as <- <-. by exists s. }
  apply stM_bind_ok in H as ([] & s2 & H2 & (s0 & Hl & H0)%IH). exists s0. split; [|done].
  pose proof (Ht s) as Hl1. rewrite H1 in Hl1. pose proof (looks_sleep pause s1) as Hl2. rewrite H2 in Hl2.
  etrans; [exact Hl1|]. by etrans.
Qed.

Lemma deadline_in_ok timeout s s' deadline : deadline_in timeout s = (s', Ok deadline) → looks s s'.
Proof. intros H. pose proof (looks_deadline_in timeout s) as Hl. by rewrite H in Hl. Qed.

Lemma await_addr_ok fuel label child addr_file key log timeout s s' addr :
  await_addr addr_from_str fuel label child addr_file key log timeout s = (s', Ok addr) →
  ∃ s0, looks s s0 ∧ reported_in addr_file key addr s0.
Proof.
  intros (deadline & s1 & H1%deadline_in_ok & (s0 & Hl & H)%polling_ok)%stM_bind_ok; [|apply looks_addr_turn].
  exists s0. split; [by etrans|]. apply stM_bind_ok in H as (r & s2 & H2 & H). unfold sys in H2. unfold reported_in.
  destruct (read_file addr_file (sv_os s0)) as [w r'] eqn:Hr. injection H2 as <- ->. cbn [snd].
  destruct r as [[contents|]|]; [|by apply stM_bind_ok in H as (? & ? & _ & ?)..].
  exists contents. split; [done|]. destruct (reported_addr _ _ _); [by injection H as _ ->|].
  apply stM_bind_ok in H as (t & s3 & _ & H). destruct (_ && _); [done|]. by apply stM_bind_ok in H as (? & ? & _ & ?).
Qed.

Lemma await_health_ok fuel child log timeout addr s s' :
  await_health show_addr fuel child log timeout addr s = (s', Ok ()) → ∃ s0, looks s s0 ∧ healthy fuel addr s0.
Proof.
  intros (deadline & s1 & H1%deadline_in_ok & (s0 & Hl & H)%polling_ok)%stM_bind_ok; [|apply looks_health_turn].
  exists s0. split; [by etrans|]. apply stM_bind_ok in H as (ok & s2 & H2 & H). unfold healthy. rewrite H2.
  destruct ok; [done|]. by apply stM_bind_ok in H as (? & ? & _ & ?).
Qed.

Lemma seen_after_start cmd p s0 s1 s final seen :
  looks s1 s → seen s → spawned (sv_os s1) = spawned (sv_os s0) ++ [(p, cmd)] →
  spawned (sv_os s1) `prefix_of` spawned final → seen_after cmd final seen.
Proof. intros Hl Hs Hsp Hp. exists s, (spawned (sv_os s0)), p. rewrite (looks_spawned _ _ Hl). by split_and!. Qed.

(** What a client that succeeded is reported as. *)
Definition done_client (ic : nat * string) : ProcessOutcome :=
  {| po_index := ic.1; po_client_id := ic.2; po_exit_code := Some 0 |}.

Definition seen_done (w : W) (c : ClientProcess) (outcome : option ProcessOutcome) : Prop :=
  match outcome with
  | None => True
  | Some o => o = done_client (cl_index c, cl_id c) ∧ ¬ alive (cl_pid c) w
  end.

Lemma seen_done_quiet w w' clients outcomes :
  quiet w w' → Forall2 (seen_done w) clients outcomes → Forall2 (seen_done w') clients outcomes.
Proof.
  intros (_ & _ & Ha) H. eapply Forall2_impl; [exact H|]. intros c [o|]; [|done]. intros [-> Hd]. split; [done|auto].
Qed.

Lemma poll_client_ok c s s' o : poll_client c s = (s', Ok o) → seen_done (sv_os s') c o.
Proof.
  unfold poll_client. intros (status & s1 & H1 & H)%stM_bind_ok. unfold sys in H1.
  destruct (try_wait (cl_pid c) (sv_os s)) as [w r] eqn:Hw. injection H1 as <- ->.
  destruct status as [[status|]| |]; [|by injection H as <- <-..].
  destruct (success status) eqn:Hs; [|by apply stM_bind_ok in H as (? & ? & _ & ?)]. injection H as <- <-.
  apply bool_decide_eq_true in Hs. split; [unfold done_client; by rewrite Hs|]. by eapply try_wait_exited.
Qed.

Lemma poll_clients_ok clients outcomes s s' outcomes' :
  Forall2 (seen_done (sv_os s)) clients outcomes →
  poll_clients (zip clients outcomes) s = (s', Ok outcomes') →
  Forall2 (seen_done (sv_os s')) clients outcomes'.
Proof.
  intros H. unfold poll_clients. revert s s' outcomes' H. revert outcomes.
  induction clients as [|c clients IH]; intros outcomes s s' outcomes' H.
  { cbn. intros [= <- <-]. constructor. }
  apply Forall2_cons_inv_l in H as (o & os & Ho & Hos & ->). cbn [zip zip_with collectM].
  intros (o' & s1 & H1 & (os' & s2 & H2 & [= <- <-])%stM_bind_ok)%stM_bind_ok.
  assert (Hl1 : quiet (sv_os s) (sv_os s1)).
  { assert (Hp : preserves looks (match o with Some o => mret (Some o) | None => poll_client c end)).
    { destruct o; [apply looks_ret|]. unfold poll_client. look. apply looks_tail. }
    specialize (Hp s). rewrite H1 in Hp. apply Hp. }
  pose proof (looks_poll_clients (zip clients os) s1) as Hl2. unfold poll_clients in Hl2. rewrite H2 in Hl2.
  destruct Hl2 as (Hl2 & _). constructor.
  - assert (Hc : seen_done (sv_os s1) c o').
    { destruct o as [po|]; [|by eapply poll_client_ok]. injection H1 as <- <-. exact Ho. }
    pose proof (seen_done_quiet _ _ [c] [o'] Hl2) as Hq. by apply Forall2_cons in Hq as [? _]; [|repeat constructor].
  - eapply IH; [|exact H2]. by eapply seen_done_quiet.
Qed.

Lemma watch_ok lines fuel plan clients deadline outcomes s s' result :
  Forall2 (seen_done (sv_os s)) clients outcomes →
  watch lines fuel plan clients deadline outcomes s = (s', Ok result) →
  result = map (λ c, done_client (cl_index c, cl_id c)) clients ∧
  ∀ c, c ∈ clients → ¬ alive (cl_pid c) (sv_os s').
Proof.
  revert outcomes s. induction fuel as [|fuel IH]; intros outcomes s Hd; cbn [watch]; [done|].
  intros (outcomes' & s1 & H1 & ([] & s2 & H2 & (labels & s3 & [= <- _] & (e & s4 & H4 & H)%stM_bind_ok)%stM_bind_ok)%stM_bind_ok)%stM_bind_ok.
  apply (poll_clients_ok _ _ _ _ _ Hd) in H1.
  assert (Hq : quiet (sv_os s1) (sv_os s4)).
  { pose proof (looks_deliver_lines lines s1) as Hl. rewrite H2 in Hl. pose proof (looks_all_exited labels s2) as Hl'.
    rewrite H4 in Hl'. etrans; [apply Hl|apply Hl']. }
  apply (seen_done_quiet _ _ _ _ Hq) in H1. destruct (_ && e) eqn:Hdone.
  - apply stM_bind_ok in H as ([] & s5 & H5 & [= <- <-]). pose proof (looks_deliver_lines lines s4) as Hl. rewrite H5 in Hl.
    apply (seen_done_quiet _ _ _ _ (proj1 Hl)) in H1. apply andb_true_iff in Hdone as [Hs%bool_decide_eq_true _].
    clear -H1 Hs. induction H1 as [|c o clients outcomes Hc _ IH]; [split; [done|]; by intros c ?%elem_of_nil|].
    cbn in Hs. destruct o as [o|]; [|done]. destruct (IH Hs) as [Hr Ha]. destruct Hc as [-> Hc]. cbn [omap list_omap id map]. split.
    + f_equal. exact Hr.
    + intros c' [->|Hin]%elem_of_cons; [done|by apply Ha].
  - apply stM_bind_ok in H as (t & s5 & [= <- <-] & H). destruct (_ <=? _); [done|].
    apply stM_bind_ok in H as ([] & s6 & H6 & H). eapply IH; [|exact H].
    pose proof (looks_sleep 50 (with_os (sv_os s4) s4)) as Hl. rewrite H6 in Hl.
    eapply seen_done_quiet; [apply Hl|]. exact H1.
Qed.

(** The server's two addresses, and its health, as the supervisor found them. *)
Definition server_reported (fuel : nat) (plan : ProcessPlan) (final : W) (g h : SocketAddr) : Prop :=
  let cmd := server_command join plan in
  let addr_file := join (pl_log_dir plan) "server.addr" in
  seen_after cmd final (reported_in addr_file "grpc" g) ∧ seen_after cmd final (reported_in addr_file "http" h) ∧
  seen_after cmd final (healthy fuel h).

(** A node's address, from its own file. *)
Definition node_reported (plan : ProcessPlan) (g : SocketAddr) (final : W) (ip : nat * ProcessParticipant)
    (addr : SocketAddr) : Prop :=
  seen_after (node_command join show_addr plan g ip.1 ip.2) final
    (reported_in (join (pl_log_dir plan) (node_label ip.1 +:+ ".addr")) "local" addr).

Lemma start_server_ok fuel plan s s' g h :
  start_server join show_addr addr_from_str fuel plan s = (s', Ok (g, h)) →
  adds [server_command join plan] [] s s' ∧ server_reported fuel plan (sv_os s') g h.
Proof.
  unfold start_server. intros ([] & s1 & H1 & ([] & s2 & [= <-] & ([p log] & s3 & H3 & ([] & s4 & [= Hs4] &
    (g' & s5 & H5 & (h' & s6 & H6 & ([] & s7 & H7 & [= <- <- <-])%stM_bind_ok)%stM_bind_ok)%stM_bind_ok)%stM_bind_ok)%stM_bind_ok)%stM_bind_ok)%stM_bind_ok.
  pose proof (adds_looks _ _ _ _ (looks_remove_file _) H1) as Ha1.
  apply (adds_command (server_command join plan) _ s1) in H3 as [Ha3 Hsp]; [|done..|apply starts_spawn].
  assert (Ha4 : adds [] [] s3 s4) by (rewrite <-Hs4; by apply adds_nothing).
  assert (Hsp4 : spawned (sv_os s4) = spawned (sv_os s1) ++ [(p, server_command join plan)]) by (rewrite <-Hs4; done).
  pose proof (adds_looks _ _ _ _ (looks_await_addr _ _ _ _ _ _ _) H5) as Ha5.
  pose proof (adds_looks _ _ _ _ (looks_await_addr _ _ _ _ _ _ _) H6) as Ha6.
  pose proof (adds_looks _ _ _ _ (looks_await_health _ _ _ _ _) H7) as Ha7.
  pose proof (adds_trans _ _ _ _ _ _ _ Ha5 (adds_trans _ _ _ _ _ _ _ Ha6 Ha7)) as Hrest.
  split; [exact (adds_trans _ _ _ _ _ _ _ Ha1 (adds_trans _ _ _ _ _ _ _ Ha3 (adds_trans _ _ _ _ _ _ _ Ha4 Hrest)))|].
  apply adds_prefix in Hrest.
  pose proof (looks_await_addr fuel "server" p (join (pl_log_dir plan) "server.addr") "grpc" log (pl_startup_timeout plan) s4) as Hl5.
  pose proof (looks_await_addr fuel "server" p (join (pl_log_dir plan) "server.addr") "http" log (pl_startup_timeout plan) s5) as Hl6.
  rewrite H5 in Hl5. rewrite H6 in Hl6. cbn [fst] in Hl5, Hl6.
  apply await_addr_ok in H5 as (s50 & Hl50 & Hr5), H6 as (s60 & Hl60 & Hr6). apply await_health_ok in H7 as (s70 & Hl70 & Hr7).
  split_and!; (eapply seen_after_start; [|eassumption|exact Hsp4|exact Hrest]); [done|by etrans|]. etrans; [exact Hl5|by etrans].
Qed.

Lemma start_node_ok fuel plan grpc ip s s' addr :
  start_node join show_addr addr_from_str fuel plan grpc ip s = (s', Ok addr) →
  adds [node_command join show_addr plan grpc ip.1 ip.2] [] s s' ∧ node_reported plan grpc (sv_os s') ip addr.
Proof.
  destruct ip as [i p]. unfold start_node. intros ([] & s1 & H1 & ([] & s2 & [= <-] & ([c log] & s3 & H3 & ([] & s4 & [= Hs4] &
    H5)%stM_bind_ok)%stM_bind_ok)%stM_bind_ok)%stM_bind_ok.
  pose proof (adds_looks _ _ _ _ (looks_remove_file _) H1) as Ha1.
  apply (adds_command (node_command join show_addr plan grpc i p) _ s1) in H3 as [Ha3 Hsp]; [|done..|apply starts_spawn].
  assert (Ha4 : adds [] [] s3 s4) by (rewrite <-Hs4; by apply adds_nothing).
  assert (Hsp4 : spawned (sv_os s4) = spawned (sv_os s1) ++ [(c, node_command join show_addr plan grpc i p)]) by (rewrite <-Hs4; done).
  pose proof (adds_looks _ _ _ _ (looks_await_addr _ _ _ _ _ _ _) H5) as Ha5.
  split; [exact (adds_trans _ _ _ _ _ _ _ Ha1 (adds_trans _ _ _ _ _ _ _ Ha3 (adds_trans _ _ _ _ _ _ _ Ha4 Ha5)))|].
  apply adds_prefix in Ha5. apply await_addr_ok in H5 as (s50 & Hl50 & Hr5). by eapply seen_after_start.
Qed.

Lemma start_client_ok plan i p a s s' :
  start_client join show_addr plan (i, p, a) s = (s', Ok ()) →
  adds [client_command show_addr plan a p] [(i, pp_client_id p)] s s'.
Proof.
  unfold start_client. intros ([] & s1 & [= <-] & ([c log] & s2 & H2 & [= <-])%stM_bind_ok)%stM_bind_ok.
  apply (adds_command (client_command show_addr plan a p) _ s) in H2 as [[Hr Hc Hs] _]; [|done..|apply starts_spawn].
  split; [done| |done]. unfold identities in *. cbn. by rewrite map_app, Hc, app_nil_r.
Qed.

Lemma start_observer_ok plan addrs i o s s' :
  start_observer join show_addr plan addrs (i, o) s = (s', Ok ()) →
  ∃ a, addrs !! ob_node o = Some a ∧ adds [observer_command show_addr a o] [] s s'.
Proof.
  unfold start_observer. destruct (addrs !! _) as [a|]; [|done].
  intros ([] & s1 & [= <-] & ([] & s2 & [= <-] & ([c log] & s3 & H3 & [= <-])%stM_bind_ok)%stM_bind_ok)%stM_bind_ok.
  exists a. split; [done|]. apply (adds_command (observer_command show_addr a o) _ s) in H3 as [[Hr Hc Hs] _];
    [by split|done..|case_match; [apply starts_spawn_streaming|apply starts_spawn]].
Qed.

(** Loops whose turns each start a process: what a turn found stays found. *)
Lemma collectM_adds {A B} (body : A → M B) (cmd : A → Spawn) (found : W → A → B → Prop) l s s' ys :
  (∀ w w' x y, spawned w `prefix_of` spawned w' → found w x y → found w' x y) →
  (∀ x s s' y, body x s = (s', Ok y) → adds [cmd x] [] s s' ∧ found (sv_os s') x y) →
  collectM body l s = (s', Ok ys) → adds (map cmd l) [] s s' ∧ Forall2 (found (sv_os s')) l ys.
Proof.
  intros Hf Hb. revert s s' ys. induction l as [|x l IH]; intros s s' ys; cbn [collectM].
  { intros [= <- <-]. split; [by apply adds_nothing|constructor]. }
  intros (y & s1 & [H1 Hy]%Hb & (ys1 & s2 & [H2 Hys]%IH & [= <- <-])%stM_bind_ok)%stM_bind_ok.
  split; [exact (adds_trans _ _ _ _ _ _ _ H1 H2)|]. constructor; [|done]. eapply Hf; [by eapply adds_prefix|done].
Qed.

Lemma for_each_adds {A} (body : A → M ()) (cmd : A → Spawn) (ids : A → list (nat * string)) l s s' :
  (∀ x s s', body x s = (s', Ok ()) → adds [cmd x] (ids x) s s') →
  for_each body l s = (s', Ok ()) → adds (map cmd l) (concat (map ids l)) s s'.
Proof.
  intros Hb. revert s. induction l as [|x l IH]; intros s; cbn [for_each].
  { intros [= <-]. by apply adds_nothing. }
  intros ([] & s1 & H1%Hb & H2%IH)%stM_bind_ok. exact (adds_trans _ _ _ _ _ _ _ H1 H2).
Qed.

Lemma observers_started plan addrs ios s s' :
  for_each (start_observer join show_addr plan addrs) ios s = (s', Ok ()) →
  Forall (λ io, is_Some (addrs !! ob_node io.2)) ios ∧
  adds (omap (λ o, (λ a, observer_command show_addr a o) <$> addrs !! ob_node o) (map snd ios)) [] s s'.
Proof.
  revert s. induction ios as [|[i o] ios IH]; intros s; cbn [for_each].
  { intros [= <-]. split; [constructor|by apply adds_nothing]. }
  intros ([] & s1 & (a & Ha & H1)%start_observer_ok & (Hf & H2)%IH)%stM_bind_ok. split; [by constructor|].
  cbn. rewrite Ha. exact (adds_trans _ _ _ _ _ _ _ H1 H2).
Qed.

Lemma concat_singletons {A B} (f : A → B) l : concat (map (λ x, [f x]) l) = map f l.
Proof. induction l as [|x l IH]; [done|]. simpl. by rewrite IH. Qed.

Lemma map_snd_imap {A} (l : list A) : map snd (imap pair l) = l.
Proof. apply list_eq. intros i. rewrite list_lookup_fmap, list_lookup_imap. by destruct (l !! i). Qed.

(** Every command of a run, given the addresses the server and the nodes reported. *)
Definition whole_run (plan : ProcessPlan) (grpc_addr : SocketAddr) (node_addrs : list SocketAddr) : list Spawn :=
  server_command join plan
  :: map (λ ip, node_command join show_addr plan grpc_addr ip.1 ip.2) (imap pair (pl_participants plan))
  ++ map (λ ipa, client_command show_addr plan ipa.2 ipa.1.2) (zip (imap pair (pl_participants plan)) node_addrs)
  ++ omap (λ o, (λ a, observer_command show_addr a o) <$> node_addrs !! ob_node o) (pl_observers plan).

Definition started_with (w : W) : sv :=
  {| sv_os := w; sv_children := []; sv_clients := []; sv_recipe := []; sv_observers := []; sv_lines := [] |}.

(** What a run that succeeded has done, by the time the system is as in [final]. *)
Record ran_whole (plan : ProcessPlan) (fuel : nat) (final : W) (summary : ProcessSummary) (node_addrs : list SocketAddr) : Prop := {
  rw_nodes : Forall2 (node_reported plan (ps_server_grpc_addr summary) final) (imap pair (pl_participants plan)) node_addrs;
  rw_server : server_reported fuel plan final (ps_server_grpc_addr summary) (ps_server_http_addr summary);
  rw_observers : Forall (λ o, is_Some (node_addrs !! ob_node o)) (pl_observers plan);
  rw_spawned : map snd (spawned final) = whole_run plan (ps_server_grpc_addr summary) node_addrs;
  rw_recipe : ps_recipe summary = map recipe_of (whole_run plan (ps_server_grpc_addr summary) node_addrs);
}.

Lemma node_reported_later plan g w w' ip addr :
  spawned w `prefix_of` spawned w' → node_reported plan g w ip addr → node_reported plan g w' ip addr.
Proof. apply seen_after_later. Qed.

Lemma server_reported_later fuel plan w w' g h :
  spawned w `prefix_of` spawned w' → server_reported fuel plan w g h → server_reported fuel plan w' g h.
Proof. intros Hp (? & ? & ?). split_and!; by eapply seen_after_later. Qed.

Lemma ran_whole_later plan fuel w w' summary addrs :
  spawned w' = spawned w → ran_whole plan fuel w summary addrs → ran_whole plan fuel w' summary addrs.
Proof.
  intros Heq [Hn Hs Ho Hsp Hr]. assert (Hp : spawned w `prefix_of` spawned w') by (rewrite Heq; reflexivity).
  split; [|by eapply server_reported_later|done|by rewrite Heq|done].
  eapply Forall2_impl; [exact Hn|]. intros ip a. by apply node_reported_later.
Qed.

(** What a supervision that succeeds has done, its children not dropped yet. *)
Lemma supervise_ok plan fuel w s summary :
  spawned w = [] → supervise join show_addr addr_from_str fuel plan (started_with w) = (s, Ok summary) →
  ps_clients summary = imap (λ i p, done_client (i, pp_client_id p)) (pl_participants plan) ∧
  (∀ c, c ∈ sv_clients s → ¬ alive (cl_pid c) (sv_os s)) ∧
  ∃ node_addrs, ran_whole plan fuel (sv_os s) summary node_addrs.
Proof.
  intros Hw. unfold supervise. intros ([] & s1 & H1 & ([grpc http] & s2 & H2 & (addrs & s3 & H3 & ([] & s4 & H4 & ([] & s5 & H5 &
    (t & s6 & H6 & (clients & s7 & [= <- <-] & (outcomes & s8 & H8 & (rec & s9 & [= <- <-] & [= <- <-])%stM_bind_ok)%stM_bind_ok
    )%stM_bind_ok)%stM_bind_ok)%stM_bind_ok)%stM_bind_ok)%stM_bind_ok)%stM_bind_ok)%stM_bind_ok.
  pose proof (collectM_length _ _ _ _ _ H3) as Hlen. rewrite length_imap in Hlen.
  pose proof (adds_looks _ _ _ _ (looks_io _ _ (create_dir_all_quiet _)) H1) as A1.
  apply start_server_ok in H2 as [A2 Hserver].
  apply (collectM_adds _ _ _ _ _ _ _ (node_reported_later _ _) (start_node_ok _ _ _)) in H3 as [A3 Hnodes].
  apply (for_each_adds _ (λ ipa, client_command show_addr plan ipa.2 ipa.1.2) (λ ipa, [(ipa.1.1, pp_client_id ipa.1.2)])) in H4
    as A4; [|intros [[i p] a] ?? Hs; by apply start_client_ok in Hs].
  rewrite concat_singletons in A4. apply observers_started in H5 as [Hobs A5]. rewrite map_snd_imap in A5.
  pose proof (adds_looks _ _ _ _ (looks_deadline_in _) H6) as A6.
  pose proof (adds_looks _ _ _ _ (looks_watch _ _ _ _ _ _) H8) as A8.
  match type of H8 with watch ?n ?f ?p ?c ?d ?o ?s0 = _ => pose proof (looks_watch n f p c d o s0) as Hkept end.
  rewrite H8 in Hkept. destruct Hkept as (_ & _ & Hkept & _). cbn [fst] in Hkept.
  apply watch_ok in H8 as [-> Hdead]; [|apply Forall2_replicate_r; [done|by apply Forall_true]].
  pose proof (adds_trans _ _ _ _ _ _ _ A4 (adds_trans _ _ _ _ _ _ _ A5 (adds_trans _ _ _ _ _ _ _ A6 A8))) as Arest.
  pose proof (adds_trans _ _ _ _ _ _ _ A1 (adds_trans _ _ _ _ _ _ _ A2 (adds_trans _ _ _ _ _ _ _ A3 Arest))) as [Hr _ (news & Hs & Hn)].
  pose proof (adds_trans _ _ _ _ _ _ _ A1 (adds_trans _ _ _ _ _ _ _ A2 (adds_trans _ _ _ _ _ _ _ A3 (adds_trans _ _ _ _ _ _ _ A4
    (adds_trans _ _ _ _ _ _ _ A5 A6))))) as [_ Hc _].
  cbn [started_with sv_os sv_recipe identities sv_clients map app] in Hr, Hs, Hc. rewrite Hw in Hs. cbn [app] in Hs.
  cbn [ps_recipe ps_clients ps_server_grpc_addr ps_server_http_addr]. split_and!.
  - rewrite <-(map_map (λ c, (cl_index c, cl_id c)) done_client). fold (identities s6). rewrite Hc, app_nil_r, map_map.
    apply list_eq. intros i. rewrite list_lookup_fmap, list_lookup_imap.
    destruct (pl_participants plan !! i) as [p|] eqn:Hp.
    + destruct (lookup_lt_is_Some_2 addrs i) as [a Ha]; [apply lookup_lt_Some in Hp; lia|].
      rewrite (proj2 (lookup_zip_Some _ _ i (i, p) a)); [done|]. rewrite list_lookup_imap, Hp. done.
    + rewrite (proj2 (lookup_ge_None _ i)); [done|]. apply lookup_ge_None in Hp. rewrite length_zip, length_imap. lia.
  - intros c Hin. apply Hdead. by rewrite <-Hkept.
  - exists addrs. pose proof (adds_prefix _ _ _ _ Arest) as Hp3.
    pose proof (adds_prefix _ _ _ _ (adds_trans _ _ _ _ _ _ _ A3 Arest)) as Hp2. split; cbn [ps_recipe ps_server_grpc_addr ps_server_http_addr].
    + eapply Forall2_impl; [exact Hnodes|]. intros ip a. by apply node_reported_later.
    + by eapply server_reported_later.
    + rewrite <-(map_snd_imap (pl_observers plan)). by apply Forall_map.
    + rewrite Hs, Hn. unfold whole_run. cbn [app]. by rewrite !app_nil_r.
    + rewrite Hr. unfold whole_run. cbn [app]. by rewrite !app_nil_r.
Qed.

(** The run, and its supervision before the children are dropped. *)
Lemma run_watching_some plan fuel w s r :
  run_watching join show_addr addr_from_str fuel plan w = (s, Some r) →
  ∃ s1 r1 w', supervise join show_addr addr_from_str fuel plan (started_with w) = (s1, r1) ∧
    drop_children (sv_children s1) (sv_os s1) = Some w' ∧ s = with_os w' s1 ∧ (∀ summary, r = Ok summary → r1 = Ok summary).
Proof.
  unfold run_watching. fold (started_with w). destruct (supervise _ _ _ _ _ _) as [s1 r1].
  destruct (drop_children (sv_children s1) (sv_os s1)) as [w'|] eqn:Hd; destruct r1 as [x|[e|]|]; try done;
    intros [= <- <-]; eexists s1, _, w'; (split_and!; [done..|congruence]).
Qed.

(** The supervisor reaps what it holds, whichever way it returns: every process it
    started and that is still running afterwards is a client's. *)
Lemma supervisor_reaps_children plan fuel w s r :
  spawned w = [] → run_watching join show_addr addr_from_str fuel plan w = (s, Some r) →
  ∀ p, p ∈ pids (sv_os s) → alive p (sv_os s) → p ∈ map cl_pid (sv_clients s).
Proof.
  intros Hw (s1 & r1 & w' & Hs1 & [(_ & Hsp & _) Hd]%drop_children_spec & -> & _)%run_watching_some p Hp Ha.
  pose proof (grows_supervise fuel plan (started_with w)) as Hg. rewrite Hs1 in Hg. cbn [fst with_os sv_os sv_clients] in *.
  unfold pids in Hp. rewrite Hsp in Hp.
  destruct (gr_tracked _ _ Hg p Hp) as [Hin|Hin]; [unfold pids in Hin; cbn in Hin; rewrite Hw in Hin; by apply elem_of_nil in Hin|].
  apply elem_of_app in Hin as [Hin|Hin]; [|done]. by destruct (Hd p Hin).
Qed.

(** C28: a run that answers a summary is complete, is the run its recipe tells, and
    leaves nothing behind, the processes counted from when it began.  Every participant's client exited with code 0 and is reported
    under its index and identity, in order.  The processes started are, in order, the
    server, a node for each participant, a client for each wired to its own node, and the
    observers, each with the flags of its role; the recipe is exactly the commands of
    those processes.  The server's two addresses are the ones [server.addr] held under
    [grpc] and [http] after the server was started, and its [/health] answered 200 there;
    each node's is the one its own file held under [local] after that node was started;
    nodes, clients and observers were given those.  No process the run started is running
    any more. *)
Theorem supervised_run_is_complete plan fuel w s summary :
  spawned w = [] → run_watching join show_addr addr_from_str fuel plan w = (s, Some (Ok summary)) →
  (∀ p, p ∈ pids (sv_os s) → ¬ alive p (sv_os s)) ∧
  ps_clients summary = imap (λ i p, done_client (i, pp_client_id p)) (pl_participants plan) ∧
  ∃ node_addrs,
    map snd (spawned (sv_os s)) = whole_run plan (ps_server_grpc_addr summary) node_addrs ∧
    ps_recipe summary = map recipe_of (map snd (spawned (sv_os s))) ∧
    server_reported fuel plan (sv_os s) (ps_server_grpc_addr summary) (ps_server_http_addr summary) ∧
    Forall2 (node_reported plan (ps_server_grpc_addr summary) (sv_os s)) (imap pair (pl_participants plan)) node_addrs ∧
    Forall (λ o, is_Some (node_addrs !! ob_node o)) (pl_observers plan).
Proof.
  intros Hw Hr. pose proof (supervisor_reaps_children _ _ _ _ _ Hw Hr) as Hreap.
  apply run_watching_some in Hr as (s1 & r1 & w' & Hs1 & [(_ & Hsp & Hal) _]%drop_children_spec & -> & Hok).
  rewrite (Hok summary eq_refl) in Hs1. apply (supervise_ok _ _ _ _ _ Hw) in Hs1 as (Hc & Hdead & addrs & Hran).
  apply (ran_whole_later _ _ _ w') in Hran as [Hn Hse Ho Hs Hre]; [|done]. cbn [with_os sv_os sv_clients] in *.
  split; [|split; [done|]].
  - intros p Hp Ha. apply (Hreap p Hp) in Ha as Hin. apply list_elem_of_fmap in Hin as (c & -> & Hin). apply (Hdead c Hin). by apply Hal.
  - exists addrs. by rewrite Hs.
Qed.
End supervision.


(** ** Witnesses *)
Section demo.
(** A system that keeps a table of the processes and whether each is running: a client
    exits with success when it is asked for its status, unless the clients are [stuck].
    A connection answers once and then ends. *)
Record DemoOs := {
  do_clock : Z;
  do_table : list (Spawn * bool);
  do_answer : option string;
  do_stuck : bool;
}.

Definition demo_set (p : nat) (w : DemoOs) : DemoOs :=
  {| do_clock := do_clock w; do_table := alter (λ '(cmd, _), (cmd, false)) p (do_table w); do_answer := do_answer w;
     do_stuck := do_stuck w |}.
Definition demo_exit : ExitStatus := {| es_code := Some 0; es_text := "exit status: 0" |}.

Definition demo_try_wait (p : nat) (w : DemoOs) : DemoOs * outcome string (option ExitStatus) :=
  match do_table w !! p with
  | Some (cmd, true) =>
      if String.eqb (program cmd) "client" && negb (do_stuck w) then (demo_set p w, Ok (Some demo_exit)) else (w, Ok None)
  | _ => (w, Ok (Some demo_exit))
  end.

Definition demo_answer (answer : option string) (w : DemoOs) : DemoOs :=
  {| do_clock := do_clock w; do_table := do_table w; do_answer := answer; do_stuck := do_stuck w |}.

Definition demo_read (w : DemoOs) : DemoOs * read_result :=
  match do_answer w with
  | Some bytes => (demo_answer None w, Got bytes)
  | None => (w, EndOfStream)
  end.

Definition demo_files (path : string) : option (option string) :=
  if String.eqb path "logs/server.addr" then Some (Some ("grpc=127.0.0.1:1" +:+ NEWLINE +:+ "http=127.0.0.1:2" +:+ NEWLINE))
  else if String.eqb path "logs/node-0.addr" then Some (Some ("local=127.0.0.1:3" +:+ NEWLINE))
  else None.

#[local] Instance DemoOs_os : ProcessOs DemoOs := {|
  pid := nat;
  create_dir_all _ w := (w, None);
  remove_file _ w := w;
  create_file _ w := (w, None);
  try_clone _ w := (w, None);
  os_spawn _ _ s w :=
    ({| do_clock := do_clock w; do_table := do_table w ++ [(s, true)]; do_answer := do_answer w; do_stuck := do_stuck w |}, Ok (length (do_table w)));
  try_wait := demo_try_wait;
  kill p w := (demo_set p w, None);
  wait p w := Some (demo_set p w);
  read_file path w := (w, demo_files path);
  now := do_clock;
  sleep d w := {| do_clock := do_clock w + Z.max 0 d; do_table := do_table w; do_answer := do_answer w;
                  do_stuck := do_stuck w |};
  conn := ();
  connect _ w := (demo_answer (Some "HTTP/1.1 200 OK"%string) w, Some ());
  write_all _ _ w := (w, true);
  read _ w := demo_read w;
  try_recv w := (w, None);
|}.

#[local] Instance DemoOs_table : ProcessTable (W:=DemoOs) :=
  {| alive p w := ∃ cmd, do_table w !! p = Some (cmd, true); spawned w := imap (λ p '(cmd, _), (p, cmd)) (do_table w) |}.

Lemma demo_pids w : pids w = seq 0 (length (do_table w)).
Proof.
  unfold pids. cbn. apply list_eq. intros i. rewrite list_lookup_fmap, list_lookup_imap.
  destruct (do_table w !! i) as [[cmd b]|] eqn:Hi; simpl.
  - symmetry. apply lookup_seq. split; [lia|]. by eapply lookup_lt_Some.
  - symmetry. apply lookup_seq_ge. by apply lookup_ge_None.
Qed.

Lemma demo_set_dead p w : ¬ alive p (demo_set p w).
Proof. intros [cmd H]. cbn in H. rewrite list_lookup_alter_eq in H. by apply fmap_Some in H as ([] & _ & [=]). Qed.

Lemma demo_set_quiet p w : quiet w (demo_set p w).
Proof.
  split; [cbn; lia|]. split.
  - cbn. apply list_eq. intros i. rewrite !list_lookup_imap. destruct (decide (p = i)) as [->|Hne].
    + rewrite list_lookup_alter_eq. by destruct (do_table w !! i) as [[]|].
    + by rewrite list_lookup_alter_ne.
  - intros q [cmd H]. exists cmd. cbn in H. destruct (decide (p = q)) as [->|Hne]; [|by rewrite list_lookup_alter_ne in H].
    rewrite list_lookup_alter_eq in H. by apply fmap_Some in H as ([] & _ & [=]).
Qed.

Lemma demo_same_table_quiet w w' : do_clock w ≤ do_clock w' → do_table w' = do_table w → quiet w w'.
Proof. intros Hc Ht. split; [exact Hc|]. split; [cbn; by rewrite Ht|]. intros q [cmd H]. exists cmd. cbn in H |- *. by rewrite <-Ht. Qed.

Lemma demo_try_wait_quiet (p : nat) w : quiet w (demo_try_wait p w).1.
Proof.
  unfold demo_try_wait. destruct (do_table w !! p) as [[cmd []]|]; [|reflexivity..].
  destruct (_ && _); [apply demo_set_quiet|reflexivity].
Qed.

Lemma demo_try_wait_exited (p : nat) w w' status : demo_try_wait p w = (w', Ok (Some status)) → ¬ alive p w'.
Proof.
  unfold demo_try_wait. destruct (do_table w !! p) as [[cmd []]|] eqn:Hp.
  - destruct (_ && _); [|done]. intros [= <- _]. apply demo_set_dead.
  - intros [= <- _] [cmd' H]. cbn in H. by rewrite Hp in H.
  - intros [= <- _] [cmd' H]. cbn in H. by rewrite Hp in H.
Qed.

#[local] Instance DemoOs_laws : ProcessOsLaws (W:=DemoOs).
Proof.
  split; try (intros; reflexivity); try (intros; apply demo_set_quiet).
  - exact demo_try_wait_quiet.
  - intros p w w' [= <-]. apply demo_set_quiet.
  - intros d w. apply demo_same_table_quiet; [cbn; lia|done].
  - intros addr w. by apply demo_same_table_quiet.
  - intros c w. cbn. unfold demo_read. destruct (do_answer w); [|reflexivity]. cbn. by apply demo_same_table_quiet.
  - intros piped log s w. cbn [os_spawn DemoOs_os]. split; [cbn; lia|]. split; [rewrite demo_pids; cbn; rewrite elem_of_seq; lia|].
    split; [cbn; by rewrite imap_app; cbn; rewrite Nat.add_0_r|]. intros q Hq [cmd H]. exists cmd. cbn in H, Hq |- *.
    apply lookup_app_Some in H as [H|[Hl H]]; [done|]. apply list_lookup_singleton_Some in H as [H _]. lia.
  - exact demo_try_wait_exited.
  - intros p w w' [= <-]. apply demo_set_dead.
  - by intros p w _.
  - by intros p w w' _.
  - intros d w Hd. cbn. lia.
Qed.

Lemma demo_cooperates : cooperative 10 (W:=DemoOs).
Proof.
  split.
  - intros c w. cbn. unfold demo_read. by destruct (do_answer w).
  - done.
  - intros p w. cbn. unfold demo_try_wait. repeat case_match; by eexists.
  - done.
Qed.

Definition demo_join (dir name : string) : string := dir +:+ "/" +:+ name.
Definition demo_parse (text : string) : option SocketAddr :=
  if String.eqb text "127.0.0.1:1" then Some {| ip := V4 127 0 0 1; port := 1 |}
  else if String.eqb text "127.0.0.1:2" then Some {| ip := V4 127 0 0 1; port := 2 |}
  else if String.eqb text "127.0.0.1:3" then Some {| ip := V4 127 0 0 1; port := 3 |}
  else None.

Definition demo_plan : ProcessPlan :=
  {| pl_server := arg "server" (Spawn_new "cflux");
     pl_participants := [ {| pp_client_id := "client-0"; pp_node := arg "node" (Spawn_new "cflux");
                             pp_client := with_env "SEED" "7" (Spawn_new "client") |} ];
     pl_observers := []; pl_rounds := 3; pl_startup_timeout := 100; pl_run_timeout := 100; pl_log_dir := "logs" |}.

Definition demo_start (stuck : bool) : DemoOs := {| do_clock := 0; do_table := []; do_answer := None; do_stuck := stuck |}.
#[local] Notation demo_watch stuck := (run_watching demo_join demo_show demo_parse 10 demo_plan (demo_start stuck)).

Lemma demo_plan_fuel : enough_fuel 10 demo_plan.
Proof. split; [lia|]. by split. Qed.

(** It returns, whether the client hangs or not. *)
Lemma supervisor_returns_witness :
  is_Some (demo_watch true).2 ∧ is_Some (demo_watch false).2 ∧
  (∀ p, p ∈ map snd (sv_children (demo_watch true).1) → ¬ alive p (sv_os (demo_watch true).1)).
Proof.
  pose proof (supervisor_returns demo_join demo_show demo_parse demo_plan 10 (demo_start true) demo_plan_fuel demo_cooperates) as (s & r & -> & H & _).
  pose proof (supervisor_returns demo_join demo_show demo_parse demo_plan 10 (demo_start false) demo_plan_fuel demo_cooperates) as (s' & r' & -> & _).
  split; [by eexists|]. split; [by eexists|exact H].
Defined.

Definition demo_finished : ProcessSummary :=
  {| ps_clients := [ {| po_index := 0; po_client_id := "client-0"; po_exit_code := Some 0 |} ];
     ps_server_grpc_addr := {| ip := V4 127 0 0 1; port := 1 |};
     ps_server_http_addr := {| ip := V4 127 0 0 1; port := 2 |};
     ps_recipe :=
       [ "cflux server --addr-file logs/server.addr --grpc-addr 127.0.0.1:0 --http-addr 127.0.0.1:0";
         "cflux node --addr-file logs/node-0.addr --server http://127.0.0.1:1 --client-id client-0 --local-addr 127.0.0.1:0";
         "SEED=7 client --address 127.0.0.1:3 --client-id client-0 --rounds 3" ]%string |}.

Lemma demo_watch_finishes : demo_watch false = ((demo_watch false).1, Some (Ok demo_finished)).
Proof. vm_compute. reflexivity. Qed.

Lemma supervised_run_is_complete_witness :
  length (spawned (sv_os (demo_watch false).1)) = 3%nat ∧
  Forall (λ p, ¬ alive p (sv_os (demo_watch false).1)) (pids (sv_os (demo_watch false).1)).
Proof.
  split; [vm_compute; reflexivity|]. apply Forall_forall.
  exact (proj1 (supervised_run_is_complete demo_join demo_show demo_parse demo_plan 10 (demo_start false)
    (demo_watch false).1 demo_finished eq_refl demo_watch_finishes)).
Defined.

(** The clients are not among the children that are killed on the way out: when a run
    stalls, the server and the node are ended and the stuck client is left running. *)
Lemma stalled_run_leaves_clients :
  (demo_watch true).2 = Some (Err (ProcessStalled 100 1 ["client-0"%string])) ∧
  map (λ '(cmd, running), (program cmd, running)) (do_table (sv_os (demo_watch true).1)) =
    [("cflux"%string, false); ("cflux"%string, false); ("client"%string, true)] ∧
  alive 2%nat (sv_os (demo_watch true).1).
Proof. split; [vm_compute; reflexivity|]. split; [vm_compute; reflexivity|]. eexists. vm_compute. reflexivity. Qed.
End demo.
