(* ===== verification/Text.v ===== *)
(** * Texts: finding, slicing and lines

    Lemmas on [str::find], on slices by byte index and on [str::lines], shared by the
    files that write a text for another part to read back. *)

From S2P Require Import Prelude SidecarService Federation Process.
From Stdlib Require Import Ascii.

(** ** Finding and slicing *)

Lemma prefix_app_long p s r : (String.length p ≤ String.length s)%nat → String.prefix p (s +:+ r) = String.prefix p s.
Proof.
  revert s. induction p as [|c p IH]; intros [|d s] Hlen; rewrite ?string_app_cons; simpl in *; [by destruct r|done|lia|].
  destruct (ascii_dec c d); [apply IH; lia|done].
Qed.

Lemma prefix_app_self p r : String.prefix p (p +:+ r) = true.
Proof. induction p as [|c p IH]; [by destruct r|]. rewrite string_app_cons. simpl. by destruct (ascii_dec c c). Qed.

Lemma prefix_true p s : String.prefix p s = true → ∃ r, s = p +:+ r.
Proof.
  revert s. induction p as [|c p IH]; intros [|d s]; simpl; try done; [by exists ""%string|by exists (String d s)|].
  destruct (ascii_dec c d) as [->|]; [|done]. intros [r ->]%IH. by exists r.
Qed.

Lemma index_cons p c text :
  String.index 0 p (String c text) =
    if String.prefix p (String c text) then Some 0%nat else S <$> String.index 0 p text.
Proof. destruct p as [|d p]; [done|]. simpl. by destruct (String.index 0 (String d p) text). Qed.

(** The first occurrence of a pattern. *)
Lemma index_first p text n :
  String.index 0 p text = Some n → ∃ before after, text = before +:+ p +:+ after ∧ n = String.length before.
Proof.
  revert n. induction text as [|c text IH]; intros n.
  - destruct p; [|done]. intros [= <-]. by exists ""%string, ""%string.
  - rewrite index_cons. destruct (String.prefix p (String c text)) eqn:Hp.
    + intros [= <-]. apply prefix_true in Hp as [r ->]. by exists ""%string, r.
    + intros (m & Hi & ->)%fmap_Some. destruct (IH m Hi) as (b & a & -> & ->). by exists (String c b), a.
Qed.

(** Where it first occurs depends on nothing after it. *)
Lemma index_refill p before r r' :
  String.index 0 p (before +:+ p +:+ r) = Some (String.length before) →
  String.index 0 p (before +:+ p +:+ r') = Some (String.length before).
Proof.
  induction before as [|c before IH]; intros H.
  - destruct p as [|d p]; [by destruct r'|]. change ("" +:+ String d p +:+ r') with (String d (p +:+ r')). rewrite index_cons.
    by rewrite <-string_app_cons, prefix_app_self.
  - assert (Hsame : ∀ t, String.prefix p (String c before +:+ p +:+ t) = String.prefix p (String c before +:+ p)).
    { intros t. rewrite <-string_app_assoc. apply prefix_app_long. rewrite string_length_app. lia. }
    rewrite string_app_cons, index_cons, <-string_app_cons, Hsame in H. rewrite string_app_cons, index_cons, <-string_app_cons, Hsame.
    destruct (String.prefix p (String c before +:+ p)); [done|].
    apply fmap_Some in H as (m & Hm & [= Hlen]). rewrite <-Hlen in Hm. rewrite (IH Hm). done.
Qed.

Lemma substring_app_l (a b : string) : String.substring 0 (String.length a) (a +:+ b) = a.
Proof. induction a as [|c a IH]; [by destruct b|]. rewrite string_app_cons. simpl. by rewrite IH. Qed.

Lemma substring_skip (a b : string) n : String.substring (String.length a) n (a +:+ b) = String.substring 0 n b.
Proof. induction a as [|c a IH]; [done|exact IH]. Qed.

Lemma substring_whole (a : string) : String.substring 0 (String.length a) a = a.
Proof. induction a as [|c a IH]; simpl; [done|by rewrite IH]. Qed.

Lemma from_index_app (a b : string) : from_index (String.length a) (a +:+ b) = b.
Proof.
  unfold from_index. rewrite substring_skip, string_length_app.
  replace (String.length a + String.length b - String.length a)%nat with (String.length b) by lia. apply substring_whole.
Qed.

(** ** Lines *)

Lemma list_ascii_app (a b : string) :
  String.list_ascii_of_string (a +:+ b) = String.list_ascii_of_string a ++ String.list_ascii_of_string b.
Proof. induction a as [|c a IH]; [done|]. rewrite string_app_cons. simpl. by rewrite IH. Qed.

(** A text that can be a line. *)
Definition one_line (s : string) : Prop :=
  newline ∉ String.list_ascii_of_string s ∧ carriage_return ∉ String.list_ascii_of_string s.

Lemma one_line_app a b : one_line (a +:+ b) ↔ one_line a ∧ one_line b.
Proof. unfold one_line. rewrite list_ascii_app, !not_elem_of_app. tauto. Qed.

(** Each line ended. *)
Fixpoint ended_lines (ls : list string) : string :=
  match ls with l :: ls => l +:+ NEWLINE +:+ ended_lines ls | [] => "" end.

Lemma split_on_line c l rest : c ∉ l → split_on c (l ++ c :: rest) = l :: split_on c rest.
Proof.
  induction l as [|a l IH].
  - intros _. change (split_on c ([] ++ c :: rest)) with (split_on c (c :: rest)). cbn [split_on].
    assert (Hne : split_on c rest ≠ []).
    { destruct rest as [|b rest]; cbn [split_on]; [done|]. destruct (split_on c rest); [done|]. by destruct (Ascii.eqb b c). }
    destruct (split_on c rest); [done|]. by rewrite Ascii.eqb_refl.
  - rewrite not_elem_of_cons. intros [Ha Hl]. cbn [app split_on]. rewrite (IH Hl).
    destruct (Ascii.eqb_spec a c); [congruence|done].
Qed.

Lemma strip_return_line l : carriage_return ∉ l → strip_return l = l.
Proof.
  intros H. unfold strip_return. destruct (last l) as [a|] eqn:Hl; [|done].
  destruct (Ascii.eqb_spec a carriage_return) as [->|]; [|done]. by apply last_Some_elem_of in Hl.
Qed.

(** Lines that were ended are read back. *)
Lemma text_lines_ended ls : Forall one_line ls → text_lines (ended_lines ls) = ls.
Proof.
  intros Hall.
  assert (Hsplit : split_on newline (String.list_ascii_of_string (ended_lines ls)) = map String.list_ascii_of_string ls ++ [[]]).
  { induction Hall as [|l ls [Hn _] _ IH]; [done|]. cbn [ended_lines map app]. rewrite !list_ascii_app.
    change (String.list_ascii_of_string NEWLINE) with [newline]. rewrite <-IH. by apply split_on_line. }
  unfold text_lines, lines. rewrite Hsplit, removelast_last, last_snoc, app_nil_r, !map_map.
  rewrite <-(map_id ls) at 2. apply map_ext_in. intros l Hl%list_elem_of_In. rewrite Forall_forall in Hall.
  destruct (Hall l Hl) as [_ Hr]. rewrite strip_return_line by done. apply String.string_of_list_ascii_of_string.
Qed.

#[export] Instance one_line_dec s : Decision (one_line s).
Proof. unfold one_line. apply _. Defined.
