(* ===== verification/Unselected.v ===== *)
(** * Profile files nothing selected ([conflux-config/src/unselected.rs])

    The survey of a profile directory that start-up and [cflux doctor] report:
    which of the files in it claim to be profiles, on which axis each loads, and
    which load on none.  It runs the loaders of [Profile] on every file, so what
    it says is a statement about them: that is the theorem below. *)

From S2P Require Import Prelude Float Config Profile.

Open Scope Z_scope.

Section unselected.
Context `{Tm : Toml}.

Notation Directory := (gmap string FileRead).

(** ** Data *)

(** [ProfileAxis] is [Profile.Axis]. *)
Definition ProfileAxis_ALL : list Axis := [TopologyAxis; ModeAxis].

Definition env_var (self : Axis) : string :=
  match self with TopologyAxis => "CONFLUX_TOPOLOGY" | ModeAxis => "CONFLUX_MODE" end.

(** A problem's text, before it is printed: a loader's error, or the survey's
    own sentence for a chain that reaches no builtin of either axis. *)
Inductive Problem : Type :=
  | LoaderProblem (e : ProfileError)
  | ReachesNeitherAxis.

Record UnusableProfile := { un_name : string; un_problem : Problem }.

Record UnselectedProfiles := {
  un_topology : list string;
  un_mode : list string;
  un_unusable : list UnusableProfile;
}.

Definition UnselectedProfiles_default : UnselectedProfiles :=
  {| un_topology := []; un_mode := []; un_unusable := [] |}.

Definition unselected_is_empty (self : UnselectedProfiles) : bool :=
  bool_decide (un_topology self = []) && bool_decide (un_mode self = []) &&
  bool_decide (length (un_unusable self) = 0%nat).

Definition unselected_len (self : UnselectedProfiles) : nat :=
  length (un_topology self) + length (un_mode self) + length (un_unusable self).

Definition unselected_on (self : UnselectedProfiles) (axis : Axis) : list string :=
  match axis with TopologyAxis => un_topology self | ModeAxis => un_mode self end.

(** ** The survey *)

Definition declares_inherits (dir : Directory) (name : string) : bool :=
  match dir !! name with
  | Some (Table entries) => bool_decide ("inherits"%string ∈ map fst entries)
  | _ => false
  end.

Definition classify (dir : Directory) (name : string) : outcome Problem Axis :=
  match load_topology_profile dir name with
  | Ok _ => Ok TopologyAxis
  | Err (NotFound _ _ _) =>
      match load_mode_profile dir name with
      | Ok _ => Ok ModeAxis
      | Err (NotFound _ _ _) => Err ReachesNeitherAxis
      | Err e => Err (LoaderProblem e)
      | Panic => Panic
      end
  | Err e => Err (LoaderProblem e)
  | Panic => Panic
  end.

Definition found_topology (name : string) (found : UnselectedProfiles) : UnselectedProfiles :=
  {| un_topology := un_topology found ++ [name]; un_mode := un_mode found; un_unusable := un_unusable found |}.
Definition found_mode (name : string) (found : UnselectedProfiles) : UnselectedProfiles :=
  {| un_topology := un_topology found; un_mode := un_mode found ++ [name]; un_unusable := un_unusable found |}.
Definition found_unusable (u : UnusableProfile) (found : UnselectedProfiles) : UnselectedProfiles :=
  {| un_topology := un_topology found; un_mode := un_mode found; un_unusable := un_unusable found ++ [u] |}.

(** One turn of the loop over the directory's names; the survey has no error to
    give. *)
Definition survey_name (dir : Directory) (topology_selected mode_selected : option string)
    (found : UnselectedProfiles) (name : string) : outcome Empty_set UnselectedProfiles :=
  if negb (declares_inherits dir name) then Ok found
  else
    match classify dir name with
    | Ok TopologyAxis => Ok match topology_selected with None => found_topology name found | Some _ => found end
    | Ok ModeAxis => Ok match mode_selected with None => found_mode name found | Some _ => found end
    | Err problem => Ok (found_unusable {| un_name := name; un_problem := problem |} found)
    | Panic => Panic
    end.

Fixpoint survey (dir : Directory) (topology_selected mode_selected : option string)
    (names : list string) (found : UnselectedProfiles) : outcome Empty_set UnselectedProfiles :=
  match names with
  | [] => Ok found
  | name :: names =>
      found ← survey_name dir topology_selected mode_selected found name;
      survey dir topology_selected mode_selected names found
  end.

(** [None] is a directory [read_dir] cannot read. *)
Definition unselected_profiles (dir : option Directory) (topology_selected mode_selected : option string)
    : outcome Empty_set UnselectedProfiles :=
  match topology_selected, mode_selected with
  | Some _, Some _ => Ok UnselectedProfiles_default
  | _, _ =>
      match dir with
      | None => Ok UnselectedProfiles_default
      | Some dir =>
          survey dir topology_selected mode_selected (available_profiles dir) UnselectedProfiles_default
      end
  end.

(** ** Which axis a chain leads to *)

Lemma linked_functional dir name files base files' base' :
  linked dir name files base → linked dir name files' base' → dir !! base = None → dir !! base' = None →
  files = files' ∧ base = base'.
Proof.
  intros Hl. revert files' base'.
  induction Hl as [name|name entries keys parent files base Hd Hs _ IH]; intros files' base' Hl' Hb Hb'.
  - destruct Hl' as [|name entries keys parent files' base' Hd' _ _]; [done|]. by rewrite Hd' in Hb.
  - revert Hd Hs Hb'. destruct Hl' as [name|name entries' keys' parent' files2 base' Hd' Hs' Hl2]; intros Hd Hs Hb';
      [by rewrite Hd in Hb'|]. simplify_eq. rewrite Hs in Hs'. simplify_eq. by destruct (IH _ _ Hl2 Hb Hb') as [-> ->].
Qed.

Lemma linked_in_dir dir name files base f : linked dir name files base → f ∈ map fst files → is_Some (dir !! f).
Proof.
  induction 1 as [|name entries keys parent files base Hd Hs _ IH]; simpl; [by intros ?%elem_of_nil|].
  intros [->|?]%elem_of_cons; [by rewrite Hd|by apply IH].
Qed.

(** The walk with another axis's builtins along a chain that meets none of them
    runs off its end. *)
Lemma walk_off_axis axis dir builtins name files base :
  linked dir name files base → dir !! base = None → base ∉ builtins →
  Forall (λ f, f ∉ builtins) (map fst files) →
  ∀ fuel read visited, NoDup (visited ++ map fst files) → base ∉ visited → (length files < fuel)%nat →
  ∃ available, load_chain_loop fuel axis dir builtins read visited name = Err (NotFound axis base available).
Proof.
  induction 1 as [name|name entries keys parent files base Hd Hs _ IH]; intros Hb Hbase Hfiles fuel read visited
    Hnd Hv Hfuel; (destruct fuel as [|fuel]; [simpl in *; lia|]); simpl.
  - rewrite decide_False, decide_False, Hb by done. eauto.
  - simpl in Hfiles. apply Forall_cons in Hfiles as [Hname Hfiles]. simpl in Hnd.
    rewrite decide_False, decide_False, Hd, Hs; [simpl| |done].
    + apply IH; try done.
      * by rewrite <-app_assoc.
      * rewrite elem_of_app, list_elem_of_singleton. intros [?| ->]; [done|]. by rewrite Hd in Hb.
      * simpl in Hfuel. lia.
    + apply NoDup_app in Hnd as (_ & Hnd & _). intros Hin. by apply (Hnd _ Hin), list_elem_of_here.
Qed.

Lemma linked_length dir name files base :
  linked dir name files base → NoDup (map fst files) → (length files ≤ size dir)%nat.
Proof.
  intros Hl Hnd. rewrite <-(length_map fst), <-(size_list_to_set (C:=gset string)), <-size_dom by done.
  apply subseteq_size. intros f. rewrite elem_of_list_to_set, elem_of_dom. by apply (linked_in_dir _ _ _ _ _ Hl).
Qed.

Lemma load_chain_off_axis axis dir builtins name files base :
  linked dir name files base → dir !! base = None → NoDup (map fst files) → base ∉ builtins →
  Forall (λ f, f ∉ builtins) (map fst files) →
  ∃ available, load_chain axis dir name builtins = Err (NotFound axis base available).
Proof.
  intros Hl Hb Hnd Hbase Hfiles. unfold load_chain. eapply walk_off_axis; eauto; [by intros ?%elem_of_nil|].
  pose proof (linked_length _ _ _ _ Hl Hnd). unfold chain_fuel. lia.
Qed.

Definition topology_builtins : list string := map Topology_label Topology_ALL.
Definition mode_builtins : list string := map Mode_label Mode_ALL.

Lemma builtins_disjoint label : label ∈ topology_builtins → label ∉ mode_builtins.
Proof.
  assert (H : forallb (λ t, forallb (λ m, negb (bool_decide (t = m))) mode_builtins) topology_builtins = true) by done.
  rewrite forallb_forall in H. intros Ht%list_elem_of_In Hm%list_elem_of_In. specialize (H _ Ht).
  rewrite forallb_forall in H. specialize (H _ Hm). by rewrite bool_decide_true in H.
Qed.

(** A profile that loads on an axis has a chain of files to a builtin of it. *)
Lemma topology_loaded_chain dir name tp :
  load_topology_profile dir name = Ok tp →
  ∃ files base, linked dir name files base ∧ dir !! base = None ∧ NoDup (map fst files) ∧ base ∈ topology_builtins.
Proof.
  unfold load_topology_profile. intros ([files base] & Hl & _)%bind_ok_inv.
  pose proof (load_chain_spec TopologyAxis dir (map Topology_label Topology_ALL) name) as Hs. rewrite Hl in Hs.
  exists files, base. by destruct Hs as (? & ? & ? & ?).
Qed.

Lemma mode_loaded_chain dir name mp :
  load_mode_profile dir name = Ok mp →
  ∃ files base, linked dir name files base ∧ dir !! base = None ∧ NoDup (map fst files) ∧ base ∈ mode_builtins.
Proof.
  unfold load_mode_profile. intros ([files base] & Hl & _)%bind_ok_inv.
  pose proof (load_chain_spec ModeAxis dir (map Mode_label Mode_ALL) name) as Hs. rewrite Hl in Hs.
  exists files, base. by destruct Hs as (? & ? & ? & ?).
Qed.

(** No name loads on both axes. *)
Lemma axes_exclusive dir name tp mp :
  load_topology_profile dir name = Ok tp → load_mode_profile dir name = Ok mp → False.
Proof.
  intros (files & base & Hl & Hb & _ & Ht)%topology_loaded_chain (files' & base' & Hl' & Hb' & _ & Hm)%mode_loaded_chain.
  destruct (linked_functional _ _ _ _ _ _ Hl Hl' Hb Hb') as [_ ->]. by apply (builtins_disjoint _ Ht).
Qed.

Lemma inherits_seen current entries inherits keys parent keys' :
  split_inherits current entries inherits keys = Ok (Some parent, keys') →
  inherits = None → "inherits"%string ∈ map fst entries.
Proof.
  revert inherits keys. induction entries as [|[k v] entries IH]; intros inherits keys; simpl; [by intros [= -> _]|].
  case_decide as Hk; [intros _ _; apply elem_of_cons; by left|].
  intros H Hn. apply elem_of_cons. right. by eapply IH.
Qed.
(** A file that leads to a builtin says [inherits]. *)
Lemma linked_declares_inherits dir name files base :
  linked dir name files base → dir !! base = None → is_Some (dir !! name) → declares_inherits dir name = true.
Proof.
  intros Hl Hb [x Hx]. destruct Hl as [|name entries keys parent files base Hd Hs _]; [by rewrite Hx in Hb|].
  unfold declares_inherits. rewrite Hd. apply bool_decide_true. by eapply inherits_seen.
Qed.

Lemma classify_topology dir name :
  classify dir name = Ok TopologyAxis ↔ ∃ tp, load_topology_profile dir name = Ok tp.
Proof.
  unfold classify. split.
  - destruct (load_topology_profile dir name) as [tp|e|]; [by eauto| |done].
    destruct e; try done. by destruct (load_mode_profile dir name) as [|[]|].
  - by intros [tp ->].
Qed.

(** No file shadows a topology builtin. *)
Definition topology_unshadowed (dir : Directory) : Prop := ∀ label, label ∈ topology_builtins → dir !! label = None.

Lemma classify_mode dir name :
  topology_unshadowed dir →
  classify dir name = Ok ModeAxis ↔ ∃ mp, load_mode_profile dir name = Ok mp.
Proof.
  intros Hclear. unfold classify. split.
  - destruct (load_topology_profile dir name) as [tp|e|]; [done| |done].
    destruct e; try done. destruct (load_mode_profile dir name) as [mp|[]|]; try done. by eauto.
  - intros [mp Hm]. destruct (mode_loaded_chain _ _ _ Hm) as (files & base & Hl & Hb & Hnd & Hmode).
    destruct (load_chain_off_axis TopologyAxis dir topology_builtins name files base) as [av Hnf]; try done.
    + intros Ht. by apply (builtins_disjoint _ Ht).
    + apply Forall_forall. intros f Hf Ht. destruct (linked_in_dir _ _ _ _ _ Hl Hf) as [x Hx].
      by rewrite (Hclear _ Ht) in Hx.
    + unfold load_topology_profile. unfold topology_builtins in Hnf. rewrite Hnf. simpl. by rewrite Hm.
Qed.

Lemma classify_no_panic dir name (Hinto : ∀ p v, try_into p v ≠ Panic) : classify dir name ≠ Panic.
Proof.
  unfold classify. pose proof (load_topology_profile_no_panic dir name Hinto).
  pose proof (load_mode_profile_no_panic dir name Hinto).
  destruct (load_topology_profile dir name) as [|[]|]; try done. by destruct (load_mode_profile dir name) as [|[]|].
Qed.

(** ** What the loop collects *)

Definition reported_on (dir : Directory) (selected : option string) (on : outcome Problem Axis → bool) (name : string)
    : bool :=
  bool_decide (selected = None) && declares_inherits dir name && on (classify dir name).

Notation reported dir selected on := (base.filter (λ name, reported_on dir selected on name = true)).

Definition is_topology (c : outcome Problem Axis) : bool := match c with Ok TopologyAxis => true | _ => false end.
Definition is_mode (c : outcome Problem Axis) : bool := match c with Ok ModeAxis => true | _ => false end.
Definition is_problem (c : outcome Problem Axis) : bool := match c with Err _ => true | _ => false end.

Lemma reported_cons dir selected on name names :
  reported dir selected on (name :: names) =
    if bool_decide (selected = None) && declares_inherits dir name && on (classify dir name)
    then name :: reported dir selected on names else reported dir selected on names.
Proof.
  rewrite filter_cons. fold (reported_on dir selected on name). case_decide as Hr; [by rewrite Hr|].
  by destruct (reported_on dir selected on name).
Qed.

Lemma survey_spec dir t m (Hinto : ∀ p v, try_into p v ≠ Panic) names found :
  ∃ found', survey dir t m names found = Ok found' ∧
    un_topology found' = un_topology found ++ reported dir t is_topology names ∧
    un_mode found' = un_mode found ++ reported dir m is_mode names ∧
    map un_name (un_unusable found') = map un_name (un_unusable found) ++ reported dir None is_problem names.
Proof.
  revert found. induction names as [|name names IH]; intros found; simpl.
  { exists found. by rewrite !app_nil_r. }
  rewrite !reported_cons. unfold survey_name. pose proof (classify_no_panic dir name Hinto) as Hp.
  destruct (declares_inherits dir name) eqn:Hd; simpl.
  2:{ destruct (IH found) as (f' & Hf & H1 & H2 & H3). exists f'.
      rewrite !andb_false_r. done. }
  destruct (classify dir name) as [[]|p|] eqn:Hc; [..|done]; simpl; destruct t, m; simpl;
    match goal with |- ∃ _, survey _ _ _ _ ?f = _ ∧ _ => destruct (IH f) as (f' & Hf & H1 & H2 & H3) end;
    exists f'; (split; [done|]); rewrite H1, H2, H3; simpl; rewrite ?map_app, <-?app_assoc;
    rewrite ?bool_decide_true, ?bool_decide_false by done; done.
Qed.
Lemma available_profiles_spec dir name : name ∈ available_profiles dir ↔ is_Some (dir !! name).
Proof.
  unfold available_profiles. rewrite sort_by_perm, list_elem_of_fmap. split.
  - by intros ([? x] & -> & Hx%elem_of_map_to_list); exists x.
  - intros [x Hx]. exists (name, x). by rewrite elem_of_map_to_list.
Qed.

Lemma available_profiles_sorted dir : StronglySorted String.le (available_profiles dir).
Proof.
  assert (Hs : Sorted_by (λ a b, bool_decide (String.le a b)) (available_profiles dir));
    [apply (sort_by_sorted _ (λ _, True)); [..|by apply Forall_true]|].
  - intros x y _ _. rewrite !bool_decide_eq_true. apply (total String.le).
  - intros x y z _ _ _. rewrite !bool_decide_eq_true. apply (transitivity (R:=String.le)).
  - induction Hs as [|a l _ IH Ha]; constructor; [done|].
    eapply Forall_impl; [exact Ha|]. intros b. apply bool_decide_eq_true.
Qed.

Lemma available_profiles_nodup dir : NoDup (available_profiles dir).
Proof. unfold available_profiles. rewrite sort_by_perm. apply NoDup_fst_map_to_list. Qed.

Lemma StronglySorted_filter {A} (R : A → A → Prop) (P : A → Prop) `{∀ x, Decision (P x)} l :
  StronglySorted R l → StronglySorted R (base.filter P l).
Proof.
  induction 1 as [|x l _ IH Hx]; [constructor|]. rewrite filter_cons. case_decide; [|done].
  constructor; [done|]. rewrite Forall_forall in *. intros y [_ Hy]%list_elem_of_filter. by apply Hx.
Qed.

Lemma declares_inherits_in_dir dir name : declares_inherits dir name = true → is_Some (dir !! name).
Proof. unfold declares_inherits. by destruct (dir !! name) as [x|]; [exists x|]. Qed.

Lemma reported_elem dir selected on name :
  name ∈ reported dir selected on (available_profiles dir) ↔
  selected = None ∧ declares_inherits dir name = true ∧ on (classify dir name) = true.
Proof.
  rewrite list_elem_of_filter, available_profiles_spec. unfold reported_on.
  rewrite !andb_true_iff, bool_decide_eq_true. pose proof (declares_inherits_in_dir dir name). naive_solver.
Qed.

(** ** Properties *)

(** What the survey of one directory must say of a name: each axis's list is the
    files that load there (and only of an axis nothing selected), the unusable
    are the files that say [inherits] and load nowhere. *)
Definition survey_says (dir : Directory) (t m : option string) (found : UnselectedProfiles) (name : string) : Prop :=
  (name ∈ un_topology found ↔
     t = None ∧ is_Some (dir !! name) ∧ ∃ tp, load_topology_profile dir name = Ok tp) ∧
  (name ∈ un_mode found ↔
     m = None ∧ is_Some (dir !! name) ∧ ∃ mp, load_mode_profile dir name = Ok mp) ∧
  (name ∈ map un_name (un_unusable found) ↔
     declares_inherits dir name = true ∧
     (∀ tp, load_topology_profile dir name ≠ Ok tp) ∧ (∀ mp, load_mode_profile dir name ≠ Ok mp)).

Lemma topology_declares_inherits dir name tp :
  is_Some (dir !! name) → load_topology_profile dir name = Ok tp → declares_inherits dir name = true.
Proof.
  intros Hd (files & base & Hl & Hb & _)%topology_loaded_chain. by eapply linked_declares_inherits.
Qed.

Lemma mode_declares_inherits dir name mp :
  is_Some (dir !! name) → load_mode_profile dir name = Ok mp → declares_inherits dir name = true.
Proof.
  intros Hd (files & base & Hl & Hb & _)%mode_loaded_chain. by eapply linked_declares_inherits.
Qed.

Lemma classify_problem dir name (Hinto : ∀ p v, try_into p v ≠ Panic) :
  topology_unshadowed dir →
  is_problem (classify dir name) = true ↔
  (∀ tp, load_topology_profile dir name ≠ Ok tp) ∧ (∀ mp, load_mode_profile dir name ≠ Ok mp).
Proof.
  intros Hclear. pose proof (classify_topology dir name) as Ht. pose proof (classify_mode dir name Hclear) as Hm.
  pose proof (classify_no_panic dir name Hinto).
  destruct (classify dir name) as [[]|p|]; simpl; [..|done].
  - destruct Ht as [[tp Htp] _]; [done|]. naive_solver.
  - destruct Hm as [[mp Hmp] _]; [done|]. naive_solver.
  - split; [|done]. intros _. split; intros x Hx; [destruct Ht as [_ Ht]|destruct Hm as [_ Hm]];
      [by specialize (Ht (ex_intro _ x Hx))|by specialize (Hm (ex_intro _ x Hx))].
Qed.

(** In a directory where no file shadows a topology builtin, the survey of
    unselected profiles always answers and says exactly the truth about every
    name: it reports a file on an axis just when nothing was selected there and
    the file would load if it were, it reports as unusable just the files that
    claim to be profiles and load on neither axis, each name once and in order. *)
Theorem unselected_survey_exact dir t m
    (Hinto : ∀ p v, try_into p v ≠ Panic) (Hclear : topology_unshadowed dir) (Hask : t = None ∨ m = None) :
  ∃ found, unselected_profiles (Some dir) t m = Ok found ∧
    (∀ name, survey_says dir t m found name) ∧
    (∀ axis, NoDup (unselected_on found axis) ∧ StronglySorted String.le (unselected_on found axis)) ∧
    NoDup (map un_name (un_unusable found)) ∧ StronglySorted String.le (map un_name (un_unusable found)).
Proof.
  destruct (survey_spec dir t m Hinto (available_profiles dir) UnselectedProfiles_default)
    as (found & Hf & H1 & H2 & H3). simpl in H1, H2, H3. exists found. split.
  { unfold unselected_profiles. destruct t, m; try done. by destruct Hask. }
  split; [|split; [intros []; simpl|]; rewrite ?H1, ?H2, ?H3; split;
           auto using NoDup_filter, StronglySorted_filter, available_profiles_nodup, available_profiles_sorted].
  intros name. unfold survey_says. rewrite H1, H2, H3, !reported_elem.
  pose proof (classify_topology dir name) as Ht. pose proof (classify_mode dir name Hclear) as Hm.
  pose proof (declares_inherits_in_dir dir name). rewrite (classify_problem dir name Hinto Hclear).
  split; [|split; [|naive_solver]].
  - unfold is_topology. split.
    + intros (-> & Hd & Hc). destruct (classify dir name) as [[]| |]; try done. naive_solver.
    + intros (-> & Hs & tp & Hl). rewrite (proj2 Ht) by eauto. eauto using topology_declares_inherits.
  - unfold is_mode. split.
    + intros (-> & Hd & Hc). destruct (classify dir name) as [[]| |]; try done. naive_solver.
    + intros (-> & Hs & mp & Hl). rewrite (proj2 Hm) by eauto. eauto using mode_declares_inherits.
Qed.

(** When both axes were chosen nothing is said, whatever the directory holds. *)
Lemma both_selected_silent dir t m :
  unselected_profiles dir (Some t) (Some m) = Ok UnselectedProfiles_default ∧
  unselected_is_empty UnselectedProfiles_default = true.
Proof. done. Qed.
End unselected.

(** ** Witness and limits *)

#[local] Existing Instance demo_toml.

(** Two profiles [init] wrote, one misspelled, one that never said it was a
    profile. *)
Definition init_directory : gmap string FileRead :=
  list_to_map [
    ("hospital"%string, Table [("inherits"%string, DemoString "cross_silo"); ("round_timeout_secs"%string, DemoInteger 90)]);
    ("hospital_mode"%string, Table [("inherits"%string, DemoString "production")]);
    ("typo"%string, Table [("inherits"%string, DemoString "cros_silo")]);
    ("notes"%string, Table [("title"%string, DemoString "mine")])].

Lemma demo_into_no_panic p v : try_into p v ≠ Panic.
Proof. destruct p; try done. by destruct v. Qed.

Lemma unselected_survey_exact_witness :
  unselected_profiles (Some init_directory) None None =
    Ok {| un_topology := ["hospital"]; un_mode := ["hospital_mode"];
          un_unusable := [{| un_name := "typo"; un_problem := ReachesNeitherAxis |}] |}%string ∧
  ∃ found, unselected_profiles (Some init_directory) None None = Ok found ∧
    ∀ name, survey_says init_directory None None found name.
Proof.
  split; [vm_compute; reflexivity|].
  destruct (unselected_survey_exact init_directory None None demo_into_no_panic) as (found & Hf & Hs & _).
  - intros label. unfold topology_builtins. simpl. intros Hin.
    repeat (apply elem_of_cons in Hin as [->|Hin]; [vm_compute; reflexivity|]). by apply elem_of_nil in Hin.
  - by left.
  - exists found. exact (conj Hf Hs).
Defined.

(** Where a file shadows a topology builtin, a mode profile that loads through
    it, and would be selected by its name, is reported as loading on neither
    axis. *)
Lemma usable_mode_profile_reported_unusable :
  let dir := list_to_map [
    ("edge"%string, Table [("inherits"%string, DemoString "production")]);
    ("site_mode"%string, Table [("inherits"%string, DemoString "edge")])] in
  is_ok (load_mode_profile dir "site_mode") = true ∧
  classify dir "site_mode" = Err (LoaderProblem (ShadowsBuiltin TopologyAxis "edge")).
Proof. split; vm_compute; reflexivity. Qed.

(** A topology error that is not [NotFound] need not mean that the chain reached
    the topology builtins: a mode profile over a [production.toml] that says no
    [inherits] is explained by the topology walk, which read that file as a link,
    and the mode walk's reason, that it shadows a builtin, is lost. *)
Lemma mode_problem_told_by_topology_walk :
  let dir := list_to_map [
    ("production"%string, Table []);
    ("site_mode"%string, Table [("inherits"%string, DemoString "production")])] in
  classify dir "site_mode" = Err (LoaderProblem (MissingInherits "production")) ∧
  (match load_mode_profile dir "site_mode" with Err e => e = ShadowsBuiltin ModeAxis "production" | _ => False end).
Proof. split; vm_compute; reflexivity. Qed.
