(* ===== verification/ConfigCommand.v ===== *)
(** * The command line: what is asked and how it ends
      ([cflux/src/main.rs], [format.rs], [commands/config.rs], [commands/run.rs])

    [cflux config resolve] and [config check] select and resolve a configuration
    the way a server does and stop; [cflux server start] puts its flags into the
    environment and runs the server.  The environment, the profile directories and
    the experiment file are the parameters they are in [Startup]; a report is the
    data its two renderings print and the exit code. *)

From S2P Require Import Prelude Float Wire Catalog Store Config Submission Dispatcher Node Client.
From S2P Require Import Validate Profile Environment Experiment Unselected Admin Startup SidecarService.
From S2P Require Import Federation Process.

Open Scope Z_scope.

(** ** How a command ends *)

Inductive CliError : Type :=
  | CliProfile (e : ProfileError)
  | CliEnv (e : EnvError)
  | CliConfigFile (e : ConfigFileError)
  | CliServerEnv (e : DeploymentError)
  | CliServer (e : ServeError)
  | CliNode (e : RunError)
  | CliRuntime (source : string)
  | CliCheckpoint (e : StoreError)
  | CliFederation (e : FederationError)
  | CliProcessFederation (e : ProcessError)
  | CliClient (e : ClientError)
  | CliRead (path source : string)
  | CliManifest (path message : string)
  | CliWrite (path source : string).

Definition EXIT_NEGATIVE : Z := 1.
Definition EXIT_FAILURE : Z := 2.

Record Annotation := { an_level : string; an_message : string }.

(** [body] is what the text and the JSON say. *)
Record Report (B : Type) := { body : B; exit_code : Z; annotations : list Annotation }.
Arguments Build_Report {B}.
Arguments body {B}.
Arguments exit_code {B}.
Arguments annotations {B}.

Definition Report_plain {B} (b : B) (code : Z) : Report B :=
  {| body := b; exit_code := code; annotations := [] |}.

(** [main]'s exit status; a panic is the runtime's own 101. *)
Definition main_exit {B} (result : outcome CliError (Report B)) : Z :=
  match result with Ok report => exit_code report | Err _ => EXIT_FAILURE | Panic => 101 end.

(** ** Selecting a configuration *)

Record Selection := {
  sel_topology : option string;
  sel_mode : option string;
  sel_config_file : option string;
  sel_profile_dir : option string;
}.

Definition Selection_default : Selection :=
  {| sel_topology := None; sel_mode := None; sel_config_file := None; sel_profile_dir := None |}.

Record Resolution := {
  r_config : ResolvedConfig;
  r_topology_chain : list string;
  r_mode_chain : list string;
  r_profile_dir : string;
  r_unselected : UnselectedProfiles;
  r_validation : Validation;
}.

(** [export]: a flag becomes its variable. *)
Definition export (variable : string) (value : option string) (sys : Surroundings) : Surroundings :=
  match value with
  | None => sys
  | Some value => {| env_var v := if String.eqb v variable then Some value else env_var sys v; fs_read := fs_read sys |}
  end.

Section command_line.
Context `{Tm : Toml} `{FS : FromStrs}.
Context (registry : list StrategyEntry).
Context (quorum_try_into : tvalue → outcome string Z) (unknown_field : string → string).
Context (read_to_string : string → ReadText) (toml_from_str : string → outcome string (list (string * tvalue))).
(** What [read_dir] gives of a directory; reading a file by its path in one that
    cannot be listed finds nothing. *)
Context (listing : string → option (gmap string FileRead)).

Definition profiles_in (dir : string) : gmap string FileRead := default ∅ (listing dir).

Definition or_var (sys : Surroundings) (flag : option string) (variable : string) : option string :=
  match flag with Some v => Some v | None => env_var sys variable end.

Definition cli_resolve (sys : Surroundings) (sel : Selection) : outcome CliError Resolution :=
  let profile_dir := default "profiles"%string (or_var sys (sel_profile_dir sel) "CONFLUX_PROFILE_DIR") in
  let topology_name := or_var sys (sel_topology sel) "CONFLUX_TOPOLOGY" in
  let mode_name := or_var sys (sel_mode sel) "CONFLUX_MODE" in
  topology ← map_err CliProfile (topology_profile_named (profiles_in profile_dir) topology_name);
  mode ← map_err CliProfile (mode_profile_named (profiles_in profile_dir) mode_name);
  file_tier ←
    match or_var sys (sel_config_file sel) "CONFLUX_EXPERIMENT_CONFIG_PATH" with
    | None => Ok None
    | Some path =>
        overrides ← map_err CliConfigFile
          (load_experiment_file quorum_try_into unknown_field read_to_string toml_from_str path);
        Ok (Some (path, overrides))
    end;
  env ← map_err CliEnv (overrides_from_vars (env_var sys));
  let config := resolve_with_profiles topology mode file_tier env Overrides_default in
  match unselected_profiles (listing profile_dir) topology_name mode_name with
  | Ok unselected =>
      Ok {| r_config := config; r_topology_chain := tp_chain topology; r_mode_chain := mp_chain mode;
            r_profile_dir := profile_dir; r_unselected := unselected;
            r_validation := merge (validate config) (unregistered_strategies registry config) |}
  | _ => Panic
  end.

(** *** [cflux config] *)

Definition config_resolve (sys : Surroundings) (sel : Selection) : outcome CliError (Report Resolution) :=
  r ← cli_resolve sys sel; Ok (Report_plain r 0).

Definition config_check (sys : Surroundings) (sel : Selection) : outcome CliError (Report Resolution) :=
  r ← cli_resolve sys sel;
  let ok := bool_decide (length (errors (r_validation r)) = 0%nat) in
  Ok (Report_plain r (if ok then 0 else EXIT_NEGATIVE)).

(** *** [cflux server start] *)

Record ServerStart := {
  start_topology : option string;
  start_mode : option string;
  start_config_file : option string;
  start_profile_dir : option string;
  start_grpc_addr : option string;
  start_http_addr : option string;
  start_addr_file : option string;
}.

(** The exports of [run_server], in the order it makes them. *)
Definition server_environment (a : ServerStart) (sys : Surroundings) : Surroundings :=
  export "CONFLUX_HTTP_ADDR" (start_http_addr a)
    (export "CONFLUX_GRPC_ADDR" (start_grpc_addr a)
      (export "CONFLUX_PROFILE_DIR" (start_profile_dir a)
        (export "CONFLUX_EXPERIMENT_CONFIG_PATH" (start_config_file a)
          (export "CONFLUX_MODE" (start_mode a)
            (export "CONFLUX_TOPOLOGY" (start_topology a) sys))))).

(** [run_node]'s. *)
Record NodeStart := {
  node_server : option string;
  node_client_id : option string;
  node_local_addr : option string;
  node_connection_mode : option string;
}.

Definition node_environment (a : NodeStart) (sys : Surroundings) : Surroundings :=
  export "CONFLUX_CONNECTION_MODE" (node_connection_mode a)
    (export "CONFLUX_LOCAL_ADDR" (node_local_addr a)
      (export "CONFLUX_CLIENT_ID" (node_client_id a)
        (export "CONFLUX_SERVER_ADDR" (node_server a) sys))).

(** ** Facts *)

(** The variables a configuration's override tier reads. *)
Definition override_variables : list string :=
  ["CONFLUX_AGGREGATOR"; "CONFLUX_SELECTOR"; "CONFLUX_PRIVACY_MECHANISM"; "CONFLUX_ROBUST_BYZANTINE_FRACTION";
   "CONFLUX_CLIP_RADIUS"; "CONFLUX_SERVER_LEARNING_RATE"; "CONFLUX_SERVER_TAU"; "CONFLUX_SERVER_MOMENTUM";
   "CONFLUX_FAIRNESS_Q"; "CONFLUX_SCAFFOLD_NUM_CLIENTS"; "CONFLUX_ZENO_RHO"; "CONFLUX_SERVER_LIPSCHITZ";
   "CONFLUX_MIN_REPUTATION_SCORE"; "CONFLUX_REPUTATION_FILTER_ENABLED"; "CONFLUX_QUORUM";
   "CONFLUX_ROUND_LOG_DETAIL"; "CONFLUX_ROUND_HISTORY_LEN"; "CONFLUX_MAX_UPDATE_BYTES";
   "CONFLUX_ROUND_TIMEOUT_SECS"; "CONFLUX_CLIP_NORM"; "CONFLUX_NOISE_MULTIPLIER"]%string.

Lemma overrides_from_vars_ext get get' :
  Forall (λ v, get v = get' v) override_variables → overrides_from_vars get = overrides_from_vars get'.
Proof.
  intros H. unfold override_variables in H. rewrite !Forall_cons in H. destruct_and! H.
  unfold overrides_from_vars, var. repeat match goal with E : get _ = get' _ |- _ => rewrite E; clear E end. done.
Qed.

Lemma export_other variable value sys v :
  String.eqb v variable = false → env_var (export variable value sys) v = env_var sys v.
Proof. intros H. destruct value; simpl; [by rewrite H|done]. Qed.

Lemma export_same variable value sys :
  env_var (export variable value sys) variable = or_var sys value variable.
Proof. destruct value; simpl; [by rewrite String.eqb_refl|done]. Qed.
(** The selection [config check] is given where [server start] has those flags. *)
Definition selection_of (a : ServerStart) : Selection :=
  {| sel_topology := start_topology a; sel_mode := start_mode a; sel_config_file := start_config_file a;
     sel_profile_dir := start_profile_dir a |}.

Ltac exported := unfold server_environment; repeat first [rewrite export_same; unfold or_var | rewrite export_other by done].

Lemma server_environment_selection a sys :
  env_var (server_environment a sys) "CONFLUX_TOPOLOGY" = or_var sys (start_topology a) "CONFLUX_TOPOLOGY" ∧
  env_var (server_environment a sys) "CONFLUX_MODE" = or_var sys (start_mode a) "CONFLUX_MODE" ∧
  env_var (server_environment a sys) "CONFLUX_EXPERIMENT_CONFIG_PATH" =
    or_var sys (start_config_file a) "CONFLUX_EXPERIMENT_CONFIG_PATH" ∧
  env_var (server_environment a sys) "CONFLUX_PROFILE_DIR" = or_var sys (start_profile_dir a) "CONFLUX_PROFILE_DIR".
Proof. by repeat split; exported. Qed.

Lemma server_environment_other a sys v :
  v ∉ ["CONFLUX_TOPOLOGY"; "CONFLUX_MODE"; "CONFLUX_EXPERIMENT_CONFIG_PATH"; "CONFLUX_PROFILE_DIR";
       "CONFLUX_GRPC_ADDR"; "CONFLUX_HTTP_ADDR"]%string →
  env_var (server_environment a sys) v = env_var sys v.
Proof.
  rewrite !not_elem_of_cons. intros H. destruct_and! H. unfold server_environment.
  rewrite !export_other; [done|by apply String.eqb_neq..].
Qed.

Lemma server_environment_overrides a sys :
  overrides_from_vars (env_var (server_environment a sys)) = overrides_from_vars (env_var sys).
Proof.
  apply overrides_from_vars_ext. unfold override_variables.
  repeat (apply Forall_cons; split; [by exported|]). by apply Forall_nil.
Qed.

(** A selection's flags and the variables [server start] exports them to select
    the same configuration. *)
Lemma flags_are_variables a sys :
  cli_resolve (server_environment a sys) Selection_default = cli_resolve sys (selection_of a).
Proof.
  unfold cli_resolve, or_var at 1 2 4. simpl.
  destruct (server_environment_selection a sys) as (-> & -> & -> & ->). by rewrite server_environment_overrides.
Qed.

Lemma unselected_answers dir t m (Hinto : ∀ p v, try_into p v ≠ Panic) :
  ∃ found, unselected_profiles dir t m = Ok found.
Proof.
  destruct dir as [dir|]; [|by destruct t, m; eexists].
  destruct (survey_spec dir t m Hinto (available_profiles dir) UnselectedProfiles_default) as (f & Hf & _).
  destruct t, m; simpl; eauto.
Qed.

(** *** Against the server *)

Context `{AF : AddressFromStr} `{J : JwtLibrary} (show_jwt : JwtAuthError → string).
Context {Tls : Type} (build_tls : TlsMaterial → Tls).

Notation server_from_env sys :=
  (from_env sys quorum_try_into unknown_field read_to_string toml_from_str profiles_in).

(** The server's error for what stops a resolution. *)
Inductive same_error : CliError → ServeError → Prop :=
  | same_profile e : same_error (CliProfile e) (ServeProfile e)
  | same_config_file e : same_error (CliConfigFile e) (ServeConfigFile e)
  | same_env e : same_error (CliEnv e) (ServeOverrides e).

Lemma resolve_is_from_env a sys (Hinto : ∀ p v, try_into p v ≠ Panic) :
  match cli_resolve sys (selection_of a) with
  | Ok r =>
      r_validation r = validated registry (r_config r) ∧
      ((∃ dim, server_from_env (server_environment a sys) =
                 Ok {| resolved := r_config r; sc_mode := cfg_mode (r_config r); initial_weights_dim := dim |}) ∨
       ∃ raw, server_from_env (server_environment a sys) = Err (InvalidVar "CONFLUX_INITIAL_WEIGHTS_DIM" raw))
  | Err e => ∃ e', server_from_env (server_environment a sys) = Err e' ∧ same_error e e'
  | Panic => server_from_env (server_environment a sys) = Panic
  end.
Proof.
  unfold cli_resolve, from_env. simpl.
  destruct (server_environment_selection a sys) as (-> & -> & -> & ->). rewrite server_environment_overrides.
  set (dir := profiles_in _). set (t := or_var sys (start_topology a) _). set (m := or_var sys (start_mode a) _).
  destruct (topology_profile_named dir t) as [tp|e|]; simpl; [|by eexists; split; [done|constructor]|done].
  destruct (mode_profile_named dir m) as [mp|e|]; simpl; [|by eexists; split; [done|constructor]|done].
  destruct (or_var sys (start_config_file a) _) as [path|]; simpl;
    [destruct (load_experiment_file _ _ _ _ path) as [o|e|]; simpl; [|by eexists; split; [done|constructor]|done]|];
    (destruct (overrides_from_vars (env_var sys)) as [env|e|]; simpl; [|by eexists; split; [done|constructor]|done]);
    destruct (unselected_answers (listing (default "profiles"%string (or_var sys (start_profile_dir a) "CONFLUX_PROFILE_DIR")))
                t m Hinto) as [found ->]; simpl;
    (split; [done|]); unfold parse_env; destruct (env_var _ "CONFLUX_INITIAL_WEIGHTS_DIM") as [raw|]; simpl;
    try destruct (dim_from_str raw); simpl; eauto.
Qed.

(** ** Properties *)

(** [cflux config check] foretells the server.  Given the same flags and
    environment as a [server start], it resolves the very configuration the server
    would run; it answers no (exit code 1) exactly when the server would refuse
    that configuration before opening anything; and when it cannot answer (exit
    code 2), the server stops at the same error. *)
Theorem config_check_predicts_start a sys (Hinto : ∀ p v, try_into p v ≠ Panic) :
  (∀ sc, server_from_env (server_environment a sys) = Ok sc →
     ∃ report, config_check sys (selection_of a) = Ok report ∧
       r_config (body report) = resolved sc ∧ exit_code report ∈ [0; EXIT_NEGATIVE] ∧
       (main_exit (config_check sys (selection_of a)) = EXIT_NEGATIVE ↔
        ∃ findings, prepare_material registry show_jwt (server_environment a sys) build_tls (resolved sc) (sc_mode sc) =
          Err (InvalidConfiguration findings))) ∧
  (∀ e, config_check sys (selection_of a) = Err e →
     ∃ e', server_from_env (server_environment a sys) = Err e' ∧ same_error e e').
Proof.
  pose proof (resolve_is_from_env a sys Hinto) as Hr. unfold config_check.
  destruct (cli_resolve sys (selection_of a)) as [r|e|]; simpl.
  2:{ destruct Hr as (e' & He' & Hs). split; [intros sc Hsc; by rewrite He' in Hsc|]. intros ? [= <-]. eauto. }
  2:{ split; [intros sc Hsc; by rewrite Hr in Hsc|done]. }
  split; [|done]. destruct Hr as [Hv Hsrv]. intros sc Hsc.
  destruct Hsrv as [[dim Hok]|[raw Herr]]; rewrite Hsc in *; [|done]. injection Hok as ->. simpl.
  eexists. split; [done|]. simpl. split; [done|]. rewrite Hv. unfold prepare_material.
  destruct (errors (validated registry (r_config r))) as [|f fs].
  - rewrite bool_decide_true by done. split; [by apply list_elem_of_here|]. split; [done|].
    intros [findings H]. exfalso. revert H.
    destruct (tls_material_from_vars _) as [m|e|]; simpl; [|done..].
    destruct (resolve_server_tls _ _ _ m) as [t|e|]; simpl; [|done..].
    destruct (jwt_key_from_env _ _) as [k|e|]; simpl; [|done..].
    by destruct (validate_jwt_startup _ _ k).
  - rewrite bool_decide_false by done. split; [by apply list_elem_of_further, list_elem_of_here|].
    split; [by eexists|done].
Qed.

(** [config resolve] answers whatever the findings are. *)
Lemma config_resolve_exit sys sel r :
  cli_resolve sys sel = Ok r → main_exit (config_resolve sys sel) = 0.
Proof. unfold config_resolve. by intros ->. Qed.
End command_line.

(** ** Witness *)

(** An environment that names an aggregator nothing registers, and a flag. *)
#[local] Existing Instance demo_toml.
#[local] Instance strings_only : FromStrs := {| from_str _ _ := None; usize_from_str _ := None |}.
#[local] Instance no_address : AddressFromStr := {| socket_addr_from_str _ := None; dim_from_str _ := None |}.
#[local] Instance no_tokens : JwtLibrary := {|
  decoding_key := ();
  from_rsa_pem _ := None;
  from_ec_pem _ := Err "no key"%string;
  decode _ _ _ := Err InvalidSignature;
  header_alg _ := None;
|}.

Definition mistyped_environment : Surroundings :=
  {| env_var v := if String.eqb v "CONFLUX_AGGREGATOR" then Some "fedavgg"%string else None;
     fs_read _ := Err "no such file"%string |}.

Definition silo_start : ServerStart :=
  {| start_topology := Some "cross_silo"%string; start_mode := None; start_config_file := None;
     start_profile_dir := None; start_grpc_addr := Some "127.0.0.1:0"%string; start_http_addr := None;
     start_addr_file := None |}.

#[local] Notation mistyped_check :=
  (config_check shipped_entries (λ _, Err ""%string) (λ s, s) (λ _, ReadFailed) (λ _, Err ""%string) (λ _, None)
     mistyped_environment (selection_of silo_start)).
#[local] Notation mistyped_server :=
  (from_env (server_environment silo_start mistyped_environment) (λ _, Err ""%string) (λ s, s)
     (λ _, ReadFailed) (λ _, Err ""%string) (profiles_in (λ _, None))).

Lemma mistyped_exit : main_exit mistyped_check = EXIT_NEGATIVE.
Proof. vm_compute. reflexivity. Qed.

Lemma mistyped_from_env : is_ok mistyped_server = true.
Proof. vm_compute. reflexivity. Qed.

Lemma config_check_predicts_start_witness :
  ∃ sc findings, mistyped_server = Ok sc ∧
    prepare_material shipped_entries (λ _, ""%string) (server_environment silo_start mistyped_environment) (λ _, ())
      (resolved sc) (sc_mode sc) = Err (InvalidConfiguration findings).
Proof.
  pose proof mistyped_from_env as Hok. destruct mistyped_server as [sc| |] eqn:Hsc; [|discriminate Hok..].
  destruct (proj1 (config_check_predicts_start shipped_entries (λ _, Err ""%string) (λ s, s)
    (λ _, ReadFailed) (λ _, Err ""%string) (λ _, None) (λ _, ""%string) (λ _, ())
    silo_start mistyped_environment demo_into_no_panic) sc Hsc) as (report & _ & _ & _ & Hiff).
  destruct (proj1 Hiff mistyped_exit) as [findings Hf]. exists sc, findings. split; [reflexivity|exact Hf].
Defined.
