(* ===== verification/StartCommand.v ===== *)
(** * Starting a server or a node ([cflux/src/commands/run.rs])

    [cflux server start] and [cflux node start]: the flags become variables, the
    program that reads them runs.  With [--addr-file] the command binds the listeners
    itself and reports the addresses the system chose, in a file that a supervisor
    (that of [Process]) polls for.  The report is written beside the file and renamed
    over it; what a reader can see meanwhile is modelled by the instants of the write.
    The disk, the sockets and the printed form of an address are parameters. *)

From S2P Require Import Prelude Float Wire Buffer Weights Averaging Contracts Registry Reputation Privacy Store Config State.
From S2P Require Import Round Submission Dispatcher Catalog Validate Profile Environment Experiment Admin Node Startup.
From S2P Require Import SidecarService Federation Process Text ConfigCommand.
From Stdlib Require Import Ascii.

Open Scope Z_scope.

(** ** The report file *)

(** [fs::write] and [fs::rename], and what a reader finds; [during_write] is the disk
    at an instant of a write, after [n] bytes. *)
Class ReportDisk (W : Type) := {
  disk_write : string → string → W → W * option string;
  during_write : string → string → nat → W → W;
  disk_rename : string → string → W → W * option string;
  disk_read : string → W → option string;
}.

Class ReportDiskLaws (W : Type) `{ReportDisk W} := {
  read_after_write path text w w' : disk_write path text w = (w', None) → disk_read path w' = Some text;
  write_elsewhere path text p w : p ≠ path → disk_read p (disk_write path text w).1 = disk_read p w;
  during_elsewhere path text n p w : p ≠ path → disk_read p (during_write path text n w) = disk_read p w;
  read_after_rename src dst text w w' :
    src ≠ dst → disk_read src w = Some text → disk_rename src dst w = (w', None) → disk_read dst w' = Some text;
  failed_rename src dst p e w w' : disk_rename src dst w = (w', Some e) → disk_read p w' = disk_read p w;
}.

Section report.
Context `{RD : ReportDisk W}.
(** [Path::with_extension] with [tmp] *)
Context (with_extension_tmp : string → string).

Definition write_report_file (path contents : string) : stM W CliError () := λ w,
  let tmp := with_extension_tmp path in
  match disk_write tmp contents w with
  | (w, Some source) => (w, Err (CliWrite tmp source))
  | (w, None) =>
      match disk_rename tmp path w with
      | (w, Some source) => (w, Err (CliWrite path source))
      | (w, None) => (w, Ok ())
      end
  end.

(** What another process can find the disk to be while [write_report_file] runs. *)
Inductive report_instant (path contents : string) (w : W) : W → Prop :=
  | before_report : report_instant path contents w w
  | while_writing n : report_instant path contents w (during_write (with_extension_tmp path) contents n w)
  | after_write : report_instant path contents w (disk_write (with_extension_tmp path) contents w).1
  | after_report : report_instant path contents w (write_report_file path contents w).1.
End report.

Section texts.
Context (show_addr : SocketAddr → string).

Definition server_report (grpc http : SocketAddr) : string :=
  "grpc=" +:+ show_addr grpc +:+ NEWLINE +:+ "http=" +:+ show_addr http +:+ NEWLINE.
Definition node_report (bound : SocketAddr) : string := "local=" +:+ show_addr bound +:+ NEWLINE.
End texts.

(** ** The commands *)

Section commands.
Context `{J : JwtLibrary} `{N : Notify} `{HO : HashOrder} `{AF : AddressFromStr}.
Context {Rd Al Pg S3 T Tls Listener : Type}.
Context `{CR : ClientRegistry Rd} `{NA : NodeAllowlist Al} `{SP : Store Pg} `{SS : Store S3} `{Lg : PrivacyRoundLog Pg}.
Context (ln : f32 → f32) (powf : f64 → f64 → f64).
Context (sort_unordered : list (nat * f64) → outcome AggregatorError (list (nat * f64))).
Context (entry_order : list (string * list (f32 * f32)) → list (string * list (f32 * f32))).
Context (registry : list StrategyEntry) (show_jwt : JwtAuthError → string).
Context (net : Connectors Rd Al Pg S3 T).
Context (build_tls : TlsMaterial → Tls) (accept_tls : Tls → outcome string ()).
Context (bind_addr : SocketAddr → outcome string Listener) (local_addr : Listener → outcome string SocketAddr).
Context `{Tm : Toml} `{FS : FromStrs}.
Context (quorum_try_into : tvalue → outcome string Z) (unknown_field : string → string).
Context (read_to_string : string → ReadText) (toml_from_str : string → outcome string (list (string * tvalue))).
Context (profiles_in : string → gmap string FileRead).
Context `{RD : ReportDisk W} (with_extension_tmp : string → string) (show_addr : SocketAddr → string).
Context (quoted : string → string) (runtime : outcome string ()).

Notation write_report_file := (write_report_file with_extension_tmp).

(** [bind] inside [bind_server_listeners] *)
Definition bind_listener (sys : Surroundings) (var fallback : string) : outcome CliError Listener :=
  let raw := default fallback (env_var sys var) in
  match socket_addr_from_str raw with
  | None => Err (CliManifest var (quoted raw +:+ " is not an address"))
  | Some addr => map_err (CliWrite (show_addr addr)) (bind_addr addr)
  end.

Definition bind_server_listeners (sys : Surroundings) : outcome CliError (Listener * Listener) :=
  grpc ← bind_listener sys "CONFLUX_GRPC_ADDR" "127.0.0.1:50051";
  http ← bind_listener sys "CONFLUX_HTTP_ADDR" "127.0.0.1:8080";
  Ok (grpc, http).

Notation start sys :=
  (Startup.start (N:=N) ln powf sort_unordered entry_order registry show_jwt sys net build_tls accept_tls bind_addr local_addr).
Notation from_env sys := (Startup.from_env sys quorum_try_into unknown_field read_to_string toml_from_str profiles_in).
Notation Started :=
  (Startup.Started (N:=N) (Rd:=Rd) (Al:=Al) (Pg:=Pg) (S3:=S3) (T:=T) (Tls:=Tls) (Listener:=Listener)).

(** [run_server], up to the server being about to serve. *)
Definition server_start (a : ServerStart) (sys : Surroundings) : stM W CliError Started :=
  let sys := server_environment a sys in
  of_outcome (map_err CliRuntime runtime) ≫= λ _,
  match start_addr_file a with
  | Some path =>
      of_outcome (bind_server_listeners sys) ≫= λ listeners,
      of_outcome (map_err (CliWrite path) (local_addr listeners.1)) ≫= λ grpc,
      of_outcome (map_err (CliWrite path) (local_addr listeners.2)) ≫= λ http,
      write_report_file path (server_report show_addr grpc http) ≫= λ _,
      of_outcome (map_err CliServer (from_env sys ≫= start sys (Some listeners)))
  | None => of_outcome (map_err CliServer (from_env sys ≫= start sys None))
  end.

(** *** The node *)

Context `{UT : UpstreamTransport W}.
Context {NTls : Type} (read : string → option bytes).
Context (server_auth : bytes → string → NTls) (mutual : bytes → bytes → bytes → string → NTls).
Context (f32_from_str : string → option f32) (u64_from_str : string → option Z).

Definition node_config_of (sys : Surroundings) : outcome RunError (NodeConfig NTls) :=
  NodeConfig_from_env (env_var sys) read server_auth mutual f32_from_str socket_addr_from_str u64_from_str.

(** [conflux_node::run_on] and [run], up to serving the local hop on [listener]. *)
Definition node_run_on (listener : Listener) (config : NodeConfig NTls) : stM W RunError (NodeBridge * Listener) :=
  run_on config ≫= λ bridge,
  of_outcome (map_err NodeListenerAddr (local_addr listener)) ≫= λ _,
  mret (bridge, listener).

Definition node_run (config : NodeConfig NTls) : stM W RunError (NodeBridge * Listener) :=
  of_outcome (map_err (NodeBind (nc_local_addr config)) (bind_addr (nc_local_addr config))) ≫= λ listener,
  node_run_on listener config.

Definition cli_node {A} (m : stM W RunError A) : stM W CliError A := λ w,
  let '(w, r) := m w in (w, map_err CliNode r).

(** [run_node]; [addr_file] is the flag of the same name. *)
Definition node_start (a : NodeStart) (addr_file : option string) (sys : Surroundings) : stM W CliError (NodeBridge * Listener) :=
  let sys := node_environment a sys in
  of_outcome (map_err CliRuntime runtime) ≫= λ _,
  match addr_file with
  | Some path =>
      of_outcome (map_err CliNode (node_config_of sys)) ≫= λ config,
      of_outcome (map_err (CliWrite (show_addr (nc_local_addr config))) (bind_addr (nc_local_addr config))) ≫= λ listener,
      of_outcome (map_err (CliWrite path) (local_addr listener)) ≫= λ bound,
      write_report_file path (node_report show_addr bound) ≫= λ _,
      cli_node (node_run_on listener config)
  | None => cli_node (of_outcome (node_config_of sys) ≫= node_run)
  end.
End commands.

(** ** What a supervisor reads *)

Section reader.
Context (show_addr : SocketAddr → string) (addr_from_str : string → option SocketAddr).

(** An address whose printed form is one line and is read back. *)
Definition printable (a : SocketAddr) : Prop := one_line (show_addr a) ∧ addr_from_str (show_addr a) = Some a.

Lemma key_line key a : one_line key → printable a → one_line (key +:+ "=" +:+ show_addr a).
Proof. intros Hk [Ha _]. rewrite !one_line_app. split_and!; [done| |done]. by apply (bool_decide_unpack _). Qed.

Lemma prefix_key key value : String.prefix (key +:+ "=") (key +:+ "=" +:+ value) = true.
Proof. rewrite <-string_app_assoc. apply prefix_app_self. Qed.

Lemma value_of_key key value : from_index (String.length key + 1) (key +:+ "=" +:+ value) = value.
Proof.
  rewrite <-string_app_assoc. replace (String.length key + 1)%nat with (String.length (key +:+ "=")); [apply from_index_app|].
  by rewrite string_length_app.
Qed.

Lemma server_report_read grpc http :
  printable grpc → printable http →
  reported_addr addr_from_str "grpc" (server_report show_addr grpc http) = Some grpc ∧
  reported_addr addr_from_str "http" (server_report show_addr grpc http) = Some http.
Proof.
  intros Hg Hh.
  assert (Hlines : text_lines (server_report show_addr grpc http) =
    ["grpc" +:+ "=" +:+ show_addr grpc; "http" +:+ "=" +:+ show_addr http]).
  { replace (server_report show_addr grpc http)
      with (ended_lines ["grpc" +:+ "=" +:+ show_addr grpc; "http" +:+ "=" +:+ show_addr http]).
    - apply text_lines_ended. repeat constructor; (apply key_line; [by apply (bool_decide_unpack _)|done]).
    - cbn [ended_lines]. rewrite string_app_nil_r, !string_app_assoc. done. }
  unfold reported_addr. rewrite Hlines. split; cbn [base.filter list_filter].
  - rewrite decide_True by apply prefix_key. cbn [head mbind option_bind]. rewrite value_of_key. apply Hg.
  - rewrite decide_False by done. rewrite decide_True by apply prefix_key. cbn [head mbind option_bind]. rewrite value_of_key. apply Hh.
Qed.

Lemma node_report_read bound : printable bound → reported_addr addr_from_str "local" (node_report show_addr bound) = Some bound.
Proof.
  intros Hb.
  assert (Hlines : text_lines (node_report show_addr bound) = ["local" +:+ "=" +:+ show_addr bound]).
  { replace (node_report show_addr bound) with (ended_lines ["local" +:+ "=" +:+ show_addr bound]).
    - apply text_lines_ended. repeat constructor; (apply key_line; [by apply (bool_decide_unpack _)|done]).
    - cbn [ended_lines]. rewrite string_app_nil_r, !string_app_assoc. done. }
  unfold reported_addr. rewrite Hlines. cbn [base.filter list_filter].
  rewrite decide_True by apply prefix_key. cbn [head mbind option_bind]. rewrite value_of_key. apply Hb.
Qed.
End reader.

Section report_facts.
Context `{RD : ReportDisk W} {RL : ReportDiskLaws W} (with_extension_tmp : string → string).
Notation write_report_file := (write_report_file with_extension_tmp).

Lemma write_report_ok path contents (w w' : W) :
  with_extension_tmp path ≠ path → write_report_file path contents w = (w', Ok ()) → disk_read path w' = Some contents.
Proof.
  intros Hne. unfold StartCommand.write_report_file. destruct (disk_write _ _ _) as [w1 [e|]] eqn:Hw; [done|].
  destruct (disk_rename _ _ _) as [w2 [e|]] eqn:Hr; [done|]. intros [= <-].
  eapply read_after_rename; [exact Hne|by eapply read_after_write|exact Hr].
Qed.

(** At every instant of the write the file is what it was, or the whole report. *)
Lemma report_is_atomic path contents (w w' : W) :
  with_extension_tmp path ≠ path → report_instant with_extension_tmp path contents w w' →
  disk_read path w' = disk_read path w ∨ disk_read path w' = Some contents.
Proof.
  intros Hne [|n| |]; [by left|left; by apply during_elsewhere|left; by apply write_elsewhere|].
  pose proof (write_elsewhere (with_extension_tmp path) contents path w (not_eq_sym Hne)) as Htmp.
  destruct (write_report_file path contents w) as [w1 r] eqn:Hrep. cbn [fst].
  unfold StartCommand.write_report_file in Hrep. destruct (disk_write _ _ _) as [w2 [e|]] eqn:Hw; cbn [fst] in Htmp.
  { left. by injection Hrep as <- _. }
  destruct (disk_rename _ _ _) as [w3 [e|]] eqn:Hr; injection Hrep as <- _.
  - left. rewrite <-Htmp. by eapply failed_rename.
  - right. eapply read_after_rename; [exact Hne|by eapply read_after_write|exact Hr].
Qed.
End report_facts.

Section start_facts.
Context `{J : JwtLibrary} `{N : Notify} `{HO : HashOrder} `{AF : AddressFromStr}.
Context {Rd Al Pg S3 T Tls Listener : Type}.
Context `{CR : ClientRegistry Rd} `{NA : NodeAllowlist Al} `{SP : Store Pg} `{SS : Store S3} `{Lg : PrivacyRoundLog Pg}.
Context (ln : f32 → f32) (powf : f64 → f64 → f64).
Context (sort_unordered : list (nat * f64) → outcome AggregatorError (list (nat * f64))).
Context (entry_order : list (string * list (f32 * f32)) → list (string * list (f32 * f32))).
Context (registry : list StrategyEntry) (show_jwt : JwtAuthError → string).
Context (net : Connectors Rd Al Pg S3 T).
Context (build_tls : TlsMaterial → Tls) (accept_tls : Tls → outcome string ()).
Context (bind_addr : SocketAddr → outcome string Listener) (local_addr : Listener → outcome string SocketAddr).
Context `{Tm : Toml} `{FS : FromStrs}.
Context (quorum_try_into : tvalue → outcome string Z) (unknown_field : string → string).
Context (read_to_string : string → ReadText) (toml_from_str : string → outcome string (list (string * tvalue))).
Context (profiles_in : string → gmap string FileRead).
Context `{RD : ReportDisk W} {RL : ReportDiskLaws W} (with_extension_tmp : string → string) (show_addr : SocketAddr → string).
Context (quoted : string → string) (runtime : outcome string ()) (addr_from_str : string → option SocketAddr).
(** What a listener says of itself can be printed. *)
Context (Hprint : ∀ l a, local_addr l = Ok a → printable show_addr addr_from_str a).

Notation start sys :=
  (Startup.start (N:=N) ln powf sort_unordered entry_order registry show_jwt sys net build_tls accept_tls bind_addr local_addr).
Notation server_start :=
  (server_start (N:=N) ln powf sort_unordered entry_order registry show_jwt net build_tls accept_tls bind_addr local_addr
     quorum_try_into unknown_field read_to_string toml_from_str profiles_in with_extension_tmp show_addr quoted runtime).

(** A server given listeners serves those. *)
Lemma start_keeps_listeners sys grpc http sc st :
  start sys (Some (grpc, http)) sc = Ok st →
  started_grpc st = grpc ∧ started_http st = http ∧ local_addr http = Ok (started_http_addr st).
Proof.
  unfold Startup.start. intros ([tls key] & _ & H)%bind_ok_inv. apply bind_ok_inv in H as (state & _ & H).
  apply bind_ok_inv in H as ([g h] & Hl & H). injection Hl as <- <-. apply bind_ok_inv in H as (ga & _ & H).
  apply bind_ok_inv in H as (ha & Hh%map_err_ok & H). apply bind_ok_inv in H as ([] & _ & H).
  apply bind_ok_inv in H as ([] & _ & [= <-]). done.
Qed.

(** A supervisor learns where a server is, and nothing else.  A server started with an
    address file serves listeners whose own addresses the file then holds, and the
    supervisor that reads it gets exactly those two; and at no instant while the file is
    being written does a supervisor that had removed it find anything in it but
    nothing or the whole report. *)
Theorem address_file_is_the_truth a sys path (w w' : W) st :
  start_addr_file a = Some path → with_extension_tmp path ≠ path →
  server_start a sys w = (w', Ok st) →
  ∃ grpc http,
    local_addr (started_grpc st) = Ok grpc ∧ local_addr (started_http st) = Ok http ∧ started_http_addr st = http ∧
    (∃ text, disk_read path w' = Some text ∧
       reported_addr addr_from_str "grpc" text = Some grpc ∧ reported_addr addr_from_str "http" text = Some http) ∧
    (disk_read path w = None → ∀ w1, report_instant with_extension_tmp path (server_report show_addr grpc http) w w1 →
       disk_read path w1 = None ∨
       ∃ text, disk_read path w1 = Some text ∧
         reported_addr addr_from_str "grpc" text = Some grpc ∧ reported_addr addr_from_str "http" text = Some http).
Proof.
  intros Hpath Hne. unfold StartCommand.server_start. rewrite Hpath.
  intros ([] & w1 & [= <- _] & (listeners & w2 & [= <- _] & H)%stM_bind_ok)%stM_bind_ok.
  apply stM_bind_ok in H as (grpc & w3 & [= <- Hg%map_err_ok] & (http & w4 & [= <- Hh%map_err_ok] & H)%stM_bind_ok).
  apply stM_bind_ok in H as ([] & w5 & Hw%write_report_ok & [= <- (sc & _ & Hst)%map_err_ok%bind_ok_inv]); [|done].
  destruct listeners as [lg lh]. apply start_keeps_listeners in Hst as (<- & <- & Hst). cbn [fst snd] in *.
  pose proof (server_report_read show_addr addr_from_str grpc http (Hprint _ _ Hg) (Hprint _ _ Hh)) as Hread.
  exists grpc, http. do 2 (split; [done|]). split; [congruence|]. split; [by eexists|].
  intros Hnone w6 [Hsame|Hwhole]%report_is_atomic; [left; by rewrite Hsame|right; by eexists|done].
Qed.

(** *** The node's file *)

Context `{UT : UpstreamTransport W}.
Context {NTls : Type} (read : string → option bytes).
Context (server_auth : bytes → string → NTls) (mutual : bytes → bytes → bytes → string → NTls).
Context (f32_from_str : string → option f32) (u64_from_str : string → option Z).

(** The report comes before the server is asked anything: a node whose registration is
    refused has announced its local address all the same. *)
Lemma node_reports_first a path sys config listener bound (w w1 : W) :
  with_extension_tmp path ≠ path → runtime = Ok () →
  node_config_of (AF:=AF) read server_auth mutual f32_from_str u64_from_str (node_environment a sys) = Ok config →
  bind_addr (nc_local_addr config) = Ok listener → local_addr listener = Ok bound →
  write_report_file with_extension_tmp path (node_report show_addr bound) w = (w1, Ok ()) →
  node_start bind_addr local_addr with_extension_tmp show_addr runtime read server_auth mutual f32_from_str u64_from_str
    a (Some path) sys w =
  cli_node (node_run_on local_addr listener config) w1 ∧
  ∃ text, disk_read path w1 = Some text ∧ reported_addr addr_from_str "local" text = Some bound.
Proof.
  intros Hne Hrt Hc Hb Hl Hw. split.
  - unfold node_start, mbind, stM_bind, of_outcome. rewrite Hrt. cbn. rewrite Hc. cbn. rewrite Hb. cbn. rewrite Hl. cbn. by rewrite Hw.
  - exists (node_report show_addr bound). split; [by eapply write_report_ok|by eapply node_report_read, Hprint].
Qed.
End start_facts.
