(* ===== verification/Doctor.v ===== *)
(** * [cflux doctor] ([cflux/src/commands/doctor.rs])

    The server's startup checks, made together and without starting anything: the
    server's own functions ([Startup], [Dispatcher], [State]) over the same
    environment, a TCP probe of each backend, and the sidecar's handshake.  What a
    probe finds is a parameter; a check is its name and its status, the detail
    beside it being prose.  The theorem is what the command is for: what it says
    of a deployment is what the server would do with it. *)

From S2P Require Import Prelude Float Wire Buffer Weights Averaging Catalog Registry Store Config State.
From S2P Require Import Dispatcher Validate Profile Environment Experiment Unselected Admin Startup.
From S2P Require Import ConfigCommand.

From Stdlib Require Import Ascii.

Open Scope Z_scope.

(** ** Where a backend listens *)

Notation chars := (list Ascii.ascii).

(** [str::split_once] and [rsplit_once]. *)
Fixpoint split_once (pat l : chars) : option (chars * chars) :=
  if decide (take (length pat) l = pat) then Some ([], drop (length pat) l)
  else match l with
       | [] => None
       | c :: l => '(before, after) ← split_once pat l; Some (c :: before, after)
       end.

Definition rsplit_once (c : Ascii.ascii) (l : chars) : option (chars * chars) :=
  '(after, before) ← split_once [c] (rev l); Some (rev before, rev after).

(** [s.split(stops).next()]: what comes before the first of [stops]. *)
Fixpoint before_any (stops l : chars) : chars :=
  match l with
  | [] => []
  | c :: l => if decide (c ∈ stops) then [] else c :: before_any stops l
  end.

(** [str::parse::<u16>]. *)
Definition parse_u16 (l : chars) : option Z := n ← parse_u64 l; if n <=? 65535 then Some n else None.

Definition SCHEME_END : chars := String.list_ascii_of_string "://".

Definition authority_of (url : chars) : chars :=
  let authority := match split_once SCHEME_END url with Some (_, rest) => rest | None => url end in
  let authority := before_any ["/"; "?"]%char authority in
  match rsplit_once "@"%char authority with Some (_, host) => host | None => authority end.

Definition host_port (url : chars) (default_port : Z) : option (chars * Z) :=
  let authority := authority_of url in
  match authority with
  | [] => None
  | _ =>
      match Store.strip_prefix ["["%char] authority with
      | Some rest =>
          '(host, tail) ← split_once ["]"%char] rest;
          match Store.strip_prefix [":"%char] tail with
          | Some p => port ← parse_u16 p; Some (host, port)
          | None => Some (host, default_port)
          end
      | None =>
          match rsplit_once ":"%char authority with
          | Some (host, port) => port ← parse_u16 port; Some (host, port)
          | None => Some (authority, default_port)
          end
      end
  end.

(** ** Checks *)

Inductive Status : Type := Pass | Fails | Warn | Skip.

#[export] Instance Status_eq_dec : EqDecision Status.
Proof. solve_decision. Defined.

Record DoctorCheck := { check_name : string; check_status : Status }.

Definition check (name : string) (status : Status) : DoctorCheck := {| check_name := name; check_status := status |}.

(** What a connection attempt finds; either failure fails the check. *)
Inductive Probed : Type := DoesNotResolve | NobodyListens | Accepts.

Section doctor.
Context `{J : JwtLibrary} (show_jwt : JwtAuthError → string).
Context {Rd Al Pg S3 T Tls : Type} (build_tls : TlsMaterial → Tls).
Context (ln : f32 → f32) (powf : f64 → f64 → f64).
Context (sort_unordered : list (nat * f64) → outcome AggregatorError (list (nat * f64))).
Context (net : Connectors Rd Al Pg S3 T) (reach : chars → Z → Probed).

Definition probe (name url : string) (default_port : Z) : DoctorCheck :=
  match host_port (String.list_ascii_of_string url) default_port with
  | None => check name Fails
  | Some (host, port) => check name (match reach host port with Accepts => Pass | _ => Fails end)
  end.

Definition sidecar_needs (name : string) : bool * bool :=
  match build_aggregator ln powf sort_unordered name AggregatorParams_default with
  | Ok agg => (requires_trusted_reference agg, requires_candidate_scores agg)
  | _ => (false, false)
  end.

Definition sidecar_check (sys : Surroundings) (needs_reference needs_scores : bool) : DoctorCheck :=
  if negb needs_reference && negb needs_scores then
    check "sidecar" (if bool_decide (is_Some (trusted_reference_addr sys)) then Warn else Skip)
  else
    match trusted_reference_addr sys with
    | None => check "sidecar" Fails
    | Some addr =>
        match sidecar net addr with
        | Ok transport =>
            match (describe net transport).2 with
            | Ok caps =>
                if (needs_reference && negb (supports_reference_update caps)) ||
                   (needs_scores && negb (supports_scoring caps))
                then check "sidecar" Fails else check "sidecar" Pass
            | _ => check "sidecar" Fails
            end
        | _ => check "sidecar" Fails
        end
    end.

Definition configuration_check (v : Validation) : DoctorCheck :=
  check "configuration"
    (match errors v, warnings v with _ :: _, _ => Fails | [], _ :: _ => Warn | [], [] => Pass end).

Definition profiles_check (found : UnselectedProfiles) : DoctorCheck :=
  check "profiles" (if unselected_is_empty found then Pass else Warn).

Definition backends_check (mode : Mode) (backends : BackendSelection) : DoctorCheck :=
  check "backends" (if is_ok (validate_production_backends mode backends) then Pass else Fails).

Definition reachability (backends : BackendSelection) : list DoctorCheck :=
  [ match bs_registry backends with RB_Memory => check "redis" Skip | RB_Redis url => probe "redis" url 6379 end;
    match bs_store backends with
    | SB_Memory => check "store" Skip
    | SB_Postgres url => probe "postgres" url 5432
    | SB_S3 endpoint _ _ _ => probe "s3" endpoint 443
    end;
    match bs_accounting backends with
    | AB_Disabled => check "accounting" Skip
    | AB_Postgres url => probe "accounting" url 5432
    end ].

(** Some of the three paths and not all. *)
Definition partial_material (sys : Surroundings) : list DoctorCheck :=
  let present := tls_paths_present sys in
  let set := length (base.filter (λ p, p.2 = true) present) in
  if (0 <? set)%nat && (set <? length present)%nat then [check "tls material" Warn] else [].

Definition tls_check (mode : Mode) (auth : AuthMode) (material : option TlsMaterial) : DoctorCheck :=
  check "tls" (match resolve_server_tls build_tls mode auth material with
               | Ok (Some _) => Pass
               | Ok None => if bool_decide (auth = Mtls) then Warn else Skip
               | _ => Fails
               end).

Definition jwt_check (mode : Mode) (auth : AuthMode) (jwt_key : option JwtKeyMaterial) : DoctorCheck :=
  check "jwt key" (match validate_jwt_startup mode auth jwt_key with
                   | Ok _ => if negb (bool_decide (auth = Jwt)) then Skip
                             else if bool_decide (is_Some jwt_key) then Pass else Warn
                   | _ => Fails
                   end).

Definition doctor_checks (sys : Surroundings) (r : Resolution) : outcome CliError (list DoctorCheck) :=
  let config := r_config r in
  let mode := cfg_mode config in
  let auth := getv config P_auth in
  backends ← map_err CliServerEnv (backend_selection_from_vars sys);
  material ← map_err CliServerEnv (tls_material_from_vars sys);
  jwt_key ← map_err CliServerEnv (jwt_key_from_env sys show_jwt);
  let '(needs_reference, needs_scores) := sidecar_needs (getv config P_aggregator) in
  Ok ([configuration_check (r_validation r); profiles_check (r_unselected r); backends_check mode backends] ++
      reachability backends ++ partial_material sys ++
      [tls_check mode auth material; jwt_check mode auth jwt_key; sidecar_check sys needs_reference needs_scores]).

Definition failed (checks : list DoctorCheck) : list DoctorCheck :=
  base.filter (λ c, check_status c = Fails) checks.

(** The annotations of the checks; the configuration's findings follow them. *)
Definition check_annotations (checks : list DoctorCheck) : list Annotation :=
  omap (λ c, match check_status c with
             | Fails => Some {| an_level := "error"; an_message := check_name c |}
             | Warn => Some {| an_level := "warning"; an_message := check_name c |}
             | _ => None
             end) checks.

Definition finding_annotations (v : Validation) : list Annotation :=
  map (λ f, {| an_level := match severity f with SevError => "error" | SevWarning => "warning" end;
               an_message := Validate.parameter f |}) (errors v ++ warnings v).

Definition doctor_report (r : Resolution) (checks : list DoctorCheck) : Report (list DoctorCheck) :=
  {| body := checks;
     exit_code := if bool_decide (length (failed checks) = 0%nat) then 0 else EXIT_NEGATIVE;
     annotations := check_annotations checks ++ finding_annotations (r_validation r) |}.

Definition doctor (sys : Surroundings) (r : Resolution) : outcome CliError (Report (list DoctorCheck)) :=
  checks ← doctor_checks sys r; Ok (doctor_report r checks).
(** ** The host and the port *)

Lemma split_once_first pat c a b : c ∉ a → split_once (c :: pat) (a ++ (c :: pat) ++ b) = Some (a, b).
Proof.
  induction a as [|x a IH]; intros Hc.
  - change ([] ++ (c :: pat) ++ b) with ((c :: pat) ++ b).
    destruct ((c :: pat) ++ b) as [|y l] eqn:Hl; [done|]. cbn [split_once]. rewrite <-Hl.
    by rewrite take_app_length, decide_True, drop_app_length.
  - apply not_elem_of_cons in Hc as [Hx Hc]. simpl. rewrite decide_False by (intros [= ]; congruence).
    simpl in IH. by rewrite IH.
Qed.

Lemma split_once_none c l : c ∉ l → split_once [c] l = None.
Proof.
  induction l as [|x l IH]; intros Hc; [done|]. apply not_elem_of_cons in Hc as [Hx Hc]. simpl.
  rewrite decide_False by (intros [= ]; congruence). by rewrite IH.
Qed.

Lemma rsplit_once_last c a b : c ∉ b → rsplit_once c (a ++ c :: b) = Some (a, b).
Proof.
  intros Hc. unfold rsplit_once. rewrite rev_app_distr. simpl. rewrite <-app_assoc.
  rewrite (split_once_first [] c (rev b) (rev a)); [by simpl; rewrite !rev_involutive|].
  intros H. apply Hc. rewrite <-(rev_involutive b). by apply list_elem_of_In, in_rev; rewrite rev_involutive, <-list_elem_of_In.
Qed.

Lemma rsplit_once_none c l : c ∉ l → rsplit_once c l = None.
Proof.
  intros Hc. unfold rsplit_once. rewrite split_once_none; [done|].
  intros H. by apply Hc, list_elem_of_In, in_rev, list_elem_of_In.
Qed.

Lemma before_any_app stops a rest :
  Forall (λ c, c ∉ stops) a → (∀ c, head rest = Some c → c ∈ stops) → before_any stops (a ++ rest) = a.
Proof.
  intros Ha Hr. induction Ha as [|c a Hc _ IH]; simpl.
  - destruct rest as [|c rest]; [done|]. simpl. rewrite decide_True; [done|by apply Hr].
  - rewrite decide_False by done. by rewrite IH.
Qed.

Lemma parse_u16_decimal port : 0 ≤ port < 65536 → parse_u16 (u64_to_string port) = Some port.
Proof.
  intros Hp. unfold parse_u16. rewrite parse_u64_to_string by (unfold is_u64; lia). simpl.
  by rewrite (proj2 (Z.leb_le port 65535)) by lia.
Qed.

Definition url_delimiters : chars := ["/"; "?"; "@"; ":"; "["; "]"]%char.

Lemma digit_not_delimiter d : 0 ≤ d < 10 → digit d ∉ url_delimiters.
Proof.
  intros Hd.
  assert (Hin : d ∈ [0; 1; 2; 3; 4; 5; 6; 7; 8; 9]).
  { assert (Hc : d = 0 ∨ d = 1 ∨ d = 2 ∨ d = 3 ∨ d = 4 ∨ d = 5 ∨ d = 6 ∨ d = 7 ∨ d = 8 ∨ d = 9) by lia.
    rewrite !elem_of_cons, elem_of_nil. naive_solver. }
  assert (Hall : Forall (λ d, digit d ∉ url_delimiters) [0; 1; 2; 3; 4; 5; 6; 7; 8; 9]).
  { apply (bool_decide_unpack _). vm_compute. exact Logic.I. }
  rewrite Forall_forall in Hall. by apply Hall.
Qed.

Lemma port_not_delimiter port : 0 ≤ port → Forall (λ c, c ∉ url_delimiters) (u64_to_string port).
Proof.
  intros Hp. eapply Forall_impl; [by apply decimal_digits|]. intros c (d & Hd & ->). by apply digit_not_delimiter.
Qed.
(** What follows the authority of a URL: nothing, a path or a query. *)
Definition url_tail (rest : chars) : Prop := ∀ c, head rest = Some c → c ∈ ["/"; "?"]%char.

Definition credentials (user : option chars) : chars := match user with Some u => u ++ ["@"%char] | None => [] end.

Lemma not_in_stops c : c ∉ url_delimiters → c ∉ ["/"; "?"]%char.
Proof. unfold url_delimiters. rewrite !not_elem_of_cons. naive_solver. Qed.

Lemma authority_of_url scheme user authority rest :
  ":"%char ∉ scheme → Forall (λ c, c ∉ ["/"; "?"]%char) (default [] user) →
  Forall (λ c, c ∉ ["/"; "?"]%char) authority → "@"%char ∉ authority → url_tail rest →
  authority_of (scheme ++ SCHEME_END ++ credentials user ++ authority ++ rest) = authority.
Proof.
  intros Hs Hu Ha Hat Hr. unfold authority_of. change SCHEME_END with [":"; "/"; "/"]%char.
  rewrite (split_once_first ["/"; "/"]%char ":"%char scheme (credentials user ++ authority ++ rest)) by done.
  rewrite (assoc_L (++)), before_any_app; [..|done].
  - destruct user as [u|]; simpl; [|by rewrite rsplit_once_none]. rewrite <-app_assoc. simpl. by rewrite rsplit_once_last.
  - apply Forall_app. split; [|done]. destruct user as [u|]; simpl; [|constructor].
    apply Forall_app. split; [done|]. constructor; [|constructor]. rewrite !not_elem_of_cons. split_and!; [done..|].
    by apply not_elem_of_nil.
Qed.

(** The connection strings these variables hold are read as what they say:
    scheme, credentials and path are passed over, whatever is in them, and the
    host and port come back as written. *)
Lemma host_port_of_url scheme user host port rest default_port :
  ":"%char ∉ scheme → Forall (λ c, c ∉ ["/"; "?"]%char) (default [] user) →
  host ≠ [] → Forall (λ c, c ∉ url_delimiters) host → 0 ≤ port < 65536 → url_tail rest →
  host_port (scheme ++ SCHEME_END ++ credentials user ++ (host ++ ":"%char :: u64_to_string port) ++ rest) default_port =
    Some (host, port).
Proof.
  intros Hs Hu Hne Hh Hp Hr. pose proof (port_not_delimiter port ltac:(lia)) as Hd.
  assert (Hnot : ∀ c l, Forall (λ c, c ∉ url_delimiters) l → c ∈ url_delimiters → c ∉ l).
  { intros c l Hl Hc Hin. rewrite Forall_forall in Hl. by apply (Hl c). }
  assert (Hat : "@"%char ∉ host ++ ":"%char :: u64_to_string port).
  { rewrite not_elem_of_app, not_elem_of_cons. split_and!; [|done|]; (apply Hnot; [done|]);
      unfold url_delimiters; rewrite !elem_of_cons; tauto. }
  unfold host_port. rewrite authority_of_url; [|done..| |done|done].
  2:{ apply Forall_app. split; [|constructor; [rewrite !not_elem_of_cons; split_and!; [done..|apply not_elem_of_nil]|]];
        (eapply Forall_impl; [done|]; apply not_in_stops). }
  destruct host as [|c host]; [done|]. simpl app.
  assert (Hc : c ≠ "["%char).
  { apply Forall_cons in Hh as [Hh _]. intros ->. apply Hh. unfold url_delimiters. rewrite !elem_of_cons. tauto. }
  unfold Store.strip_prefix. simpl take. rewrite decide_False by (intros [= ]; congruence).
  change (c :: host ++ ":"%char :: u64_to_string port) with ((c :: host) ++ ":"%char :: u64_to_string port).
  rewrite rsplit_once_last; [simpl; by rewrite parse_u16_decimal|].
  apply Hnot; [done|]. unfold url_delimiters. rewrite !elem_of_cons. tauto.
Qed.

(** ** Against the server *)

Definition fails_at (name : string) (checks : list DoctorCheck) : bool :=
  existsb (λ c, String.eqb name (check_name c) && bool_decide (check_status c = Fails)) checks.

Lemma fails_at_app name checks checks' :
  fails_at name (checks ++ checks') = fails_at name checks || fails_at name checks'.
Proof. apply existsb_app. Qed.

Lemma fails_at_other name checks : name ∉ map check_name checks → fails_at name checks = false.
Proof.
  induction checks as [|c checks IH]; [done|]. simpl. rewrite not_elem_of_cons. intros [Hn Hc].
  rewrite (proj2 (String.eqb_neq _ _) Hn). simpl. by apply IH.
Qed.

Lemma no_failure_anywhere checks name : failed checks = [] → fails_at name checks = false.
Proof.
  unfold failed. induction checks as [|c checks IH]; [done|]. rewrite filter_cons. simpl. case_decide; [done|].
  intros Hf. rewrite bool_decide_false by done. rewrite andb_false_r. by apply IH.
Qed.

Definition probed_names : list string :=
  ["redis"; "store"; "postgres"; "s3"; "accounting"; "tls material"]%string.

Lemma probe_name name url port : check_name (probe name url port) = name.
Proof. unfold probe. by destruct (host_port _ _) as [[]|]. Qed.

Lemma probes_elsewhere sys backends name :
  name ∉ probed_names → fails_at name (reachability backends ++ partial_material sys) = false.
Proof.
  intros Hn. apply fails_at_other. rewrite map_app, not_elem_of_app. unfold probed_names in Hn.
  rewrite !not_elem_of_cons in Hn. destruct Hn as (? & ? & ? & ? & ? & ? & _). split.
  - unfold reachability. cbn [map]. rewrite !not_elem_of_cons. split_and!; [..|by apply not_elem_of_nil].
    + destruct (bs_registry backends); rewrite ?probe_name; assumption.
    + destruct (bs_store backends); rewrite ?probe_name; assumption.
    + destruct (bs_accounting backends); rewrite ?probe_name; assumption.
  - unfold partial_material. cbv zeta. destruct (_ && _); cbn [map]; rewrite ?not_elem_of_cons;
      [split; [assumption|]|]; apply not_elem_of_nil.
Qed.

Lemma sidecar_needs_spec name :
  sidecar_needs name = (String.eqb name "fltrust", String.eqb name "zeno").
Proof.
  assert (Hft : is_ok (build_aggregator ln powf sort_unordered "fltrust" AggregatorParams_default) = true) by reflexivity.
  assert (Hz : is_ok (build_aggregator ln powf sort_unordered "zeno" AggregatorParams_default) = true) by reflexivity.
  assert (Hno : is_ok (build_aggregator ln powf sort_unordered name AggregatorParams_default) = false →
                (false, false) = (String.eqb name "fltrust", String.eqb name "zeno")).
  { intros H. destruct (String.eqb_spec name "fltrust") as [->|_]; [by rewrite Hft in H|].
    by destruct (String.eqb_spec name "zeno") as [->|_]; [rewrite Hz in H|]. }
  unfold sidecar_needs. destruct (build_aggregator _ _ _ name _) as [agg|e|] eqn:Hb; [|by apply Hno..].
  by destruct (sidecar_needs_exact _ _ _ _ _ _ agg Hb (reached_start agg)) as (-> & -> & _).
Qed.
Lemma configuration_fails v : fails_at "configuration" [configuration_check v] = bool_decide (errors v ≠ []).
Proof. unfold configuration_check. simpl. destruct (errors v), (warnings v); done. Qed.

Lemma backends_fails mode b :
  fails_at "backends" [backends_check mode b] = negb (is_ok (validate_production_backends mode b)).
Proof. unfold backends_check. simpl. by destruct (validate_production_backends mode b) as [[]| |]. Qed.

Lemma tls_fails mode auth material :
  fails_at "tls" [tls_check mode auth material] = negb (is_ok (resolve_server_tls build_tls mode auth material)).
Proof.
  unfold tls_check. simpl. destruct (resolve_server_tls _ _ _ _) as [[t|]|e|]; try done. by case_match.
Qed.

Lemma jwt_fails mode auth key :
  fails_at "jwt key" [jwt_check mode auth key] = negb (is_ok (validate_jwt_startup mode auth key)).
Proof.
  unfold jwt_check. simpl. destruct (validate_jwt_startup _ _ _) as [[]|e|]; try done. repeat case_match; done.
Qed.

(** The checks a report is made of, by name. *)
Lemma doctor_checks_inv sys r checks :
  doctor_checks sys r = Ok checks →
  let c := r_config r in
  ∃ b material key, backend_selection_from_vars sys = Ok b ∧ tls_material_from_vars sys = Ok material ∧
    jwt_key_from_env sys show_jwt = Ok key ∧
    fails_at "configuration" checks = bool_decide (errors (r_validation r) ≠ []) ∧
    fails_at "backends" checks = negb (is_ok (validate_production_backends (cfg_mode c) b)) ∧
    fails_at "tls" checks = negb (is_ok (resolve_server_tls build_tls (cfg_mode c) (getv c P_auth) material)) ∧
    fails_at "jwt key" checks = negb (is_ok (validate_jwt_startup (cfg_mode c) (getv c P_auth) key)) ∧
    fails_at "sidecar" checks =
      fails_at "sidecar" [sidecar_check sys (String.eqb (getv c P_aggregator) "fltrust")
                                            (String.eqb (getv c P_aggregator) "zeno")].
Proof.
  unfold doctor_checks. intros (b & Hb%map_err_ok & H)%bind_ok_inv. apply bind_ok_inv in H as (m & Hm%map_err_ok & H).
  apply bind_ok_inv in H as (k & Hk%map_err_ok & H). rewrite sidecar_needs_spec in H. cbv beta iota in H.
  injection H as <-. exists b, m, k. do 3 (split; [done|]).
  assert (Hsplit : ∀ name, name ∉ probed_names →
    fails_at name ([configuration_check (r_validation r); profiles_check (r_unselected r);
                    backends_check (cfg_mode (r_config r)) b] ++ reachability b ++ partial_material sys ++
                   [tls_check (cfg_mode (r_config r)) (getv (r_config r) P_auth) m;
                    jwt_check (cfg_mode (r_config r)) (getv (r_config r) P_auth) k;
                    sidecar_check sys (String.eqb (getv (r_config r) P_aggregator) "fltrust")
                                      (String.eqb (getv (r_config r) P_aggregator) "zeno")]) =
    fails_at name [configuration_check (r_validation r)] || fails_at name [profiles_check (r_unselected r)] ||
    fails_at name [backends_check (cfg_mode (r_config r)) b] ||
    fails_at name [tls_check (cfg_mode (r_config r)) (getv (r_config r) P_auth) m] ||
    fails_at name [jwt_check (cfg_mode (r_config r)) (getv (r_config r) P_auth) k] ||
    fails_at name [sidecar_check sys (String.eqb (getv (r_config r) P_aggregator) "fltrust")
                                     (String.eqb (getv (r_config r) P_aggregator) "zeno")]).
  { intros name Hn. rewrite fails_at_app, (assoc_L (++)), fails_at_app, probes_elsewhere by done.
    unfold fails_at. simpl. rewrite !orb_false_r. by rewrite <-!orb_assoc. }
  assert (Hside : ∀ name, name ≠ "sidecar"%string → fails_at name [sidecar_check sys
      (String.eqb (getv (r_config r) P_aggregator) "fltrust") (String.eqb (getv (r_config r) P_aggregator) "zeno")] = false).
  { intros name Hn. apply fails_at_other. simpl. rewrite not_elem_of_cons. split; [|apply not_elem_of_nil].
    unfold sidecar_check. by repeat case_match. }
  rewrite !Hsplit by (unfold probed_names; rewrite !not_elem_of_cons; split_and!; [done..|apply not_elem_of_nil]).
  rewrite !(Hside "configuration"%string), !(Hside "backends"%string), !(Hside "tls"%string), !(Hside "jwt key"%string) by done.
  rewrite configuration_fails, backends_fails, tls_fails, jwt_fails.
  split_and!; simpl; rewrite ?orb_false_r; done.
Qed.
Lemma material_verdict registry sys c b material key :
  backend_selection_from_vars sys = Ok b → tls_material_from_vars sys = Ok material →
  jwt_key_from_env sys show_jwt = Ok key →
  is_ok (prepare_material registry show_jwt sys build_tls c (cfg_mode c)) =
    negb (bool_decide (errors (validated registry c) ≠ []) ||
          negb (is_ok (resolve_server_tls build_tls (cfg_mode c) (getv c P_auth) material)) ||
          negb (is_ok (validate_jwt_startup (cfg_mode c) (getv c P_auth) key))).
Proof.
  intros _ Hm Hk. unfold prepare_material. rewrite Hm, Hk. destruct (errors (validated registry c)) as [|f fs]; [|done].
  simpl. destruct (resolve_server_tls _ _ _ _) as [t|e|]; simpl; [|done..].
  by destruct (validate_jwt_startup _ _ _) as [[]|e|].
Qed.

Context `{N : Notify}.

Notation AppState :=
  (AppState N (AnyRegistry Rd) (AnyStore Pg S3) (AnyNodeAllowlist Al) BoxedAggregator Pg T JwtKeyMaterial).

(** The sidecar serves what is asked of it, but for the dimension of its model. *)
Definition sidecar_serves (sys : Surroundings) (state : AppState) (dim : Z) : Prop :=
  match connect_trusted_reference sys net state dim with
  | Ok _ => True
  | Err e => ∃ addr served, e = ServeSidecar (WrongModelDimension addr served dim)
  | Panic => False
  end.

(** An answer on each side, both yes or both no. *)
Ltac verdict :=
  solve [ simpl; split; intros H;
          [ first [discriminate H | exact Logic.I | do 2 eexists; reflexivity]
          | first [reflexivity | destruct H as (? & ? & H); discriminate H | destruct H] ] ].

Lemma sidecar_verdict sys (state : AppState) params dim :
  let name := getv (st_config state) P_aggregator in
  build_aggregator ln powf sort_unordered name params = Ok (st_aggregator state) →
  requires_trusted_reference (st_aggregator state) || requires_candidate_scores (st_aggregator state) = true →
  fails_at "sidecar" [sidecar_check sys (String.eqb name "fltrust") (String.eqb name "zeno")] = false ↔
  sidecar_serves sys state dim.
Proof.
  intros name Hb. destruct (sidecar_needs_exact _ _ _ _ _ _ _ Hb (reached_start _)) as (Hr & Hs & _).
  unfold sidecar_serves, connect_trusted_reference, sidecar_check. rewrite Hr, Hs.
  destruct (String.eqb name "fltrust"), (String.eqb name "zeno"); intros Ha; try discriminate Ha; cbn [negb andb];
    (destruct (trusted_reference_addr sys) as [addr|]; [|verdict]);
    (destruct (sidecar net addr) as [t|e|]; [|verdict..]); cbn [map_err mbind outcome_bind];
    (destruct (describe net t) as [t' [caps|e|]]; cbn [map_err mbind outcome_bind snd]; [|verdict..]);
    destruct (supports_reference_update caps), (supports_scoring caps); cbn [negb andb orb]; try verdict;
    (destruct (model_dim caps) as [d|]; [|verdict]); destruct (d =? dim); verdict.
Qed.

(** C34: [cflux doctor] and the server agree.  Of the configuration the server
    would run, the checks named configuration, tls and jwt key all pass exactly
    when the server would get through its own; backends passes exactly when the
    selection is permitted; and where the method asks a sidecar, sidecar passes
    exactly when the server would accept it, the dimension of its model apart.
    Exit code 0 means that no check failed. *)
Theorem doctor_agrees_with_start registry sys r report
    (Hval : r_validation r = validated registry (r_config r)) (Hd : doctor sys r = Ok report) :
  let c := r_config r in
  (fails_at "configuration" (body report) || fails_at "tls" (body report) || fails_at "jwt key" (body report) = false ↔
   is_ok (prepare_material registry show_jwt sys build_tls c (cfg_mode c)) = true) ∧
  (fails_at "backends" (body report) = false ↔
   ∃ b, backend_selection_from_vars sys = Ok b ∧ validate_production_backends (cfg_mode c) b = Ok ()) ∧
  (∀ (state : AppState) params dim,
     st_config state = c →
     build_aggregator ln powf sort_unordered (getv c P_aggregator) params = Ok (st_aggregator state) →
     requires_trusted_reference (st_aggregator state) || requires_candidate_scores (st_aggregator state) = true →
     fails_at "sidecar" (body report) = false ↔ sidecar_serves sys state dim) ∧
  (exit_code report = 0 → ∀ name, fails_at name (body report) = false).
Proof.
  intros c. unfold doctor in Hd. apply bind_ok_inv in Hd as (checks & Hc & [= <-]). simpl.
  destruct (doctor_checks_inv _ _ _ Hc) as (b & m & k & Hb & Hm & Hk & -> & -> & -> & -> & ->). fold c. split; [|split; [|split]].
  - rewrite (material_verdict registry sys c b m k Hb Hm Hk), negb_true_iff, Hval. done.
  - rewrite negb_false_iff. destruct (validate_production_backends (cfg_mode c) b) as [[]|e|] eqn:Hv; split; try done;
      [by eexists|intros (b' & Hb' & Hv')..]; rewrite Hb in Hb'; injection Hb' as <-; by rewrite Hv in Hv'.
  - intros state params dim Hst. rewrite <-Hst. apply sidecar_verdict.
  - case_bool_decide as Hf; [|done]. intros _ name. apply no_failure_anywhere. by apply nil_length_inv.
Qed.
End doctor.
