(* ===== verification/DemoClients.v ===== *)
(** * The demo clients ([conflux-federation/src/demo.rs])

    A stub, least squares and logistic regression over three features, on data a
    linear congruential generator draws.  [ln] and [exp] are parameters.  Every
    client writes the model it is handed into a slot all of them share; training
    gives that slot's new value and, apart from it, the result. *)

From S2P Require Import Prelude Float Wire Submission Admin Node Client.

Open Scope Z_scope.

(** ** The generator *)

Definition LCG_MUL : Z := 6364136223846793005.
Definition LCG_ADD : Z := 1442695040888963407.

Definition wrapping_mul (a b : Z) : Z := (a * b) mod 2 ^ 64.

Definition Lcg_new (seed : Z) : Z := u64_wrapping_add (wrapping_mul seed LCG_MUL) 1.

Definition Lcg_step (state : Z) : Z := u64_wrapping_add (wrapping_mul state LCG_MUL) LCG_ADD.

Definition Lcg_value (state : Z) : f32 :=
  (f32_of_Z (Z.shiftr state 33) / f32_of_Z (2 ^ 30) - f32_one)%f32.

Definition Lcg_next (state : Z) : Z * f32 := let state := Lcg_step state in (state, Lcg_value state).

(** ** The data *)

Definition SAMPLES : nat := 120.
Definition LOCAL_STEPS : nat := 60.
Definition FEATURES : nat := 3.
Definition HELD_OUT : nat := 400.

Notation Sample := (f32 * f32 * f32)%type.

Definition two : f32 := f32_of_Z 2.

Definition sample (state : Z) : Z * Sample :=
  let '(s, a) := Lcg_next state in
  let '(s, b) := Lcg_next s in
  let '(s, c) := Lcg_next s in
  (s, (a * two, b * two, c * two)%f32).

(** [x[frozen] = v]; three features, so a greater index panics. *)
Definition set_feature (frozen : nat) (v : f32) (x : Sample) : outcome Empty_set Sample :=
  let '(a, b, c) := x in
  match frozen with
  | 0%nat => Ok (v, b, c) | 1%nat => Ok (a, v, c) | 2%nat => Ok (a, b, v) | _ => Panic
  end.

Fixpoint frozen_samples (n frozen : nat) (state : Z) : outcome Empty_set (list Sample) :=
  match n with
  | O => Ok []
  | S n =>
      let '(s, x) := sample state in
      let '(s, r) := Lcg_next s in
      x ← set_feature frozen (f32_one + r * f32_lit 2 100)%f32 x;
      xs ← frozen_samples n frozen s;
      Ok (x :: xs)
  end.

Definition features (frozen : nat) (seed : Z) : outcome Empty_set (list Sample) :=
  frozen_samples SAMPLES frozen (Lcg_new seed).

Fixpoint samples (n : nat) (state : Z) : list Sample :=
  match n with O => [] | S n => let '(s, x) := sample state in x :: samples n s end.

Definition held_out : list Sample := samples HELD_OUT (Lcg_new 9999).

Definition TRUE_W : Sample := (f32_lit 15 10, f32_of_Z (-2), f32_lit 5 10).
Definition TRUE_B : f32 := f32_of_Z 3.

Definition dot (w x : Sample) : f32 :=
  let '(w0, w1, w2) := w in let '(x0, x1, x2) := x in (w0 * x0 + w1 * x1 + w2 * x2)%f32.

Definition truth (x : Sample) : f32 := (dot TRUE_W x + TRUE_B)%f32.

Fixpoint noisy_targets (xs : list Sample) (state : Z) : list f32 :=
  match xs with
  | [] => []
  | x :: xs => let '(s, r) := Lcg_next state in (truth x + r * f32_lit 1 10)%f32 :: noisy_targets xs s
  end.

(** ** The clients *)

Record Shard := { xs : list Sample; ys : list f32 }.

Inductive DemoClient : Type :=
  | Stub
  | LinReg (shard : Shard)
  | LogReg (shard : Shard).

Definition LinReg_for_client (index : nat) : outcome Empty_set DemoClient :=
  xs ← features (index mod FEATURES) (1000 + Z.of_nat index);
  Ok (LinReg {| xs := xs; ys := noisy_targets xs (Lcg_new (7000 + Z.of_nat index)) |}).

Definition LogReg_for_client (index : nat) : outcome Empty_set DemoClient :=
  xs ← features (index mod FEATURES) (2000 + Z.of_nat index);
  Ok (LogReg {| xs := xs;
                ys := map (λ x, if (f32_of_Z 3 <? truth x)%f32 then f32_one else f32_zero) xs |}).

Definition Gradient : Type := (f32 * f32 * f32 * f32)%type.
Definition no_gradient : Gradient := (f32_zero, f32_zero, f32_zero, f32_zero).

(** [p[0]*x[0] + p[1]*x[1] + p[2]*x[2] + p[3]]: an index past the model's end
    panics. *)
Definition linear (p : list f32) (x : Sample) : outcome Empty_set f32 :=
  match p with
  | p0 :: p1 :: p2 :: p3 :: _ => Ok (dot (p0, p1, p2) x + p3)%f32
  | _ => Panic
  end.

(** [grad[j] += scale * xj] and [grad[3] += last]. *)
Definition accumulate (scale last : f32) (x : Sample) (grad : Gradient) : Gradient :=
  let '(x0, x1, x2) := x in let '(g0, g1, g2, g3) := grad in
  (g0 + scale * x0, g1 + scale * x1, g2 + scale * x2, g3 + last)%f32.

(** [for (w, g) in p.iter_mut().zip(grad) { *w -= rate * g / n; }] *)
Definition descend (rate n : f32) (p : list f32) (grad : Gradient) : list f32 :=
  let '(g0, g1, g2, g3) := grad in
  zip_with (λ w g, (w - rate * g / n)%f32) p [g0; g1; g2; g3] ++ drop 4 p.

Fixpoint linreg_gradient (p : list f32) (data : list (Sample * f32)) (grad : Gradient) : outcome Empty_set Gradient :=
  match data with
  | [] => Ok grad
  | (x, y) :: data =>
      z ← linear p x;
      let error := (z - y)%f32 in
      linreg_gradient p data (accumulate (two * error) (two * error) x grad)
  end.

Fixpoint linreg_steps (k : nat) (self : Shard) (p : list f32) : outcome Empty_set (list f32) :=
  match k with
  | O => Ok p
  | S k =>
      grad ← linreg_gradient p (zip (xs self) (ys self)) no_gradient;
      linreg_steps k self (descend (f32_lit 5 100) (f32_of_Z (Z.of_nat (length (xs self)))) p grad)
  end.

Section logistic.
Context (exp : f64 → f64) (ln : f32 → f32).

Definition sigmoid (z : f32) : f32 :=
  f32_of_f64 (f64_div (f64_of_Z 1) (f64_add (f64_of_Z 1) (exp (SFopp (f64_of_f32 z))))).

Definition LOSS_FLOOR : f32 := f32_lit 1 10000000.

Fixpoint logreg_gradient (p : list f32) (data : list (Sample * f32)) (grad : Gradient) (loss : f32)
    : outcome Empty_set (Gradient * f32) :=
  match data with
  | [] => Ok (grad, loss)
  | (x, y) :: data =>
      z ← linear p x;
      let pred := sigmoid z in
      let error := (pred - y)%f32 in
      let loss := (loss - (y * ln (f32_max pred LOSS_FLOOR)
                           + (f32_one - y) * ln (f32_max (f32_one - pred) LOSS_FLOOR)))%f32 in
      logreg_gradient p data (accumulate error error x grad) loss
  end.

Fixpoint logreg_steps (k : nat) (self : Shard) (p : list f32) (loss : f32) : outcome Empty_set (list f32 * f32) :=
  match k with
  | O => Ok (p, loss)
  | S k =>
      '(grad, loss) ← logreg_gradient p (zip (xs self) (ys self)) no_gradient f32_zero;
      logreg_steps k self (descend (f32_lit 5 10) (f32_of_Z (Z.of_nat (length (xs self)))) p grad) loss
  end.

(** [ClientApp::train]: the shared slot's new value, and the result. *)
Definition demo_train (self : DemoClient) (weights : list f32) : list f32 * outcome Empty_set TrainResult :=
  (weights,
   match self with
   | Stub => Ok (TrainResult_new (replicate (length weights) (f32_lit 5 10)) 1)
   | LinReg shard =>
       p ← linreg_steps LOCAL_STEPS shard weights;
       Ok (with_local_steps (Z.of_nat LOCAL_STEPS) (TrainResult_new p (Z.of_nat (length (xs shard)))))
   | LogReg shard =>
       '(p, loss) ← logreg_steps LOCAL_STEPS shard weights f32_zero;
       Ok (with_local_loss (loss / f32_of_Z (Z.of_nat (length (xs shard))))%f32
             (with_local_steps (Z.of_nat LOCAL_STEPS) (TrainResult_new p (Z.of_nat (length (xs shard))))))
   end).
End logistic.

(** ** Scores *)

Record DemoScore := { label : string; score_value : f32; lower_is_better : bool }.

Definition squared_error (params : list f32) (x : Sample) : outcome Empty_set f32 :=
  pred ← linear params x; Ok ((pred - truth x) * (pred - truth x))%f32.

Definition linreg_score (params : list f32) : outcome Empty_set DemoScore :=
  errors ← collect (squared_error params) held_out;
  Ok {| label := "held-out MSE"; score_value := (f32_sum errors / f32_of_Z (Z.of_nat (length held_out)))%f32;
        lower_is_better := true |}.

Definition agrees (params : list f32) (x : Sample) : outcome Empty_set bool :=
  pred ← linear params x;
  Ok (Bool.eqb (f32_of_Z 3 <? truth x)%f32 (f32_zero <? pred)%f32).

Definition logreg_score (params : list f32) : outcome Empty_set DemoScore :=
  right ← collect (agrees params) held_out;
  Ok {| label := "held-out accuracy";
        score_value := (f32_of_Z (Z.of_nat (length (base.filter (λ b, b = true) right)))
                        / f32_of_Z (Z.of_nat (length held_out)))%f32;
        lower_is_better := false |}.

(** ** The table *)

Record DemoModel := {
  model_name : string;
  weights_dim : nat;
  make : nat → outcome Empty_set DemoClient;
  score : option (list f32 → outcome Empty_set DemoScore);
}.

Definition MODELS : list DemoModel :=
  [ {| model_name := "stub"; weights_dim := 4; make _ := Ok Stub; score := None |};
    {| model_name := "linreg"; weights_dim := 4; make := LinReg_for_client; score := Some linreg_score |};
    {| model_name := "logreg"; weights_dim := 4; make := LogReg_for_client; score := Some logreg_score |} ].

Definition lookup (name : string) : option DemoModel := find (λ m, String.eqb (model_name m) name) MODELS.

Definition names : list string := map model_name MODELS.

(** ** Facts *)

Lemma descend_length rate n p grad : (4 ≤ length p)%nat → length (descend rate n p grad) = length p.
Proof.
  destruct grad as [[[g0 g1] g2] g3]. intros Hp. unfold descend. rewrite length_app, length_zip_with, length_drop.
  simpl. lia.
Qed.

Lemma descend_tail rate n p grad j : (4 ≤ j)%nat → descend rate n p grad !! j = p !! j.
Proof.
  destruct grad as [[[g0 g1] g2] g3]. intros Hj. unfold descend.
  destruct (decide (4 ≤ length p)%nat) as [Hp|Hp].
  - rewrite lookup_app_r, length_zip_with; simpl; [|rewrite length_zip_with; simpl; lia].
    rewrite lookup_drop. f_equal. lia.
  - rewrite drop_ge by lia. rewrite app_nil_r, !lookup_ge_None_2; [done|lia|rewrite length_zip_with; simpl; lia].
Qed.

Lemma linear_ok p x : (4 ≤ length p)%nat → ∃ z, linear p x = Ok z.
Proof. destruct p as [|? [|? [|? [|? p]]]]; simpl; intros; try lia. by eexists. Qed.

Lemma linear_panics p x : (length p < 4)%nat → linear p x = Panic.
Proof. destruct p as [|? [|? [|? [|? p]]]]; simpl; intros; done || lia. Qed.

Lemma linreg_gradient_ok p data grad : (4 ≤ length p)%nat → ∃ g, linreg_gradient p data grad = Ok g.
Proof.
  intros Hp. revert grad. induction data as [|[x y] data IH]; intros grad; simpl; [by eexists|].
  destruct (linear_ok p x Hp) as [z ->]. apply IH.
Qed.

(** The steps of a regression keep the model's length and every weight past the
    fourth. *)
Definition keeps_tail (p p' : list f32) : Prop := length p' = length p ∧ ∀ j, (4 ≤ j)%nat → p' !! j = p !! j.

Lemma keeps_tail_descend rate n p q grad : (4 ≤ length p)%nat → keeps_tail (descend rate n p grad) q → keeps_tail p q.
Proof.
  intros Hp [Hl Ht]. split; [by rewrite Hl, descend_length|]. intros j Hj. by rewrite Ht, descend_tail.
Qed.

Lemma linreg_steps_ok k self p : (4 ≤ length p)%nat → ∃ p', linreg_steps k self p = Ok p' ∧ keeps_tail p p'.
Proof.
  revert p. induction k as [|k IH]; intros p Hp; simpl; [by exists p|].
  destruct (linreg_gradient_ok p (zip (xs self) (ys self)) no_gradient Hp) as [g ->]. simpl.
  destruct (IH (descend (f32_lit 5 100) (f32_of_Z (Z.of_nat (length (xs self)))) p g)) as (p' & -> & H);
    [by rewrite descend_length|]. exists p'. split; [done|]. by eapply keeps_tail_descend.
Qed.

Section logistic_facts.
Context (exp : f64 → f64) (ln : f32 → f32).

Lemma logreg_gradient_ok p data grad loss : (4 ≤ length p)%nat → ∃ g, logreg_gradient exp ln p data grad loss = Ok g.
Proof.
  intros Hp. revert grad loss. induction data as [|[x y] data IH]; intros grad loss; simpl; [by eexists|].
  destruct (linear_ok p x Hp) as [z ->]. apply IH.
Qed.

Lemma logreg_steps_ok k self p loss :
  (4 ≤ length p)%nat → ∃ p' loss', logreg_steps exp ln k self p loss = Ok (p', loss') ∧ keeps_tail p p'.
Proof.
  revert p loss. induction k as [|k IH]; intros p loss Hp; simpl; [by exists p, loss|].
  destruct (logreg_gradient_ok p (zip (xs self) (ys self)) no_gradient f32_zero Hp) as [[g l] ->]. simpl.
  destruct (IH (descend (f32_lit 5 10) (f32_of_Z (Z.of_nat (length (xs self)))) p g) l) as (p' & loss' & -> & H);
    [by rewrite descend_length|]. exists p', loss'. split; [done|]. by eapply keeps_tail_descend.
Qed.
End logistic_facts.

Lemma frozen_samples_ok n frozen state : (frozen < 3)%nat → ∃ l, frozen_samples n frozen state = Ok l ∧ length l = n.
Proof.
  intros Hf. revert state. induction n as [|n IH]; intros state; [by exists []|].
  cbn [frozen_samples]. destruct (sample state) as [s x]. destruct (Lcg_next s) as [s' r].
  destruct (IH s') as (l & -> & Hl).
  assert (∃ x', set_feature frozen (f32_one + r * f32_lit 2 100)%f32 x = Ok x') as [x' ->].
  { destruct x as [[a b] c]. destruct frozen as [|[|[|]]]; cbn [set_feature]; first [lia | eexists; reflexivity]. }
  simpl. exists (x' :: l). by rewrite <-Hl.
Qed.

Lemma features_ok index seed : ∃ l, features (index mod FEATURES) seed = Ok l ∧ length l = SAMPLES.
Proof. apply frozen_samples_ok. unfold FEATURES. apply Nat.mod_upper_bound. lia. Qed.

Lemma noisy_targets_length l state : length (noisy_targets l state) = length l.
Proof. revert state. induction l as [|x l IH]; intros state; simpl; [done|]. by rewrite IH. Qed.

Lemma LinReg_for_client_ok index :
  ∃ shard, LinReg_for_client index = Ok (LinReg shard) ∧ length (xs shard) = SAMPLES ∧ length (ys shard) = SAMPLES.
Proof.
  unfold LinReg_for_client. destruct (features_ok index (1000 + Z.of_nat index)) as (l & -> & Hl). eexists.
  split; [done|]. cbn [xs ys]. by rewrite noisy_targets_length.
Qed.

Lemma LogReg_for_client_ok index :
  ∃ shard, LogReg_for_client index = Ok (LogReg shard) ∧ length (xs shard) = SAMPLES ∧ length (ys shard) = SAMPLES.
Proof.
  unfold LogReg_for_client. destruct (features_ok index (2000 + Z.of_nat index)) as (l & -> & Hl). eexists.
  split; [done|]. cbn [xs ys]. by rewrite length_map.
Qed.

Lemma collect_total {A B} (f : A → outcome Empty_set B) l : (∀ x, ∃ y, f x = Ok y) → ∃ ys, collect f l = Ok ys.
Proof.
  intros Hf. induction l as [|x l [ys IH]]; simpl; [by eexists|]. destruct (Hf x) as [y ->]. simpl. rewrite IH. by eexists.
Qed.

Lemma linreg_score_ok params : (4 ≤ length params)%nat → ∃ s, linreg_score params = Ok s.
Proof.
  intros Hp. unfold linreg_score. destruct (collect_total (squared_error params) held_out) as [l ->]; [|by eexists].
  intros x. unfold squared_error. destruct (linear_ok params x Hp) as [z ->]. by eexists.
Qed.

Lemma logreg_score_ok params : (4 ≤ length params)%nat → ∃ s, logreg_score params = Ok s.
Proof.
  intros Hp. unfold logreg_score. destruct (collect_total (agrees params) held_out) as [l ->]; [|by eexists].
  intros x. unfold agrees. destruct (linear_ok params x Hp) as [z ->]. by eexists.
Qed.

(** ** Properties *)

(** What a client owes its server: an answer of the shape it was sent, from at
    least one sample, with the model it was sent noted in the shared slot. *)
Definition trained_well (weights : list f32) (answer : list f32 * outcome Empty_set TrainResult) : Prop :=
  answer.1 = weights ∧
  ∃ r, answer.2 = Ok r ∧ length (tr_weights r) = length weights ∧ 0 < tr_num_samples r ∧ tr_control_variate r = None.

(** Every demo model runs against a server of its own dimension: whichever
    participant it is made for, its data is drawn without a panic, training on any
    weights of that dimension ends with a result of the same shape, so the client
    loop never reports a changed shape, and its score, if it has one, exists. *)
Theorem demo_models_fit_server (exp : f64 → f64) (ln : f32 → f32) m index weights
    (Hm : m ∈ MODELS) (Hdim : length weights = weights_dim m) :
  ∃ c, make m index = Ok c ∧ trained_well weights (demo_train exp ln c weights) ∧
       ∀ f, score m = Some f → ∃ s, f weights = Ok s.
Proof.
  unfold MODELS in Hm. rewrite !elem_of_cons, elem_of_nil in Hm. destruct Hm as [->|[->|[->|[]]]]; cbn [weights_dim] in Hdim.
  - exists Stub. split; [done|]. split; [|done]. split; [done|]. eexists. split; [done|]. simpl.
    by rewrite length_replicate.
  - destruct (LinReg_for_client_ok index) as (shard & Hmake & Hx & _). exists (LinReg shard). split; [done|]. split.
    + split; [done|]. cbn [demo_train snd].
      destruct (linreg_steps_ok LOCAL_STEPS shard weights) as (p & -> & Hl & _); [lia|].
      eexists. split; [done|]. cbn [tr_weights tr_num_samples with_local_steps TrainResult_new tr_control_variate].
      by rewrite Hx, Hl.
    + intros f [= <-]. apply linreg_score_ok. lia.
  - destruct (LogReg_for_client_ok index) as (shard & Hmake & Hx & _). exists (LogReg shard). split; [done|]. split.
    + split; [done|]. cbn [demo_train snd].
      destruct (logreg_steps_ok exp ln LOCAL_STEPS shard weights f32_zero) as (p & loss & -> & Hl & _); [lia|].
      eexists. split; [done|].
      cbn [tr_weights tr_num_samples with_local_steps with_local_loss TrainResult_new tr_control_variate].
      by rewrite Hx, Hl.
    + intros f [= <-]. apply logreg_score_ok. lia.
Qed.

(** Making a client never panics. *)
Lemma demo_models_made m index : m ∈ MODELS → ∃ c, make m index = Ok c.
Proof.
  unfold MODELS. rewrite !elem_of_cons, elem_of_nil. intros [->|[->|[->|[]]]]; cbn [make]; [by eexists| |].
  - destruct (LinReg_for_client_ok index) as (shard & -> & _). by eexists.
  - destruct (LogReg_for_client_ok index) as (shard & -> & _). by eexists.
Qed.

(** Below four weights a regression indexes past the model. *)
Lemma small_model_panics weights index :
  (length weights < 4)%nat → ∃ shard, LinReg_for_client index = Ok (LinReg shard) ∧
    linreg_steps LOCAL_STEPS shard weights = Panic.
Proof.
  intros Hw. destruct (LinReg_for_client_ok index) as (shard & Hmake & Hx & Hy). exists shard. split; [done|].
  unfold LOCAL_STEPS. cbn [linreg_steps].
  destruct (xs shard) as [|x l]; [done|]. destruct (ys shard) as [|y l']; [done|]. cbn [zip zip_with linreg_gradient].
  by rewrite linear_panics.
Qed.

(** Every model's name finds it, and nothing else does. *)
Lemma lookup_names name : (∃ m, lookup name = Some m ∧ model_name m = name) ∨ (lookup name = None ∧ name ∉ names).
Proof.
  unfold lookup. destruct (find _ MODELS) as [m|] eqn:Hf.
  - left. exists m. apply find_some in Hf as [_ He]. by apply String.eqb_eq in He.
  - right. split; [done|]. intros (m & -> & Hm)%list_elem_of_fmap.
    eapply find_none in Hf; [|by apply list_elem_of_In]. by rewrite String.eqb_refl in Hf.
Qed.

(** The generator's documented range is half open; rounding to [f32] closes it. *)
Lemma lcg_reaches_one : Lcg_next 15635871386175874928 = (2 ^ 64 - 1, f32_one).
Proof. vm_compute. reflexivity. Qed.

Lemma demo_models_fit_server_witness :
  ∃ m c, lookup "linreg" = Some m ∧ make m 5 = Ok c ∧
    trained_well (replicate 4 f32_zero) (demo_train (λ x, x) (λ x, x) c (replicate 4 f32_zero)).
Proof.
  destruct (demo_models_fit_server (λ x, x) (λ x, x) {| model_name := "linreg"; weights_dim := 4;
    make := LinReg_for_client; score := Some linreg_score |} 5 (replicate 4 f32_zero)) as (c & Hmake & Ht & _).
  - apply list_elem_of_further, list_elem_of_here.
  - reflexivity.
  - eexists _, c. split; [reflexivity|]. exact (conj Hmake Ht).
Defined.
