(* ===== verification/FedCommand.v ===== *)
(** * [cflux fed run] and [fed client] ([cflux/src/commands/fed.rs])

    A manifest and flags become a federation: what is run, on which configuration,
    with which demo model, and whether as tasks of this process ([Federation]) or
    as processes ([Process]).  The TOML text of a manifest, the file system, the
    path join and the printed form of a number are parameters. *)

From S2P Require Import Prelude Float Wire Registry Privacy Store Config State Submission Dispatcher.
From S2P Require Import Catalog Validate Profile Environment Experiment Unselected Admin Node Client.
From S2P Require Import Startup SidecarService Federation Process ConfigCommand Doctor DemoClients.
From Stdlib Require Import Ascii.

Open Scope Z_scope.

(** ** The manifest and the flags *)

Inductive Isolation : Type := Task | AsProcesses.

#[export] Instance Isolation_eq_dec : EqDecision Isolation.
Proof. solve_decision. Defined.

Record RunArgs := {
  ra_manifest : option string;
  ra_clients : option nat;
  ra_rounds : option nat;
  ra_model : option string;
  ra_aggregator : option string;
  ra_selector : option string;
  ra_topology : option string;
  ra_mode : option string;
  ra_isolation : option Isolation;
  ra_profile_dir : option string;
  ra_timeout_secs : option Z;
  ra_log_dir : option string;
}.

Section fed.
Context `{Tm : Toml}.

Record Manifest := {
  federation_clients : option nat;
  federation_rounds : option nat;
  federation_isolation : option Isolation;
  federation_topology : option string;
  federation_mode : option string;
  federation_timeout_secs : option Z;
  method_aggregator : option string;
  method_selector : option string;
  experiment : list (string * tvalue);
  client_builtin : option string;
  client_command : option (list string);
}.

Definition Manifest_default : Manifest :=
  {| federation_clients := None; federation_rounds := None; federation_isolation := None; federation_topology := None;
     federation_mode := None; federation_timeout_secs := None; method_aggregator := None; method_selector := None;
     experiment := []; client_builtin := None; client_command := None |}.

Definition DEFAULT_CLIENTS : nat := 3.
Definition DEFAULT_ROUNDS : nat := 10.
Definition DEFAULT_MODEL : string := "linreg".
Definition DEFAULT_TIMEOUT_SECS : Z := 300.

(** [Option::or] *)
Definition or_else {A} (a b : option A) : option A := match a with Some _ => a | None => b end.

(** [o.p = v.or(o.p)] *)
Definition or_override (p : param) (v : option (ptype p)) (o : Overrides) : Overrides :=
  match v with Some v => set_override o p v | None => o end.

(** ** What is run *)

Record FedRun := {
  fr_clients : nat;
  fr_rounds : nat;
  fr_isolation : Isolation;
  fr_model : DemoModel;
  fr_command : option (list string);
  fr_timeout_secs : Z;
  fr_resolved : ResolvedConfig;
  fr_mode : Mode;
  fr_privacy_off : bool;
}.

Context (quorum_try_into : tvalue → outcome string Z) (unknown_field : string → string).
Context (toml_from_str : string → outcome string (list (string * tvalue))).
(** [Table::to_string], and a manifest's text as serde reads it. *)
Context (table_to_string : list (string * tvalue) → string).
Context (manifest_from_str : string → outcome string Manifest) (read_to_string : string → outcome string string).
Context (listing : string → option (gmap string FileRead)) (sys : Surroundings).

Definition load_manifest (path : string) : outcome CliError Manifest :=
  raw ← map_err (CliRead path) (read_to_string path);
  map_err (CliManifest path) (manifest_from_str raw).

(** The message lists the names. *)
Definition lookup_model (name : string) : outcome CliError DemoModel :=
  match DemoClients.lookup name with
  | Some model => Ok model
  | None => Err (CliManifest "client.builtin" ("not a demo client — this binary has " +:+ String.concat ", " names))
  end.

Definition experiment_label (args : RunArgs) : string :=
  match ra_manifest args with Some path => path +:+ " [experiment]" | None => "[experiment]" end.

(** The experiment table, with the method section over it. *)
Definition overrides_from_file (args : RunArgs) (manifest : Manifest) : outcome CliError Overrides :=
  from_file ←
    match experiment manifest with
    | [] => Ok Overrides_default
    | table => map_err CliConfigFile
        (parse_experiment_toml quorum_try_into unknown_field toml_from_str (table_to_string table) (experiment_label args))
    end;
  Ok (or_override P_selector (method_selector manifest) (or_override P_aggregator (method_aggregator manifest) from_file)).

Definition no_override (p : param) (o : Overrides) : bool := match ov o p with Some _ => false | None => true end.

Definition named_by_flags (args : RunArgs) : Overrides :=
  or_override P_selector (ra_selector args) (or_override P_aggregator (ra_aggregator args) Overrides_default).

Definition privacy_untouched (from_file from_flags : Overrides) : bool :=
  no_override P_clip_norm from_file && no_override P_clip_norm from_flags &&
  no_override P_noise_multiplier from_file && no_override P_noise_multiplier from_flags.

Definition privacy_disabled (o : Overrides) : Overrides :=
  set_override (set_override o P_clip_norm (f32_of_Z 1000)) P_noise_multiplier (f32_of_Z 0).

Definition fed_profiles (args : RunArgs) : gmap string FileRead :=
  profiles_in listing (default "profiles"%string (or_var sys (ra_profile_dir args) "CONFLUX_PROFILE_DIR")).

(** The names the two axes are selected by. *)
Definition fed_topology (args : RunArgs) (manifest : Manifest) : outcome ProfileError TopologyProfile :=
  topology_profile_named (fed_profiles args) (or_else (ra_topology args) (federation_topology manifest)).
Definition fed_mode (args : RunArgs) (manifest : Manifest) : outcome ProfileError ModeProfile :=
  mode_profile_named (fed_profiles args) (or_else (ra_mode args) (federation_mode manifest)).

(** [run_federation], up to the choice of isolation. *)
Definition fed_run_of (args : RunArgs) (manifest : Manifest) : outcome CliError FedRun :=
  let clients := default DEFAULT_CLIENTS (or_else (ra_clients args) (federation_clients manifest)) in
  let rounds := default DEFAULT_ROUNDS (or_else (ra_rounds args) (federation_rounds manifest)) in
  let isolation := default Task (or_else (ra_isolation args) (federation_isolation manifest)) in
  let model_name := default DEFAULT_MODEL (or_else (ra_model args) (client_builtin manifest)) in
  let timeout_secs := default DEFAULT_TIMEOUT_SECS (or_else (ra_timeout_secs args) (federation_timeout_secs manifest)) in
  if bool_decide (is_Some (client_command manifest)) && bool_decide (isolation = Task)
  then Err (CliManifest "client.command" "a command needs its own process — run with --isolation process")
  else
    model ← lookup_model model_name;
    from_file ← overrides_from_file args manifest;
    let from_flags := named_by_flags args in
    let privacy_off := privacy_untouched from_file from_flags in
    let from_flags := if privacy_off then privacy_disabled from_flags else from_flags in
    topology ← map_err CliProfile (fed_topology args manifest);
    mode ← map_err CliProfile (fed_mode args manifest);
    let file_tier := match ra_manifest args with Some path => Some (path, from_file) | None => None end in
    Ok {| fr_clients := clients; fr_rounds := rounds; fr_isolation := isolation; fr_model := model;
          fr_command := client_command manifest; fr_timeout_secs := timeout_secs;
          fr_resolved := resolve (tp_base topology) (mp_base mode) file_tier Overrides_default from_flags;
          fr_mode := mp_base mode; fr_privacy_off := privacy_off |}.

Definition manifest_of (args : RunArgs) : outcome CliError Manifest :=
  match ra_manifest args with Some path => load_manifest path | None => Ok Manifest_default end.

Definition fed_run (args : RunArgs) : outcome CliError FedRun :=
  manifest ← manifest_of args;
  fed_run_of args manifest.

(** *** As tasks of this process *)

Definition task_config {Tls} (run : FedRun) : FederationConfig Tls :=
  let d := FederationConfig_default in
  {| fc_nodes := fr_clients run; fc_node := fc_node d; fc_client_id_prefix := fc_client_id_prefix d;
     fc_startup_timeout := fc_startup_timeout d; fc_shutdown_grace := fc_shutdown_grace d;
     fc_server := Some {| resolved := fr_resolved run; sc_mode := fr_mode run;
                          initial_weights_dim := Z.of_nat (weights_dim (fr_model run)) |};
     fc_rounds := fr_rounds run; fc_client_poll_interval := fc_client_poll_interval d;
     fc_timeout := fr_timeout_secs run * 1000 |}.

(** *** As processes *)

Context (exe : outcome string string) (join : string → string → string).
Context (show_f32 : f32 → string).

Definition show_nat (n : nat) : string := show_u64 (Z.of_nat n).

Definition server_env (resolved : ResolvedConfig) (mode : Mode) (model : DemoModel) : list (string * string) :=
  [ ("CONFLUX_MODE", Mode_label mode);
    ("CONFLUX_AGGREGATOR", getv resolved P_aggregator);
    ("CONFLUX_SELECTOR", getv resolved P_selector);
    ("CONFLUX_CLIP_NORM", show_f32 (getv resolved P_clip_norm));
    ("CONFLUX_NOISE_MULTIPLIER", show_f32 (getv resolved P_noise_multiplier));
    ("CONFLUX_INITIAL_WEIGHTS_DIM", show_nat (weights_dim model)) ]%string.

Definition own_command (subcommand : list string) : outcome CliError Spawn :=
  map_err (CliRead "this executable") (own_exe exe subcommand).

Definition client_id_of (i : nat) : string := "client-" +:+ show_nat i.
Definition score_file (log_dir client_id : string) : string := join log_dir (client_id +:+ ".score").

Definition client_spawn (run : FedRun) (log_dir client_id : string) : outcome CliError Spawn :=
  match fr_command run with
  | Some (program :: args) => Ok (foldl (λ c a, arg a c) (Spawn_new program) args)
  | _ =>
      c ← own_command ["fed"; "client"]%string;
      Ok (flag "--score-file" (score_file log_dir client_id) (flag "--model" (model_name (fr_model run)) c))
  end.

Definition process_participant (run : FedRun) (log_dir : string) (i : nat) : outcome CliError ProcessParticipant :=
  let client_id := client_id_of i in
  client ← client_spawn run log_dir client_id;
  node ← own_command ["node"; "start"]%string;
  Ok {| pp_client_id := client_id; pp_node := node; pp_client := client |}.

(** [run_as_processes], up to the supervisor. *)
Definition process_plan (run : FedRun) (log_dir : string) : outcome CliError ProcessPlan :=
  server ← own_command ["server"; "start"]%string;
  let server := foldl (λ s '(k, v), with_env k v s) server (server_env (fr_resolved run) (fr_mode run) (fr_model run)) in
  participants ← collect (process_participant run log_dir) (seq 0 (fr_clients run));
  Ok {| pl_server := server; pl_participants := participants; pl_observers := []; pl_rounds := fr_rounds run;
        pl_startup_timeout := 60000; pl_run_timeout := fr_timeout_secs run * 1000; pl_log_dir := log_dir |}.

(** *** One demo client *)

(** [rsplit('-').next()]: what follows the last dash, or the whole. *)
Fixpoint after_last_dash (l acc : list ascii) : list ascii :=
  match l with
  | [] => acc
  | c :: l => if ascii_dec c "-" then after_last_dash l l else after_last_dash l acc
  end.

Definition client_index (client_id : string) : nat :=
  let l := String.list_ascii_of_string client_id in
  default 0%nat (Z.to_nat <$> parse_u64 (after_last_dash l l)).

(** The client of [fed client], and where it connects. *)
Definition one_client (model_name client_id : string) : outcome CliError DemoClient :=
  model ← lookup_model model_name;
  match make model (client_index client_id) with Ok c => Ok c | _ => Panic end.

Definition client_address (address : string) : string :=
  if contains address "://" then address else "http://" +:+ address.

(** [run_one_client]'s report to its supervisor. *)
Definition score_report (s : DemoScore) : string :=
  "label=" +:+ label s +:+ NEWLINE +:+ "value=" +:+ show_f32 (score_value s) +:+ NEWLINE.

Context (f32_from_str : string → option f32).

(** One line of [collect_scores]'s loop. *)
Definition score_line (acc : option string * option f32) (line : string) : option string * option f32 :=
  match strip_prefix "label=" line with
  | Some rest => (Some rest, acc.2)
  | None => match strip_prefix "value=" line with
            | Some rest => (acc.1, f32_from_str rest)
            | None => acc
            end
  end.

Definition score_of_text (text : string) : option (string * f32) :=
  let '(label, value) := foldl score_line (None, None) (text_lines text) in
  label ← label; value ← value; Some (label, value).

Definition collect_scores (read : string → option string) (log_dir : string) (clients : list string)
    : list (string * f32) :=
  omap (λ client_id, text ← read (score_file log_dir client_id); score_of_text text) clients.
End fed.

(** ** Facts *)

Section fed_facts.
Context `{Tm : Toml}.
Context (quorum_try_into : tvalue → outcome string Z) (unknown_field : string → string).
Context (toml_from_str : string → outcome string (list (string * tvalue))).
Context (table_to_string : list (string * tvalue) → string).
Context (manifest_from_str : string → outcome string Manifest) (read_to_string : string → outcome string string).
Context (listing : string → option (gmap string FileRead)) (sys : Surroundings).

Notation from_file_of := (overrides_from_file quorum_try_into unknown_field toml_from_str table_to_string).
Notation fed_run := (fed_run quorum_try_into unknown_field toml_from_str table_to_string manifest_from_str read_to_string listing sys).

Notation manifest_named := (manifest_of manifest_from_str read_to_string).

Lemma ov_or_override p v o q :
  ov (or_override p v o) q =
    match v with
    | Some v => match decide (p = q) with left E => Some (eq_rect p ptype v q E) | right _ => ov o q end
    | None => ov o q
    end.
Proof. by destruct v. Qed.

Lemma ov_or_override_eq p v o : ov (or_override p v o) p = or_else v (ov o p).
Proof. destruct v as [v|]; simpl; [apply ov_set_override_eq|done]. Qed.

Lemma ov_or_override_ne p v o q : p ≠ q → ov (or_override p v o) q = ov o q.
Proof. intros Hne. destruct v as [v|]; simpl; [by apply ov_set_override_ne|done]. Qed.

(** What a run's flags come to. *)
Definition flags_of (args : RunArgs) (off : bool) : Overrides :=
  if off then privacy_disabled (named_by_flags args) else named_by_flags args.

Lemma named_by_flags_only args p :
  p ≠ P_aggregator → p ≠ P_selector → ov (named_by_flags args) p = None.
Proof. intros Ha Hs. unfold named_by_flags. by rewrite !ov_or_override_ne by congruence. Qed.

Lemma privacy_untouched_spec from_file args :
  privacy_untouched from_file (named_by_flags args) = true ↔
  ov from_file P_clip_norm = None ∧ ov from_file P_noise_multiplier = None.
Proof.
  unfold privacy_untouched, no_override. rewrite !named_by_flags_only by done.
  destruct (ov from_file P_clip_norm), (ov from_file P_noise_multiplier); naive_solver.
Qed.

(** The parts of an accepted run. *)
Lemma fed_run_inv args run :
  fed_run args = Ok run →
  ∃ manifest from_file topology mode,
    manifest_named args = Ok manifest ∧ from_file_of args manifest = Ok from_file ∧
    fed_topology listing sys args manifest = Ok topology ∧ fed_mode listing sys args manifest = Ok mode ∧
    (client_command manifest ≠ None → fr_isolation run = AsProcesses) ∧
    fr_privacy_off run = privacy_untouched from_file (named_by_flags args) ∧
    fr_command run = client_command manifest ∧ fr_mode run = mp_base mode ∧
    lookup_model (default DEFAULT_MODEL (or_else (ra_model args) (client_builtin manifest))) = Ok (fr_model run) ∧
    fr_resolved run = resolve (tp_base topology) (mp_base mode)
      match ra_manifest args with Some path => Some (path, from_file) | None => None end
      Overrides_default (flags_of args (fr_privacy_off run)).
Proof.
  unfold FedCommand.fed_run. intros (manifest & Hm & H)%bind_ok_inv. unfold fed_run_of in H.
  destruct (bool_decide (is_Some (client_command manifest)) && _) eqn:Hc; [done|].
  apply bind_ok_inv in H as (model & Hmodel & H). apply bind_ok_inv in H as (from_file & Hf & H).
  apply bind_ok_inv in H as (topology & Ht%map_err_ok & H). apply bind_ok_inv in H as (mode & Hmode%map_err_ok & [= <-]).
  exists manifest, from_file, topology, mode. do 4 (split; [done|]). split; [|by repeat (split; [done|])].
  intros Hcmd. apply andb_false_iff in Hc as [Hc|Hc]; apply bool_decide_eq_false in Hc.
  - exfalso. apply Hc. by destruct (client_command manifest); [eexists|].
  - simpl. destruct (default Task _); [|done]. exfalso. by apply Hc.
Qed.

Lemma from_file_of_default args : from_file_of args Manifest_default = Ok Overrides_default.
Proof. done. Qed.

(** What one axis or the builtin says of a parameter. *)
Definition tier_value (topology : Topology) (mode : Mode) (p : param) : rtype p :=
  getv (resolve topology mode None Overrides_default Overrides_default) p.

Lemma resolve_two_tiers topology mode file flags p :
  getv (resolve topology mode file Overrides_default flags) p =
    match ov flags p with
    | Some v => lift p v
    | None => match file_overrides file p with Some v => lift p v | None => tier_value topology mode p end
    end.
Proof.
  unfold tier_value, getv, resolve, resolve_with_profiles, resolve_param. cbn [cfg].
  destruct (ov flags p); simpl; [done|]. by destruct (file_overrides file p).
Qed.

Lemma resolve_cli_source topology mode file flags p :
  source (cfg (resolve topology mode file Overrides_default flags) p) = Cli ↔ is_Some (ov flags p).
Proof.
  unfold resolve, resolve_with_profiles, resolve_param, layer, file_source. cbn [cfg].
  destruct (ov flags p); simpl; [by split; [eexists|]|].
  split; [|by intros [? ?]]. destruct (file_overrides file p); simpl; [done|].
  destruct (mode_tier _ p); simpl; [done|]. by destruct (topology_tier _ p).
Qed.

(** The flags' part in each parameter. *)
Lemma flags_of_named args off p :
  p ≠ P_clip_norm → p ≠ P_noise_multiplier → ov (flags_of args off) p = ov (named_by_flags args) p.
Proof. intros ? ?. unfold flags_of, privacy_disabled. destruct off; by rewrite ?ov_set_override_ne by congruence. Qed.

Lemma flags_of_clip args off : ov (flags_of args off) P_clip_norm = if off then Some (f32_of_Z 1000) else None.
Proof.
  unfold flags_of, privacy_disabled. destruct off; [|by apply named_by_flags_only].
  by rewrite ov_set_override_ne, ov_set_override_eq by done.
Qed.

Lemma flags_of_noise args off : ov (flags_of args off) P_noise_multiplier = if off then Some (f32_of_Z 0) else None.
Proof.
  unfold flags_of, privacy_disabled. destruct off; [|by apply named_by_flags_only]. by rewrite ov_set_override_eq.
Qed.

Lemma fed_file_tier args manifest from_file p :
  manifest_named args = Ok manifest → from_file_of args manifest = Ok from_file →
  file_overrides match ra_manifest args with Some path => Some (path, from_file) | None => None end p = ov from_file p.
Proof.
  unfold manifest_of. destruct (ra_manifest args); [done|]. intros [= <-]. rewrite from_file_of_default. by intros [= <-].
Qed.

(** ** Properties *)

(** What the manifest and the tiers below it say of a parameter. *)
Definition given (topology : Topology) (mode : Mode) (from_file : Overrides) (p : param) : rtype p :=
  match ov from_file p with Some v => lift p v | None => tier_value topology mode p end.

(** The demo's override of the two privacy parameters, or its absence. *)
Definition privacy_layer (off : bool) (c : ResolvedConfig) (given : ∀ p, rtype p) : Prop :=
  if off
  then getv c P_clip_norm = f32_of_Z 1000 ∧ getv c P_noise_multiplier = f32_of_Z 0 ∧
       source (cfg c P_clip_norm) = Cli ∧ source (cfg c P_noise_multiplier) = Cli
  else getv c P_clip_norm = given P_clip_norm ∧ getv c P_noise_multiplier = given P_noise_multiplier ∧
       source (cfg c P_clip_norm) ≠ Cli ∧ source (cfg c P_noise_multiplier) ≠ Cli.

Lemma privacy_layer_holds topology mode file from_file args off :
  (∀ p, file_overrides file p = ov from_file p) →
  privacy_layer off (resolve topology mode file Overrides_default (flags_of args off)) (given topology mode from_file).
Proof.
  intros Hfile. unfold privacy_layer, given.
  pose proof (resolve_cli_source topology mode file (flags_of args off) P_clip_norm) as Hc.
  pose proof (resolve_cli_source topology mode file (flags_of args off) P_noise_multiplier) as Hn.
  pose proof (flags_of_clip args off) as Ec. pose proof (flags_of_noise args off) as En.
  rewrite Ec in Hc. rewrite En in Hn. rewrite !resolve_two_tiers, Ec, En, !Hfile. destruct off.
  - split_and!; [done|done|by apply Hc; eexists|by apply Hn; eexists].
  - split_and!; [done|done|by intros [? ?]%Hc|by intros [? ?]%Hn].
Qed.

(** [fed run] layers what it was given.  The aggregator and the selector are
    the flag's, else the manifest's ([method] over [experiment]), else the
    default; the demo's privacy override (clip norm 1000, no noise) is in force
    exactly when the manifest set neither of its two parameters, and is then on
    record as the command line's; set either, and both keep what the manifest or
    the tiers give them; every other parameter is the manifest's or the tiers'. *)
Theorem fed_run_layers args run (Hrun : fed_run args = Ok run) :
  ∃ manifest from_file topology,
    manifest_named args = Ok manifest ∧ from_file_of args manifest = Ok from_file ∧
    fed_topology listing sys args manifest = Ok topology ∧
    let c := fr_resolved run in
    let given := given (tp_base topology) (fr_mode run) from_file in
    (∀ p, p ≠ P_aggregator → p ≠ P_selector → p ≠ P_clip_norm → p ≠ P_noise_multiplier → getv c p = given p) ∧
    getv c P_aggregator = default (given P_aggregator) (ra_aggregator args) ∧
    getv c P_selector = default (given P_selector) (ra_selector args) ∧
    (fr_privacy_off run = true ↔ ov from_file P_clip_norm = None ∧ ov from_file P_noise_multiplier = None) ∧
    privacy_layer (fr_privacy_off run) c given.
Proof.
  destruct (fed_run_inv args run Hrun) as (manifest & from_file & topology & mode & Hm & Hf & Ht & _ & _ & Hoff & _ & Hmode & _ & Hc).
  exists manifest, from_file, topology. do 3 (split; [done|]). cbv zeta. rewrite Hmode, Hc.
  pose proof (λ p, fed_file_tier args manifest from_file p Hm Hf) as Hfile. split; [|split; [|split; [|split]]].
  - intros p ? ? ? ?. unfold given. by rewrite resolve_two_tiers, flags_of_named, named_by_flags_only, Hfile by done.
  - rewrite resolve_two_tiers, flags_of_named by done. unfold named_by_flags, given.
    rewrite ov_or_override_ne, ov_or_override_eq, Hfile by done. by destruct (ra_aggregator args).
  - rewrite resolve_two_tiers, flags_of_named by done. unfold named_by_flags, given.
    rewrite ov_or_override_eq, ov_or_override_ne, Hfile by done. by destruct (ra_selector args).
  - rewrite Hoff. apply privacy_untouched_spec.
  - by apply privacy_layer_holds.
Qed.

(** *** The same clients in either isolation *)

Lemma after_last_dash_app a b acc : "-"%char ∉ b → after_last_dash (a ++ "-"%char :: b) acc = b.
Proof.
  assert (Hb : ∀ b acc, "-"%char ∉ b → after_last_dash b acc = acc).
  { intros l. induction l as [|c l IH]; intros acc'; simpl; [done|]. rewrite not_elem_of_cons. intros [Hc Hl].
    destruct (ascii_dec c "-"); [congruence|]. by apply IH. }
  intros Hd. revert acc. induction a as [|c a IH]; intros acc; simpl; [by apply Hb|].
  destruct (ascii_dec c "-"); apply IH.
Qed.

Lemma digits_no_dash n : 0 ≤ n → "-"%char ∉ u64_to_string n.
Proof.
  intros Hn Hin. pose proof (decimal_digits 20 n Hn) as Hd. rewrite Forall_forall in Hd.
  destruct (Hd _ Hin) as (d & Hr & He). pose proof (digit_value_digit d Hr) as Hv. by rewrite <-He in Hv.
Qed.

(** A participant's index comes back out of its identity. *)
Lemma client_index_of_id i : Z.of_nat i < 2 ^ 64 → client_index (client_id_of i) = i.
Proof.
  intros Hi. unfold client_index, client_id_of, show_nat, show_u64.
  replace (String.list_ascii_of_string ("client-" +:+ String.string_of_list_ascii (u64_to_string (Z.of_nat i))))
    with (String.list_ascii_of_string "client" ++ "-"%char :: u64_to_string (Z.of_nat i)).
  - rewrite after_last_dash_app by (apply digits_no_dash; lia).
    rewrite parse_u64_to_string by (unfold is_u64; lia). simpl. apply Nat2Z.id.
  - pose proof (String.list_ascii_of_string_of_list_ascii (u64_to_string (Z.of_nat i))) as Hl. revert Hl.
    generalize (String.string_of_list_ascii (u64_to_string (Z.of_nat i))) as text. intros text <-. done.
Qed.

Lemma lookup_model_own m : m ∈ MODELS → lookup_model (model_name m) = Ok m.
Proof.
  unfold MODELS. rewrite !elem_of_cons, elem_of_nil. by intros [->|[->|[->|[]]]].
Qed.

Lemma lookup_model_listed name m : lookup_model name = Ok m → m ∈ MODELS.
Proof.
  unfold lookup_model, lookup. destruct (find _ MODELS) as [m'|] eqn:Hf; [|done]. intros [= <-].
  apply find_some in Hf as [Hf _]. by apply list_elem_of_In.
Qed.

Context (exe : outcome string string) (join : string → string → string) (show_f32 : f32 → string).

(** C29: The two isolation modes run the same clients.  Whatever federation the flags
    and the manifest describe, if no command of its own was given then participant
    [i] of the process plan is started with this binary's own demo client under the
    model's name and the identity [client-i], and what that process makes of its
    identity is exactly the client the task mode makes for participant [i]: the
    same model on the same shard.  A manifest with a command never runs as tasks. *)
Theorem isolation_modes_agree args run plan log_dir i
    (Hrun : fed_run args = Ok run) (Hi : (i < fr_clients run)%nat) (Hu64 : Z.of_nat (fr_clients run) < 2 ^ 64)
    (Hplan : process_plan exe join show_f32 run log_dir = Ok plan) :
  (fr_command run ≠ None → fr_isolation run = AsProcesses) ∧
  length (pl_participants plan) = fr_clients run ∧
  ∃ p, pl_participants plan !! i = Some p ∧ pp_client_id p = client_id_of i ∧
    (fr_command run = None →
     (∃ path, exe = Ok path ∧
        pp_client p = {| program := path;
                         args := ["fed"; "client"; "--model"; model_name (fr_model run); "--score-file";
                                  score_file join log_dir (client_id_of i)]%string;
                         env := [] |}) ∧
     ∃ c, make (fr_model run) i = Ok c ∧ one_client (model_name (fr_model run)) (pp_client_id p) = Ok c).
Proof.
  destruct (fed_run_inv args run Hrun) as (manifest & _ & _ & _ & _ & _ & _ & _ & Hiso & _ & Hcmd & _ & Hmodel & _).
  rewrite Hcmd. split; [exact Hiso|]. clear Hiso. apply lookup_model_listed in Hmodel.
  unfold process_plan in Hplan. apply bind_ok_inv in Hplan as (server & _ & H).
  apply bind_ok_inv in H as (ps & Hps%collect_ok & [= <-]). simpl.
  pose proof (Forall2_length _ _ _ Hps) as Hlen. rewrite length_seq in Hlen. split; [done|].
  destruct (Forall2_lookup_l _ _ _ i i Hps) as (p & Hp & Hpart); [by rewrite lookup_seq|]. exists p. split; [done|].
  unfold process_participant in Hpart. apply bind_ok_inv in Hpart as (client & Hclient & Hpart).
  apply bind_ok_inv in Hpart as (node & _ & [= <-]). simpl. split; [done|]. intros Hnone. split.
  - unfold client_spawn in Hclient. rewrite Hcmd, Hnone in Hclient.
    apply bind_ok_inv in Hclient as (c & Hc & [= <-]). unfold own_command, own_exe in Hc. apply map_err_ok in Hc.
    apply bind_ok_inv in Hc as (path & Hexe & [= <-]). by exists path.
  - unfold one_client. rewrite lookup_model_own by done. simpl. rewrite client_index_of_id by lia.
    destruct (demo_models_made (fr_model run) i Hmodel) as [c Hc]. exists c. by rewrite Hc.
Qed.
End fed_facts.

(** ** Witnesses and limits *)

#[local] Existing Instance demo_toml.

Definition no_flags : RunArgs :=
  {| ra_manifest := None; ra_clients := None; ra_rounds := None; ra_model := None; ra_aggregator := None;
     ra_selector := None; ra_topology := None; ra_mode := None; ra_isolation := None; ra_profile_dir := None;
     ra_timeout_secs := None; ra_log_dir := None |}.

(** Five clients, each its own process, under Krum. *)
Definition krum_args : RunArgs :=
  {| ra_manifest := None; ra_clients := Some 5%nat; ra_rounds := None; ra_model := Some "logreg"%string;
     ra_aggregator := Some "krum"%string; ra_selector := None; ra_topology := None; ra_mode := None;
     ra_isolation := Some AsProcesses; ra_profile_dir := None; ra_timeout_secs := None; ra_log_dir := None |}.

Definition silo_args (topology : string) : RunArgs :=
  {| ra_manifest := None; ra_clients := None; ra_rounds := None; ra_model := None; ra_aggregator := None;
     ra_selector := None; ra_topology := Some topology; ra_mode := None; ra_isolation := Some AsProcesses;
     ra_profile_dir := None; ra_timeout_secs := None; ra_log_dir := None |}.

Definition empty_machine : Surroundings := {| env_var _ := None; fs_read _ := Err "no such file"%string |}.

#[local] Notation demo_fed_run listing :=
  (fed_run (λ _, Err ""%string) (λ s, s) (λ _, Err ""%string) (λ _, ""%string) (λ _, Err ""%string) (λ _, Err ""%string)
     listing empty_machine).

Definition run_summary (r : outcome CliError FedRun) : option (string * f32 * nat * bool) :=
  match r with
  | Ok run => Some (getv (fr_resolved run) P_aggregator, getv (fr_resolved run) P_clip_norm, fr_clients run,
                    fr_privacy_off run)
  | _ => None
  end.

Lemma krum_run_summary : run_summary (demo_fed_run (λ _, None) krum_args) = Some ("krum"%string, f32_of_Z 1000, 5%nat, true).
Proof. vm_compute. reflexivity. Qed.

Lemma fed_run_layers_witness :
  ∃ run, demo_fed_run (λ _, None) krum_args = Ok run ∧ getv (fr_resolved run) P_aggregator = "krum"%string ∧
    privacy_layer true (fr_resolved run) (given CrossDevice (fr_mode run) Overrides_default).
Proof.
  pose proof krum_run_summary as Hs. destruct (demo_fed_run (λ _, None) krum_args) as [run| |] eqn:Hr; [|discriminate Hs..].
  destruct (fed_run_layers (λ _, Err ""%string) (λ s, s) (λ _, Err ""%string) (λ _, ""%string) (λ _, Err ""%string)
    (λ _, Err ""%string) (λ _, None) empty_machine krum_args run Hr)
    as (manifest & from_file & topology & Hm & Hf & Ht & _ & Ha & _ & _ & Hp).
  exists run. split; [reflexivity|]. split; [exact Ha|].
  injection Hm as <-. injection Hf as <-. injection Ht as <-.
  injection Hs as _ _ _ Hoff. rewrite Hoff in Hp. exact Hp.
Defined.

#[local] Notation demo_process_plan run := (process_plan (Ok "cflux"%string) (λ d f, d +:+ "/" +:+ f) (λ _, "0"%string) run "logs").

Lemma krum_plan_ok :
  match demo_fed_run (λ _, None) krum_args with
  | Ok run => is_ok (demo_process_plan run) = true ∧ fr_command run = None
  | _ => False
  end.
Proof. vm_compute. split; reflexivity. Qed.

Lemma isolation_modes_agree_witness :
  ∃ run c, demo_fed_run (λ _, None) krum_args = Ok run ∧ make (fr_model run) 3 = Ok c ∧
    one_client (model_name (fr_model run)) "client-3" = Ok c.
Proof.
  pose proof krum_run_summary as Hs. pose proof krum_plan_ok as Hok.
  destruct (demo_fed_run (λ _, None) krum_args) as [run| |] eqn:Hr; [|discriminate Hs..].
  destruct Hok as [Hplan Hcmd]. destruct (demo_process_plan run) as [plan| |] eqn:Hp; [|discriminate Hplan..].
  injection Hs as _ _ Hc _.
  destruct (isolation_modes_agree (λ _, Err ""%string) (λ s, s) (λ _, Err ""%string) (λ _, ""%string) (λ _, Err ""%string)
    (λ _, Err ""%string) (λ _, None) empty_machine (Ok "cflux"%string) (λ d f, d +:+ "/" +:+ f) (λ _, "0"%string)
    krum_args run plan "logs" 3 Hr) as (_ & _ & p & _ & Hid & Hrest).
  - rewrite Hc. lia.
  - rewrite Hc. lia.
  - exact Hp.
  - destruct (Hrest Hcmd) as [_ (c & Hmake & Hone)]. exists run, c. split; [reflexivity|]. split; [exact Hmake|].
    rewrite Hid in Hone. exact Hone.
Defined.

(** A custom topology profile selects its builtin and nothing else: its own values
    are lost, where a server started on the same profile would keep them. *)
Lemma fed_run_drops_profile_values :
  let listing (_ : string) := Some demo_directory in
  match demo_fed_run listing (silo_args "clinic"), load_topology_profile demo_directory "clinic" with
  | Ok run, Ok profile =>
      getv (resolve_with_profiles profile (ModeProfile_builtin Research) None Overrides_default Overrides_default)
        P_round_timeout_secs = 90 ∧
      getv (fr_resolved run) P_round_timeout_secs ≠ 90
  | _, _ => False
  end.
Proof. vm_compute. split; [reflexivity|discriminate]. Qed.

(** The child server of [--isolation process] is not given the topology: from an
    otherwise empty environment it resolves the default one. *)
#[local] Instance read_zero : FromStrs :=
  {| from_str p _ := match p return option (ptype p) with
                     | P_clip_norm => Some f32_zero | P_noise_multiplier => Some f32_zero | _ => None
                     end;
     usize_from_str _ := None |}.
#[local] Instance read_four : AddressFromStr := {| socket_addr_from_str _ := None; dim_from_str _ := Some 4 |}.

Definition child_surroundings (given : list (string * string)) : Surroundings :=
  {| env_var v := snd <$> list_find (λ kv, kv.1 = v) given ≫= λ kv, Some kv.2; fs_read _ := Err "no such file"%string |}.

Lemma process_server_loses_topology :
  match demo_fed_run (λ _, None) (silo_args "cross_silo") with
  | Ok run =>
      cfg_topology (fr_resolved run) = CrossSilo ∧
      match from_env (child_surroundings (server_env (λ _, "0"%string) (fr_resolved run) (fr_mode run) (fr_model run)))
              (λ _, Err ""%string) (λ s, s) (λ _, ReadFailed) (λ _, Err ""%string) (λ _, ∅) with
      | Ok sc => cfg_topology (resolved sc) = CrossDevice
      | _ => False
      end
  | _ => False
  end.
Proof. vm_compute. split; reflexivity. Qed.
