(* ===== verification/CheckpointCommand.v ===== *)
(** * [cflux checkpoint] ([cflux/src/commands/checkpoint.rs])

    What a durable store holds, read from outside the server: the rounds with a
    checkpoint and the gaps between them, and the shape of one checkpoint.  The
    store is any instance of [Store]; a report is the data its renderings print and
    its exit code. *)

From S2P Require Import Prelude Float Wire Buffer Weights Store Config State Dispatcher Startup ConfigCommand.

Open Scope Z_scope.

(** ** The shape of a checkpoint *)

Record Shape := {
  parameters : nat;
  l2_norm : f64;
  min : f32;
  max : f32;
  non_finite : nat;
  placeholder : bool;
}.

Definition INFINITY : f32 := F (S754_infinity false).
Definition NEG_INFINITY : f32 := F (S754_infinity true).

(** The loop's locals. *)
Record Scan := { sum_squares : f64; low : f32; high : f32; strange : nat }.

Definition scan_start : Scan := {| sum_squares := f64_zero; low := INFINITY; high := NEG_INFINITY; strange := 0 |}.

Definition scan_weight (s : Scan) (w : f32) : Scan :=
  if f32_is_finite w then
    {| sum_squares := f64_add (sum_squares s) (f64_mul (f64_of_f32 w) (f64_of_f32 w));
       low := if (w <? low s)%f32 then w else low s;
       high := if (high s <? w)%f32 then w else high s;
       strange := strange s |}
  else {| sum_squares := sum_squares s; low := low s; high := high s; strange := strange s + 1 |}.

Definition Shape_of (weights : list f32) : Shape :=
  let s := foldl scan_weight scan_start weights in
  {| parameters := length weights;
     l2_norm := f64_sqrt (sum_squares s);
     min := if f32_is_finite (low s) then low s else f32_zero;
     max := if f32_is_finite (high s) then high s else f32_zero;
     non_finite := strange s;
     placeholder := forallb (λ w, (w =? f32_zero)%f32) weights |}.

(** ** The reports *)

Definition HEAD_TAIL : nat := 8.

Inductive Listed : Type :=
  | Whole (rounds : list Z)
  | Elided (head : list Z) (more : nat) (tail : list Z).

Inductive CheckpointBody : Type :=
  | Unreadable
  | Nothing
  | Rounds (count : nat) (first last : Z) (listed : Listed) (gaps : option (nat * Z))
  | NotFoundRound (round : Z)
  | Shown (round : Z) (shape : Shape).

(** [rounds.windows(2)] *)
Fixpoint windows (l : list Z) : list (Z * Z) :=
  match l with a :: (b :: _) as l' => (a, b) :: windows l' | _ => [] end.

Definition is_gap (w : Z * Z) : bool := w.1 + 1 <? w.2.

(** A subtraction below zero panics; stores list rounds in order. *)
Definition missing (w : Z * Z) : outcome CliError Z := if w.2 - w.1 - 1 <? 0 then Panic else Ok (w.2 - w.1 - 1).

Definition widest (rounds : list Z) : outcome CliError Z :=
  ms ← collect missing (windows rounds); Ok (foldr Z.max 0 ms).

Definition elide (rounds : list Z) : Listed :=
  if (length rounds <=? HEAD_TAIL * 2 + 1)%nat then Whole rounds
  else Elided (take HEAD_TAIL rounds) (length rounds - HEAD_TAIL * 2) (drop (length rounds - HEAD_TAIL) rounds).

Definition gap_line (rounds : list Z) : outcome CliError (option (nat * Z)) :=
  match length (base.filter (λ w, is_gap w = true) (windows rounds)) with
  | O => Ok None
  | gaps => widest ← widest rounds; Ok (Some (gaps, widest))
  end.

Section checkpoint.
Context {S : Type} `{St : Store S}.

Definition checkpoint_list (store : S) : outcome CliError (Report CheckpointBody) :=
  rounds ← map_err CliCheckpoint (list_checkpoints store);
  match rounds with
  | [] => Ok (Report_plain Nothing 0)
  | first :: _ =>
      gaps ← gap_line rounds;
      Ok (Report_plain (Rounds (length rounds) first (List.last rounds first) (elide rounds) gaps) 0)
  end.

Definition checkpoint_show (round : Z) (store : S) : outcome CliError (Report CheckpointBody) :=
  match load_checkpoint round store with
  | Ok weights =>
      let shape := Shape_of weights in
      Ok (Report_plain (Shown round shape) (if (0 <? non_finite shape)%nat then EXIT_NEGATIVE else 0))
  | Err NoCheckpoint => Ok (Report_plain (NotFoundRound round) EXIT_NEGATIVE)
  | Err e => Err (CliCheckpoint e)
  | Panic => Panic
  end.
End checkpoint.

Inductive CheckpointCommand : Type := ListRounds | ShowRound (round : Z).

(** [run]: the backend the environment selects, in-memory ones answered first. *)
Definition checkpoint_run {Rd Al Pg S3 T} `{Store Pg} `{Store S3} (sys : Surroundings)
    (net : Connectors Rd Al Pg S3 T) (command : CheckpointCommand) : outcome CliError (Report CheckpointBody) :=
  backends ← map_err CliServerEnv (backend_selection_from_vars sys);
  let answer {X} `{Store X} (store : X) :=
    match command with ListRounds => checkpoint_list store | ShowRound round => checkpoint_show round store end in
  match bs_store backends with
  | SB_Memory => Ok (Report_plain Unreadable EXIT_NEGATIVE)
  | SB_Postgres url =>
      store ← map_err CliCheckpoint (postgres net url checkpoint_table);
      answer (AnyStore_Postgres (S3:=S3) store)
  | SB_S3 endpoint bucket access_key secret_key =>
      store ← map_err CliCheckpoint (s3 net endpoint bucket access_key secret_key);
      answer (AnyStore_S3 (Postgres:=Pg) store)
  end.

(** ** Facts *)

Lemma scan_strange l s :
  strange (foldl scan_weight s l) = (strange s + length (base.filter (λ w, f32_is_finite w = false) l))%nat.
Proof.
  revert s. induction l as [|w l IH]; intros s; simpl; [lia|]. rewrite IH, filter_cons. unfold scan_weight.
  destruct (f32_is_finite w) eqn:Hw; [rewrite decide_False by congruence|rewrite decide_True by done]; simpl; lia.
Qed.

(** The least finite weight so far, and the greatest: the two scans are the same
    up to the order. *)
Definition extreme (le : f32 → f32 → bool) (start best : f32) (l : list f32) : Prop :=
  not_nan best ∧ le best start = true ∧ (∀ w, w ∈ l → f32_is_finite w = true → le best w = true) ∧
  (best = start ∨ (best ∈ l ∧ f32_is_finite best = true)).

Lemma extreme_cons le start mid best w l :
  (∀ x y z, not_nan x → not_nan y → not_nan z → le x y = true → le y z = true → le x z = true) →
  not_nan start →
  extreme le mid best l → not_nan mid → le mid start = true → (f32_is_finite w = true → le mid w = true) →
  (mid = start ∨ (mid = w ∧ f32_is_finite w = true)) → extreme le start best (w :: l).
Proof.
  intros Htrans Hs (Hb & Hm & Hl & Hin) Hmid Hms Hw Hor. split; [done|]. split; [by eapply (Htrans best mid start)|]. split.
  - intros w' [->|Hw']%elem_of_cons Hf; [|by apply Hl].
    apply (Htrans best mid w); auto. by apply f32_finite_not_nan.
  - destruct Hin as [->|[Hin Hf]]; [|right; split; [by apply elem_of_cons; right|done]].
    destruct Hor as [->|[-> Hf]]; [by left|right; split; [apply list_elem_of_here|done]].
Qed.

Lemma f32_geb_trans x y z :
  not_nan x → not_nan y → not_nan z → (y <=? x)%f32 = true → (z <=? y)%f32 = true → (z <=? x)%f32 = true.
Proof. intros ? ? ? H1 H2. by apply (f32_leb_trans z y x). Qed.

Lemma scan_low l s : not_nan (low s) → extreme f32_leb (low s) (low (foldl scan_weight s l)) l.
Proof.
  revert s. induction l as [|w l IH]; intros s Hs; simpl.
  { split; [done|]. split; [by apply f32_leb_refl|]. split; [by intros w ?%elem_of_nil|by left]. }
  assert (Hmid : not_nan (low (scan_weight s w)) ∧ (low (scan_weight s w) <=? low s)%f32 = true ∧
    (f32_is_finite w = true → (low (scan_weight s w) <=? w)%f32 = true) ∧
    (low (scan_weight s w) = low s ∨ (low (scan_weight s w) = w ∧ f32_is_finite w = true))).
  { unfold scan_weight. destruct (f32_is_finite w) eqn:Hw; simpl; [|rewrite f32_leb_refl by done; split_and!; auto; done].
    pose proof (f32_finite_not_nan w Hw) as Hn. rewrite f32_ltb_leb by done.
    destruct (low s <=? w)%f32 eqn:Hl; simpl; [rewrite f32_leb_refl by done; split_and!; auto|].
    rewrite f32_leb_refl by done. destruct (f32_leb_total w (low s)) as [H|H]; [done..| |congruence]. split_and!; auto. }
  destruct Hmid as (Hn & Hle & Hw & Hor). eapply extreme_cons; eauto using f32_leb_trans.
Qed.

Lemma scan_high l s :
  not_nan (high s) → extreme (λ x y, (y <=? x)%f32) (high s) (high (foldl scan_weight s l)) l.
Proof.
  revert s. induction l as [|w l IH]; intros s Hs; simpl.
  { split; [done|]. split; [by apply f32_leb_refl|]. split; [by intros w ?%elem_of_nil|by left]. }
  assert (Hmid : not_nan (high (scan_weight s w)) ∧ (high s <=? high (scan_weight s w))%f32 = true ∧
    (f32_is_finite w = true → (w <=? high (scan_weight s w))%f32 = true) ∧
    (high (scan_weight s w) = high s ∨ (high (scan_weight s w) = w ∧ f32_is_finite w = true))).
  { unfold scan_weight. destruct (f32_is_finite w) eqn:Hw; simpl; [|rewrite f32_leb_refl by done; split_and!; auto; done].
    pose proof (f32_finite_not_nan w Hw) as Hn. rewrite f32_ltb_leb by done.
    destruct (w <=? high s)%f32 eqn:Hl; simpl; [rewrite f32_leb_refl by done; split_and!; auto|].
    rewrite f32_leb_refl by done. destruct (f32_leb_total w (high s)) as [H|H]; [done..|congruence|]. split_and!; auto. }
  destruct Hmid as (Hn & Hle & Hw & Hor). eapply (extreme_cons (λ x y, (y <=? x)%f32)); eauto using f32_geb_trans.
Qed.

Lemma finite_above_infinity w : f32_is_finite w = true → (INFINITY <=? w)%f32 = false ∧ (w <=? NEG_INFINITY)%f32 = false.
Proof. destruct w as [[[]|[]| |[] m e]|]; try done. Qed.

(** A reported bound is a weight of the checkpoint when it has a finite one. *)
Lemma reported_bound le start best weights w :
  extreme le start best weights → w ∈ weights → f32_is_finite w = true → le start w = false →
  f32_is_finite best = true ∧ best ∈ weights ∧ ∀ w', w' ∈ weights → f32_is_finite w' = true → le best w' = true.
Proof.
  intros (_ & _ & Hl & [->|[Hin Hf]]) Hw Hfin Hs; [|done]. by rewrite Hl in Hs.
Qed.

(** ** Properties *)

(** [checkpoint show] describes the checkpoint there is: it counts every
    weight and every weight that is not a number, its range holds every finite
    weight and its two ends are weights of the checkpoint when one is finite, and
    it calls a checkpoint the placeholder just when every weight is zero. *)
Theorem checkpoint_shape_exact weights :
  let shape := Shape_of weights in
  parameters shape = length weights ∧
  non_finite shape = length (base.filter (λ w, f32_is_finite w = false) weights) ∧
  (∀ w, w ∈ weights → f32_is_finite w = true →
     (min shape <=? w)%f32 = true ∧ (w <=? max shape)%f32 = true ∧ min shape ∈ weights ∧ max shape ∈ weights) ∧
  (placeholder shape = true ↔ ∀ w, w ∈ weights → (w =? f32_zero)%f32 = true).
Proof.
  cbv zeta. unfold Shape_of. cbn [parameters non_finite min max placeholder].
  split; [done|]. split; [apply scan_strange|]. split.
  - intros w Hw Hf. destruct (finite_above_infinity w Hf) as [Hi Hn].
    destruct (reported_bound f32_leb _ _ weights w (scan_low weights scan_start eq_refl) Hw Hf Hi) as (-> & Hmin & Hlow).
    destruct (reported_bound (λ x y, (y <=? x)%f32) _ _ weights w (scan_high weights scan_start eq_refl) Hw Hf Hn)
      as (-> & Hmax & Hhigh). auto.
  - rewrite forallb_forall. split; intros H w Hw; apply H; by apply list_elem_of_In.
Qed.

(** No weight is NaN or infinite. *)
Definition all_finite (ws : list f32) : Prop := Forall (λ w, f32_is_finite w = true) ws.

Lemma all_finite_count weights :
  length (base.filter (λ w, f32_is_finite w = false) weights) = 0%nat ↔ all_finite weights.
Proof.
  unfold all_finite. induction weights as [|w l IH]; [by split|]. rewrite filter_cons, Forall_cons, <-IH.
  destruct (f32_is_finite w) eqn:Hw; [rewrite decide_False by congruence; tauto|rewrite decide_True by done].
  simpl. split; [done|]. by intros [? _].
Qed.

(** The exit code of [show] is the question an operator has: is there a checkpoint
    here that is safe to resume from? *)
Lemma checkpoint_show_verdict {S} `{Store S} round (store : S) :
  (main_exit (checkpoint_show round store) = 0 ↔ ∃ ws, load_checkpoint round store = Ok ws ∧ all_finite ws) ∧
  (main_exit (checkpoint_show round store) = EXIT_NEGATIVE ↔
   load_checkpoint round store = Err NoCheckpoint ∨ ∃ ws, load_checkpoint round store = Ok ws ∧ ¬ all_finite ws).
Proof.
  unfold checkpoint_show. destruct (load_checkpoint round store) as [ws|e|].
  - pose proof (scan_strange ws scan_start) as Hs. pose proof (all_finite_count ws) as Hc.
    change (strange (foldl scan_weight scan_start ws)) with (non_finite (Shape_of ws)) in Hs.
    simpl (strange scan_start) in Hs. rewrite Nat.add_0_l in Hs. rewrite <-Hs in Hc.
    generalize dependent (Shape_of ws). intros shape _ Hc. cbn [main_exit exit_code Report_plain].
    destruct (Nat.ltb_spec 0 (non_finite shape)) as [Hl|Hl].
    + assert (Hno : ¬ all_finite ws) by (intros Hf%Hc; lia). split; split; try done; [naive_solver|eauto].
    + assert (Hyes : all_finite ws) by (apply Hc; lia). split; split; try done; [eauto|naive_solver].
  - destruct e; simpl; unfold EXIT_FAILURE, EXIT_NEGATIVE; naive_solver.
  - unfold EXIT_NEGATIVE. simpl. naive_solver.
Qed.

(** *** Gaps *)

(** One step after the other, from the first round to the last. *)
Definition consecutive (rounds : list Z) : Prop := Forall (λ w, w.2 = w.1 + 1) (windows rounds).

Lemma no_gaps_iff ws : Forall (λ w, w.1 < w.2) ws →
  length (base.filter (λ w, is_gap w = true) ws) = 0%nat ↔ Forall (λ w, w.2 = w.1 + 1) ws.
Proof.
  induction 1 as [|w ws Hw _ IH]; [by split|]. rewrite filter_cons, Forall_cons, <-IH.
  case_decide as Hg; unfold is_gap in Hg; rewrite Z.ltb_lt in Hg; simpl; [split; [done|lia]|].
  split; [intros ?; split; [lia|done]|tauto].
Qed.

Lemma missing_ok ws : Forall (λ w, w.1 < w.2) ws → collect missing ws = Ok (map (λ w, w.2 - w.1 - 1) ws).
Proof.
  induction 1 as [|w ws Hw _ IH]; [done|]. cbn [collect map].
  assert (missing w = Ok (w.2 - w.1 - 1)) as -> by (unfold missing; by rewrite (proj2 (Z.ltb_ge _ 0)) by lia).
  cbn [mbind outcome_bind]. by rewrite IH.
Qed.

Lemma widest_spec l : foldr Z.max 0 l = 0 ∨ foldr Z.max 0 l ∈ l.
Proof.
  induction l as [|x l IH]; [by left|]. simpl. destruct (Z.max_spec x (foldr Z.max 0 l)) as [[_ ->]|[_ ->]].
  - destruct IH; [by left|right; apply elem_of_cons; by right].
  - right. apply list_elem_of_here.
Qed.

Lemma widest_ge l x : x ∈ l → x ≤ foldr Z.max 0 l.
Proof. induction l as [|y l IH]; [by intros ?%elem_of_nil|]. simpl. intros [->|?%IH]%elem_of_cons; lia. Qed.

(** [checkpoint list] speaks of gaps exactly when a round is missing between two
    that are there, and the width it names is a run of missing rounds that is there
    and that none exceeds. *)
Lemma checkpoint_gaps_exact rounds :
  Forall (λ w, w.1 < w.2) (windows rounds) →
  (consecutive rounds ∧ gap_line rounds = Ok None) ∨
  (¬ consecutive rounds ∧ ∃ gaps width, gap_line rounds = Ok (Some (gaps, width)) ∧ (0 < gaps)%nat ∧ 0 < width ∧
     (∃ w, w ∈ windows rounds ∧ width = w.2 - w.1 - 1) ∧ ∀ w, w ∈ windows rounds → w.2 - w.1 - 1 ≤ width).
Proof.
  intros Hasc. pose proof (no_gaps_iff _ Hasc) as Hgaps. unfold gap_line, consecutive.
  destruct (length (base.filter _ (windows rounds))) as [|g] eqn:Hl; [left; split; [by apply Hgaps|done]|].
  right. split; [by intros Hc%Hgaps|]. unfold widest. rewrite missing_ok by done. simpl.
  set (ms := map (λ w, w.2 - w.1 - 1) (windows rounds)). exists (S g), (foldr Z.max 0 ms). split; [done|]. split; [lia|].
  assert (Hge : ∀ w, w ∈ windows rounds → w.2 - w.1 - 1 ≤ foldr Z.max 0 ms).
  { intros w Hw. apply widest_ge. by apply (list_elem_of_fmap_2 (λ w : Z * Z, w.2 - w.1 - 1)). }
  assert (Hpos : 0 < foldr Z.max 0 ms).
  { destruct (base.filter (λ w, is_gap w = true) (windows rounds)) as [|w l] eqn:Hf; [done|].
    assert (Hw : w ∈ base.filter (λ w, is_gap w = true) (windows rounds)) by (rewrite Hf; apply list_elem_of_here).
    apply list_elem_of_filter in Hw as [Hg Hw]. unfold is_gap in Hg. apply Z.ltb_lt in Hg. specialize (Hge w Hw). lia. }
  split; [done|]. split; [|done]. destruct (widest_spec ms) as [H0|Hin]; [lia|].
  apply list_elem_of_fmap in Hin as (w & Hw & Hin). eauto.
Qed.

(** A checkpoint with one infinite weight is not safe to resume from. *)
Lemma show_refuses_infinity :
  main_exit (checkpoint_show 7 {| latest := (7, [f32_one; INFINITY]) |}) = EXIT_NEGATIVE ∧
  main_exit (checkpoint_show 7 {| latest := (7, [f32_one; f32_zero]) |}) = 0.
Proof. split; vm_compute; reflexivity. Qed.
