(* ===== verification/ConfigLog.v ===== *)
(** * The configuration, out loud
      ([conflux-config/src/source.rs], [types.rs], [ResolvedConfig::to_log_lines])

    The spellings of the closed enums, the log line of one resolved parameter in
    either format, and the lines a server prints of its whole configuration.  A
    JSON line is read back by a reader of flat JSON objects, written here from the
    grammar.  The printed form of a float is a parameter. *)

From S2P Require Import Prelude Float Store Config Experiment.
From Stdlib Require Import Ascii.

Open Scope Z_scope.

(** ** Spellings *)

Definition ConnectionMode_as_str (self : ConnectionMode) : string := match self with Push => "push" | Pull => "pull" end.
Definition AuthMode_as_str (self : AuthMode) : string := match self with Mtls => "mtls" | Jwt => "jwt" end.
Definition SeedMode_as_str (self : SeedMode) : string :=
  match self with FixedSeed => "fixed" | OsRandomSeed => "os_random" end.
Definition BudgetExhaustedAction_as_str (self : BudgetExhaustedAction) : string :=
  match self with Halt => "halt" | ContinueWithoutGuarantee => "continue_without_guarantee" end.
Definition AccountingScope_as_str (self : AccountingScope) : string :=
  match self with Global => "global" | PerClient => "per_client" end.
Definition LogFormat_as_str (self : LogFormat) : string := match self with Json => "json" | Config.Text => "text" end.
Definition RoundLogDetail_as_str (self : RoundLogDetail) : string :=
  match self with Quiet => "quiet" | Changes => "changes" | Every => "every" end.

Definition RoundLogDetail_from_str (s : string) : option RoundLogDetail :=
  if String.eqb s "quiet" then Some Quiet
  else if String.eqb s "changes" then Some Changes
  else if String.eqb s "every" then Some Every else None.

Lemma RoundLogDetail_roundtrip d : RoundLogDetail_from_str (RoundLogDetail_as_str d) = Some d.
Proof. by destruct d. Qed.

(** ** One line *)

Notation chars := (list ascii).
Notation text := String.list_ascii_of_string.

Definition tag (self : ConfigSource) : string :=
  match self with
  | Cli => "cli" | EnvVar _ => "env_var" | ExperimentFile _ => "experiment_file" | FromMode _ => "mode_profile"
  | FromTopology _ => "topology_profile" | BuiltinFallback => "builtin_fallback"
  end.

Definition json_qualifier (self : ConfigSource) : option (string * string) :=
  match self with
  | Cli | BuiltinFallback => None
  | EnvVar name => Some ("var", name)
  | ExperimentFile path => Some ("file", path)
  | FromMode name | FromTopology name => Some ("profile", name)
  end%string.

Definition quote : ascii := ascii_of_nat 34.
Definition backslash : ascii := "\"%char.

(** [str]'s [Debug], on ASCII: what it does not print is [\u{..}]. *)
Definition debug_char (c : ascii) : chars :=
  let n := nat_of_ascii c in
  if ascii_dec c quote then [backslash; quote]
  else if ascii_dec c backslash then [backslash; backslash]
  else if (n =? 9)%nat then [backslash; "t"%char]
  else if (n =? 10)%nat then [backslash; "n"%char]
  else if (n =? 13)%nat then [backslash; "r"%char]
  else if (n =? 0)%nat then [backslash; "0"%char]
  else if (n <? 32)%nat || (n =? 127)%nat then
    [backslash; "u"%char; "{"%char] ++ (if (n <? 16)%nat then [] else [hex_digit (n / 16)]) ++ [hex_digit (n mod 16); "}"%char]
  else [c].

Definition debug (s : string) : chars := [quote] ++ concat (map debug_char (text s)) ++ [quote].

Definition text_phrase (self : ConfigSource) : chars :=
  match self with
  | Cli => text "cli"
  | EnvVar name => text "env var " ++ text name
  | ExperimentFile path => text "experiment file " ++ debug path
  | FromMode name => text "mode profile " ++ debug name
  | FromTopology name => text "topology profile " ++ debug name
  | BuiltinFallback => text "built-in fallback"
  end.

Inductive LoggedValue : Type := Number (s : chars) | TextValue (s : string).

(** [{param:<24}] *)
Definition padded (param : chars) : chars := param ++ replicate (24 - length param) " "%char.

Definition log_line (format : LogFormat) (param : string) (value : LoggedValue) (source : ConfigSource) : chars :=
  match format with
  | Json =>
      let value_json := match value with Number s => s | TextValue s => debug s end in
      text "{" ++ [quote] ++ text "param" ++ [quote] ++ text ":" ++ [quote] ++ text param ++ [quote] ++ text "," ++
      [quote] ++ text "value" ++ [quote] ++ text ":" ++ value_json ++ text "," ++
      [quote] ++ text "source" ++ [quote] ++ text ":" ++ [quote] ++ text (tag source) ++ [quote] ++
      match json_qualifier source with
      | Some (key, val) => text "," ++ [quote] ++ text key ++ [quote] ++ text ":" ++ debug val
      | None => []
      end ++ text "}"
  | Config.Text =>
      text "[config] " ++ padded (text param) ++ text " = " ++
      match value with Number s => s | TextValue s => text s end ++
      text "  (source: " ++ text_phrase source ++ text ")"
  end.

(** ** Reading a line back *)

Inductive JsonValue : Type := JString (s : chars) | JBare (token : chars).

(** JSON's short escapes. *)
Definition unescape (c : ascii) : option ascii :=
  if ascii_dec c quote then Some quote
  else if ascii_dec c backslash then Some backslash
  else if ascii_dec c "/" then Some "/"%char
  else if ascii_dec c "b" then Some (ascii_of_nat 8)
  else if ascii_dec c "f" then Some (ascii_of_nat 12)
  else if ascii_dec c "n" then Some (ascii_of_nat 10)
  else if ascii_dec c "r" then Some (ascii_of_nat 13)
  else if ascii_dec c "t" then Some (ascii_of_nat 9)
  else None.

Definition hex_value (c : ascii) : option nat :=
  let n := nat_of_ascii c in
  if (48 <=? n)%nat && (n <=? 57)%nat then Some (n - 48)%nat
  else if (97 <=? n)%nat && (n <=? 102)%nat then Some (n - 87)%nat
  else if (65 <=? n)%nat && (n <=? 70)%nat then Some (n - 55)%nat else None.

(** [\uXXXX], for what is one byte. *)
Definition unicode_escape (a b c d : ascii) : option ascii :=
  a ← hex_value a; b ← hex_value b; c ← hex_value c; d ← hex_value d;
  if (a =? 0)%nat && (b =? 0)%nat && (c <? 8)%nat then Some (ascii_of_nat (c * 16 + d)) else None.

(** After the opening quote: the string, and what follows its closing quote. *)
Fixpoint read_string (l : chars) : option (chars * chars) :=
  match l with
  | [] => None
  | c :: r =>
      if ascii_dec c quote then Some ([], r)
      else if ascii_dec c backslash then
        match r with
        | [] => None
        | e :: r' =>
            if ascii_dec e "u" then
              match r' with
              | a :: b :: c' :: d :: r' =>
                  x ← unicode_escape a b c' d; '(s, rest) ← read_string r'; Some (x :: s, rest)
              | _ => None
              end
            else x ← unescape e; '(s, rest) ← read_string r'; Some (x :: s, rest)
        end
      else if (nat_of_ascii c <? 32)%nat then None
      else '(s, rest) ← read_string r; Some (c :: s, rest)
  end.

(** A token that is not a string ends at a comma or a brace. *)
Fixpoint read_bare (l : chars) : chars * chars :=
  match l with
  | c :: r => if decide (c ∈ [","; "}"]%char) then ([], l) else let '(t, rest) := read_bare r in (c :: t, rest)
  | [] => ([], [])
  end.

Definition read_value (l : chars) : option (JsonValue * chars) :=
  match l with
  | c :: r =>
      if ascii_dec c quote then '(s, rest) ← read_string r; Some (JString s, rest)
      else match read_bare l with ([], _) => None | (t, rest) => Some (JBare t, rest) end
  | [] => None
  end.

Fixpoint read_members (fuel : nat) (l : chars) : option (list (chars * JsonValue)) :=
  match fuel, l with
  | S fuel, c :: r =>
      if ascii_dec c quote then
        '(key, rest) ← read_string r;
        match rest with
        | colon :: rest =>
            if ascii_dec colon ":" then
              '(v, rest) ← read_value rest;
              match rest with
              | [] => None
              | c :: rest =>
                  if ascii_dec c "," then ms ← read_members fuel rest; Some ((key, v) :: ms)
                  else if ascii_dec c "}" then match rest with [] => Some [(key, v)] | _ => None end
                  else None
              end
            else None
        | [] => None
        end
      else None
  | _, _ => None
  end.

Definition read_object (l : chars) : option (list (chars * JsonValue)) :=
  match l with c :: r => if ascii_dec c "{" then read_members (length r) r else None | [] => None end.

(** ** Every line *)

Section lines.
Context (show_f32 : f32 → chars) (show_f64 : f64 → chars).

Definition show_bool (b : bool) : chars := text (if b then "true" else "false").

Definition logged (p : param) : rtype p → LoggedValue :=
  match p return rtype p → LoggedValue with
  | P_connection_mode => λ v, TextValue (ConnectionMode_as_str v)
  | P_auth => λ v, TextValue (AuthMode_as_str v)
  | P_seed_mode => λ v, TextValue (SeedMode_as_str v)
  | P_seed_value => λ v, match v with Some v => Number (u64_to_string v) | None => TextValue "n/a" end
  | P_selector | P_aggregator | P_privacy_mechanism => λ v, TextValue v
  | P_round_timeout_secs | P_client_registry_ttl | P_max_update_bytes | P_scaffold_num_clients
  | P_round_history_len => λ v, Number (u64_to_string v)
  | P_reputation_filter_enabled | P_client_side_privacy_transform | P_allow_stub_client | P_require_node_auth =>
      λ v, Number (show_bool v)
  | P_target_epsilon | P_delta => λ v, Number (show_f64 v)
  | P_budget_exhausted_action => λ v, TextValue (BudgetExhaustedAction_as_str v)
  | P_accounting_scope => λ v, TextValue (AccountingScope_as_str v)
  | P_config_log_format => λ v, TextValue (LogFormat_as_str v)
  | P_round_log_detail => λ v, TextValue (RoundLogDetail_as_str v)
  | _ => λ v, Number (show_f32 v)
  end.

Definition param_entry (c : ResolvedConfig) (p : param) : string * LoggedValue * ConfigSource :=
  (field_name p, logged p (getv c p), source (cfg c p)).

Definition quorum_entry (c : ResolvedConfig) : list (string * LoggedValue * ConfigSource) :=
  match cfg_quorum c with
  | Some quorum => [("quorum"%string, Number (u64_to_string (value quorum)), source quorum)]
  | None => []
  end.

(** The parameters in the order of their lines; [quorum], when set, follows
    [max_update_bytes]. *)
Definition log_entries (c : ResolvedConfig) : list (string * LoggedValue * ConfigSource) :=
  map (param_entry c) (take 6 all_params) ++ quorum_entry c ++ map (param_entry c) (drop 6 all_params).

Definition to_log_lines (c : ResolvedConfig) (format : LogFormat) : list chars :=
  map (λ '(param, value, source), log_line format param value source) (log_entries c).
End lines.

(** ** Facts *)

(** What [Debug] and JSON spell alike: printable ASCII, tab and the line ends. *)
Definition shared (c : ascii) : bool :=
  let n := nat_of_ascii c in
  ((32 <=? n)%nat && (n <? 127)%nat) || (n =? 9)%nat || (n =? 10)%nat || (n =? 13)%nat.

(** What both leave as it is. *)
Definition plain (c : ascii) : bool :=
  let n := nat_of_ascii c in
  (32 <=? n)%nat && (n <? 127)%nat && negb (n =? 34)%nat && negb (n =? 92)%nat.

Lemma read_debug_char c rest :
  shared c = true →
  read_string (debug_char c ++ rest) = '(s, r) ← read_string rest; Some (c :: s, r).
Proof. by destruct c as [[] [] [] [] [] [] [] []]. Qed.

Lemma read_plain_char c rest :
  plain c = true → read_string (c :: rest) = '(s, r) ← read_string rest; Some (c :: s, r).
Proof. by destruct c as [[] [] [] [] [] [] [] []]. Qed.

Lemma read_debug l rest :
  Forall (λ c, shared c = true) l → read_string (concat (map debug_char l) ++ quote :: rest) = Some (l, rest).
Proof.
  induction 1 as [|c l Hc _ IH]; [done|]. cbn [map concat]. rewrite <-app_assoc, read_debug_char by done.
  by rewrite IH.
Qed.

Lemma read_plain l rest :
  Forall (λ c, plain c = true) l → read_string (l ++ quote :: rest) = Some (l, rest).
Proof.
  induction 1 as [|c l Hc _ IH]; [done|]. rewrite <-app_comm_cons, read_plain_char by done. by rewrite IH.
Qed.

(** A token that ends where the next member, or the object, does. *)
Definition bare (t : chars) : bool :=
  match t with [] => false | c :: _ => negb (Ascii.eqb c quote) end &&
  forallb (λ c, negb (bool_decide (c ∈ [","; "}"]%char))) t.

Definition ends_value (rest : chars) : Prop := ∃ c rest', rest = c :: rest' ∧ c ∈ [","; "}"]%char.

Lemma read_bare_app t rest :
  forallb (λ c, negb (bool_decide (c ∈ [","; "}"]%char))) t = true → ends_value rest → read_bare (t ++ rest) = (t, rest).
Proof.
  intros Ht (c & rest' & -> & Hc). induction t as [|x t IH]; simpl in *; [by rewrite decide_True|].
  apply andb_true_iff in Ht as [Hx Ht]. rewrite negb_true_iff, bool_decide_eq_false in Hx.
  rewrite decide_False by done. by rewrite IH.
Qed.

Definition print_value (v : LoggedValue) : chars := match v with Number s => s | TextValue s => debug s end.
Definition json_of (v : LoggedValue) : JsonValue := match v with Number s => JBare s | TextValue s => JString (text s) end.

(** A value whose printed form JSON can read. *)
Definition readable (v : LoggedValue) : Prop :=
  match v with Number s => bare s = true | TextValue s => Forall (λ c, shared c = true) (text s) end.

Lemma read_printed v rest : readable v → ends_value rest → read_value (print_value v ++ rest) = Some (json_of v, rest).
Proof.
  destruct v as [t|s]; simpl; intros Hv Hr.
  - unfold bare in Hv. apply andb_true_iff in Hv as [Hh Ht]. pose proof (read_bare_app t rest Ht Hr) as Hread.
    destruct t as [|c t]; [done|]. rewrite negb_true_iff, Ascii.eqb_neq in Hh. cbn [app] in *. unfold read_value.
    destruct (ascii_dec c quote); [done|]. by rewrite Hread.
  - unfold debug. rewrite <-!app_assoc. cbn [app]. unfold read_value. destruct (ascii_dec quote quote); [|done].
    by rewrite read_debug.
Qed.

(** One member, followed by another or by the end. *)
Lemma read_member fuel k v rest :
  Forall (λ c, plain c = true) k → readable v →
  read_members (S fuel) (quote :: k ++ quote :: ":"%char :: print_value v ++ ","%char :: rest) =
    (ms ← read_members fuel rest; Some ((k, json_of v) :: ms)).
Proof.
  intros Hk Hv. cbn [read_members]. destruct (ascii_dec quote quote); [|done]. rewrite read_plain by done.
  cbn [mbind option_bind]. destruct (ascii_dec ":" ":"); [|done].
  rewrite read_printed; [|done|by exists ","%char, rest; split; [|apply list_elem_of_here]]. done.
Qed.

Lemma read_last_member fuel k v :
  Forall (λ c, plain c = true) k → readable v →
  read_members (S fuel) (quote :: k ++ quote :: ":"%char :: print_value v ++ ["}"%char]) = Some [(k, json_of v)].
Proof.
  intros Hk Hv. cbn [read_members]. destruct (ascii_dec quote quote); [|done]. rewrite read_plain by done.
  cbn [mbind option_bind]. destruct (ascii_dec ":" ":"); [|done].
  rewrite read_printed; [done|done|]. exists "}"%char, []. split; [done|]. apply list_elem_of_further, list_elem_of_here.
Qed.

(** The members of a line. *)
Definition line_members (param : string) (value : LoggedValue) (source : ConfigSource) : list (chars * JsonValue) :=
  [(text "param", JString (text param)); (text "value", json_of value); (text "source", JString (text (tag source)))] ++
  match json_qualifier source with Some (key, val) => [(text key, JString (text val))] | None => [] end.

Definition readable_source (source : ConfigSource) : Prop :=
  match json_qualifier source with Some (_, val) => Forall (λ c, shared c = true) (text val) | None => True end.

Definition plainly (s : string) : bool := forallb plain (text s).

Lemma plainly_spec s : plainly s = true → Forall (λ c, plain c = true) (text s).
Proof. unfold plainly. rewrite forallb_forall, Forall_forall. intros H c Hc. by apply H, list_elem_of_In. Qed.

Lemma plain_shared c : plain c = true → shared c = true.
Proof. by destruct c as [[] [] [] [] [] [] [] []]. Qed.

Lemma plain_debug l : Forall (λ c, plain c = true) l → concat (map debug_char l) = l.
Proof.
  induction 1 as [|c l Hc _ IH]; [done|]. cbn [map concat]. rewrite IH.
  by destruct c as [[] [] [] [] [] [] [] []].
Qed.

(** A name that needs no escape is printed as a value would be. *)
Lemma plain_printed s : plainly s = true → [quote] ++ text s ++ [quote] = print_value (TextValue s).
Proof. intros Hs. simpl. unfold debug. by rewrite plain_debug by by apply plainly_spec. Qed.

Lemma plain_readable s : plainly s = true → readable (TextValue s).
Proof. intros Hs%plainly_spec. simpl. eapply Forall_impl; [exact Hs|]. apply plain_shared. Qed.

(** A line, member by member. *)
Lemma log_line_members param v source :
  plainly param = true →
  log_line Json param v source =
    "{"%char :: quote :: text "param" ++ quote :: ":"%char :: print_value (TextValue param) ++ ","%char ::
    quote :: text "value" ++ quote :: ":"%char :: print_value v ++ ","%char ::
    quote :: text "source" ++ quote :: ":"%char :: print_value (TextValue (tag source)) ++
    match json_qualifier source with
    | Some (key, val) => ","%char :: quote :: text key ++ quote :: ":"%char :: print_value (TextValue val) ++ ["}"%char]
    | None => ["}"%char]
    end.
Proof.
  intros Hp. rewrite <-(plain_printed param) by done.
  rewrite <-(plain_printed (tag source)) by (by destruct source).
  unfold log_line. fold (print_value v). rewrite <-!app_assoc.
  destruct (json_qualifier source) as [[key val]|]; do 3 (cbn [app]; rewrite <-?app_assoc); reflexivity.
Qed.

Lemma line_read fuel param v source :
  plainly param = true → readable v → readable_source source →
  read_members (S (S (S (S fuel))))
    (quote :: text "param" ++ quote :: ":"%char :: print_value (TextValue param) ++ ","%char ::
     quote :: text "value" ++ quote :: ":"%char :: print_value v ++ ","%char ::
     quote :: text "source" ++ quote :: ":"%char :: print_value (TextValue (tag source)) ++
     match json_qualifier source with
     | Some (key, val) => ","%char :: quote :: text key ++ quote :: ":"%char :: print_value (TextValue val) ++ ["}"%char]
     | None => ["}"%char]
     end) = Some (line_members param v source).
Proof.
  intros Hp Hv Hs. pose proof (plain_readable param Hp) as Hparam.
  assert (Htag : readable (TextValue (tag source))) by (apply plain_readable; by destruct source).
  rewrite read_member; [|by apply plainly_spec|done]. rewrite read_member; [|by apply plainly_spec|done].
  unfold readable_source in Hs. unfold line_members.
  destruct (json_qualifier source) as [[key val]|] eqn:Hq.
  - rewrite read_member; [|by apply plainly_spec|done].
    rewrite read_last_member; [done| |done].
    apply plainly_spec. destruct source; try discriminate Hq; by injection Hq as <- _.
  - by rewrite read_last_member; [|by apply plainly_spec|].
Qed.

(** A JSON line says what it was made of. *)
Lemma json_line_roundtrip param v source :
  plainly param = true → readable v → readable_source source →
  read_object (log_line Json param v source) = Some (line_members param v source).
Proof.
  intros Hp Hv Hs. rewrite log_line_members by done. unfold read_object.
  destruct (ascii_dec "{" "{"); [|done].
  match goal with |- read_members (length ?r) ?r = _ => assert (∃ f, length r = S (S (S (S f)))) as [f ->] end;
    [eexists; reflexivity|]. by apply line_read.
Qed.

(** The members tell the sources apart. *)
Lemma line_members_inj param v source source' :
  line_members param v source = line_members param v source' → source = source'.
Proof.
  unfold line_members. intros H. apply (f_equal (drop 2)) in H. simpl in H.
  assert (Htext : ∀ a b : string, text a = text b → a = b).
  { intros a b Hab. apply (f_equal String.string_of_list_ascii) in Hab.
    by rewrite !String.string_of_list_ascii_of_string in Hab. }
  destruct source, source'; simpl in H; try discriminate H; try reflexivity; injection H as H; f_equal; by apply Htext.
Qed.

Lemma decimal_bare fuel n : 0 ≤ n → (0 < fuel)%nat → bare (decimal fuel n) = true.
Proof.
  assert (Hall : ∀ d, 0 ≤ d < 10 → digit d ≠ quote ∧ digit d ∉ [","; "}"]%char).
  { intros d Hd. pose proof (digit_value_digit d Hd) as Hv. rewrite !not_elem_of_cons. 
    split; [|split; [|split; [|apply not_elem_of_nil]]]; intros He; by rewrite He in Hv. }
  assert (Hd : ∀ fuel n, 0 ≤ n → forallb (λ c, negb (bool_decide (c ∈ [","; "}"]%char))) (decimal fuel n) = true).
  { clear fuel n. induction fuel as [|fuel IH]; intros n Hn; [done|]. cbn [decimal].
    destruct (n <? 10) eqn:Hl; [apply Z.ltb_lt in Hl|].
    - simpl. rewrite bool_decide_false by (apply Hall; lia). done.
    - rewrite forallb_app, IH by (apply Z.div_pos; lia). simpl.
      rewrite bool_decide_false by (apply Hall, Z.mod_pos_bound; lia). done. }
  intros Hn Hf. unfold bare. rewrite Hd, andb_true_r by done.
  destruct (decimal_head fuel n Hn Hf) as (d & l & -> & Hr). rewrite negb_true_iff. by apply Ascii.eqb_neq, Hall.
Qed.

Section all_lines.
Context (show_f32 : f32 → chars) (show_f64 : f64 → chars).

(** [Display] of a float: digits, a sign, a point, [inf] or [NaN]. *)
Context (Hf32 : ∀ x, bare (show_f32 x) = true) (Hf64 : ∀ x, bare (show_f64 x) = true).

(** The values a configuration holds: [u64]s, and names that are printable. *)
Definition wholesome (p : param) : rtype p → Prop :=
  match p return rtype p → Prop with
  | P_selector | P_aggregator | P_privacy_mechanism => λ v, Forall (λ c, shared c = true) (text v)
  | P_round_timeout_secs | P_client_registry_ttl | P_max_update_bytes | P_scaffold_num_clients
  | P_round_history_len => λ v, 0 ≤ v
  | P_seed_value => λ v, match v with Some v => 0 ≤ v | None => True end
  | _ => λ _, True
  end.

Lemma logged_readable p v : wholesome p v → readable (logged show_f32 show_f64 p v).
Proof.
  assert (Hplain : ∀ s, plainly s = true → readable (TextValue s)) by exact plain_readable.
  destruct p; cbn [wholesome logged]; intros Hv; try exact (Hf32 v); try exact (Hf64 v); try exact Hv;
    try (apply decimal_bare; [exact Hv|lia]); try (by destruct v; apply Hplain); try (by destruct v).
  destruct v as [v|]; [apply decimal_bare; [exact Hv|lia]|by apply Hplain].
Qed.

Lemma field_names_plain p : plainly (field_name p) = true.
Proof. by destruct p. Qed.

Lemma all_params_complete p : p ∈ all_params.
Proof. apply (bool_decide_unpack _). by destruct p. Qed.

Lemma entry_listed c p : param_entry show_f32 show_f64 c p ∈ log_entries show_f32 show_f64 c.
Proof.
  unfold log_entries. rewrite !elem_of_app. pose proof (all_params_complete p) as Hp.
  rewrite <-(take_drop 6 all_params), elem_of_app in Hp.
  destruct Hp as [Hp|Hp]; [left|right; right]; by apply list_elem_of_fmap_2.
Qed.

(** ** Properties *)

(** The configuration log leaves nothing out and can be read back: it has one
    line for each parameter and one for the quorum when one is set, under distinct
    names; and in JSON the line of a parameter is an object from which its name,
    its resolved value and the tier that set it can be recovered. *)
Theorem config_log_tells_all c
    (Hvalues : ∀ p, wholesome p (getv c p)) (Hsources : ∀ p, readable_source (source (cfg c p))) :
  length (to_log_lines show_f32 show_f64 c Json) = (33 + match cfg_quorum c with Some _ => 1 | None => 0 end)%nat ∧
  NoDup (map (λ e, e.1.1) (log_entries show_f32 show_f64 c)) ∧
  ∀ p, ∃ line, line ∈ to_log_lines show_f32 show_f64 c Json ∧
    read_object line = Some (line_members (field_name p) (logged show_f32 show_f64 p (getv c p)) (source (cfg c p))) ∧
    ∀ source', line_members (field_name p) (logged show_f32 show_f64 p (getv c p)) (source (cfg c p)) =
               line_members (field_name p) (logged show_f32 show_f64 p (getv c p)) source' →
               source' = source (cfg c p).
Proof.
  split; [|split].
  - unfold to_log_lines, log_entries, quorum_entry. rewrite length_map, !length_app, !length_map.
    by destruct (cfg_quorum c).
  - unfold log_entries, quorum_entry. rewrite !map_app, !map_map. simpl.
    apply (bool_decide_unpack _). by destruct (cfg_quorum c).
  - intros p. eexists. split; [|split].
    + unfold to_log_lines. apply list_elem_of_fmap. exists (param_entry show_f32 show_f64 c p).
      split; [reflexivity|apply entry_listed].
    + apply json_line_roundtrip; [apply field_names_plain|apply logged_readable, Hvalues|apply Hsources].
    + intros source' H. symmetry. by apply line_members_inj in H.
Qed.
End all_lines.

(** ** Witness and limit *)

Definition digit_show {F} (_ : F) : chars := text "0.5".

Definition env_krum : Overrides :=
  {| ov p := match p return option (ptype p) with P_aggregator => Some "krum"%string | _ => None end; ov_quorum := Some 3 |}.

#[local] Notation logged_config := (resolve CrossSilo Production None env_krum Overrides_default).

Lemma logged_config_wholesome p : wholesome p (getv logged_config p).
Proof.
  destruct p; cbn [wholesome]; try exact Logic.I; try (vm_compute; discriminate);
    apply (bool_decide_unpack _); vm_compute; exact Logic.I.
Qed.

Lemma logged_config_sources p : readable_source (source (cfg logged_config p)).
Proof.
  assert (Hall : ∀ q, forallb (λ c, shared c) (match json_qualifier (source (cfg logged_config q)) with
                                                Some (_, val) => text val | None => [] end) = true)
    by (intros q; destruct q; vm_compute; reflexivity).
  specialize (Hall p). unfold readable_source. destruct (json_qualifier _) as [[key val]|]; [|done].
  rewrite forallb_forall in Hall. apply Forall_forall. intros c Hc. by apply Hall, list_elem_of_In.
Qed.

Lemma config_log_tells_all_witness :
  length (to_log_lines digit_show digit_show logged_config Json) = 34%nat ∧
  ∃ line, line ∈ to_log_lines digit_show digit_show logged_config Json ∧
    read_object line = Some [(text "param", JString (text "aggregator")); (text "value", JString (text "krum"));
                             (text "source", JString (text "env_var")); (text "var", JString (text "CONFLUX_AGGREGATOR"))].
Proof.
  destruct (config_log_tells_all digit_show digit_show (λ _, eq_refl) (λ _, eq_refl) logged_config
    logged_config_wholesome logged_config_sources) as (Hlen & _ & Hlines).
  split; [exact Hlen|]. destruct (Hlines P_aggregator) as (line & Hin & Hread & _). exists line. split; [exact Hin|exact Hread].
Defined.

(** [Debug] escapes a control character in Rust's way, and the line is then not
    JSON: here a name with an escape character in it. *)
Lemma control_character_breaks_json :
  read_object (log_line Json "aggregator" (TextValue (String (ascii_of_nat 27) EmptyString)) Cli) = None.
Proof. vm_compute. reflexivity. Qed.
