(* ===== verification/CatalogCommand.v ===== *)
(** * The catalog, printed ([cflux/src/commands/catalog.rs])

    [cflux catalog list] and [cflux catalog describe]: the registered strategies,
    grouped by kind and sorted, and one strategy with what it needs beyond the
    server.  The registry and the methods behind it are [Catalog]'s; what is shown
    here is that the two agree. *)

From S2P Require Import Prelude Float Wire Weights Averaging Contracts Flanders Catalog Dispatcher Startup ConfigCommand.
From S2P Require Import Doctor.

Open Scope Z_scope.

(** ** Data *)

Inductive Kind : Type := OnlyAggregators | OnlySelectors | OnlyPrivacy | AllKinds.

Definition strategy_kinds (self : Kind) : list StrategyKind :=
  match self with
  | OnlyAggregators => [Kind_Aggregator]
  | OnlySelectors => [Kind_Selector]
  | OnlyPrivacy => [Kind_PrivacyMechanism]
  | AllKinds => [Kind_Aggregator; Kind_Selector; Kind_PrivacyMechanism]
  end.

Definition kind_label (kind : StrategyKind) : string :=
  match kind with
  | Kind_Aggregator => "aggregator" | Kind_Selector => "selector" | Kind_PrivacyMechanism => "privacy_mechanism"
  end.

(** What a method needs beyond the server. *)
Definition catalog_sidecar (entry : StrategyEntry) : option string :=
  if bool_decide (entry_kind entry = Kind_Aggregator) && String.eqb (entry_family entry) "trusted"
  then Some "trusted-reference"%string else None.

Record EntryJson := {
  ej_name : string;
  ej_kind : string;
  ej_family : string;
  ej_params : list string;
  ej_sidecar : option string;
}.

Definition entry_json (entry : StrategyEntry) : EntryJson :=
  {| ej_name := entry_name entry; ej_kind := kind_label (entry_kind entry); ej_family := entry_family entry;
     ej_params := entry_params entry; ej_sidecar := catalog_sidecar entry |}.

(** [sort_by_key(|e| (e.family, e.name))] *)
Definition by_family_and_name (a b : StrategyEntry) : bool :=
  if decide (entry_family a = entry_family b) then bool_decide (String.le (entry_name a) (entry_name b))
  else bool_decide (String.le (entry_family a) (entry_family b)).

Inductive CatalogBody : Type :=
  | Groups (groups : list (string * list EntryJson))
  | Described (entry : EntryJson)
  | NoStrategy (name : string) (known : list string).

(** ** The commands *)

Section catalog_command.
Context (registry : list StrategyEntry).

Definition catalog_group (kind : StrategyKind) : string * list EntryJson :=
  (kind_label kind +:+ "s", map entry_json (sort_by by_family_and_name (entries registry kind))).

Definition catalog_list (kind : Kind) : Report CatalogBody :=
  Report_plain (Groups (map catalog_group (strategy_kinds kind))) 0.

(** [find_map] over the three kinds. *)
Definition find_entry (name : string) : option StrategyEntry :=
  head (omap (λ kind, lookup_strategy registry kind name) (strategy_kinds AllKinds)).

Definition catalog_describe (name : string) : Report CatalogBody :=
  match find_entry name with
  | None =>
      Report_plain (NoStrategy name (flat_map (λ kind, map entry_name (entries registry kind)) (strategy_kinds AllKinds)))
                   EXIT_NEGATIVE
  | Some entry => Report_plain (Described (entry_json entry)) 0
  end.

Inductive CatalogAsk : Type := ListKind (kind : Kind) | DescribeName (name : string).

Definition catalog_run (ask : CatalogAsk) : outcome CliError (Report CatalogBody) :=
  Ok match ask with ListKind kind => catalog_list kind | DescribeName name => catalog_describe name end.
End catalog_command.

(** ** Facts *)

Lemma lookup_strategy_found registry kind name e :
  lookup_strategy registry kind name = Some e → e ∈ registry ∧ entry_kind e = kind ∧ entry_name e = name.
Proof.
  intros [Hin He]%find_some. apply andb_true_iff in He as [Hk%bool_decide_eq_true Hn%String.eqb_eq].
  by apply list_elem_of_In in Hin.
Qed.

Lemma shipped_names_distinct : NoDup (map entry_name shipped_entries).
Proof. apply (bool_decide_unpack _). reflexivity. Qed.

(** Of the shipped methods the trusted family is two. *)
Lemma shipped_sidecar e :
  e ∈ shipped_entries → entry_kind e = Kind_Aggregator →
  (is_Some (catalog_sidecar e) ↔ String.eqb (entry_name e) "fltrust" || String.eqb (entry_name e) "zeno" = true).
Proof.
  intros He _. assert (Hall : Forall (λ e, bool_decide (is_Some (catalog_sidecar e)) =
    String.eqb (entry_name e) "fltrust" || String.eqb (entry_name e) "zeno") shipped_entries)
    by (repeat constructor; reflexivity).
  rewrite Forall_forall in Hall. rewrite <-(Hall e He). symmetry. apply bool_decide_eq_true.
Qed.

Lemma by_family_and_name_spec a b :
  by_family_and_name a b = true ↔
  String.le (entry_family a) (entry_family b) ∧
  (entry_family a = entry_family b → String.le (entry_name a) (entry_name b)).
Proof.
  unfold by_family_and_name. case_decide as Hf; rewrite bool_decide_eq_true; [|tauto].
  rewrite Hf. split; [|tauto]. intros H. split; [reflexivity|done].
Qed.

Lemma by_family_total x y : by_family_and_name x y = true ∨ by_family_and_name y x = true.
Proof.
  unfold by_family_and_name.
  destruct (decide (entry_family x = entry_family y)) as [Hf|Hf], (decide (entry_family y = entry_family x)) as [Hf'|Hf'];
    try congruence; rewrite !bool_decide_eq_true; apply (total String.le).
Qed.

Lemma by_family_trans x y z :
  by_family_and_name x y = true → by_family_and_name y z = true → by_family_and_name x z = true.
Proof.
  rewrite !by_family_and_name_spec. intros [Hxy Hn] [Hyz Hn']. split; [by etrans|]. intros He.
  assert (Hf : entry_family x = entry_family y) by (apply (anti_symm String.le); [done|by rewrite He]).
  etrans; [by apply Hn|]. apply Hn'. congruence.
Qed.

Section catalog_facts.
Context (registry : list StrategyEntry) (Hp : registry ≡ₚ shipped_entries).

(** What is printed does not depend on the order the linker chose. *)
Lemma group_of_shipped kind : catalog_group registry kind = catalog_group shipped_entries kind.
Proof.
  unfold catalog_group. do 2 f_equal. unfold entries. apply sort_by_unique.
  - apply by_family_total.
  - apply by_family_trans.
  - intros x y Hx Hy. rewrite !by_family_and_name_spec. intros [Hxy Hn] [Hyx Hn'].
    assert (Hf : entry_family x = entry_family y) by by apply (anti_symm String.le).
    apply list_elem_of_filter in Hx as [_ Hx], Hy as [_ Hy]. rewrite Hp in Hx, Hy.
    apply (NoDup_map_inj entry_name shipped_entries); [apply shipped_names_distinct|done|done|].
    apply (anti_symm String.le); auto.
  - by rewrite Hp.
Qed.

Lemma find_entry_aggregator name :
  is_Some (lookup_strategy registry Kind_Aggregator name) →
  find_entry registry name = lookup_strategy registry Kind_Aggregator name.
Proof. intros [e He]. unfold find_entry. simpl. by rewrite He. Qed.

Lemma find_entry_is_Some name :
  is_Some (find_entry registry name) ↔ ∃ kind, is_Some (lookup_strategy registry kind name).
Proof.
  unfold find_entry. simpl. split.
  - destruct (lookup_strategy registry Kind_Aggregator name) eqn:H1; [by exists Kind_Aggregator; rewrite H1|].
    destruct (lookup_strategy registry Kind_Selector name) eqn:H2; [by exists Kind_Selector; rewrite H2|].
    destruct (lookup_strategy registry Kind_PrivacyMechanism name) eqn:H3; [by exists Kind_PrivacyMechanism; rewrite H3|].
    by intros [? ?].
  - intros [kind H]. destruct (lookup_strategy registry Kind_Aggregator name) eqn:H1; [done|].
    destruct (lookup_strategy registry Kind_Selector name) eqn:H2; [done|].
    destruct (lookup_strategy registry Kind_PrivacyMechanism name) eqn:H3; [done|].
    destruct kind; first [by rewrite H1 in H; destruct H | by rewrite H2 in H; destruct H | by rewrite H3 in H; destruct H].
Qed.
End catalog_facts.

(** ** Properties *)

Section catalog_properties.
Context (ln : f32 → f32) (powf : f64 → f64 → f64).
Context (sort_unordered : list (nat * f64) → outcome AggregatorError (list (nat * f64))).
Notation build := (build_aggregator ln powf sort_unordered).

(** What the catalog prints is true of the methods.  Whatever order the linker
    collected the strategies in, each listed group is every strategy of its kind,
    once, by family and then by name, and the same text every time; [describe]
    answers for exactly the registered names; and a method it describes needs the
    sidecar exactly when the aggregator built under that name asks for one, however
    long it has been running, which is also what [cflux doctor] checks. *)
Theorem catalog_is_true registry (Hp : registry ≡ₚ shipped_entries) :
  (∀ kind, catalog_list registry kind = catalog_list shipped_entries kind) ∧
  (∀ kind, Sorted_by by_family_and_name (sort_by by_family_and_name (entries registry kind)) ∧
           sort_by by_family_and_name (entries registry kind) ≡ₚ entries registry kind) ∧
  (∀ name, exit_code (catalog_describe registry name) = 0 ↔ ∃ kind, name ∈ registered_names registry kind) ∧
  ∀ name params m m', build name params = Ok m → reached m m' →
    ∃ e, catalog_describe registry name = Report_plain (Described e) 0 ∧
         ej_name e = name ∧ ej_kind e = "aggregator"%string ∧
         (is_Some (ej_sidecar e) ↔ requires_trusted_reference m' || requires_candidate_scores m' = true) ∧
         let '(needs_reference, needs_scores) := sidecar_needs ln powf sort_unordered name in
         (is_Some (ej_sidecar e) ↔ needs_reference || needs_scores = true).
Proof.
  split; [|split; [|split]].
  - intros kind. unfold catalog_list. do 2 f_equal. apply map_ext. intros k. by apply group_of_shipped.
  - intros kind. split; [|apply sort_by_perm]. apply (sort_by_sorted _ (λ _, True)); [| |by apply Forall_true].
    + intros. apply by_family_total.
    + intros x y z _ _ _. apply by_family_trans.
  - intros name. unfold catalog_describe. pose proof (find_entry_is_Some registry name) as Hf.
    assert (Hk : (∃ kind, name ∈ registered_names registry kind) ↔ ∃ kind, is_Some (lookup_strategy registry kind name))
      by (split; intros [kind H]; exists kind; by apply lookup_strategy_is_Some).
    rewrite Hk, <-Hf. destruct (find_entry registry name) as [e|]; simpl; [by split|]. split; [done|by intros []].
  - intros name params m m' Hb Hr.
    destruct (sidecar_needs_exact ln powf sort_unordered name params m m' Hb Hr) as (Href & Hsc & _).
    destruct (catalog_matches_registry ln powf sort_unordered registry name params Hp) as (Hreg & _).
    rewrite Hb in Hreg. destruct (proj1 Hreg eq_refl) as [e He].
    exists (entry_json e). unfold catalog_describe. rewrite find_entry_aggregator by (by rewrite He). rewrite He.
    apply lookup_strategy_found in He as (Hin & Hk & Hn). split; [done|]. split; [done|].
    cbn [entry_json ej_sidecar ej_kind]. rewrite Hk. split; [done|].
    rewrite Hp in Hin. pose proof (shipped_sidecar e Hin Hk) as Hs. rewrite Hn in Hs. rewrite Href, Hsc. split; [done|].
    assert (Hneeds : sidecar_needs ln powf sort_unordered name = (String.eqb name "fltrust", String.eqb name "zeno")).
    { unfold sidecar_needs. destruct (build_cases ln powf sort_unordered name AggregatorParams_default) as [(_ & m0 & Hm0)|(Hnot & _)].
      - rewrite Hm0. destruct (sidecar_needs_exact ln powf sort_unordered name _ m0 m0 Hm0 (reached_start m0)) as (-> & -> & _).
        done.
      - exfalso. apply Hnot. destruct (build_cases ln powf sort_unordered name params) as [(Hi & _)|(_ & Hbad)]; [done|congruence]. }
    rewrite Hneeds. exact Hs.
Qed.
End catalog_properties.

(** ** Witness *)

Lemma catalog_is_true_witness :
  exit_code (catalog_describe shipped_entries "krum") = 0 ∧
  ∃ e, catalog_describe shipped_entries "fedadam" = Report_plain (Described e) 0 ∧ ej_sidecar e = None.
Proof.
  destruct (catalog_is_true (λ x, x) (λ x _, x) leave_unordered shipped_entries (reflexivity _)) as (_ & _ & Hname & Hm).
  split; [apply (Hname "krum"%string); exists Kind_Aggregator; apply lookup_strategy_is_Some; by eexists|].
  destruct (Hm "fedadam"%string AggregatorParams_default default_adam default_adam eq_refl (reached_start _))
    as (e & He & _ & _ & Hs & _).
  exists e. split; [exact He|]. injection He as <-. reflexivity.
Defined.
