(* ===== verification/BaselineRun.v ===== *)
(** * A federation for a paper's number ([conflux-baselines/src/federation.rs])

    What one baseline run starts and what it reads back: the data preparation, the
    plan handed to the supervisor of [Process] (a server configured by its
    environment, one node and one trainer per client, an evaluator), and the rounds
    the evaluator reported.  The commands it runs, the disk and the printed and
    parsed forms of floats are parameters. *)

From S2P Require Import Prelude Float FloatInt Wire Weights Privacy Store Config State Dispatcher Catalog Validate Profile.
From S2P Require Import Environment Experiment Submission Admin Node Client Startup SidecarService Federation Process.
From Stdlib Require Import Ascii.

Open Scope Z_scope.

(** ** Data *)

Definition LOCAL_STEPS_PER_ROUND : Z := 30.
Definition DEFAULT_BYZANTINE_FRACTION : f64 := f64_lit 3 10.
Definition DEFAULT_SEED : Z := 42.

Record Recipe := {
  re_model : string;
  re_dataset : string;
  re_partition : string;
  re_dirichlet_alpha : option f64;
}.

Record Plan := {
  bp_recipe : Recipe;
  bp_aggregator : string;
  bp_clients : Z;
  bp_attackers : Z;
  bp_rounds : Z;
  bp_no_reputation : bool;
  bp_seed : Z;
  bp_byzantine_fraction : option f64;
}.

Record RoundMetric := {
  rm_round : Z;
  rm_accuracy : f64;
  rm_loss : f64;
  rm_client_acc_min : option f64;
  rm_client_acc_std : option f64;
}.

Definition Outcome : Type := list RoundMetric.

Definition final_accuracy (self : Outcome) : f64 :=
  match last self with Some r => rm_accuracy r | None => S754_nan end.

(** [std::process::Output] *)
Record ChildOutput := { out_status : ExitStatus; out_stdout : string; out_stderr : string }.

(** ** Reading numbers back *)

Definition number_char (c : Ascii.ascii) : bool :=
  let n := Ascii.nat_of_ascii c in ((48 <=? n)%nat && (n <=? 57)%nat) || (n =? 46)%nat.

Fixpoint take_while {A} (f : A → bool) (l : list A) : list A :=
  match l with x :: l => if f x then x :: take_while f l else [] | [] => [] end.

Section reading.
(** [str::parse::<f64>] *)
Context (f64_from_str : string → option f64).

Definition field (line name : string) : option f64 :=
  i ← String.index 0 name line;
  let rest := from_index (i + String.length name) line in
  f64_from_str (String.string_of_list_ascii (take_while number_char (String.list_ascii_of_string rest))).

(** A round line carries all three; anything else is commentary. *)
Definition metric_of_line (line : string) : option RoundMetric :=
  round ← field line "round=";
  accuracy ← field line "held_out_accuracy=";
  loss ← field line "held_out_loss=";
  Some {| rm_round := f64_as_u32 round; rm_accuracy := accuracy; rm_loss := loss;
          rm_client_acc_min := field line "client_acc_min="; rm_client_acc_std := field line "client_acc_std=" |}.

(** [on_line]: the later reading of a round is the one taken. *)
Definition record_line (rounds : list RoundMetric) (line : string) : list RoundMetric :=
  match metric_of_line line with
  | None => rounds
  | Some metric =>
      match list_find (λ r, rm_round r = rm_round metric) rounds with
      | Some (i, _) => <[i := metric]> rounds
      | None => rounds ++ [metric]
      end
  end.

Definition by_round (a b : RoundMetric) : bool := rm_round a <=? rm_round b.
End reading.

(** ** What is started *)

Section plan.
Context (join : string → string → string) (show_f64 : f64 → string).
Context (repo_root : string) (python : string).

Definition work_dir : string := join (join repo_root "target") "baseline-work".
Definition cflux_path : string := join repo_root "target/debug/cflux".
Definition baselines_path : string := join repo_root "baselines".
Definition shard_file (i : Z) : string := join work_dir ("shard_" +:+ show_u64 i +:+ ".pt").

Definition prepare_args (plan : Plan) : list string :=
  ["-m"; "_harness.prepare"; "--model"; re_model (bp_recipe plan); "--dataset"; re_dataset (bp_recipe plan);
   "--partition"; re_partition (bp_recipe plan); "--clients"; show_u64 (bp_clients plan); "--out-dir"; work_dir;
   "--seed"; show_u64 (bp_seed plan)]%string ++
  match re_dirichlet_alpha (bp_recipe plan) with
  | Some alpha => ["--dirichlet-alpha"%string; show_f64 alpha]
  | None => []
  end.

(** The model's dimension, from the last line of the preparation that carries it. *)
Definition model_dim_of (line : string) : option Z :=
  let line := SidecarService.trim (String.list_ascii_of_string line) in
  rest ← Store.strip_prefix (String.list_ascii_of_string ("{" +:+ QUOTED "model_dim" +:+ ": ")) line;
  parse_u64 (SidecarService.trim (take_while (λ c, negb (Ascii.eqb c ","%char)) rest)).

Definition model_dim (stdout : string) : option Z := head (omap model_dim_of (rev (text_lines stdout))).

Definition min_reputation (plan : Plan) : string := if bp_no_reputation plan then "0.0" else "0.3".

(** What the server is told, in order. *)
Definition baseline_env (plan : Plan) (dim : Z) : list (string * string) :=
  [ ("CONFLUX_TOPOLOGY", "cross_device");
    ("CONFLUX_MODE", "research");
    ("CONFLUX_AGGREGATOR", bp_aggregator plan);
    ("CONFLUX_ROBUST_BYZANTINE_FRACTION", show_f64 (default DEFAULT_BYZANTINE_FRACTION (bp_byzantine_fraction plan)));
    ("CONFLUX_MIN_REPUTATION_SCORE", min_reputation plan);
    ("CONFLUX_QUORUM", show_u64 (bp_clients plan));
    ("CONFLUX_SCAFFOLD_NUM_CLIENTS", show_u64 (bp_clients plan));
    ("CONFLUX_ROUND_TIMEOUT_SECS", "60");
    ("CONFLUX_CLIP_NORM", "1000");
    ("CONFLUX_NOISE_MULTIPLIER", "0");
    ("CONFLUX_INITIAL_WEIGHTS_DIM", show_u64 dim);
    ("RUST_LOG", "warn") ]%string.

Definition with_envs (vars : list (string * string)) (s : Spawn) : Spawn := foldl (λ s '(k, v), with_env k v s) s vars.

Definition server_spawn (plan : Plan) (dim : Z) : Spawn :=
  with_envs (baseline_env plan dim) (arg "start" (arg "server" (Spawn_new cflux_path))).

(** [plan.seed * 1000 + i] in [u32]: a build with overflow checks panics. *)
Definition trainer_seed (seed i : Z) : outcome string Z :=
  if u32_max <? seed * 1000 then Panic
  else if u32_max <? seed * 1000 + i then Panic
  else Ok (seed * 1000 + i).

Definition poisoned (plan : Plan) (i : Z) : bool :=
  (Z.max 0 (bp_clients plan - bp_attackers plan) <=? i) && (0 <? bp_attackers plan).

Definition trainer_spawn (plan : Plan) (i : Z) : outcome string Spawn :=
  seed ← trainer_seed (bp_seed plan) i;
  let client :=
    with_env "PYTHONPATH" baselines_path
      (flag "--trainer-seed" (show_u64 seed)
        (flag "--steps" (show_u64 LOCAL_STEPS_PER_ROUND)
          (flag "--shard" (shard_file i)
            (flag "--model" (re_model (bp_recipe plan)) (arg "_harness.trainer" (arg "-m" (Spawn_new python))))))) in
  Ok (if poisoned plan i then arg "--poison" client else client).

Definition baseline_participant (plan : Plan) (i : nat) : outcome string ProcessParticipant :=
  client ← trainer_spawn plan (Z.of_nat i);
  Ok {| pp_client_id := "client-" +:+ show_u64 (Z.of_nat i);
        pp_node := with_env "RUST_LOG" "warn" (arg "start" (arg "node" (Spawn_new cflux_path)));
        pp_client := client |}.

Definition evaluator (plan : Plan) : Observer :=
  {| ob_client_id := "evaluator"; ob_node := 0; ob_stream_stdout := true;
     ob_spawn :=
       foldl (λ e i, arg (shard_file (Z.of_nat i)) e)
         (with_env "PYTHONPATH" baselines_path
           (arg "--shards"
             (flag "--timeout" "900"
               (flag "--rounds" (show_u64 (bp_rounds plan))
                 (flag "--held-out" (join work_dir "held_out.pt")
                   (flag "--model" (re_model (bp_recipe plan))
                     (arg "_harness.evaluator" (arg "-m" (Spawn_new python)))))))))
         (seq 0 (Z.to_nat (bp_clients plan))) |}.

Definition baseline_plan (plan : Plan) (dim : Z) : outcome string ProcessPlan :=
  participants ← collect (baseline_participant plan) (seq 0 (Z.to_nat (bp_clients plan)));
  Ok {| pl_server := server_spawn plan dim; pl_participants := participants; pl_observers := [evaluator plan];
        pl_rounds := Z.to_nat (bp_rounds plan); pl_startup_timeout := 60000; pl_run_timeout := 1800000;
        pl_log_dir := work_dir |}.
End plan.

(** ** The run *)

(** The calls it makes of the system beside the supervisor's. *)
Class BaselineOs (W : Type) := {
  remove_dir_all : string → W → W;
  exists_file : string → W → bool;
  (** [Command::output]: the program, its arguments, the directory it runs in *)
  command_output : string → list string → string → W → W * outcome string ChildOutput;
}.

Section run.
Context `{Os : ProcessOs W} `{BO : BaselineOs W}.
Context (join : string → string → string) (show_addr : SocketAddr → string)
        (addr_from_str : string → option SocketAddr) (show_f64 : f64 → string)
        (f64_from_str : string → option f64) (show_error : ProcessError → string) (repo_root : string).

Notation work_dir := (work_dir join repo_root).

Definition venv_python : string := join repo_root "python/conflux_client/.venv/bin/python".
Definition python_of (w : W) : string := if exists_file venv_python w then venv_python else "python3".

(** The last lines of a child's log, for a failure. *)
Definition log_tail (name : string) : stM W string string := λ w,
  let '(w, read) := read_file (join work_dir name) w in
  (w, Ok match read with
         | Some (Some text) =>
             match take 8 (rev (text_lines text)) with
             | [] => ""
             | kept => foldl (λ out line, out +:+ "  " +:+ line +:+ NEWLINE)
                             (NEWLINE +:+ "  --- " +:+ name +:+ " ---" +:+ NEWLINE) (rev kept)
             end
         | _ => ""
         end).

Definition os_call {A} (f : W → W * outcome string A) (say : string → string) : stM W string A :=
  λ w, let '(w, r) := f w in (w, map_err say r).

Definition prepare (plan : Plan) : stM W string Z :=
  gets python_of ≫= λ python,
  os_call (command_output python (prepare_args join show_f64 repo_root plan) (baselines_path join repo_root))
          (λ e, "could not run the data preparation: " +:+ e) ≫= λ output,
  if negb (success (out_status output))
  then of_outcome (Err ("data preparation failed:" +:+ NEWLINE +:+ out_stderr output))
  else of_outcome match model_dim (out_stdout output) with
                  | Some dim => Ok dim
                  | None => Err "data preparation printed no model dimension"%string
                  end.

Definition rounds_of (lines : list string) : list RoundMetric := foldl (record_line f64_from_str) [] lines.

(** [federation::run]; a supervision that never returns goes no further, as one that
    panics. *)
Definition baseline_run (fuel : nat) (plan : Plan) : stM W string Outcome :=
  modify (remove_dir_all work_dir) ≫= λ _,
  (λ w, let '(w, failed) := Process.create_dir_all work_dir w in
        (w, match failed with None => Ok () | Some e => Err ("cannot create a work dir: " +:+ e) end)) ≫= λ _,
  prepare plan ≫= λ dim,
  gets (exists_file (cflux_path join repo_root)) ≫= λ built,
  if negb built
  then of_outcome (Err (cflux_path join repo_root +:+ " is missing — run `cargo build -p cflux` first"))
  else
    gets python_of ≫= λ python,
    of_outcome (baseline_plan join show_f64 repo_root python plan dim) ≫= λ process_plan,
    (λ w, let '(s, r) := run_watching join show_addr addr_from_str fuel process_plan w in
          (sv_os s, map_err show_error (default Panic r ≫= λ _, Ok (rounds_of (sv_lines s))))) ≫= λ rounds,
    match rounds with
    | [] =>
        collectM log_tail ["observer-0-evaluator.log"; "client-0.log"; "server.log"]%string ≫= λ tails,
        of_outcome (Err (foldl String.append "the evaluator never reported held_out_accuracy" tails))
    | _ => mret (sort_by by_round rounds)
    end.

(** The bar a federated run is compared with. *)
Definition centralized_baseline (recipe : Recipe) (total_steps : Z) : stM W string f64 :=
  gets python_of ≫= λ python,
  os_call (command_output python
             ["-m"; "_harness.centralized"; "--model"; re_model recipe; "--pooled"; join work_dir "pooled.pt";
              "--held-out"; join work_dir "held_out.pt"; "--total-steps"; show_u64 total_steps]%string
             (baselines_path join repo_root))
          (λ e, "could not run the centralized baseline: " +:+ e) ≫= λ output,
  if negb (success (out_status output))
  then of_outcome (Err ("the centralized baseline failed:" +:+ NEWLINE +:+ out_stderr output))
  else of_outcome match head (omap (λ line, field f64_from_str line "held_out_accuracy=") (text_lines (out_stdout output))) with
                  | Some accuracy => Ok accuracy
                  | None => Err "the centralized baseline reported no accuracy"%string
                  end.
End run.

(** ** The rounds that are kept *)

Section rounds.
Context (f64_from_str : string → option f64).
Notation record_line := (record_line f64_from_str).
Notation metric_of_line := (metric_of_line f64_from_str).

(** The last of some readings that is of this round. *)
Definition last_reading (readings : list RoundMetric) (round : Z) : option RoundMetric :=
  last (base.filter (λ m, rm_round m = round) readings).

Definition faithful (readings rounds : list RoundMetric) : Prop :=
  NoDup (map rm_round rounds) ∧ ∀ r, r ∈ rounds ↔ last_reading readings (rm_round r) = Some r.

Lemma last_reading_app readings m round :
  last_reading (readings ++ [m]) round = if decide (rm_round m = round) then Some m else last_reading readings round.
Proof.
  unfold last_reading. rewrite filter_app, filter_cons, filter_nil. case_decide as Hm.
  - by rewrite last_snoc.
  - by rewrite app_nil_r.
Qed.

Lemma last_reading_round readings round m : last_reading readings round = Some m → rm_round m = round.
Proof. intros H%last_Some_elem_of. by apply list_elem_of_filter in H as [H _]. Qed.

Lemma record_faithful readings rounds m :
  faithful readings rounds →
  faithful (readings ++ [m])
    (match list_find (λ r, rm_round r = rm_round m) rounds with
     | Some (i, _) => <[i := m]> rounds
     | None => rounds ++ [m]
     end).
Proof.
  intros [Hnd Hin]. destruct (list_find _ rounds) as [[i old]|] eqn:Hf.
  - apply list_find_Some in Hf as (Hi & Hold & _).
    assert (Hmap : map rm_round (<[i := m]> rounds) = map rm_round rounds).
    { change (rm_round <$> <[i := m]> rounds = rm_round <$> rounds). rewrite list_fmap_insert.
      apply list_insert_id. by rewrite list_lookup_fmap, Hi, <-Hold. }
    split; [by rewrite Hmap|]. intros r. rewrite last_reading_app. 
    assert (Hlen : (i < length rounds)%nat) by (by apply lookup_lt_Some in Hi).
    split.
    + intros [j Hj]%list_elem_of_lookup. destruct (decide (i = j)) as [<-|Hne].
      * rewrite list_lookup_insert_eq in Hj by done. injection Hj as <-. by rewrite decide_True.
      * rewrite list_lookup_insert_ne in Hj by done. rewrite decide_False.
        -- by apply Hin, (list_elem_of_lookup_2 _ j).
        -- intros Hr. apply Hne. apply (NoDup_lookup (map rm_round rounds) i j (rm_round r)); [done| |].
           ++ change (map rm_round rounds) with (rm_round <$> rounds). by rewrite list_lookup_fmap, Hi, <-Hr, <-Hold.
           ++ change (map rm_round rounds) with (rm_round <$> rounds). by rewrite list_lookup_fmap, Hj.
    + case_decide as Hr.
      * intros [= <-]. apply list_elem_of_lookup. exists i. by rewrite list_lookup_insert_eq.
      * intros Hl. apply Hin, list_elem_of_lookup in Hl as [j Hj]. apply list_elem_of_lookup. exists j.
        rewrite list_lookup_insert_ne; [done|]. intros <-. rewrite Hi in Hj. injection Hj as ->. congruence.
  - apply list_find_None in Hf. rewrite Forall_forall in Hf. split.
    + rewrite map_app. apply NoDup_app. split; [done|]. split; [|apply NoDup_singleton].
      intros n (r & -> & Hr)%list_elem_of_fmap Hn%list_elem_of_singleton. by apply (Hf r).
    + intros r. rewrite elem_of_app, list_elem_of_singleton, last_reading_app, Hin. case_decide as Hr.
      * split; [|by intros [= <-]; right]. intros [Hl| ->]; [|done]. exfalso. apply (Hf r); [by apply Hin|done].
      * split; [|by left]. intros [Hl| ->]; done.
Qed.

Lemma rounds_of_faithful lines : faithful (omap metric_of_line lines) (rounds_of f64_from_str lines).
Proof.
  unfold rounds_of. assert (Hgen : ∀ l before rounds, faithful before rounds →
    faithful (before ++ omap metric_of_line l) (foldl record_line rounds l)).
  { induction l as [|line l IH]; intros before rounds Hf; [by rewrite app_nil_r|]. simpl.
    unfold BaselineRun.record_line at 2. destruct (metric_of_line line) as [m|]; [|by apply IH].
    rewrite cons_middle, (assoc_L app). by apply IH, record_faithful. }
  apply (Hgen lines []). split; [constructor|]. intros r. split; [by intros ?%elem_of_nil|done].
Qed.
End rounds.

(** ** The outcome *)

Lemma by_round_sorted rounds :
  NoDup (map rm_round rounds) → StronglySorted Z.lt (map rm_round (sort_by by_round rounds)).
Proof.
  intros Hnd.
  assert (Hs : Sorted_by by_round (sort_by by_round rounds)).
  { apply (sort_by_sorted by_round (λ _, True)); [|intros ? ? ? _ _ _|by apply Forall_true];
      unfold by_round; [intros ? ? _ _|]; rewrite ?Z.leb_le; lia. }
  assert (Hnd' : NoDup (map rm_round (sort_by by_round rounds))).
  { by rewrite (Permutation_map rm_round (sort_by_perm by_round rounds)). }
  clear Hnd. induction Hs as [|r l Hl IH Hr]; [constructor|]. simpl in *. apply NoDup_cons in Hnd' as [Hnot Hnd'].
  constructor; [by apply IH|]. rewrite Forall_forall in Hr. apply Forall_forall.
  intros z (m & -> & Hm)%list_elem_of_fmap. specialize (Hr m Hm). unfold by_round in Hr. apply Z.leb_le in Hr.
  destruct (decide (rm_round r = rm_round m)) as [He|]; [|lia]. exfalso. apply Hnot. rewrite He. by apply list_elem_of_fmap_2.
Qed.

Lemma last_is_greatest rounds r :
  StronglySorted Z.lt (map rm_round rounds) → last rounds = Some r → ∀ m, m ∈ rounds → rm_round m ≤ rm_round r.
Proof.
  induction rounds as [|a l IH]; [done|]. simpl. intros [Hs Ha]%StronglySorted_inv Hl m.
  rewrite Forall_forall in Ha. destruct l as [|b l]; simpl in *.
  { injection Hl as ->. intros ->%list_elem_of_singleton. lia. }
  intros [->|Hm]%elem_of_cons; [|by apply IH]. assert (Hr : r ∈ b :: l) by (by apply last_Some_elem_of).
  apply (list_elem_of_fmap_2 rm_round) in Hr. specialize (Ha _ Hr). lia.
Qed.

(** Every reading's round has a last one. *)
Lemma last_reading_exists readings m : m ∈ readings → ∃ r, last_reading readings (rm_round m) = Some r.
Proof.
  intros Hm. unfold last_reading. destruct (last _) as [r|] eqn:Hl; [by exists r|]. apply last_None in Hl.
  assert (Hin : m ∈ base.filter (λ x, rm_round x = rm_round m) readings) by (by apply list_elem_of_filter).
  rewrite Hl in Hin. by apply elem_of_nil in Hin.
Qed.

Section outcome.
Context `{Os : ProcessOs W} `{BO : BaselineOs W}.
Context (join : string → string → string) (show_addr : SocketAddr → string)
        (addr_from_str : string → option SocketAddr) (show_f64 : f64 → string)
        (f64_from_str : string → option f64) (show_error : ProcessError → string) (repo_root : string).
Notation baseline_run := (baseline_run join show_addr addr_from_str show_f64 f64_from_str show_error repo_root).

(** What a run that succeeds has been through: its plan was made and supervised to
    the end, and its rounds are the ones the evaluator reported, in order. *)
Lemma baseline_run_ok fuel plan w w' outcome :
  baseline_run fuel plan w = (w', Ok outcome) →
  ∃ python dim process_plan w0 s summary,
    baseline_plan join show_f64 repo_root python plan dim = Ok process_plan ∧
    run_watching join show_addr addr_from_str fuel process_plan w0 = (s, Some (Ok summary)) ∧ w' = sv_os s ∧
    outcome = sort_by by_round (rounds_of f64_from_str (sv_lines s)) ∧ outcome ≠ [].
Proof.
  unfold BaselineRun.baseline_run. intros H.
  apply stM_bind_ok in H as ([] & w1 & _ & H). apply stM_bind_ok in H as ([] & w2 & _ & H).
  apply stM_bind_ok in H as (dim & w3 & _ & H). apply stM_bind_ok in H as (built & w4 & _ & H).
  destruct built; [|done]. simpl in H.
  apply stM_bind_ok in H as (python & w5 & _ & H). apply stM_bind_ok in H as (process_plan & w6 & Hp & H).
  injection Hp as <- Hp. apply stM_bind_ok in H as (rounds & w7 & Hrun & H).
  destruct (run_watching _ _ _ _ _ _) as [s r] eqn:Hw. injection Hrun as <- Hr.
  destruct r as [[summary| |]|]; [|done..]. simpl in Hr. injection Hr as <-.
  exists python, dim, process_plan, w5, s, summary.
  destruct (rounds_of f64_from_str (sv_lines s)) as [|m rounds] eqn:Hrounds.
  { apply stM_bind_ok in H as (tails & w8 & _ & H). done. }
  injection H as <- <-. split_and!; try done. intros Hnil.
  pose proof (length_sort_by by_round (m :: rounds)) as Hlen. 
  change (sort_by by_round (m :: rounds) = []) in Hnil. by rewrite Hnil in Hlen.
Qed.

(** A baseline is judged on what its evaluator said last.  If a run succeeds, its
    plan was supervised to the end, and its rounds are exactly the last complete
    reading of each round among the lines the evaluator printed: at least one, one per
    round, in strictly increasing order; and the accuracy it is judged on is that of
    the greatest round any complete reading names. *)
Theorem outcome_is_last_reading fuel plan w w' outcome :
  baseline_run fuel plan w = (w', Ok outcome) →
  ∃ python dim process_plan w0 s summary,
    baseline_plan join show_f64 repo_root python plan dim = Ok process_plan ∧
    run_watching join show_addr addr_from_str fuel process_plan w0 = (s, Some (Ok summary)) ∧ w' = sv_os s ∧
    let readings := omap (metric_of_line f64_from_str) (sv_lines s) in
    StronglySorted Z.lt (map rm_round outcome) ∧
    (∀ r, r ∈ outcome ↔ last_reading readings (rm_round r) = Some r) ∧
    ∃ r, r ∈ outcome ∧ final_accuracy outcome = rm_accuracy r ∧ ∀ m, m ∈ readings → rm_round m ≤ rm_round r.
Proof.
  intros H. apply baseline_run_ok in H as (python & dim & process_plan & w0 & s & summary & Hp & Hw & Hs & Ho & Hne).
  exists python, dim, process_plan, w0, s, summary. do 3 (split; [done|]). cbv zeta.
  pose proof (rounds_of_faithful f64_from_str (sv_lines s)) as [Hnd Hin].
  pose proof (by_round_sorted _ Hnd) as Hsorted. rewrite <-Ho in Hsorted.
  assert (Hlast : ∀ r, r ∈ outcome ↔ last_reading (omap (metric_of_line f64_from_str) (sv_lines s)) (rm_round r) = Some r).
  { intros r. by rewrite Ho, sort_by_perm. }
  split; [done|]. split; [done|]. destruct (last outcome) as [r|] eqn:Hl; [|by apply last_None in Hl].
  exists r. split; [by apply last_Some_elem_of|]. split; [unfold final_accuracy; by rewrite Hl|]. intros m Hm.
  apply last_reading_exists in Hm as [m' Hm']. pose proof (last_reading_round _ _ _ Hm') as He. rewrite <-He in Hm' |- *.
  apply (last_is_greatest outcome); [done..|]. by apply Hlast.
Qed.
End outcome.

(** ** The server it starts *)

(** [Command::env]: what was set for the child, over what it inherits. *)
Definition inherited (parent : Surroundings) (vars : list (string * string)) : Surroundings :=
  {| env_var v := match list_find (λ kv, kv.1 = v) vars with Some (_, kv) => Some kv.2 | None => env_var parent v end;
     fs_read := fs_read parent |}.

Section server.
Context `{Tm : Toml} `{FS : FromStrs} `{AF : AddressFromStr}.
Context (quorum_try_into : tvalue → outcome string Z) (unknown_field : string → string).
Context (read_to_string : string → ReadText) (toml_from_str : string → outcome string (list (string * tvalue))).
Context (profiles_in : string → gmap string FileRead).
Context (show_f64 : f64 → string) (parent : Surroundings).

Notation server_of plan dim :=
  (from_env (inherited parent (baseline_env show_f64 plan dim)) quorum_try_into unknown_field read_to_string
     toml_from_str profiles_in).

Definition pinned (c : ResolvedConfig) (p : param) (text : string) : Prop :=
  ∃ v, from_str p text = Some v ∧ cfg c p = {| value := lift p v; source := EnvVar (env_name p) |}.

Lemma server_of_inv plan dim sc :
  server_of plan dim = Ok sc →
  ∃ file env,
    overrides_from_vars (env_var (inherited parent (baseline_env show_f64 plan dim))) = Ok env ∧
    (env_var parent "CONFLUX_EXPERIMENT_CONFIG_PATH"%string = None → file = None) ∧
    resolved sc = resolve CrossDevice Research file env Overrides_default ∧ sc_mode sc = Research ∧
    ∃ d, dim_from_str (show_u64 dim) = Some d ∧ initial_weights_dim sc = d.
Proof.
  unfold from_env. intros H. apply bind_ok_inv in H as (tp & Ht & H). apply bind_ok_inv in H as (mp & Hm & H).
  apply bind_ok_inv in H as (file & Hf & H). apply bind_ok_inv in H as (env & He & H).
  apply bind_ok_inv in H as (d & Hd & [= <-]). apply map_err_ok in Ht, Hm, He.
  change (topology_profile_named (profiles_in (default "profiles"%string (env_var parent "CONFLUX_PROFILE_DIR"%string)))
    (Some "cross_device"%string) = Ok tp) in Ht.
  change (mode_profile_named (profiles_in (default "profiles"%string (env_var parent "CONFLUX_PROFILE_DIR"%string)))
    (Some "research"%string) = Ok mp) in Hm.
  injection Ht as <-. injection Hm as <-. exists file, env. split; [done|]. split.
  { intros Hnone. change (match env_var parent "CONFLUX_EXPERIMENT_CONFIG_PATH"%string with
       | None => Ok None
       | Some path =>
           overrides ← map_err ServeConfigFile
             (load_experiment_file quorum_try_into unknown_field read_to_string toml_from_str path);
           Ok (Some (path, overrides))
       end = Ok file) in Hf. rewrite Hnone in Hf. by injection Hf as <-. }
  do 2 (split; [done|]). unfold parse_env in Hd.
  change (match dim_from_str (show_u64 dim) with
          | Some v => Ok (Some v) | None => Err (InvalidVar "CONFLUX_INITIAL_WEIGHTS_DIM" (show_u64 dim)) end = Ok d) in Hd.
  destruct (dim_from_str (show_u64 dim)) as [n|]; [|done]. injection Hd as <-. by exists n.
Qed.

(** A parsed variable that is set for the child is what the server resolves. *)
Lemma pinned_by_env file env plan dim p text :
  overrides_from_vars (env_var (inherited parent (baseline_env show_f64 plan dim))) = Ok env →
  parsed_param p = true → env_var (inherited parent (baseline_env show_f64 plan dim)) (env_name p) = Some text →
  pinned (resolve CrossDevice Research file env Overrides_default) p text.
Proof.
  intros [Hall _]%overrides_ok Hp Htext. destruct (Hall p) as [Hv Hparse]. destruct (Hparse Hp _ Htext) as [v Hs].
  exists v. split; [done|]. cbn [resolve resolve_with_profiles cfg]. unfold resolve_param. rewrite Hv.
  replace (variable_value _ p) with (Some v); [done|].
  assert (Hval : parsed_value (env_var (inherited parent (baseline_env show_f64 plan dim))) p = Some v).
  { unfold parsed_value. by rewrite Hp, Htext. }
  rewrite <-Hval. by destruct p.
Qed.

(** The federation that is measured is the one that was planned.  Whatever
    environment the server inherits, if it starts at all it is a cross-device research
    server under the baseline's method, waiting for every one of its clients, on the
    model's dimension, with the plan's Byzantine fraction, the clients as SCAFFOLD's
    population, the inert clip of 1000 and no noise, each on record as read from its
    own variable; and unless the inherited environment turns the reputation filter
    on, the filter is off. *)
Theorem baseline_server_is_as_planned plan dim sc :
  server_of plan dim = Ok sc →
  let c := resolved sc in
  cfg_topology c = CrossDevice ∧ sc_mode sc = Research ∧
  cfg c P_aggregator = {| value := bp_aggregator plan; source := EnvVar "CONFLUX_AGGREGATOR" |} ∧
  (∃ n, usize_from_str (show_u64 (bp_clients plan)) = Some n ∧
        cfg_quorum c = Some {| value := n; source := EnvVar "CONFLUX_QUORUM" |}) ∧
  dim_from_str (show_u64 dim) = Some (initial_weights_dim sc) ∧
  pinned c P_robust_byzantine_fraction (show_f64 (default DEFAULT_BYZANTINE_FRACTION (bp_byzantine_fraction plan))) ∧
  pinned c P_scaffold_num_clients (show_u64 (bp_clients plan)) ∧
  pinned c P_min_reputation_score (if bp_no_reputation plan then "0.0" else "0.3") ∧
  pinned c P_round_timeout_secs "60" ∧ pinned c P_clip_norm "1000" ∧ pinned c P_noise_multiplier "0" ∧
  (env_var parent "CONFLUX_EXPERIMENT_CONFIG_PATH" = None → env_var parent "CONFLUX_REPUTATION_FILTER_ENABLED" = None →
   getv c P_reputation_filter_enabled = false).
Proof.
  intros (file & env & He & Hfile & Hc & Hm & d & Hd & Hdim)%server_of_inv. cbv zeta. rewrite Hc, Hdim.
  pose proof (λ p text, pinned_by_env file env plan dim p text He) as Hpin.
  pose proof (overrides_ok _ _ He) as [Hall [Hq Hquorum]].
  do 2 (split; [done|]). split.
  { cbn [resolve resolve_with_profiles cfg]. unfold resolve_param. by rewrite (proj1 (Hall P_aggregator)). }
  split.
  { destruct (Hquorum (show_u64 (bp_clients plan)) eq_refl) as [n Hn]. exists n. split; [done|].
    cbn [resolve resolve_with_profiles cfg_quorum]. unfold resolve_quorum. rewrite Hq.
    change (env_var (inherited parent (baseline_env show_f64 plan dim)) "CONFLUX_QUORUM"%string)
      with (Some (show_u64 (bp_clients plan))). cbn [ov_quorum Overrides_default]. simpl. by rewrite Hn. }
  split; [done|]. split_and!; try by apply Hpin.
  intros ->%Hfile Hfilter. unfold getv. cbn [resolve resolve_with_profiles cfg]. unfold resolve_param.
  rewrite (proj1 (Hall P_reputation_filter_enabled)). unfold variable_value, parsed_value.
  change (env_var (inherited parent (baseline_env show_f64 plan dim)) (env_name P_reputation_filter_enabled))
    with (env_var parent "CONFLUX_REPUTATION_FILTER_ENABLED"%string). by rewrite Hfilter.
Qed.

(** A scenario's [no_reputation] chooses a threshold for a filter that is off either
    way: it changes no other parameter of the server. *)
Lemma no_reputation_changes_nothing plan dim sc sc' b :
  let plan' := {| bp_recipe := bp_recipe plan; bp_aggregator := bp_aggregator plan; bp_clients := bp_clients plan;
                  bp_attackers := bp_attackers plan; bp_rounds := bp_rounds plan; bp_no_reputation := b;
                  bp_seed := bp_seed plan; bp_byzantine_fraction := bp_byzantine_fraction plan |} in
  env_var parent "CONFLUX_EXPERIMENT_CONFIG_PATH"%string = None →
  env_var parent "CONFLUX_REPUTATION_FILTER_ENABLED"%string = None →
  server_of plan dim = Ok sc → server_of plan' dim = Ok sc' →
  (∀ p, p ≠ P_min_reputation_score → getv (resolved sc) p = getv (resolved sc') p) ∧
  getv (resolved sc) P_reputation_filter_enabled = false.
Proof.
  intros plan' Hno Hfilter (f1 & e1 & H1 & Hf1 & -> & _)%server_of_inv (f2 & e2 & H2 & Hf2 & -> & _)%server_of_inv.
  rewrite (Hf1 Hno), (Hf2 Hno). apply overrides_ok in H1 as [H1 _], H2 as [H2 _]. split.
  - intros p Hp. unfold getv. cbn [resolve resolve_with_profiles cfg]. unfold resolve_param.
    rewrite (proj1 (H1 p)), (proj1 (H2 p)). by destruct p.
  - unfold getv. cbn [resolve resolve_with_profiles cfg]. unfold resolve_param.
    rewrite (proj1 (H1 P_reputation_filter_enabled)). unfold variable_value, parsed_value.
    change (env_var (inherited parent (baseline_env show_f64 plan dim)) (env_name P_reputation_filter_enabled))
      with (env_var parent "CONFLUX_REPUTATION_FILTER_ENABLED"%string). by rewrite Hfilter.
Qed.
End server.

(** ** Its clients *)

Section clients.
Context (join : string → string → string) (show_f64 : f64 → string) (repo_root python : string).
Notation baseline_plan := (baseline_plan join show_f64 repo_root python).

Definition trainer_args (plan : Plan) (i seed : Z) : list string :=
  ["-m"; "_harness.trainer"; "--model"; re_model (bp_recipe plan); "--shard"; shard_file join repo_root i;
   "--steps"; "30"; "--trainer-seed"; show_u64 seed]%string.

Lemma baseline_participant_exact plan (i : nat) :
  0 ≤ bp_seed plan →
  baseline_participant join repo_root python plan i =
    if u32_max <? bp_seed plan * 1000 + Z.of_nat i then Panic
    else Ok {| pp_client_id := "client-" +:+ show_u64 (Z.of_nat i);
               pp_node := {| program := cflux_path join repo_root; args := ["node"; "start"]%string;
                             env := [("RUST_LOG", "warn")]%string |};
               pp_client := {| program := python;
                 args := trainer_args plan (Z.of_nat i) (bp_seed plan * 1000 + Z.of_nat i) ++
                         if poisoned plan (Z.of_nat i) then ["--poison"%string] else [];
                 env := [("PYTHONPATH"%string, baselines_path join repo_root)] |} |}.
Proof.
  intros Hs. unfold baseline_participant, trainer_spawn, trainer_seed.
  destruct (u32_max <? bp_seed plan * 1000 + Z.of_nat i) eqn:Hi.
  - by destruct (u32_max <? bp_seed plan * 1000).
  - apply Z.ltb_ge in Hi. replace (u32_max <? bp_seed plan * 1000) with false by (symmetry; apply Z.ltb_ge; lia).
    simpl. by destruct (poisoned plan (Z.of_nat i)).
Qed.

(** What the attackers are: the last [min(attackers, clients)] of the clients. *)
Lemma poisoned_iff plan i :
  0 ≤ bp_attackers plan → 0 ≤ i < bp_clients plan →
  poisoned plan i = true ↔ bp_clients plan - Z.min (bp_attackers plan) (bp_clients plan) ≤ i.
Proof. intros. unfold poisoned. rewrite andb_true_iff, Z.leb_le, Z.ltb_lt. lia. Qed.

Lemma collect_panic_head {A B E} (f : A → outcome E B) l x :
  x ∈ l → f x = Panic → (∀ y, y ∈ l → (∃ b, f y = Ok b) ∨ f y = Panic) → collect f l = Panic.
Proof.
  induction l as [|a l IH]; [by intros ?%elem_of_nil|]. simpl. intros Hx Hp Hall.
  destruct (Hall a ltac:(by left)) as [[b Hb]|Ha]; [|by rewrite Ha]. rewrite Hb. simpl.
  apply elem_of_cons in Hx as [->|Hx]; [congruence|].
  rewrite IH; [done..|]. intros y Hy. apply Hall. by right.
Qed.

(** The clients of a baseline.  A plan is made exactly when the greatest trainer
    seed fits in 32 bits (otherwise the derivation overflows and a checked build
    panics); it then has one node and one trainer per client, client [i] under the
    identity [client-i], training on shard [i] with seed [1000 * seed + i], and the
    attackers are exactly the last [min(attackers, clients)] of them: their command
    line is the honest one followed by [--poison], so a run without attackers is
    the clean run. *)
Theorem baseline_clients_exact plan dim :
  0 ≤ bp_seed plan → 0 ≤ bp_attackers plan → 0 ≤ bp_clients plan →
  (baseline_plan plan dim = Panic ↔ 0 < bp_clients plan ∧ u32_max < bp_seed plan * 1000 + bp_clients plan - 1) ∧
  (baseline_plan plan dim ≠ Panic → ∃ process_plan,
     baseline_plan plan dim = Ok process_plan ∧ Z.of_nat (length (pl_participants process_plan)) = bp_clients plan ∧
     ∀ i, (i < Z.to_nat (bp_clients plan))%nat → ∃ p, pl_participants process_plan !! i = Some p ∧
       pp_client_id p = "client-" +:+ show_u64 (Z.of_nat i) ∧
       args (pp_client p) =
         trainer_args plan (Z.of_nat i) (bp_seed plan * 1000 + Z.of_nat i) ++
         (if decide (bp_clients plan - Z.min (bp_attackers plan) (bp_clients plan) ≤ Z.of_nat i)
          then ["--poison"%string] else [])).
Proof.
  intros Hs Ha Hc. set (f := baseline_participant join repo_root python plan).
  assert (Hf : ∀ i, f i = Panic ↔ u32_max < bp_seed plan * 1000 + Z.of_nat i).
  { intros i. unfold f. rewrite baseline_participant_exact by done. rewrite <-Z.ltb_lt. by destruct (u32_max <? _). }
  assert (Hok : ∀ i, (∃ b, f i = Ok b) ∨ f i = Panic).
  { intros i. unfold f. rewrite baseline_participant_exact by done. case_match; eauto. }
  assert (Hpanic : baseline_plan plan dim = Panic ↔ 0 < bp_clients plan ∧ u32_max < bp_seed plan * 1000 + bp_clients plan - 1).
  { unfold BaselineRun.baseline_plan. fold f. split.
    - intros [H|(? & _ & [=])]%bind_panic_inv.
      destruct (decide (u32_max < bp_seed plan * 1000 + bp_clients plan - 1)) as [Hlt|Hge].
      + split; [|done]. destruct (Z.to_nat (bp_clients plan)) eqn:Hn; [done|]. lia.
      + exfalso. revert H. apply collect_no_panic, Forall_forall. intros i Hi%elem_of_seq Hp%Hf. lia.
    - intros [Hpos Hover]. rewrite (collect_panic_head f _ (Z.to_nat (bp_clients plan - 1))); [done| | |by intros].
      + apply elem_of_seq. lia.
      + apply Hf. lia. }
  split; [done|]. intros Hnp. unfold BaselineRun.baseline_plan in Hnp |- *. fold f in Hnp |- *.
  destruct (collect f (seq 0 (Z.to_nat (bp_clients plan)))) as [ps|e|] eqn:Hps; [| |done].
  2: { apply collect_err in Hps as (_ & i & _ & _ & _ & _ & Hi). destruct (Hok i) as [[b Hb]|Hb]; congruence. }
  eexists. split; [reflexivity|]. cbn [pl_participants]. apply collect_ok in Hps.
  pose proof (Forall2_length _ _ _ Hps) as Hlen. rewrite length_seq in Hlen. split; [lia|]. intros i Hi.
  destruct (Forall2_lookup_l _ _ _ i i Hps) as (p & Hp & Hpart); [by rewrite lookup_seq|]. exists p. split; [done|].
  unfold f in Hpart. rewrite baseline_participant_exact in Hpart by done.
  destruct (u32_max <? _); [done|]. injection Hpart as <-. cbn. split; [done|].
  pose proof (poisoned_iff plan (Z.of_nat i) Ha ltac:(lia)) as Hpo.
  clear -Hpo. destruct (decide _) as [Hd|Hd], (poisoned plan (Z.of_nat i)); [done| | |done].
  - by apply Hpo in Hd.
  - exfalso. by apply Hd, Hpo.
Qed.
End clients.

(** ** Witnesses and limits *)

Section demo.
(** A system on which everything is found, every program but [cflux] has already
    exited well, and the evaluator has left its lines in the channel. *)
Record BaselineDemo := { bd_clock : Z; bd_table : list string; bd_lines : list string; bd_answer : option string }.

Definition bd_exit : ExitStatus := {| es_code := Some 0; es_text := "exit status: 0" |}.
Definition bd_addresses : string :=
  "grpc=127.0.0.1:1" +:+ NEWLINE +:+ "http=127.0.0.1:2" +:+ NEWLINE +:+ "local=127.0.0.1:3" +:+ NEWLINE.

#[local] Instance bd_os : ProcessOs BaselineDemo := {|
  pid := nat;
  create_dir_all _ w := (w, None);
  remove_file _ w := w;
  create_file _ w := (w, None);
  try_clone _ w := (w, None);
  os_spawn _ _ s w :=
    ({| bd_clock := bd_clock w; bd_table := bd_table w ++ [program s]; bd_lines := bd_lines w; bd_answer := bd_answer w |},
     Ok (length (bd_table w)));
  try_wait p w := (w, Ok (match bd_table w !! p with
                          | Some name => if String.eqb name "repo/target/debug/cflux" then None else Some bd_exit
                          | None => None
                          end));
  kill _ w := (w, None);
  wait _ w := Some w;
  read_file _ w := (w, Some (Some bd_addresses));
  now := bd_clock;
  sleep d w := {| bd_clock := bd_clock w + Z.max 0 d; bd_table := bd_table w; bd_lines := bd_lines w; bd_answer := bd_answer w |};
  conn := ();
  connect _ w :=
    ({| bd_clock := bd_clock w; bd_table := bd_table w; bd_lines := bd_lines w; bd_answer := Some "HTTP/1.1 200 OK"%string |}, Some ());
  write_all _ _ w := (w, true);
  read _ w :=
    ({| bd_clock := bd_clock w; bd_table := bd_table w; bd_lines := bd_lines w; bd_answer := None |},
     match bd_answer w with Some bytes => Got bytes | None => EndOfStream end);
  try_recv w :=
    ({| bd_clock := bd_clock w; bd_table := bd_table w; bd_lines := List.tl (bd_lines w); bd_answer := bd_answer w |},
     head (bd_lines w));
|}.

#[local] Instance bd_baseline_os : BaselineOs BaselineDemo := {|
  remove_dir_all _ w := w;
  exists_file _ _ := true;
  command_output _ _ _ w :=
    (w, Ok {| out_status := bd_exit; out_stdout := "{" +:+ QUOTED "model_dim" +:+ ": 4, " +:+ QUOTED "clients" +:+ ": 2}" +:+ NEWLINE;
              out_stderr := "" |});
|}.

Definition bd_join (dir name : string) : string := dir +:+ "/" +:+ name.
Definition bd_parse (text : string) : option SocketAddr :=
  if String.eqb text "127.0.0.1:1" then Some {| ip := V4 127 0 0 1; port := 1 |}
  else if String.eqb text "127.0.0.1:2" then Some {| ip := V4 127 0 0 1; port := 2 |}
  else if String.eqb text "127.0.0.1:3" then Some {| ip := V4 127 0 0 1; port := 3 |}
  else None.

(** A reader of the numbers the demonstration prints. *)
Definition bd_number (text : string) : option f64 :=
  snd <$> find (λ kv, String.eqb kv.1 text)
    [("1"%string, f64_of_Z 1); ("2"%string, f64_of_Z 2); ("0.50"%string, f64_lit 1 2); ("0.75"%string, f64_lit 3 4)].

Definition bd_plan : Plan :=
  {| bp_recipe := {| re_model := "mlp"; re_dataset := "digits"; re_partition := "iid"; re_dirichlet_alpha := None |};
     bp_aggregator := "krum"; bp_clients := 3; bp_attackers := 1; bp_rounds := 2; bp_no_reputation := true;
     bp_seed := DEFAULT_SEED; bp_byzantine_fraction := None |}.

Definition bd_start (lines : list string) : BaselineDemo := {| bd_clock := 0; bd_table := []; bd_lines := lines; bd_answer := None |}.

(** Round 2 is reported before round 1, which is reported twice. *)
Definition bd_printed : list string :=
  [ "loaded 3 shards"; "round=1 held_out_accuracy=0.50 held_out_loss=1"; "round=2 held_out_accuracy=0.50 held_out_loss=1";
    "round=1 held_out_accuracy=0.75 held_out_loss=1"; "round=2 held_out_accuracy=0.75 held_out_loss=nan" ]%string.

#[local] Notation bd_run lines :=
  (baseline_run bd_join (λ _, "addr"%string) bd_parse (λ _, "0.3"%string) bd_number (λ _, "supervision failed"%string) "repo" 10
     bd_plan (bd_start lines)).

Lemma bd_run_ok :
  match (bd_run bd_printed).2 with
  | Ok rounds => map rm_round rounds = [1; 2] ∧ map rm_accuracy rounds = [f64_lit 3 4; f64_lit 1 2]
  | _ => False
  end.
Proof. vm_compute. split; reflexivity. Qed.

Lemma outcome_is_last_reading_witness :
  ∃ rounds, (bd_run bd_printed).2 = Ok rounds ∧ StronglySorted Z.lt (map rm_round rounds) ∧
    ∃ r, r ∈ rounds ∧ final_accuracy rounds = rm_accuracy r.
Proof.
  pose proof bd_run_ok as Hok. destruct (bd_run bd_printed) as [w' [rounds| |]] eqn:Hrun; [|destruct Hok..].
  exists rounds. split; [reflexivity|].
  destruct (outcome_is_last_reading bd_join (λ _, "addr"%string) bd_parse (λ _, "0.3"%string) bd_number
    (λ _, "supervision failed"%string) "repo" 10 bd_plan (bd_start bd_printed) w' rounds Hrun)
    as (python & dim & pp & w0 & s & summary & _ & _ & _ & Hsorted & _ & r & Hr & Hfinal & _).
  split; [exact Hsorted|]. exists r. split; [exact Hr|exact Hfinal].
Defined.

(** A run that ends in a divergence is judged on the round before it: a loss of [nan] is
    no number to [field], and a line that lacks one of the three is commentary. *)
Lemma diverged_round_is_dropped (parse : string → option f64) :
  parse ""%string = None →
  metric_of_line parse "round=2 held_out_accuracy=0.1000 held_out_loss=nan" = None ∧
  (∀ lines, rounds_of parse (lines ++ ["round=2 held_out_accuracy=0.1000 held_out_loss=nan"%string]) = rounds_of parse lines).
Proof.
  intros Hp.
  assert (Hnone : metric_of_line parse "round=2 held_out_accuracy=0.1000 held_out_loss=nan" = None).
  { unfold metric_of_line. destruct (field parse _ "round="); [|done]. simpl.
    destruct (field parse _ "held_out_accuracy="); [|done]. simpl.
    change (field parse "round=2 held_out_accuracy=0.1000 held_out_loss=nan" "held_out_loss=") with (parse ""%string).
    by rewrite Hp. }
  split; [done|]. intros lines. unfold rounds_of. rewrite foldl_app. simpl. unfold record_line. by rewrite Hnone.
Qed.

(** The seeds from which the derivation overflows. *)
Lemma large_seed_panics :
  trainer_seed 4294967 295 = Ok 4294967295 ∧ trainer_seed 4294967 296 = Panic ∧ trainer_seed 4294968 0 = Panic.
Proof. vm_compute. split_and!; reflexivity. Qed.

Lemma baseline_clients_exact_witness :
  ∃ process_plan p, baseline_plan bd_join (λ _, "0.3"%string) "repo" "python3" bd_plan 4 = Ok process_plan ∧
    pl_participants process_plan !! 2%nat = Some p ∧ pp_client_id p = "client-2"%string ∧
    args (pp_client p) =
      ["-m"; "_harness.trainer"; "--model"; "mlp"; "--shard"; "repo/target/baseline-work/shard_2.pt"; "--steps"; "30";
       "--trainer-seed"; "42002"; "--poison"]%string.
Proof.
  destruct (baseline_clients_exact bd_join (λ _, "0.3"%string) "repo" "python3" bd_plan 4) as [Hp Hok];
    [vm_compute; discriminate..|].
  destruct Hok as (pp & Hpp & _ & Hall).
  { intros [_ H]%Hp. vm_compute in H. discriminate H. }
  destruct (Hall 2%nat) as (p & Hi & Hid & Hargs); [vm_compute; lia|].
  exists pp, p. split; [exact Hpp|]. split; [exact Hi|]. split; [exact Hid|]. rewrite Hargs. vm_compute. reflexivity.
Defined.

(** The server's side, read by a machine that knows the texts of the demonstration. *)
#[local] Existing Instance demo_toml.
#[local] Instance bd_strs : FromStrs :=
  {| from_str p text := match p return option (ptype p) with
                        | P_robust_byzantine_fraction => if String.eqb text "0.3" then Some (f32_lit 3 10) else None
                        | P_min_reputation_score => if String.eqb text "0.0" then Some f32_zero else None
                        | P_clip_norm => if String.eqb text "1000" then Some (f32_of_Z 1000) else None
                        | P_noise_multiplier => if String.eqb text "0" then Some f32_zero else None
                        | P_round_timeout_secs | P_scaffold_num_clients => parse_u64 (String.list_ascii_of_string text)
                        | _ => None
                        end;
     usize_from_str text := parse_u64 (String.list_ascii_of_string text) |}.
#[local] Instance bd_addr : AddressFromStr :=
  {| socket_addr_from_str _ := None; dim_from_str text := parse_u64 (String.list_ascii_of_string text) |}.

Definition bd_machine : Surroundings := {| env_var _ := None; fs_read _ := Err "no such file"%string |}.
#[local] Notation bd_server :=
  (from_env (inherited bd_machine (baseline_env (λ _, "0.3"%string) bd_plan 4)) (λ _, Err ""%string) (λ s, s)
     (λ _, ReadFailed) (λ _, Err ""%string) (λ _, ∅)).

Lemma bd_server_ok : is_ok bd_server = true.
Proof. vm_compute. reflexivity. Qed.

Lemma baseline_server_is_as_planned_witness :
  ∃ sc, bd_server = Ok sc ∧ getv (resolved sc) P_aggregator = "krum"%string ∧
    cfg_quorum (resolved sc) = Some {| value := 3; source := EnvVar "CONFLUX_QUORUM" |} ∧
    getv (resolved sc) P_clip_norm = f32_of_Z 1000 ∧ getv (resolved sc) P_reputation_filter_enabled = false.
Proof.
  pose proof bd_server_ok as Hok. destruct bd_server as [sc| |] eqn:Hs; [|discriminate Hok..].
  destruct (baseline_server_is_as_planned (λ _, Err ""%string) (λ s, s) (λ _, ReadFailed) (λ _, Err ""%string) (λ _, ∅)
    (λ _, "0.3"%string) bd_machine bd_plan 4 sc Hs)
    as (_ & _ & Ha & (n & Hn & Hq) & _ & _ & _ & _ & _ & (v & Hv & Hclip) & _ & Hfilter).
  exists sc. split; [reflexivity|]. split; [unfold getv; rewrite Ha; reflexivity|].
  injection Hn as <-. split; [exact Hq|]. injection Hv as <-.
  split; [unfold getv; rewrite Hclip; reflexivity|exact (Hfilter eq_refl eq_refl)].
Defined.

(** Bulyan at the default fraction: three clients do satisfy [n >= 4f + 3], since [f] is
    the floor of 0.9; four to twelve do not. *)
Lemma bulyan_has_a_default_size :
  Forall (λ n, match batch_requirement "bulyan" (f32_lit 3 10) n with
               | Some req => satisfied_by req n = Z.eqb n 3
               | None => False
               end) [3; 4; 5; 6; 7; 8; 9; 10; 11; 12].
Proof. repeat constructor; vm_compute; reflexivity. Qed.
End demo.
