(* ===== verification/BaselineSweep.v ===== *)
(** * A grid of federations ([conflux-baselines/src/sweep.rs])

    Every (seed, attack, split, aggregator) of a grid, one federation of
    [BaselineRun] each, and one record per round of those that succeed.  Records are
    appended through a class of the file's operations; their JSON text is a
    parameter. *)

From S2P Require Import Prelude Float Store Admin SidecarService Federation Process BaselineRun.
From Stdlib Require Import Ascii.

Open Scope Z_scope.

(** ** Data *)

Record Combination := {
  co_aggregator : string;
  co_split : string;
  co_alpha : option f64;
  co_attack : string;
  co_seed : Z;
}.

Record Grid := {
  gr_dataset : string;
  gr_model : string;
  gr_aggregators : list string;
  gr_splits : list string;
  gr_attacks : list string;
  gr_clients : Z;
  gr_rounds : Z;
  gr_seeds : list Z;
  gr_out : string;
}.

(** The JSON record of one round. *)
Record SweepRecord := {
  sr_dataset : string;
  sr_aggregator : string;
  sr_split : string;
  sr_dirichlet_alpha : option f64;
  sr_attack : string;
  sr_n_clients : Z;
  sr_seed : Z;
  sr_metric : RoundMetric;
  sr_centralized_baseline_accuracy : option f64;
}.

(** The messages [run] returns. *)
Inductive SweepError : Type :=
  | UnparseableAlpha (spec : string)
  | UnrecognizedSplit (spec : string)
  | UnrecognizedAttack (attack : string)
  | CannotOpen (path source : string)
  | CannotWrite (path source : string)
  | CannotFlush (path source : string)
  | CombinationsFailed (labels : list string).

(** ** The grid *)

Section grid.
Context (f64_from_str : string → option f64).

Definition parse_split (spec : string) : outcome SweepError (string * option f64) :=
  if String.eqb spec "iid" then Ok ("iid"%string, None)
  else match Store.strip_prefix (String.list_ascii_of_string "dirichlet:") (String.list_ascii_of_string spec) with
       | Some alpha => match f64_from_str (String.string_of_list_ascii alpha) with
                       | Some alpha => Ok ("dirichlet"%string, Some alpha)
                       | None => Err (UnparseableAlpha spec)
                       end
       | None => Err (UnrecognizedSplit spec)
       end.

Definition split_combinations (grid : Grid) (seed : Z) (attack spec : string) : outcome SweepError (list Combination) :=
  '(split, alpha) ← parse_split spec;
  Ok (map (λ aggregator, {| co_aggregator := aggregator; co_split := split; co_alpha := alpha; co_attack := attack;
                            co_seed := seed |}) (gr_aggregators grid)).

Definition attack_combinations (grid : Grid) (seed : Z) (attack : string) : outcome SweepError (list Combination) :=
  if negb (String.eqb attack "none") && negb (String.eqb attack "poison") then Err (UnrecognizedAttack attack)
  else per_split ← collect (split_combinations grid seed attack) (gr_splits grid); Ok (concat per_split).

Definition combinations (grid : Grid) : outcome SweepError (list Combination) :=
  per_seed ← collect (λ seed, per_attack ← collect (attack_combinations grid seed) (gr_attacks grid); Ok (concat per_attack))
               (gr_seeds grid);
  Ok (concat per_seed).
End grid.

(** ** Running it *)

(** A file opened with [append]. *)
Class AppendFile (W : Type) := {
  open_append : string → W → W * option string;
  write_line : string → string → W → W * option string;
  flush : string → W → W * option string;
}.

Section sweep.
Context `{Os : ProcessOs W} `{BO : BaselineOs W} `{AF : AppendFile W}.
Context (join : string → string → string) (show_addr : SocketAddr → string)
        (addr_from_str : string → option SocketAddr) (show_f64 : f64 → string)
        (f64_from_str : string → option f64) (show_error : ProcessError → string)
        (show_record : SweepRecord → string) (repo_root : string) (fuel : nat).

Notation baseline_run := (baseline_run join show_addr addr_from_str show_f64 f64_from_str show_error repo_root fuel).
Notation centralized_baseline := (centralized_baseline join f64_from_str repo_root).

(** The locals of [run], and the records it has written. *)
Record SweepState := {
  ss_os : W;
  ss_baselines : gmap Z f64;
  ss_failures : list string;
  ss_written : list SweepRecord;
}.

Definition label_of (c : Combination) : string :=
  "aggregator=" +:+ co_aggregator c +:+ " split=" +:+ co_split c +:+
  match co_alpha c with Some a => ":" +:+ show_f64 a | None => "" end +:+
  " attack=" +:+ co_attack c +:+ " seed=" +:+ show_u64 (co_seed c).

Definition plan_of (grid : Grid) (c : Combination) : Plan :=
  let poisoned := String.eqb (co_attack c) "poison" in
  {| bp_recipe := {| re_model := gr_model grid; re_dataset := gr_dataset grid; re_partition := co_split c;
                     re_dirichlet_alpha := co_alpha c |};
     bp_aggregator := co_aggregator c; bp_clients := gr_clients grid; bp_attackers := if poisoned then 1 else 0;
     bp_rounds := gr_rounds grid; bp_no_reputation := poisoned; bp_seed := co_seed c; bp_byzantine_fraction := None |}.

Definition sweep_record (grid : Grid) (c : Combination) (bar : option f64) (round : RoundMetric) : SweepRecord :=
  {| sr_dataset := gr_dataset grid; sr_aggregator := co_aggregator c; sr_split := co_split c;
     sr_dirichlet_alpha := co_alpha c; sr_attack := co_attack c; sr_n_clients := gr_clients grid; sr_seed := co_seed c;
     sr_metric := round; sr_centralized_baseline_accuracy := bar |}.

Definition in_os {A} (f : W → W * A) : stM SweepState SweepError A := λ s,
  let '(w, a) := f (ss_os s) in
  ({| ss_os := w; ss_baselines := ss_baselines s; ss_failures := ss_failures s; ss_written := ss_written s |}, Ok a).

Definition file_call (f : W → W * option string) (error : string → SweepError) : stM SweepState SweepError () :=
  in_os f ≫= λ failed, of_outcome match failed with None => Ok () | Some e => Err (error e) end.

Definition push_failure (label : string) : stM SweepState SweepError () := modify (λ s,
  {| ss_os := ss_os s; ss_baselines := ss_baselines s; ss_failures := ss_failures s ++ [label]; ss_written := ss_written s |}).
Definition insert_baseline (seed : Z) (accuracy : f64) : stM SweepState SweepError () := modify (λ s,
  {| ss_os := ss_os s; ss_baselines := <[seed := accuracy]> (ss_baselines s); ss_failures := ss_failures s;
     ss_written := ss_written s |}).
Definition written (r : SweepRecord) : stM SweepState SweepError () := modify (λ s,
  {| ss_os := ss_os s; ss_baselines := ss_baselines s; ss_failures := ss_failures s; ss_written := ss_written s ++ [r] |}).

(** The bar of a seed, computed by the first of its federations to succeed, and again
    by the next one if that failed; [grid.rounds * LOCAL_STEPS_PER_ROUND] is a [u32]. *)
Definition ensure_baseline (grid : Grid) (c : Combination) : stM SweepState SweepError () :=
  gets (λ s, ss_baselines s !! co_seed c) ≫= λ known,
  match known with
  | Some _ => mret ()
  | None =>
      let steps := gr_rounds grid * LOCAL_STEPS_PER_ROUND in
      if u32_max <? steps then of_outcome Panic
      else
        in_os (centralized_baseline (bp_recipe (plan_of grid c)) steps) ≫= λ r,
        match r with
        | Ok accuracy => insert_baseline (co_seed c) accuracy
        | Err _ => mret ()
        | Panic => of_outcome Panic
        end
  end.

Definition write_record (grid : Grid) (c : Combination) (round : RoundMetric) : stM SweepState SweepError () :=
  gets (λ s, ss_baselines s !! co_seed c) ≫= λ bar,
  let record := sweep_record grid c bar round in
  file_call (write_line (gr_out grid) (show_record record)) (CannotWrite (gr_out grid)) ≫= λ _,
  written record.

(** One turn of the loop. *)
Definition run_combination (grid : Grid) (c : Combination) : stM SweepState SweepError () :=
  in_os (baseline_run (plan_of grid c)) ≫= λ r,
  match r with
  | Panic => of_outcome Panic
  | Err _ => push_failure (label_of c)
  | Ok rounds =>
      ensure_baseline grid c ≫= λ _,
      for_each (write_record grid c) rounds ≫= λ _,
      file_call (flush (gr_out grid)) (CannotFlush (gr_out grid))
  end.

(** [sweep::run] *)
Definition sweep_run (grid : Grid) : stM SweepState SweepError () :=
  of_outcome (combinations f64_from_str grid) ≫= λ cs,
  file_call (open_append (gr_out grid)) (CannotOpen (gr_out grid)) ≫= λ _,
  for_each (run_combination grid) cs ≫= λ _,
  gets ss_failures ≫= λ failures,
  of_outcome match failures with [] => Ok () | _ => Err (CombinationsFailed failures) end.

Definition sweep_start (w : W) : SweepState := {| ss_os := w; ss_baselines := ∅; ss_failures := []; ss_written := [] |}.
End sweep.

(** ** The combinations *)

Section combinations_facts.
Context (f64_from_str : string → option f64).

Lemma collect_determined {A B E} (f : A → outcome E B) (g : A → B) l ys :
  (∀ x y, x ∈ l → f x = Ok y → y = g x) → collect f l = Ok ys → ys = map g l.
Proof.
  intros Hg H%collect_ok. induction H as [|x y l ys Hxy _ IH]; [done|]. simpl.
  rewrite (Hg x y ltac:(by left) Hxy), <-IH; [done|]. intros. apply Hg; [by right|done].
Qed.

Lemma collect_all_ok {A B E} (f : A → outcome E B) l ys x : collect f l = Ok ys → x ∈ l → ∃ y, f x = Ok y.
Proof.
  intros H%collect_ok Hx. apply list_elem_of_lookup in Hx as [i Hi].
  destruct (Forall2_lookup_l _ _ _ i x H Hi) as (y & _ & ?). by exists y.
Qed.

Definition all_of (grid : Grid) (parsed : list (string * option f64)) : list Combination :=
  concat (map (λ seed, concat (map (λ attack, concat (map (λ '(split, alpha), map (λ aggregator,
    {| co_aggregator := aggregator; co_split := split; co_alpha := alpha; co_attack := attack; co_seed := seed |})
    (gr_aggregators grid)) parsed)) (gr_attacks grid))) (gr_seeds grid)).

Lemma split_combinations_ok grid seed attack spec cs :
  split_combinations f64_from_str grid seed attack spec = Ok cs →
  ∃ split alpha, parse_split f64_from_str spec = Ok (split, alpha) ∧
    cs = map (λ aggregator, {| co_aggregator := aggregator; co_split := split; co_alpha := alpha; co_attack := attack;
                               co_seed := seed |}) (gr_aggregators grid).
Proof. intros ([split alpha] & Hp & [= <-])%bind_ok_inv. by exists split, alpha. Qed.

Lemma attack_combinations_ok grid seed attack cs :
  attack_combinations f64_from_str grid seed attack = Ok cs →
  (attack = "none" ∨ attack = "poison")%string ∧
  ∃ parsed, Forall2 (λ spec p, parse_split f64_from_str spec = Ok p) (gr_splits grid) parsed ∧
    cs = concat (map (λ '(split, alpha), map (λ aggregator,
      {| co_aggregator := aggregator; co_split := split; co_alpha := alpha; co_attack := attack; co_seed := seed |})
      (gr_aggregators grid)) parsed).
Proof.
  unfold attack_combinations. destruct (String.eqb_spec attack "none"), (String.eqb_spec attack "poison"); simpl; try done;
    intros (per & Hper & [= <-])%bind_ok_inv; (split; [auto|]); apply collect_ok in Hper.
  all: induction Hper as [|spec y splits per Hs _ (parsed & Hparsed & IH)]; [by exists []|].
  all: apply split_combinations_ok in Hs as (split & alpha & Hp & ->).
  all: exists ((split, alpha) :: parsed); split; [by constructor|]; simpl; by rewrite IH.
Qed.

(** The grid is the product of its four lists, the aggregators innermost. *)
Lemma combinations_product grid cs :
  gr_seeds grid ≠ [] → gr_attacks grid ≠ [] → combinations f64_from_str grid = Ok cs →
  Forall (λ attack, attack = "none" ∨ attack = "poison")%string (gr_attacks grid) ∧
  ∃ parsed, Forall2 (λ spec p, parse_split f64_from_str spec = Ok p) (gr_splits grid) parsed ∧ cs = all_of grid parsed.
Proof.
  intros Hseeds Hattacks (per & Hper & [= <-])%bind_ok_inv. destruct (gr_seeds grid) as [|seed0 seeds] eqn:Hs0; [done|].
  destruct (collect_all_ok _ _ _ seed0 Hper ltac:(by left)) as [y0 (pa0 & Hpa0 & _)%bind_ok_inv].
  assert (Hall : Forall (λ attack, attack = "none" ∨ attack = "poison")%string (gr_attacks grid)).
  { apply Forall_forall. intros attack Hin. destruct (collect_all_ok _ _ _ attack Hpa0 Hin) as [y Hy].
    by apply attack_combinations_ok in Hy as [? _]. }
  split; [done|]. destruct (gr_attacks grid) as [|attack0 attacks] eqn:Ha0; [done|].
  destruct (collect_all_ok _ _ _ attack0 Hpa0 ltac:(by left)) as [y (_ & parsed & Hparsed & _)%attack_combinations_ok].
  exists parsed. split; [done|]. unfold all_of. rewrite Hs0, Ha0. f_equal. revert Hper. apply collect_determined.
  intros seed ys _ (pa & Hpa & [= <-])%bind_ok_inv. f_equal. revert Hpa. apply collect_determined.
  intros attack zs _ (_ & parsed' & Hparsed' & ->)%attack_combinations_ok. do 2 f_equal.
  clear -Hparsed Hparsed'. revert parsed' Hparsed'.
  induction Hparsed as [|spec p splits parsed Hp _ IH]; intros parsed' H'; inversion H'; subst; [done|].
  f_equal; [congruence|by apply IH].
Qed.

Lemma length_concat_const {A B} (f : A → list B) (n : nat) l :
  (∀ x, length (f x) = n) → length (concat (map f l)) = (length l * n)%nat.
Proof. intros Hf. induction l as [|x l IH]; [done|]. simpl. rewrite length_app, Hf, IH. lia. Qed.

Lemma length_all_of grid parsed :
  length (all_of grid parsed) =
    (length (gr_seeds grid) * (length (gr_attacks grid) * (length parsed * length (gr_aggregators grid))))%nat.
Proof.
  unfold all_of. do 3 (apply length_concat_const; intros ?). case_match. by rewrite length_map.
Qed.

Lemma combinations_err grid e : combinations f64_from_str grid = Err e → ∀ labels, e ≠ CombinationsFailed labels.
Proof.
  intros H labels ->. apply bind_err_inv in H as [H|(? & _ & [=])].
  apply collect_err in H as (_ & seed & _ & _ & _ & _ & H). apply bind_err_inv in H as [H|(? & _ & [=])].
  apply collect_err in H as (_ & attack & _ & _ & _ & _ & H). unfold attack_combinations in H. case_match; [done|].
  apply bind_err_inv in H as [H|(? & _ & [=])]. apply collect_err in H as (_ & spec & _ & _ & _ & _ & H).
  apply bind_err_inv in H as [H|([? ?] & _ & [=])]. unfold parse_split in H. by repeat case_match.
Qed.
End combinations_facts.

(** ** The loop *)

Section sweep_facts.
Context `{Os : ProcessOs W} `{BO : BaselineOs W} `{AF : AppendFile W}.
Context (join : string → string → string) (show_addr : SocketAddr → string)
        (addr_from_str : string → option SocketAddr) (show_f64 : f64 → string)
        (f64_from_str : string → option f64) (show_error : ProcessError → string)
        (show_record : SweepRecord → string) (repo_root : string) (fuel : nat).

Notation baseline_run := (baseline_run join show_addr addr_from_str show_f64 f64_from_str show_error repo_root fuel).
Notation run_combination := (run_combination join show_addr addr_from_str show_f64 f64_from_str show_error show_record repo_root fuel).
Notation sweep_run := (sweep_run join show_addr addr_from_str show_f64 f64_from_str show_error show_record repo_root fuel).
Notation label_of := (label_of show_f64).
Notation sstate := (SweepState (W:=W)).

(** A federation was run for [c], from some state of the machine, and came out as [o]. *)
Definition ran (grid : Grid) (c : Combination) (o : outcome string Outcome) : Prop :=
  o ≠ Panic ∧ ∃ w w', baseline_run (plan_of grid c) w = (w', o).

Definition failed_label (co : Combination * outcome string Outcome) : option string :=
  match co.2 with Ok _ => None | _ => Some (label_of co.1) end.

(** The records a combination's outcome is worth, the bar apart. *)
Definition reports (grid : Grid) (co : Combination * outcome string Outcome) : list SweepRecord :=
  match co.2 with Ok rounds => map (sweep_record grid co.1 None) rounds | _ => [] end.

Definition without_bar (r : SweepRecord) : SweepRecord :=
  {| sr_dataset := sr_dataset r; sr_aggregator := sr_aggregator r; sr_split := sr_split r;
     sr_dirichlet_alpha := sr_dirichlet_alpha r; sr_attack := sr_attack r; sr_n_clients := sr_n_clients r;
     sr_seed := sr_seed r; sr_metric := sr_metric r; sr_centralized_baseline_accuracy := None |}.

(** A record's bar is missing, or the one its seed has been given. *)
Definition bar_of (baselines : gmap Z f64) (r : SweepRecord) : Prop :=
  sr_centralized_baseline_accuracy r = None ∨ sr_centralized_baseline_accuracy r = baselines !! sr_seed r.

Lemma bar_of_mono b b' r : b ⊆ b' → bar_of b r → bar_of b' r.
Proof.
  intros Hb [?|H]; [by left|]. destruct (sr_centralized_baseline_accuracy r) as [a|] eqn:Ha; [|by left].
  right. symmetry. rewrite Ha. by eapply lookup_weaken.
Qed.

(** Nothing but the machine has changed. *)
Definition same_locals (s s' : sstate) : Prop :=
  ss_baselines s' = ss_baselines s ∧ ss_failures s' = ss_failures s ∧ ss_written s' = ss_written s.

Lemma file_call_ok (f : W → W * option string) error (s s' : sstate) :
  file_call f error s = (s', Ok ()) → same_locals s s'.
Proof.
  unfold file_call, in_os, mbind, stM_bind. destruct (f (ss_os s)) as [w [e|]]; [done|]. by intros [= <-].
Qed.

Lemma file_call_no_summary (f : W → W * option string) error (s s' : sstate) e labels :
  (∀ t, error t ≠ CombinationsFailed labels) → file_call f error s = (s', Err e) → e ≠ CombinationsFailed labels.
Proof.
  intros Herr. unfold file_call, in_os, mbind, stM_bind. destruct (f (ss_os s)) as [w [t|]]; [|done].
  by intros [= <- <-].
Qed.

Lemma ensure_baseline_ok grid c (s s' : sstate) :
  ensure_baseline join f64_from_str repo_root grid c s = (s', Ok ()) →
  ss_failures s' = ss_failures s ∧ ss_written s' = ss_written s ∧ ss_baselines s ⊆ ss_baselines s'.
Proof.
  unfold ensure_baseline, gets, mbind, stM_bind. destruct (ss_baselines s !! co_seed c) eqn:Hb; [by intros [= <-]|].
  destruct (_ <? _); [done|]. unfold in_os. destruct (centralized_baseline _ _ _ _ _ _) as [w [a| |]]; intros [= <-]; [|done].
  split_and!; [done..|]. by apply insert_subseteq.
Qed.

Lemma write_records_ok grid c rounds (s s' : sstate) :
  for_each (write_record show_record grid c) rounds s = (s', Ok ()) →
  ss_baselines s' = ss_baselines s ∧ ss_failures s' = ss_failures s ∧
  ss_written s' = ss_written s ++ map (sweep_record grid c (ss_baselines s !! co_seed c)) rounds.
Proof.
  revert s. induction rounds as [|m rounds IH]; intros s; [intros [= <-]; by rewrite app_nil_r|].
  simpl. intros ([] & s1 & H1 & H)%stM_bind_ok. apply IH in H as (Hb & Hf & Hw).
  unfold write_record, gets in H1. apply stM_bind_ok in H1 as (bar & s2 & [= <- <-] & H1).
  apply stM_bind_ok in H1 as ([] & s3 & (Hb3 & Hf3 & Hw3)%file_call_ok & [= <-]). cbn in *.
  rewrite Hb, Hf, Hw, Hb3, Hf3, Hw3. split_and!; [done..|]. by rewrite <-(assoc_L app).
Qed.

Lemma run_combination_ok grid c (s s' : sstate) :
  run_combination grid c s = (s', Ok ()) →
  ∃ o recs, ran grid c o ∧ ss_baselines s ⊆ ss_baselines s' ∧
    ss_failures s' = ss_failures s ++ option_list (failed_label (c, o)) ∧
    ss_written s' = ss_written s ++ recs ∧ map without_bar recs = reports grid (c, o) ∧ Forall (bar_of (ss_baselines s')) recs.
Proof.
  unfold BaselineSweep.run_combination. intros (o & s1 & H1 & H)%stM_bind_ok. unfold in_os in H1.
  destruct (baseline_run (plan_of grid c) (ss_os s)) as [w o'] eqn:Hrun. injection H1 as <- <-.
  destruct o' as [rounds|e|]; [| |done].
  - apply stM_bind_ok in H as ([] & s2 & (Hf2 & Hw2 & Hb2)%ensure_baseline_ok & H). cbn in Hf2, Hw2, Hb2.
    apply stM_bind_ok in H as ([] & s3 & (Hb3 & Hf3 & Hw3)%write_records_ok & (Hb4 & Hf4 & Hw4)%file_call_ok).
    exists (Ok rounds), (map (sweep_record grid c (ss_baselines s2 !! co_seed c)) rounds).
    rewrite Hb4, Hb3, Hf4, Hf3, Hf2, Hw4, Hw3, Hw2. split_and!; try done.
    + split; [done|]. eauto.
    + simpl. by rewrite app_nil_r.
    + unfold reports. simpl. rewrite map_map. by apply map_ext.
    + apply Forall_forall. intros r (m & -> & _)%list_elem_of_fmap. by right.
  - injection H as <-. exists (Err e), []. split_and!; try done; [|by rewrite app_nil_r].
    split; [done|]. eauto.
Qed.

Lemma run_all_ok grid cs (s s' : sstate) :
  for_each (run_combination grid) cs s = (s', Ok ()) →
  ∃ os recs, Forall2 (ran grid) cs os ∧ ss_baselines s ⊆ ss_baselines s' ∧
    ss_failures s' = ss_failures s ++ omap failed_label (zip cs os) ∧
    ss_written s' = ss_written s ++ recs ∧ map without_bar recs = concat (map (reports grid) (zip cs os)) ∧
    Forall (bar_of (ss_baselines s')) recs.
Proof.
  revert s. induction cs as [|c cs IH]; intros s.
  { intros [= <-]. exists [], []. rewrite !app_nil_r. by split_and!. }
  simpl. intros ([] & s1 & (o & recs1 & Hran & Hb1 & Hf1 & Hw1 & Hr1 & Hbar1)%run_combination_ok & H)%stM_bind_ok.
  apply IH in H as (os & recs & Hall & Hb & Hf & Hw & Hr & Hbar). exists (o :: os), (recs1 ++ recs). split_and!.
  - by constructor.
  - by etrans.
  - rewrite Hf, Hf1. simpl. destruct (failed_label (c, o)); simpl; by rewrite <-(assoc_L app).
  - by rewrite Hw, Hw1, (assoc_L app).
  - by rewrite map_app, Hr1, Hr.
  - apply Forall_app. split; [|done]. eapply Forall_impl; [exact Hbar1|]. intros r. by apply bar_of_mono.
Qed.

Lemma loop_no_summary grid cs (s s' : sstate) e :
  for_each (run_combination grid) cs s = (s', Err e) → ∀ labels, e ≠ CombinationsFailed labels.
Proof.
  intros H labels. revert s H. induction cs as [|c cs IH]; intros s; [done|]. simpl.
  intros [H|([] & s1 & _ & H)]%stM_bind_err; [clear IH|by eapply IH].
  unfold BaselineSweep.run_combination in H. apply stM_bind_err in H as [H|(o & s2 & _ & H)].
  { unfold in_os in H. by destruct (baseline_run _ _). }
  destruct o as [rounds|?|]; [|done..]. apply stM_bind_err in H as [H|([] & s3 & _ & H)].
  { unfold ensure_baseline, gets, mbind, stM_bind in H. destruct (_ !! _); [done|]. destruct (_ <? _); [done|].
    unfold in_os in H. by destruct (centralized_baseline _ _ _ _ _ _) as [? []]. }
  apply stM_bind_err in H as [H|([] & s4 & _ & H)]; [|by (eapply file_call_no_summary; [|exact H])].
  revert s3 H. induction rounds as [|m rounds IH]; intros s3; [done|]. simpl.
  intros [H|([] & s5 & _ & H)]%stM_bind_err; [|by eapply IH]. unfold write_record in H.
  apply stM_bind_err in H as [H|(bar & s6 & _ & H)]; [done|].
  apply stM_bind_err in H as [H|([] & s7 & _ & H)]; [by (eapply file_call_no_summary; [|exact H])|done].
Qed.

(** A sweep leaves nothing out and hides nothing.  If it gets to its summary (it was
    stopped neither by the grid nor by its output file), then it ran a federation for
    every combination of the grid, in the grid's order, whatever became of the others;
    the combinations it names as failed are exactly those whose federation failed, and
    it reports success exactly when none did; what it appended is one record per round
    of every federation that succeeded, in order; and each record's centralized bar is
    missing or the one bar its seed ever had. *)
Theorem sweep_is_exhaustive grid w s r :
  sweep_run grid (sweep_start w) = (s, r) → (r = Ok () ∨ ∃ labels, r = Err (CombinationsFailed labels)) →
  ∃ cs os, combinations f64_from_str grid = Ok cs ∧ Forall2 (ran grid) cs os ∧
    r = (match omap failed_label (zip cs os) with [] => Ok () | labels => Err (CombinationsFailed labels) end) ∧
    (r = Ok () ↔ Forall (λ o, is_ok o = true) os) ∧
    map without_bar (ss_written s) = concat (map (reports grid) (zip cs os)) ∧
    Forall (bar_of (ss_baselines s)) (ss_written s).
Proof.
  intros H Hend. unfold BaselineSweep.sweep_run in H.
  assert (Hfinish : ∃ cs s1, combinations f64_from_str grid = Ok cs ∧ same_locals (sweep_start w) s1 ∧
    for_each (run_combination grid) cs s1 = (s, Ok ()) ∧
    r = match ss_failures s with [] => Ok () | labels => Err (CombinationsFailed labels) end).
  { unfold of_outcome, mbind at 1, stM_bind at 1 in H.
    destruct (combinations f64_from_str grid) as [cs|e|] eqn:Hcs; cycle 1.
    { injection H as <- <-. destruct Hend as [?|[labels [= ->]]]; [done|]. by apply combinations_err with (labels := labels) in Hcs. }
    { injection H as <- <-. by destruct Hend as [?|[? ?]]. }
    unfold mbind at 1, stM_bind at 1 in H. destruct (file_call _ _ _) as [s1 [[]|e|]] eqn:Hopen; cycle 1.
    { injection H as <- <-. destruct Hend as [?|[labels [= ->]]]; [done|].
      exfalso. by eapply (file_call_no_summary _ _ _ _ _ labels); [|exact Hopen|]. }
    { injection H as <- <-. by destruct Hend as [?|[? ?]]. }
    unfold mbind at 1, stM_bind at 1 in H. destruct (for_each _ cs s1) as [s2 [[]|e|]] eqn:Hloop; cycle 1.
    { injection H as <- <-. destruct Hend as [?|[labels [= ->]]]; [done|].
      by apply loop_no_summary with (labels := labels) in Hloop. }
    { injection H as <- <-. by destruct Hend as [?|[? ?]]. }
    injection H as <- <-. exists cs, s1. split_and!; [done|by eapply file_call_ok|done|by destruct (ss_failures s2)]. }
  destruct Hfinish as (cs & s1 & Hcs & (Hb1 & Hf1 & Hw1) & Hloop & Hr).
  apply run_all_ok in Hloop as (os & recs & Hran & _ & Hf & Hw & Hreports & Hbars).
  rewrite Hf1 in Hf. rewrite Hw1 in Hw. simpl in Hf, Hw. exists cs, os. rewrite Hw, <-Hf. split_and!; try done.
  rewrite Hr, Hf. clear -Hran. induction Hran as [|c o cs os [Hnp _] _ IH]; [done|]. simpl.
  rewrite Forall_cons. destruct o as [rounds|e|]; simpl in *; [rewrite IH; naive_solver| |by destruct Hnp].
  split; [by intros [=]|by intros [[=] _]].
Qed.
End sweep_facts.

(** ** Witnesses and limits *)

Section demo.
#[local] Existing Instance bd_os.
#[local] Existing Instance bd_baseline_os.
#[local] Instance bd_append : AppendFile BaselineDemo :=
  {| open_append _ w := (w, None); write_line _ _ w := (w, None); flush _ w := (w, None) |}.

Definition demo_grid (seeds : list Z) : Grid :=
  {| gr_dataset := "digits"; gr_model := "mlp"; gr_aggregators := ["fedavg"; "krum"]%string; gr_splits := ["iid"%string];
     gr_attacks := ["none"%string]; gr_clients := 2; gr_rounds := 2; gr_seeds := seeds; gr_out := "sweep.jsonl" |}.

#[local] Notation demo_sweep seeds :=
  (sweep_run bd_join (λ _, "addr"%string) bd_parse (λ _, "0.3"%string) bd_number (λ _, "supervision failed"%string)
     (λ _, "{}"%string) "repo" 10 (demo_grid seeds) (sweep_start (bd_start bd_printed))).

(** The second federation finds no lines in the channel: it fails, and is named. *)
Lemma demo_sweep_result :
  (demo_sweep [42]).2 = Err (CombinationsFailed ["aggregator=krum split=iid attack=none seed=42"%string]) ∧
  map (λ r, (sr_aggregator r, rm_round (sr_metric r))) (ss_written (demo_sweep [42]).1) = [("fedavg"%string, 1); ("fedavg"%string, 2)].
Proof. vm_compute. split; reflexivity. Qed.

Lemma sweep_is_exhaustive_witness :
  ∃ cs os, combinations bd_number (demo_grid [42]) = Ok cs ∧ length os = length cs ∧
    (demo_sweep [42]).2 = match omap (failed_label (λ _, "0.3"%string)) (zip cs os) with
                          | [] => Ok () | labels => Err (CombinationsFailed labels)
                          end.
Proof.
  pose proof (proj1 demo_sweep_result) as Hr. destruct (demo_sweep [42]) as [s r] eqn:Hs. cbn [snd] in Hr |- *.
  destruct (sweep_is_exhaustive bd_join (λ _, "addr"%string) bd_parse (λ _, "0.3"%string) bd_number
    (λ _, "supervision failed"%string) (λ _, "{}"%string) "repo" 10 (demo_grid [42]) (bd_start bd_printed) s r Hs
    (or_intror (ex_intro _ _ Hr))) as (cs & os & Hcs & Hran & Hlabels & _).
  exists cs, os. split; [exact Hcs|]. split; [symmetry; exact (Forall2_length _ _ _ Hran)|exact Hlabels].
Defined.

(** A seed whose trainers' seeds overflow is no failed combination: it ends the sweep. *)
Lemma large_seed_ends_the_sweep :
  (demo_sweep [4294968; 42]).2 = Panic ∧ ss_written (demo_sweep [4294968; 42]).1 = [] ∧
  ss_failures (demo_sweep [4294968; 42]).1 = [].
Proof. vm_compute. split_and!; reflexivity. Qed.
End demo.
