(* ===== verification/Baselines.v ===== *)
(** * The baselines command ([conflux-baselines/src/main.rs])

    The manifests it discovers, the check of their methods against the registry, and
    the commands: [run] drives one edge and holds its number against the paper's,
    [verify] does it for every Rust edge, [table] keeps the README's table, [sweep]
    hands a grid to [BaselineSweep].  A command is a computation over the machine
    whose error is the exit code.  TOML, the printed forms of floats and paths, the
    disk and the processes are parameters. *)

From S2P Require Import Prelude Float Store Catalog Admin SidecarService Federation Process Text ConfigLog BaselineRun BaselineSweep.
From Stdlib Require Import Ascii.

Open Scope Z_scope.

Definition EXIT_FAIL : Z := 1.
Definition EXIT_UNKNOWN_METHOD : Z := 2.
Definition METRIC : string := "held_out_accuracy".

(** ** Manifests *)

Record Paper := { pa_title : string; pa_authors : string; pa_venue : string; pa_url : string }.
Record Method := { me_aggregator : string; me_selector : option string; me_privacy_mechanism : option string }.
Record BaselineExperiment := { ex_dataset : string; ex_model : string; ex_partition : string }.
Record Scenario := { sn_attackers : Z; sn_no_reputation : bool; sn_byzantine_fraction : option f64 }.
Record Cfg := { cg_clients : Z; cg_rounds : Z }.

Record Edge := {
  ed_harness : option string;
  ed_expected : f64;
  ed_tolerance : f64;
  ed_smoke : Cfg;
  ed_full : option Cfg;
}.

Record Clients := { ce_python : option Edge; ce_rust : option Edge }.

Record BaselineManifest := {
  bm_paper : Paper;
  bm_method : Method;
  bm_experiment : BaselineExperiment;
  bm_scenario : Scenario;
  bm_clients : Clients;
}.

Inductive ClientKind : Type := PythonClient | RustClient.
#[export] Instance ClientKind_eq_dec : EqDecision ClientKind.
Proof. solve_decision. Defined.

Definition ClientKind_label (self : ClientKind) : string :=
  match self with PythonClient => "python" | RustClient => "rust" end.

Definition edges (m : BaselineManifest) : list ClientKind :=
  match ce_python (bm_clients m) with Some _ => [PythonClient] | None => [] end ++
  match ce_rust (bm_clients m) with Some _ => [RustClient] | None => [] end.

Definition edge (m : BaselineManifest) (kind : ClientKind) : option Edge :=
  match kind with PythonClient => ce_python (bm_clients m) | RustClient => ce_rust (bm_clients m) end.

Definition edge_labels (separator : string) (m : BaselineManifest) : string :=
  String.concat separator (map ClientKind_label (edges m)).

(** *** Their methods *)

Section methods.
Context (registry : list StrategyEntry).

Definition method_exists (kind : StrategyKind) (name : string) : bool :=
  existsb (λ e, String.eqb (entry_name e) name) (entries registry kind).

Definition validate_methods (m : Method) : outcome string () :=
  if negb (method_exists Kind_Aggregator (me_aggregator m))
  then Err ("aggregator '" +:+ me_aggregator m +:+ "' is not in the catalog")
  else match me_selector m with
       | Some s =>
           if negb (method_exists Kind_Selector s) then Err ("selector '" +:+ s +:+ "' is not in the catalog") else Ok ()
       | None => Ok ()
       end ≫= λ _,
       match me_privacy_mechanism m with
       | Some p =>
           if negb (method_exists Kind_PrivacyMechanism p)
           then Err ("privacy_mechanism '" +:+ p +:+ "' is not in the catalog") else Ok ()
       | None => Ok ()
       end.
End methods.

(** ** The number a harness printed *)

Section metric.
Context (f64_from_str : string → option f64).

Definition metric_line (line : string) : option f64 := field f64_from_str line (METRIC +:+ "=").
Definition parse_last_metric (s : string) : option f64 := last (omap metric_line (text_lines s)).
End metric.

(** ** The README's table *)

Definition TABLE_BEGIN : string := "<!-- reproduced-papers:begin -->".
Definition TABLE_END : string := "<!-- reproduced-papers:end -->".

Definition split_marked_region (text : string) : option (string * string * string) :=
  begin ← String.index 0 TABLE_BEGIN text;
  let region_start := (begin + String.length TABLE_BEGIN)%nat in
  offset ← String.index 0 TABLE_END (from_index region_start text);
  let end_ := (region_start + offset)%nat in
  Some (String.substring 0 begin text, String.substring region_start offset text,
        from_index (end_ + String.length TABLE_END) text).

(** The venue already carries the year. *)
Definition author_names (authors : string) : list string :=
  filter (λ a, a ≠ ""%string)
    (map (λ l, String.string_of_list_ascii (trim l)) (split_on ","%char (String.list_ascii_of_string authors))).

Definition paper_short_form (p : Paper) : string :=
  match author_names (pa_authors p) with
  | [] => "Unknown (" +:+ pa_venue p +:+ ")"
  | [first] => first +:+ " (" +:+ pa_venue p +:+ ")"
  | first :: _ => first +:+ " et al. (" +:+ pa_venue p +:+ ")"
  end.

Section table.
(** [{:.2}] and [{:.4}] *)
Context (fixed : nat → f64 → string).

Definition table_scenario (s : Scenario) : string :=
  if Z.eqb (sn_attackers s) 0 then "clean"
  else show_u64 (sn_attackers s) +:+ " attacker(s)" +:+ (if sn_no_reputation s then ", reputation filter off" else "").

Definition table_expected (m : BaselineManifest) : string :=
  String.concat " · " (omap (λ k, e ← edge m k;
    Some (ClientKind_label k +:+ " " +:+ fixed 2 (ed_expected e) +:+ " ± " +:+ fixed 2 (ed_tolerance e))) (edges m)).

Definition table_row (row : string * BaselineManifest) : string :=
  let '(name, m) := row in
  "| [`" +:+ name +:+ "`](" +:+ name +:+ "/) | [" +:+ paper_short_form (bm_paper m) +:+ "](" +:+ pa_url (bm_paper m) +:+
  ") | `" +:+ me_aggregator (bm_method m) +:+ "` | " +:+ edge_labels ", " m +:+ " | " +:+ table_scenario (bm_scenario m) +:+
  " | " +:+ table_expected m +:+ " |" +:+ NEWLINE.

Definition TABLE_HEADER : string :=
  NEWLINE +:+ "<!-- Generated by `cargo run -p conflux-baselines -- table --write` from" +:+ NEWLINE +:+
  "     baselines/*/baseline.toml; regenerate, do not hand-edit. -->" +:+ NEWLINE +:+ NEWLINE +:+
  "| Baseline | Paper | Method | Edges | Scenario | Expected `held_out_accuracy` |" +:+ NEWLINE +:+
  "|---|---|---|---|---|---|" +:+ NEWLINE.

Definition render_table (all : list (string * BaselineManifest)) : string :=
  foldl (λ out row, out +:+ table_row row) TABLE_HEADER all +:+ NEWLINE.
End table.

(** ** The machine *)

(** What the commands ask of it beside the processes of [BaselineRun]. *)
Class BaselineHost (W : Type) := {
  (** the entries of a directory, with whether each is a directory *)
  read_dir : string → W → outcome string (list (string * bool));
  read_text : string → W → outcome string string;
  write_text : string → string → W → W * option string;
  print : string → W → W;
  eprint : string → W → W;
}.

Section commands.
Context `{Os : ProcessOs W} `{BO : BaselineOs W} `{AF : AppendFile W} `{BH : BaselineHost W}.
Context (registry : list StrategyEntry).
Context (join : string → string → string) (show_addr : SocketAddr → string)
        (addr_from_str : string → option SocketAddr) (show_f64 : f64 → string) (fixed : nat → f64 → string)
        (f64_from_str : string → option f64) (show_error : ProcessError → string)
        (show_record : SweepRecord → string) (show_sweep_error : SweepError → string)
        (manifest_from_str : string → outcome string BaselineManifest)
        (repo_root cargo : string) (fuel : nat).

(** A command: its error is the exit code. *)
Definition Run : Type → Type := stM W Z.

Definition println (line : string) : Run () := modify (print (line +:+ NEWLINE)).
Definition eprintln (line : string) : Run () := modify (eprint (line +:+ NEWLINE)).
Definition exit {A} (code : Z) : Run A := of_outcome (Err code).
Definition die {A} (code : Z) (line : string) : Run A := eprintln line ≫= λ _, exit code.

(** A value or the end of the program. *)
Definition or_die {A} (code : Z) (say : string → string) (r : outcome string A) : Run A :=
  match r with Ok a => mret a | Err e => die code (say e) | Panic => of_outcome Panic end.

Definition baselines_dir : string := join repo_root "baselines".

(** [{:?}] of a string *)
Definition quoted_debug (s : string) : string := String.string_of_list_ascii (ConfigLog.debug s).

(** *** Discovery *)

Definition load_baseline (path name : string) : Run BaselineManifest :=
  gets (read_text path) ≫= λ text,
  or_die EXIT_FAIL (λ e, "baseline '" +:+ name +:+ "': cannot read " +:+ path +:+ ": " +:+ e) text ≫= λ text,
  or_die EXIT_FAIL (λ e, "baseline '" +:+ name +:+ "': invalid manifest: " +:+ e) (manifest_from_str text).

Definition discover_entry (entry : string * bool) : Run (option (string * BaselineManifest)) :=
  let '(name, is_dir) := entry in
  if negb is_dir then mret None
  else if String.prefix "_" name then mret None
  else
    let toml_path := join (join baselines_dir name) "baseline.toml" in
    gets (exists_file toml_path) ≫= λ exists_,
    if negb exists_ then mret None
    else load_baseline toml_path name ≫= λ m, mret (Some (name, m)).

Definition by_name (a b : string * BaselineManifest) : bool := bool_decide (String.le a.1 b.1).

Definition discover : Run (list (string * BaselineManifest)) :=
  gets (read_dir baselines_dir) ≫= λ read,
  or_die EXIT_FAIL (λ e, "cannot read " +:+ baselines_dir +:+ ": " +:+ e) read ≫= λ entries,
  collectM discover_entry entries ≫= λ found,
  mret (sort_by by_name (omap id found)).

Definition load_one (name : string) : Run BaselineManifest :=
  let path := join (join baselines_dir name) "baseline.toml" in
  gets (exists_file path) ≫= λ exists_,
  if negb exists_ then die EXIT_FAIL ("no baseline '" +:+ name +:+ "' (looked for " +:+ path +:+ ")")
  else load_baseline path name.

(** *** Harnesses *)

Definition rust_harness (e : Edge) : Run string :=
  match ed_harness e with
  | Some harness => mret harness
  | None => die EXIT_FAIL ("the rust edge needs `harness = " +:+ QUOTED "<example>" +:+ "` in its manifest")
  end.

Definition plan_for (m : BaselineManifest) (cfg : Cfg) : Plan :=
  {| bp_recipe := {| re_model := ex_model (bm_experiment m); re_dataset := ex_dataset (bm_experiment m);
                     re_partition := ex_partition (bm_experiment m); re_dirichlet_alpha := None |};
     bp_aggregator := me_aggregator (bm_method m); bp_clients := cg_clients cfg;
     bp_attackers := sn_attackers (bm_scenario m); bp_rounds := cg_rounds cfg;
     bp_no_reputation := sn_no_reputation (bm_scenario m); bp_seed := DEFAULT_SEED;
     bp_byzantine_fraction := sn_byzantine_fraction (bm_scenario m) |}.

Definition federation_result (plan : Plan) : Run (option f64) := λ w,
  let '(w, r) := baseline_run join show_addr addr_from_str show_f64 f64_from_str show_error repo_root fuel plan w in
  match r with
  | Ok outcome => (w, Ok (Some (final_accuracy outcome)))
  | Err message => (eprintln ("  " +:+ message) ≫= λ _, mret None) w
  | Panic => (w, Panic)
  end.

Definition drive_python (m : BaselineManifest) (cfg : Cfg) : Run (option f64) :=
  println (NEWLINE +:+ "  running a real federation on the shared harness…") ≫= λ _,
  federation_result (plan_for m cfg).

Definition STDERR_TAIL_LINES : nat := 20.

Definition harness_tail (name text : string) : Run () :=
  let kept := take STDERR_TAIL_LINES
                (rev (filter (λ l, trim (String.list_ascii_of_string l) ≠ []) (text_lines text))) in
  match kept with
  | [] => mret ()
  | _ => eprintln ("  last " +:+ show_u64 (Z.of_nat (length kept)) +:+ " line(s) of its " +:+ name +:+ ":") ≫= λ _,
         for_each (λ line, eprintln ("    " +:+ line)) (rev kept)
  end.

(** A harness that crashed after printing its number does not tally. *)
Definition harness_result (what : string) (output : ChildOutput) : Run (option f64) :=
  let metric := parse_last_metric f64_from_str (out_stdout output) in
  if success (out_status output) && bool_decide (is_Some metric) then mret metric
  else
    (if negb (success (out_status output))
     then eprintln ("  " +:+ what +:+ " exited with " +:+ es_text (out_status output))
     else eprintln ("  " +:+ what +:+ " exited cleanly but never printed `" +:+ METRIC +:+ "=`")) ≫= λ _,
    harness_tail "stdout" (out_stdout output) ≫= λ _,
    harness_tail "stderr" (out_stderr output) ≫= λ _,
    mret None.

Definition cargo_args (m : BaselineManifest) (harness : string) (cfg : Cfg) : list string :=
  ["run"; "--example"; harness; "-p"; "conflux-client"; "--features"; "burn"; "--";
   "--aggregator"; me_aggregator (bm_method m); "--clients"; show_u64 (cg_clients cfg);
   "--rounds"; show_u64 (cg_rounds cfg); "--attackers"; show_u64 (sn_attackers (bm_scenario m))]%string.

Definition launch_example (args : list string) : Run ChildOutput := λ w,
  let '(w, r) := command_output cargo args repo_root w in
  or_die EXIT_FAIL (λ err, "failed to launch the Burn example: " +:+ err) r w.

Definition drive_rust (m : BaselineManifest) (e : Edge) (cfg : Cfg) : Run (option f64) :=
  rust_harness e ≫= λ harness,
  launch_example (cargo_args m harness cfg) ≫= λ output,
  harness_result "the Burn example" output.

Definition drive (m : BaselineManifest) (kind : ClientKind) (e : Edge) (cfg : Cfg) : Run (option f64) :=
  match kind with PythonClient => drive_python m cfg | RustClient => drive_rust m e cfg end.

(** [(acc - expected).abs() <= tolerance] *)
Definition within (e : Edge) (acc : f64) : bool := SFleb (SFabs (f64_sub acc (ed_expected e))) (ed_tolerance e).

(** *** [list] *)

(** The scalar values of a text: its bytes but the continuation bytes of UTF-8. *)
Definition char_count (s : string) : nat :=
  length (filter (λ c, negb ((128 <=? nat_of_ascii c)%nat && (nat_of_ascii c <? 192)%nat) = true) (String.list_ascii_of_string s)).
(** [{:<n}] *)
Definition pad (n : nat) (s : string) : string :=
  s +:+ String.string_of_list_ascii (replicate (n - char_count s) " "%char).

Definition scenario_label (s : Scenario) : string :=
  if 0 <? sn_attackers s then show_u64 (sn_attackers s) +:+ " attacker(s)" else "clean".

Definition list_row (row : string * BaselineManifest) : string :=
  let '(name, m) := row in
  pad 24 name +:+ pad 14 (me_aggregator (bm_method m)) +:+ pad 14 (edge_labels "," m) +:+
  pad 16 (scenario_label (bm_scenario m)) +:+ pa_venue (bm_paper m).

Definition cmd_list : Run () :=
  discover ≫= λ all,
  match all with
  | [] => println ("no baselines found under " +:+ baselines_dir)
  | _ =>
      println (show_u64 (Z.of_nat (length all)) +:+ " baseline(s):" +:+ NEWLINE) ≫= λ _,
      println (pad 24 "NAME" +:+ pad 14 "METHOD" +:+ pad 14 "EDGES" +:+ pad 16 "SCENARIO" +:+ "PAPER") ≫= λ _,
      for_each (λ row, println (list_row row)) all ≫= λ _,
      println (NEWLINE +:+ "run `... run <name> --client rust --plan` to validate a manifest and see its plan.")
  end.

(** *** [run] *)

Record BaselineRunArgs := { ba_name : option string; ba_plan : bool; ba_full : bool; ba_client : option ClientKind }.

Definition no_run_args : BaselineRunArgs := {| ba_name := None; ba_plan := false; ba_full := false; ba_client := None |}.

Fixpoint parse_run_args (args : list string) (acc : BaselineRunArgs) : Run BaselineRunArgs :=
  match args with
  | [] => mret acc
  | a :: rest =>
      if String.eqb a "--plan" then
        parse_run_args rest {| ba_name := ba_name acc; ba_plan := true; ba_full := ba_full acc; ba_client := ba_client acc |}
      else if String.eqb a "--full" then
        parse_run_args rest {| ba_name := ba_name acc; ba_plan := ba_plan acc; ba_full := true; ba_client := ba_client acc |}
      else if String.eqb a "--client" then
        match rest with
        | v :: rest =>
            let client kind := {| ba_name := ba_name acc; ba_plan := ba_plan acc; ba_full := ba_full acc; ba_client := Some kind |} in
            if String.eqb v "python" then parse_run_args rest (client PythonClient)
            else if String.eqb v "rust" then parse_run_args rest (client RustClient)
            else die EXIT_FAIL ("--client expects python|rust, got Some(" +:+ quoted_debug v +:+ ")")
        | [] => die EXIT_FAIL "--client expects python|rust, got None"
        end
      else if String.prefix "--" a then die EXIT_FAIL ("unknown flag: " +:+ a)
      else match ba_name acc with
           | None => parse_run_args rest {| ba_name := Some a; ba_plan := ba_plan acc; ba_full := ba_full acc; ba_client := ba_client acc |}
           | Some _ => die EXIT_FAIL ("unexpected argument: " +:+ a)
           end
  end.

Definition choose_kind (name : string) (m : BaselineManifest) (client : option ClientKind) : Run ClientKind :=
  match client with
  | Some kind => mret kind
  | None => match head (edges m) with
            | Some kind => mret kind
            | None => die EXIT_FAIL ("✗ " +:+ name +:+ ": manifest declares no client edges")
            end
  end.

Definition choose_edge (name : string) (m : BaselineManifest) (kind : ClientKind) : Run Edge :=
  match edge m kind with
  | Some e => mret e
  | None => die EXIT_FAIL ("✗ " +:+ name +:+ ": no " +:+ ClientKind_label kind +:+ " edge (available: " +:+ edge_labels "," m +:+ ")")
  end.

Definition choose_cfg (full : bool) (e : Edge) : Cfg := if full then default (ed_smoke e) (ed_full e) else ed_smoke e.

Definition plan_numbers (m : BaselineManifest) (cfg : Cfg) : string :=
  "clients=" +:+ show_u64 (cg_clients cfg) +:+ " rounds=" +:+ show_u64 (cg_rounds cfg) +:+
  " attackers=" +:+ show_u64 (sn_attackers (bm_scenario m)).

Definition pretty_command (m : BaselineManifest) (kind : ClientKind) (e : Edge) (cfg : Cfg) : Run string :=
  match kind with
  | PythonClient =>
      mret ("a real federation on the shared harness: model=" +:+ ex_model (bm_experiment m) +:+ " dataset=" +:+
            ex_dataset (bm_experiment m) +:+ " partition=" +:+ ex_partition (bm_experiment m) +:+ " aggregator=" +:+
            me_aggregator (bm_method m) +:+ " " +:+ plan_numbers m cfg)
  | RustClient =>
      rust_harness e ≫= λ harness,
      mret ("cargo run --example " +:+ harness +:+ " -p conflux-client --features burn -- --aggregator " +:+
            me_aggregator (bm_method m) +:+ " --clients " +:+ show_u64 (cg_clients cfg) +:+ " --rounds " +:+
            show_u64 (cg_rounds cfg) +:+ " --attackers " +:+ show_u64 (sn_attackers (bm_scenario m)))
  end.

Definition plan_scenario (s : Scenario) : string :=
  if 0 <? sn_attackers s
  then show_u64 (sn_attackers s) +:+ " attacker(s), no_reputation=" +:+ (if sn_no_reputation s then "true" else "false")
  else "clean (no attackers)".

Definition print_plan (name : string) (m : BaselineManifest) (kind : ClientKind) (e : Edge) (cfg : Cfg) (label : string) : Run () :=
  println ("baseline: " +:+ name) ≫= λ _,
  println ("  paper:    " +:+ pa_title (bm_paper m)) ≫= λ _,
  println ("            " +:+ pa_authors (bm_paper m) +:+ " · " +:+ pa_venue (bm_paper m) +:+ " · " +:+ pa_url (bm_paper m)) ≫= λ _,
  println ("  method:   aggregator=" +:+ me_aggregator (bm_method m) +:+ "  selector=" +:+
           default "—" (me_selector (bm_method m)) +:+ "  ✓ validated against the catalog") ≫= λ _,
  println ("  scenario: " +:+ plan_scenario (bm_scenario m)) ≫= λ _,
  match kind with
  | RustClient => rust_harness e ≫= λ harness, mret ("harness " +:+ harness)
  | PythonClient => mret "the shared harness"%string
  end ≫= λ by_what,
  println ("  edge:     " +:+ ClientKind_label kind +:+ " — " +:+ by_what +:+ " (dataset=" +:+ ex_dataset (bm_experiment m) +:+
           ", model=" +:+ ex_model (bm_experiment m) +:+ ", partition=" +:+ ex_partition (bm_experiment m) +:+ ")") ≫= λ _,
  println ("  config:   [" +:+ label +:+ "] clients=" +:+ show_u64 (cg_clients cfg) +:+ " rounds=" +:+ show_u64 (cg_rounds cfg)) ≫= λ _,
  println ("  target:   " +:+ METRIC +:+ " = " +:+ fixed 2 (ed_expected e) +:+ " ± " +:+ fixed 2 (ed_tolerance e)) ≫= λ _,
  pretty_command m kind e cfg ≫= λ command,
  println ("  command:  " +:+ command).

Definition run_verdict (name : string) (kind : ClientKind) (e : Edge) (achieved : option f64) : Run () :=
  match achieved with
  | Some acc =>
      println (NEWLINE +:+ "  achieved " +:+ METRIC +:+ " = " +:+ fixed 4 acc +:+ "   target " +:+ fixed 2 (ed_expected e) +:+
               " ± " +:+ fixed 2 (ed_tolerance e) +:+ "   Δ=" +:+ fixed 4 (SFabs (f64_sub acc (ed_expected e)))) ≫= λ _,
      if within e acc then println ("✓ " +:+ name +:+ " [" +:+ ClientKind_label kind +:+ "]: REPRODUCED")
      else println ("✗ " +:+ name +:+ " [" +:+ ClientKind_label kind +:+ "]: MISS — outside tolerance") ≫= λ _, exit EXIT_FAIL
  | None => die EXIT_FAIL ("✗ " +:+ name +:+ ": harness produced no `" +:+ METRIC +:+ "` (the reason is above)")
  end.

Definition cmd_run (args : list string) : Run () :=
  parse_run_args args no_run_args ≫= λ a,
  match ba_name a with
  | None => die EXIT_FAIL "usage: run <name> [--client python|rust] [--full] [--plan]"
  | Some name =>
      load_one name ≫= λ m,
      match validate_methods registry (bm_method m) with
      | Ok _ =>
          choose_kind name m (ba_client a) ≫= λ kind,
          choose_edge name m kind ≫= λ e,
          let cfg := choose_cfg (ba_full a) e in
          print_plan name m kind e cfg (if ba_full a then "full" else "smoke") ≫= λ _,
          if ba_plan a then mret ()
          else drive m kind e cfg ≫= λ achieved, run_verdict name kind e achieved
      | Err e =>
          eprintln ("✗ " +:+ name +:+ ": " +:+ e) ≫= λ _,
          die EXIT_UNKNOWN_METHOD "  (see `cargo run -p conflux-core --example catalog` for available methods)"
      | Panic => of_outcome Panic
      end
  end.

(** *** [verify] *)

Fixpoint verify_plan_flag (args : list string) (plan : bool) : Run bool :=
  match args with
  | [] => mret plan
  | a :: rest =>
      if String.eqb a "--plan" then verify_plan_flag rest true
      else if String.eqb a "--ci" then verify_plan_flag rest plan
      else die EXIT_FAIL ("unknown flag: " +:+ a)
  end.

Inductive Tally : Type := Passed | Failed | Skipped | Planned_only.

(** One baseline's turn. *)
Definition verify_one (plan : bool) (row : string * BaselineManifest) : Run Tally :=
  let '(name, m) := row in
  match validate_methods registry (bm_method m) with
  | Err err => println ("✗ " +:+ name +:+ ": " +:+ err) ≫= λ _, mret Failed
  | Panic => of_outcome Panic
  | Ok _ =>
      match edge m RustClient with
      | None => println ("– " +:+ name +:+ ": no rust edge, skipped") ≫= λ _, mret Skipped
      | Some e =>
          let cfg := ed_smoke e in
          if plan then
            println ("• " +:+ name +:+ ": [rust/smoke] " +:+ me_aggregator (bm_method m) +:+ " " +:+ plan_numbers m cfg +:+ " → " +:+
                     METRIC +:+ " " +:+ fixed 2 (ed_expected e) +:+ "±" +:+ fixed 2 (ed_tolerance e)) ≫= λ _, mret Planned_only
          else
            drive m RustClient e cfg ≫= λ achieved,
            match achieved with
            | Some acc =>
                println ((if within e acc then "✓" else "✗") +:+ " " +:+ name +:+ ": " +:+ fixed 4 acc +:+ " (target " +:+
                         fixed 2 (ed_expected e) +:+ "±" +:+ fixed 2 (ed_tolerance e) +:+ ")") ≫= λ _,
                mret (if within e acc then Passed else Failed)
            | None => println ("✗ " +:+ name +:+ ": no metric produced") ≫= λ _, mret Failed
            end
      end
  end.

#[export] Instance Tally_eq_dec : EqDecision Tally.
Proof. solve_decision. Defined.

Definition tally (t : Tally) (tallies : list Tally) : Z := Z.of_nat (length (filter (λ x, x = t) tallies)).

Definition cmd_verify (args : list string) : Run () :=
  verify_plan_flag args false ≫= λ plan : bool,
  discover ≫= λ all,
  println ("verifying " +:+ show_u64 (Z.of_nat (length all)) +:+ " baseline(s) via the Rust (Burn) edge:" +:+ NEWLINE) ≫= λ _,
  collectM (verify_one plan) all ≫= λ tallies,
  if plan then mret ()
  else
    println (NEWLINE +:+ show_u64 (tally Passed tallies) +:+ " passed, " +:+ show_u64 (tally Failed tallies) +:+ " failed, " +:+
             show_u64 (tally Skipped tallies) +:+ " skipped") ≫= λ _,
    if 0 <? tally Failed tallies then exit EXIT_FAIL else mret ().

(** *** [table] *)

Fixpoint table_flags (args : list string) (write check : bool) : Run (bool * bool) :=
  match args with
  | [] => mret (write, check)
  | a :: rest =>
      if String.eqb a "--write" then table_flags rest true check
      else if String.eqb a "--check" then table_flags rest write true
      else die EXIT_FAIL ("unknown flag: " +:+ a)
  end.

Definition refuse_unknown (row : string * BaselineManifest) : Run () :=
  match validate_methods registry (bm_method row.2) with
  | Ok _ => mret ()
  | Err err => die EXIT_UNKNOWN_METHOD ("✗ " +:+ row.1 +:+ ": " +:+ err)
  | Panic => of_outcome Panic
  end.

Definition refill (before table after : string) : string := before +:+ TABLE_BEGIN +:+ table +:+ TABLE_END +:+ after.

Definition write_readme (readme text : string) : Run () := λ w,
  let '(w, failed) := write_text readme text w in
  match failed with
  | None => (w, Ok ())
  | Some e => die EXIT_FAIL ("cannot write " +:+ readme +:+ ": " +:+ e) w
  end.

Definition cmd_table (args : list string) : Run () :=
  table_flags args false false ≫= λ flags : bool * bool,
  let '(write, check) := flags in
  discover ≫= λ all,
  for_each refuse_unknown all ≫= λ _,
  let table := render_table fixed all in
  if negb write && negb check then (modify (print table) : Run ())
  else
    let readme := join baselines_dir "README.md" in
    gets (read_text readme) ≫= λ read,
    or_die EXIT_FAIL (λ e, "cannot read " +:+ readme +:+ ": " +:+ e) read ≫= λ text,
    match split_marked_region text with
    | None => die EXIT_FAIL (readme +:+ " has no `" +:+ TABLE_BEGIN +:+ "` … `" +:+ TABLE_END +:+ "` markers to fill")
    | Some (before, current, after) =>
        if check then
          if String.eqb current table then println ("✓ " +:+ readme +:+ " table is up to date")
          else die EXIT_FAIL ("✗ " +:+ readme +:+
                              " table is stale — regenerate with `cargo run -p conflux-baselines -- table --write`")
        else
          let updated := refill before table after in
          if String.eqb updated text then println (readme +:+ " table already up to date")
          else
            write_readme readme updated ≫= λ _,
            println ("wrote the table into " +:+ readme)
    end.

(** *** [sweep] *)

Definition parse_u32 (value flag : string) : Run Z :=
  match parse_u64 (String.list_ascii_of_string value) with
  | Some n => if n <=? u32_max then mret n else die EXIT_FAIL (flag +:+ " expects a number, got " +:+ quoted_debug value)
  | None => die EXIT_FAIL (flag +:+ " expects a number, got " +:+ quoted_debug value)
  end.

Record SweepArgs := {
  sa_dataset : option string;
  sa_model : option string;
  sa_out : option string;
  sa_aggregators : list string;
  sa_splits : list string;
  sa_attacks : list string;
  sa_seeds : list string;
  sa_clients : Z;
  sa_rounds : Z;
}.

Definition sweep_defaults : SweepArgs :=
  {| sa_dataset := None; sa_model := None; sa_out := None; sa_aggregators := []; sa_splits := []; sa_attacks := [];
     sa_seeds := []; sa_clients := 5; sa_rounds := 15 |}.

Inductive SweepFlag : Type :=
  | OneValue (set : string → SweepArgs → SweepArgs)
  | OneNumber (set : Z → SweepArgs → SweepArgs)
  | ManyValues (push : string → SweepArgs → SweepArgs).

Definition sweep_flag (flag : string) : option SweepFlag :=
  if String.eqb flag "--dataset" then Some (OneValue (λ v a, {| sa_dataset := Some v; sa_model := sa_model a; sa_out := sa_out a;
    sa_aggregators := sa_aggregators a; sa_splits := sa_splits a; sa_attacks := sa_attacks a; sa_seeds := sa_seeds a;
    sa_clients := sa_clients a; sa_rounds := sa_rounds a |}))
  else if String.eqb flag "--model" then Some (OneValue (λ v a, {| sa_dataset := sa_dataset a; sa_model := Some v; sa_out := sa_out a;
    sa_aggregators := sa_aggregators a; sa_splits := sa_splits a; sa_attacks := sa_attacks a; sa_seeds := sa_seeds a;
    sa_clients := sa_clients a; sa_rounds := sa_rounds a |}))
  else if String.eqb flag "--out" then Some (OneValue (λ v a, {| sa_dataset := sa_dataset a; sa_model := sa_model a; sa_out := Some v;
    sa_aggregators := sa_aggregators a; sa_splits := sa_splits a; sa_attacks := sa_attacks a; sa_seeds := sa_seeds a;
    sa_clients := sa_clients a; sa_rounds := sa_rounds a |}))
  else if String.eqb flag "--clients" then Some (OneNumber (λ n a, {| sa_dataset := sa_dataset a; sa_model := sa_model a;
    sa_out := sa_out a; sa_aggregators := sa_aggregators a; sa_splits := sa_splits a; sa_attacks := sa_attacks a;
    sa_seeds := sa_seeds a; sa_clients := n; sa_rounds := sa_rounds a |}))
  else if String.eqb flag "--rounds" then Some (OneNumber (λ n a, {| sa_dataset := sa_dataset a; sa_model := sa_model a;
    sa_out := sa_out a; sa_aggregators := sa_aggregators a; sa_splits := sa_splits a; sa_attacks := sa_attacks a;
    sa_seeds := sa_seeds a; sa_clients := sa_clients a; sa_rounds := n |}))
  else if String.eqb flag "--aggregators" then Some (ManyValues (λ v a, {| sa_dataset := sa_dataset a; sa_model := sa_model a;
    sa_out := sa_out a; sa_aggregators := sa_aggregators a ++ [v]; sa_splits := sa_splits a; sa_attacks := sa_attacks a;
    sa_seeds := sa_seeds a; sa_clients := sa_clients a; sa_rounds := sa_rounds a |}))
  else if String.eqb flag "--splits" then Some (ManyValues (λ v a, {| sa_dataset := sa_dataset a; sa_model := sa_model a;
    sa_out := sa_out a; sa_aggregators := sa_aggregators a; sa_splits := sa_splits a ++ [v]; sa_attacks := sa_attacks a;
    sa_seeds := sa_seeds a; sa_clients := sa_clients a; sa_rounds := sa_rounds a |}))
  else if String.eqb flag "--attacks" then Some (ManyValues (λ v a, {| sa_dataset := sa_dataset a; sa_model := sa_model a;
    sa_out := sa_out a; sa_aggregators := sa_aggregators a; sa_splits := sa_splits a; sa_attacks := sa_attacks a ++ [v];
    sa_seeds := sa_seeds a; sa_clients := sa_clients a; sa_rounds := sa_rounds a |}))
  else if String.eqb flag "--seeds" then Some (ManyValues (λ v a, {| sa_dataset := sa_dataset a; sa_model := sa_model a;
    sa_out := sa_out a; sa_aggregators := sa_aggregators a; sa_splits := sa_splits a; sa_attacks := sa_attacks a;
    sa_seeds := sa_seeds a ++ [v]; sa_clients := sa_clients a; sa_rounds := sa_rounds a |}))
  else None.

(** The loop over the arguments: [pending] is the list flag whose values are being
    taken, which ends at the next flag. *)
Fixpoint parse_sweep_args (args : list string) (pending : option (string → SweepArgs → SweepArgs)) (a : SweepArgs) : Run SweepArgs :=
  match args with
  | [] => mret a
  | x :: rest =>
      match (if String.prefix "--" x then None else pending) with
      | Some push => parse_sweep_args rest pending (push x a)
      | None =>
          match sweep_flag x with
          | None => die EXIT_FAIL ("unknown flag: " +:+ x)
          | Some (ManyValues push) => parse_sweep_args rest (Some push) a
          | Some (OneValue set) =>
              match rest with
              | v :: rest => parse_sweep_args rest None (set v a)
              | [] => die EXIT_FAIL (x +:+ " expects a value")
              end
          | Some (OneNumber set) =>
              match rest with
              | v :: rest => parse_u32 v x ≫= λ n, parse_sweep_args rest None (set n a)
              | [] => die EXIT_FAIL (x +:+ " expects a value")
              end
          end
      end
  end.

Definition sweep_usage : string :=
  "usage: sweep --dataset <name> --model <name> --aggregators <a..> --out <file>" +:+ NEWLINE +:+
  "       [--splits iid dirichlet:0.5 ..] [--attacks none poison] [--seeds 1 2 3] [--clients N] [--rounds N]".

Definition known_aggregator (name : string) : Run () :=
  if method_exists registry Kind_Aggregator name then mret ()
  else die EXIT_UNKNOWN_METHOD ("✗ unknown aggregator '" +:+ name +:+ "' — not in the catalog").

Definition if_empty {A} (l fallback : list A) : list A := match l with [] => fallback | _ => l end.

Definition grid_of (args : list string) : Run Grid :=
  parse_sweep_args args None sweep_defaults ≫= λ a,
  match sa_dataset a, sa_model a, sa_out a with
  | Some dataset, Some model, Some out =>
      match sa_aggregators a with
      | [] => die EXIT_FAIL "--aggregators needs at least one method"
      | _ =>
          for_each known_aggregator (sa_aggregators a) ≫= λ _,
          match sa_seeds a with
          | [] => mret [DEFAULT_SEED]
          | seeds => collectM (λ s, parse_u32 s "--seeds") seeds
          end ≫= λ seeds,
          mret {| gr_dataset := dataset; gr_model := model; gr_aggregators := sa_aggregators a;
                  gr_splits := if_empty (sa_splits a) ["iid"%string]; gr_attacks := if_empty (sa_attacks a) ["none"%string];
                  gr_clients := sa_clients a; gr_rounds := sa_rounds a; gr_seeds := seeds; gr_out := out |}
      end
  | _, _, _ => die EXIT_FAIL sweep_usage
  end.

Definition run_grid (grid : Grid) : Run () := λ w,
  let '(s, r) := sweep_run join show_addr addr_from_str show_f64 f64_from_str show_error show_record repo_root fuel grid
                   (sweep_start w) in
  or_die EXIT_FAIL (λ e, e) (map_err show_sweep_error r) (ss_os s).

Definition cmd_sweep (args : list string) : Run () := grid_of args ≫= run_grid.

(** *** [main] *)

Definition usage_lines : list string :=
  [ "conflux-baselines — reproduce published FL results"; "";
    "USAGE:";
    "  list                                    every discovered baseline";
    "  run <name> [--client python|rust] [--full] [--plan]";
    "  verify [--ci] [--plan]                  run every baseline's Rust edge";
    "  table [--write] [--check]               the " +:+ QUOTED "Reproduced papers" +:+ " table from the manifests";
    "  sweep --dataset D --model M --aggregators A.. [--splits S..]";
    "        [--attacks none|poison ..] [--seeds N..] [--clients N]";
    "        [--rounds N] --out FILE"; "";
    "Edges: python drives a real federation on the shared harness; rust drives the Burn";
    "`conflux-client` example. --plan validates + prints the plan without running.";
    "`verify` uses the Rust edge — fast, deterministic, no Python needed.";
    "`table` prints the table; --write puts it into baselines/README.md between";
    "its markers; --check exits 1 when that README is stale.";
    "`sweep` runs a real federation per (aggregator, split, attack, seed) combination";
    "and appends one JSONL record per round, for comparing methods against each other";
    "rather than against a paper. Pass several `--seeds` and summarize across them:";
    "one seed measures a run, not a method." ]%string.

Definition usage : Run () := println (String.concat NEWLINE usage_lines).

Definition baselines_main (args : list string) : Run () :=
  match args with
  | [] => usage
  | command :: args =>
      if String.eqb command "list" then cmd_list
      else if String.eqb command "run" then cmd_run args
      else if String.eqb command "verify" then cmd_verify args
      else if String.eqb command "table" then cmd_table args
      else if String.eqb command "sweep" then cmd_sweep args
      else if String.eqb command "-h" || String.eqb command "--help" then usage
      else eprintln ("unknown command: " +:+ command +:+ NEWLINE) ≫= λ _, usage ≫= λ _, exit EXIT_FAIL
  end.
End commands.

(** ** The marked region *)

Lemma split_marked_region_some before region after :
  String.index 0 TABLE_BEGIN (refill before region after) = Some (String.length before) →
  String.index 0 TABLE_END (region +:+ TABLE_END +:+ after) = Some (String.length region) →
  split_marked_region (refill before region after) = Some (before, region, after).
Proof.
  intros Hb He. unfold split_marked_region. rewrite Hb. cbn [mbind option_bind]. unfold refill.
  rewrite <-string_length_app, <-string_app_assoc, from_index_app, He. cbn [mbind option_bind].
  rewrite substring_skip, substring_app_l.
  rewrite string_app_assoc, substring_app_l. do 2 f_equal.
  rewrite <-!string_length_app, <-!string_app_assoc. apply from_index_app.
Qed.

Lemma split_marked_region_inv text before region after :
  split_marked_region text = Some (before, region, after) →
  text = refill before region after ∧ String.index 0 TABLE_BEGIN text = Some (String.length before).
Proof.
  unfold split_marked_region. destruct (String.index 0 TABLE_BEGIN text) as [n|] eqn:Hb; [|done]. cbn [mbind option_bind].
  destruct (index_first _ _ _ Hb) as (b & rest & -> & ->).
  rewrite <-string_length_app, <-string_app_assoc, from_index_app.
  destruct (String.index 0 TABLE_END rest) as [k|] eqn:He; [|done]. cbn [mbind option_bind].
  destruct (index_first _ _ _ He) as (r & a & -> & ->). rewrite substring_skip, substring_app_l.
  rewrite <-!string_length_app.
  replace ((b +:+ TABLE_BEGIN) +:+ r +:+ TABLE_END +:+ a) with (((b +:+ TABLE_BEGIN +:+ r) +:+ TABLE_END) +:+ a)
    by (by rewrite !string_app_assoc).
  intros [= <- <- <-]. split.
  - rewrite !string_app_assoc, substring_app_l. unfold refill. do 4 f_equal.
    rewrite <-!string_app_assoc. symmetry. apply from_index_app.
  - rewrite !string_app_assoc, substring_app_l. done.
Qed.

(** *** A table holds no end marker *)

Definition lt_char : ascii := "<"%char.
Fixpoint no_lt (s : string) : Prop := match s with String c s => c ≠ lt_char ∧ no_lt s | EmptyString => True end.

Lemma no_lt_app a b : no_lt (a +:+ b) ↔ no_lt a ∧ no_lt b.
Proof.
  induction a as [|c a IH]; [by split; [|intros [_ ?]]|]. rewrite string_app_cons. simpl. rewrite IH. tauto.
Qed.

Lemma no_lt_concat sep l : no_lt sep → Forall no_lt l → no_lt (String.concat sep l).
Proof.
  intros Hsep. induction 1 as [|x l Hx Hl IH]; [done|]. simpl. destruct l as [|y l]; [done|].
  rewrite !no_lt_app. by split_and!.
Qed.

Lemma no_lt_u64 n : 0 ≤ n → no_lt (show_u64 n).
Proof.
  intros Hn. unfold show_u64. pose proof (decimal_digits 20 n Hn) as Hd. fold (u64_to_string n) in Hd.
  induction Hd as [|c l (d & Hr & ->) _ IH]; [done|]. simpl. split; [|exact IH].
  intros He. pose proof (digit_value_digit d Hr) as Hv. by rewrite He in Hv.
Qed.

Lemma index_end_plain s r : no_lt s → String.index 0 TABLE_END (s +:+ TABLE_END +:+ r) = Some (String.length s).
Proof.
  induction s as [|c s IH]; intros Hs.
  - change (String.index 0 TABLE_END (TABLE_END +:+ r) = Some 0%nat). unfold TABLE_END at 2. rewrite string_app_cons, index_cons.
    rewrite <-string_app_cons. fold TABLE_END. by rewrite prefix_app_self.
  - destruct Hs as [Hc Hs]. rewrite string_app_cons, index_cons.
    assert (Hp : String.prefix TABLE_END (String c (s +:+ TABLE_END +:+ r)) = false).
    { unfold TABLE_END at 1. cbn [String.prefix]. destruct (ascii_dec _ _) as [He|]; [by destruct Hc|done]. }
    rewrite Hp, IH by done. done.
Qed.

(** A constant text. *)
Ltac no_lt_now := vm_compute; repeat split; done.

Section plain.
Context (fixed : nat → f64 → string) (Hfixed : ∀ n x, no_lt (fixed n x)).

(** What of a manifest is quoted in the table as it is. *)
Definition plain_row (row : string * BaselineManifest) : Prop :=
  no_lt row.1 ∧ no_lt (paper_short_form (bm_paper row.2)) ∧ no_lt (pa_url (bm_paper row.2)) ∧
  no_lt (me_aggregator (bm_method row.2)) ∧ 0 ≤ sn_attackers (bm_scenario row.2).

Lemma plain_labels sep m : no_lt sep → no_lt (edge_labels sep m).
Proof.
  intros Hsep. apply no_lt_concat; [done|]. apply Forall_forall. intros x (k & -> & _)%list_elem_of_fmap.
  destruct k; no_lt_now.
Qed.

Ltac plain_text :=
  repeat (rewrite no_lt_app; split); try match goal with |- no_lt (String _ _) => no_lt_now | |- no_lt NEWLINE => no_lt_now end.

Lemma plain_expected m : no_lt (table_expected fixed m).
Proof.
  apply no_lt_concat; [no_lt_now|]. apply Forall_forall. intros x (k & _ & Hx)%list_elem_of_omap.
  destruct (edge m k) as [e|]; [|done]. injection Hx as <-. plain_text; try apply Hfixed.
  destruct k; no_lt_now.
Qed.

Lemma plain_table_row row : plain_row row → no_lt (table_row fixed row).
Proof.
  destruct row as [name m]. intros (Hn & Hp & Hu & Ha & Hs). cbn [fst snd] in *. unfold table_row.
  plain_text; try done; [apply plain_labels; no_lt_now| |apply plain_expected].
  unfold table_scenario. destruct (Z.eqb _ _); [no_lt_now|].
  plain_text; [by apply no_lt_u64|]. destruct (sn_no_reputation _); no_lt_now.
Qed.

(** The rows, after the header. *)
Lemma render_table_rows all : ∃ rows, render_table fixed all = TABLE_HEADER +:+ rows ∧ (Forall plain_row all → no_lt rows).
Proof.
  assert (Hgen : ∀ out, ∃ rows, foldl (λ out row, out +:+ table_row fixed row) out all = out +:+ rows ∧
    (Forall plain_row all → no_lt rows)).
  { induction all as [|row all IH]; intros out; [exists ""%string; split; [|done]; by rewrite string_app_nil_r|]. simpl.
    destruct (IH (out +:+ table_row fixed row)) as (rows & -> & Hrows). exists (table_row fixed row +:+ rows).
    split; [by rewrite string_app_assoc|]. intros [Hrow Hall]%Forall_cons. rewrite no_lt_app.
    split; [by apply plain_table_row|by apply Hrows]. }
  destruct (Hgen TABLE_HEADER) as (rows & Hr & Hplain). exists (rows +:+ NEWLINE). unfold render_table.
  rewrite Hr, string_app_assoc. split; [done|]. intros Hall. rewrite no_lt_app. split; [by apply Hplain|].
  no_lt_now.
Qed.

Definition header_rest : string := from_index 2 TABLE_HEADER.

Lemma header_shape : TABLE_HEADER = String (ascii_of_nat 10) (String lt_char header_rest).
Proof. vm_compute. reflexivity. Qed.

Lemma header_rest_plain : no_lt header_rest.
Proof. vm_compute. split_and!; done. Qed.

Lemma table_has_no_end all r :
  Forall plain_row all →
  String.index 0 TABLE_END (render_table fixed all +:+ TABLE_END +:+ r) = Some (String.length (render_table fixed all)).
Proof.
  intros Hall. destruct (render_table_rows all) as (rows & -> & Hrows). specialize (Hrows Hall).
  rewrite header_shape, !string_app_assoc, !string_app_cons, !index_cons.
  replace (String.prefix TABLE_END (String (ascii_of_nat 10) _)) with false by (symmetry; done).
  rewrite <-(string_app_cons lt_char header_rest).
  rewrite prefix_app_long by (vm_compute; lia).
  replace (String.prefix TABLE_END (String lt_char header_rest)) with false by (symmetry; by vm_compute).
  rewrite <-string_app_assoc, index_end_plain; [done|]. rewrite no_lt_app. split; [apply header_rest_plain|done].
Qed.
End plain.

(** ** Laws of the disk, and properties *)

Class BaselineHostLaws (W : Type) `{BO : BaselineOs W} `{BH : BaselineHost W} := {
  read_written path text w w' : write_text path text w = (w', None) → read_text path w' = Ok text;
  (** an existing file is rewritten: no directory gains an entry, no other file changes *)
  written_elsewhere path text old w w' :
    read_text path w = Ok old → write_text path text w = (w', None) →
    (∀ d, read_dir d w' = read_dir d w) ∧ ∀ p, p ≠ path → read_text p w' = read_text p w ∧ exists_file p w' = exists_file p w;
  print_reads text w :
    (∀ d, read_dir d (print text w) = read_dir d w) ∧
    ∀ p, read_text p (print text w) = read_text p w ∧ exists_file p (print text w) = exists_file p w;
}.

Section facts.
Context `{Os : ProcessOs W} `{BO : BaselineOs W} `{AF : AppendFile W} `{BH : BaselineHost W}.
Context (registry : list StrategyEntry).
Context (join : string → string → string) (show_addr : SocketAddr → string)
        (addr_from_str : string → option SocketAddr) (show_f64 : f64 → string) (fixed : nat → f64 → string)
        (f64_from_str : string → option f64) (show_error : ProcessError → string)
        (manifest_from_str : string → outcome string BaselineManifest)
        (repo_root cargo : string) (fuel : nat).

Notation Run := (Run (W:=W)).
Notation discover := (discover join manifest_from_str repo_root).
Notation baselines_dir := (baselines_dir join repo_root).
Notation readme := (join baselines_dir "README.md").
Notation cmd_table := (cmd_table registry join fixed manifest_from_str repo_root).
Notation discover_entry := (discover_entry join manifest_from_str repo_root).

(** What discovery reads is the same in both. *)
Definition agree (w w' : W) : Prop :=
  (∀ d, read_dir d w' = read_dir d w) ∧
  ∀ p, p ≠ readme → read_text p w' = read_text p w ∧ exists_file p w' = exists_file p w.

Lemma or_die_ok {A} code say (r : outcome string A) (w w' : W) a :
  or_die code say r w = (w', Ok a) → r = Ok a ∧ w' = w.
Proof. destruct r as [x|e|]; [|done..]. by intros [= <- <-]. Qed.

Lemma discover_entry_ok entry (w w1 : W) o :
  (∀ name, join (join baselines_dir name) "baseline.toml" ≠ readme) →
  discover_entry entry w = (w1, Ok o) → w1 = w ∧ ∀ w', agree w w' → discover_entry entry w' = (w', Ok o).
Proof.
  intros Hjoin. destruct entry as [name is_dir]. unfold Baselines.discover_entry.
  destruct (negb is_dir); [by intros [= <- <-]|]. destruct (String.prefix "_" name); [by intros [= <- <-]|].
  intros (b & w2 & [= <- <-] & H)%stM_bind_ok.
  assert (Hsame : ∀ w', agree w w' →
    exists_file (join (join baselines_dir name) "baseline.toml") w' = exists_file (join (join baselines_dir name) "baseline.toml") w ∧
    read_text (join (join baselines_dir name) "baseline.toml") w' = read_text (join (join baselines_dir name) "baseline.toml") w).
  { intros w' [_ Hp]. by destruct (Hp _ (Hjoin name)). }
  destruct (exists_file _ w) eqn:Hex; simpl in H.
  - apply stM_bind_ok in H as (m & w2 & (t & w3 & [= <- <-] & (text & w4 & [Ht ->]%or_die_ok & [Hm ->]%or_die_ok)%stM_bind_ok)%stM_bind_ok
      & [= <- <-]). split; [done|]. intros w' Ha. destruct (Hsame w' Ha) as [He Hr].
    unfold mbind, stM_bind, gets. rewrite He. simpl. unfold load_baseline, mbind, stM_bind, gets. rewrite Hr, Ht. simpl. by rewrite Hm.
  - injection H as <- <-. split; [done|]. intros w' Ha. destruct (Hsame w' Ha) as [He Hr].
    unfold mbind, stM_bind, gets. by rewrite He.
Qed.

Lemma discover_ok (w w1 : W) all :
  (∀ name, join (join baselines_dir name) "baseline.toml" ≠ readme) →
  discover w = (w1, Ok all) → w1 = w ∧ ∀ w', agree w w' → discover w' = (w', Ok all).
Proof.
  intros Hjoin (r & w2 & [= <- <-] & (entries & w3 & [Hr ->]%or_die_ok & (found & w4 & H & [= <- <-])%stM_bind_ok)%stM_bind_ok)%stM_bind_ok.
  assert (Hall : ∀ l found w1, collectM discover_entry l w = (w1, Ok found) →
    w1 = w ∧ ∀ w', agree w w' → collectM discover_entry l w' = (w', Ok found)).
  { clear H found Hr entries. induction l as [|e l IH]; intros found w1; [by intros [= <- <-]|]. simpl.
    intros (o & w5 & [-> He]%discover_entry_ok & (os & w6 & [-> Hl]%IH & [= <- <-])%stM_bind_ok)%stM_bind_ok; [|done].
    split; [done|]. intros w' Ha. unfold mbind, stM_bind. by rewrite (He w' Ha), (Hl w' Ha). }
  destruct (Hall _ _ _ H) as [-> Hl]. split; [done|]. intros w' Ha. unfold Baselines.discover, mbind, stM_bind, gets.
  rewrite (proj1 Ha), Hr. simpl. by rewrite (Hl w' Ha).
Qed.

Lemma refuse_unknown_ok all (w w1 : W) :
  for_each (refuse_unknown registry) all w = (w1, Ok ()) →
  w1 = w ∧ ∀ w', for_each (refuse_unknown registry) all w' = (w', Ok ()).
Proof.
  revert w. induction all as [|row all IH]; intros w; [by intros [= <-]|]. simpl. intros ([] & w2 & H & Hl)%stM_bind_ok.
  unfold refuse_unknown in H. destruct (validate_methods _ _) as [[]|e|] eqn:Hv; [|done..]. injection H as <-.
  destruct (IH _ Hl) as [-> Hrest]. split; [done|]. intros w'. unfold mbind, stM_bind, refuse_unknown at 1. rewrite Hv. simpl.
  apply Hrest.
Qed.

(** What a [table --write] that succeeds has done to the README. *)
Lemma table_write_ok `{HL : !BaselineHostLaws W} (w w' : W) :
  (∀ name, join (join baselines_dir name) "baseline.toml" ≠ readme) →
  cmd_table ["--write"%string] w = (w', Ok ()) →
  ∃ all before old after, discover w = (w, Ok all) ∧ for_each (refuse_unknown registry) all w = (w, Ok ()) ∧
    read_text readme w = Ok (refill before old after) ∧
    String.index 0 TABLE_BEGIN (refill before old after) = Some (String.length before) ∧
    agree w w' ∧ read_text readme w' = Ok (refill before (render_table fixed all) after).
Proof.
  intros Hjoin. unfold Baselines.cmd_table. intros ([write check] & w1 & [= <- <- <-] & H)%stM_bind_ok.
  apply stM_bind_ok in H as (all & w2 & Hd & H). destruct (discover_ok _ _ _ Hjoin Hd) as [-> _].
  apply stM_bind_ok in H as ([] & w3 & Hu & H). destruct (refuse_unknown_ok _ _ _ Hu) as [-> _]. cbn [negb andb] in H.
  apply stM_bind_ok in H as (r & w4 & [= <- <-] & (text & w5 & [Hr ->]%or_die_ok & H)%stM_bind_ok).
  destruct (split_marked_region text) as [[[before old] after]|] eqn:Hs; [|done].
  apply split_marked_region_inv in Hs as [-> Hb]. exists all, before, old, after. do 4 (split; [done|]).
  assert (Hprint : ∀ t w w', println t w = (w', Ok ()) → ∀ d p, read_dir d w' = read_dir d w ∧ read_text p w' = read_text p w ∧
    exists_file p w' = exists_file p w).
  { intros t v v' [= <-] d p. pose proof (print_reads (t +:+ NEWLINE) v) as [Hdirs Hp]. by destruct (Hp p). }
  destruct (String.eqb_spec (refill before (render_table fixed all) after) (refill before old after)) as [He|Hne].
  - pose proof (Hprint _ _ _ H) as Hsame. split.
    + split; [intros d; by apply (Hsame d ""%string)|]. intros p _. by apply (Hsame ""%string p).
    + destruct (Hsame ""%string readme) as (_ & -> & _). by rewrite Hr, He.
  - apply stM_bind_ok in H as ([] & w6 & Hw & H). pose proof (Hprint _ _ _ H) as Hsame. unfold write_readme in Hw.
    destruct (write_text readme _ w) as [w7 [e|]] eqn:Hwrite; [done|]. injection Hw as <-.
    destruct (written_elsewhere _ _ _ _ _ Hr Hwrite) as [Hdirs Hfiles]. split.
    + split; [intros d; rewrite (proj1 (Hsame d ""%string)); apply Hdirs|]. intros p Hp.
      destruct (Hsame ""%string p) as (_ & -> & ->). by apply Hfiles.
    + destruct (Hsame ""%string readme) as (_ & -> & _). by eapply read_written.
Qed.

(** C39: A table that was written is a table that checks.  After a [table --write] that
    succeeds the README is what it was outside the markers and between them holds the
    table of the discovered manifests, and a [table --check] of it succeeds, provided no
    cell of the table holds a less-than sign. *)
Theorem written_table_checks `{HL : !BaselineHostLaws W} (w w' : W) :
  (∀ n x, no_lt (fixed n x)) → (∀ name, join (join baselines_dir name) "baseline.toml" ≠ readme) →
  (∀ all, discover w = (w, Ok all) → Forall plain_row all) →
  cmd_table ["--write"%string] w = (w', Ok ()) →
  ∃ all before old after w'',
    discover w = (w, Ok all) ∧ read_text readme w = Ok (refill before old after) ∧
    read_text readme w' = Ok (refill before (render_table fixed all) after) ∧
    cmd_table ["--check"%string] w' = (w'', Ok ()).
Proof.
  intros Hfixed Hjoin Hplain H. destruct (table_write_ok w w' Hjoin H) as (all & before & old & after & Hd & Hu & Hr & Hb & Ha & Hr').
  destruct (discover_ok _ _ _ Hjoin Hd) as [_ Hd']. destruct (refuse_unknown_ok _ _ _ Hu) as [_ Hu'].
  exists all, before, old, after, (print (("✓ " +:+ readme +:+ " table is up to date") +:+ NEWLINE) w').
  do 3 (split; [done|]). unfold Baselines.cmd_table. unfold mbind at 1, stM_bind at 1. simpl.
  unfold mbind at 1, stM_bind at 1. rewrite (Hd' w' Ha). unfold mbind at 1, stM_bind at 1. rewrite Hu'.
  unfold mbind at 1, stM_bind at 1, gets. rewrite Hr'. simpl. unfold mbind at 1, stM_bind at 1. simpl.
  rewrite split_marked_region_some; [by rewrite String.eqb_refl| |by apply table_has_no_end, Hplain].
  unfold refill in Hb |- *. by eapply index_refill.
Qed.

(** *** What [run] and [verify] vouch for *)

Notation drive := (drive join show_addr addr_from_str show_f64 f64_from_str show_error repo_root cargo fuel).
Notation cmd_run := (cmd_run registry join show_addr addr_from_str show_f64 fixed f64_from_str show_error manifest_from_str repo_root cargo fuel).
Notation cmd_verify := (cmd_verify registry join show_addr addr_from_str show_f64 fixed f64_from_str show_error manifest_from_str repo_root cargo fuel).
Notation verify_one := (verify_one registry join show_addr addr_from_str show_f64 fixed f64_from_str show_error repo_root cargo fuel).
Notation baseline_run := (baseline_run join show_addr addr_from_str show_f64 f64_from_str show_error repo_root fuel).
Notation load_one := (load_one join manifest_from_str repo_root).

(** The edge was driven on [cfg] and produced [acc]: a whole federation whose final
    accuracy it is, or a harness that ended in success and printed it last. *)
Definition measured (m : BaselineManifest) (kind : ClientKind) (e : Edge) (cfg : Cfg) (acc : f64) : Prop :=
  match kind with
  | PythonClient => ∃ w w' outcome, baseline_run (plan_for m cfg) w = (w', Ok outcome) ∧ acc = final_accuracy outcome
  | RustClient => ∃ harness w w' output, ed_harness e = Some harness ∧
      command_output cargo (cargo_args m harness cfg) repo_root w = (w', Ok output) ∧
      es_code (out_status output) = Some 0 ∧ parse_last_metric f64_from_str (out_stdout output) = Some acc
  end.

(** The manifest's expectation is met by a measurement. *)
Definition reproduced (m : BaselineManifest) (kind : ClientKind) (e : Edge) (cfg : Cfg) : Prop :=
  ∃ acc, measured m kind e cfg acc ∧ within e acc = true.

Lemma harness_result_some what output (w w' : W) acc :
  harness_result f64_from_str what output w = (w', Ok (Some acc)) →
  es_code (out_status output) = Some 0 ∧ parse_last_metric f64_from_str (out_stdout output) = Some acc.
Proof.
  unfold harness_result. destruct (success (out_status output)) eqn:Hs; simpl.
  - destruct (parse_last_metric _ _) as [x|] eqn:Hp; simpl.
    + intros [= _ ->]. split; [by apply bool_decide_eq_true in Hs|done].
    + by intros ([] & ? & _ & ([] & ? & _ & ([] & ? & _ & [=])%stM_bind_ok)%stM_bind_ok)%stM_bind_ok.
  - by intros ([] & ? & _ & ([] & ? & _ & ([] & ? & _ & [=])%stM_bind_ok)%stM_bind_ok)%stM_bind_ok.
Qed.

Lemma drive_some m kind e cfg (w w' : W) acc : drive m kind e cfg w = (w', Ok (Some acc)) → measured m kind e cfg acc.
Proof.
  destruct kind; simpl.
  - unfold drive_python. intros ([] & w1 & _ & H)%stM_bind_ok. unfold federation_result in H.
    destruct (baseline_run (plan_for m cfg) w1) as [w2 [outcome|msg|]] eqn:Hrun; [|by apply stM_bind_ok in H as ([] & ? & _ & [=])|done].
    injection H as <- <-. by exists w1, w2, outcome.
  - unfold drive_rust. intros (harness & w1 & Hh & (output & w2 & Hl & H)%stM_bind_ok)%stM_bind_ok.
    unfold rust_harness in Hh. destruct (ed_harness e) as [h|] eqn:He; [|done]. injection Hh as <- <-.
    unfold launch_example in Hl. destruct (command_output _ _ _ _) as [w3 r] eqn:Hc. apply or_die_ok in Hl as [-> ->].
    apply harness_result_some in H as [Hs Hp]. by exists h, w, w3, output.
Qed.

(** REPRODUCED is earned.  If [run] exits with success and was not asked for the plan
    alone, then the named manifest was loaded, its methods are in the registry, the
    edge is the one asked for (or the manifest's first), and that edge was driven on
    the chosen size and met the expectation: its number came from a federation that
    ended well or a harness that exited with success, and lies within the tolerance. *)
Theorem run_success_is_a_reproduction args (w w' : W) :
  cmd_run args w = (w', Ok ()) →
  ∃ a name m kind e w1 w2, parse_run_args args no_run_args w = (w1, Ok a) ∧ ba_name a = Some name ∧
    load_one name w1 = (w2, Ok m) ∧ validate_methods registry (bm_method m) = Ok () ∧
    kind ∈ edges m ∧ edge m kind = Some e ∧ (∀ k, ba_client a = Some k → kind = k) ∧
    (ba_plan a = false → reproduced m kind e (choose_cfg (ba_full a) e)).
Proof.
  unfold Baselines.cmd_run. intros (a & w1 & Ha & H)%stM_bind_ok. destruct (ba_name a) as [name|] eqn:Hn; [|done].
  apply stM_bind_ok in H as (m & w2 & Hm & H). destruct (validate_methods _ _) as [[]|err|] eqn:Hv; [| |done].
  2: { by apply stM_bind_ok in H as ([] & ? & _ & ?). }
  apply stM_bind_ok in H as (kind & w3 & Hk & H). apply stM_bind_ok in H as (e & w4 & He & H).
  apply stM_bind_ok in H as ([] & w5 & _ & H). exists a, name, m, kind, e, w1, w2.
  unfold choose_edge in He. destruct (edge m kind) as [e'|] eqn:Hedge; [|done]. injection He as <- <-.
  do 4 (split; [done|]). split.
  { unfold edges, edge in *. destruct kind; [destruct (ce_python _)|destruct (ce_python _), (ce_rust _)]; simpl in *; set_solver. }
  split; [done|]. split.
  { unfold choose_kind in Hk. destruct (ba_client a); [|done]. injection Hk as <- <-. by intros ? [= ->]. }
  intros Hplan. rewrite Hplan in H. apply stM_bind_ok in H as (achieved & w6 & Hd & H).
  destruct achieved as [acc|]; [|done]. simpl in H. apply stM_bind_ok in H as ([] & w7 & _ & H).
  destruct (within e' acc) eqn:Hw; [|by apply stM_bind_ok in H as ([] & ? & _ & ?)].
  exists acc. split; [by eapply drive_some|done].
Qed.

Lemma verify_one_passes row (w w' : W) t :
  verify_one false row w = (w', Ok t) → t ≠ Failed →
  validate_methods registry (bm_method row.2) = Ok () ∧
  ∀ e, edge row.2 RustClient = Some e → reproduced row.2 RustClient e (ed_smoke e).
Proof.
  destruct row as [name m]. unfold Baselines.verify_one. cbn [snd]. destruct (validate_methods _ _) as [[]|err|]; [| |done].
  2: { by intros ([] & ? & _ & [= _ <-])%stM_bind_ok. }
  destruct (edge m RustClient) as [e|] eqn:He; [|by intros _ _]. intros (achieved & w1 & Hd & H)%stM_bind_ok Ht.
  split; [done|]. intros e' [= <-]. destruct achieved as [acc|]; apply stM_bind_ok in H as ([] & w2 & _ & [= _ <-]); [|done].
  destruct (within e acc) eqn:Hw; [|done]. exists acc. split; [by eapply (drive_some m RustClient)|done].
Qed.

Lemma tally_none t tallies : tally t tallies ≤ 0 → Forall (λ x, x ≠ t) tallies.
Proof.
  unfold tally. intros H. apply Forall_forall. intros x Hx ->.
  assert (Hin : t ∈ filter (λ x, x = t) tallies) by (by apply list_elem_of_filter).
  destruct (filter (λ x, x = t) tallies); [by apply elem_of_nil in Hin|simpl in H; lia].
Qed.

(** A [verify] that exits with success has reproduced every Rust edge there is. *)
Lemma verify_success_is_all (w w' : W) :
  cmd_verify [] w = (w', Ok ()) →
  ∃ all w1, discover w = (w1, Ok all) ∧ Forall (λ row,
    validate_methods registry (bm_method row.2) = Ok () ∧
    ∀ e, edge row.2 RustClient = Some e → reproduced row.2 RustClient e (ed_smoke e)) all.
Proof.
  unfold Baselines.cmd_verify. intros (plan & w1 & [= <- <-] & H)%stM_bind_ok.
  apply stM_bind_ok in H as (all & w2 & Hd & H). apply stM_bind_ok in H as ([] & w3 & _ & H).
  apply stM_bind_ok in H as (tallies & w4 & Hall & H). apply stM_bind_ok in H as ([] & w5 & _ & H).
  exists all, w2. split; [done|]. destruct (0 <? tally Failed tallies) eqn:Hf; [done|]. apply Z.ltb_ge, tally_none in Hf.
  clear -Hall Hf. revert w3 w4 tallies Hall Hf. induction all as [|row all IH]; intros w3 w4 tallies; [constructor|]. simpl.
  intros (t & w6 & H1 & (ts & w7 & H2 & [= _ <-])%stM_bind_ok)%stM_bind_ok [Ht Hts]%Forall_cons.
  constructor; [by eapply verify_one_passes|by eapply IH].
Qed.
End facts.

(** ** Witnesses and limits *)

Section demo.
(** A machine that has files and runs one program, which prints a number. *)
#[local] Notation Files := (gmap string string).

#[local] Instance files_os : ProcessOs Files := {|
  pid := nat;
  create_dir_all _ w := (w, None);
  remove_file _ w := w;
  create_file _ w := (w, None);
  try_clone _ w := (w, None);
  os_spawn _ _ _ w := (w, Err "no processes"%string);
  try_wait _ w := (w, Ok None);
  kill _ w := (w, None);
  wait _ w := Some w;
  read_file _ w := (w, None);
  now _ := 0;
  sleep _ w := w;
  conn := ();
  connect _ w := (w, None);
  write_all _ _ w := (w, false);
  read _ w := (w, EndOfStream);
  try_recv w := (w, None);
|}.

#[local] Instance files_baseline_os : BaselineOs Files := {|
  remove_dir_all _ w := w;
  exists_file p w := bool_decide (is_Some (w !! p));
  command_output _ _ _ w :=
    (w, Ok {| out_status := {| es_code := Some 0; es_text := "exit status: 0" |};
              out_stdout := "round=2 held_out_accuracy=0.75 done" +:+ NEWLINE; out_stderr := "" |});
|}.

#[local] Instance files_host : BaselineHost Files := {|
  read_dir _ _ := Ok [("krum_paper"%string, true); ("_harness"%string, true); ("README.md"%string, false)];
  read_text p w := match w !! p with Some t => Ok t | None => Err "no such file"%string end;
  write_text p t w := (<[p := t]> w, None);
  print _ w := w;
  eprint _ w := w;
|}.

#[local] Instance files_laws : BaselineHostLaws Files.
Proof.
  split; cbn.
  - intros path text w w' [= <-]. by rewrite lookup_insert_eq.
  - intros path text old w w' _ [= <-]. split; [done|]. intros p Hp. by rewrite lookup_insert_ne by done.
  - done.
Qed.

Definition files_join (dir name : string) : string := dir +:+ "/" +:+ name.

Lemma files_join_readme d name :
  files_join (files_join d name) "baseline.toml" ≠ files_join d "README.md".
Proof.
  unfold files_join. rewrite !string_app_assoc. intros H%(f_equal String.length). rewrite !string_length_app in H. simpl in H. lia.
Qed.

Definition demo_edge : Edge :=
  {| ed_harness := Some "burn_mlp"%string; ed_expected := f64_lit 3 4; ed_tolerance := f64_lit 1 10;
     ed_smoke := {| cg_clients := 5; cg_rounds := 2 |}; ed_full := None |}.

Definition demo_manifest (aggregator : string) : BaselineManifest :=
  {| bm_paper := {| pa_title := "Byzantine-tolerant machine learning"; pa_authors := "Blanchard, El Mhamdi, Guerraoui, Stainer";
                    pa_venue := "NeurIPS 2017"; pa_url := "https://example.org" |};
     bm_method := {| me_aggregator := aggregator; me_selector := None; me_privacy_mechanism := None |};
     bm_experiment := {| ex_dataset := "digits"; ex_model := "mlp"; ex_partition := "iid" |};
     bm_scenario := {| sn_attackers := 1; sn_no_reputation := true; sn_byzantine_fraction := None |};
     bm_clients := {| ce_python := None; ce_rust := Some demo_edge |} |}.

(** A manifest is the name of its method. *)
Definition manifest_files (aggregator text : string) : Files :=
  <["repo/baselines/krum_paper/baseline.toml" := aggregator]> (<["repo/baselines/README.md" := text]> ∅).

Definition demo_readme : string :=
  "Intro." +:+ NEWLINE +:+ TABLE_BEGIN +:+ NEWLINE +:+ "stale" +:+ NEWLINE +:+ TABLE_END +:+ NEWLINE +:+ "More." +:+ NEWLINE.

#[local] Notation demo_table := (cmd_table shipped_entries files_join (λ _ _, "0.75"%string) (λ t, Ok (demo_manifest t)) "repo").
#[local] Notation demo_main := (baselines_main (AF := {| open_append _ w := (w, None); write_line _ _ w := (w, None); flush _ w := (w, None) |})
  shipped_entries files_join (λ _, "addr"%string) (λ _, None) (λ _, "0.3"%string) (λ _ _, "0.75"%string)
  (λ t, if String.eqb t "0.75" then Some (f64_lit 3 4) else None) (λ _, "failed"%string) (λ _, "{}"%string) (λ _, "failed"%string)
  (λ t, Ok (demo_manifest t)) "repo" "cargo" 10).
#[local] Notation demo_run := (cmd_run shipped_entries files_join (λ _, "addr"%string) (λ _, None) (λ _, "0.3"%string) (λ _ _, "0.75"%string)
  (λ t, if String.eqb t "0.75" then Some (f64_lit 3 4) else None) (λ _, "failed"%string) (λ t, Ok (demo_manifest t)) "repo" "cargo" 10).

Lemma demo_discovered :
  discover files_join (λ t, Ok (demo_manifest t)) "repo" (manifest_files "krum" demo_readme) =
  (manifest_files "krum" demo_readme, Ok [("krum_paper"%string, demo_manifest "krum")]).
Proof. vm_compute. reflexivity. Qed.

Lemma demo_write_ok : is_ok (demo_table ["--write"%string] (manifest_files "krum" demo_readme)).2 = true.
Proof. vm_compute. reflexivity. Qed.

Lemma written_table_checks_witness :
  is_ok (demo_table ["--check"%string] (manifest_files "krum" demo_readme)).2 = false ∧
  is_ok (demo_table ["--check"%string] (demo_table ["--write"%string] (manifest_files "krum" demo_readme)).1).2 = true.
Proof.
  split; [vm_compute; reflexivity|]. pose proof demo_write_ok as Hok.
  destruct (demo_table ["--write"%string] (manifest_files "krum" demo_readme)) as [w' [[]| |]] eqn:Hw; [|discriminate Hok..].
  destruct (written_table_checks shipped_entries files_join (λ _ _, "0.75"%string) (λ t, Ok (demo_manifest t)) "repo"
    (manifest_files "krum" demo_readme) w') as (all & before & old & after & w'' & _ & _ & _ & Hc).
  - intros _ _. vm_compute. repeat split; discriminate.
  - intros name. apply files_join_readme.
  - intros all Hd. rewrite demo_discovered in Hd. injection Hd as <-. constructor; [|constructor].
    vm_compute. repeat split; discriminate.
  - exact Hw.
  - cbn [fst]. rewrite Hc. reflexivity.
Defined.

Lemma reproduction_demo_ok : is_ok (demo_run ["krum_paper"; "--client"; "rust"]%string (manifest_files "krum" "")).2 = true.
Proof. vm_compute. reflexivity. Qed.

Lemma run_success_is_a_reproduction_witness :
  ∃ m e, edge m RustClient = Some e ∧
    reproduced files_join (λ _, "addr"%string) (λ _, None) (λ _, "0.3"%string)
      (λ t, if String.eqb t "0.75" then Some (f64_lit 3 4) else None) (λ _, "failed"%string) "repo" "cargo" 10 m RustClient e (ed_smoke e).
Proof.
  pose proof reproduction_demo_ok as Hok.
  destruct (demo_run ["krum_paper"; "--client"; "rust"]%string (manifest_files "krum" "")) as [w' [[]| |]] eqn:Hr; [|discriminate Hok..].
  destruct (run_success_is_a_reproduction shipped_entries files_join (λ _, "addr"%string) (λ _, None) (λ _, "0.3"%string)
    (λ _ _, "0.75"%string) (λ t, if String.eqb t "0.75" then Some (f64_lit 3 4) else None) (λ _, "failed"%string)
    (λ t, Ok (demo_manifest t)) "repo" "cargo" 10 ["krum_paper"; "--client"; "rust"]%string (manifest_files "krum" "") w' Hr)
    as (a & name & m & kind & e & w1 & w2 & Ha & _ & _ & _ & _ & He & Hk & Hrep).
  injection Ha as _ <-. pose proof (Hk RustClient eq_refl) as ->. exists m, e. split; [exact He|exact (Hrep eq_refl)].
Defined.

(** [verify --plan] exits with success whatever it found: a manifest that names a method
    the catalog does not have is reported and passed over.  Without the flag the same
    manifest fails with the general code, not the one for an unknown method that [run]
    and [table] give it. *)
Lemma verify_plan_never_fails :
  (demo_main ["verify"; "--plan"]%string (manifest_files "krumm" "")).2 = Ok () ∧
  (demo_main ["verify"]%string (manifest_files "krumm" "")).2 = Err EXIT_FAIL ∧
  (demo_main ["run"; "krum_paper"; "--plan"]%string (manifest_files "krumm" "")).2 = Err EXIT_UNKNOWN_METHOD ∧
  (demo_main ["table"]%string (manifest_files "krumm" "")).2 = Err EXIT_UNKNOWN_METHOD.
Proof. vm_compute. split_and!; reflexivity. Qed.
End demo.
