(* ===== verification/Demo.v ===== *)
(** * A concrete server, and the theorems of the round, the loop and the
      handlers on it

    FedAvg over the in-memory backends, two registered clients that both
    submit, a sampler that takes the first candidates and a generator that
    always draws one: every hypothesis of those theorems holds of it.  Further on, a
    machine on which that server starts, one whose sidecar is the reference service, and
    servers over the durable backends. *)

From S2P Require Import Prelude Float Wire Buffer Weights Averaging Contracts Registry Reputation Privacy Store Config State Round RoundLoop Submission Dispatcher Flanders Catalog Validate Profile Environment Experiment Admin Startup RootModel SidecarService Redis S3 Postgres.

Open Scope Z_scope.

(** ** A concrete server and the witnesses *)

Section witnesses.
#[local] Existing Instance permit_notify.
#[local] Existing Instance permit_notify_laws.
#[local] Existing Instance unit_gaussian.

(** Takes the first [n] candidates. *)
#[local] Instance first_sampler : Sampler :=
  {| rng := (); seed_from_u64 _ := (); sample _ l n := take n l |}.
#[local] Instance key_order : HashOrder := λ l, l.
#[local] Instance no_sidecar : Sidecar () :=
  {| reference_update _ _ t := (t, Err "unreachable"%string);
     score_updates _ _ _ t := (t, Err "unreachable"%string) |}.

Notation Demo := (AppState permit_notify InMemoryRegistry InMemoryStore InMemoryNodeAllowlist
                    SampleCountWeighting MemoryLog () ()).

Definition demo_delta (id : string) (round : Z) (w : list f32) : ClientDelta :=
  {| client_id := id; delta_round := round; weights := encode_weights w; num_samples := 10;
     local_steps := Some 3; control_variate := None; local_loss := None |}.

Definition demo_batch (round : Z) : list ClientDelta :=
  [demo_delta "b" round [f32_of_Z 1; f32_zero]; demo_delta "a" round [f32_zero; f32_of_Z 1]].

(** Two clients submit, then the wait ends: by quorum if two are enough, at its
    deadline otherwise. *)
Definition demo_push (b : RoundBuffer permit_notify) : RoundBuffer permit_notify :=
  push_notify (push_notify (with_state (Open (demo_batch (buf_round b))) (buffer_new (buf_round b) (buf_quorum b)))).

Definition demo_flush (b : RoundBuffer permit_notify) : flusher * RoundBuffer permit_notify :=
  match flush_check (demo_push b) with
  | (FDone r, b') => (FDone r, b')
  | (_, b') => flush_deadline 0 0 b'
  end.

Definition demo_await {R S A G L T K} (s : AppState permit_notify R S A G L T K)
    : AppState permit_notify R S A G L T K * FlushResult :=
  match st_current_buffer s with
  | Some b =>
      match demo_flush b with
      | (FDone r, b') => (set_current_buffer (Some b') s, r)
      | (_, b') => (s, {| flush_round := 0; flush_reason := Timeout; flush_deltas := [] |})
      end
  | None => (s, {| flush_round := 0; flush_reason := Timeout; flush_deltas := [] |})
  end.

Lemma flush_deadline_past now deadline (b : RoundBuffer permit_notify) :
  deadline ≤ now → flush_deadline now deadline b = flush_deadline 0 0 b.
Proof. intros Hle. unfold flush_deadline, u64_saturating_sub. by replace (Z.max 0 (deadline - now)) with 0 by lia. Qed.

Lemma demo_flush_reachable (b : RoundBuffer permit_notify) now deadline :
  ∃ r c, (demo_flush b).1 = FDone r ∧ c_flusher c = FDone r ∧ c_buf c = (demo_flush b).2 ∧
    rtc step (initial (buf_round b) (buf_quorum b) now deadline (demo_batch (buf_round b))) c.
Proof.
  destruct b as [r q st n]. cbn [buf_round buf_quorum].
  assert (Hpush : rtc step (initial r q now deadline (demo_batch r))
    (Build_conf (demo_push {| buf_round := r; buf_quorum := q; buf_state := st; buf_notify := n |}) now deadline FCheck (POk <$> demo_batch r))).
  { eapply rtc_l; [by apply (step_push_locked _ _ _ _ _ 0)|].
    unfold push_locked at 1. rewrite decide_True by done. cbn.
    eapply rtc_l; [by apply (step_push_locked _ _ _ _ _ 1)|].
    unfold push_locked at 1. rewrite decide_True by done. cbn.
    eapply rtc_l; [by apply (step_push_notify _ _ _ _ _ 0)|].
    eapply rtc_l; [by apply (step_push_notify _ _ _ _ _ 1)|]. apply rtc_refl. }
  unfold demo_flush, flush_check, close_if_quorum_met in *.
  destruct (q <=? 2)%nat eqn:Hq; cbn in *; rewrite Hq; cbn.
  - eexists _, (Build_conf _ _ _ (FDone _) _). do 3 (split; [reflexivity|]).
    etrans; [exact Hpush|]. eapply rtc_l; [apply step_flush_check|].
    unfold flush_check, close_if_quorum_met. cbn. rewrite Hq. cbn. apply rtc_refl.
  - eexists _, (Build_conf _ _ _ (FDone _) _). do 3 (split; [reflexivity|]).
    etrans; [exact Hpush|]. eapply rtc_l; [apply step_flush_check|].
    unfold flush_check, close_if_quorum_met. cbn. rewrite Hq. cbn.
    eapply rtc_l; [apply (step_tick _ now (Z.max now deadline)); lia|].
    eapply rtc_l; [apply step_flush_deadline|]. rewrite flush_deadline_past by lia. apply rtc_refl.
Qed.

Lemma demo_await_ran {R S A G L T K} (amb : Ambient) (s : AppState permit_notify R S A G L T K) :
  handlers_ran amb s (demo_await s).1 (demo_await s).2.
Proof.
  unfold handlers_ran. split.
  - unfold demo_await. destruct (st_current_buffer s) as [b|] eqn:Hb.
    + destruct (demo_flush_reachable b 0 0) as (r & c & Hf & _ & _). destruct (demo_flush b) as [f b']. simpl in Hf. subst f. cbn.
      exists (st_registry s), (st_node_allowlist s), (Some b'). by destruct s.
    + exists (st_registry s), (st_node_allowlist s), None. destruct s. by simplify_eq/=.
  - intros b deadline Hb _. unfold demo_await. rewrite Hb.
    destruct (demo_flush_reachable b (amb_instant amb) deadline) as (r & c & Hf & Hcf & Hcb & Hr).
    destruct (demo_flush b) as [f b']. simpl in Hf, Hcb. subst f b'. cbn.
    exists (demo_batch (buf_round b)), c. split; [done|]. split; [done|]. by destruct s.
Qed.

Definition demo_config : ResolvedConfig := resolve CrossSilo Research None Overrides_default Overrides_default.

Definition demo_state_of (K : Type) : AppState permit_notify InMemoryRegistry InMemoryStore
    InMemoryNodeAllowlist SampleCountWeighting MemoryLog () K :=
  match assemble (T := ()) (K := K) demo_config
          (register 0 "b" (register 0 "a" ∅).1).1 (InMemoryStore_new [f32_zero; f32_zero])
          ∅ RdpAccountant_new (Some ([], ∅)) sample_count_weighting with
  | Ok s => s
  | _ => Build_AppState demo_config ∅ None (RoundHistory_new 0) (InMemoryStore_new []) ∅
           {| selection_seed := OsRandom |} sample_count_weighting GaussianClippingPrivacy_default
           RdpAccountant_new None 0 None RoundLoopHealth_new [] None None
  end.

Definition demo_state : Demo := demo_state_of ().

Definition demo_amb : Ambient := {| amb_select := (); amb_noise := 0%nat; amb_now := 1000; amb_instant := 0 |}.

Definition demo_run : Demo * outcome ServerError RoundSummary :=
  run_round (λ x, x) (λ x, x) (λ l, l) demo_amb demo_await demo_state.

Definition demo_summary : RoundSummary :=
  {| sum_round := 1; sum_flush_reason := Quorum; num_selected := 2; num_submitted := 2; num_passed := 2 |}.

Lemma demo_run_ok : demo_run = (demo_run.1, Ok demo_summary).
Proof. vm_compute. reflexivity. Qed.
Lemma demo_store_below : store_below demo_state.
Proof. exists [0]. split; [reflexivity|]. repeat constructor. vm_compute. discriminate. Qed.

Lemma demo_round_u64 : is_u64 (st_round demo_state).
Proof. vm_compute. split; [discriminate|reflexivity]. Qed.

Lemma successful_round_commits_witness : store_below demo_run.1 ∧ st_round demo_run.1 = 2.
Proof.
  destruct (successful_round_commits (λ x, x) (λ x, x) (λ l, l) demo_amb demo_await (demo_await_ran demo_amb)
    demo_state demo_run.1 demo_summary demo_round_u64 demo_store_below demo_run_ok) as (H1 & H2 & _).
  split; [exact H1|exact H2].
Defined.

(** The same server configured for Krum: two clients are fewer than three. *)
Definition krum_env : Overrides :=
  {| ov p := match p return option (ptype p) with P_aggregator => Some "krum"%string | _ => None end;
     ov_quorum := None |}.

Definition krum_state : Demo :=
  let 'Build_AppState _ re v h st al se ag p ac lg r b he ps tr jw := demo_state in
  Build_AppState (resolve CrossSilo Research None krum_env Overrides_default)
    re v h st al se ag p ac lg r b he ps tr jw.

Definition krum_run : Demo * outcome ServerError RoundSummary :=
  run_round (λ x, x) (λ x, x) (λ l, l) demo_amb demo_await krum_state.

Lemma failed_round_keeps_model_witness :
  (∃ e, krum_run = (krum_run.1, Err e) ∧ is_transient e = false) ∧ st_round krum_run.1 = 1.
Proof.
  assert (H : krum_run = (krum_run.1, Err (PreconditionViolated 1 "krum" 2 3 0 "Krum requires n >= 2f + 3")))
    by (vm_compute; reflexivity).
  split; [eexists; split; [exact H|reflexivity]|].
  assert (Hb : store_below krum_state) by exact demo_store_below.
  exact (proj1 (failed_round_keeps_model (λ x, x) (λ x, x) (λ l, l) demo_amb demo_await (demo_await_ran demo_amb)
    krum_state krum_run.1 _ demo_round_u64 Hb H)).
Defined.

Lemma accounting_survives_restart_witness :
  ∃ log, connect_accounting (λ l, l) log = Ok (st_accountant demo_run.1, Some log).
Proof.
  assert (Hl : logged demo_state).
  { exists ([], ∅). split; [reflexivity|]. split; [reflexivity|]. split; [reflexivity|]. apply map_Forall_empty. }
  destruct (accounting_survives_restart (λ x, x) (λ x, x) (λ l, l) demo_amb demo_await (demo_await_ran demo_amb)
    demo_state demo_run.1 demo_summary (λ l, l) (λ l, Permutation_refl l) Hl demo_run_ok) as (_ & log & _ & H).
  exists log. exact H.
Defined.

Definition demo_prepare : Demo * outcome ServerError (list ClientDelta) :=
  prepare_batch (λ x, x) (λ x, x) (λ l, l) demo_amb 1 (demo_batch 1) demo_state.

Definition demo_prepared : list ClientDelta := match demo_prepare.2 with Ok b => b | _ => [] end.

Lemma batch_pairs_and_excludes_witness : "a"%string ∈ map client_id demo_prepared.
Proof.
  assert (H : demo_prepare = (demo_prepare.1, Ok demo_prepared)) by (vm_compute; reflexivity).
  destruct (batch_pairs_and_excludes (λ x, x) (λ x, x) (λ l, l) demo_amb 1 demo_state demo_prepare.1
              (demo_batch 1) demo_prepared H) as [_ Hin].
  refine (Hin _ (demo_delta "a" 1 [f32_zero; f32_of_Z 1]) [f32_zero; f32_of_Z 1] _ _ _ _).
  - vm_compute. reflexivity.
  - unfold demo_batch. right. left.
  - vm_compute. reflexivity.
  - vm_compute. reflexivity.
  - intros Hs. vm_compute in Hs. discriminate Hs.
Defined.

Lemma round_ignores_arrival_order_witness :
  let opened := {| op_round := 1; op_weights := []; op_active := []; op_selected := [] |} in
  let f ds := {| flush_round := 1; flush_reason := Timeout; flush_deltas := ds |} in
  close_round (λ x, x) (λ x, x) (λ l, l) demo_amb opened (f (demo_batch 1)) demo_state =
  close_round (λ x, x) (λ x, x) (λ l, l) demo_amb opened (f (rev (demo_batch 1))) demo_state.
Proof.
  intros opened f. apply (round_ignores_arrival_order (λ x, x) (λ x, x) (λ l, l) demo_amb opened
    (f (demo_batch 1)) (f (rev (demo_batch 1))) demo_state).
  - apply Permutation_rev.
  - reflexivity.
  - apply (bool_decide_unpack _). vm_compute. reflexivity.
Defined.

Lemma demo_total : BackendsTotal (R:=InMemoryRegistry) (L:=MemoryLog) (T:=()).
Proof. split; done. Qed.

(** The demonstration's aggregator, [fedavg], is well formed in every state. *)
Definition any_state : SampleCountWeighting → Prop := λ _, True.

Lemma demo_laws : AggregatorLawsOn SampleCountWeighting weighted_average_aggregator any_state.
Proof. exact (laws_everywhere weighted_average_laws). Defined.

Lemma round_never_panics_witness :
  krum_run.2 ≠ Panic ∧ noise_ok (st_privacy krum_run.1).
Proof.
  destruct (round_never_panics (bound:=2 ^ 64) (BT:=demo_total) (λ x, x) (λ x, x) (λ l, l) any_state (AL:=demo_laws)
    demo_amb demo_await (demo_await_ran demo_amb) krum_state ltac:(vm_compute; reflexivity) Logic.I ltac:(vm_compute; reflexivity)) as [Hok _].
  destruct (Hok ltac:(vm_compute; discriminate)) as [Hp [Hn _]].
  split; [exact Hp|exact Hn].
Defined.

(** Two iterations: a round that completes, then a shutdown. *)
Definition demo_iterations : list iteration :=
  [ {| it_amb := demo_amb; it_await := (demo_await : Demo → _); it_shutdown := false |};
    {| it_amb := demo_amb; it_await := (demo_await : Demo → _); it_shutdown := true |} ].

Definition demo_loop : Demo * loop_outcome :=
  round_loop (λ x, x) (λ x, x) (λ l, l) (λ _, "error"%string) demo_iterations demo_state.

Lemma round_loop_is_honest_witness :
  is_healthy (health_state (st_health demo_loop.1)) = false ∧ store_below demo_loop.1.
Proof.
  assert (H : demo_loop = (demo_loop.1, Exit)) by (vm_compute; reflexivity).
  assert (Hran : Forall (λ it, ∀ s : Demo, handlers_ran (it_amb it) s (it_await it s).1 (it_await it s).2) demo_iterations)
    by (do 2 (apply Forall_cons_2; [intros s; apply demo_await_ran|]); apply Forall_nil_2).
  destruct (round_loop_is_honest (bound:=2 ^ 64) (BT:=demo_total) (AL:=demo_laws) (λ x, x) (λ x, x) (λ l, l) (λ _, "error"%string)
    any_state demo_iterations demo_state demo_loop.1 Exit Hran
    ltac:(repeat constructor; vm_compute; discriminate) ltac:(vm_compute; discriminate) eq_refl demo_store_below
    ltac:(vm_compute; reflexivity) Logic.I (proj1 demo_round_u64)
    ltac:(vm_compute; reflexivity) H) as (_ & Hiff & Hb & _).
  split; [|exact Hb]. apply Hiff. reflexivity.
Defined.

(** A timeout that validation only warns about: the first round panics at its wait, the
    loop is gone, and [/health] still says that it runs. *)
Definition patient_env : Overrides :=
  {| ov p := match p return option (ptype p) with P_round_timeout_secs => Some u64_max | _ => None end;
     ov_quorum := None |}.

Definition patient_config : ResolvedConfig := resolve CrossSilo Research None patient_env Overrides_default.

Definition patient_state : Demo :=
  let 'Build_AppState _ re v h st al se ag p ac lg r b he ps tr jw := demo_state in
  Build_AppState patient_config re v h st al se ag p ac lg r b he ps tr jw.

Lemma huge_timeout_kills_the_loop :
  errors (validated shipped_entries patient_config) = [] ∧
  let '(s, out) := round_loop_step (λ x, x) (λ x, x) (λ l, l) (λ _, "error"%string) demo_amb demo_await false patient_state in
  out = Died ∧ is_healthy (health_state (st_health s)) = true.
Proof. vm_compute. split; [reflexivity|split; reflexivity]. Qed.

(** A token is valid when it is "good:" and a name; it then speaks for that
    name. *)
#[local] Instance demo_jwt : JwtLibrary := {|
  decoding_key := ();
  from_rsa_pem _ := Some ();
  from_ec_pem _ := Err "no key"%string;
  decode _ _ token :=
    if decide (String.substring 0 5 token = "good:"%string)
    then Ok {| sub := String.substring 5 (String.length token) token; exp_claim := 0; iat := None |}
    else Err InvalidSignature;
  header_alg _ := None;
|}.

Definition demo_show : Displays :=
  {| show_store _ := ""; show_buffer _ := ""; show_jwt _ := ""; show_node _ := ""; show_registry _ := "" |}%string.

(** The open round 1 with a quorum of two. *)
Definition open_state :=
  set_current_buffer (Some (buffer_new 1 2)) (demo_state_of JwtKeyMaterial).

Definition demo_chunk (data : bytes) : DeltaChunk :=
  {| chunk_client_id := "a"; chunk_round := 1; chunk_index := 0; total_chunks := 1; chunk_data := data;
     chunk_num_samples := 5; chunk_local_steps := None; chunk_control_variate := None; chunk_local_loss := None |}.

Definition demo_stream : list DeltaChunk := [demo_chunk (encode_weights [f32_one])].

Lemma submission_effect_exact_witness :
  total_bytes demo_stream ≤ 268435456 ∧
  ∃ b', (submit_stream demo_show demo_stream open_state).1 = set_current_buffer (Some b') open_state.
Proof.
  destruct (submission_effect_exact demo_show demo_stream open_state
    (submit_stream demo_show demo_stream open_state).1
    (Ok {| ack_accepted := true; ack_message := "accepted delta from a for round 1" |})) as (Hok & _ & _).
  - vm_compute. split; [discriminate|reflexivity].
  - vm_compute. reflexivity.
  - destruct (Hok _ eq_refl) as (Hle & d & b & b' & ds & _ & _ & _ & _ & _ & Hs).
    split; [exact Hle|]. exists b'. exact Hs.
Defined.

Definition demo_key : JwtKeyMaterial := {| jk_decoding_key := (); jk_algorithm := ES256 |}.

Definition jwt_env : Overrides :=
  {| ov p := match p return option (ptype p) with
             | P_auth => Some Jwt | P_require_node_auth => Some true | _ => None end; ov_quorum := None |}.

Definition guarded_state :=
  let 'Build_AppState _ re v h st _ se ag p ac lg r b he ps tr jw := demo_state_of JwtKeyMaterial in
  Build_AppState (resolve CrossSilo Research None jwt_env Overrides_default)
    re v h st (allow "n" (CertFingerprint "f") ∅) se ag p ac lg r b he ps tr
    (Some demo_key).

Lemma registration_admits_exactly_witness :
  (register_client demo_show 0 "n" "good:n" (Some "f"%string) guarded_state).2 =
    Ok {| reg_accepted := true; reg_message := "registered" |} ∧
  (register_client demo_show 0 "n" "good:m" (Some "f"%string) guarded_state).2 = Err (Unauthenticated "") ∧
  (register_client demo_show 0 "x" "good:x" (Some "f"%string) guarded_state).2 = Err (NotAllowed "x").
Proof.
  split; [|split].
  - destruct (registration_admits_exactly demo_show 0 "n" "good:n" (Some "f"%string) guarded_state) as (H & _).
    rewrite H; [vm_compute; reflexivity|]. split; intros _.
    + left. exists demo_key, {| sub := "n"; exp_claim := 0; iat := None |}. vm_compute. split; [reflexivity|split; reflexivity].
    + vm_compute. reflexivity.
  - destruct (registration_admits_exactly demo_show 0 "n" "good:m" (Some "f"%string) guarded_state)
      as (_ & _ & H & _).
    exact (H (SubjectMismatch "m" "n") ltac:(vm_compute; reflexivity)).
  - destruct (registration_admits_exactly demo_show 0 "x" "good:x" (Some "f"%string) guarded_state)
      as (_ & _ & _ & H).
    exact (H ltac:(vm_compute; reflexivity) ltac:(vm_compute; reflexivity) ltac:(vm_compute; reflexivity)).
Defined.

(** Registration guards nothing but itself: the same guarded server takes a
    submission from a client it never admitted. *)
Lemma unadmitted_submission_is_accepted :
  ¬ admitted guarded_state "mallory" "" None ∧
  is_ok (submit_delta demo_show
           [{| chunk_client_id := "mallory"; chunk_round := 1; chunk_index := 0; total_chunks := 1;
               chunk_data := []; chunk_num_samples := 1; chunk_local_steps := None;
               chunk_control_variate := None; chunk_local_loss := None |}]
           (set_current_buffer (Some (buffer_new 1 2)) guarded_state)).2 = true.
Proof.
  split; [|vm_compute; reflexivity]. intros [_ Hlist]. specialize (Hlist ltac:(vm_compute; reflexivity)).
  vm_compute in Hlist. discriminate Hlist.
Qed.

(** An operator edits the guarded server's allow-list. *)
Definition plain_segment (segment : string) : option string := Some segment.

Lemma allowlist_edits_decide_registration_witness :
  let put := (handler plain_segment 0 (PostAllowlist "m" (HttpCertFingerprint "g")) guarded_state).1 in
  let cut := (handler plain_segment 0 (DeleteAllowlist "n") guarded_state).1 in
  register_client demo_show 1 "m" "good:m" (Some "g"%string) put = enroll demo_show 1 "m" put ∧
  register_client demo_show 1 "n" "good:n" (Some "f"%string) cut = (cut, Err (NotAllowed "n")).
Proof.
  intros put cut. split.
  - destruct (allowlist_edits_decide_registration plain_segment demo_show 0 1 "m" "good:m" "m"
      (HttpCertFingerprint "g") (Some "g"%string) guarded_state put (AllowlistOpResponse true)) as [H _].
    + vm_compute. reflexivity.
    + vm_compute. reflexivity.
    + reflexivity.
    + rewrite H; [apply decide_True; reflexivity|reflexivity].
  - destruct (allowlist_edits_decide_registration plain_segment demo_show 0 1 "n" "good:n" "n"
      (HttpCertFingerprint "f") (Some "f"%string) guarded_state cut (AllowlistOpResponse true)) as [_ H].
    + vm_compute. reflexivity.
    + vm_compute. reflexivity.
    + reflexivity.
    + apply H. reflexivity.
Defined.

(** ** A start

    An empty environment, no files, memory backends; the Postgres handle keeps a
    ledger and no checkpoints. *)
#[local] Instance ledger_store : Store MemoryLog := {|
  load_latest_weights _ := Err NoCheckpoint;
  save_checkpoint _ _ s := (s, Err NoCheckpoint);
  list_checkpoints _ := Ok [];
  load_checkpoint _ _ := Err NoCheckpoint;
|}.

#[local] Instance ledger_store_laws : StoreLaws MemoryLog.
Proof. split; simpl; intros; simplify_eq/=; (done || by left). Qed.

#[local] Instance no_addresses : AddressFromStr :=
  {| socket_addr_from_str _ := None; dim_from_str _ := None |}.
#[local] Existing Instance demo_toml.
#[local] Instance no_numbers : FromStrs := {| from_str _ _ := None; usize_from_str _ := None |}.

Definition bare_machine : Surroundings :=
  {| env_var _ := None; fs_read _ := Err "no such file"%string |}.

Definition memory_net : Connectors InMemoryRegistry InMemoryNodeAllowlist MemoryLog InMemoryStore () :=
  {| redis_registry _ := Ok ∅; redis_allowlist _ := Ok ∅; postgres _ _ := Ok ([], ∅);
     s3 _ _ _ _ := Ok (InMemoryStore_new []); sidecar _ := Err "unreachable"%string;
     describe t := (t, Err "unreachable"%string) |}.

Definition adam_env : Overrides :=
  {| ov p := match p return option (ptype p) with P_aggregator => Some "fedadam"%string | _ => None end;
     ov_quorum := None |}.

Definition adam_config : ServerConfig :=
  {| resolved := resolve CrossDevice Research None adam_env Overrides_default; sc_mode := Research;
     initial_weights_dim := 2 |}.

Definition demo_start :=
  start (N:=permit_notify) (λ x, x) (λ x _, x) leave_unordered (λ l, l) shipped_entries (λ _, ""%string)
    bare_machine memory_net (λ _, ()) (λ _, Ok ()) (λ addr, Ok addr) (λ l, Ok l).

Definition demo_outside := outside_total bare_machine memory_net (Tls:=()) (λ _, Ok ())
  (λ addr, Ok addr) (λ l, Ok l) (λ _, Err ""%string) (λ _, Err ""%string).

Lemma demo_outside_total : demo_outside.
Proof. split; try done. intros p v. destruct p; try done. by destruct v. Qed.

Lemma startup_never_panics_witness : demo_start None adam_config ≠ Panic.
Proof.
  unfold demo_start.
  exact (proj1 (startup_never_panics (N:=permit_notify) (λ x, x) (λ x _, x) leave_unordered (λ l, l) shipped_entries
    (λ _, ""%string) bare_machine memory_net (λ _, ()) (λ _, Ok ()) (λ addr, Ok addr) (λ l, Ok l)
    (λ _, Err ""%string) (λ key, key) (λ _, NotFound) (λ _, Err ""%string) (λ _, ∅) (Permutation_refl _)
    None adam_config demo_outside_total) ltac:(vm_compute; discriminate)).
Defined.

Lemma demo_start_ok : is_ok (demo_start None adam_config) = true.
Proof. vm_compute. reflexivity. Qed.

Lemma demo_start_bare st :
  demo_start None adam_config = Ok st → started_admin_token st = None ∧ asks_sidecar (started_state st) = false.
Proof.
  assert (H : match demo_start None adam_config with
              | Ok st => started_admin_token st = None ∧ asks_sidecar (started_state st) = false
              | _ => True
              end) by (vm_compute; split; reflexivity).
  intros Hst. by rewrite Hst in H.
Qed.

Lemma started_server_is_guarded_witness :
  ∃ st, demo_start None adam_config = Ok st ∧ is_loopback (ip (started_http_addr st)) = true ∧
    st_trusted_reference (started_state st) = None.
Proof.
  pose proof demo_start_ok as Hok. destruct (demo_start None adam_config) as [st| |] eqn:Hst; [|discriminate Hok..].
  exists st. split; [reflexivity|].
  destruct (started_server_is_guarded (λ x, x) (λ x _, x) leave_unordered (λ l, l) shipped_entries (λ _, ""%string)
    bare_machine memory_net (λ _, ()) (λ _, Ok ()) (λ addr, Ok addr) (λ l, Ok l) (Permutation_refl _)
    None adam_config st Hst) as (_ & (_ & _ & Hb & _) & _ & Hadm & Hside).
  destruct (demo_start_bare st Hst) as [Ht Ha]. split.
  - destruct Hadm as [H|[t H]]; [exact H|]. rewrite Ht in H. discriminate H.
  - destruct (st_trusted_reference (started_state st)) as [t|]; [|reflexivity]. exfalso.
    rewrite Ha in Hside. destruct Hside as [H _]. discriminate H. exists t. reflexivity.
Defined.

(** *** The durable backends

    The same start with the registry and the allow-list in Redis and the checkpoints and
    the privacy history in Postgres, each a server in memory. *)
#[local] Existing Instance local_redis.
#[local] Existing Instance local_bucket.
#[local] Existing Instance local_bucket_laws.
#[local] Existing Instance local_bucket_readable.
#[local] Instance redis_at_hand : RedisConnect Keyspace := {|
  redis_client := ();
  client_open _ := inr ();
  get_connection_manager_with_config _ _ _ := inr empty_keyspace;
|}.
#[local] Instance s3_at_hand : S3Client (gmap (list Ascii.ascii) bytes) := λ _ _ _, ∅.

Definition durable_machine : Surroundings :=
  {| env_var name :=
       if String.eqb name "CONFLUX_REGISTRY_BACKEND" then Some "redis"%string
       else if String.eqb name "CONFLUX_REDIS_URL" then Some "redis://localhost"%string
       else if String.eqb name "CONFLUX_STORE_BACKEND" then Some "postgres"%string
       else if String.eqb name "CONFLUX_POSTGRES_URL" then Some "postgres://localhost"%string
       else if String.eqb name "CONFLUX_ACCOUNTING_PERSISTENCE" then Some "true"%string
       else None;
     fs_read _ := Err "no such file"%string |}.

Definition durable_net : Connectors (RedisRegistry Keyspace) (RedisNodeAllowlist Keyspace) (PostgresStore LocalDatabase)
                           (S3Store (gmap (list Ascii.ascii) bytes)) () :=
  {| redis_registry := RedisRegistry_connect; redis_allowlist := RedisNodeAllowlist_connect;
     postgres := postgres_connect_with_table (λ _, "not a plain SQL identifier"%string); s3 := s3_connect;
     sidecar _ := Err "unreachable"%string; describe t := (t, Err "unreachable"%string) |}.

Definition durable_start :=
  start (N:=permit_notify) (λ x, x) (λ x _, x) leave_unordered (λ l, l) shipped_entries (λ _, ""%string)
    durable_machine durable_net (λ _, ()) (λ _, Ok ()) (λ addr, Ok addr) (λ l, Ok l).

Lemma durable_total :
  BackendsTotal (R:=AnyRegistry (RedisRegistry Keyspace)) (L:=PostgresStore LocalDatabase) (T:=()).
Proof.
  split; try done. by intros [].
Qed.

Lemma started_server_never_dies_witness :
  ∃ st, durable_start None adam_config = Ok st ∧
    (round_loop (λ x, x) (λ x, x) (λ l, l) (λ _, "error"%string)
       [{| it_amb := demo_amb; it_await := demo_await; it_shutdown := false |};
        {| it_amb := demo_amb; it_await := demo_await; it_shutdown := true |}] (started_state st)).2 ≠ Died.
Proof.
  assert (Hok : is_ok (durable_start None adam_config) = true) by (vm_compute; reflexivity).
  destruct (durable_start None adam_config) as [st| |] eqn:Hst; [|discriminate Hok..].
  exists st. split; [reflexivity|].
  apply (started_server_never_dies (bound:=2 ^ 63) (SLs:=store_laws_weaken (2 ^ 64) (2 ^ 63) ltac:(lia) S3Store_laws)
    (GL:=unit_gaussian_laws) (BT:=durable_total) (λ x, x) (λ x _, x) leave_unordered (λ l, l) shipped_entries
    (λ _, ""%string) durable_machine durable_net (λ _, ()) (λ _, Ok ()) (λ addr, Ok addr) (λ l, Ok l)
    (Permutation_refl _) (λ x, x) (λ x, x) (λ l, l) (λ _, "error"%string) None adam_config st _ Hst).
  - vm_compute. reflexivity.
  - apply (bool_decide_unpack _). vm_compute. reflexivity.
  - repeat constructor; vm_compute; discriminate.
  - vm_compute. reflexivity.
  - do 2 (apply Forall_cons_2; [intros s; apply demo_await_ran|]). apply Forall_nil_2.
Defined.
End witnesses.

(** ** A sidecar *)

Definition sidecar_machine : Surroundings :=
  {| env_var name := if String.eqb name "CONFLUX_TRUSTED_REFERENCE_ADDR" then Some "http://127.0.0.1:50100"%string else None;
     fs_read _ := Err "no such file"%string |}.

Definition sidecar_net : Connectors InMemoryRegistry InMemoryNodeAllowlist MemoryLog InMemoryStore () :=
  {| redis_registry _ := Ok ∅; redis_allowlist _ := Ok ∅; postgres _ _ := Ok ([], ∅);
     s3 _ _ _ _ := Ok (InMemoryStore_new []); sidecar _ := Ok ();
     describe t := (t, Ok (SidecarCapabilities_from (describe_rpc (TM:=shipped_model (λ _, ""%string)) demo_model))) |}.

Lemma accepted_sidecar_serves_witness :
  is_ok (get_reference_update (TM:=shipped_model (λ _, ""%string)) demo_model
           {| rr_round := 3; rr_global_weights := encode_weights [f32_zero; f32_one] |}) = true ∧
  match get_reference_update (TM:=shipped_model (λ _, ""%string)) demo_model
           {| rr_round := 3; rr_global_weights := encode_weights [f32_zero; f32_one] |} with
  | Ok resp => ru_round resp = 3
  | _ => True
  end.
Proof.
  split; [vm_compute; reflexivity|]. pose proof demo_start_ok as Hok.
  destruct (demo_start None adam_config) as [st| |]; [|discriminate Hok..].
  assert (Hconn : ∃ s', connect_trusted_reference sidecar_machine sidecar_net (started_state st) (Z.of_nat 2) = Ok s').
  { unfold connect_trusted_reference. cbn [trusted_reference_addr env_var sidecar_machine String.eqb Ascii.eqb Bool.eqb sidecar describe sidecar_net].
    destruct (requires_trusted_reference _), (requires_candidate_scores _); eexists; reflexivity. }
  destruct Hconn as [s' Hconn].
  assert (Hwf : Forall f32_wf [f32_zero; f32_one]) by (repeat constructor; vm_compute; intuition congruence).
  assert (Hfin : all_finite [f32_zero; f32_one]) by (repeat constructor).
  destruct (accepted_sidecar_serves sidecar_machine sidecar_net (λ _, ""%string) digits_to_f32 (λ _, None)
    (λ s, Z.to_nat <$> parse_u64 (String.list_ascii_of_string s)) 50100 demo_env (λ _, Ok demo_file) 50100 demo_model
    (started_state st) s' 2 [f32_zero; f32_one] 3 demo_main_model (λ _, eq_refl) Hconn eq_refl Hfin Hwf) as [H _].
  destruct (get_reference_update _ _) as [resp| |]; [exact (proj1 H)|exact Logic.I..].
Defined.
