(* ===== verification/DoctorDemo.v ===== *)
(** * [cflux doctor] on a concrete machine

    The witness of [Doctor.doctor_agrees_with_start], and two deployments it
    passes and the server refuses. *)

From S2P Require Import Prelude Float Wire Buffer Weights Averaging Contracts Registry Privacy Store.
From S2P Require Import Config State Dispatcher Flanders Catalog Validate Profile Environment Experiment.
From S2P Require Import Unselected Admin Startup ConfigCommand Doctor Demo.

Open Scope Z_scope.

#[local] Existing Instance demo_jwt.
#[local] Existing Instance permit_notify.
#[local] Existing Instance key_order.
#[local] Existing Instance ledger_store.

(** The one address these machines name. *)
#[local] Instance every_interface : AddressFromStr :=
  {| socket_addr_from_str s := if String.eqb s "0.0.0.0:8080" then Some {| ip := V4 0 0 0 0; port := 8080 |} else None;
     dim_from_str _ := None |}.

Definition resolution_of (c : ResolvedConfig) : Resolution :=
  {| r_config := c; r_topology_chain := ["cross_device"]%string; r_mode_chain := ["research"]%string;
     r_profile_dir := "profiles"; r_unselected := UnselectedProfiles_default;
     r_validation := validated shipped_entries c |}.

Definition doctored (sys : Surroundings) (net : Connectors InMemoryRegistry InMemoryNodeAllowlist MemoryLog InMemoryStore ())
    (c : ResolvedConfig) : outcome CliError (Report (list DoctorCheck)) :=
  doctor (λ _, ""%string) (λ _, ()) (λ x, x) (λ x _, x) leave_unordered net (λ _ _, Accepts) sys (resolution_of c).

#[local] Notation bare_doctor := (doctored bare_machine memory_net (resolved adam_config)).

Lemma bare_doctor_ok : match bare_doctor with Ok report => exit_code report = 0 | _ => False end.
Proof. vm_compute. reflexivity. Qed.

Lemma doctor_agrees_with_start_witness :
  is_ok (prepare_material (Tls:=()) shipped_entries (λ _, ""%string) bare_machine (λ _, ()) (resolved adam_config)
           (cfg_mode (resolved adam_config))) = true.
Proof.
  pose proof bare_doctor_ok as Hok. destruct bare_doctor as [report| |] eqn:Hd; [|destruct Hok..].
  destruct (doctor_agrees_with_start (λ _, ""%string) (λ _, ()) (λ x, x) (λ x _, x) leave_unordered memory_net
    (λ _ _, Accepts) shipped_entries bare_machine (resolution_of (resolved adam_config)) report eq_refl Hd)
    as (Hmaterial & _ & _ & Hexit).
  apply Hmaterial. rewrite !(Hexit Hok). reflexivity.
Defined.

(** An admin API on every interface with no token: no check looks at it, and the
    server refuses to start. *)
Definition exposed_machine : Surroundings :=
  {| env_var v := if String.eqb v "CONFLUX_HTTP_ADDR" then Some "0.0.0.0:8080"%string else None;
     fs_read _ := Err "no such file"%string |}.

Definition exposed_start :=
  start (N:=permit_notify) (λ x, x) (λ x _, x) leave_unordered (λ l, l) shipped_entries (λ _, ""%string)
    exposed_machine memory_net (λ _, ()) (λ _, Ok ()) (λ addr, Ok addr) (λ l, Ok l) None adam_config.

Lemma doctor_overlooks_exposed_admin :
  match doctored exposed_machine memory_net (resolved adam_config) with
  | Ok report => exit_code report = 0
  | _ => False
  end ∧
  match exposed_start with
  | Err e => e = ServeAdminBinding (ExposedWithoutToken {| ip := V4 0 0 0 0; port := 8080 |})
  | _ => False
  end.
Proof. split; vm_compute; reflexivity. Qed.

(** A sidecar whose model has another dimension than the experiment's. *)
Definition trust_env : Overrides :=
  {| ov p := match p return option (ptype p) with P_aggregator => Some "fltrust"%string | _ => None end;
     ov_quorum := None |}.
Definition trust_config : ServerConfig :=
  {| resolved := resolve CrossDevice Research None trust_env Overrides_default; sc_mode := Research;
     initial_weights_dim := 2 |}.

Definition trust_net : Connectors InMemoryRegistry InMemoryNodeAllowlist MemoryLog InMemoryStore () :=
  {| redis_registry _ := Ok ∅; redis_allowlist _ := Ok ∅; postgres _ _ := Ok ([], ∅);
     s3 _ _ _ _ := Ok (InMemoryStore_new []); sidecar _ := Ok ();
     describe t := (t, Ok {| supports_reference_update := true; supports_scoring := false; model_dim := Some 7;
                             description := "another model" |}) |}.

Definition trust_start :=
  start (N:=permit_notify) (λ x, x) (λ x _, x) leave_unordered (λ l, l) shipped_entries (λ _, ""%string)
    sidecar_machine trust_net (λ _, ()) (λ _, Ok ()) (λ addr, Ok addr) (λ l, Ok l) None trust_config.

Lemma doctor_overlooks_model_dimension :
  match doctored sidecar_machine trust_net (resolved trust_config) with
  | Ok report => exit_code report = 0
  | _ => False
  end ∧
  match trust_start with Err e => e = ServeSidecar (WrongModelDimension "http://127.0.0.1:50100" 7 2) | _ => False end.
Proof. split; vm_compute; reflexivity. Qed.
