(* ===== verification/NetworkDemo.v ===== *)
(** * A submission over a network that fails

    The witness of [Transport.update_crosses_the_network], on the server of [Demo]. *)

From S2P Require Import Prelude Float Wire Buffer Weights Averaging Registry Reputation Privacy Store Config State Round Submission Dispatcher Node Transport Demo.

Open Scope Z_scope.

#[local] Existing Instance permit_notify.
#[local] Existing Instance unit_gaussian.
#[local] Existing Instance demo_jwt.
#[local] Existing Instance key_order.

(** Messages of 4 MiB: a chunk is measured by its payload, a task by its weights. *)
#[local] Instance four_mib : MessageLimit := {|
  chunk_fits c := chunk_bytes c <=? GRPC_MESSAGE_BYTES;
  task_fits t := Z.of_nat (length (model_weights t)) <=? GRPC_MESSAGE_BYTES;
|}.

#[local] Instance four_mib_laws : MessageLimitLaws.
Proof.
  split; [by intros task; cbn; rewrite Z.leb_le|]. intros c c' (data & Hl & ->). cbn. unfold chunk_bytes. by rewrite <-Hl.
Qed.

Definition connection_gone : GrpcStatus := {| status_code := CodeUnavailable; status_message := "connection reset" |}.
Definition message_too_long : GrpcStatus := {| status_code := CodeOutOfRange; status_message := "message too large" |}.

Definition demo_node_bridge : NodeBridge := NodeBridge_new "c".

(** The clock of a server nobody else talks to. *)
#[local] Notation demo_link :=
  (local_link (Gs:=unit_gaussian) demo_show 268435456 (λ b, b) None status_message connection_gone message_too_long (λ _ _, None)
     (λ t w, (w.1, w.2 + t)) demo_node_bridge).

(** The first answer of the server is lost and the second attempt is cut: the client hears
    of the third, and the round holds its update twice. *)
Lemma update_crosses_the_network_witness :
  ∃ chunks, build_chunks (E:=DispatchError) "c" 1 sample_result 5 = Ok chunks ∧
    let r := @up_submit_delta _ demo_link chunks ((0%nat, ((open_state, 0), [AnswerLost; CutAfter 1])), []) in
    submitted_by "c" r.1.1.2.1 = [delta_of "c" 1 sample_result; delta_of "c" 1 sample_result] ∧ is_ok r.2 = true.
Proof.
  destruct (update_crosses_the_network (Gs:=unit_gaussian) (MLL:=four_mib_laws) demo_show 268435456 (λ b, b) None status_message connection_gone message_too_long
    (λ _ _, None) (λ t w, (w.1, w.2 + t)) demo_node_bridge "c" 1 sample_result 5 0%nat 0%nat (tr_weights sample_result)
    ((open_state, 0), [AnswerLost; CutAfter 1]) []) as (chunks & Hb & H).
  - repeat constructor; vm_compute; intuition congruence.
  - unfold variate_fits. simpl. lia.
  - vm_compute. reflexivity.
  - reflexivity.
  - intros t w Hw. split; [exact Hw|reflexivity].
  - exists (buffer_new 1 2), []. vm_compute. split; [reflexivity|]. split; reflexivity.
  - exists chunks. split; [exact Hb|]. intros r.
    assert (Hchunks := Hb). vm_compute in Hchunks. injection Hchunks as <-.
    destruct H as (_ & _ & Hm & Hr & _).
    + repeat constructor.
    + vm_compute. discriminate.
    + vm_compute. split; [discriminate|reflexivity].
    + split; [exact Hm|]. 
      change (match r.2 with Ok ack => true = true ∧ ack_accepted ack = true | Err _ => true = false | Panic => False end) in Hr.
      destruct (r.2) as [ack|e|]; [reflexivity|discriminate Hr|destruct Hr].
Defined.
