(* ===== verification/ServeDemo.v ===== *)
(** * A server that is told to stop before its first round

    The witness of [Serve.shutdown_is_graceful], on the server of [Demo]. *)

From S2P Require Import Prelude Float Buffer Averaging Contracts Registry Privacy Store State Round RoundLoop Startup Serve Demo.

Open Scope Z_scope.

#[local] Existing Instance permit_notify.
#[local] Existing Instance unit_gaussian.
#[local] Existing Instance first_sampler.
#[local] Existing Instance key_order.
#[local] Existing Instance no_sidecar.

#[local] Notation demo_serving := (serving (K:=()) demo_state).
#[local] Notation demo_runs := (runs (λ x, x) (λ x, x) (λ l, l) (λ _, "error"%string) 86400000).

(** The server lives for a day of its clock.  The listeners hear of it and drain, the loop
    ends: five steps, and [serve] returns. *)
Lemma shutdown_is_graceful_witness :
  ∃ last, demo_runs 5 (request_shutdown demo_serving) last ∧ is_Some (serve_result "panicked" last).
Proof.
  destruct (round_loop_step (λ x, x) (λ x, x) (λ l, l) (λ _, "error"%string) demo_amb demo_await true demo_state)
    as [stopped out] eqn:Hstop.
  assert (Hout : out = Exit) by (injection Hstop as _ <-; reflexivity). subst out.
  set (last := {| sv_latch := true; sv_grpc := ListenerEnded (Ok ()); sv_http := ListenerEnded (Ok ());
                  sv_loop := LoopEnded; sv_state := stopped |}).
  exists last. assert (Hm : demo_runs 5 (request_shutdown demo_serving) last).
  { eapply runs_own; [apply grpc_steps, listener_told; reflexivity|].
    eapply runs_own; [apply grpc_steps, listener_drained|].
    eapply runs_own; [apply http_steps, listener_told; reflexivity|].
    eapply runs_own; [apply http_steps, listener_drained|].
    eapply runs_own; [apply loop_steps; eapply loop_stops; [reflexivity|exact Hstop]|apply runs_none]. }
  split; [exact Hm|].
  refine (match shutdown_is_graceful (bound:=2 ^ 64) (BT:=demo_total) (AL:=demo_laws) (λ x, x) (λ x, x) (λ l, l) (λ _, "error"%string)
    "panicked" 86400000 any_state demo_state 0 5 (request_shutdown demo_serving) _ _ _ _ _ with
    | conj _ (conj _ (conj H _)) => proj2 (proj2 (proj2 (proj2 (H eq_refl Hm)))) eq_refl end).
  - split; [vm_compute; reflexivity|exact Logic.I].
  - vm_compute. discriminate.
  - vm_compute. discriminate.
  - eapply runs_world; [apply shutdown_requested|apply runs_none].
Defined.
