(* ===== verification/StartDemo.v ===== *)
(** * [cflux server start] on a concrete machine

    The witness of [StartCommand.address_file_is_the_truth], and the one name for the
    file that undoes it. *)

From S2P Require Import Prelude Float Wire Buffer Weights Averaging Contracts Registry Privacy Store.
From S2P Require Import Config State Dispatcher Flanders Catalog Validate Profile Environment Experiment.
From S2P Require Import Admin Startup SidecarService Federation Process Text ConfigCommand StartCommand Demo.

Open Scope Z_scope.

#[local] Existing Instance demo_jwt.
#[local] Existing Instance permit_notify.
#[local] Existing Instance key_order.
#[local] Existing Instance ledger_store.
#[local] Existing Instance demo_toml.
#[local] Existing Instance no_numbers.

Definition grpc_bound : SocketAddr := {| ip := V4 127 0 0 1; port := 50051 |}.
Definition http_bound : SocketAddr := {| ip := V4 127 0 0 1; port := 8080 |}.

(** The addresses of this machine, and one that nothing listens on. *)
Definition read_addr (text : string) : option SocketAddr :=
  if String.eqb text "127.0.0.1:50051" then Some grpc_bound
  else if String.eqb text "127.0.0.1:8080" then Some http_bound
  else if String.eqb text "127.0.0.1:5005" then Some {| ip := V4 127 0 0 1; port := 5005 |}
  else None.
Definition shown_addr (a : SocketAddr) : string := if Z.eqb (port a) 50051 then "127.0.0.1:50051" else "127.0.0.1:8080".

#[local] Instance read_addrs : AddressFromStr := {| socket_addr_from_str := read_addr; dim_from_str _ := None |}.

(** Files that are written a byte at a time. *)
#[local] Instance byte_disk : ReportDisk (gmap string string) := {|
  disk_write path text w := (<[path := text]> w, None);
  during_write path text n w := <[path := String.substring 0 n text]> w;
  disk_rename src dst w := match w !! src with
                           | Some text => (<[dst := text]> (delete src w), None)
                           | None => (w, Some "no such file"%string)
                           end;
  disk_read path w := w !! path;
|}.

#[local] Instance byte_disk_laws : ReportDiskLaws (gmap string string).
Proof.
  split; cbn.
  - intros path text w w' [= <-]. by rewrite lookup_insert_eq.
  - intros path text p w Hp. by rewrite lookup_insert_ne by done.
  - intros path text n p w Hp. by rewrite lookup_insert_ne by done.
  - intros src dst text w w' _ ->. intros [= <-]. by rewrite lookup_insert_eq.
  - intros src dst p e w w'. destruct (w !! src); [done|]. by intros [= <- _].
Qed.

Definition tmp_beside (path : string) : string := if String.eqb path "run/server.addr" then "run/server.tmp" else path.

Definition plain_start (addr_file : option string) : ServerStart :=
  {| start_topology := None; start_mode := None; start_config_file := None; start_profile_dir := None;
     start_grpc_addr := None; start_http_addr := None; start_addr_file := addr_file |}.

(** A listener is its port's side: gRPC or not. *)
#[local] Notation demo_server_start addr_file w :=
  (server_start (N:=permit_notify) (λ x, x) (λ x _, x) leave_unordered (λ l, l) shipped_entries (λ _, ""%string) memory_net
     (λ _, ()) (λ _, Ok ()) (λ addr, Ok (Z.eqb (port addr) 50051)) (λ l : bool, Ok (if l then grpc_bound else http_bound))
     (λ _, Err ""%string) (λ key, key) (λ _, NotFound) (λ _, Err ""%string) (λ _, ∅ : gmap string FileRead)
     tmp_beside shown_addr (λ s, s) (Ok ()) (plain_start addr_file) bare_machine w).

Lemma demo_server_start_ok : is_ok (demo_server_start (Some "run/server.addr"%string) (∅ : gmap string string)).2 = true.
Proof. vm_compute. reflexivity. Qed.

Lemma address_file_is_the_truth_witness :
  ∃ text, disk_read "run/server.addr" (demo_server_start (Some "run/server.addr"%string) (∅ : gmap string string)).1 = Some text ∧
    reported_addr read_addr "grpc" text = Some grpc_bound ∧ reported_addr read_addr "http" text = Some http_bound.
Proof.
  pose proof demo_server_start_ok as Hok.
  destruct (demo_server_start (Some "run/server.addr"%string) (∅ : gmap string string)) as [w' [st| |]] eqn:Hs;
    [|discriminate Hok..].
  destruct (address_file_is_the_truth (λ x, x) (λ x _, x) leave_unordered (λ l, l) shipped_entries (λ _, ""%string) memory_net
    (λ _, ()) (λ _, Ok ()) (λ addr, Ok (Z.eqb (port addr) 50051)) (λ l : bool, Ok (if l then grpc_bound else http_bound))
    (λ _, Err ""%string) (λ key, key) (λ _, NotFound) (λ _, Err ""%string) (λ _, ∅ : gmap string FileRead)
    tmp_beside shown_addr (λ s, s) (Ok ()) read_addr) with (a := plain_start (Some "run/server.addr"%string))
    (sys := bare_machine) (path := "run/server.addr"%string) (w := ∅ : gmap string string) (w' := w') (st := st)
    as (grpc & http & Hg & Hh & _ & (text & Hread & Hrg & Hrh) & _).
  - intros l a [= <-]. destruct l; split; (exact eq_refl || apply (bool_decide_unpack _); vm_compute; exact I).
  - reflexivity.
  - discriminate.
  - exact Hs.
  - exists text. split; [exact Hread|]. rewrite Hrg, Hrh.
    assert (Hports : match demo_server_start (Some "run/server.addr"%string) (∅ : gmap string string) with
                     | (_, Ok st) => started_grpc st = true ∧ started_http st = false
                     | _ => False
                     end) by (vm_compute; split; reflexivity).
    rewrite Hs in Hports. destruct Hports as [H1 H2]. rewrite H1 in Hg. rewrite H2 in Hh. injection Hg as <-. injection Hh as <-.
    split; reflexivity.
Defined.

(** A file whose own extension is [tmp] is its own temporary file: it is written in
    place, and a supervisor that reads it half written connects to another port. *)
Lemma tmp_file_is_not_atomic :
  tmp_beside "run/server.tmp" = "run/server.tmp"%string ∧
  ∃ w, report_instant tmp_beside "run/server.tmp" (server_report shown_addr grpc_bound http_bound) (∅ : gmap string string) w ∧
    disk_read "run/server.tmp" w = Some "grpc=127.0.0.1:5005"%string ∧
    reported_addr read_addr "grpc" "grpc=127.0.0.1:5005" = Some {| ip := V4 127 0 0 1; port := 5005 |}.
Proof.
  split; [done|]. eexists. split; [apply (while_writing _ _ _ _ 19)|]. vm_compute. split; reflexivity.
Qed.
